(* ===== verification/_CoqProject ===== *)
-Q . S2P
Prelude.v
Db.v
RunJournal.v
RunJournalProps.v
RunJournalThms.v
PyString.v
PyDict.v
ConfirmGate.v
ConfirmGateProps.v
ConfirmGateInv.v
ConfirmGateThms.v
PosixPath.v
WorkspacePaths.v
WorkspacePathsThms.v
SandboxPolicy.v
SandboxPolicyThms.v
Regex.v
LocalPolicy.v
LocalPolicyThms.v
ToolPermissions.v
ToolPermissionsProps.v
ToolPermissionsThms.v
DataMasking.v
ToolPolicies.v
ToolPoliciesThms.v
Program.v
HarnessLedger.v
ToolEffectJournal.v
ToolEffectGateway.v
ToolEffectProps.v
ToolEffectWorld.v
ToolEffectThms.v
ToolEffectSweep.v
EventOffsets.v
ChatSequencer.v
ChatSequencerProps.v
ChatSequencerThms.v
SteerQueue.v
Artifacts.v
QueuedHandoff.v
SteerQueueProps.v
SteerQueueThms.v
QueuedHandoffThms.v
Outbox.v
OutboxProps.v
OutboxThms.v
DurableRun.v
DurableRunThms.v
ContextIR.v
ContextIRProps.v
ContextIRPlan.v
ContextIRThms.v
BinaryFiles.v
PackageFiles.v
PackageFilesThms.v
FileMerge.v
FileMergeThms.v
Resolver.v
ResolverThms.v
Jobs.v
JobRuntime.v
JobsProps.v
JobRuntimeProps.v
JobsThms.v
ModelSteps.v
ModelStepsProps.v
ModelStepsThms.v
HistoryRows.v
HistoryRowsThms.v
Compaction.v
CompactionProps.v
CompactionThms.v
Lineage.v
LineageProps.v
LineageThms.v
