(* ===== verification/Prelude.v ===== *)
(** * The durable execution core of HugAgentOS, its permissions, packages and jobs

    HugAgentOS is a multi-user agent platform (Python, under
    [src/src/backend]).  A chat turn, an automation or a batch item becomes a
    durable run: a row of [chat_runs] that a worker owns under a lease.  Around
    that row the backend keeps an operation journal, a ledger of tool effects, a
    queue of messages that arrive while a run is busy, and an outbox of memory
    jobs, and promises that none of them is lost, done twice, or done by a worker
    that lost its lease.  What a run may touch is decided on the way to a tool: a
    permission gateway asks a local policy, the preset of the user and a
    confirmation gate, and a sandbox policy confines what is then executed.  What
    extends an agent comes as packages of files that are checked, merged and
    resolved by name; what takes hours runs as a batch job over a ledger of items.
    What a turn did is recorded step by step, replayed to the model in the next
    one, and summarized under a lease when it no longer fits.  This development
    models all of these from the source and proves what they promise, together with
    the assembler that fits the context of a run into the model's budget.

    ** Parts and files

    - [Prelude] (this file): row updates, results, transactions, SQL comparisons,
      JSON dicts, ORDER BY, automation.  [PyString]: Python string operations.
      [PyDict]: dicts in insertion order and the word splitting of [shlex].
      [PosixPath]: [posixpath].  [Regex]: the patterns of [re] that the policy
      uses, with a matcher equal to their declarative reading.
    - [Db]: the tables of [core/db/models] with their unique constraints and
      checks, and [reserve_chat_sequences].
    - [RunJournal] (+[Props], [Thms]): [core/services/run_journal.py], class
      [RunJournal]: accept, claim, renew, append, snapshot, offsets, complete,
      cancel, release, needs_attention, recover.  [DurableRun] (+[Thms]): its
      context manager [durable_run_binding].
    - [EventOffsets]: [_EventOffsets] of [orchestration/chat_run_executor.py].
    - [DataMasking]: [core/infra/data_masking.py].  [ToolPolicies] (+[Thms]): the
      registry, keys and recorded arguments of
      [core/services/tool_effect_ledger.py] and the replay guard of
      [orchestration/tool_effect_recovery.py].
    - [Program]: programs of transactions, identifiers and external calls, their
      interleavings and faults, and a rely-guarantee rule.
    - [HarnessLedger]: [core/services/harness_ledger.py], [core/harness/usage.py].
    - [ToolEffectJournal], [ToolEffectGateway] (+[Props], [World], [Sweep],
      [Thms]): the transactions, the gateway and the recovery sweep of
      [core/services/tool_effect_ledger.py].
    - [ChatSequencer] (+[Props], [Thms]): [core/services/chat_sequencer.py], the
      in-flight row of [core/chat/inflight.py], the content limit of
      [core/services/chat_service.py], the compare-and-set helpers of the executor.
    - [SteerQueue] (+[Props], [Thms]): [core/services/steer_queue.py].
      [Artifacts]: pinned files of [core/services/artifact_service.py].
      [QueuedHandoff] (+[Thms]): the commit callbacks of the executor that store an
      output, acknowledge an injected steer, or hand the chat to a queued message.
    - [Outbox] (+[Props], [Thms]): [core/memory/outbox.py] and the lane check of
      [core/memory/effect_lane.py].
    - [ContextIR] (+[Props], [Plan], [Thms]): [core/llm/context_ir.py] with the
      canonical JSON of [core/llm/execution_manifest.py].
    - [ModelSteps] (+[Props], [Thms]), [HistoryRows] (+[Thms]):
      [core/llm/model_steps.py], the record of a turn, the rows it and the older
      records are replayed to, and the splitting of live rows.  [Compaction]
      (+[Props], [Thms]): [core/llm/compaction.py], truncation and the choice of
      what is summarized.  [Lineage] (+[Props], [Thms]): the leases and checkpoints
      of a compaction in [core/services/chat_service.py], and what
      [core/services/compaction_service.py] replays beside them.
    - [ConfirmGate] (+[Props], [Inv], [Thms]): the human confirmation gate of
      [core/llm/tools/_myspace_confirm.py], as critical sections over a heap of
      pending items.
    - [ToolPermissions] (+[Props], [Thms]): [core/llm/tool_permissions.py]: the
      registry of governed tools, the intents of a call, the tickets; with the
      declarations that [core/llm/tools/pin_tool.py] and
      [core/llm/tools/project_instructions_tool.py] make themselves.
    - [LocalPolicy] (+[Thms]): [core/sandbox/local_policy.py] and the grants of
      [core/services/local_grant_service.py].
    - [SandboxPolicy] (+[Thms]): [core/sandbox/oslayer/policy.py] with
      [build_policy] of [core/sandbox/os_sandbox.py].
    - [WorkspacePaths] (+[Thms]): [core/llm/tools/_paths.py] and
      [services/script_runner_service/workspace_paths.py].
    - [BinaryFiles]: [core/agent_skills/binary_files.py], with UTF-8 and base64.
      [PackageFiles] (+[Thms]): [core/capabilities/archive.py], names, the zip
      directory, writing files.  [FileMerge] (+[Thms]):
      [core/capabilities/change_merge.py], the three-way merge of two copies.
      [Resolver] (+[Thms]): [core/capabilities/resolver.py], which candidate a
      name points to.
    - [Jobs] (+[Props]): [core/services/job_service.py] and
      [core/db/models/job.py].  [JobRuntime] (+[Props]): the callbacks of
      [api/routes/v1/internal_jobs.py], the driver, cancelling, resuming and
      reaping of [orchestration/job_runtime.py], the wake-ups of
      [orchestration/job_wakeup.py].  [JobsThms]: the theorems on both.

    ** How the code is represented

    A [with session() as db] block is a function from the clock reading and the
    tables to a [tx]: commit, leave without commit, or raise.  A method of one
    block is [run_tx] of it; a method of several is a [prog].  Transactions are
    serialised: [FOR UPDATE] and the unique constraints are what the code uses to
    get this, so a transaction sees the tables as the last one left them, reads the
    clock once, and each may fail at its commit, applied or not.  Between the
    transactions of a program anything may happen.  A caller's callback that runs
    in an open transaction ([commit_effect]) is a function on the staged tables.
    Instants are microseconds.  A conditional UPDATE returns how many rows it hit.
    The job service takes no locks, so there a method is a [Jobs.work]: the writes
    it computes from the rows it read, committed to tables that may have changed
    since.  Its handlers and its driver are programs [JobRuntime.jprog] of such
    methods and of requests to a sub-agent, the sandbox or the chat queue.

    ** What the theorems show

    - Run journal: every interleaving of calls keeps the tables well-formed, never
      loses a run or reopens a settled one, and numbers what it appends
      consecutively; a claim excludes rivals until it
      expires; a settled run refuses every worker; [recover] returns the
      classification of every claimable orphan, resumes only before the model was
      called, and is idempotent; snapshots merge; a binding settles its run by how
      its body ended.
    - Tool effects: a never-replay effect is called at most once in every
      execution, after its intent was committed; its outcome is decided once;
      committing a result is idempotent and converges under commit faults; a
      recovery claim fences the previous holder; the sweep completes; retention
      removes exactly the settled facts past their tier.
    - Policies: the registry fails closed, keys separate principals and calls,
      withheld text blocks a replay, plain arguments round-trip, and masked fields
      pass the guard (a finding).
    - Admission: accepting a message is all or nothing, a chat has one main writer
      in every interleaving, numbers are not reused, a stop fences the chat, a
      verdict is final, stored content is bounded.  Event offsets of all workers
      of a run are unique and increasing.
    - Queued messages: every accepted item is delivered at most once and kept, a
      claim is exclusive, accepting is idempotent, completing a run hands the slot
      to exactly the oldest candidate and touches no other item, a steer is acknowledged in the transaction
      that journals it; the recovery of a run lost right after that is proved not
      to be the one its comment describes (a finding).
    - Outbox: a message is settled once when all its effects are final, and every
      transaction simulates an abstract job machine ([OutboxProps.job_step]).
    - Context: the assembler sends and leaves out every item once, within the
      budget, and sends what must be sent, as [ContextIRPlan] describes it apart
      from the loops; its loops compute the reference selection of the history; an
      item over its allowance is shortened to fit or dropped.
    - Replay and compaction: every call of a replayed row is answered in the next,
      whichever record there is; closing a record keeps it and is done once;
      splitting rows keeps every block; a truncated text keeps the longest ends
      that fit.  A history is cut without loss at the earliest place that fits and
      where no call is open, so a well-paired history stays well-paired, and a
      summary is always summarized again.  A lineage has one successor per version,
      deleting messages through [delete_messages_from] fences the summary being
      written, a published checkpoint is the one served and hides no message past
      the previous watermark that its writer had not read, as long as new messages
      take new numbers.  Three executions show findings: an edited turn does not
      fence, it orphans the messages before it, and a mid-turn checkpoint hides the
      answer of its turn.
    - Confirmation: in every interleaving of the gate's critical sections the
      registry and the heap stay consistent, and a coroutine goes on only with a
      decision the user gave to its own group, or reads one as a refusal; a group
      shares operation and target, not always the kind (a finding).
    - Permissions: an issued ticket means every intent of the call was permitted
      (outside local mode, host paths and commands are left to the remote sandbox),
      a ticket opens nothing after its dispatch, settings whose lookup raises and a
      denial of the policy stand whatever the user answers, and the service ends
      with a verdict for every call.  The verdict on a command is the most severe
      of its parts, grants refine a map from paths to levels (for paths whose
      canonical form is stable), the sandbox policy is decided by the most specific
      entry, survives its JSON, and exposes no system area when the admitted roots
      have no links on the way; a path translated outside local mode, and a
      workspace path in local mode, stays inside its real root.
    - Packages: an upload reads back as its bytes unless it begins with the marker
      (a finding); an inspected zip has only plain, portable, collision-free
      members within the limits; files that pass the checks are written and read
      back on a file system that can create their names, which the checks do not
      imply (a finding).  A merge keeps every edit, refuses exactly where both sides edited
      apart, does not depend on which side is called local, and can be installed;
      a copy the user asked to keep can be lost (a finding).  A name resolves to a
      usable candidate without rivals, whatever the order of the candidates.
    - Jobs: seeding adds exactly the keys the ledger lacks and can be repeated after
      commits of any age; a verdict follows the ledger, and under methods that run
      in one piece it is final and wakes the conversation at most once; callbacks
      without the token of a live job do nothing; a sub-agent call starts only with
      budget left and keeps to its tools; every driver ends, with the job over if
      nobody resumes it meanwhile; reaping takes exactly the jobs nobody attends.
      Six theorems show findings: a stale start report reopens a finished job,
      overlapping callbacks book more calls than the budget, the wall-clock end
      wakes nobody, nor does reaping, a resumed job keeps the clock of its first
      start, ledger callbacks are no sign of life to the reaper.

    ** Bounds and fuel

    [ToolEffectGateway] polls a running effect at most [polls] times and returns
    [None] when it is still waiting; the theorems hold for every bound.  Retries
    are the code's own constants: eight attempts to accept a steer or to claim a
    round, four to commit a result.  In [ContextIR] the loop of [_truncate_text]
    gets the length of what it shrinks, the refit loop of [_cap_item] its first
    target; [cap_item_ends] proves that more changes nothing.  [JobRuntime.drive]
    makes one pass for each reading of the clock it is given; [drive_ends] proves
    that readings up to the time of the job are enough.

    ** Parameters

    Code that is not under [src/] is an argument: digests and UUIDs
    ([ToolPolicies.Host], [SteerQueue.NameUuid], [ContextIR.ContextHost],
    [WorkspacePaths.Digest]), the text of exceptions, regular-expression
    substitution, the external calls of a [prog] and their answers, the artifact
    registry; what the file system and the environment answer about a path
    ([PosixPath.HostPaths]).  The wording of the questions and refusals of a
    permission is left to [ToolPermissions.PermissionText], that of the messages of
    a job to [Jobs.JobWording]: no decision reads it.  Case tables of Unicode are
    [BinaryFiles.UnicodeText]; schemas and JSON texts of a job
    [JobRuntime.JobHost]; which names a file system takes for the same and which
    it can create is an argument of [PackageFiles.write_files].  The store of the media of tool outputs
    is [ModelSteps.MediaStore], the digest of a snapshot an argument of
    [Lineage.acquire_compaction_snapshot], and the request to the summary model one
    of [Compaction._summarize_without_checkpoint].

    ** Not modelled

    Schema migrations, the SQL dialect and true concurrency inside a transaction
    (advisory locks, SKIP LOCKED); asyncio scheduling beyond arbitrary
    interleaving at transaction boundaries; floating point numbers; strings of the
    tables are code points below 256, while message and context texts are lists of
    code points.  The streaming loop of the executor, the agent SDK wiring, the
    other HTTP routes, the registry, installation and cloud copies of capabilities,
    plugins, knowledge bases, sandboxes, channels, schedulers and the frontend are
    outside: they call this core, or do I/O against services whose behaviour is
    not in the repository.  Of a stored message the columns of its record
    (thinking, tool calls, steps, usage) are not in the tables; [HistoryRows] takes
    them as arguments, and [Lineage] stops at the choice of the rows.  Of the packages, the extraction of compressed members,
    the scan of an installed directory, the revision hash and the search for
    secrets are left out; of the jobs, the SDK written into the sandbox, launching,
    the gates on concurrency and the texts of the prompts; of compaction, the
    trigger ratios, the retries of the summary request and the budget manifests.
    Of the path and policy code only the POSIX branches are modelled; the launchers
    of the sandbox are system calls. *)


From stdpp Require Export base tactics numbers list gmap strings sorting.
From Stdlib Require Export ZArith Lia.

#[global] Open Scope Z_scope.

(** ** Rows: functional update of one column *)

(** [eta] spells a record out column by column; the setter of a column is read
    off it by abstracting the projection. *)
Class Eta (R : Type) := eta : R → R.

Class Field {R T : Type} (proj : R → T) := over : (T → T) → R → R.
Arguments over {R T} proj {_} _ _.

Ltac derive_field :=
  lazymatch goal with
  | |- @Field ?R ?T ?proj =>
      let g := fresh "g" in
      let r := fresh "r" in
      unfold Field; intros g r;
      let whole := eval hnf in (eta (R := R)) in
      let body := eval cbv beta in (whole r) in
      lazymatch (eval pattern (proj r) in body) with
      | ?k _ => let t := eval cbv beta in (k (g (proj r))) in exact t
      end
  end.

#[export] Hint Extern 1 (Field _) => derive_field : typeclass_instances.

Declare Scope row_scope.
Delimit Scope row_scope with row.
Notation "r <| f := v |>" := (over f (λ _, v) r)
  (at level 1, f at level 200, v at level 200, left associativity,
   format "r  <| f  :=  v |>") : row_scope.
#[global] Open Scope row_scope.

(** ** Results and transactions *)

(** A Python call returns a value or raises. *)
Inductive result (E A : Type) : Type :=
| Ok (a : A)
| Err (e : E).
Arguments Ok {E A} a.
Arguments Err {E A} e.

Definition is_ok {E A} (r : result E A) : bool :=
  match r with Ok _ => true | Err _ => false end.

(** One [with session() as db:] block: it ends by a commit of the staged
    state, by leaving the block without a commit (explicit rollback or a plain
    return), or by an exception, which discards what was staged. *)
Inductive tx (S E A : Type) : Type :=
| Commit (a : A) (s : S)
| Rollback (a : A)
| Raise (e : E).
Arguments Commit {S E A} a s.
Arguments Rollback {S E A} a.
Arguments Raise {S E A} e.

Definition run_tx {S E A} (body : S → tx S E A) (s : S) : result E A * S :=
  match body s with
  | Commit a s' => (Ok a, s')
  | Rollback a => (Ok a, s)
  | Raise e => (Err e, s)
  end.

(** [let? x := e in k]: propagate the exception of a call made inside a
    transaction; [need? x := o else e in k]: raise [e] on a missing row. *)
Declare Scope tx_scope.
Delimit Scope tx_scope with tx.
Notation "'let?' x ':=' e 'in' k" :=
  (match e with Ok x => k | Err ex => Raise ex end)
  (at level 10, x pattern, k at level 200) : tx_scope.
Notation "'need?' x ':=' o 'else' ex 'in' k" :=
  (match o with Some x => k | None => Raise ex end)
  (at level 10, x pattern, ex at level 100, k at level 200) : tx_scope.
(** [with? x := e in k]: the same inside a helper that returns a [result]. *)
Notation "'with?' x ':=' e 'in' k" :=
  (match e with Ok x => k | Err ex => Err ex end)
  (at level 10, x pattern, k at level 200) : tx_scope.
#[global] Open Scope tx_scope.

(** ** SQL comparisons with NULL *)

(** A filter keeps a row only when its condition is true; a comparison with
    NULL is not. *)
Definition sql_le (x : option Z) (y : Z) : bool :=
  match x with Some v => v <=? y | None => false end.
Definition sql_lt (x : option Z) (y : Z) : bool :=
  match x with Some v => v <? y | None => false end.
Definition sql_gt (x : option Z) (y : Z) : bool :=
  match x with Some v => y <? v | None => false end.
Definition is_null {A} (x : option A) : bool :=
  match x with Some _ => false | None => true end.
(** [column == value] with a non-null value. *)
Definition sql_eq (x : option string) (y : string) : bool :=
  match x with Some v => bool_decide (v = y) | None => false end.
(** [column == previous] as SQLAlchemy renders it: [IS NULL] for [None]. *)
Definition sql_same {A} `{EqDecision A} (x y : option A) : bool :=
  bool_decide (x = y).

(** Instants are UTC microseconds. *)
Definition seconds (n : Z) : Z := n * 1000000.
Definition days (n : Z) : Z := n * 86400 * 1000000.

(** [x or default] on strings: the empty string is falsy. *)
Definition str_or (x default : string) : string :=
  if bool_decide (x = EmptyString) then default else x.
Definition opt_str_or (x : option string) (default : string) : string :=
  match x with Some v => str_or v default | None => default end.

(** Text of any script is the list of its code points; a literal of the source
    is embedded by [text_of]. *)
Abbreviation text := (list Z).
Definition text_of (s : string) : text :=
  map (λ c, Z.of_N (Ascii.N_of_ascii c)) (String.list_ascii_of_string s).

(** ** JSON payloads *)

Inductive json : Type :=
| JNull
| JBool (b : bool)
| JInt (z : Z)
| JStr (s : string)
| JList (l : list json)
| JDict (d : list (string * json)).

(** A Python dict in insertion order. *)
Abbreviation dict := (list (string * json)).

Fixpoint dict_get (d : dict) (k : string) : option json :=
  match d with
  | [] => None
  | (k', v) :: d' => if bool_decide (k' = k) then Some v else dict_get d' k
  end.

Fixpoint dict_set (d : dict) (k : string) (v : json) : dict :=
  match d with
  | [] => [(k, v)]
  | (k', v') :: d' =>
      if bool_decide (k' = k) then (k, v) :: d' else (k', v') :: dict_set d' k v
  end.

(** [d1.update(d2)] *)
Definition dict_update (d1 d2 : dict) : dict :=
  foldl (λ d kv, dict_set d kv.1 kv.2) d1 d2.

Definition dict_keys (d : dict) : list string := d.*1.

(** [dict(x or {})] and [x or None] *)
Definition or_empty (x : option dict) : dict :=
  match x with Some d => d | None => [] end.
Definition or_none (d : dict) : option dict :=
  match d with [] => None | _ => Some d end.

(** [bool(v)] *)
Definition truthy (v : json) : bool :=
  match v with
  | JNull | JBool false | JList [] | JDict [] => false
  | JInt z => negb (z =? 0)
  | JStr s => negb (bool_decide (s = EmptyString))
  | _ => true
  end.

(** The value is the string [s]. *)
Definition json_is (v : option json) (s : string) : bool :=
  match v with Some (JStr s') => bool_decide (s' = s) | _ => false end.
Definition json_in (v : option json) (l : list string) : bool :=
  existsb (json_is v) l.

Definition option_list {A} (o : option A) : list A :=
  match o with Some x => [x] | None => [] end.

(** ** ORDER BY and bulk UPDATE *)

Section order_by.
Context {A : Type} (leb : A → A → bool).

Fixpoint order_insert (x : A) (l : list A) : list A :=
  match l with
  | [] => [x]
  | y :: l' => if leb x y then x :: y :: l' else y :: order_insert x l'
  end.

(** A stable insertion sort. *)
Definition order_by (l : list A) : list A := foldr order_insert [] l.

Lemma order_insert_perm x l : order_insert x l ≡ₚ x :: l.
Proof.
  induction l as [|y l IH]; simpl; [done|].
  destruct (leb x y); [done|]. rewrite IH. apply Permutation_swap.
Qed.

Lemma order_by_perm l : order_by l ≡ₚ l.
Proof.
  induction l as [|x l IH]; simpl; [done|].
  by rewrite order_insert_perm, IH.
Qed.

Lemma elem_of_order_by x l : x ∈ order_by l ↔ x ∈ l.
Proof. by rewrite order_by_perm. Qed.
End order_by.

Lemma order_insert_sorted {A} (leb : A → A → bool) x l :
  (∀ a b, leb a b = true ∨ leb b a = true) →
  (∀ a b c, leb a b = true → leb b c = true → leb a c = true) →
  StronglySorted (λ a b, leb a b = true) l →
  StronglySorted (λ a b, leb a b = true) (order_insert leb x l).
Proof.
  intros Htot Htr. induction 1 as [|y l Hl IH Hy]; simpl; [by repeat constructor|].
  destruct (leb x y) eqn:E.
  - constructor; [by constructor|]. constructor; [done|].
    eapply Forall_impl; [exact Hy|]. intros z Hz. by eapply Htr.
  - constructor; [done|]. rewrite order_insert_perm. constructor; [|done].
    destruct (Htot x y); congruence.
Qed.

Lemma order_by_sorted {A} (leb : A → A → bool) l :
  (∀ a b, leb a b = true ∨ leb b a = true) →
  (∀ a b c, leb a b = true → leb b c = true → leb a c = true) →
  StronglySorted (λ a b, leb a b = true) (order_by leb l).
Proof.
  intros Htot Htr. induction l as [|x l IH]; simpl; [constructor|]. by apply order_insert_sorted.
Qed.

(** A total antisymmetric order sorts the same elements to the same list. *)
Lemma order_by_unique {A} (leb : A → A → bool) l1 l2 :
  (∀ a b, leb a b = true ∨ leb b a = true) →
  (∀ a b c, leb a b = true → leb b c = true → leb a c = true) →
  (∀ a b, leb a b = true → leb b a = true → a = b) →
  l1 ≡ₚ l2 → order_by leb l1 = order_by leb l2.
Proof.
  intros Htot Htr Hanti Hp. apply (StronglySorted_unique_strong (λ a b, leb a b = true)).
  - intros a b _ _. apply Hanti.
  - by apply order_by_sorted.
  - by apply order_by_sorted.
  - by rewrite !order_by_perm.
Qed.

Section bulk_update.
Context {A : Type} (p : A → bool) (f : A → A).

(** [query.filter(p).update(f)]: the new table and the affected count. *)
Definition update_where (l : list A) : list A :=
  map (λ x, if p x then f x else x) l.
Definition affected (l : list A) : nat := length (List.filter p l).

Lemma update_where_app l1 l2 :
  update_where (l1 ++ l2) = update_where l1 ++ update_where l2.
Proof. apply map_app. Qed.

Lemma elem_of_update_where y l :
  y ∈ update_where l ↔ ∃ x, x ∈ l ∧ y = if p x then f x else x.
Proof. unfold update_where. rewrite list_elem_of_fmap. naive_solver. Qed.

(** Rows that do not match stay. *)
Lemma update_where_id l : (∀ x, x ∈ l → p x = false) → update_where l = l.
Proof.
  induction l as [|x l IH]; intros Hl; [done|]. simpl. rewrite (Hl x) by left.
  f_equal. apply IH. intros y Hy. apply Hl. by right.
Qed.

(** When only one row can match, it is replaced where it stands. *)
Lemma update_where_single x l1 l2 :
  p x = true → (∀ y, y ∈ l1 ++ l2 → p y = false) →
  update_where (l1 ++ x :: l2) = l1 ++ f x :: l2.
Proof.
  intros Hx Hl. rewrite update_where_app. simpl. rewrite Hx.
  by rewrite !update_where_id; [done|intros y Hy; apply Hl, elem_of_app; tauto..].
Qed.
End bulk_update.

(** SQL [max]: NULL on no rows. *)
Definition max_opt (l : list Z) : option Z :=
  foldr (λ x acc, Some (match acc with Some y => Z.max x y | None => x end)) None l.

Lemma max_opt_ge l x : x ∈ l → ∃ m, max_opt l = Some m ∧ x ≤ m.
Proof.
  induction l as [|y l IH]; intros Hx; [by apply not_elem_of_nil in Hx|].
  apply elem_of_cons in Hx as [->|Hx]; simpl.
  - eexists. split; [done|]. destruct (max_opt l); lia.
  - destruct (IH Hx) as (m & -> & Hle). eexists. split; [done|lia].
Qed.

Lemma max_opt_elem l m : max_opt l = Some m → m ∈ l.
Proof.
  revert m. induction l as [|y l IH]; intros m; simpl; [done|].
  destruct (max_opt l) as [m'|] eqn:E; intros [= <-].
  - destruct (Z.max_spec y m') as [[_ ->]|[_ ->]]; [right; by apply IH | left].
  - left.
Qed.

(** ** Automation *)

(** Split a hypothesis on the outcome of a call until every branch is a value,
    closing the impossible ones. *)
Ltac split_matches H :=
  repeat (match type of H with
          | context [match ?x with _ => _ end] => destruct x eqn:?
          end; simplify_eq/=).

Ltac split_goal_matches :=
  repeat (case_match; simplify_eq/=).

(** Boolean guards as propositions. *)
Ltac bool_simpl :=
  repeat match goal with
  | H : _ && _ = true |- _ => apply andb_true_iff in H; destruct H
  | H : _ || _ = true |- _ => apply orb_true_iff in H
  | H : _ || _ = false |- _ => apply orb_false_iff in H; destruct H
  | H : negb _ = true |- _ => apply negb_true_iff in H
  | H : negb _ = false |- _ => apply negb_false_iff in H
  | H : bool_decide _ = true |- _ => apply bool_decide_eq_true in H
  | H : bool_decide _ = false |- _ => apply bool_decide_eq_false in H
  | H : (_ <=? _) = true |- _ => apply Z.leb_le in H
  | H : (_ <=? _) = false |- _ => apply Z.leb_gt in H
  | H : (_ <? _) = true |- _ => apply Z.ltb_lt in H
  | H : (_ <? _) = false |- _ => apply Z.ltb_ge in H
  | H : (_ =? _) = true |- _ => apply Z.eqb_eq in H
  | H : (_ =? _) = false |- _ => apply Z.eqb_neq in H
  end.

Create HintDb durable.

(** ** Generic lemmas *)

Lemma sql_eq_true x y : sql_eq x y = true ↔ x = Some y.
Proof. destruct x; simpl; [rewrite bool_decide_eq_true; naive_solver | naive_solver]. Qed.

Lemma sql_gt_true x y : sql_gt x y = true ↔ ∃ v, x = Some v ∧ y < v.
Proof. destruct x; simpl; [rewrite Z.ltb_lt; naive_solver | naive_solver]. Qed.

Lemma sql_le_true x y : sql_le x y = true ↔ ∃ v, x = Some v ∧ v ≤ y.
Proof. destruct x; simpl; [rewrite Z.leb_le; naive_solver | naive_solver]. Qed.

Lemma is_null_true {A} (x : option A) : is_null x = true ↔ x = None.
Proof. destruct x; naive_solver. Qed.

Lemma dict_get_set_eq d k v : dict_get (dict_set d k v) k = Some v.
Proof.
  induction d as [|[k' v'] d IH]; simpl; [by rewrite bool_decide_true|].
  case_bool_decide; simpl; [by rewrite bool_decide_true|].
  by rewrite bool_decide_false.
Qed.

Lemma dict_get_set_ne d k k' v : k ≠ k' → dict_get (dict_set d k v) k' = dict_get d k'.
Proof.
  intros Hne. induction d as [|[k0 v0] d IH]; simpl; [by rewrite bool_decide_false|].
  case_bool_decide; simpl; subst; [by rewrite bool_decide_false|].
  by rewrite IH.
Qed.

(** Later entries of an update win; keys it does not mention keep theirs. *)
Lemma dict_get_update_other d1 d2 k :
  k ∉ dict_keys d2 → dict_get (dict_update d1 d2) k = dict_get d1 k.
Proof.
  unfold dict_update, dict_keys. revert d1.
  induction d2 as [|[k' v'] d2 IH]; intros d1 Hk; simpl; [done|].
  apply not_elem_of_cons in Hk as [Hne Hk]. rewrite IH by done.
  by apply dict_get_set_ne.
Qed.

Lemma dict_get_update d1 d2 k v :
  NoDup (dict_keys d2) → dict_get d2 k = Some v →
  dict_get (dict_update d1 d2) k = Some v.
Proof.
  unfold dict_update, dict_keys. revert d1.
  induction d2 as [|[k' v'] d2 IH]; intros d1 Hnd Hget; simpl in *; [done|].
  apply NoDup_cons in Hnd as [Hk' Hnd].
  case_bool_decide; simplify_eq; [|by apply IH].
  change (dict_get (dict_update (dict_set d1 k v) d2) k = Some v).
  rewrite dict_get_update_other by done. apply dict_get_set_eq.
Qed.

(** A new value at the end of a list without repetition. *)
Lemma NoDup_snoc {A} (l : list A) x : NoDup l → (∀ y, y ∈ l → y ≠ x) → NoDup (l ++ [x]).
Proof.
  intros Hl Hx. apply NoDup_app. split_and!; [done| |apply NoDup_singleton].
  intros y Hy ->%list_elem_of_singleton. by eapply Hx.
Qed.

(** A unique column identifies its row. *)
Lemma NoDup_omap_inj {A B} (f : A → option B) (l : list A) x y b :
  NoDup (omap f l) → x ∈ l → y ∈ l → f x = Some b → f y = Some b → x = y.
Proof.
  induction l as [|z l IH]; intros Hnd Hx Hy Ex Ey; [by apply not_elem_of_nil in Hx|].
  assert (Hin : ∀ u, u ∈ l → f u = Some b → b ∈ omap f l).
  { intros u Hu Hfu. apply list_elem_of_omap. by exists u. }
  apply elem_of_cons in Hx as [->|Hx], Hy as [->|Hy]; simpl in Hnd; [done|..].
  - rewrite Ex in Hnd. apply NoDup_cons in Hnd as [Hn _]. by destruct Hn; eapply Hin.
  - rewrite Ey in Hnd. apply NoDup_cons in Hnd as [Hn _]. by destruct Hn; eapply Hin.
  - destruct (f z); [apply NoDup_cons in Hnd as [_ Hnd]|]; eauto.
Qed.

Lemma NoDup_fmap_elem {A B} (f : A → B) (l : list A) x y :
  NoDup (f <$> l) → x ∈ l → y ∈ l → f x = f y → x = y.
Proof.
  induction l as [|z l IH]; simpl; intros Hnd Hx Hy E; [by apply not_elem_of_nil in Hx|].
  apply NoDup_cons in Hnd as [Hn Hnd].
  assert (∀ u, u ∈ l → f u = f z → False) as Hz.
  { intros u Hu Eu. apply Hn. rewrite <- Eu. by apply list_elem_of_fmap_2. }
  apply elem_of_cons in Hx as [->|Hx], Hy as [->|Hy]; [done| | |by apply IH].
  - exfalso. by eapply Hz.
  - exfalso. by eapply Hz.
Qed.

Lemma filter_all_false {A} (f : A → bool) l :
  (∀ x, x ∈ l → f x = false) → List.filter f l = [].
Proof.
  induction l as [|x l IH]; intros Hf; cbn; [done|]. rewrite Hf by left.
  apply IH. intros y Hy. apply Hf. by right.
Qed.
