(* ===== verification/Db.v ===== *)
(** * The tables of the durable core and their constraints

    Rows of [core/db/models/chat.py] and [core/db/models/logs.py] that decide
    ownership, recovery and terminal state of runs, with the unique constraints
    the code relies on.  Inserting a row that violates one raises
    [IntegrityError]; a bulk update never touches a unique column except to set
    it to NULL.  Also here: the exceptions the components raise and the
    per-chat sequence allocator [reserve_chat_sequences]. *)

From S2P Require Import Prelude.

(** ** Exceptions *)

Record ActiveRunRef := mkActiveRunRef {
  ar_run_id : string;
  ar_message_id : string;
  ar_status : string
}.

Inductive exn : Type :=
| ValueError (msg : string)
| PermissionError
| RuntimeError (msg : string)
| NoResultFound
| MultipleResultsFound
| IntegrityError
| OperationalError
| StaleDataError
| RunNotFound (run_id : string)
| RunLeaseLost (run_id : string)
| RunJournalError (msg : string)
| RunAlreadyExists (run_id : string)
| ToolEffectError (msg : string)
| ToolIntentCommitError (cause : string)
| ToolOutcomeUnknown (effect_id : string)
| ToolEffectLeaseLost (effect_id : string)
| ToolIdempotencyConflict (msg : string)
| SteerQueueConflict (msg : string)
| SteerClaimLost (queue_id : string)
| ChatBusyError (active : ActiveRunRef)
| EffectLaneDeferred (retry_at : Z)
| RetryableMemoryError (msg : string)
| CancelledError
| OtherError (msg : string).

(** [isinstance(exc, ToolEffectError)] *)
Definition is_tool_effect_error (e : exn) : bool :=
  match e with
  | ToolEffectError _ | ToolIntentCommitError _ | ToolOutcomeUnknown _
  | ToolEffectLeaseLost _ | ToolIdempotencyConflict _ => true
  | _ => false
  end.

(** [except (IntegrityError, OperationalError)] *)
Definition is_db_conflict (e : exn) : bool :=
  match e with IntegrityError | OperationalError => true | _ => false end.

(** [isinstance(exc, Exception)]: a cancellation is a [BaseException] only. *)
Definition is_exception (e : exn) : bool :=
  match e with CancelledError => false | _ => true end.

(** [query.one()] and [query.one_or_none()] *)
Definition one {A} (l : list A) : result exn A :=
  match l with
  | [] => Err NoResultFound
  | [x] => Ok x
  | _ => Err MultipleResultsFound
  end.
Definition one_or_none {A} (l : list A) : result exn (option A) :=
  match l with
  | [] => Ok None
  | [x] => Ok (Some x)
  | _ => Err MultipleResultsFound
  end.

(** ** Run status *)

Inductive RunStatus :=
| Pending | Running | NeedsAttention | Completed | Failed | Cancelled.

#[export] Instance RunStatus_eq_dec : EqDecision RunStatus.
Proof. solve_decision. Defined.

Definition status_str (s : RunStatus) : string :=
  match s with
  | Pending => "pending" | Running => "running"
  | NeedsAttention => "needs_attention" | Completed => "completed"
  | Failed => "failed" | Cancelled => "cancelled"
  end.

(** [LIVE_STATUSES] and [TERMINAL_STATUSES] of [run_journal.py]. *)
Definition is_live (s : RunStatus) : bool :=
  match s with Pending | Running => true | _ => false end.
Definition is_terminal (s : RunStatus) : bool :=
  match s with Completed | Failed | Cancelled => true | _ => false end.

(** ** Rows *)

Module ChatSession.
Record t := mk {
  chat_id : string;
  user_id : string;
  title : string;
  message_count : Z;
  next_message_seq : option Z;
  updated_at : Z;
  last_message_at : option Z;
  deleted_at : option Z
}.
#[global] Instance eta_row : Eta t := λ r,
  mk (chat_id r) (user_id r) (title r) (message_count r) (next_message_seq r)
     (updated_at r) (last_message_at r) (deleted_at r).
End ChatSession.

Module ChatMessage.
Record t := mk {
  message_id : string;
  chat_id : string;
  chat_seq : Z;
  role : string;
  content : text;
  model : option string;
  extra_data : dict;
  created_at : Z
}.
#[global] Instance eta_row : Eta t := λ r,
  mk (message_id r) (chat_id r) (chat_seq r) (role r) (content r) (model r)
     (extra_data r) (created_at r).
End ChatMessage.

Module ChatRun.
Record t := mk {
  run_id : string;
  chat_id : string;
  user_id : string;
  message_id : string;
  user_message_id : option string;
  user_chat_seq : option Z;
  assistant_chat_seq : option Z;
  writer_slot : option string;
  status : RunStatus;
  request_payload : option dict;
  last_event_offset : Z;
  error_message : option string;
  usage : option dict;
  run_phase : string;
  lease_owner : option string;
  lease_expires_at : option Z;
  operation_seq : Z;
  snapshot_version : Z;
  recovery_snapshot : option dict;
  last_operation_safety : string;
  failure_reason : option string;
  updated_at : Z;
  created_at : Z;
  started_at : option Z;
  completed_at : option Z
}.
#[global] Instance eta_row : Eta t := λ r,
  mk (run_id r) (chat_id r) (user_id r) (message_id r) (user_message_id r)
     (user_chat_seq r) (assistant_chat_seq r) (writer_slot r) (status r)
     (request_payload r) (last_event_offset r) (error_message r) (usage r)
     (run_phase r) (lease_owner r) (lease_expires_at r) (operation_seq r)
     (snapshot_version r) (recovery_snapshot r) (last_operation_safety r)
     (failure_reason r) (updated_at r) (created_at r) (started_at r)
     (completed_at r).
End ChatRun.

Module ChatRunOperation.
Record t := mk {
  run_id : string;
  operation_seq : Z;
  operation_type : string;
  phase : string;
  safety : string;
  owner : option string;
  snapshot_version : Z;
  payload : option dict;
  created_at : Z
}.
End ChatRunOperation.

Inductive EventType := Intent | Result | Failure | UnknownOutcome | RecoveryClaim.
#[export] Instance EventType_eq_dec : EqDecision EventType.
Proof. solve_decision. Defined.

Inductive RecoveryPolicy := ReplaySafe | Reconcile | NeverReplay.
#[export] Instance RecoveryPolicy_eq_dec : EqDecision RecoveryPolicy.
Proof. solve_decision. Defined.

Definition policy_str (p : RecoveryPolicy) : string :=
  match p with
  | ReplaySafe => "replay_safe" | Reconcile => "reconcile"
  | NeverReplay => "never_replay"
  end.

Module ToolEffectLedger.
Record t := mk {
  effect_id : string;
  result_id : string;
  run_id : string;
  operation_seq : Z;
  event_type : EventType;
  tool_name : string;
  tool_call_id : option string;
  args_hash : string;
  redacted_args : dict;
  idempotency_key : option string;
  recovery_policy : RecoveryPolicy;
  result_payload : json;
  error_message : option string;
  terminal_effect_id : option string;
  created_at : Z
}.
End ToolEffectLedger.

Module ToolEffectLease.
Record t := mk {
  effect_id : string;
  run_id : string;
  run_owner : string;
  claim_owner : option string;
  lease_expires_at : option Z;
  updated_at : Z
}.
#[global] Instance eta_row : Eta t := λ r,
  mk (effect_id r) (run_id r) (run_owner r) (claim_owner r)
     (lease_expires_at r) (updated_at r).
End ToolEffectLease.

Inductive DeliveryMode := Steer | FollowUp | NextRun.
#[export] Instance DeliveryMode_eq_dec : EqDecision DeliveryMode.
Proof. solve_decision. Defined.

Inductive QueueStatus := QAccepted | QClaimed | QApplied | QCancelled | QSuperseded.
#[export] Instance QueueStatus_eq_dec : EqDecision QueueStatus.
Proof. solve_decision. Defined.

Module ChatSteerQueueItem.
Record t := mk {
  queue_id : string;
  steer_id : string;
  chat_id : string;
  user_id : string;
  target_run_id : option string;
  steer_seq : Z;
  target_operation_seq : option Z;
  delivery_mode : DeliveryMode;
  status : QueueStatus;
  message : string;
  lease_owner : option string;
  lease_expires_at : option Z;
  delivery_attempt : Z;
  superseded_by : option string;
  applied_run_id : option string;
  applied_source_run_id : option string;
  applied_operation_seq : option Z;
  accepted_at : Z;
  claimed_at : option Z;
  applied_at : option Z;
  cancelled_at : option Z;
  updated_at : Z
}.
#[global] Instance eta_row : Eta t := λ r,
  mk (queue_id r) (steer_id r) (chat_id r) (user_id r) (target_run_id r)
     (steer_seq r) (target_operation_seq r) (delivery_mode r) (status r)
     (message r) (lease_owner r) (lease_expires_at r) (delivery_attempt r)
     (superseded_by r) (applied_run_id r) (applied_source_run_id r)
     (applied_operation_seq r) (accepted_at r) (claimed_at r) (applied_at r)
     (cancelled_at r) (updated_at r).
End ChatSteerQueueItem.

Module HarnessUsageAttempt.
Record t := mk {
  run_id : string;
  attempt_seq : Z;
  kind : string;
  operation_name : string;
  provider : string;
  model : string;
  effect_id : option string;
  prompt_tokens : Z;
  completion_tokens : Z;
  cache_read_tokens : Z;
  cache_write_tokens : Z;
  latency_ms : Z;
  status : string;
  retry_of : option Z;
  attempt_metadata : dict;
  created_at : Z
}.
End HarnessUsageAttempt.

Module HarnessEventLog.
Record t := mk {
  run_id : string;
  event_seq : Z;
  event_type : string;
  phase : string;
  payload : dict;
  created_at : Z
}.
End HarnessEventLog.

Module Artifact.
Record t := mk {
  artifact_id : string;
  chat_id : string;
  user_id : string;
  user_folder_id : option string;
  type : string;
  title : string;
  filename : string;
  size_bytes : Z;
  mime_type : string;
  storage_key : string;
  storage_url : string;
  extra_data : dict
}.
End Artifact.

(** [memory_outbox.status], with the values its check allows. *)
Inductive OutboxStatus := ObPending | ObProcessing | ObSucceeded | ObRetry | ObQuarantined.
#[export] Instance OutboxStatus_eq_dec : EqDecision OutboxStatus.
Proof. solve_decision. Defined.

Module MemoryOutbox.
Record t := mk {
  id : string;
  parent_id : option string;
  message_id : string;
  scope_key : option string;
  job_kind : string;
  layer : string;
  candidate_hash : string;
  payload_json : dict;
  status : OutboxStatus;
  attempts : Z;
  lease_owner : option string;
  lease_expires_at : option Z;
  next_attempt_at : option Z;
  last_error : option string;
  result_json : json;
  created_at : Z;
  updated_at : Z;
  completed_at : option Z
}.
#[global] Instance eta_row : Eta t := λ r,
  mk (id r) (parent_id r) (message_id r) (scope_key r) (job_kind r) (layer r)
     (candidate_hash r) (payload_json r) (status r) (attempts r) (lease_owner r)
     (lease_expires_at r) (next_attempt_at r) (last_error r) (result_json r) (created_at r)
     (updated_at r) (completed_at r).
End MemoryOutbox.

(** ** The database *)

Record Db := mkDb {
  chat_sessions : gmap string ChatSession.t;
  chat_messages : list ChatMessage.t;
  chat_runs : gmap string ChatRun.t;
  chat_run_operations : list ChatRunOperation.t;
  tool_effect_ledger : list ToolEffectLedger.t;
  tool_effect_leases : gmap string ToolEffectLease.t;
  chat_steer_queue : list ChatSteerQueueItem.t;
  harness_usage_attempts : list HarnessUsageAttempt.t;
  harness_usage_cursors : gmap string Z;
  harness_event_log : list HarnessEventLog.t;
  harness_event_cursors : gmap string Z;
  artifacts : gmap string Artifact.t;
  memory_outbox : list MemoryOutbox.t
}.
#[export] Instance eta_db : Eta Db := λ d,
  mkDb (chat_sessions d) (chat_messages d) (chat_runs d) (chat_run_operations d)
       (tool_effect_ledger d) (tool_effect_leases d) (chat_steer_queue d)
       (harness_usage_attempts d) (harness_usage_cursors d) (harness_event_log d)
       (harness_event_cursors d) (artifacts d) (memory_outbox d).

Definition empty_db : Db := mkDb ∅ [] ∅ [] [] ∅ [] [] ∅ [] ∅ ∅ [].

(** ** Inserts with the unique constraints of the schema *)

Definition slot_conflict (row other : ChatRun.t) : bool :=
  match ChatRun.writer_slot row, ChatRun.writer_slot other with
  | Some s, Some s' =>
      bool_decide (ChatRun.chat_id row = ChatRun.chat_id other) && bool_decide (s = s')
  | _, _ => false
  end.

(** [chat_runs_writer_slot_check] *)
Definition slot_allowed (slot : option string) : bool :=
  is_null slot || sql_eq slot "main".

(** [chat_runs]: the check, the primary key and [uq_chat_runs_writer_slot]. *)
Definition insert_run (db : Db) (row : ChatRun.t) : result exn Db :=
  if negb (slot_allowed (ChatRun.writer_slot row)) then Err IntegrityError
  else if negb (is_null (chat_runs db !! ChatRun.run_id row)) then Err IntegrityError
  else if existsb (slot_conflict row) (map_to_list (chat_runs db)).*2
  then Err IntegrityError
  else Ok (db <| chat_runs := <[ChatRun.run_id row := row]> (chat_runs db) |>).

Definition put_run (db : Db) (row : ChatRun.t) : Db :=
  db <| chat_runs := <[ChatRun.run_id row := row]> (chat_runs db) |>.

(** [chat_run_operations]: [uq_chat_run_operation_seq]. *)
Definition same_operation (row other : ChatRunOperation.t) : bool :=
  bool_decide (ChatRunOperation.run_id row = ChatRunOperation.run_id other)
  && (ChatRunOperation.operation_seq row =? ChatRunOperation.operation_seq other).

Definition insert_operation (db : Db) (row : ChatRunOperation.t) : result exn Db :=
  if existsb (same_operation row) (chat_run_operations db) then Err IntegrityError
  else Ok (db <| chat_run_operations := chat_run_operations db ++ [row] |>).

(** [tool_effect_ledger]: unique [idempotency_key], unique
    [terminal_effect_id], unique [(run_id, operation_seq)]. *)
Definition ledger_conflict (row other : ToolEffectLedger.t) : bool :=
  (match ToolEffectLedger.idempotency_key row with
   | Some k => sql_eq (ToolEffectLedger.idempotency_key other) k
   | None => false
   end)
  || (match ToolEffectLedger.terminal_effect_id row with
      | Some k => sql_eq (ToolEffectLedger.terminal_effect_id other) k
      | None => false
      end)
  || (bool_decide (ToolEffectLedger.run_id row = ToolEffectLedger.run_id other)
      && (ToolEffectLedger.operation_seq row =? ToolEffectLedger.operation_seq other)).

Definition insert_ledger (db : Db) (row : ToolEffectLedger.t) : result exn Db :=
  if existsb (ledger_conflict row) (tool_effect_ledger db) then Err IntegrityError
  else Ok (db <| tool_effect_ledger := tool_effect_ledger db ++ [row] |>).

(** [tool_effect_leases]: primary key. *)
Definition insert_lease (db : Db) (row : ToolEffectLease.t) : result exn Db :=
  if negb (is_null (tool_effect_leases db !! ToolEffectLease.effect_id row))
  then Err IntegrityError
  else Ok (db <| tool_effect_leases :=
             <[ToolEffectLease.effect_id row := row]> (tool_effect_leases db) |>).

Definition put_lease (db : Db) (row : ToolEffectLease.t) : Db :=
  db <| tool_effect_leases :=
       <[ToolEffectLease.effect_id row := row]> (tool_effect_leases db) |>.

(** [chat_messages]: the checks, the primary key and
    [uq_chat_messages_chat_seq]. *)
Definition message_conflict (row other : ChatMessage.t) : bool :=
  bool_decide (ChatMessage.message_id row = ChatMessage.message_id other)
  || (bool_decide (ChatMessage.chat_id row = ChatMessage.chat_id other)
      && (ChatMessage.chat_seq row =? ChatMessage.chat_seq other)).

(** [chat_messages_role_check] and [chat_messages_content_length] *)
Definition message_allowed (row : ChatMessage.t) : bool :=
  bool_decide (ChatMessage.role row ∈ ["user"; "assistant"; "system"; "tool"])
  && (Z.of_nat (length (ChatMessage.content row)) <=? 100000).

Definition insert_message (db : Db) (row : ChatMessage.t) : result exn Db :=
  if negb (message_allowed row) then Err IntegrityError
  else if existsb (message_conflict row) (chat_messages db) then Err IntegrityError
  else Ok (db <| chat_messages := chat_messages db ++ [row] |>).

(** [chat_steer_queue]: the checks, the primary key and the two per-chat unique
    constraints. *)
Definition queue_conflict (row other : ChatSteerQueueItem.t) : bool :=
  bool_decide (ChatSteerQueueItem.queue_id row = ChatSteerQueueItem.queue_id other)
  || (bool_decide (ChatSteerQueueItem.chat_id row = ChatSteerQueueItem.chat_id other)
      && (bool_decide (ChatSteerQueueItem.steer_id row = ChatSteerQueueItem.steer_id other)
          || (ChatSteerQueueItem.steer_seq row =? ChatSteerQueueItem.steer_seq other))).

Definition queue_allowed (row : ChatSteerQueueItem.t) : bool :=
  (0 <? ChatSteerQueueItem.steer_seq row) && (0 <=? ChatSteerQueueItem.delivery_attempt row)
  && (1 <=? Z.of_nat (String.length (ChatSteerQueueItem.message row)))
  && (Z.of_nat (String.length (ChatSteerQueueItem.message row)) <=? 10000).

Definition insert_queue_item (db : Db) (row : ChatSteerQueueItem.t) : result exn Db :=
  if negb (queue_allowed row) then Err IntegrityError
  else if existsb (queue_conflict row) (chat_steer_queue db) then Err IntegrityError
  else Ok (db <| chat_steer_queue := chat_steer_queue db ++ [row] |>).

(** [artifacts]: the checks and the primary key. *)
Definition artifact_allowed (row : Artifact.t) : bool :=
  (0 <? Artifact.size_bytes row)
  && bool_decide (Artifact.type row ∈ ["report"; "chart"; "document"; "code"; "other"]).

Definition insert_artifact (db : Db) (row : Artifact.t) : result exn Db :=
  if negb (artifact_allowed row) then Err IntegrityError
  else if negb (is_null (artifacts db !! Artifact.artifact_id row)) then Err IntegrityError
  else Ok (db <| artifacts := <[Artifact.artifact_id row := row]> (artifacts db) |>).

(** [memory_outbox]: the primary key and [uq_memory_outbox_candidate]. *)
Definition outbox_conflict (row other : MemoryOutbox.t) : bool :=
  bool_decide (MemoryOutbox.id row = MemoryOutbox.id other)
  || (bool_decide (MemoryOutbox.message_id row = MemoryOutbox.message_id other)
      && bool_decide (MemoryOutbox.layer row = MemoryOutbox.layer other)
      && bool_decide (MemoryOutbox.candidate_hash row = MemoryOutbox.candidate_hash other)).

Definition insert_outbox (db : Db) (row : MemoryOutbox.t) : result exn Db :=
  if existsb (outbox_conflict row) (memory_outbox db) then Err IntegrityError
  else Ok (db <| memory_outbox := memory_outbox db ++ [row] |>).

(** ** The per-chat message allocator *)

(** [select(coalesce(max(chat_seq), 0) + 1).where(chat_id == chat_id)] *)
Definition max_next_seq (db : Db) (chat_id : string) : Z :=
  default 0 (max_opt (ChatMessage.chat_seq <$>
    List.filter (λ m, bool_decide (ChatMessage.chat_id m = chat_id)) (chat_messages db))) + 1.

(** The [UPDATE] also fires the column's [onupdate] clock. *)
Definition reserve_chat_sequences (now : Z) (db : Db) (chat_id : string) (count : Z)
    (owner_user_id : option string) : result exn (Z * Db) :=
  if count <? 1 then Err (ValueError "count must be positive") else
  match chat_sessions db !! chat_id with
  | Some s =>
      if match owner_user_id with
         | Some u => bool_decide (ChatSession.user_id s = u)
         | None => true
         end
      then
        let max_next := max_next_seq db chat_id in
        let current := default 1 (ChatSession.next_message_seq s) in
        let first := if max_next <=? current then current else max_next in
        Ok (first,
            db <| chat_sessions :=
              <[chat_id := s <| ChatSession.next_message_seq := Some (first + count) |>
                             <| ChatSession.updated_at := now |>]>
                (chat_sessions db) |>)
      else Err PermissionError
  | None =>
      match owner_user_id with
      | Some _ => Err PermissionError
      | None => Err (ValueError "chat session does not exist")
      end
  end.
