(* ===== verification/RunJournal.v ===== *)
(** * [core/services/run_journal.py]: ownership, operations and recovery of runs

    Every method of [RunJournal] as one transaction on [Db]; [now] is the
    clock reading of the transaction.  The theorems: leases are exclusive until
    they expire, the operation journal of a run is the dense sequence
    [1..operation_seq], terminal runs never change status again, event offsets
    are never reused, and [recover] classifies every claimable orphan. *)

From S2P Require Import Prelude Db.

Module RunJournal.
Import ChatRun.

(** ** Data *)

Record JournalReceipt := mkReceipt {
  rcpt_run_id : string;
  rcpt_operation_seq : Z;
  rcpt_snapshot_version : Z;
  rcpt_phase : string
}.

Inductive RecoveryAction :=
| ActResume | ActResumeFromSnapshot | ActNeedsAttention | ActCompleted | ActFailed.
#[export] Instance RecoveryAction_eq_dec : EqDecision RecoveryAction.
Proof. solve_decision. Defined.

Record RecoveryDecision := mkDecision {
  dec_run_id : string;
  dec_chat_id : string;
  dec_user_id : string;
  dec_message_id : string;
  dec_action : RecoveryAction;
  dec_phase : string;
  dec_snapshot : dict;
  dec_request_payload : dict
}.

Definition RECOVERABLE_PRE_MODEL_PHASES : list string :=
  ["accepted"; "claimed"; "pre_model"].
Definition RECOVERABLE_TOOL_PHASES : list string :=
  ["tool_intent_replay_safe"; "tool_result_committed"].
Definition NON_CHAT_RUN_KINDS : list string :=
  ["plan_execute"; "plan_generate"; "autonomous_loop"].
Definition TOOL_BOUND_INTERNAL_RUN_KINDS : list string :=
  ["automation_plan"; "automation_prompt"; "batch_item"; "internal_job_agent";
   "legacy_chat_stream"].
Definition SAFE_STOP_ORPHAN_KINDS : list string :=
  TOOL_BOUND_INTERNAL_RUN_KINDS ++ ["plan_generate"].

Definition str_in (s : string) (l : list string) : bool := bool_decide (s ∈ l).

(** ** Acceptance *)

Definition accept_in_session (db : Db) (run_id message_id chat_id user_id : string)
    (request_payload : dict) (recovery_snapshot : option dict)
    (user_message_id : option string) (user_chat_seq assistant_chat_seq : option Z)
    (writer_slot : option string) (now : Z) : result exn (ChatRun.t * Db) :=
  let snapshot := or_empty recovery_snapshot in
  let row :=
    ChatRun.mk run_id chat_id user_id message_id user_message_id user_chat_seq
      assistant_chat_seq writer_slot Pending (Some request_payload) 0 None None
      "accepted" None None 0 (match snapshot with [] => 0 | _ => 1 end)
      (or_none snapshot) "replayable" None now now None None in
  match insert_run db row with
  | Ok db' => Ok (row, db')
  | Err e => Err e
  end.

Definition accept (now : Z) (run_id message_id chat_id user_id : string)
    (request_payload : dict) (recovery_snapshot : option dict)
    : Db → result exn ChatRun.t * Db :=
  run_tx (λ db,
    let? (row, db') :=
      accept_in_session db run_id message_id chat_id user_id request_payload
        recovery_snapshot None None None None now in
    Commit row db').

(** ** Leases *)

(** The lease is free, expired at [now], or already ours. *)
Definition lease_free (now : Z) (row : ChatRun.t) : bool :=
  is_null (lease_owner row) || is_null (lease_expires_at row)
  || sql_le (lease_expires_at row) now.

Definition lease_until (now lease_seconds : Z) : Z :=
  now + seconds (Z.max 1 lease_seconds).

Definition claim (now : Z) (run_id owner : string) (lease_seconds : Z)
    : Db → result exn bool * Db :=
  run_tx (λ db,
    if bool_decide (owner = "") then Raise (ValueError "owner is required") else
    match chat_runs db !! run_id with
    | Some row =>
        if is_live (status row)
           && (lease_free now row || sql_eq (lease_owner row) owner)
        then
          Commit true (put_run db
            (row <| status := Running |>
                 <| lease_owner := Some owner |>
                 <| lease_expires_at := Some (lease_until now lease_seconds) |>
                 <| started_at := Some (default now (started_at row)) |>
                 <| updated_at := now |>))
        else Commit false db
    | None => Commit false db
    end).

Definition renew (now : Z) (run_id owner : string) (lease_seconds : Z)
    : Db → result exn bool * Db :=
  run_tx (λ db,
    match chat_runs db !! run_id with
    | Some row =>
        if is_live (status row) && sql_eq (lease_owner row) owner
           && sql_gt (lease_expires_at row) now
        then
          Commit true (put_run db
            (row <| lease_expires_at := Some (lease_until now lease_seconds) |>
                 <| updated_at := now |>))
        else Commit false db
    | None => Commit false db
    end).

Definition _holds_lease (now : Z) (row : ChatRun.t) (owner : string) : bool :=
  negb (negb (is_live (status row))
        || bool_decide (lease_owner row ≠ Some owner)
        || match lease_expires_at row with
           | None => true
           | Some expires => expires <=? now
           end).

Definition _locked_owned_run (now : Z) (db : Db) (run_id owner : string)
    : result exn ChatRun.t :=
  match chat_runs db !! run_id with
  | None => Err (RunNotFound run_id)
  | Some row =>
      if _holds_lease now row owner then Ok row else Err (RunLeaseLost run_id)
  end.

Definition require_lease (now : Z) (run_id owner : string) : Db → result exn unit * Db :=
  run_tx (λ db,
    need? row := chat_runs db !! run_id else (RunNotFound run_id) in
    if _holds_lease now row owner then Rollback tt else Raise (RunLeaseLost run_id)).

(** ** The operation journal *)

Definition _append_locked (now : Z) (db : Db) (row : ChatRun.t)
    (owner operation_type phase safety : string) (payload : option dict)
    (snapshot_version' : option Z) : result exn (JournalReceipt * ChatRun.t * Db) :=
  let next_seq := operation_seq row + 1 in
  let version := default (snapshot_version row) snapshot_version' in
  let op := ChatRunOperation.mk (run_id row) next_seq operation_type phase safety
              (Some owner) version (or_none (or_empty payload)) now in
  match insert_operation db op with
  | Err e => Err e
  | Ok db' =>
      let row' := row <| operation_seq := next_seq |>
                      <| run_phase := phase |>
                      <| last_operation_safety := safety |> in
      Ok (mkReceipt (run_id row) next_seq version phase, row', put_run db' row')
  end.

(** A callback that stages more writes in the open transaction.  The row it
    was given to protect is the session's own object, so what the callback
    wrote to it is read back; a row it deleted fails the flush. *)
Abbreviation effect := (option (Db → result exn Db)).

Definition run_effect (e : effect) (db : Db) : result exn Db :=
  match e with Some f => f db | None => Ok db end.

Definition append_operation (now : Z) (run_id owner operation_type phase safety : string)
    (payload : option dict) (commit_effect : effect)
    : Db → result exn JournalReceipt * Db :=
  run_tx (λ db,
    let? _ := _locked_owned_run now db run_id owner in
    let? db1 := run_effect commit_effect db in
    need? row := chat_runs db1 !! run_id else StaleDataError in
    let? (receipt, row', db2) :=
      _append_locked now db1 row owner operation_type phase safety payload None in
    Commit receipt (put_run db2 (row' <| updated_at := now |>))).

Definition sorted_keys (d : dict) : list string := order_by String.leb (dict_keys d).

Definition save_snapshot (now : Z) (run_id owner phase : string) (snapshot : dict)
    (safety : string) : Db → result exn JournalReceipt * Db :=
  run_tx (λ db,
    let? row := _locked_owned_run now db run_id owner in
    let version := snapshot_version row + 1 in
    let merged := dict_update (or_empty (recovery_snapshot row)) snapshot in
    let row1 := row <| recovery_snapshot := Some merged |>
                    <| snapshot_version := version |> in
    let? (receipt, row2, db2) :=
      _append_locked now db row1 owner "snapshot_saved" phase safety
        (Some [("snapshot_keys", JList (JStr <$> sorted_keys snapshot))])
        (Some version) in
    Commit receipt (put_run db2 (row2 <| updated_at := now |>))).

(** ** Event offsets *)

Definition allocate_event_offset (now : Z) (run_id : string) (owner : option string)
    (terminal : bool) (count : Z) : Db → result exn Z * Db :=
  run_tx (λ db,
    if count <? 1 then Raise (ValueError "count must be positive") else
    let row_or :=
      if terminal then
        match chat_runs db !! run_id with
        | None => Err (RunNotFound run_id)
        | Some row =>
            if is_live (status row) then Err (RunJournalError "run is not terminal")
            else Ok row
        end
      else
        match owner with
        | None => Err (ValueError "owner is required for a live projection")
        | Some o =>
            if bool_decide (o = "")
            then Err (ValueError "owner is required for a live projection")
            else _locked_owned_run now db run_id o
        end in
    let? row := row_or in
    let next_offset := last_event_offset row + 1 in
    Commit next_offset (put_run db
      (row <| last_event_offset := next_offset + count - 1 |>
           <| updated_at := now |>))).

(** ** Terminal transitions *)

(** The optional keys of the [committed_operation] mapping. *)
Record CommittedOperation := mkCommittedOperation {
  co_operation_type : option string;
  co_phase : option string;
  co_safety : option string;
  co_payload : option dict
}.

Definition reason_payload (reason : string) : option dict := Some [("reason", JStr reason)].

Definition complete (now : Z) (run_id owner : string) (status' : RunStatus)
    (usage' : option dict) (failure_reason' : option string)
    (last_event_offset' : option Z) (commit_effect : effect)
    (committed_operation : option CommittedOperation) : Db → result exn bool * Db :=
  run_tx (λ db,
    if negb (is_terminal status') then Raise (ValueError "invalid terminal status") else
    match _locked_owned_run now db run_id owner with
    | Err _ => Rollback false
    | Ok row =>
        let row1 :=
          row <| status := status' |>
              <| usage := or_none (or_empty usage') |>
              <| failure_reason := failure_reason' |>
              <| error_message :=
                   if bool_decide (status' = Failed) then failure_reason'
                   else error_message row |>
              <| completed_at := Some now |>
              <| updated_at := now |>
              <| lease_owner := None |>
              <| lease_expires_at := None |>
              <| writer_slot := None |>
              <| last_event_offset :=
                   match last_event_offset' with
                   | Some o => Z.max (last_event_offset row) o
                   | None => last_event_offset row
                   end |> in
        let? db1 := run_effect commit_effect (put_run db row1) in
        need? row1' := chat_runs db1 !! run_id else StaleDataError in
        let committed :=
          match committed_operation with
          | None => Ok (row1', db1)
          | Some co =>
              match _append_locked now db1 row1' owner
                      (opt_str_or (co_operation_type co) "side_effect_committed")
                      (opt_str_or (co_phase co) "side_effect_committed")
                      (opt_str_or (co_safety co) "side_effect_committed")
                      (co_payload co) None with
              | Ok (_, row', db') => Ok (row', db')
              | Err e => Err e
              end
          end in
        let? (row2, db2) := committed in
        let? (_, _, db3) :=
          _append_locked now db2 row2 owner ("run_" +:+ status_str status')
            (status_str status') "terminal"
            (match failure_reason' with
             | Some r => if bool_decide (r = "") then None
                         else Some [("failure_reason", JStr r)]
             | None => None
             end) None in
        Commit true db3
    end).

Definition cancel (now : Z) (run_id reason : string) : Db → result exn bool * Db :=
  run_tx (λ db,
    match chat_runs db !! run_id with
    | Some row =>
        if is_live (status row) then
          let? (_, row1, db1) :=
            _append_locked now db row "system:cancel" "run_cancelled" "cancelled"
              "terminal" (reason_payload reason) None in
          Commit true (put_run db1
            (row1 <| status := Cancelled |>
                  <| failure_reason := Some reason |>
                  <| completed_at := Some now |>
                  <| updated_at := now |>
                  <| lease_owner := None |>
                  <| lease_expires_at := None |>))
        else Rollback false
    | None => Rollback false
    end).

Definition release (now : Z) (run_id owner reason : string) : Db → result exn bool * Db :=
  run_tx (λ db,
    match _locked_owned_run now db run_id owner with
    | Err _ => Rollback false
    | Ok row =>
        let? (_, row1, db1) :=
          _append_locked now db row owner "run_released_for_recovery"
            (str_or (run_phase row) "accepted") "recovery_required"
            (reason_payload reason) None in
        Commit true (put_run db1
          (row1 <| status := Pending |>
                <| lease_owner := None |>
                <| lease_expires_at := None |>
                <| updated_at := now |>))
    end).

Definition needs_attention (now : Z) (run_id reason : string) (owner : option string)
    : Db → result exn bool * Db :=
  run_tx (λ db,
    let locked :=
      match owner with
      | Some o =>
          match _locked_owned_run now db run_id o with
          | Ok row => Some (row, o)
          | Err _ => None
          end
      | None =>
          match chat_runs db !! run_id with
          | Some row =>
              if negb (is_live (status row)) then None
              else if negb (is_null (lease_owner row)) && sql_gt (lease_expires_at row) now
              then None
              else Some (row, "system:recovery")
          | None => None
          end
      end in
    match locked with
    | None => Rollback false
    | Some (row, operation_owner) =>
        let? (_, row1, db1) :=
          _append_locked now db row operation_owner "run_needs_attention"
            "needs_attention" "manual_review" (reason_payload reason) None in
        Commit true (put_run db1
          (row1 <| status := NeedsAttention |>
                <| failure_reason := Some reason |>
                <| lease_owner := None |>
                <| lease_expires_at := None |>
                <| writer_slot := None |>
                <| updated_at := now |>))
    end).

(** ** Crash recovery *)

Definition decision_of (row : ChatRun.t) (action : RecoveryAction) : RecoveryDecision :=
  mkDecision (run_id row) (chat_id row) (user_id row) (message_id row) action
    (str_or (run_phase row) "accepted") (or_empty (recovery_snapshot row))
    (or_empty (request_payload row)).

(** [_append_locked] of a [run_needs_attention] operation, then the status. *)
Definition recovery_pause (now : Z) (db : Db) (row : ChatRun.t) (reason : string)
    : result exn (ChatRun.t * Db) :=
  match _append_locked now db row "system:recovery" "run_needs_attention"
          "needs_attention" "manual_review" (reason_payload reason) None with
  | Ok (_, row1, db1) =>
      Ok (row1 <| status := NeedsAttention |> <| failure_reason := Some reason |>, db1)
  | Err e => Err e
  end.

Definition clear_lease (row : ChatRun.t) : ChatRun.t :=
  row <| lease_owner := None |> <| lease_expires_at := None |>.

(** How an orphan of kind [chat] (or a legacy one) is classified, and the row
    as the branch leaves it. *)
Definition classify_orphan (now : Z) (db : Db) (row : ChatRun.t)
    (legacy_unrecoverable : bool) : result exn (RecoveryAction * ChatRun.t * Db) :=
  let phase := str_or (run_phase row) "accepted" in
  let pause reason :=
    match recovery_pause now db row reason with
    | Ok (row1, db1) => Ok (ActNeedsAttention, row1, db1)
    | Err e => Err e
    end in
  if legacy_unrecoverable then pause "legacy live run has no durable recovery snapshot"
  else if bool_decide (phase = "message_committed") then
    match _append_locked now db row "system:recovery" "recovered_after_message_commit"
            "completed" "terminal" None None with
    | Ok (_, row1, db1) =>
        Ok (ActCompleted, row1 <| status := Completed |> <| completed_at := Some now |>, db1)
    | Err e => Err e
    end
  else if bool_decide (phase = "tool_result_unknown")
          || bool_decide (last_operation_safety row = "unknown_side_effect") then
    pause "unknown tool result requires recovery decision"
  else if str_in phase RECOVERABLE_TOOL_PHASES then
    pause "tool effect was recovered, but exact model continuation is unavailable; automatic prompt replay is unsafe"
  else if bool_decide (phase = "model_completed")
          && negb (is_null (or_none (or_empty (recovery_snapshot row)))) then
    Ok (ActResumeFromSnapshot, row, db)
  else if bool_decide (phase = "model_inflight") then
    pause "model outcome is unknown; automatic replay is unsafe"
  else if negb (str_in phase RECOVERABLE_PRE_MODEL_PHASES) then
    pause ("unsupported recovery phase: " +:+ phase)
  else Ok (ActResume, row, db).

(** The branch for chat runs and legacy ones: settle or leave for a resume. *)
Definition recover_chat (now : Z) (db : Db) (row : ChatRun.t) (legacy : bool)
    : result exn (option RecoveryDecision * Db) :=
  match classify_orphan now db row legacy with
  | Err e => Err e
  | Ok (action, row1, db1) =>
      let row2 :=
        match action with
        | ActCompleted | ActNeedsAttention =>
            clear_lease row1 <| writer_slot := None |> <| updated_at := now |>
        | _ => row1
        end in
      Ok (Some (decision_of row action), put_run db1 row2)
  end.

Definition recover_row (now : Z) (db : Db) (row : ChatRun.t)
    : result exn (option RecoveryDecision * Db) :=
  let snapshot := or_empty (recovery_snapshot row) in
  let request_payload := or_empty (request_payload row) in
  let phase := str_or (run_phase row) "accepted" in
  let legacy_unrecoverable :=
    bool_decide (phase = "legacy_unrecoverable")
    && negb (json_in (dict_get request_payload "kind") NON_CHAT_RUN_KINDS) in
  let snapshot_kind := dict_get snapshot "kind" in
  if json_in snapshot_kind SAFE_STOP_ORPHAN_KINDS then
    let kind := match snapshot_kind with Some (JStr k) => k | _ => "" end in
    match recovery_pause now db row
            (kind +:+ " worker disappeared; owner-specific retry is required") with
    | Ok (row1, db1) =>
        Ok (Some (decision_of row ActNeedsAttention),
            put_run db1 (clear_lease row1 <| updated_at := now |>))
    | Err e => Err e
    end
  else if negb (json_is snapshot_kind "chat") && sql_eq (writer_slot row) "main"
          && bool_decide (phase = "accepted") then
    let reason := "server restarted before the accepted run was prepared" in
    match _append_locked now db row "system:recovery" "run_failed" "failed" "terminal"
            (reason_payload reason) None with
    | Ok (_, row1, db1) =>
        Ok (Some (decision_of row ActFailed),
            put_run db1
              (clear_lease (row1 <| status := Failed |>
                                 <| failure_reason := Some reason |>
                                 <| error_message := Some reason |>
                                 <| completed_at := Some now |>)
               <| writer_slot := None |> <| updated_at := now |>))
    | Err e => Err e
    end
  else if negb (json_is snapshot_kind "chat") && negb legacy_unrecoverable then
    Ok (None, db)
  else
    recover_chat now db row legacy_unrecoverable.

Fixpoint recover_rows (now : Z) (db : Db) (rows : list ChatRun.t)
    : result exn (list RecoveryDecision * Db) :=
  match rows with
  | [] => Ok ([], db)
  | row :: rows' =>
      match recover_row now db row with
      | Err e => Err e
      | Ok (d, db1) =>
          match recover_rows now db1 rows' with
          | Err e => Err e
          | Ok (ds, db2) => Ok (option_list d ++ ds, db2)
          end
      end
  end.

(** [ORDER BY created_at, run_id] *)
Definition run_leb (a b : ChatRun.t) : bool :=
  (created_at a <? created_at b)
  || ((created_at a =? created_at b) && String.leb (run_id a) (run_id b)).

Definition claimable_orphan (now : Z) (row : ChatRun.t) : bool :=
  is_live (status row) && lease_free now row.

Definition claimable_rows (now : Z) (db : Db) : list ChatRun.t :=
  order_by run_leb (List.filter (claimable_orphan now) (map_to_list (chat_runs db)).*2).

Definition recover (now : Z) : Db → result exn (list RecoveryDecision) * Db :=
  run_tx (λ db,
    let? (decisions, db') := recover_rows now db (claimable_rows now db) in
    Commit decisions db').
End RunJournal.
