(* ===== verification/RunJournalProps.v ===== *)
(** * Properties of the run journal *)

From S2P Require Import Prelude Db RunJournal.
Import ChatRun RunJournal.

(** ** The invariant of the run tables *)

Definition ops_of (db : Db) (r : string) : list ChatRunOperation.t :=
  List.filter (λ op, bool_decide (ChatRunOperation.run_id op = r)) (chat_run_operations db).
Definition op_seqs (db : Db) (r : string) : list Z :=
  ChatRunOperation.operation_seq <$> ops_of db r.

Record wf (db : Db) : Prop := {
  wf_keyed r row : chat_runs db !! r = Some row → run_id row = r;
  wf_seq_nonneg r row : chat_runs db !! r = Some row → 0 ≤ operation_seq row;
  wf_seqs r row : chat_runs db !! r = Some row →
    op_seqs db r `sublist_of` seqZ 1 (operation_seq row);
  wf_foreign op : op ∈ chat_run_operations db →
    is_Some (chat_runs db !! ChatRunOperation.run_id op);
  wf_slots r1 r2 row1 row2 s :
    chat_runs db !! r1 = Some row1 → chat_runs db !! r2 = Some row2 →
    chat_id row1 = chat_id row2 →
    writer_slot row1 = Some s → writer_slot row2 = Some s → r1 = r2;
  wf_slot_main r row s :
    chat_runs db !! r = Some row → writer_slot row = Some s → s = "main"
}.

(** The invariant reads only the two run tables. *)
Lemma wf_same_runs db db' :
  chat_runs db' = chat_runs db → chat_run_operations db' = chat_run_operations db →
  wf db → wf db'.
Proof.
  intros Er Eo [W1 W2 W3 W4 W5 W6]. unfold op_seqs, ops_of in W3.
  split; unfold op_seqs, ops_of; rewrite ?Er, ?Eo;
    [exact W1|exact W2|exact W3|exact W4|exact W5|exact W6].
Qed.

(** How a row may change: identity columns are fixed, counters only grow, a
    settled status is final, and the writer slot is only ever given up. *)
Record run_evolves (settled : RunStatus → bool) (a b : ChatRun.t) : Prop := {
  ev_run_id : run_id b = run_id a;
  ev_chat_id : chat_id b = chat_id a;
  ev_user_id : user_id b = user_id a;
  ev_message_id : message_id b = message_id a;
  ev_created_at : created_at b = created_at a;
  ev_seq : operation_seq a ≤ operation_seq b;
  ev_offset : last_event_offset a ≤ last_event_offset b;
  ev_version : snapshot_version a ≤ snapshot_version b;
  ev_settled : settled (status a) = true → status b = status a;
  ev_slot : writer_slot b = writer_slot a ∨ writer_slot b = None
}.

Definition not_live (s : RunStatus) : bool := negb (is_live s).

#[export] Instance run_evolves_refl settled : Reflexive (run_evolves settled).
Proof. intros a. by split; auto; lia. Qed.

#[export] Instance run_evolves_trans settled : Transitive (run_evolves settled).
Proof.
  intros a b c [] []. split; try congruence; try lia.
  - intros Hs. assert (status b = status a) as E by auto.
    rewrite <- E in Hs |- *. auto.
  - naive_solver congruence.
Qed.

(** Every run of [db] is still in [db'], evolved. *)
Definition runs_evolve (settled : RunStatus → bool) (db db' : Db) : Prop :=
  ∀ r row, chat_runs db !! r = Some row →
    ∃ row', chat_runs db' !! r = Some row' ∧ run_evolves settled row row'.

#[export] Instance runs_evolve_refl settled : Reflexive (runs_evolve settled).
Proof. intros db r row H. by exists row. Qed.

#[export] Instance runs_evolve_trans settled : Transitive (runs_evolve settled).
Proof.
  intros a b c Hab Hbc r row H.
  destruct (Hab _ _ H) as (row1 & H1 & E1). destruct (Hbc _ _ H1) as (row2 & H2 & E2).
  exists row2. split; [done|]. by etrans.
Qed.

(** What every journal operation guarantees. *)
Definition journal_safe (db db' : Db) : Prop :=
  wf db → wf db' ∧ runs_evolve not_live db db'.

#[export] Instance journal_safe_refl : Reflexive journal_safe.
Proof. by intros db Hwf. Qed.

#[export] Instance journal_safe_trans : Transitive journal_safe.
Proof.
  intros a b c Hab Hbc Hwf. destruct (Hab Hwf) as [Hb E1].
  destruct (Hbc Hb) as [Hc E2]. split; [done|]. by etrans.
Qed.

(** The operation journal is append-only. *)
Definition ops_grow (db db' : Db) : Prop :=
  chat_run_operations db `prefix_of` chat_run_operations db'.

#[export] Instance ops_grow_preorder : PreOrder ops_grow.
Proof.
  unfold ops_grow. split; [intros db; reflexivity|]. intros a b c Hab Hbc. by etrans.
Qed.

(** The last number a run has given out. *)
Definition counter (db : Db) (r : string) : Z :=
  match chat_runs db !! r with Some row => operation_seq row | None => 0 end.

(** The operations added to a run take the numbers after its counter, one after
    the other, and the counter ends at the last of them. *)
Definition numbered_on (db db' : Db) : Prop :=
  ∀ r, counter db r ≤ counter db' r ∧
       op_seqs db' r = op_seqs db r ++ seqZ (counter db r + 1) (counter db' r - counter db r).

#[export] Instance numbered_on_preorder : PreOrder numbered_on.
Proof.
  split.
  - intros db r. rewrite Z.sub_diag, app_nil_r. done.
  - intros a b c Hab Hbc r. destruct (Hab r) as [H1 E1], (Hbc r) as [H2 E2]. split; [lia|].
    rewrite E2, E1, <- app_assoc. f_equal.
    replace (counter c r - counter a r) with ((counter b r - counter a r) + (counter c r - counter b r)) by lia.
    rewrite seqZ_app by lia. do 2 f_equal. lia.
Qed.

(** Equal counters and equal operations. *)
Lemma numbered_on_same db db' :
  chat_run_operations db' = chat_run_operations db → (∀ r, counter db' r = counter db r) →
  numbered_on db db'.
Proof.
  intros Ho Hc r. rewrite Hc, Z.sub_diag, app_nil_r. unfold op_seqs, ops_of. by rewrite Ho.
Qed.

(** The interface a [commit_effect] callback of a call on [r] must meet: it
    stages writes that respect the run tables and number no operation, and of the
    runs that exist it may only evolve [r]. *)
Class JournalEffect (r : string) (e : effect) : Prop := {
  journal_effect db db' : run_effect e db = Ok db' → journal_safe db db';
  journal_effect_others db db' r' row :
    wf db → run_effect e db = Ok db' → r' ≠ r → chat_runs db !! r' = Some row →
    chat_runs db' !! r' = Some row;
  journal_effect_ops db db' : run_effect e db = Ok db' → ops_grow db db';
  journal_effect_numbers db db' : wf db → run_effect e db = Ok db' → numbered_on db db'
}.

#[export] Instance journal_effect_none r : JournalEffect r None.
Proof.
  split; intros db db'; [by intros [= <-]|by intros r' row _ [= <-]|by intros [= <-]|by intros _ [= <-]].
Qed.

(** ** Rewriting one run *)

Lemma op_seqs_app db r ops :
  ChatRunOperation.operation_seq <$>
    List.filter (λ op, bool_decide (ChatRunOperation.run_id op = r))
      (chat_run_operations db ++ ops) =
  op_seqs db r ++
  (ChatRunOperation.operation_seq <$>
    List.filter (λ op, bool_decide (ChatRunOperation.run_id op = r)) ops).
Proof. unfold op_seqs, ops_of. by rewrite List.filter_app, fmap_app. Qed.

Lemma put_run_safe {settled} db row row' :
  chat_runs db !! run_id row' = Some row → run_evolves settled row row' →
  operation_seq row' = operation_seq row →
  wf db →
  wf (put_run db row') ∧ runs_evolve settled db (put_run db row').
Proof.
  intros Hrow Hev Hseq Hwf. pose proof (ev_run_id _ _ _ Hev) as Hid.
  assert (Hlook : ∀ r0 row0, chat_runs (put_run db row') !! r0 = Some row0 →
    ∃ old, chat_runs db !! r0 = Some old ∧ run_evolves settled old row0 ∧
           operation_seq row0 = operation_seq old ∧ run_id row0 = r0).
  { intros r0 row0 H. simpl in H. apply lookup_insert_Some in H as [[<- <-]|[Hne H]].
    - exists row. auto.
    - exists row0. split_and!; [done|done|done|]. by eapply wf_keyed. }
  split.
  - split.
    + intros r0 row0 (old & Ho & _ & _ & ?)%Hlook. done.
    + intros r0 row0 (old & Ho & _ & E & _)%Hlook. rewrite E. by eapply wf_seq_nonneg.
    + intros r0 row0 (old & Ho & _ & E & _)%Hlook. rewrite E. by eapply (wf_seqs db Hwf).
    + intros op Hop. simpl in *. apply lookup_insert_is_Some.
      destruct (decide (run_id row' = ChatRunOperation.run_id op)); [by left|right].
      split; [done|]. by apply (wf_foreign db Hwf).
    + intros r1 r2 row1 row2 s (o1 & Ho1 & E1 & _ & _)%Hlook (o2 & Ho2 & E2 & _ & _)%Hlook
        Hc Hs1 Hs2.
      destruct E1, E2. apply (wf_slots db Hwf r1 r2 o1 o2 s); naive_solver congruence.
    + intros r0 row0 s (o & Ho & [] & _ & _)%Hlook Hs.
      apply (wf_slot_main db Hwf r0 o); naive_solver congruence.
  - intros r0 row0 H. simpl.
    destruct (decide (run_id row' = r0)) as [<-|Hne].
    + rewrite lookup_insert_eq. exists row'. split; [done|]. by simplify_eq.
    + rewrite lookup_insert_ne by done. by exists row0.
Qed.

(** ** Appending an operation *)

(** The row and the operation [_append_locked] writes. *)
Definition bumped (row : ChatRun.t) (phase safety : string) : ChatRun.t :=
  row <| operation_seq := operation_seq row + 1 |>
      <| run_phase := phase |>
      <| last_operation_safety := safety |>.

Definition journal_op (now : Z) (row : ChatRun.t) (owner operation_type phase safety : string)
    (payload : option dict) (version : option Z) : ChatRunOperation.t :=
  ChatRunOperation.mk (run_id row) (operation_seq row + 1) operation_type phase safety
    (Some owner) (default (snapshot_version row) version) (or_none (or_empty payload)) now.

Definition with_op (db : Db) (op : ChatRunOperation.t) : Db :=
  db <| chat_run_operations := chat_run_operations db ++ [op] |>.

Lemma elem_of_op_seqs db r s :
  s ∈ op_seqs db r ↔
  ∃ op, op ∈ chat_run_operations db ∧ ChatRunOperation.run_id op = r ∧
        ChatRunOperation.operation_seq op = s.
Proof.
  unfold op_seqs, ops_of. rewrite list_elem_of_fmap. split.
  - intros (op & -> & Hin). apply list_elem_of_In, filter_In in Hin as [Hin Hb].
    bool_simpl. apply list_elem_of_In in Hin. eauto.
  - intros (op & Hin & Hr & Hs). exists op. split; [done|].
    apply list_elem_of_In, filter_In. split; [by apply list_elem_of_In|].
    by apply bool_decide_eq_true.
Qed.

Lemma wf_op_bound db op row :
  wf db → op ∈ chat_run_operations db →
  chat_runs db !! ChatRunOperation.run_id op = Some row →
  1 ≤ ChatRunOperation.operation_seq op ≤ operation_seq row.
Proof.
  intros Hwf Hop Hrow.
  assert (ChatRunOperation.operation_seq op ∈ seqZ 1 (operation_seq row)) as Hin.
  { eapply elem_of_sublist; [|by eapply wf_seqs]. apply elem_of_op_seqs. eauto. }
  apply elem_of_seqZ in Hin. lia.
Qed.

Lemma insert_operation_next db op row :
  wf db → chat_runs db !! ChatRunOperation.run_id op = Some row →
  ChatRunOperation.operation_seq op = operation_seq row + 1 →
  insert_operation db op = Ok (with_op db op).
Proof.
  intros Hwf Hrow Hseq. unfold insert_operation.
  destruct (existsb _ _) eqn:E; [|done]. exfalso.
  apply existsb_exists in E as (op' & Hin & Hsame).
  unfold same_operation in Hsame. bool_simpl.
  apply list_elem_of_In in Hin.
  assert (chat_runs db !! ChatRunOperation.run_id op' = Some row) as Hrow' by congruence.
  pose proof (wf_op_bound _ _ _ Hwf Hin Hrow'). lia.
Qed.

Lemma with_op_wf {settled} db op row :
  wf db → chat_runs db !! ChatRunOperation.run_id op = Some row →
  ChatRunOperation.operation_seq op = operation_seq row + 1 →
  ∀ row', run_evolves settled row row' → operation_seq row' = operation_seq row + 1 →
  wf (put_run (with_op db op) row') ∧
  runs_evolve settled db (put_run (with_op db op) row').
Proof.
  intros Hwf Hrow Hseq row' Hev Hseq'.
  set (r := ChatRunOperation.run_id op) in *.
  assert (run_id row = r) as Hid by by eapply wf_keyed.
  assert (run_id row' = r) as Hid' by (rewrite (ev_run_id _ _ _ Hev); done).
  (* the same row with the old counter is an ordinary rewrite *)
  set (row1 := row' <| operation_seq := operation_seq row |>).
  assert (run_evolves settled row row1) as Hev1.
  { destruct Hev. by split. }
  destruct (put_run_safe (settled:=settled) db row row1) as [Hwf1 Hevo]; [by (simpl; rewrite Hid')|done|done|done|].
  assert (∀ r0 x, chat_runs (put_run (with_op db op) row') !! r0 = Some x →
    ∃ y, chat_runs (put_run db row1) !! r0 = Some y ∧ chat_id y = chat_id x ∧
         writer_slot y = writer_slot x) as Hsame.
  { intros r0 x H. simpl in *. change (run_id row1) with (run_id row').
    apply lookup_insert_Some in H as [[<- <-]|[Hne H]].
    - rewrite lookup_insert_eq. eauto.
    - rewrite lookup_insert_ne by done. eauto. }
  split; [split|].
  - intros r0 row0 H. simpl in H. rewrite Hid' in H.
    apply lookup_insert_Some in H as [[<- <-]|[? H]]; [done|by eapply (wf_keyed db)].
  - intros r0 row0 H. simpl in H. rewrite Hid' in H.
    pose proof (wf_seq_nonneg db Hwf _ _ Hrow).
    apply lookup_insert_Some in H as [[<- <-]|[? H]]; [lia|by eapply (wf_seq_nonneg db)].
  - intros r0 row0 H. unfold op_seqs, ops_of. simpl. rewrite op_seqs_app. simpl.
    simpl in H. rewrite Hid' in H. change (ChatRunOperation.run_id op) with r.
    pose proof (wf_seq_nonneg db Hwf _ _ Hrow).
    apply lookup_insert_Some in H as [[<- <-]|[Hne H]].
    + rewrite bool_decide_true by done. simpl. rewrite Hseq', Hseq.
      rewrite seqZ_app by lia.
      apply sublist_app; [by eapply wf_seqs|].
      replace (seqZ (1 + operation_seq row) 1) with [operation_seq row + 1]; [done|].
      unfold seqZ. simpl. f_equal. lia.
    + rewrite bool_decide_false by done. simpl. rewrite app_nil_r. by eapply wf_seqs.
  - intros op0 Hop0. simpl in *. rewrite Hid'.
    apply lookup_insert_is_Some.
    destruct (decide (r = ChatRunOperation.run_id op0)); [by left|right]. split; [done|].
    apply elem_of_app in Hop0 as [Hop0|Hop0]; [by apply (wf_foreign db Hwf)|].
    apply list_elem_of_singleton in Hop0. by subst.
  - intros r1 r2 a b s H1 H2.
    destruct (Hsame _ _ H1) as (y1 & Hy1 & <- & <-).
    destruct (Hsame _ _ H2) as (y2 & Hy2 & <- & <-).
    eapply (wf_slots _ Hwf1); eauto.
  - intros r0 a s H Hs. destruct (Hsame _ _ H) as (y & Hy & _ & E).
    apply (wf_slot_main _ Hwf1 _ _ _ Hy). congruence.
  - intros r0 row0 H. simpl. rewrite Hid'.
    destruct (decide (r = r0)) as [<-|Hne].
    + rewrite lookup_insert_eq. exists row'. split; [done|]. by simplify_eq.
    + rewrite lookup_insert_ne by done. by exists row0.
Qed.

Lemma append_locked_ok settled now db row0 row owner ty phase safety payload version :
  wf db → chat_runs db !! run_id row = Some row0 → run_evolves settled row0 row →
  operation_seq row = operation_seq row0 →
  let op := journal_op now row owner ty phase safety payload version in
  let row' := bumped row phase safety in
  _append_locked now db row owner ty phase safety payload version =
    Ok (mkReceipt (run_id row) (operation_seq row + 1)
          (default (snapshot_version row) version) phase,
        row', put_run (with_op db op) row') ∧
  run_evolves settled row0 row' ∧
  wf (put_run (with_op db op) row') ∧
  runs_evolve settled db (put_run (with_op db op) row').
Proof.
  intros Hwf Hrow Hev Hseq op row'.
  assert (run_evolves settled row0 row') as Hev'.
  { etrans; [done|]. subst row'. split; simpl; auto; lia. }
  split_and!; [|done|..].
  - unfold _append_locked. fold op. subst op.
    rewrite (insert_operation_next db _ row0); [done|done|done|]. simpl. lia.
  - eapply with_op_wf; [done|done|simpl; lia|done|simpl; lia].
  - eapply with_op_wf; [done|done|simpl; lia|done|simpl; lia].
Qed.

Ltac solve_evolves :=
  split; simpl; auto; try lia;
  let H := fresh in
  unfold not_live; intros H; apply negb_true_iff in H; congruence.

(** ** Every operation respects the run tables *)

Lemma lookup_own db r row : wf db → chat_runs db !! r = Some row →
  chat_runs db !! run_id row = Some row.
Proof. intros Hwf H. by rewrite (wf_keyed db Hwf r row H). Qed.

Lemma holds_lease_true now row o :
  _holds_lease now row o = true ↔
  is_live (status row) = true ∧ lease_owner row = Some o ∧
  ∃ e, lease_expires_at row = Some e ∧ now < e.
Proof.
  unfold _holds_lease. rewrite negb_true_iff, !orb_false_iff, negb_false_iff.
  rewrite bool_decide_eq_false. split.
  - intros [[Hlive Ho] He]. split; [done|]. split; [by apply dec_stable|].
    destruct (lease_expires_at row) as [e|]; [|done]. apply Z.leb_gt in He. eauto.
  - intros (Hlive & Ho & e & -> & He). split; [split; [done|]|by apply Z.leb_gt].
    intros Hne. by apply Hne.
Qed.

Lemma locked_owned_run_ok now db r o row :
  _locked_owned_run now db r o = Ok row ↔
  chat_runs db !! r = Some row ∧ _holds_lease now row o = true.
Proof.
  unfold _locked_owned_run. destruct (chat_runs db !! r) as [row0|].
  - destruct (_holds_lease now row0 o) eqn:E; split.
    + by intros [= <-].
    + by intros [[= <-] _].
    + done.
    + intros [[= <-] H]. congruence.
  - split; [done|by intros []].
Qed.

(** An append followed by the caller's own column writes. *)
Lemma append_put_safe {settled} now db row0 row owner ty phase safety payload version rcpt row1 db1 row2 :
  wf db → chat_runs db !! run_id row = Some row0 → run_evolves settled row0 row →
  operation_seq row = operation_seq row0 →
  _append_locked now db row owner ty phase safety payload version = Ok (rcpt, row1, db1) →
  run_evolves settled row0 row2 → run_id row2 = run_id row →
  operation_seq row2 = operation_seq row1 →
  wf (put_run db1 row2) ∧ runs_evolve settled db (put_run db1 row2).
Proof.
  intros Hwf Hrow Hev Hseq Happ Hev2 Hid2 Hseq2.
  destruct (append_locked_ok settled now db row0 row owner ty phase safety payload version)
    as (E & Hev1 & Hwf1 & Hevo); [done..|].
  rewrite E in Happ. simplify_eq.
  set (op := journal_op _ _ _ _ _ _ _ _).
  assert (put_run (put_run (with_op db op) (bumped row phase safety)) row2 =
          put_run (with_op db op) row2) as ->.
  { unfold put_run, with_op, over. simpl. rewrite Hid2. by rewrite insert_insert_eq. }
  eapply with_op_wf; [done|done|simpl; lia|done|simpl in *; lia].
Qed.

Lemma insert_run_safe db row db' :
  operation_seq row = 0 → insert_run db row = Ok db' → journal_safe db db'.
Proof.
  unfold insert_run. intros Hseq Hins Hwf.
  destruct (slot_allowed _) eqn:Hmain; simpl in Hins; [|done].
  destruct (chat_runs db !! run_id row) eqn:Hnone; simpl in Hins; [done|].
  destruct (existsb _ _) eqn:Hslot; simplify_eq.
  assert (op_seqs db (run_id row) = []) as Hnil.
  { destruct (op_seqs db (run_id row)) as [|s l] eqn:E; [done|]. exfalso.
    assert (s ∈ op_seqs db (run_id row)) as Hin by (rewrite E; left).
    apply elem_of_op_seqs in Hin as (op & Hop & Hr & _).
    destruct (wf_foreign db Hwf op Hop) as [x Hx]. congruence. }
  assert (Hfree : ∀ r0 row0 s, chat_runs db !! r0 = Some row0 →
    chat_id row0 = chat_id row → writer_slot row = Some s → writer_slot row0 ≠ Some s).
  { intros r0 row0 s H Hc Hs Hs0.
    rewrite <- not_true_iff_false, existsb_exists in Hslot. apply Hslot.
    exists row0. split.
    - apply list_elem_of_In, list_elem_of_fmap. exists (r0, row0). split; [done|].
      by apply elem_of_map_to_list.
    - unfold slot_conflict. rewrite Hs, Hs0. by rewrite !bool_decide_true. }
  split; [split|]; simpl.
  - intros r0 row0 [[<- <-]|[_ H]]%lookup_insert_Some; [done|by eapply wf_keyed].
  - intros r0 row0 [[<- <-]|[_ H]]%lookup_insert_Some; [lia|by eapply wf_seq_nonneg].
  - intros r0 row0 [[<- <-]|[_ H]]%lookup_insert_Some; [|by eapply (wf_seqs db Hwf)].
    change (op_seqs db (run_id row) `sublist_of` seqZ 1 (operation_seq row)).
    rewrite Hnil. apply sublist_nil_l.
  - intros op Hop. apply lookup_insert_is_Some.
    destruct (decide (run_id row = ChatRunOperation.run_id op)); [by left|right].
    split; [done|]. by apply (wf_foreign db Hwf).
  - intros r1 r2 a b s [[<- <-]|[_ H1]]%lookup_insert_Some
      [[<- <-]|[_ H2]]%lookup_insert_Some Hc Hs1 Hs2; [done|..].
    + exfalso. by eapply (Hfree r2 b s).
    + exfalso. by eapply (Hfree r1 a s).
    + by eapply (wf_slots db Hwf r1 r2 a b s).
  - intros r0 row0 s [[<- <-]|[_ H]]%lookup_insert_Some Hs; [|by eapply (wf_slot_main db Hwf)].
    unfold slot_allowed in Hmain. rewrite Hs in Hmain. simpl in Hmain. by bool_simpl.
  - intros r0 row0 H. simpl. exists row0. split; [|done].
    rewrite lookup_insert_ne; [done|]. intros <-. congruence.
Qed.

Lemma accept_safe now r m c u rp rs db : journal_safe db (accept now r m c u rp rs db).2.
Proof.
  unfold accept, run_tx, accept_in_session.
  destruct (insert_run _ _) as [db'|] eqn:E; simpl; [|reflexivity].
  by eapply insert_run_safe; [|done].
Qed.

Lemma claim_safe now r o secs db : journal_safe db (claim now r o secs db).2.
Proof.
  unfold claim, run_tx. case_bool_decide; [reflexivity|].
  destruct (chat_runs db !! r) as [row|] eqn:Hrow; [|reflexivity].
  destruct (is_live (status row)) eqn:Hlive; simpl; [|reflexivity].
  destruct (_ || _); [|reflexivity]. intros Hwf.
  apply (put_run_safe db row); simpl; [by eapply lookup_own|solve_evolves|done|done].
Qed.

Lemma renew_safe now r o secs db : journal_safe db (renew now r o secs db).2.
Proof.
  unfold renew, run_tx.
  destruct (chat_runs db !! r) as [row|] eqn:Hrow; [|reflexivity].
  destruct (_ && _); [|reflexivity]. intros Hwf.
  apply (put_run_safe db row); simpl; [by eapply lookup_own|solve_evolves|done|done].
Qed.

Lemma append_operation_safe now r o ty ph sf pl e `{!JournalEffect r e} db :
  journal_safe db (append_operation now r o ty ph sf pl e db).2.
Proof.
  unfold append_operation, run_tx.
  destruct (_locked_owned_run now db r o) as [row0|] eqn:Hl; [|reflexivity].
  destruct (run_effect e db) as [db1|] eqn:He; [|reflexivity].
  destruct (chat_runs db1 !! r) as [row|] eqn:Hrow; [|reflexivity].
  destruct (_append_locked _ _ _ _ _ _ _ _ _) as [[[rc row'] db2]|] eqn:Ha; [|reflexivity].
  simpl. etrans; [by eapply journal_effect|]. intros Hwf.
  pose proof (lookup_own _ _ _ Hwf Hrow) as Hown.
  destruct (append_locked_ok not_live now db1 row row o ty ph sf pl None) as (E & Hev & _); [done..|].
  rewrite E in Ha. simplify_eq.
  eapply append_put_safe; [done|done|reflexivity|done|done|..]; simpl; [|done|done].
  etrans; [done|]. solve_evolves.
Qed.

Lemma save_snapshot_safe now r o ph snap sf db :
  journal_safe db (save_snapshot now r o ph snap sf db).2.
Proof.
  unfold save_snapshot, run_tx.
  destruct (_locked_owned_run now db r o) as [row|] eqn:Hl; [|reflexivity].
  destruct (_append_locked _ _ _ _ _ _ _ _ _) as [[[rc row'] db2]|] eqn:Ha; [|reflexivity].
  simpl. intros Hwf. apply locked_owned_run_ok in Hl as [Hrow _].
  pose proof (lookup_own _ _ _ Hwf Hrow) as Hown.
  assert (Hev : run_evolves not_live row
    (row <| recovery_snapshot := Some (dict_update (or_empty (recovery_snapshot row)) snap) |>
         <| snapshot_version := snapshot_version row + 1 |>)) by solve_evolves.
  pose proof Ha as Ha'. unfold _append_locked in Ha'.
  destruct (insert_operation _ _); simplify_eq/=.
  eapply append_put_safe; [done| | | |exact Ha|..]; [exact Hown|exact Hev|done|..];
    simpl; [solve_evolves|done|done].
Qed.

Lemma allocate_event_offset_safe now r o t n db :
  journal_safe db (allocate_event_offset now r o t n db).2.
Proof.
  unfold allocate_event_offset, run_tx.
  destruct (n <? 1) eqn:Hn; [reflexivity|].
  set (row_or := if t then _ else _).
  destruct row_or as [row|] eqn:Hro; [|reflexivity]. simpl. intros Hwf.
  assert (chat_runs db !! r = Some row) as Hrow.
  { subst row_or. unfold _locked_owned_run in Hro. split_matches Hro; done. }
  bool_simpl.
  apply (put_run_safe db row); simpl; [by eapply lookup_own|solve_evolves|done|done].
Qed.

Lemma complete_safe now r o st us fr off e co `{!JournalEffect r e} db :
  journal_safe db (complete now r o st us fr off e co db).2.
Proof.
  unfold complete, run_tx. destruct (is_terminal st) eqn:Hterm; [|reflexivity]. simpl.
  destruct (_locked_owned_run now db r o) as [row|] eqn:Hl; [|reflexivity].
  apply locked_owned_run_ok in Hl as [Hrow (Hlive & _)%holds_lease_true].
  match goal with |- context [put_run db ?x] => set (row1 := x) end.
  assert (Hev : run_evolves not_live row row1).
  { subst row1. destruct off; solve_evolves. }
  destruct (run_effect e (put_run db row1)) as [db1|] eqn:He; [|reflexivity].
  destruct (chat_runs db1 !! r) as [row1'|] eqn:Hrow1; [|reflexivity].
  intros Hwf.
  assert (Hown : chat_runs db !! run_id row1 = Some row)
    by exact (lookup_own _ _ _ Hwf Hrow).
  destruct (put_run_safe db row row1 Hown Hev eq_refl Hwf) as [Hwf0 Hevo0].
  destruct (journal_effect _ _ He Hwf0) as [Hwf1 Hevo1].
  pose proof (lookup_own _ _ _ Hwf1 Hrow1) as Hown1.
  assert (runs_evolve not_live db db1) as Hevo01 by by etrans.
  destruct co as [co|].
  - match goal with |- context [_append_locked now db1 row1' o ?ty ?ph ?sf ?pl None] =>
      destruct (append_locked_ok not_live now db1 row1' row1' o ty ph sf pl None)
        as (E1 & _ & Hwf2 & Hevo2); [done..|]; rewrite E1 end.
    match goal with |- context [_append_locked now ?d ?x o ?ty ?ph ?sf ?pl None] =>
      destruct (append_locked_ok not_live now d x x o ty ph sf pl None)
        as (E2 & _ & Hwf3 & Hevo3); [done|apply lookup_insert_eq|done|done|]; rewrite E2 end.
    split; [done|]. by repeat (etrans; [done|]).
  - match goal with |- context [_append_locked now db1 row1' o ?ty ?ph ?sf ?pl None] =>
      destruct (append_locked_ok not_live now db1 row1' row1' o ty ph sf pl None)
        as (E1 & _ & Hwf2 & Hevo2); [done..|]; rewrite E1 end.
    split; [done|]. by etrans.
Qed.

(** The tail shared by [cancel], [release] and [needs_attention]: one append,
    then the columns of the locked row. *)
Lemma append_then_put_safe now db row owner ty ph sf pl f :
  chat_runs db !! run_id row = Some row →
  (∀ x, run_evolves not_live row x → run_evolves not_live row (f x)) →
  (∀ x, run_id (f x) = run_id x) → (∀ x, operation_seq (f x) = operation_seq x) →
  journal_safe db
    (run_tx (λ db0, let? (_, row1, db1) :=
        _append_locked now db row owner ty ph sf pl None in
      Commit true (put_run db1 (f row1)) : tx Db exn bool) db).2.
Proof.
  intros Hrow Hf Hid Hseq Hwf. unfold run_tx.
  destruct (append_locked_ok not_live now db row row owner ty ph sf pl None)
    as (E & Hev & _); [done..|]. rewrite E. simpl.
  eapply append_put_safe; [done|exact Hrow|reflexivity|done|exact E|..].
  - by apply Hf.
  - by rewrite Hid.
  - by rewrite Hseq.
Qed.

Lemma evolves_status settled a b st :
  settled (status a) = false → run_evolves settled a b →
  run_evolves settled a (b <| status := st |>).
Proof. intros Hs []. split; simpl; auto. congruence. Qed.

Lemma cancel_safe now r reason db : journal_safe db (cancel now r reason db).2.
Proof.
  unfold cancel, run_tx. destruct (chat_runs db !! r) as [row|] eqn:Hrow; [|reflexivity].
  destruct (is_live (status row)) eqn:Hlive; [|reflexivity]. intros Hwf.
  refine (append_then_put_safe now db row "system:cancel" _ _ _ _
    (λ x, x <| status := Cancelled |> <| failure_reason := Some reason |>
            <| completed_at := Some now |> <| updated_at := now |>
            <| lease_owner := None |> <| lease_expires_at := None |>) _ _ _ _ Hwf);
    [by eapply lookup_own| |done|done].
  intros x []. split; simpl; auto. unfold not_live. by rewrite Hlive.
Qed.

Lemma release_safe now r o reason db : journal_safe db (release now r o reason db).2.
Proof.
  unfold release, run_tx.
  destruct (_locked_owned_run now db r o) as [row|] eqn:Hl; [|reflexivity].
  apply locked_owned_run_ok in Hl as [Hrow (Hlive & _)%holds_lease_true]. intros Hwf.
  refine (append_then_put_safe now db row o _ _ _ _
    (λ x, x <| status := Pending |> <| lease_owner := None |>
            <| lease_expires_at := None |> <| updated_at := now |>) _ _ _ _ Hwf);
    [by eapply lookup_own| |done|done].
  intros x []. split; simpl; auto. unfold not_live. by rewrite Hlive.
Qed.

Lemma needs_attention_safe now r reason o db :
  journal_safe db (needs_attention now r reason o db).2.
Proof.
  unfold needs_attention, run_tx. set (locked := match o with Some _ => _ | None => _ end).
  destruct locked as [[row oo]|] eqn:El; [|reflexivity]. intros Hwf.
  assert (chat_runs db !! r = Some row ∧ is_live (status row) = true) as [Hrow Hlive].
  { subst locked. destruct o as [o|].
    - destruct (_locked_owned_run now db r o) as [row'|] eqn:Hl; simplify_eq.
      by apply locked_owned_run_ok in Hl as [? (? & _)%holds_lease_true].
    - split_matches El. bool_simpl. done. }
  refine (append_then_put_safe now db row oo _ _ _ _
    (λ x, x <| status := NeedsAttention |> <| failure_reason := Some reason |>
            <| lease_owner := None |> <| lease_expires_at := None |>
            <| writer_slot := None |> <| updated_at := now |>) _ _ _ _ Hwf);
    [by eapply lookup_own| |done|done].
  intros x []. split; simpl; auto. unfold not_live. by rewrite Hlive.
Qed.

(** ** Crash recovery *)

(** The verdict on an orphan as a table on what its row records. *)
Definition run_kind (row : ChatRun.t) : option json :=
  dict_get (or_empty (recovery_snapshot row)) "kind".
Definition phase_of (row : ChatRun.t) : string := str_or (run_phase row) "accepted".
Definition legacy_orphan (row : ChatRun.t) : bool :=
  bool_decide (phase_of row = "legacy_unrecoverable")
  && negb (json_in (dict_get (or_empty (request_payload row)) "kind") NON_CHAT_RUN_KINDS).

Definition chat_verdict (row : ChatRun.t) : RecoveryAction :=
  let phase := phase_of row in
  if legacy_orphan row then ActNeedsAttention
  else if bool_decide (phase = "message_committed") then ActCompleted
  else if bool_decide (phase = "tool_result_unknown")
          || bool_decide (last_operation_safety row = "unknown_side_effect")
          || str_in phase RECOVERABLE_TOOL_PHASES then ActNeedsAttention
  else if bool_decide (phase = "model_completed")
          && negb (is_null (or_none (or_empty (recovery_snapshot row)))) then ActResumeFromSnapshot
  else if str_in phase RECOVERABLE_PRE_MODEL_PHASES then ActResume
  else ActNeedsAttention.

Definition orphan_verdict (row : ChatRun.t) : option RecoveryAction :=
  if json_in (run_kind row) SAFE_STOP_ORPHAN_KINDS then Some ActNeedsAttention
  else if json_is (run_kind row) "chat" then Some (chat_verdict row)
  else if sql_eq (writer_slot row) "main" && bool_decide (phase_of row = "accepted")
  then Some ActFailed
  else if legacy_orphan row then Some (chat_verdict row)
  else None.

(** The row a verdict leaves behind. *)
Definition settled_row (now : Z) (v : option RecoveryAction) (row row' : ChatRun.t) : Prop :=
  match v with
  | None | Some ActResume | Some ActResumeFromSnapshot => row' = row
  | Some a =>
      status row' = match a with ActNeedsAttention => NeedsAttention
                               | ActCompleted => Completed | _ => Failed end ∧
      run_phase row' = status_str (status row') ∧
      operation_seq row' = operation_seq row + 1 ∧
      lease_owner row' = None ∧ lease_expires_at row' = None ∧
      (a ≠ ActNeedsAttention → writer_slot row' = None ∧ completed_at row' = Some now)
  end.

Definition single_update (db db' : Db) (r : string) (row' : ChatRun.t) : Prop :=
  wf db' ∧ runs_evolve not_live db db' ∧ chat_runs db' = <[r := row']> (chat_runs db).

Lemma append_update now db row ty ph sf pl f :
  wf db → chat_runs db !! run_id row = Some row →
  (∀ x, run_evolves not_live row x → run_evolves not_live row (f x)) →
  (∀ x, run_id (f x) = run_id x) → (∀ x, operation_seq (f x) = operation_seq x) →
  ∃ rcpt db1,
    _append_locked now db row "system:recovery" ty ph sf pl None =
      Ok (rcpt, bumped row ph sf, db1) ∧
    single_update db (put_run db1 (f (bumped row ph sf))) (run_id row) (f (bumped row ph sf)).
Proof.
  intros Hwf Hrow Hf Hid Hseq.
  destruct (append_locked_ok not_live now db row row "system:recovery" ty ph sf pl None)
    as (E & Hev & _); [done..|].
  eexists _, _. split; [exact E|].
  destruct (append_put_safe now db row row _ _ _ _ _ _ _ _ _ (f (bumped row ph sf))
    Hwf Hrow ltac:(reflexivity) eq_refl E (Hf _ Hev)) as [H1 H2]; [by rewrite Hid|by rewrite Hseq|].
  split_and!; [done|done|]. simpl. rewrite Hid. simpl. by rewrite insert_insert_eq.
Qed.

Lemma pause_update now db row reason f :
  wf db → chat_runs db !! run_id row = Some row → is_live (status row) = true →
  (∀ x, run_evolves not_live row x → run_evolves not_live row (f x)) →
  (∀ x, run_id (f x) = run_id x) → (∀ x, operation_seq (f x) = operation_seq x) →
  let row1 := (bumped row "needs_attention" "manual_review")
                <| status := NeedsAttention |> <| failure_reason := Some reason |> in
  ∃ db1, recovery_pause now db row reason = Ok (row1, db1) ∧
    single_update db (put_run db1 (f row1)) (run_id row) (f row1).
Proof.
  intros Hwf Hrow Hlive Hf Hid Hseq row1.
  destruct (append_update now db row "run_needs_attention" "needs_attention" "manual_review"
    (reason_payload reason)
    (λ x, f (x <| status := NeedsAttention |> <| failure_reason := Some reason |>)))
    as (rc & db1 & E & Hu); [done|done|..].
  - intros x []. apply Hf. split; simpl; auto. unfold not_live. by rewrite Hlive.
  - intros x. by rewrite Hid.
  - intros x. by rewrite Hseq.
  - exists db1. unfold recovery_pause. by rewrite E.
Qed.

Lemma same_update db row : wf db → chat_runs db !! run_id row = Some row →
  single_update db (put_run db row) (run_id row) row ∧ single_update db db (run_id row) row.
Proof.
  intros Hwf Hrow. split.
  - destruct (put_run_safe (settled:=not_live) db row row Hrow ltac:(reflexivity) eq_refl Hwf). done.
  - split_and!; [done|reflexivity|]. by rewrite insert_id.
Qed.

Lemma classify_update now db row f :
  wf db → chat_runs db !! run_id row = Some row → is_live (status row) = true →
  (∀ x, run_evolves not_live row x → run_evolves not_live row (f x)) →
  (∀ x, run_id (f x) = run_id x) → (∀ x, operation_seq (f x) = operation_seq x) →
  ∃ row1 db1,
    classify_orphan now db row (legacy_orphan row) = Ok (chat_verdict row, row1, db1) ∧
    match chat_verdict row with
    | ActResume | ActResumeFromSnapshot => row1 = row ∧ db1 = db
    | a => single_update db (put_run db1 (f row1)) (run_id row) (f row1) ∧
           row1 = match a with
                  | ActCompleted => (bumped row "completed" "terminal")
                       <| status := Completed |> <| completed_at := Some now |>
                  | _ => row1
                  end ∧
           (a = ActNeedsAttention → status row1 = NeedsAttention ∧
              run_phase row1 = "needs_attention" ∧ operation_seq row1 = operation_seq row + 1) ∧
           a ≠ ActFailed
    end.
Proof.
  intros Hwf Hrow Hlive Hf Hid Hseq.
  assert (Hpause : ∀ reason, ∃ row1 db1, recovery_pause now db row reason = Ok (row1, db1) ∧
    single_update db (put_run db1 (f row1)) (run_id row) (f row1) ∧
    status row1 = NeedsAttention ∧ run_phase row1 = "needs_attention" ∧
    operation_seq row1 = operation_seq row + 1).
  { intros reason. destruct (pause_update now db row reason f) as (db1 & E & Hu); [done..|].
    eexists _, db1. split; [exact E|]. done. }
  unfold classify_orphan, chat_verdict. fold (phase_of row).
  destruct (legacy_orphan row).
  { edestruct Hpause as (row1 & db1 & -> & Hu & ?). eexists _, _. split; [done|]. auto. }
  destruct (bool_decide (phase_of row = "message_committed")).
  { destruct (append_update now db row "recovered_after_message_commit" "completed" "terminal"
      None (λ x, f (x <| status := Completed |> <| completed_at := Some now |>)))
      as (rc & db1 & -> & Hu); [done|done|..].
    - intros x []. apply Hf. split; simpl; auto. unfold not_live. by rewrite Hlive.
    - intros x. by rewrite Hid.
    - intros x. by rewrite Hseq.
    - eexists _, _. split; [done|]. done. }
  destruct (bool_decide (phase_of row = "tool_result_unknown") || _); simpl.
  { edestruct Hpause as (row1 & db1 & -> & Hu & ?). eexists _, _. split; [done|]. auto. }
  destruct (str_in (phase_of row) RECOVERABLE_TOOL_PHASES).
  { edestruct Hpause as (row1 & db1 & -> & Hu & ?). eexists _, _. split; [done|]. auto. }
  destruct (bool_decide (phase_of row = "model_completed") && _).
  { eexists _, _. done. }
  destruct (bool_decide (phase_of row = "model_inflight")) eqn:Hmi.
  { apply bool_decide_eq_true in Hmi. rewrite Hmi. simpl.
    edestruct Hpause as (row1 & db1 & -> & Hu & ?). eexists _, _. split; [done|]. auto. }
  destruct (str_in (phase_of row) RECOVERABLE_PRE_MODEL_PHASES); simpl.
  { eexists _, _. done. }
  edestruct Hpause as (row1 & db1 & -> & Hu & ?). eexists _, _. split; [done|]. auto.
Qed.

Lemma recover_chat_spec now db row :
  wf db → chat_runs db !! run_id row = Some row → is_live (status row) = true →
  ∃ row' db', recover_chat now db row (legacy_orphan row) =
      Ok (Some (decision_of row (chat_verdict row)), db') ∧
    single_update db db' (run_id row) row' ∧
    settled_row now (Some (chat_verdict row)) row row'.
Proof.
  intros Hwf Hrow Hlive. unfold recover_chat.
  destruct (classify_update now db row
    (λ x, clear_lease x <| writer_slot := None |> <| updated_at := now |>))
    as (row1 & db1 & -> & Hv); [done..| |done|done|].
  { intros x []. by split; auto. }
  destruct (chat_verdict row); simpl in *.
  - destruct Hv as [-> ->]. eexists _, _. split; [done|]. split; [by apply same_update|done].
  - destruct Hv as [-> ->]. eexists _, _. split; [done|]. split; [by apply same_update|done].
  - destruct Hv as (Hu & _ & (Hs & Hp & Ho) & _); [done|].
    eexists _, _. split; [done|]. split; [exact Hu|]. simpl. by rewrite Hs, Hp, Ho.
  - destruct Hv as (Hu & Hr1 & _ & _). eexists _, _. split; [done|].
    split; [exact Hu|]. simpl. by rewrite Hr1.
  - by destruct Hv as (_ & _ & _ & ?).
Qed.

Lemma recover_row_spec now db row :
  wf db → chat_runs db !! run_id row = Some row → is_live (status row) = true →
  ∃ row' db', recover_row now db row = Ok (decision_of row <$> orphan_verdict row, db') ∧
    single_update db db' (run_id row) row' ∧ settled_row now (orphan_verdict row) row row'.
Proof.
  intros Hwf Hrow Hlive. unfold recover_row, orphan_verdict.
  fold (run_kind row) (phase_of row) (legacy_orphan row).
  destruct (json_in (run_kind row) SAFE_STOP_ORPHAN_KINDS).
  { match goal with |- context [recovery_pause now db row ?w] =>
      edestruct (pause_update now db row w (λ x, clear_lease (x <| updated_at := now |>)))
      as (db1 & -> & Hu); [done..| |done|done|] end.
    - by intros x []; split.
    - eexists _, _. split; [done|]. split; [exact Hu|done]. }
  assert (Hchat : ∃ row' db', recover_chat now db row (legacy_orphan row) =
      Ok (Some (decision_of row (chat_verdict row)), db') ∧
    single_update db db' (run_id row) row' ∧ settled_row now (Some (chat_verdict row)) row row')
    by by apply recover_chat_spec.
  destruct (json_is (run_kind row) "chat"); simpl; [exact Hchat|].
  destruct (sql_eq (writer_slot row) "main" && bool_decide (phase_of row = "accepted")).
  { set (reason := "server restarted before the accepted run was prepared").
    edestruct (append_update now db row "run_failed" "failed" "terminal"
      (reason_payload reason)
      (λ x, clear_lease (x <| status := Failed |> <| failure_reason := Some reason |>
        <| error_message := Some reason |> <| completed_at := Some now |>
        <| writer_slot := None |> <| updated_at := now |>)))
      as (rc & db1 & -> & Hu); [done..| |done|done|].
    - intros x []. split; simpl; auto. unfold not_live. by rewrite Hlive.
    - eexists _, _. split; [done|]. split; [exact Hu|done]. }
  destruct (legacy_orphan row); simpl; [exact Hchat|].
  eexists row, db. split; [done|]. split; [by apply same_update|done].
Qed.

Definition recovery_decisions (rows : list ChatRun.t) : list RecoveryDecision :=
  omap (λ row, decision_of row <$> orphan_verdict row) rows.

Lemma recover_rows_spec now rows db :
  wf db → NoDup (run_id <$> rows) →
  (∀ row, row ∈ rows → chat_runs db !! run_id row = Some row ∧ is_live (status row) = true) →
  ∃ db', recover_rows now db rows = Ok (recovery_decisions rows, db') ∧
    wf db' ∧ runs_evolve not_live db db' ∧
    (∀ row, row ∈ rows → ∃ row', chat_runs db' !! run_id row = Some row' ∧
       settled_row now (orphan_verdict row) row row') ∧
    (∀ r, r ∉ run_id <$> rows → chat_runs db' !! r = chat_runs db !! r).
Proof.
  revert db. induction rows as [|row rows IH]; intros db Hwf Hnd Hrows; simpl.
  { eexists. split; [done|]. split_and!; [done|reflexivity| |done].
    intros row Hrow. by apply not_elem_of_nil in Hrow. }
  apply NoDup_cons in Hnd as [Hnot Hnd].
  destruct (Hrows row) as [Hrow Hlive]; [left|].
  destruct (recover_row_spec now db row Hwf Hrow Hlive)
    as (row' & db1 & -> & (Hwf1 & Hevo1 & Hruns1) & Hset).
  assert (Hkeep : ∀ r, r ≠ run_id row → chat_runs db1 !! r = chat_runs db !! r).
  { intros r Hr. rewrite Hruns1. by rewrite lookup_insert_ne. }
  destruct (IH db1 Hwf1 Hnd) as (db2 & -> & Hwf2 & Hevo2 & Hall & Hrest).
  { intros x Hx. destruct (Hrows x) as [Hx1 Hx2]; [by right|]. split; [|done].
    rewrite Hkeep; [done|]. intros E. apply Hnot. rewrite <- E.
    apply list_elem_of_fmap. by exists x. }
  exists db2. split.
  { unfold recovery_decisions. simpl. by destruct (orphan_verdict row). }
  split_and!; [done|by etrans| |].
  - intros x [->|Hx]%elem_of_cons; [|by apply Hall].
    exists row'. split; [|done]. rewrite Hrest by done.
    by rewrite Hruns1, lookup_insert_eq.
  - intros r [Hr Hr']%not_elem_of_cons. rewrite Hrest by done. by apply Hkeep.
Qed.

Lemma elem_of_claimable_rows now db row : wf db →
  row ∈ claimable_rows now db ↔
  chat_runs db !! run_id row = Some row ∧ claimable_orphan now row = true.
Proof.
  intros Hwf. unfold claimable_rows. rewrite elem_of_order_by, list_elem_of_In, filter_In.
  rewrite <- list_elem_of_In, list_elem_of_fmap. split.
  - intros [([r x] & -> & Hin) ?]. apply elem_of_map_to_list in Hin. simpl in *.
    split; [|done]. by eapply lookup_own.
  - intros [H ?]. split; [|done]. exists (run_id row, row). split; [done|].
    by apply elem_of_map_to_list.
Qed.

Lemma claimable_rows_nodup now db : wf db → NoDup (run_id <$> claimable_rows now db).
Proof.
  intros Hwf. unfold claimable_rows. rewrite order_by_perm.
  assert (Hk : ∀ l : list (string * ChatRun.t),
    (∀ kv, kv ∈ l → run_id kv.2 = kv.1) → NoDup l.*1 →
    NoDup (run_id <$> List.filter (claimable_orphan now) l.*2)).
  { induction l as [|[k x] l IH]; intros Hkv Hnd; simpl; [constructor|].
    apply NoDup_cons in Hnd as [Hk Hnd].
    assert (Hl : NoDup (run_id <$> List.filter (claimable_orphan now) l.*2)).
    { apply IH; [|done]. intros kv Hin. apply Hkv. by right. }
    destruct (claimable_orphan now x); [|done]. apply NoDup_cons. split; [|done].
    intros (y & Hy & Hin)%list_elem_of_fmap. apply Hk.
    apply list_elem_of_In, filter_In in Hin as [Hin _].
    apply list_elem_of_In, list_elem_of_fmap in Hin as ([k' y'] & -> & Hin).
    apply list_elem_of_fmap. exists (k', y'). split; [|done].
    pose proof (Hkv (k, x) ltac:(left)). pose proof (Hkv (k', y') ltac:(by right)).
    simpl in *. congruence. }
  apply Hk; [|apply NoDup_fst_map_to_list].
  intros [k x] Hin. apply elem_of_map_to_list in Hin. by eapply wf_keyed.
Qed.

Lemma recover_spec now db : wf db →
  ∃ db', recover now db = (Ok (recovery_decisions (claimable_rows now db)), db') ∧
    wf db' ∧ runs_evolve not_live db db' ∧
    (∀ row, chat_runs db !! run_id row = Some row → claimable_orphan now row = true →
       ∃ row', chat_runs db' !! run_id row = Some row' ∧
         settled_row now (orphan_verdict row) row row') ∧
    (∀ r row, chat_runs db !! r = Some row → claimable_orphan now row = false →
       chat_runs db' !! r = Some row) ∧
    (∀ r, chat_runs db !! r = None → chat_runs db' !! r = None).
Proof.
  intros Hwf.
  destruct (recover_rows_spec now (claimable_rows now db) db) as (db' & E & H1 & H2 & H3 & H4);
    [done|by apply claimable_rows_nodup|..].
  { intros row [? Hc]%elem_of_claimable_rows; [|done]. split; [done|].
    unfold claimable_orphan in Hc. by bool_simpl. }
  exists db'. unfold recover, run_tx. rewrite E. split_and!; [done..| | |].
  - intros row Hrow Hc. apply H3. by apply elem_of_claimable_rows.
  - intros r row Hrow Hc. rewrite H4; [done|].
    intros (x & -> & Hin)%list_elem_of_fmap.
    apply elem_of_claimable_rows in Hin as [Hx Hcx]; [|done]. congruence.
  - intros r Hr. rewrite H4; [done|]. intros (x & -> & Hin)%list_elem_of_fmap.
    apply elem_of_claimable_rows in Hin as [Hx _]; [|done]. congruence.
Qed.

Lemma recover_safe now db : journal_safe db (recover now db).2.
Proof. intros Hwf. destruct (recover_spec now db Hwf) as (db' & -> & ? & ? & _). done. Qed.

(** What a successful reservation of offsets did. *)
Lemma allocate_shape now r ow t n db o db' :
  allocate_event_offset now r ow t n db = (Ok o, db') →
  ∃ row, chat_runs db !! r = Some row ∧ o = last_event_offset row + 1 ∧
    db' = put_run db (row <| last_event_offset := o + n - 1 |> <| updated_at := now |>) ∧ 1 ≤ n.
Proof.
  unfold allocate_event_offset, run_tx. destruct (n <? 1) eqn:Hn; [done|].
  set (row_or := if t then _ else _). destruct row_or as [row|] eqn:E; [|done]. intros [= <- <-].
  bool_simpl. exists row. split; [|done]. subst row_or. unfold _locked_owned_run in E.
  split_matches E; done.
Qed.

(** ** Histories of calls *)

(** One call of a journal method, with the clock reading of its transaction. *)
Inductive journal_call :=
| CallAccept (run_id message_id chat_id user_id : string) (request_payload : dict)
    (recovery_snapshot : option dict)
| CallClaim (run_id owner : string) (lease_seconds : Z)
| CallRenew (run_id owner : string) (lease_seconds : Z)
| CallAppend (run_id owner operation_type phase safety : string) (payload : option dict)
    (commit_effect : effect)
| CallSnapshot (run_id owner phase : string) (snapshot : dict) (safety : string)
| CallOffset (run_id : string) (owner : option string) (terminal : bool) (count : Z)
| CallComplete (run_id owner : string) (status : RunStatus) (usage : option dict)
    (failure_reason : option string) (last_event_offset : option Z) (commit_effect : effect)
    (committed_operation : option CommittedOperation)
| CallCancel (run_id reason : string)
| CallRelease (run_id owner reason : string)
| CallNeedsAttention (run_id reason : string) (owner : option string)
| CallRecover.

Definition exec_call (now : Z) (c : journal_call) (db : Db) : Db :=
  match c with
  | CallAccept r m ch u rp rs => (accept now r m ch u rp rs db).2
  | CallClaim r o s => (claim now r o s db).2
  | CallRenew r o s => (renew now r o s db).2
  | CallAppend r o ty ph sf pl e => (append_operation now r o ty ph sf pl e db).2
  | CallSnapshot r o ph sn sf => (save_snapshot now r o ph sn sf db).2
  | CallOffset r o t n => (allocate_event_offset now r o t n db).2
  | CallComplete r o st us fr off e co => (complete now r o st us fr off e co db).2
  | CallCancel r reason => (cancel now r reason db).2
  | CallRelease r o reason => (release now r o reason db).2
  | CallNeedsAttention r reason o => (needs_attention now r reason o db).2
  | CallRecover => (recover now db).2
  end.

Definition exec_history (h : list (Z * journal_call)) (db : Db) : Db :=
  foldl (λ d tc, exec_call tc.1 tc.2 d) db h.

(** Any call of the run journal, as a transaction. *)
Definition journal_body (c : journal_call) (now : Z) (db : Db) : tx Db exn unit :=
  Commit tt (exec_call now c db).

Definition call_ok (c : journal_call) : Prop :=
  match c with
  | CallAppend r _ _ _ _ _ e | CallComplete r _ _ _ _ _ e _ => JournalEffect r e
  | _ => True
  end.

Lemma exec_call_safe now c db : call_ok c → journal_safe db (exec_call now c db).
Proof.
  destruct c; simpl; intros Hok;
    eauto using accept_safe, claim_safe, renew_safe, save_snapshot_safe,
      allocate_event_offset_safe, cancel_safe, release_safe, needs_attention_safe,
      recover_safe.
  - by apply append_operation_safe.
  - by apply complete_safe.
Qed.

(** One transaction at a time: the branch taken, then its appends. *)
Ltac tx_branches :=
  repeat match goal with
  | |- context [match ?x with _ => _ end] =>
      lazymatch x with
      | context [match _ with _ => _ end] => fail
      | _ => destruct x eqn:?
      end
  end; simpl.

(** ** Frames: what no journal call touches *)

(** A relation that rewriting a run and appending an operation respect holds
    across every journal call whose callback respects it too. *)
Class JournalFrame (R : Db → Db → Prop) : Prop := {
  frame_preorder :: PreOrder R;
  frame_put_run db row : R db (put_run db row);
  frame_with_op db op : R db (with_op db op)
}.

Definition effect_in (R : Db → Db → Prop) (c : journal_call) : Prop :=
  match c with
  | CallAppend _ _ _ _ _ _ e | CallComplete _ _ _ _ _ _ e _ =>
      ∀ db db', run_effect e db = Ok db' → R db db'
  | _ => True
  end.

Section frame.
Context (R : Db → Db → Prop) `{!JournalFrame R}.

Lemma append_locked_frame now db row o ty ph sf pl v x db' :
  _append_locked now db row o ty ph sf pl v = Ok (x, db') → R db db'.
Proof.
  unfold _append_locked, insert_operation. destruct (existsb _ _); [done|].
  intros [= <- <-]. etrans; [apply frame_with_op|apply frame_put_run].
Qed.

Lemma recovery_pause_frame now db row reason x db' :
  recovery_pause now db row reason = Ok (x, db') → R db db'.
Proof.
  unfold recovery_pause. intros H. split_matches H. by eapply append_locked_frame.
Qed.

Ltac frame_step :=
  match goal with
  | H : _append_locked _ ?d _ _ _ _ _ _ _ = Ok _ |- R ?d _ =>
      etrans; [exact (append_locked_frame _ _ _ _ _ _ _ _ _ _ _ H)|]; clear H
  | H : recovery_pause _ ?d _ _ = Ok _ |- R ?d _ =>
      etrans; [exact (recovery_pause_frame _ _ _ _ _ _ H)|]; clear H
  end.
Ltac solve_frame :=
  repeat first [reflexivity | frame_step | apply frame_put_run].

Lemma recover_row_frame now db row x db' :
  recover_row now db row = Ok (x, db') → R db db'.
Proof.
  unfold recover_row. intros H.
  destruct (json_in _ _); [split_matches H; solve_frame|].
  destruct (_ && _ && _); [split_matches H; solve_frame|].
  destruct (_ && _); [by simplify_eq|].
  unfold recover_chat in H. destruct (classify_orphan _ _ _ _) as [[[a row1] db1]|] eqn:E; [|done].
  simplify_eq. etrans; [|apply frame_put_run].
  unfold classify_orphan in E. repeat case_match; simplify_eq; solve_frame.
Qed.

Lemma recover_rows_frame now rows : ∀ db x db',
  recover_rows now db rows = Ok (x, db') → R db db'.
Proof.
  induction rows as [|row rows IH]; simpl; intros db x db' H; [by simplify_eq|].
  split_matches H. etrans; [by eapply recover_row_frame|by eapply IH].
Qed.

Lemma append_operation_frame now r o ty ph sf pl e db :
  (∀ d d', run_effect e d = Ok d' → R d d') →
  R db (append_operation now r o ty ph sf pl e db).2.
Proof.
  intros He. unfold append_operation, run_tx. tx_branches; try reflexivity.
  etrans; [by eapply He|]. solve_frame.
Qed.

Lemma complete_frame now r o st us fr off e co db :
  (∀ d d', run_effect e d = Ok d' → R d d') →
  R db (complete now r o st us fr off e co db).2.
Proof.
  intros Heff. unfold complete, run_tx. destruct (negb _); [reflexivity|].
  destruct (_locked_owned_run now db r o) as [row|]; [|reflexivity].
  match goal with |- context [put_run db ?x] => set (row1 := x) end.
  destruct (run_effect e (put_run db row1)) as [db1|] eqn:He; [|reflexivity].
  assert (R db db1) as Hdb by (etrans; [apply (frame_put_run _ row1)|by eapply Heff]).
  destruct (chat_runs db1 !! r) as [row1'|]; [|reflexivity].
  destruct co as [co|]; [destruct (_append_locked now db1 _ _ _ _ _ _ _) as [[[? ?] ?]|] eqn:E1|];
    simpl; [|reflexivity|];
    destruct (_append_locked now _ _ _ ("run_" +:+ _) _ _ _ _) as [[[? ?] ?]|] eqn:E2; simpl;
    try reflexivity; (etrans; [exact Hdb|]); solve_frame.
Qed.

Lemma exec_call_frame now c db : effect_in R c → R db (exec_call now c db).
Proof.
  destruct c; simpl; intros Hok;
    unfold accept, accept_in_session, insert_run, claim, renew, save_snapshot,
      allocate_event_offset, cancel, release, needs_attention;
    try (unfold run_tx; tx_branches; solve_frame; fail).
  - by apply append_operation_frame.
  - by apply complete_frame.
  - unfold recover, run_tx.
    destruct (recover_rows _ _ _) as [[ds db']|] eqn:E; [|reflexivity].
    by eapply recover_rows_frame.
Qed.
End frame.

#[export] Instance ops_grow_frame : JournalFrame ops_grow.
Proof.
  split; [apply _|intros db row; unfold ops_grow; reflexivity|].
  intros db op. exists [op]. done.
Qed.

Lemma exec_call_grows now c db : call_ok c → ops_grow db (exec_call now c db).
Proof.
  intros Hok. apply (exec_call_frame ops_grow).
  destruct c; simpl in *; try done; by intros; eapply journal_effect_ops.
Qed.

(** ** Operation numbers *)

(** A copy of a row of the tables whose counter has not moved since. *)
Definition on_row (db : Db) (row : ChatRun.t) : Prop :=
  operation_seq row = counter db (run_id row).

Lemma on_row_own db r row : wf db → chat_runs db !! r = Some row → on_row db row.
Proof. intros Hwf H. unfold on_row, counter. by rewrite (lookup_own _ _ _ Hwf H). Qed.

Lemma counter_put db row r :
  counter (put_run db row) r = if bool_decide (run_id row = r) then operation_seq row else counter db r.
Proof.
  unfold counter. simpl. case_bool_decide as E; [by rewrite E, lookup_insert_eq|by rewrite lookup_insert_ne].
Qed.

Lemma put_numbered db row : on_row db row → numbered_on db (put_run db row).
Proof.
  intros Hon. apply numbered_on_same; [done|]. intros r. rewrite counter_put.
  case_bool_decide as E; [by rewrite <- E|done].
Qed.

Lemma append_locked_numbered now db row o ty ph sf pl v rc row' db' :
  on_row db row → _append_locked now db row o ty ph sf pl v = Ok (rc, row', db') →
  numbered_on db db' ∧ on_row db' row' ∧ run_id row' = run_id row.
Proof.
  intros Hon. unfold _append_locked, insert_operation. destruct (existsb _ _); [done|].
  intros [= <- <- <-]. split_and!; [|unfold on_row; by rewrite counter_put, bool_decide_true|done].
  intros r. rewrite counter_put. unfold on_row in Hon. unfold op_seqs, ops_of.
  simpl. rewrite op_seqs_app. simpl. change (counter (with_op db _) r) with (counter db r).
  case_bool_decide as E; simpl.
  - subst r. rewrite Hon. split; [lia|]. f_equal.
    replace (counter db (run_id row) + 1 - counter db (run_id row)) with 1 by lia.
    unfold seqZ; simpl; f_equal; lia.
  - split; [done|]. by rewrite Z.sub_diag.
Qed.

Lemma append_put_numbered now db row o ty ph sf pl v rc row1 db1 row2 :
  _append_locked now db row o ty ph sf pl v = Ok (rc, row1, db1) → on_row db row →
  run_id row2 = run_id row1 → operation_seq row2 = operation_seq row1 →
  numbered_on db (put_run db1 row2).
Proof.
  intros E Hon Hid Hseq. destruct (append_locked_numbered _ _ _ _ _ _ _ _ _ _ _ _ Hon E) as (Hn & Hon1 & _).
  etrans; [done|]. apply put_numbered. unfold on_row. by rewrite Hid, Hseq.
Qed.

Lemma recovery_pause_numbered now db row reason row1 db1 row2 :
  recovery_pause now db row reason = Ok (row1, db1) → on_row db row →
  run_id row2 = run_id row1 → operation_seq row2 = operation_seq row1 →
  numbered_on db (put_run db1 row2).
Proof.
  unfold recovery_pause. intros H Hon. destruct (_append_locked _ _ _ _ _ _ _ _ _) as [[[? ?] ?]|] eqn:E; [|done].
  injection H as <- <-. intros Hid Hseq. eapply append_put_numbered; [exact E|done|by rewrite Hid|by rewrite Hseq].
Qed.

Lemma on_row_like db r row row2 :
  wf db → chat_runs db !! r = Some row →
  run_id row2 = run_id row → operation_seq row2 = operation_seq row → on_row db row2.
Proof. intros Hwf H Hid Hseq. unfold on_row. rewrite Hid, Hseq. by eapply on_row_own. Qed.

Lemma locked_on_row now db r o row row2 :
  _locked_owned_run now db r o = Ok row → wf db →
  run_id row2 = run_id row → operation_seq row2 = operation_seq row → on_row db row2.
Proof. intros [H _]%locked_owned_run_ok Hwf. by eapply on_row_like. Qed.

#[local] Hint Resolve on_row_like locked_on_row put_numbered append_put_numbered recovery_pause_numbered : numbers.

Lemma recover_row_numbered now db row x db' :
  on_row db row → recover_row now db row = Ok (x, db') → numbered_on db db'.
Proof.
  intros Hon H. unfold recover_row in H.
  destruct (json_in _ _); [split_matches H; eauto with numbers|].
  destruct (_ && _ && _); [split_matches H; eauto with numbers|].
  destruct (_ && _); [by simplify_eq|].
  unfold recover_chat in H. destruct (classify_orphan _ _ _ _) as [[[a row1] db1]|] eqn:E; [|done].
  simplify_eq. unfold classify_orphan in E.
  repeat case_match; simplify_eq; eauto with numbers.
Qed.

Lemma recover_rows_numbered now rows : ∀ db x db',
  wf db → NoDup (run_id <$> rows) →
  (∀ row, row ∈ rows → chat_runs db !! run_id row = Some row ∧ is_live (status row) = true) →
  recover_rows now db rows = Ok (x, db') → numbered_on db db'.
Proof.
  induction rows as [|row rows IH]; simpl; intros db x db' Hwf Hnd Hrows H; [by simplify_eq|].
  apply NoDup_cons in Hnd as [Hnot Hnd]. destruct (Hrows row) as [Hrow Hlive]; [left|].
  destruct (recover_row_spec now db row Hwf Hrow Hlive) as (row' & db1 & E & (Hwf1 & _ & Hruns1) & _).
  rewrite E in H. split_matches H. etrans; [eapply recover_row_numbered; [by eapply on_row_own|exact E]|].
  eapply IH; [exact Hwf1|done| |done]. intros y Hy. destruct (Hrows y) as [Hy1 Hy2]; [by right|].
  split; [|done]. rewrite Hruns1, lookup_insert_ne; [done|].
  intros Ey. apply Hnot. rewrite Ey. by apply list_elem_of_fmap_2.
Qed.

Lemma insert_run_numbered db row db' :
  operation_seq row = 0 → insert_run db row = Ok db' → numbered_on db db'.
Proof.
  unfold insert_run. intros Hseq H. destruct (negb _); [done|].
  destruct (chat_runs db !! run_id row) eqn:E; simpl in H; [done|].
  destruct (existsb _ _); simplify_eq. apply put_numbered. unfold on_row, counter. by rewrite E.
Qed.

Lemma complete_numbered now r o st us fr off e co `{!JournalEffect r e} db :
  wf db → numbered_on db (complete now r o st us fr off e co db).2.
Proof.
  intros Hwf. pose proof (complete_safe now r o st us fr off e co db Hwf) as [_ _].
  unfold complete, run_tx. destruct (is_terminal st); [|reflexivity]. simpl.
  destruct (_locked_owned_run now db r o) as [row|] eqn:Hl; [|reflexivity].
  apply locked_owned_run_ok in Hl as [Hrow (Hlive & _)%holds_lease_true].
  match goal with |- context [put_run db ?x] => set (row1 := x) end.
  assert (Hev : run_evolves not_live row row1).
  { subst row1. destruct off; solve_evolves. }
  assert (Hn0 : numbered_on db (put_run db row1)).
  { apply put_numbered. exact (on_row_own _ _ _ Hwf Hrow). }
  destruct (put_run_safe db row row1 (lookup_own _ _ _ Hwf Hrow) Hev eq_refl Hwf) as [Hwf0 _].
  destruct (run_effect e (put_run db row1)) as [db1|] eqn:He; [|reflexivity].
  assert (Hn1 : numbered_on db db1).
  { etrans; [exact Hn0|]. by apply (journal_effect_numbers (r := r) (e := e)). }
  destruct (journal_effect _ _ He Hwf0) as [Hwf1 _].
  destruct (chat_runs db1 !! r) as [row1'|] eqn:Hrow1; [|reflexivity].
  pose proof (on_row_own _ _ _ Hwf1 Hrow1) as Hon.
  destruct co as [co|]; [destruct (_append_locked now db1 _ _ _ _ _ _ _) as [[[? ?] ?]|] eqn:E1|];
    simpl; [|reflexivity|];
    destruct (_append_locked now _ _ _ ("run_" +:+ _) _ _ _ _) as [[[? ?] ?]|] eqn:E2; simpl;
    try reflexivity; (etrans; [exact Hn1|]).
  - apply (append_locked_numbered _ _ _ _ _ _ _ _ _ _ _ _ Hon) in E1 as (H1 & Hon1 & _).
    apply (append_locked_numbered _ _ _ _ _ _ _ _ _ _ _ _ Hon1) in E2 as (H2 & _). by etrans.
  - by apply (append_locked_numbered _ _ _ _ _ _ _ _ _ _ _ _ Hon) in E2 as (H2 & _).
Qed.

Lemma append_operation_numbered now r o ty ph sf pl e `{!JournalEffect r e} db :
  wf db → numbered_on db (append_operation now r o ty ph sf pl e db).2.
Proof.
  intros Hwf. unfold append_operation, run_tx.
  destruct (_locked_owned_run now db r o) as [row0|]; [|reflexivity].
  destruct (run_effect e db) as [db1|] eqn:He; [|reflexivity].
  destruct (chat_runs db1 !! r) as [row|] eqn:Hrow; [|reflexivity].
  destruct (_append_locked _ _ _ _ _ _ _ _ _) as [[[rc row'] db2]|] eqn:Ha; [|reflexivity].
  simpl. etrans; [by apply (journal_effect_numbers (r := r) (e := e))|].
  destruct (journal_effect _ _ He Hwf) as [Hwf1 _]. eauto with numbers.
Qed.

Lemma exec_call_numbered now c db : call_ok c → wf db → numbered_on db (exec_call now c db).
Proof.
  intros Hok Hwf. destruct c; simpl in *.
  - unfold accept, run_tx, accept_in_session.
    destruct (insert_run _ _) as [db'|] eqn:E; simpl; [|reflexivity]. eapply insert_run_numbered; [|exact E]; done.
  - unfold claim, run_tx. tx_branches; try reflexivity; eauto with numbers.
  - unfold renew, run_tx. tx_branches; try reflexivity; eauto with numbers.
  - by apply append_operation_numbered.
  - unfold save_snapshot, run_tx. tx_branches; try reflexivity; eauto with numbers.
  - destruct (allocate_event_offset _ _ _ _ _ _) as [[o'|] db'] eqn:E; simpl.
    + apply allocate_shape in E as (row & Hrow & _ & -> & _).
      apply put_numbered. exact (on_row_own _ _ _ Hwf Hrow).
    + revert E. unfold allocate_event_offset, run_tx. tx_branches; intros; by simplify_eq.
  - by apply complete_numbered.
  - unfold cancel, run_tx. tx_branches; try reflexivity; eauto with numbers.
  - unfold release, run_tx. tx_branches; try reflexivity; eauto with numbers.
  - unfold needs_attention, run_tx. tx_branches; try reflexivity; eauto with numbers.
  - destruct (recover now db) as [x db'] eqn:E. simpl. unfold recover, run_tx in E.
    destruct (recover_rows _ _ _) as [[ds db1]|] eqn:Er; simplify_eq; [|reflexivity].
    eapply recover_rows_numbered; [done|by apply claimable_rows_nodup| |exact Er].
    intros row [? Hc]%elem_of_claimable_rows; [|done]. split; [done|].
    unfold claimable_orphan in Hc. by bool_simpl.
Qed.

(** ** What a completion did *)

(** The row as [complete] writes it before the callback runs. *)
Definition closed_row (row row1 : ChatRun.t) (st : RunStatus) : Prop :=
  run_id row1 = run_id row ∧ chat_id row1 = chat_id row ∧ status row1 = st ∧
  writer_slot row1 = None ∧ lease_owner row1 = None ∧ operation_seq row1 = operation_seq row ∧
  request_payload row1 = request_payload row ∧ run_evolves not_live row row1.

(** The rows and tables the appends of a completion leave alone. *)
Definition beside_ops (r : string) (db db' : Db) : Prop :=
  chat_sessions db' = chat_sessions db ∧ chat_messages db' = chat_messages db ∧
  chat_steer_queue db' = chat_steer_queue db ∧
  (∀ r', r' ≠ r → chat_runs db' !! r' = chat_runs db !! r') ∧
  ∀ row, chat_runs db !! r = Some row → ∃ row', chat_runs db' !! r = Some row' ∧
    status row' = status row ∧ writer_slot row' = writer_slot row ∧ chat_id row' = chat_id row.

#[export] Instance beside_ops_preorder r : PreOrder (beside_ops r).
Proof.
  split; [intros db; split_and!; eauto|].
  intros a b c (A1 & A2 & A3 & A4 & A5) (B1 & B2 & B3 & B4 & B5). split_and!; [congruence..| |].
  - intros r' Hne. rewrite B4, A4; done.
  - intros row H. destruct (A5 row H) as (row1 & H1 & E1 & E2 & E3).
    destruct (B5 row1 H1) as (row2 & H2 & F1 & F2 & F3). exists row2. split_and!; congruence.
Qed.

Lemma append_locked_beside now db row o ty ph sf pl v rc row' db' :
  chat_runs db !! run_id row = Some row →
  _append_locked now db row o ty ph sf pl v = Ok (rc, row', db') →
  beside_ops (run_id row) db db' ∧ chat_runs db' !! run_id row = Some row' ∧ run_id row' = run_id row.
Proof.
  intros Hr. unfold _append_locked, insert_operation. destruct (existsb _ _); [done|].
  intros [= <- <- <-]. split; [|split; [apply lookup_insert_eq|done]]. split_and!; try done.
  - intros r' Hne. simpl. by rewrite lookup_insert_ne.
  - intros row0 H. rewrite Hr in H. simplify_eq. simpl. rewrite lookup_insert_eq. eauto.
Qed.

Lemma complete_true now r o st us fr off e co `{!JournalEffect r e} db db' :
  wf db → complete now r o st us fr off e co db = (Ok true, db') →
  ∃ row row1 db1, chat_runs db !! r = Some row ∧ closed_row row row1 st ∧
    run_effect e (put_run db row1) = Ok db1 ∧ beside_ops r db1 db' ∧
    ∃ row', chat_runs db' !! r = Some row' ∧ status row' = st ∧ writer_slot row' = None.
Proof.
  intros Hwf H. unfold complete, run_tx in H. destruct (is_terminal st) eqn:Hterm; [|done].
  destruct (_locked_owned_run now db r o) as [row|] eqn:Hl; [|done]. simpl in H.
  apply locked_owned_run_ok in Hl as [Hrow (Hlive & _)%holds_lease_true].
  match type of H with context [put_run db ?x] => set (row1 := x) in H end.
  assert (closed_row row row1 st) as Hcl.
  { split_and!; try done. subst row1. destruct off; solve_evolves. }
  pose proof Hcl as (Hid & _ & Hst & Hslot & _ & _ & _ & Hev).
  pose proof (lookup_own _ _ _ Hwf Hrow) as Hown. rewrite <- Hid in Hown.
  destruct (put_run_safe db row row1 Hown Hev eq_refl Hwf) as [Hwf0 _].
  pose proof (wf_keyed db Hwf _ _ Hrow) as Hkey. clearbody row1.
  destruct (run_effect e (put_run db row1)) as [db1|] eqn:He; [|done].
  destruct (journal_effect _ _ He Hwf0) as [Hwf1 Hevo1].
  destruct (chat_runs db1 !! r) as [row1'|] eqn:Hrow1; [|done].
  assert (status row1' = st ∧ writer_slot row1' = None) as [Hst1 Hsl1].
  { destruct (Hevo1 r row1) as (x & Hx & Hevx);
      [simpl; rewrite Hid, Hkey; apply lookup_insert_eq|]. simplify_eq. split.
    - rewrite (ev_settled _ _ _ Hevx); [done|]. unfold not_live. by destruct (status row1).
    - destruct (ev_slot _ _ _ Hevx); congruence. }
  pose proof (wf_keyed db1 Hwf1 _ _ Hrow1) as Hk1. rewrite <- Hk1 in Hrow1.
  assert (∃ row2 db2 rc row3 ty ph sf pl, beside_ops r db1 db2 ∧ chat_runs db2 !! r = Some row2 ∧
    run_id row2 = r ∧ _append_locked now db2 row2 o ty ph sf pl None = Ok (rc, row3, db'))
    as (row2 & db2 & rc & row3 & ty & ph & sf & pl & B1 & Hr2 & Hk2 & Ea).
  { destruct co as [co|].
    - destruct (_append_locked now db1 row1' _ _ _ _ _ _) as [[[rc1 row2] db2]|] eqn:E1; [|done].
      destruct (_append_locked now db2 row2 _ _ _ _ _ _) as [[[rc2 row3] db3]|] eqn:E2; [|done].
      simplify_eq/=. destruct (append_locked_beside _ _ _ _ _ _ _ _ _ _ _ _ Hrow1 E1) as (B & L & K).
      rewrite Hk1 in *. eexists row2, db2, _, _, _, _, _, _. split_and!; [done|done|done|exact E2].
    - destruct (_append_locked now db1 row1' _ _ _ _ _ _) as [[[rc2 row3] db3]|] eqn:E2; [|done].
      simplify_eq/=. rewrite Hk1 in Hrow1.
      eexists row1', db1, _, _, _, _, _, _. split_and!; [reflexivity|done|done|exact E2]. }
  rewrite <- Hk2 in Hr2. destruct (append_locked_beside _ _ _ _ _ _ _ _ _ _ _ _ Hr2 Ea) as (B2 & _ & _).
  rewrite Hk2 in B2. assert (beside_ops r db1 db') as B by by etrans.
  exists row, row1, db1. split_and!; [done|done|done|done|].
  destruct B as (_ & _ & _ & _ & HB). rewrite Hk1 in Hrow1.
  destruct (HB row1' Hrow1) as (x & Hx & E1 & E2 & _). exists x. split_and!; congruence.
Qed.

(** ** Leases *)

(** [o] owns a live lease on [r] until [e]. *)
Definition leased (db : Db) (r o : string) (e : Z) : Prop :=
  ∃ row, chat_runs db !! r = Some row ∧ is_live (status row) = true ∧
         lease_owner row = Some o ∧ lease_expires_at row = Some e.

(** The worker on whose behalf a call is made, if any. *)
Definition call_actor (c : journal_call) : option string :=
  match c with
  | CallClaim _ o _ | CallRenew _ o _ | CallAppend _ o _ _ _ _ _ | CallSnapshot _ o _ _ _
  | CallComplete _ o _ _ _ _ _ _ | CallRelease _ o _ => Some o
  | CallOffset _ o _ _ | CallNeedsAttention _ _ o => o
  | CallAccept _ _ _ _ _ _ | CallCancel _ _ | CallRecover => None
  end.

Definition cancels (c : journal_call) (r : string) : bool :=
  match c with CallCancel r' _ => bool_decide (r' = r) | _ => false end.

(** Only the run [r0] and new runs may differ. *)
Definition others_kept (r0 : string) (db db' : Db) : Prop :=
  ∀ r row, r ≠ r0 → chat_runs db !! r = Some row → chat_runs db' !! r = Some row.

#[export] Instance others_kept_preorder r0 : PreOrder (others_kept r0).
Proof. split; [by intros db r row|]. intros a b c Hab Hbc r row Hne H. eauto. Qed.

Lemma put_run_others r0 db row : run_id row = r0 → others_kept r0 db (put_run db row).
Proof. intros <- r x Hne H. simpl. by rewrite lookup_insert_ne. Qed.

Lemma append_locked_others r0 now db row o ty ph sf pl v rc row' db' :
  run_id row = r0 → _append_locked now db row o ty ph sf pl v = Ok (rc, row', db') →
  others_kept r0 db db' ∧ run_id row' = r0.
Proof.
  unfold _append_locked, insert_operation. destruct (existsb _ _); [done|].
  intros Hid [= <- <- <-]. split; [|done]. intros r x Hne H. simpl.
  rewrite lookup_insert_ne; [done|]. by rewrite Hid.
Qed.

Lemma locked_not_foreign now db r o o' e row :
  leased db r o e → o ≠ o' → _locked_owned_run now db r o' ≠ Ok row.
Proof.
  intros (row0 & Hrow & _ & Ho & _) Hne [Hrow' (_ & Ho' & _)%holds_lease_true]%locked_owned_run_ok.
  congruence.
Qed.

Lemma leased_others r0 r db db' o e :
  r ≠ r0 → others_kept r0 db db' → leased db r o e → leased db' r o e.
Proof. intros Hne Hk (row & H & ?). exists row. split; [by apply Hk|done]. Qed.

Ltac solve_kept :=
  simpl;
  try match goal with
  | |- others_kept ?r0 _ _ =>
      repeat match goal with
      | H : _append_locked _ _ _ _ _ _ _ _ _ = Ok (_, _, _) |- _ =>
          apply (append_locked_others r0) in H as [? ?]; [|simpl; congruence]
      end
  end;
  repeat first
    [ reflexivity
    | match goal with
      | |- others_kept ?r0 _ (put_run _ _) =>
          etrans; [|apply (put_run_others r0); simpl; congruence]
      | H : others_kept ?r0 _ ?d' |- others_kept ?r0 _ ?d' => etrans; [|exact H]; clear H
      end ].

(** Outside [recover], a call only touches the run it names. *)
Definition call_run (c : journal_call) : option string :=
  match c with
  | CallAccept r _ _ _ _ _ | CallClaim r _ _ | CallRenew r _ _ | CallAppend r _ _ _ _ _ _
  | CallSnapshot r _ _ _ _ | CallOffset r _ _ _ | CallComplete r _ _ _ _ _ _ _
  | CallCancel r _ | CallRelease r _ _ | CallNeedsAttention r _ _ => Some r
  | CallRecover => None
  end.

Lemma locked_keyed now db r o row :
  wf db → _locked_owned_run now db r o = Ok row → run_id row = r.
Proof. intros Hwf [H _]%locked_owned_run_ok. by eapply wf_keyed. Qed.

Lemma exec_call_others now c db r0 :
  wf db → call_ok c → call_run c = Some r0 → others_kept r0 db (exec_call now c db).
Proof.
  intros Hwf Hok Hr0. pose proof (wf_keyed db Hwf) as Hkey.
  pose proof (λ o row, locked_keyed now db r0 o row Hwf) as Hlk.
  destruct c; simplify_eq/=.
  - unfold accept, accept_in_session, insert_run, run_tx. tx_branches; solve_kept;
      intros r x Hne H; simpl; by rewrite lookup_insert_ne.
  - unfold claim, run_tx. tx_branches; solve_kept.
    all: pose proof (Hkey _ _ Heqo); solve_kept.
  - unfold renew, run_tx. tx_branches; solve_kept.
    all: pose proof (Hkey _ _ Heqo); solve_kept.
  - unfold append_operation, run_tx.
    destruct (_locked_owned_run now db r0 owner) as [row|] eqn:El; [|reflexivity].
    destruct (run_effect _ db) as [db1|] eqn:He; [|reflexivity].
    destruct (chat_runs db1 !! r0) as [row1|] eqn:Hrow; [|reflexivity].
    pose proof (wf_keyed db1 (proj1 (journal_effect _ _ He Hwf)) _ _ Hrow).
    destruct (_append_locked _ _ _ _ _ _ _ _ _) as [[[? ?] ?]|] eqn:E; [|reflexivity].
    transitivity db1; [|solve_kept]. intros r x Hne Hx. by eapply journal_effect_others.
  - unfold save_snapshot, run_tx.
    destruct (_locked_owned_run now db r0 owner) as [row|] eqn:El; [|reflexivity].
    apply Hlk in El. tx_branches; solve_kept.
  - unfold allocate_event_offset, run_tx. destruct (_ <? _); [reflexivity|].
    set (row_or := if terminal then _ else _). destruct row_or as [row|] eqn:Hro; [|reflexivity].
    assert (run_id row = r0); [|solve_kept]. subst row_or.
    destruct terminal; [split_matches Hro; by eapply Hkey|].
    destruct owner as [o|]; [|done]. case_bool_decide; [done|]. by eapply Hlk.
  - unfold complete, run_tx. destruct (negb _); [reflexivity|].
    destruct (_locked_owned_run now db r0 owner) as [row|] eqn:El; [|reflexivity].
    match goal with |- context [put_run db ?x] => set (row1 := x) end.
    destruct (run_effect _ (put_run db row1)) as [db1|] eqn:He; [|reflexivity].
    destruct (chat_runs db1 !! r0) as [row1'|] eqn:Hrow; [|reflexivity].
    assert (wf (put_run db row1)) as Hwf0.
    { apply locked_owned_run_ok in El as [Hrow0 (Hlive & _)%holds_lease_true].
      apply (put_run_safe (settled:=not_live) db row); [by apply (lookup_own _ _ _ Hwf Hrow0)| |done|done].
      subst row1. match goal with off : option Z |- _ => destruct off end; solve_evolves. }
    assert (others_kept r0 db db1) as Hk1.
    { etrans; [apply (put_run_others r0 db row1); exact (Hlk _ _ El)|].
      intros r x Hne Hx. by eapply journal_effect_others. }
    assert (run_id row1' = r0) as Hid1
      by by apply (wf_keyed db1 (proj1 (journal_effect _ _ He Hwf0))).
    destruct committed_operation as [co|];
      [destruct (_append_locked now db1 _ _ _ _ _ _ _) as [[[? ?] ?]|] eqn:E1|];
      simpl; [|reflexivity|];
      destruct (_append_locked now _ _ _ ("run_" +:+ _) _ _ _ _) as [[[? ?] ?]|] eqn:E2; simpl;
      try reflexivity; solve_kept.
  - unfold cancel, run_tx. destruct (chat_runs db !! r0) as [row|] eqn:Hrow; [|reflexivity].
    apply Hkey in Hrow. tx_branches; solve_kept.
  - unfold release, run_tx.
    destruct (_locked_owned_run now db r0 owner) as [row|] eqn:El; [|reflexivity].
    apply Hlk in El. tx_branches; solve_kept.
  - unfold needs_attention, run_tx. set (locked := match owner with Some _ => _ | None => _ end).
    destruct locked as [[row oo]|] eqn:El; [|reflexivity].
    assert (run_id row = r0); [|tx_branches; solve_kept]. subst locked.
    destruct owner as [o|].
    + destruct (_locked_owned_run now db r0 o) as [row'|] eqn:Hl; simplify_eq. by eapply Hlk.
    + split_matches El. by eapply Hkey.
Qed.
