(* ===== verification/RunJournalThms.v ===== *)
(** * Theorems about the run journal

    Stated over histories of calls: any interleaving of the journal's methods,
    by any number of workers, each at its own clock reading. *)

From S2P Require Import Prelude Db RunJournal RunJournalProps.
Import ChatRun RunJournal.

Lemma leased_call now c db r o e :
  wf db → call_ok c → leased db r o e → now < e →
  call_actor c ≠ Some o → cancels c r = false →
  leased (exec_call now c db) r o e.
Proof.
  intros Hwf Hok Hl Hnow Hact Hcan.
  destruct (call_run c) as [r0|] eqn:Hr0.
  2:{ destruct c; simplify_eq/=.
      destruct (recover_spec now db Hwf) as (db' & -> & _ & _ & _ & Hkeep & _).
      destruct Hl as (row & Hrow & Hlive & Ho & He). exists row. split; [|done].
      apply Hkeep; [done|]. unfold claimable_orphan, lease_free.
      rewrite Hlive, Ho, He. simpl. by apply Z.leb_gt. }
  destruct (decide (r0 = r)) as [->|Hne].
  2:{ eapply leased_others; [|by eapply exec_call_others|done]. done. }
  assert (Hlock : ∀ o' row, Some o' ≠ Some o → _locked_owned_run now db r o' ≠ Ok row).
  { intros o' row Hne. eapply locked_not_foreign; [done|]. congruence. }
  pose proof Hl as (row & Hrow & Hlive & Ho & He).
  destruct c; simplify_eq/=;
    try (unfold append_operation, save_snapshot, complete, release, run_tx;
         try (destruct (negb _); [exact Hl|]);
         destruct (_locked_owned_run _ _ _ _) eqn:E; [by apply Hlock in E|exact Hl]).
  - unfold accept, run_tx, accept_in_session, insert_run. simpl. by rewrite Hrow.
  - unfold claim, run_tx, lease_free. case_bool_decide; [done|].
    rewrite Hrow, Hlive, Ho, He. simpl. rewrite bool_decide_false by congruence.
    destruct (Z.leb_spec e now); [lia|]. done.
  - unfold renew, run_tx. rewrite Hrow, Hlive, Ho, He. simpl.
    rewrite bool_decide_false by congruence. done.
  - unfold allocate_event_offset, run_tx. destruct (_ <? _); [done|].
    destruct terminal; [by rewrite Hrow, Hlive|]. destruct owner as [o'|]; [|done].
    case_bool_decide; [done|].
    destruct (_locked_owned_run _ _ _ _) eqn:E; [by apply Hlock in E|done].
  - by rewrite bool_decide_true in Hcan.
  - unfold needs_attention, run_tx. destruct owner as [o'|].
    + destruct (_locked_owned_run _ _ _ _) eqn:E; [by apply Hlock in E|done].
    + rewrite Hrow, Hlive, Ho, He. simpl. by rewrite (proj2 (Z.ltb_lt _ _) Hnow).
Qed.

(** The calls of [h] are made by others than [o], before [e], and none cancels [r]. *)
Definition rivals (r o : string) (e : Z) (h : list (Z * journal_call)) : Prop :=
  Forall (λ tc, call_ok tc.2 ∧ tc.1 < e ∧ call_actor tc.2 ≠ Some o ∧ cancels tc.2 r = false) h.

Lemma leased_history h : ∀ db r o e, wf db → leased db r o e → rivals r o e h →
  wf (exec_history h db) ∧ leased (exec_history h db) r o e.
Proof.
  induction h as [|[t c] h IH]; intros db r o e Hwf Hl Hr; [done|].
  apply Forall_cons in Hr as [(? & ? & ? & ?) Hr]. simpl in *.
  apply IH; [by apply exec_call_safe|by apply leased_call|done].
Qed.

Lemma claim_leases now r o secs db db1 :
  claim now r o secs db = (Ok true, db1) → wf db →
  leased db1 r o (lease_until now secs).
Proof.
  unfold claim, run_tx. intros H Hwf. case_bool_decide; [done|].
  destruct (chat_runs db !! r) as [row|] eqn:Hrow; [|done].
  destruct (_ && _); simplify_eq/=. eexists. simpl.
  rewrite (wf_keyed db Hwf r row Hrow). split; [apply lookup_insert_eq|]. done.
Qed.

Lemma history_safe h : ∀ db, wf db → Forall (λ tc, call_ok tc.2) h →
  wf (exec_history h db) ∧ runs_evolve not_live db (exec_history h db) ∧
  ops_grow db (exec_history h db) ∧ numbered_on db (exec_history h db).
Proof.
  induction h as [|[t c] h IH]; intros db Hwf Hok.
  { split_and!; [done|reflexivity..]. }
  apply Forall_cons in Hok as [Hc Hok]. simpl in *.
  destruct (exec_call_safe t c db Hc Hwf) as [Hwf1 Hev1].
  destruct (IH _ Hwf1 Hok) as (? & ? & ? & ?). split_and!; [done|by etrans|..].
  - etrans; [by apply exec_call_grows|done].
  - etrans; [by apply exec_call_numbered|done].
Qed.

(** C2: whatever the interleaving of journal calls, the run tables stay
    consistent: a chat has at most one holder of a writer slot, the operation
    numbers kept for a run are increasing and none exceeds its counter, no run
    disappears, its counters only grow, a paused or terminal status is final,
    the operation journal is append-only, and the operations the calls append to
    a run take the numbers after its counter one after the other, up to the new
    counter.  (Numbers below the counter may be missing in the tables the
    history starts from: retention deletes old operations.) *)
Theorem journal_history_safe h db :
  wf db → Forall (λ tc, call_ok tc.2) h →
  wf (exec_history h db) ∧ runs_evolve not_live db (exec_history h db) ∧
  ops_grow db (exec_history h db) ∧ numbered_on db (exec_history h db).
Proof. apply history_safe. Qed.

(** C7: a claim is exclusive.  Once [claim] by [o] succeeded, then whatever
    other workers call before the lease runs out, short of cancelling the run,
    [o] still passes the lease check and every other claimant is refused. *)
Theorem claim_exclusive now r o secs db db1 h now' o' secs' :
  wf db → claim now r o secs db = (Ok true, db1) →
  rivals r o (lease_until now secs) h →
  now' < lease_until now secs → o' ≠ o → o' ≠ "" →
  let db2 := exec_history h db1 in
  claim now' r o' secs' db2 = (Ok false, db2) ∧ require_lease now' r o db2 = (Ok tt, db2).
Proof.
  intros Hwf Hclaim Hriv Hnow Hne Hemp db2.
  assert (wf db1) as Hwf1.
  { pose proof (claim_safe now r o secs db Hwf) as [H _]. by rewrite Hclaim in H. }
  pose proof (claim_leases _ _ _ _ _ _ Hclaim Hwf) as Hl.
  destruct (leased_history h db1 r o _ Hwf1 Hl Hriv) as [_ (row & Hrow & Hlive & Ho & He)].
  fold db2 in Hrow. split.
  - unfold claim, run_tx, lease_free. rewrite bool_decide_false by done.
    rewrite Hrow, Hlive, Ho, He. simpl. rewrite bool_decide_false by congruence.
    destruct (Z.leb_spec (lease_until now secs) now'); [lia|]. done.
  - unfold require_lease, run_tx. rewrite Hrow.
    assert (_holds_lease now' row o = true) as ->; [|done].
    apply holds_lease_true. eauto.
Qed.

(** a run that left the live statuses is fenced: a late worker cannot
    claim, renew, append, snapshot, complete, release or cancel it, and none of
    these calls changes the database. *)
Theorem settled_run_fenced now r row db :
  chat_runs db !! r = Some row → is_live (status row) = false →
  ∀ o secs ty ph sf pl e snap st us fr off co reason,
  o ≠ "" → is_terminal st = true →
  claim now r o secs db = (Ok false, db) ∧
  renew now r o secs db = (Ok false, db) ∧
  append_operation now r o ty ph sf pl e db = (Err (RunLeaseLost r), db) ∧
  save_snapshot now r o ph snap sf db = (Err (RunLeaseLost r), db) ∧
  complete now r o st us fr off e co db = (Ok false, db) ∧
  release now r o reason db = (Ok false, db) ∧
  cancel now r reason db = (Ok false, db) ∧
  needs_attention now r reason (Some o) db = (Ok false, db).
Proof.
  intros Hrow Hlive o secs ty ph sf pl e snap st us fr off co reason Ho Hst.
  assert (_locked_owned_run now db r o = Err (RunLeaseLost r)) as Hl.
  { unfold _locked_owned_run, _holds_lease. by rewrite Hrow, Hlive. }
  unfold claim, renew, append_operation, save_snapshot, complete, release, cancel,
    needs_attention, run_tx.
  by rewrite bool_decide_false, Hl, Hrow, Hlive, Hst.
Qed.

(** Event offsets are never reused.  A reservation of [n] offsets that
    returned [o1] owns [o1 .. o1+n-1]; every later reservation on the run, after
    any history of calls, starts above it. *)
Theorem event_offsets_disjoint now r ow t n db o1 db1 h now' ow' t' n' o2 db2 :
  wf db → allocate_event_offset now r ow t n db = (Ok o1, db1) →
  Forall (λ tc, call_ok tc.2) h →
  allocate_event_offset now' r ow' t' n' (exec_history h db1) = (Ok o2, db2) →
  o1 + n ≤ o2.
Proof.
  intros Hwf H1 Hok H2.
  destruct (allocate_shape _ _ _ _ _ _ _ _ H1) as (row1 & Hr1 & -> & Hdb1 & _).
  destruct (allocate_shape _ _ _ _ _ _ _ _ H2) as (row2 & Hr2 & -> & _).
  pose proof (allocate_event_offset_safe now r ow t n db Hwf) as [Hwf1 _].
  rewrite H1 in Hwf1. simpl in Hwf1.
  destruct (history_safe h db1 Hwf1 Hok) as (_ & Hev & _).
  edestruct (Hev r) as (row2' & Hr2' & Hle).
  { rewrite Hdb1. simpl. rewrite (wf_keyed db Hwf r row1 Hr1). apply lookup_insert_eq. }
  rewrite Hr2 in Hr2'. simplify_eq. pose proof (ev_offset _ _ _ Hle). simpl in *. lia.
Qed.

(** ** Recovery *)

Lemma elem_of_recovery_decisions now db d : wf db →
  d ∈ recovery_decisions (claimable_rows now db) ↔
  ∃ row a, chat_runs db !! run_id row = Some row ∧ claimable_orphan now row = true ∧
    orphan_verdict row = Some a ∧ d = decision_of row a.
Proof.
  intros Hwf. unfold recovery_decisions. rewrite list_elem_of_omap. split.
  - intros (row & Hin & Hd). apply elem_of_claimable_rows in Hin as [? ?]; [|done].
    destruct (orphan_verdict row) as [a|] eqn:Ev; simplify_eq/=. eauto 6.
  - intros (row & a & Hrow & Hc & Hv & ->). exists row. split.
    + by apply elem_of_claimable_rows.
    + by rewrite Hv.
Qed.

(** [recover] is total on consistent tables and is the table
    [orphan_verdict] applied to every claimable orphan in [(created_at, run_id)]
    order; the row of each orphan is settled as its verdict says, and every run
    with a live lease is left untouched. *)
Theorem recover_decides now db : wf db →
  ∃ db', recover now db =
      (Ok (omap (λ row, decision_of row <$> orphan_verdict row) (claimable_rows now db)), db') ∧
    wf db' ∧
    (∀ row, chat_runs db !! run_id row = Some row → claimable_orphan now row = true →
       ∃ row', chat_runs db' !! run_id row = Some row' ∧
         settled_row now (orphan_verdict row) row row') ∧
    (∀ r row, chat_runs db !! r = Some row → claimable_orphan now row = false →
       chat_runs db' !! r = Some row).
Proof.
  intros Hwf. destruct (recover_spec now db Hwf) as (db' & ? & ? & _ & ? & ? & _). eauto 6.
Qed.

Lemma resume_verdict row : orphan_verdict row = Some ActResume →
  run_kind row = Some (JStr "chat") ∧ phase_of row ∈ RECOVERABLE_PRE_MODEL_PHASES ∧
  last_operation_safety row ≠ "unknown_side_effect".
Proof.
  assert (Hv : chat_verdict row = ActResume → phase_of row ∈ RECOVERABLE_PRE_MODEL_PHASES ∧
    last_operation_safety row ≠ "unknown_side_effect" ∧ legacy_orphan row = false).
  { unfold chat_verdict, str_in. intros H. repeat case_match; simplify_eq; bool_simpl; auto. }
  unfold orphan_verdict. intros H.
  destruct (json_in _ _); [done|]. destruct (json_is _ _) eqn:Hc.
  - simplify_eq. destruct Hv as (? & ? & _); [done|]. split_and!; [|done..].
    unfold json_is in Hc. destruct (run_kind row) as [[]|]; try done. bool_simpl. by subst.
  - destruct (_ && _); [done|]. destruct (legacy_orphan row) eqn:Hleg; [|done].
    simplify_eq. destruct Hv as (_ & _ & ?); [done|]. congruence.
Qed.

(** automation never replays past an effect.  A run that [recover] hands
    back for a resume is a chat run whose last committed phase precedes any
    model or tool call and whose last operation was not an unknown side effect;
    its row is exactly as the crash left it. *)
Theorem recover_resumes_only_before_model now db ds db' d :
  wf db → recover now db = (Ok ds, db') → d ∈ ds → dec_action d = ActResume →
  ∃ row, chat_runs db !! dec_run_id d = Some row ∧ chat_runs db' !! dec_run_id d = Some row ∧
    run_kind row = Some (JStr "chat") ∧ dec_phase d ∈ RECOVERABLE_PRE_MODEL_PHASES ∧
    last_operation_safety row ≠ "unknown_side_effect".
Proof.
  intros Hwf Hrec Hin Hact.
  destruct (recover_spec now db Hwf) as (db0 & E & _ & _ & Hset & _).
  rewrite E in Hrec. injection Hrec as <- <-.
  apply elem_of_recovery_decisions in Hin as (row & a & Hrow & Hc & Hv & ->); [|done].
  simpl in Hact. subst a.
  destruct (resume_verdict row Hv) as (Hk & Hp & Hs).
  destruct (Hset row Hrow Hc) as (row' & Hrow' & Hst). rewrite Hv in Hst. simpl in Hst. subst row'.
  exists row. done.
Qed.

(** recovery converges.  A second sweep at the same instant decides exactly
    the resumable runs of the first one: everything it paused, completed or
    failed is no longer claimable. *)
Theorem recover_idempotent now db ds db' : wf db → recover now db = (Ok ds, db') →
  ∃ ds' db'', recover now db' = (Ok ds', db'') ∧
    ∀ d, d ∈ ds' ↔ d ∈ ds ∧ (dec_action d = ActResume ∨ dec_action d = ActResumeFromSnapshot).
Proof.
  intros Hwf Hrec.
  destruct (recover_spec now db Hwf) as (db0 & E & Hwf' & _ & Hset & Hkeep & Hnew).
  rewrite E in Hrec. injection Hrec as <- <-.
  destruct (recover_spec now db0 Hwf') as (db'' & E2 & _). eexists _, db''. split; [exact E2|].
  intros d. rewrite !elem_of_recovery_decisions by done. split.
  - intros (row & a & Hrow & Hc & Hv & ->).
    destruct (chat_runs db !! run_id row) as [old|] eqn:Hold;
      [|by rewrite (Hnew _ Hold) in Hrow].
    pose proof (wf_keyed db Hwf _ _ Hold) as Hid.
    destruct (claimable_orphan now old) eqn:Hco.
    2:{ rewrite (Hkeep _ _ Hold Hco) in Hrow. simplify_eq. congruence. }
    rewrite <- Hid in Hold. destruct (Hset old Hold Hco) as (row' & Hrow' & Hst).
    rewrite Hid, Hrow in Hrow'. injection Hrow' as <-.
    unfold claimable_orphan in Hc. apply andb_true_iff in Hc as [Hlive _].
    destruct (orphan_verdict old) as [[]|] eqn:Hvo; simpl in Hst;
      try (destruct Hst as (Hs & _); rewrite Hs in Hlive; done);
      subst row; rewrite Hv in Hvo; simplify_eq; split; eauto 6.
  - intros [(row & a & Hrow & Hc & Hv & ->) Ha]. simpl in Ha.
    destruct (Hset row Hrow Hc) as (row' & Hrow' & Hst). rewrite Hv in Hst.
    assert (row' = row) as -> by by destruct Ha as [-> | ->].
    eauto 6.
Qed.

(** a committed snapshot merges into the previous one: keys it names are
    replaced, others survive, the version and the operation counter advance by
    one, and the journal records the new version. *)
Theorem save_snapshot_merges now r o ph snap sf db rcpt db' :
  wf db → NoDup (dict_keys snap) → save_snapshot now r o ph snap sf db = (Ok rcpt, db') →
  ∃ row row', chat_runs db !! r = Some row ∧ chat_runs db' !! r = Some row' ∧
    (∀ k v, dict_get snap k = Some v →
       dict_get (or_empty (recovery_snapshot row')) k = Some v) ∧
    (∀ k, k ∉ dict_keys snap →
       dict_get (or_empty (recovery_snapshot row')) k =
       dict_get (or_empty (recovery_snapshot row)) k) ∧
    snapshot_version row' = snapshot_version row + 1 ∧
    rcpt = mkReceipt r (operation_seq row + 1) (snapshot_version row + 1) ph ∧
    ∃ op, chat_run_operations db' = chat_run_operations db ++ [op] ∧
      ChatRunOperation.operation_seq op = operation_seq row' ∧
      ChatRunOperation.snapshot_version op = snapshot_version row'.
Proof.
  intros Hwf Hnd H. unfold save_snapshot, run_tx in H.
  destruct (_locked_owned_run now db r o) as [row|] eqn:Hl; [|done].
  apply locked_owned_run_ok in Hl as [Hrow _].
  pose proof (wf_keyed db Hwf r row Hrow) as Hid.
  unfold _append_locked, insert_operation in H.
  destruct (existsb _ _); simplify_eq/=. eexists row, _. split; [done|].
  split; [apply lookup_insert_eq|]. simpl. split_and!; [..|by eexists].
  - intros k v Hk. by apply dict_get_update.
  - intros k Hk. by apply dict_get_update_other.
  - done.
  - done.
Qed.

(** ** A concrete run *)

Lemma wf_empty : wf empty_db.
Proof.
  split; simpl.
  - intros r row H. by rewrite lookup_empty in H.
  - intros r row H. by rewrite lookup_empty in H.
  - intros r row H. by rewrite lookup_empty in H.
  - intros op H. by apply not_elem_of_nil in H.
  - intros r1 r2 row1 row2 s H. by rewrite lookup_empty in H.
  - intros r row s H. by rewrite lookup_empty in H.
Qed.

(** A chat run accepted at 10, claimed by [w1] at 20 for 90 seconds. *)
Definition demo0 : Db :=
  (accept 10 "run_1" "msg_1" "chat_1" "alice" [("message", JStr "hi")]
     (Some [("kind", JStr "chat")]) empty_db).2.
Definition demo1 : Db := (claim 20 "run_1" "w1" 90 demo0).2.
Definition rival_calls : list (Z * journal_call) :=
  [(30, CallClaim "run_1" "w2" 90);
   (40, CallComplete "run_1" "w2" Completed None None None None None);
   (50, CallRecover)].

Lemma demo0_wf : wf demo0.
Proof. apply accept_safe, wf_empty. Qed.
Lemma demo1_wf : wf demo1.
Proof. apply claim_safe, demo0_wf. Qed.
Lemma rival_calls_ok : Forall (λ tc, call_ok tc.2) rival_calls.
Proof.
  unfold rival_calls. rewrite !Forall_cons.
  split_and!; [exact I|apply journal_effect_none|exact I|constructor].
Qed.

Lemma journal_history_safe_witness :
  wf (exec_history rival_calls demo1) ∧
  runs_evolve not_live demo1 (exec_history rival_calls demo1) ∧
  ops_grow demo1 (exec_history rival_calls demo1) ∧
  numbered_on demo1 (exec_history rival_calls demo1).
Proof. apply (journal_history_safe rival_calls demo1 demo1_wf rival_calls_ok). Defined.

Lemma claim_exclusive_witness :
  claim 60 "run_1" "w2" 90 (exec_history rival_calls demo1) =
    (Ok false, exec_history rival_calls demo1) ∧
  require_lease 60 "run_1" "w1" (exec_history rival_calls demo1) =
    (Ok tt, exec_history rival_calls demo1).
Proof.
  apply (claim_exclusive 20 "run_1" "w1" 90 demo0 demo1 rival_calls 60 "w2" 90 demo0_wf).
  - vm_compute. reflexivity.
  - unfold rivals, rival_calls. rewrite !Forall_cons.
    split_and!; first [exact I | discriminate | reflexivity | apply journal_effect_none
                      | apply Forall_nil_2].
  - vm_compute. reflexivity.
  - discriminate.
  - discriminate.
Defined.

Definition demo_cancelled : Db := (cancel 70 "run_1" "user cancelled" demo1).2.

Lemma settled_run_fenced_witness :
  complete 80 "run_1" "w1" Completed None None None None None demo_cancelled
    = (Ok false, demo_cancelled).
Proof.
  assert (∃ row, chat_runs demo_cancelled !! "run_1" = Some row ∧
    is_live (status row) = false) as (row & H1 & H2).
  { eexists. split; [vm_compute; reflexivity|vm_compute; reflexivity]. }
  apply (settled_run_fenced 80 "run_1" row demo_cancelled H1 H2 "w1" 90 "x" "x" "x" None None
           [] Completed None None None None "x"); [discriminate|reflexivity].
Defined.

Lemma event_offsets_disjoint_witness : 1 + 64 ≤ 65.
Proof.
  eapply (event_offsets_disjoint 30 "run_1" (Some "w1") false 64 demo1 1 _ [] 40 (Some "w1")
    false 1 65 _ demo1_wf).
  - vm_compute. reflexivity.
  - constructor.
  - vm_compute. reflexivity.
Defined.

Lemma recover_decides_witness :
  ∃ db', recover 200000000 demo1 =
    (Ok (omap (λ row, decision_of row <$> orphan_verdict row)
           (claimable_rows 200000000 demo1)), db') ∧ wf db'.
Proof.
  destruct (recover_decides 200000000 demo1 demo1_wf) as (db' & ? & ? & _).
  exists db'. split; assumption.
Defined.

Definition demo_decision : RecoveryDecision :=
  mkDecision "run_1" "chat_1" "alice" "msg_1" ActResume "accepted"
    [("kind", JStr "chat")] [("message", JStr "hi")].

Lemma recover_resumes_only_before_model_witness :
  ∃ row, chat_runs demo1 !! "run_1" = Some row ∧
    dec_phase demo_decision ∈ RECOVERABLE_PRE_MODEL_PHASES.
Proof.
  edestruct (recover_resumes_only_before_model 200000000 demo1 [demo_decision]
    (recover 200000000 demo1).2 demo_decision
    demo1_wf) as (row & H1 & _ & _ & H2 & _).
  - vm_compute. reflexivity.
  - left.
  - reflexivity.
  - exists row. split; [exact H1|exact H2].
Defined.

Lemma recover_idempotent_witness :
  ∃ ds' db'', recover 200000000 (recover 200000000 demo1).2 = (Ok ds', db'') ∧
    demo_decision ∈ ds'.
Proof.
  edestruct (recover_idempotent 200000000 demo1 [demo_decision]
    (recover 200000000 demo1).2 demo1_wf)
    as (ds' & db'' & H1 & H2).
  - vm_compute. reflexivity.
  - exists ds', db''. split; [vm_compute in H1 |- *; exact H1|].
    apply H2. split; [left|left; reflexivity].
Defined.

Lemma save_snapshot_merges_witness :
  ∃ row', chat_runs (save_snapshot 30 "run_1" "w1" "pre_model" [("step", JInt 1)] "replayable"
                       demo1).2 !! "run_1" = Some row' ∧ snapshot_version row' = 2.
Proof.
  edestruct (save_snapshot_merges 30 "run_1" "w1" "pre_model" [("step", JInt 1)] "replayable"
    demo1 (mkReceipt "run_1" 1 2 "pre_model") (save_snapshot 30 "run_1" "w1" "pre_model" [("step", JInt 1)] "replayable" demo1).2
    demo1_wf) as (row & row' & Hr & H1 & _ & _ & H2 & _).
  - apply NoDup_singleton.
  - vm_compute. reflexivity.
  - exists row'. split; [exact H1|]. vm_compute in Hr. injection Hr as <-. exact H2.
Defined.
