(* ===== verification/PyString.v ===== *)
(** * Python string operations

    A string is a sequence of code points below 256; the operations are those
    the masking, hashing and key-derivation code uses. *)

From S2P Require Import Prelude.
From stdpp Require Import pretty.
From Stdlib Require Import Ascii String.

Definition code (c : ascii) : N := N_of_ascii c.

Fixpoint str_filter (p : ascii → bool) (s : string) : string :=
  match s with
  | EmptyString => EmptyString
  | String c s' => if p c then String c (str_filter p s') else str_filter p s'
  end.

Fixpoint str_map (f : ascii → ascii) (s : string) : string :=
  match s with
  | EmptyString => EmptyString
  | String c s' => String (f c) (str_map f s')
  end.

Definition in_range (lo hi : N) (c : ascii) : bool :=
  ((lo <=? code c) && (code c <=? hi))%N.

(** [\d], [\s] and [str.lower] on this range. *)
Definition is_digit (c : ascii) : bool := in_range 48 57 c.
Definition is_space (c : ascii) : bool :=
  in_range 9 13 c || in_range 28 32 c || in_range 133 133 c || in_range 160 160 c.
Definition lower_char (c : ascii) : ascii :=
  if in_range 65 90 c || (in_range 192 222 c && negb (in_range 215 215 c))
  then ascii_of_N (code c + 32) else c.
Definition lower (s : string) : string := str_map lower_char s.

Definition str_len (s : string) : nat := String.length s.
(** [s[:n]] and [s[-n:]] for [0 < n] *)
Definition take_str (n : nat) (s : string) : string := String.substring 0 n s.
Definition last_str (n : nat) (s : string) : string :=
  String.substring (str_len s - n) n s.

Definition str_prefix (p s : string) : bool := String.prefix p s.

(** [needle in s] *)
Fixpoint contains (needle s : string) : bool :=
  String.prefix needle s ||
  match s with
  | EmptyString => false
  | String _ s' => contains needle s'
  end.

(** [s.split(sep, 1)] at the first occurrence of a character. *)
Fixpoint split_at (sep : ascii) (s : string) : option (string * string) :=
  match s with
  | EmptyString => None
  | String c s' =>
      if bool_decide (c = sep) then Some (EmptyString, s')
      else match split_at sep s' with
           | Some (l, r) => Some (String c l, r)
           | None => None
           end
  end.

(** [s.strip()] *)
Fixpoint lstrip (s : string) : string :=
  match s with
  | String c s' => if is_space c then lstrip s' else s
  | EmptyString => EmptyString
  end.
Fixpoint rstrip (s : string) : string :=
  match s with
  | EmptyString => EmptyString
  | String c s' =>
      match rstrip s' with
      | EmptyString => if is_space c then EmptyString else String c EmptyString
      | r => String c r
      end
  end.
Definition strip (s : string) : string := rstrip (lstrip s).

(** [sep.join(l)] *)
Fixpoint join (sep : string) (l : list string) : string :=
  match l with
  | [] => ""
  | [x] => x
  | x :: l' => x +:+ sep +:+ join sep l'
  end.
Definition concat_str (l : list string) : string := foldr String.append "" l.

(** ** [json.dumps] *)

Definition hex_digit (n : N) : ascii :=
  if (n <? 10)%N then ascii_of_N (48 + n) else ascii_of_N (87 + n).

Definition quote : string := String (ascii_of_N 34) EmptyString.
Definition backslash : string := String (ascii_of_N 92) EmptyString.

Definition dump_char (ensure_ascii : bool) (c : ascii) : string :=
  let n := code c in
  if (n =? 34)%N then backslash +:+ quote
  else if (n =? 92)%N then backslash +:+ backslash
  else if (n =? 10)%N then backslash +:+ "n"
  else if (n =? 13)%N then backslash +:+ "r"
  else if (n =? 9)%N then backslash +:+ "t"
  else if (n =? 8)%N then backslash +:+ "b"
  else if (n =? 12)%N then backslash +:+ "f"
  else if (n <? 32)%N || (ensure_ascii && (126 <? n)%N) then
    backslash +:+ "u00" +:+
      String (hex_digit (n / 16)) (String (hex_digit (n mod 16)) EmptyString)
  else String c EmptyString.

Fixpoint dump_chars (ensure_ascii : bool) (s : string) : string :=
  match s with
  | EmptyString => EmptyString
  | String c s' => dump_char ensure_ascii c +:+ dump_chars ensure_ascii s'
  end.
Definition dump_str (ensure_ascii : bool) (s : string) : string :=
  quote +:+ dump_chars ensure_ascii s +:+ quote.

(** Keys in ascending order under [sort_keys=True]. *)
Definition key_leb {A} (a b : string * A) : bool := String.leb a.1 b.1.

Fixpoint json_dumps (ensure_ascii sort_keys : bool) (item_sep key_sep : string)
    (v : json) : string :=
  match v with
  | JNull => "null"
  | JBool b => if b then "true" else "false"
  | JInt z => pretty z
  | JStr s => dump_str ensure_ascii s
  | JList l => "[" +:+ join item_sep (map (json_dumps ensure_ascii sort_keys item_sep key_sep) l) +:+ "]"
  | JDict d =>
      let items := map (λ kv, (kv.1, dump_str ensure_ascii kv.1 +:+ key_sep +:+
                                 json_dumps ensure_ascii sort_keys item_sep key_sep kv.2)) d in
      "{" +:+ join item_sep (if sort_keys then (order_by key_leb items).*2 else items.*2)
          +:+ "}"
  end.
