(* ===== verification/PyDict.v ===== *)
(** * Python dicts and paths

    A dict is its list of items in insertion order: assigning to a key that is
    there keeps its place, a new key goes to the end, [pop] removes the item.
    Then come the order of strings, the path operations of [os.path] that read no
    file system, and the two lexers of [shlex]. *)

From S2P Require Import Prelude PyString.
From Stdlib Require Import Ascii String.

Abbreviation pydict K V := (list (K * V)).

Section dicts.
Context {K V : Type} `{EqDecision K}.
Implicit Types (d : pydict K V) (k : K) (v : V).

Fixpoint dget d k : option V :=
  match d with
  | [] => None
  | (k', v) :: d' => if bool_decide (k' = k) then Some v else dget d' k
  end.

Fixpoint dput d k v : pydict K V :=
  match d with
  | [] => [(k, v)]
  | (k', v') :: d' =>
      if bool_decide (k' = k) then (k', v) :: d' else (k', v') :: dput d' k v
  end.

(** [d.pop(k, None)] *)
Fixpoint dpop d k : pydict K V :=
  match d with
  | [] => []
  | (k', v') :: d' => if bool_decide (k' = k) then d' else (k', v') :: dpop d' k
  end.

Lemma dget_dput d k k' v :
  dget (dput d k v) k' = if bool_decide (k = k') then Some v else dget d k'.
Proof.
  induction d as [|[k0 v0] d IH]; cbn [dput dget]; [done|].
  destruct (decide (k0 = k)) as [->|Hne].
  - rewrite (bool_decide_true (k = k)) by done. cbn [dget]. by case_bool_decide.
  - rewrite (bool_decide_false (k0 = k)) by done. cbn [dget]. rewrite IH.
    repeat case_bool_decide; congruence.
Qed.

Lemma dget_dput_eq d k v : dget (dput d k v) k = Some v.
Proof. rewrite dget_dput. by rewrite bool_decide_true. Qed.

Lemma dget_dput_ne d k k' v : k ≠ k' → dget (dput d k v) k' = dget d k'.
Proof. intros. rewrite dget_dput. by rewrite bool_decide_false. Qed.

Lemma dget_elem d k v : dget d k = Some v → (k, v) ∈ d.
Proof.
  induction d as [|[k0 v0] d IH]; simpl; [done|]. case_bool_decide; intros E; simplify_eq.
  - left.
  - right. by apply IH.
Qed.

Lemma elem_dget d k v : NoDup d.*1 → (k, v) ∈ d → dget d k = Some v.
Proof.
  induction d as [|[k0 v0] d IH]; intros Hnd Hin; [by apply not_elem_of_nil in Hin|].
  apply NoDup_cons in Hnd as [Hk0 Hnd]; cbn [fst snd] in *. cbn [dget].
  apply elem_of_cons in Hin as [?|Hin]; simplify_eq; [by rewrite bool_decide_true|].
  rewrite bool_decide_false; [by apply IH|]. intros ->. apply Hk0.
  by apply (list_elem_of_fmap_2 fst) in Hin.
Qed.

Lemma dget_None d k : dget d k = None ↔ k ∉ d.*1.
Proof.
  induction d as [|[k0 v0] d IH]; cbn; [split; [intros _; apply not_elem_of_nil|done]|].
  case_bool_decide; [subst; split; [done|intros H; by destruct H; left]|].
  rewrite IH, not_elem_of_cons. naive_solver.
Qed.

Lemma dput_keys d k v x : x ∈ (dput d k v).*1 ↔ x = k ∨ x ∈ d.*1.
Proof.
  induction d as [|[k0 v0] d IH]; cbn.
  - rewrite list_elem_of_singleton. split; [by left|]. intros [?|Hx]; [done|].
    by apply not_elem_of_nil in Hx.
  - case_bool_decide; cbn; rewrite !elem_of_cons; [naive_solver|]. rewrite IH. tauto.
Qed.

Lemma dput_NoDup d k v : NoDup d.*1 → NoDup (dput d k v).*1.
Proof.
  induction d as [|[k0 v0] d IH]; cbn; intros Hnd; [apply NoDup_singleton|].
  apply NoDup_cons in Hnd as [Hk0 Hnd].
  case_bool_decide; cbn; apply NoDup_cons; split; auto.
  rewrite dput_keys. naive_solver.
Qed.

Lemma dpop_sub d k x : x ∈ dpop d k → x ∈ d.
Proof.
  induction d as [|[k0 v0] d IH]; cbn; [done|]. case_bool_decide.
  - by right.
  - rewrite !elem_of_cons. naive_solver.
Qed.

Lemma dpop_NoDup d k : NoDup d.*1 → NoDup (dpop d k).*1.
Proof.
  induction d as [|[k0 v0] d IH]; cbn; intros Hnd; [done|].
  apply NoDup_cons in Hnd as [Hk0 Hnd]. case_bool_decide; cbn; [done|].
  apply NoDup_cons; split; [|by apply IH]. intros (x & -> & Hx)%list_elem_of_fmap.
  apply Hk0. apply dpop_sub in Hx. by apply list_elem_of_fmap_2.
Qed.

Lemma dget_dpop_ne d k k' : k ≠ k' → dget (dpop d k) k' = dget d k'.
Proof.
  intros Hne. induction d as [|[k0 v0] d IH]; cbn; [done|].
  case_bool_decide; cbn; subst; [by rewrite bool_decide_false|].
  by rewrite IH.
Qed.

Lemma dget_dpop_eq d k : NoDup d.*1 → dget (dpop d k) k = None.
Proof.
  induction d as [|[k0 v0] d IH]; cbn; [done|]. intros Hnd.
  apply NoDup_cons in Hnd as [Hk0 Hnd]. case_bool_decide; cbn; subst.
  - by apply dget_None.
  - rewrite bool_decide_false by done. by apply IH.
Qed.

Lemma dget_filter (f : K * V → bool) d k :
  NoDup d.*1 →
  dget (List.filter f d) k =
  match dget d k with Some v => if f (k, v) then Some v else None | None => None end.
Proof.
  induction d as [|[k0 v0] d IH]; intros Hnd; [done|].
  apply NoDup_cons in Hnd as [Hk0 Hnd]; cbn [fst snd] in *.
  cbn [List.filter dget]. destruct (decide (k0 = k)) as [->|Hne].
  - rewrite (bool_decide_true (k = k)) by done.
    destruct (f (k, v0)) eqn:E; cbn [dget]; [by rewrite bool_decide_true|].
    rewrite IH by done. by apply dget_None in Hk0 as ->.
  - rewrite (bool_decide_false (k0 = k)) by done.
    destruct (f (k0, v0)); cbn [dget]; [rewrite bool_decide_false by done|]; by apply IH.
Qed.

Lemma filter_NoDup (f : K * V → bool) d : NoDup d.*1 → NoDup (List.filter f d).*1.
Proof.
  induction d as [|[k0 v0] d IH]; intros Hnd; [done|].
  apply NoDup_cons in Hnd as [Hk0 Hnd]; cbn [fst] in *. cbn [List.filter].
  destruct (f (k0, v0)); [|by apply IH]. cbn. apply NoDup_cons; split; [|by apply IH].
  intros (x & -> & Hx)%list_elem_of_fmap. apply Hk0. apply list_elem_of_In, filter_In in Hx as [Hx _].
  apply list_elem_of_fmap_2. by apply list_elem_of_In.
Qed.
End dicts.

(** [list(dict.fromkeys(l))]: the first of equal elements stays. *)
Fixpoint fromkeys {A} `{EqDecision A} (l : list A) : list A :=
  match l with
  | [] => []
  | x :: l' => x :: List.filter (λ y, negb (bool_decide (y = x))) (fromkeys l')
  end.

Lemma elem_of_fromkeys {A} `{EqDecision A} (l : list A) x : x ∈ fromkeys l ↔ x ∈ l.
Proof.
  induction l as [|y l IH]; cbn [fromkeys]; [done|].
  rewrite !elem_of_cons, list_elem_of_In, filter_In, <- list_elem_of_In, IH.
  rewrite negb_true_iff, bool_decide_eq_false. destruct (decide (x = y)); naive_solver.
Qed.

Lemma fromkeys_NoDup {A} `{EqDecision A} (l : list A) : NoDup (fromkeys l).
Proof.
  induction l as [|x l IH]; cbn [fromkeys]; [constructor|]. apply NoDup_cons. split.
  - rewrite list_elem_of_In, filter_In. intros [_ Hx]. by rewrite bool_decide_true in Hx.
  - apply NoDup_ListNoDup, List.NoDup_filter. by apply NoDup_ListNoDup.
Qed.

(** [sorted] orders strings by code points. *)
Fixpoint text_leb (a b : text) : bool :=
  match a, b with
  | [], _ => true
  | _ :: _, [] => false
  | x :: a', y :: b' => (x <? y) || (x =? y) && text_leb a' b'
  end.

Lemma text_leb_total a b : text_leb a b = true ∨ text_leb b a = true.
Proof.
  revert b. induction a as [|x a IH]; intros [|y b]; cbn; [auto..|].
  destruct (Z.lt_trichotomy x y) as [Hlt|[->|Hlt]].
  - left. by rewrite (proj2 (Z.ltb_lt _ _) Hlt).
  - rewrite Z.ltb_irrefl, Z.eqb_refl. apply IH.
  - right. by rewrite (proj2 (Z.ltb_lt _ _) Hlt).
Qed.

Lemma text_leb_cons x y a b :
  text_leb (x :: a) (y :: b) = true ↔ x < y ∨ x = y ∧ text_leb a b = true.
Proof. cbn. by rewrite orb_true_iff, andb_true_iff, Z.ltb_lt, Z.eqb_eq. Qed.

Lemma text_leb_trans a b c : text_leb a b = true → text_leb b c = true → text_leb a c = true.
Proof.
  revert b c. induction a as [|x a IH]; intros [|y b] [|z c]; try done.
  rewrite !text_leb_cons. intros [?|[-> ?]] [?|[-> ?]]; [left; lia..|auto|right]. split; eauto.
Qed.

Lemma text_leb_antisym a b : text_leb a b = true → text_leb b a = true → a = b.
Proof.
  revert b. induction a as [|x a IH]; intros [|y b]; try done.
  rewrite !text_leb_cons. intros [?|[-> ?]] [?|[? ?]]; try lia. f_equal. auto.
Qed.

(** ** Texts *)

(** Whitespace of Python strings; [s.lstrip()] and [s.strip()]. *)
Definition space_char (c : Z) : bool :=
  existsb (Z.eqb c) [32; 133; 160; 5760; 8232; 8233; 8239; 8287; 12288] ||
  (9 <=? c) && (c <=? 13) || (28 <=? c) && (c <=? 31) || (8192 <=? c) && (c <=? 8202).
Fixpoint skip_spaces (t : text) : text :=
  match t with c :: t' => if space_char c then skip_spaces t' else t | [] => [] end.
Definition strip_text (t : text) : text := rev (skip_spaces (rev (skip_spaces t))).

(** ** [os.path] *)

(** [s.startswith(p)] is [str_prefix]; [p.rstrip("/")]. *)
Definition slash : ascii := "/"%char.

Fixpoint rstrip_slash (s : string) : string :=
  match s with
  | EmptyString => EmptyString
  | String c s' =>
      match rstrip_slash s' with
      | EmptyString => if bool_decide (c = slash) then EmptyString else String c EmptyString
      | r => String c r
      end
  end.

(** Characters of [s] from position [n] on. *)
Fixpoint drop_str (n : nat) (s : string) : string :=
  match n, s with
  | O, _ => s
  | S n', EmptyString => EmptyString
  | S n', String _ s' => drop_str n' s'
  end.

(** [p[:p.rfind("/") + 1]] *)
Fixpoint head_part (s : string) : string :=
  match s with
  | EmptyString => EmptyString
  | String c s' =>
      match head_part s' with
      | EmptyString => if bool_decide (c = slash) then String c EmptyString else EmptyString
      | r => String c r
      end
  end.

(** [os.path.dirname]: the separators at the end of the head go, unless the
    head consists of nothing else. *)
Definition dirname (p : string) : string :=
  let head := head_part p in
  match rstrip_slash head with
  | EmptyString => head
  | r => r
  end.

Example dirname_1 : dirname "/home/me/a.txt" = "/home/me". Proof. reflexivity. Qed.
Example dirname_2 : dirname "/a" = "/". Proof. reflexivity. Qed.
Example dirname_3 : dirname "a" = "". Proof. reflexivity. Qed.

(** ** [shlex.split]: POSIX rules, no comment character, split on whitespace *)

Inductive lex_state : Type :=
| Between                       (* outside a word *)
| InWord                        (* unquoted part of a word *)
| InQuote (q : ascii)
| Escaped (back : option ascii) (* after a backslash, inside the quote or a word *).

Definition double_quote : ascii := ascii_of_N 34.
Definition single_quote : ascii := ascii_of_N 39.
Definition escape_char : ascii := ascii_of_N 92.
(** The whitespace of [shlex]: space, tab, CR, LF. *)
Definition lex_space (c : ascii) : bool :=
  existsb (λ n, (code c =? n)%N) [32; 9; 13; 10]%N.

Definition is_quote (c : ascii) : bool :=
  bool_decide (c = double_quote) || bool_decide (c = single_quote).

Definition snoc (w : string) (c : ascii) : string := w +:+ String c EmptyString.

(** [None] is the [ValueError] on an open quote or a trailing backslash.  [word]
    is the word read so far. *)
Fixpoint shlex_from (st : lex_state) (word : string) (s : string) : option (list string) :=
  match s with
  | EmptyString =>
      match st with
      | Between => Some []
      | InWord => Some [word]
      | InQuote _ | Escaped _ => None
      end
  | String c s' =>
      match st with
      | Between =>
          if lex_space c then shlex_from Between EmptyString s'
          else if bool_decide (c = escape_char) then shlex_from (Escaped None) EmptyString s'
          else if is_quote c then shlex_from (InQuote c) EmptyString s'
          else shlex_from InWord (String c EmptyString) s'
      | InWord =>
          if lex_space c then
            match shlex_from Between EmptyString s' with
            | Some ws => Some (word :: ws)
            | None => None
            end
          else if is_quote c then shlex_from (InQuote c) word s'
          else if bool_decide (c = escape_char) then shlex_from (Escaped None) word s'
          else shlex_from InWord (snoc word c) s'
      | InQuote q =>
          if bool_decide (c = q) then shlex_from InWord word s'
          else if bool_decide (c = escape_char) && bool_decide (q = double_quote)
          then shlex_from (Escaped (Some q)) word s'
          else shlex_from (InQuote q) (snoc word c) s'
      | Escaped None => shlex_from InWord (snoc word c) s'
      | Escaped (Some q) =>
          (* inside double quotes a backslash before another character stays *)
          if bool_decide (c = escape_char) || bool_decide (c = q)
          then shlex_from (InQuote q) (snoc word c) s'
          else shlex_from (InQuote q) (snoc (snoc word escape_char) c) s'
      end
  end.
Definition shlex_split (s : string) : option (list string) := shlex_from Between EmptyString s.

(** [s.split()] on whitespace *)
Fixpoint split_from (word : string) (s : string) : list string :=
  match s with
  | EmptyString => match word with EmptyString => [] | _ => [word] end
  | String c s' =>
      if is_space c then
        match word with
        | EmptyString => split_from EmptyString s'
        | _ => word :: split_from EmptyString s'
        end
      else split_from (snoc word c) s'
  end.
Definition split_space (s : string) : list string := split_from EmptyString s.

Example shlex_1 : shlex_split "git  commit -m 'a b'" = Some ["git"; "commit"; "-m"; "a b"].
Proof. reflexivity. Qed.
Example shlex_2 : shlex_split "echo 'open" = None.
Proof. reflexivity. Qed.
Example split_1 : split_space " a b " = ["a"; "b"]. Proof. reflexivity. Qed.

(** ** [shlex.shlex(s, posix=True, punctuation_chars=";&|<>")] with
    [whitespace_split] and no comments *)

Inductive shell_state : Type :=
| ShBetween
| ShWord
| ShPunct
| ShQuote (q : ascii)
| ShEscaped (back : option ascii).

Definition is_punct (c : ascii) : bool := existsb (Ascii.eqb c) [";"; "&"; "|"; "<"; ">"]%char.

(** The state and the word after a character that is not whitespace between words. *)
Definition shell_start (c : ascii) : shell_state * string :=
  if bool_decide (c = escape_char) then (ShEscaped None, EmptyString)
  else if is_punct c then (ShPunct, String c EmptyString)
  else if is_quote c then (ShQuote c, EmptyString)
  else (ShWord, String c EmptyString).

Definition emit (word : string) (rest : option (list string)) : option (list string) :=
  match rest with Some ws => Some (word :: ws) | None => None end.

(** [None] is the [ValueError] on an open quote or a trailing backslash.  A
    character that ends a word or a run of punctuation starts the next one. *)
Fixpoint shell_from (st : shell_state) (word : string) (s : string) : option (list string) :=
  match s with
  | EmptyString =>
      match st with
      | ShBetween => Some []
      | ShWord | ShPunct => Some [word]
      | ShQuote _ | ShEscaped _ => None
      end
  | String c s' =>
      match st with
      | ShBetween =>
          if lex_space c then shell_from ShBetween EmptyString s'
          else let '(st', w) := shell_start c in shell_from st' w s'
      | ShPunct =>
          if lex_space c then emit word (shell_from ShBetween EmptyString s')
          else if is_punct c then shell_from ShPunct (snoc word c) s'
          else let '(st', w) := shell_start c in emit word (shell_from st' w s')
      | ShWord =>
          if lex_space c then emit word (shell_from ShBetween EmptyString s')
          else if is_quote c then shell_from (ShQuote c) word s'
          else if bool_decide (c = escape_char) then shell_from (ShEscaped None) word s'
          else if is_punct c then
            let '(st', w) := shell_start c in emit word (shell_from st' w s')
          else shell_from ShWord (snoc word c) s'
      | ShQuote q =>
          if bool_decide (c = q) then shell_from ShWord word s'
          else if bool_decide (c = escape_char) && bool_decide (q = double_quote)
          then shell_from (ShEscaped (Some q)) word s'
          else shell_from (ShQuote q) (snoc word c) s'
      | ShEscaped None => shell_from ShWord (snoc word c) s'
      | ShEscaped (Some q) =>
          if bool_decide (c = escape_char) || bool_decide (c = q)
          then shell_from (ShQuote q) (snoc word c) s'
          else shell_from (ShQuote q) (snoc (snoc word escape_char) c) s'
      end
  end.
Definition shell_lex (s : string) : option (list string) := shell_from ShBetween EmptyString s.

Example shell_1 : shell_lex "a>b 2>>'c;d'&& e" = Some ["a"; ">"; "b"; "2"; ">>"; "c;d"; "&&"; "e"].
Proof. reflexivity. Qed.
