(* ===== verification/ConfirmGate.v ===== *)
(** * The confirmation gate: [core/llm/tools/_myspace_confirm.py]

    A tool that needs the user's consent suspends its coroutine on a pending
    item; an HTTP request decides the item and wakes the coroutines.  The
    registry is one dict of chats per process; a pending item is a shared object
    that its coroutines keep after the registry has dropped it, so items live in
    a heap and the registry holds references.  Every critical section of the
    module is a function; wording shown to the model or the user is left out. *)

From S2P Require Import Prelude PyString PyDict.

Module ConfirmGate.

Definition KIND_MYSPACE : string := "myspace".
Definition KIND_AUTOMATION : string := "automation".
Definition KIND_DESIGN_PICK : string := "design_pick".
Definition KIND_LOCAL_CMD : string := "local_cmd".
Definition KIND_LOCAL_PATH_PREFIX : string := "local_path:".
Definition KIND_TOOL_PERMISSION : string := "tool_permission".
Definition KIND_TOOL_PREFIX : string := "tool:".

Definition DECISION_ALLOW : string := "allow".
Definition DECISION_ALLOW_SESSION : string := "allow_session".
Definition DECISION_DENY : string := "deny".
Definition _DECISIONS : list string := [DECISION_ALLOW; DECISION_ALLOW_SESSION; DECISION_DENY].
Definition _DECISION_TIMEOUT : string := "_timeout".
Definition DECISION_CHOICE : string := "choice".
Definition DECISION_SKIP : string := "skip".
Definition _DESIGN_DECISIONS : list string := [DECISION_CHOICE; DECISION_SKIP].

Definition STATUS_BLOCKED : string := "blocked_non_interactive".
(** Instants are readings of the monotonic clock in microseconds. *)
Definition _TTL_S : Z := seconds 1800.

(** A reference to a pending item. *)
Abbreviation loc := nat.
(** [(op, logical_path)] *)
Abbreviation key := (string * string)%type.

Record DesignPayload := mkPayload { question : string; options : list dict }.

Record Pending := mkPending {
  op : string;
  logical_path : string;
  summary : string;
  ts : Z;
  event : bool;
  decision : option string;
  waiters : Z;
  performed : bool;
  kind : string;
  payload : option DesignPayload;
  choice : option string
}.
#[global] Instance eta_pending : Eta Pending := λ x,
  mkPending (op x) (logical_path x) (summary x) (ts x) (event x) (decision x) (waiters x)
    (performed x) (kind x) (payload x) (choice x).

(** What the stream consumer is told: show a card, or dismiss one. *)
Inductive signal : Type :=
| ShowCard (info : dict)
| Expired (confirm_id op logical_path kind : string) (cancelled : bool).

Record ChatConfirm := mkChat {
  pending : pydict string loc;
  key_index : pydict key string;
  session_allows : gset (string * string);
  ui_signals : option (list signal);
  last_ts : Z
}.
#[global] Instance eta_chat : Eta ChatConfirm := λ x,
  mkChat (pending x) (key_index x) (session_allows x) (ui_signals x) (last_ts x).

(** [_CHATS] and the heap of pending items. *)
Record Registry := mkRegistry {
  chats : pydict string ChatConfirm;
  heap : list Pending
}.
#[global] Instance eta_registry : Eta Registry := λ x, mkRegistry (chats x) (heap x).

Definition empty_registry : Registry := mkRegistry [] [].

(** The process around the gate: [os.path.realpath(os.path.expanduser(p))] reads
    the file system and the environment; [str(o.get("id"))] of an id that is a
    list or a dict. *)
Class GateHost := {
  real_user_path : string → string;
  repr_nested : json → string
}.

(** The two switches of [settings.sandbox]; [None] when the settings cannot be
    loaded, or when they lack the attribute. *)
Record SandboxSettings := mkSandbox {
  automation_write_confirm : option bool;
  myspace_write_confirm : option bool
}.

Definition is_local_path (k : string) : bool := str_prefix KIND_LOCAL_PATH_PREFIX k.

Section gate.
Context `{GateHost}.

Definition _session_scope (kind logical_path : string) : string :=
  if is_local_path kind then
    let resolved := real_user_path logical_path in
    str_or (dirname resolved) resolved
  else if bool_decide (kind = KIND_LOCAL_CMD) then
    let parts := match shlex_split logical_path with
                 | Some ps => ps
                 | None => split_space logical_path
                 end in
    match parts with p :: _ => p | [] => "" end
  else "".

Definition _scope_covers (kind granted logical_path : string) : bool :=
  if is_local_path kind then
    if bool_decide (granted = "") then false
    else
      let target := real_user_path logical_path in
      bool_decide (target = granted) || str_prefix (rstrip_slash granted +:+ "/") target
  else if bool_decide (kind = KIND_LOCAL_CMD) then
    negb (bool_decide (granted = "")) &&
    bool_decide (_session_scope kind logical_path = granted)
  else true.

(** ** Chats *)

Definition new_chat (now : Z) : ChatConfirm := mkChat [] [] ∅ None now.

Definition _gc (now : Z) (r : Registry) : Registry :=
  r <| chats := List.filter (λ cs, negb (bool_decide (_TTL_S < now - last_ts cs.2) &&
                                  match pending cs.2 with [] => true | _ => false end))
                       (chats r) |>.

Definition _get_chat (now : Z) (chat_id : string) (r : Registry) : ChatConfirm * Registry :=
  match dget (chats r) chat_id with
  | Some st => (st, r)
  | None => let st := new_chat now in (st, r <| chats := dput (chats r) chat_id st |>)
  end.

Definition put_chat (chat_id : string) (st : ChatConfirm) (r : Registry) : Registry :=
  r <| chats := dput (chats r) chat_id st |>.
Definition put_pending (l : loc) (p : Pending) (r : Registry) : Registry :=
  r <| heap := <[l := p]> (heap r) |>.

(** [now1] and [now2] are the two readings of the clock. *)
Definition allow_session (now1 now2 : Z) (chat_id : option string) (r : Registry) : Registry :=
  match chat_id with
  | None | Some "" => r
  | Some c =>
      let '(st, r1) := _get_chat now1 c r in
      put_chat c (st <| session_allows := {[ (KIND_MYSPACE, "") ]} ∪ session_allows st |>
                     <| last_ts := now2 |>) r1
  end.

(** ** Reading the registry *)

Definition design_info (p : Pending) : dict :=
  match payload p with
  | Some d => if bool_decide (kind p = KIND_DESIGN_PICK)
              then [("question", JStr (question d)); ("options", JList (map JDict (options d)))]
              else []
  | None => []
  end.

Definition _pending_to_info (cid : string) (p : Pending) : dict :=
  [("confirm_id", JStr cid); ("op", JStr (op p)); ("logical_path", JStr (logical_path p));
   ("message", JStr (str_or (summary p) (logical_path p))); ("kind", JStr (kind p))]
  ++ design_info p.

(** [(cid, p) for cid, p in st.pending.items() if p.decision is None] *)
Definition live_items (r : Registry) (st : ChatConfirm) : list (string * Pending) :=
  omap (λ cl, match heap r !! cl.2 with
              | Some p => if is_null (decision p) then Some (cl.1, p) else None
              | None => None
              end) (pending st).

(** [max(live, key=ts)]: the first of the latest items. *)
Definition latest (l : list (string * Pending)) : option (string * Pending) :=
  match l with
  | [] => None
  | x :: l' => Some (foldl (λ best y, if ts best.2 <? ts y.2 then y else best) x l')
  end.

Definition with_live {A} (none : A) (some : list (string * Pending) → A)
    (now : Z) (chat_id : option string) (r : Registry) : A * Registry :=
  match chat_id with
  | None | Some "" => (none, r)
  | Some c =>
      match dget (chats r) c with
      | None => (none, r)
      | Some st =>
          match live_items r st with
          | [] => (none, r)
          | live => (some live, put_chat c (st <| last_ts := now |>) r)
          end
      end
  end.

Definition get_pending : Z → option string → Registry → option dict * Registry :=
  with_live None (λ live, match latest live with
                          | Some (cid, p) => Some (_pending_to_info cid p)
                          | None => None
                          end).

Definition by_ts (x y : string * Pending) : bool := ts x.2 <=? ts y.2.

Definition get_all_pending : Z → option string → Registry → list dict * Registry :=
  with_live [] (λ live, map (λ cp, _pending_to_info cp.1 cp.2) (order_by by_ts live)).

Definition has_live (r : Registry) (st : ChatConfirm) : bool :=
  match live_items r st with [] => false | _ => true end.

Definition list_pending_chat_ids (r : Registry) : list string :=
  omap (λ cs, if has_live r cs.2 then Some cs.1 else None) (chats r).

Definition has_pending (chat_id : option string) (r : Registry) : bool :=
  match chat_id with
  | None | Some "" => false
  | Some c => match dget (chats r) c with Some st => has_live r st | None => false end
  end.

(** ** The user's decision *)

Definition py_str (v : option json) : string :=
  match v with
  | None | Some JNull => "None"
  | Some (JStr s) => s
  | Some (JInt z) => pretty.pretty z
  | Some (JBool true) => "True"
  | Some (JBool false) => "False"
  | Some v => repr_nested v
  end.

Definition valid_ids (p : Pending) : list string :=
  match payload p with
  | Some d => map (λ o, py_str (dict_get o "id")) (options d)
  | None => []
  end.

Inductive decided : Type :=
| Recorded (decision op logical_path : string) (cascaded : list string)
| Refused (reason : string).

(** The checks of the decision against the kind of the item; the item with the
    choice recorded. *)
Definition check_decision (p : Pending) (d : string) (option_id : option string)
    : result string Pending :=
  if bool_decide (kind p = KIND_DESIGN_PICK) then
    if negb (bool_decide (d ∈ _DESIGN_DECISIONS)) then Err "bad_decision"
    else if bool_decide (d = DECISION_CHOICE) then
      match option_id with
      | None | Some "" => Err "bad_option"
      | Some o => if bool_decide (o ∈ valid_ids p) then Ok (p <| choice := Some o |>)
                  else Err "bad_option"
      end
    else Ok p
  else if negb (bool_decide (d ∈ _DECISIONS)) then Err "bad_decision"
  else Ok p.

(** Whether an allow-for-the-session of item [cid] reaches item [other]. *)
Definition cascades (cid : string) (p : Pending) (granted : string)
    (other : string) (q : Pending) : bool :=
  negb (bool_decide (other = cid)) && is_null (decision q) &&
  bool_decide (kind q = kind p) && negb (bool_decide (kind q = KIND_DESIGN_PICK)) &&
  _scope_covers (kind p) granted (logical_path q).

(** The loop over [st.pending]: the heap, the ids released, their references. *)
Fixpoint cascade (cid : string) (p : Pending) (granted : string)
    (items : pydict string loc) (h : list Pending) : list Pending * list string * list loc :=
  match items with
  | [] => (h, [], [])
  | (other, l) :: items' =>
      match h !! l with
      | Some q =>
          if cascades cid p granted other q then
            let '(h', cids, ls) :=
              cascade cid p granted items'
                (<[l := q <| decision := Some DECISION_ALLOW_SESSION |>]> h) in
            (h', other :: cids, l :: ls)
          else cascade cid p granted items' h
      | None => cascade cid p granted items' h
      end
  end.

(** The critical section of [set_decision]: the answer, the registry, and the
    events to set once the lock is released. *)
Definition set_decision (now : Z) (chat_id confirm_id d : string) (option_id : option string)
    (r : Registry) : decided * Registry * list loc :=
  match dget (chats r) chat_id with
  | None => (Refused "stale", r, [])
  | Some st =>
      match dget (pending st) confirm_id with
      | None => (Refused "stale", r, [])
      | Some l =>
          match heap r !! l with
          | None => (Refused "stale", r, [])
          | Some p =>
              match check_decision p d option_id with
              | Err reason => (Refused reason, r, [])
              | Ok p1 =>
                  let r1 := put_pending l (p1 <| decision := Some d |>) r in
                  let st1 := st <| last_ts := now |> in
                  if bool_decide (d = DECISION_ALLOW_SESSION) then
                    let granted := _session_scope (kind p) (logical_path p) in
                    let st2 := st1 <| session_allows := {[ (kind p, granted) ]} ∪ session_allows st1 |> in
                    let '(h, cids, ls) := cascade confirm_id p granted (pending st) (heap r1) in
                    (Recorded d (op p) (logical_path p) cids,
                     put_chat chat_id st2 (r1 <| heap := h |>), l :: ls)
                  else
                    (Recorded d (op p) (logical_path p) [], put_chat chat_id st1 r1, [l])
              end
          end
      end
  end.

(** [ev.set()], after the lock *)
Definition set_event (l : loc) (r : Registry) : Registry :=
  match heap r !! l with
  | Some p => put_pending l (p <| event := true |>) r
  | None => r
  end.

(** ** Registering and waiting *)

Definition _confirm_enabled (settings : option SandboxSettings) (k : string) : bool :=
  match settings with
  | None => true
  | Some s =>
      if bool_decide (k = KIND_AUTOMATION) then default true (automation_write_confirm s)
      else if bool_decide (k = KIND_LOCAL_CMD) || is_local_path k ||
              bool_decide (k = KIND_TOOL_PERMISSION) || str_prefix KIND_TOOL_PREFIX k
      then true
      else default true (myspace_write_confirm s)
  end.

Definition push (s : signal) (q : option (list signal)) : option (list signal) :=
  Some (default [] q ++ [s]).

(** The item a call of this key shares: the undecided one the index names. *)
Definition reusable (k : key) (st : ChatConfirm) (r : Registry) : option (string * loc * Pending) :=
  match dget (key_index st) k with
  | None | Some "" => None
  | Some cid =>
      match dget (pending st) cid with
      | Some l =>
          match heap r !! l with
          | Some p => if is_null (decision p) then Some (cid, l, p) else None
          | None => None
          end
      | None => None
      end
  end.

(** [new_cid] is the fresh id of the item, [make_pending] the item itself.  The
    put into the queue follows the critical section without an await. *)
Definition _register_pending {A} (now now2 : Z) (cid_key : string) (k : key)
    (make_pending : Pending) (precheck : ChatConfirm → Registry → option A) (new_cid : string)
    (r : Registry) : (A + string * loc) * Registry :=
  let r0 := _gc now r in
  let '(st0, r1) := _get_chat now2 cid_key r0 in
  let st := st0 <| last_ts := now |> in
  match precheck st r1 with
  | Some short => (inl short, put_chat cid_key st r1)
  | None =>
      match reusable k st r1 with
      | Some (cid, l, p) =>
          (inr (cid, l), put_chat cid_key st (put_pending l (p <| waiters := waiters p + 1 |>) r1))
      | None =>
          let l := length (heap r1) in
          let p := make_pending <| waiters := waiters make_pending + 1 |> in
          let st1 := st <| pending := dput (pending st) new_cid l |>
                        <| key_index := dput (key_index st) k new_cid |>
                        <| ui_signals := push (ShowCard (_pending_to_info new_cid p)) (ui_signals st) |> in
          (inr (new_cid, l), put_chat cid_key st1 (r1 <| heap := heap r1 ++ [p] |>))
      end
  end.

(** Why [asyncio.wait_for(p.event.wait(), timeout)] returned. *)
Inductive wake : Type := Woken | TimedOut | Cancelled.

(** The chat without the item, and the dismissal of its card. *)
Definition drop_item (k : key) (cid : string) (p : Pending) (d : string) (cancelled : bool)
    (st : ChatConfirm) : ChatConfirm :=
  let st1 := st <| pending := dpop (pending st) cid |> in
  let st2 := if bool_decide (dget (key_index st1) k = Some cid)
             then st1 <| key_index := dpop (key_index st1) k |> else st1 in
  if (cancelled || bool_decide (d = _DECISION_TIMEOUT)) && negb (is_null (ui_signals st2))
  then st2 <| ui_signals := push (Expired cid (op p) (logical_path p) (kind p) cancelled)
                                 (ui_signals st2) |>
  else st2.

(** The critical section after the wait.  [in_lock_extract] may write the item.
    The pair is [None] when the coroutine is cancelled. *)
Definition _wait_pending {A} (cid_key : string) (k : key) (cid : string) (l : loc) (w : wake)
    (in_lock_extract : Pending → string → A * Pending) (r : Registry)
    : option (string * A) * Registry :=
  match heap r !! l with
  | None => (None, r)
  | Some p =>
      let d := default _DECISION_TIMEOUT (decision p) in
      let '(extracted, p1) := in_lock_extract p d in
      let p2 := p1 <| waiters := waiters p1 - 1 |> in
      let r1 := put_pending l p2 r in
      let cancelled := match w with Cancelled => true | _ => false end in
      let r2 :=
        if waiters p2 <=? 0 then
          match dget (chats r1) cid_key with
          | Some st2 => put_chat cid_key (drop_item k cid p2 d cancelled st2) r1
          | None => r1
          end
        else r1 in
      (if cancelled then None else Some (d, extracted), r2)
  end.

(** ** [gate] and [pick] *)

Record gate_args := mkGateArgs {
  g_chat : option string;
  g_op : string;
  g_path : string;
  g_interactive : bool;
  g_summary : string;
  g_kind : string
}.

Record pick_args := mkPickArgs {
  k_chat : option string;
  k_question : string;
  k_options : list dict;
  k_interactive : bool
}.

(** [None] of [gate] is [Pass]; a dict is its status. *)
Inductive verdict : Type :=
| Pass
| Intercept (status : string)
| Chosen (option_id : string).

Definition chat_key (chat_id : option string) : string := opt_str_or chat_id "_nochat_".

Definition _session_allowed (a : gate_args) (st : ChatConfirm) : option verdict :=
  match g_chat a with
  | None | Some "" => None
  | Some _ =>
      if existsb (λ ks, bool_decide (ks.1 = g_kind a) && _scope_covers (g_kind a) ks.2 (g_path a))
           (elements (session_allows st))
      then Some Pass else None
  end.

Definition gate_key (a : gate_args) : key := (g_op a, g_path a).
Definition gate_pending (a : gate_args) (now : Z) : Pending :=
  mkPending (g_op a) (g_path a) (str_or (g_summary a) (g_path a)) now false None 0 false
    (g_kind a) None None.

Definition gate_enter (settings : option SandboxSettings) (now now2 now3 : Z) (a : gate_args)
    (new_cid : string) (r : Registry) : (verdict + string * loc) * Registry :=
  if negb (_confirm_enabled settings (g_kind a)) then (inl Pass, r)
  else if negb (g_interactive a) then (inl (Intercept STATUS_BLOCKED), r)
  else _register_pending now now2 (chat_key (g_chat a)) (gate_key a) (gate_pending a now3)
         (λ st _, _session_allowed a st) new_cid r.

Definition is_allow (d : string) : bool :=
  bool_decide (d = DECISION_ALLOW) || bool_decide (d = DECISION_ALLOW_SESSION).

Definition _claim_first (p : Pending) (d : string) : bool * Pending :=
  let first := is_allow d && negb (performed p) in
  (first, if first then p <| performed := true |> else p).

Definition gate_verdict (d : string) (first : bool) : verdict :=
  if is_allow d then if first then Pass else Intercept "deduplicated"
  else if bool_decide (d = DECISION_DENY) then Intercept "denied_by_user"
  else Intercept "confirm_timeout".

(** The resumption of a suspended [gate]: [None] is [CancelledError]. *)
Definition gate_resume (a : gate_args) (cid : string) (l : loc) (w : wake) (r : Registry)
    : option verdict * Registry :=
  match _wait_pending (chat_key (g_chat a)) (gate_key a) cid l w _claim_first r with
  | (Some (d, first), r') => (Some (gate_verdict d first), r')
  | (None, r') => (None, r')
  end.

Definition pick_key (a : pick_args) : key := ("design_pick", take_str 120 (k_question a)).

Definition _reject_concurrent (a : pick_args) (st : ChatConfirm) (r : Registry) : option verdict :=
  if existsb (λ cl, match heap r !! cl.2 with
                    | Some p => bool_decide (kind p = KIND_DESIGN_PICK) && is_null (decision p) &&
                                negb (bool_decide (dget (key_index st) (pick_key a) = Some cl.1))
                    | None => false
                    end) (pending st)
  then Some (Intercept "already_pending") else None.

(** [default_summary] is the wording used for an empty question. *)
Definition pick_pending (a : pick_args) (default_summary : string) (now : Z) : Pending :=
  mkPending "design_pick" (take_str 120 (k_question a)) (str_or (k_question a) default_summary)
    now false None 0 false KIND_DESIGN_PICK
    (Some (mkPayload (k_question a) (k_options a))) None.

Definition pick_enter (default_summary : string) (now now2 now3 : Z) (a : pick_args)
    (new_cid : string) (r : Registry) : (verdict + string * loc) * Registry :=
  if negb (k_interactive a) then (inl (Intercept STATUS_BLOCKED), r)
  else _register_pending now now2 (chat_key (k_chat a)) (pick_key a)
         (pick_pending a default_summary now3) (_reject_concurrent a) new_cid r.

Definition pick_verdict (d : string) (c : option string) : verdict :=
  match bool_decide (d = DECISION_CHOICE), c with
  | true, Some "" | true, None | false, _ =>
      if bool_decide (d = DECISION_SKIP) then Intercept "skipped" else Intercept "timeout"
  | true, Some o => Chosen o
  end.

Definition pick_resume (a : pick_args) (cid : string) (l : loc) (w : wake) (r : Registry)
    : option verdict * Registry :=
  match _wait_pending (chat_key (k_chat a)) (pick_key a) cid l w (λ p _, (choice p, p)) r with
  | (Some (d, c), r') => (Some (pick_verdict d c), r')
  | (None, r') => (None, r')
  end.
End gate.

End ConfirmGate.
