(* ===== verification/ConfirmGateProps.v ===== *)
(** * The confirmation gate as a system of coroutines, and its invariants

    Tool coroutines enter [gate] or [pick], suspend, wake up or are cancelled;
    requests decide items from other threads, so that the events of a decision
    are set some time after its critical section.  The log records what each
    call was told and who decided what. *)

From S2P Require Import Prelude PyString PyDict ConfirmGate.

Import ConfirmGate.

(** ** The system *)

Inductive request : Type :=
| RGate (settings : option SandboxSettings) (a : gate_args)
| RPick (a : pick_args).

Definition req_chat (q : request) : string :=
  match q with RGate _ a => chat_key (g_chat a) | RPick a => chat_key (k_chat a) end.
Definition req_key (q : request) : key :=
  match q with RGate _ a => gate_key a | RPick a => pick_key a end.
Definition key_of (p : Pending) : key := (op p, logical_path p).

Record suspended := mkSusp { s_req : request; s_cid : string; s_loc : loc }.

Inductive entry : Type :=
| Answered (tid : nat) (q : request) (v : verdict) (item : option loc)
| CancelledCall (tid : nat) (q : request) (item : loc) (claimed : bool)
| Decided (item : loc) (chat d : string) (option_id : option string)
| PreAuthorized (chat : string).

Record Sys := mkSys {
  reg : Registry;
  waiting : gmap nat suspended;
  waking : list loc;
  log : list entry
}.
#[global] Instance eta_sys : Eta Sys := λ x, mkSys (reg x) (waiting x) (waking x) (log x).

Definition init_sys : Sys := mkSys empty_registry ∅ [] [].

Section system.
Context `{GateHost}.

Definition enter (q : request) (wording : string) (now now2 now3 : Z) (cid : string)
    (r : Registry) : (verdict + string * loc) * Registry :=
  match q with
  | RGate settings a => gate_enter settings now now2 now3 a cid r
  | RPick a => pick_enter wording now now2 now3 a cid r
  end.

Definition resume (q : request) (cid : string) (l : loc) (w : wake) (r : Registry)
    : option verdict * Registry :=
  match q with
  | RGate _ a => gate_resume a cid l w r
  | RPick a => pick_resume a cid l w r
  end.

(** Whether this resumption claims the execution of the group. *)
Definition claims (q : request) (p : Pending) : bool :=
  match q with
  | RGate _ _ => is_allow (default _DECISION_TIMEOUT (decision p)) && negb (performed p)
  | RPick _ => false
  end.

Definition chat_of (r : Registry) (c : string) : ChatConfirm :=
  default (new_chat 0) (dget (chats r) c).
Definition pend (r : Registry) (c : string) : pydict string loc := pending (chat_of r c).
Definition idx (r : Registry) (c : string) : pydict key string := key_index (chat_of r c).
Definition allows (r : Registry) (c : string) : gset (string * string) :=
  session_allows (chat_of r c).

Definition awake (w : wake) (l : loc) (r : Registry) : bool :=
  match w with
  | Woken => match heap r !! l with Some p => event p | None => false end
  | _ => true
  end.

(** A [uuid4] is not the empty string and no item of the chat has it. *)
Definition fresh_cid (c cid : string) (r : Registry) : Prop :=
  cid ≠ "" ∧ dget (pend r c) cid = None.

Inductive step : Sys → Sys → Prop :=
| step_answer s tid q wording now now2 now3 cid v r :
    waiting s !! tid = None → fresh_cid (req_chat q) cid (reg s) →
    enter q wording now now2 now3 cid (reg s) = (inl v, r) →
    step s (s <| reg := r |> <| log := log s ++ [Answered tid q v None] |>)
| step_suspend s tid q wording now now2 now3 cid cid' l r :
    waiting s !! tid = None → fresh_cid (req_chat q) cid (reg s) →
    enter q wording now now2 now3 cid (reg s) = (inr (cid', l), r) →
    step s (s <| reg := r |> <| waiting := <[tid := mkSusp q cid' l]> (waiting s) |>)
| step_resume s tid q cid l w v r :
    waiting s !! tid = Some (mkSusp q cid l) → awake w l (reg s) = true →
    resume q cid l w (reg s) = (Some v, r) →
    step s (s <| reg := r |> <| waiting := delete tid (waiting s) |>
              <| log := log s ++ [Answered tid q v (Some l)] |>)
| step_cancel s tid q cid l p r :
    waiting s !! tid = Some (mkSusp q cid l) → heap (reg s) !! l = Some p →
    resume q cid l Cancelled (reg s) = (None, r) →
    step s (s <| reg := r |> <| waiting := delete tid (waiting s) |>
              <| log := log s ++ [CancelledCall tid q l (claims q p)] |>)
| step_decide s now chat cid d o d' op' path' cids r l ls :
    set_decision now chat cid d o (reg s) = (Recorded d' op' path' cids, r, l :: ls) →
    step s (s <| reg := r |> <| waking := waking s ++ l :: ls |>
              <| log := log s ++ [Decided l chat d o] |>)
| step_set_event s l w1 w2 :
    waking s = w1 ++ l :: w2 →
    step s (s <| reg := set_event l (reg s) |> <| waking := w1 ++ w2 |>)
| step_allow_session s now1 now2 chat :
    chat ≠ "" →
    step s (s <| reg := allow_session now1 now2 (Some chat) (reg s) |>
              <| log := log s ++ [PreAuthorized chat] |>)
| step_read s now chat :
    step s (s <| reg := (get_pending now chat (reg s)).2 |>)
| step_read_all s now chat :
    step s (s <| reg := (get_all_pending now chat (reg s)).2 |>).

Inductive reachable : Sys → Prop :=
| reachable_init : reachable init_sys
| reachable_step s s' : reachable s → step s s' → reachable s'.

(** ** What a pass must rest on *)

(** In the history [h] of heap items and log [pre], somebody allowed chat [c] the
    scope [sc] of kind [k]. *)
Inductive grant_in (h : list Pending) (pre : list entry) (c k sc : string) : Prop :=
| grant_pre : PreAuthorized c ∈ pre → k = KIND_MYSPACE → sc = "" → grant_in h pre c k sc
| grant_user l p o :
    Decided l c DECISION_ALLOW_SESSION o ∈ pre → h !! l = Some p →
    k = kind p → k ≠ KIND_DESIGN_PICK → sc = _session_scope k (logical_path p) →
    grant_in h pre c k sc.

(** Item [l] of chat [c] got the decision [d]: from the user, or by the cascade of
    an allow-for-the-session of the same kind whose scope covers it. *)
Inductive decision_from (h : list Pending) (pre : list entry) (c : string) (l : loc) (d : string) : Prop :=
| from_user o : Decided l c d o ∈ pre → decision_from h pre c l d
| from_cascade p l' p' o :
    h !! l = Some p → h !! l' = Some p' →
    Decided l' c DECISION_ALLOW_SESSION o ∈ pre →
    d = DECISION_ALLOW_SESSION → kind p = kind p' → kind p ≠ KIND_DESIGN_PICK →
    _scope_covers (kind p') (_session_scope (kind p') (logical_path p')) (logical_path p) = true →
    decision_from h pre c l d.

Definition pass_justified (h : list Pending) (pre : list entry)
    (settings : option SandboxSettings) (a : gate_args) (item : option loc) : Prop :=
  match item with
  | None =>
      _confirm_enabled settings (g_kind a) = false ∨
      g_interactive a = true ∧
      ∃ c sc, g_chat a = Some c ∧ c ≠ "" ∧
        grant_in h pre c (g_kind a) sc ∧ _scope_covers (g_kind a) sc (g_path a) = true
  | Some l =>
      g_interactive a = true ∧
      ∃ p d, h !! l = Some p ∧ key_of p = gate_key a ∧ is_allow d = true ∧
        decision_from h pre (chat_key (g_chat a)) l d
  end.

(** A choice handed back was the user's, among the options of the question. *)
Definition choice_justified (h : list Pending) (pre : list entry) (a : pick_args)
    (o : string) (item : option loc) : Prop :=
  ∃ l p, item = Some l ∧ h !! l = Some p ∧ key_of p = pick_key a ∧ o ≠ "" ∧
    Decided l (chat_key (k_chat a)) DECISION_CHOICE (Some o) ∈ pre ∧ o ∈ valid_ids p.

Definition entry_justified (h : list Pending) (pre : list entry) (e : entry) : Prop :=
  match e with
  | Answered _ (RGate settings a) Pass item => pass_justified h pre settings a item
  | Answered _ (RGate _ _) (Chosen _) _ => False
  | Answered _ (RPick a) (Chosen o) item => choice_justified h pre a o item
  | Answered _ (RPick _) Pass _ => False
  | _ => True
  end.

(** Coroutines of the group of [l] that claimed its execution. *)
Definition claim_of (l : loc) (e : entry) : bool :=
  match e with
  | Answered _ (RGate _ _) Pass (Some l') => bool_decide (l' = l)
  | CancelledCall _ _ l' claimed => bool_decide (l' = l) && claimed
  | _ => false
  end.
Definition claims_of (l : loc) (es : list entry) : nat := length (List.filter (claim_of l) es).

(** ** The invariant *)

Definition count (l : loc) (m : gmap nat suspended) : nat :=
  size (filter (λ ts, s_loc ts.2 = l) m).

Definition dicts_ok (r : Registry) : Prop :=
  NoDup (chats r).*1 ∧ ∀ c, NoDup (pend r c).*1 ∧ NoDup (idx r c).*1.

Record wf (s : Sys) : Prop := {
  wf_dicts : dicts_ok (reg s);
  wf_ref c cid l : dget (pend (reg s) c) cid = Some l →
    cid ≠ "" ∧ ∃ p, heap (reg s) !! l = Some p ∧ 0 < waiters p;
  wf_count l p : heap (reg s) !! l = Some p → waiters p = Z.of_nat (count l (waiting s));
  wf_wait tid su : waiting s !! tid = Some su →
    dget (pend (reg s) (req_chat (s_req su))) (s_cid su) = Some (s_loc su) ∧
    ∃ p, heap (reg s) !! s_loc su = Some p ∧ key_of p = req_key (s_req su);
  wf_home c cid l tid su : dget (pend (reg s) c) cid = Some l →
    waiting s !! tid = Some su → s_loc su = l → req_chat (s_req su) = c ∧ s_cid su = cid;
  wf_idx c k cid : dget (idx (reg s) c) k = Some cid →
    ∃ l p, dget (pend (reg s) c) cid = Some l ∧ heap (reg s) !! l = Some p ∧ key_of p = k;
  wf_live c cid l p : dget (pend (reg s) c) cid = Some l → heap (reg s) !! l = Some p →
    decision p = None → dget (idx (reg s) c) (key_of p) = Some cid;
  wf_awake l p : heap (reg s) !! l = Some p → decision p ≠ None →
    event p = true ∨ l ∈ waking s
}.

(** ** What the operations do to the registry *)

Definition static_eq (p p' : Pending) : Prop :=
  op p' = op p ∧ logical_path p' = logical_path p ∧ kind p' = kind p ∧ payload p' = payload p.
Definition heap_le (h h' : list Pending) : Prop :=
  ∀ l p, h !! l = Some p → ∃ p', h' !! l = Some p' ∧ static_eq p p'.

(** Same items and index; grants may have been forgotten. *)
Definition same_chats (r r' : Registry) : Prop :=
  ∀ c, pend r' c = pend r c ∧ idx r' c = idx r c ∧ allows r' c ⊆ allows r c.

Lemma static_refl p : static_eq p p.
Proof. done. Qed.

Lemma heap_le_insert h l p p' :
  h !! l = Some p → static_eq p p' → heap_le h (<[l := p']> h).
Proof.
  intros Hl Hp l0 p0 Hl0. rewrite list_lookup_insert. case_decide as E.
  - destruct E as [-> ?]. simplify_eq. by exists p'.
  - by exists p0.
Qed.

Lemma heap_le_app h h2 : heap_le h (h ++ h2).
Proof. intros l p Hl. exists p. split; [by apply lookup_app_l_Some|done]. Qed.

Lemma heap_le_trans h1 h2 h3 : heap_le h1 h2 → heap_le h2 h3 → heap_le h1 h3.
Proof.
  intros A B l p Hl. destruct (A l p Hl) as (p2 & H2 & S2).
  destruct (B l p2 H2) as (p3 & H3 & S3). exists p3. split; [done|].
  unfold static_eq in *. intuition congruence.
Qed.

Lemma heap_le_refl h : heap_le h h.
Proof. intros l p Hl. by exists p. Qed.

Lemma chat_of_put c st r c' :
  chat_of (put_chat c st r) c' = if decide (c = c') then st else chat_of r c'.
Proof.
  unfold chat_of, put_chat. cbn. rewrite dget_dput. case_decide; case_bool_decide; done.
Qed.

Lemma same_chats_refl r : same_chats r r.
Proof. done. Qed.

Lemma put_same c st r :
  pending st = pend r c → key_index st = idx r c → session_allows st ⊆ allows r c →
  same_chats r (put_chat c st r).
Proof.
  intros E1 E2 E3 c'. unfold pend, idx, allows. rewrite chat_of_put.
  case_decide; subst; done.
Qed.

Lemma same_chats_trans r1 r2 r3 : same_chats r1 r2 → same_chats r2 r3 → same_chats r1 r3.
Proof.
  intros A B c. destruct (A c) as (?&?&?), (B c) as (?&?&?). repeat split; [congruence..|set_solver].
Qed.

Lemma put_dicts c st r :
  dicts_ok r → NoDup (pending st).*1 → NoDup (key_index st).*1 → dicts_ok (put_chat c st r).
Proof.
  intros [Hc Hd] H1 H2. split; [by apply dput_NoDup|]. intros c'.
  unfold pend, idx. rewrite chat_of_put. case_decide; [done|apply Hd].
Qed.

Lemma put_pending_dicts l p r : dicts_ok (put_pending l p r) ↔ dicts_ok r.
Proof. done. Qed.

Lemma gc_spec now r :
  dicts_ok r → (∀ c, pend r c = [] → idx r c = []) →
  dicts_ok (_gc now r) ∧ same_chats r (_gc now r).
Proof.
  intros [Hc Hd] Hidx.
  assert (same_chats r (_gc now r)) as Hsame.
  { intros c. generalize (Hidx c). unfold pend, idx, allows, chat_of, _gc. cbn.
    rewrite dget_filter by done.
    destruct (dget (chats r) c) as [st|]; [|done]. cbn.
    destruct (bool_decide _); cbn; [|done]. destruct (pending st) eqn:Ep; cbn; [|done].
    intros ->; [|done]. rewrite ?Ep. split_and!; [done..|set_solver]. }
  split; [split|done].
  - by apply filter_NoDup.
  - intros c. destruct (Hsame c) as (-> & -> & _). apply Hd.
Qed.

Lemma get_chat_spec now c r st r' :
  dicts_ok r → _get_chat now c r = (st, r') →
  dicts_ok r' ∧ same_chats r r' ∧ heap r' = heap r ∧
  pending st = pend r c ∧ key_index st = idx r c ∧ session_allows st = allows r c ∧
  allows r' c = allows r c.
Proof.
  intros Hd. unfold _get_chat. destruct (dget (chats r) c) as [st0|] eqn:E; intros [= <- <-].
  - split_and!; try done; unfold pend, idx, allows, chat_of; by rewrite E.
  - assert (pend r c = [] ∧ idx r c = [] ∧ allows r c = ∅) as (Ep & Ei & Ea).
    { unfold pend, idx, allows, chat_of. by rewrite E. }
    split_and!; try done.
    + apply (put_dicts c (new_chat now)); [done|constructor..].
    + apply (put_same c (new_chat now)); [done..|set_solver].
    + unfold allows at 1. rewrite Ea. fold (put_chat c (new_chat now) r).
      rewrite chat_of_put. by case_decide.
Qed.

(** What registering does: answer at once, join the undecided item the index
    names, or add a new item. *)
Inductive registered {A} (ck : string) (k : key) (fresh_item : Pending) (new_cid : string)
    (short_ok : ChatConfirm → Registry → A → Prop)
    (r r' : Registry) : A + string * loc → Prop :=
| reg_short v st r1 :
    heap r' = heap r → same_chats r r' → heap r1 = heap r → same_chats r r1 →
    pending st = pend r ck → key_index st = idx r ck → session_allows st ⊆ allows r ck →
    short_ok st r1 v → registered ck k fresh_item new_cid short_ok r r' (inl v)
| reg_join cid l p :
    dget (idx r ck) k = Some cid → cid ≠ "" → dget (pend r ck) cid = Some l →
    heap r !! l = Some p → decision p = None →
    heap r' = <[l := p <| waiters := waiters p + 1 |>]> (heap r) → same_chats r r' →
    registered ck k fresh_item new_cid short_ok r r' (inr (cid, l))
| reg_new :
    (∀ cid l p, dget (idx r ck) k = Some cid → cid ≠ "" → dget (pend r ck) cid = Some l →
       heap r !! l = Some p → decision p ≠ None) →
    heap r' = heap r ++ [fresh_item <| waiters := waiters fresh_item + 1 |>] →
    (∀ c, pend r' c = if decide (ck = c) then dput (pend r ck) new_cid (length (heap r))
                      else pend r c) →
    (∀ c, idx r' c = if decide (ck = c) then dput (idx r ck) k new_cid else idx r c) →
    (∀ c, allows r' c ⊆ allows r c) →
    registered ck k fresh_item new_cid short_ok r r' (inr (new_cid, length (heap r))).

Lemma reusable_spec k st r :
  match reusable k st r with
  | Some (cid, l, p) =>
      dget (key_index st) k = Some cid ∧ cid ≠ "" ∧ dget (pending st) cid = Some l ∧
      heap r !! l = Some p ∧ decision p = None
  | None =>
      ∀ cid l p, dget (key_index st) k = Some cid → cid ≠ "" → dget (pending st) cid = Some l →
        heap r !! l = Some p → decision p ≠ None
  end.
Proof.
  unfold reusable. destruct (dget (key_index st) k) as [[|c cs]|]; [naive_solver| |naive_solver].
  destruct (dget (pending st) _) as [l|] eqn:El; [|naive_solver].
  destruct (heap r !! l) as [p|] eqn:Ep; [|naive_solver].
  destruct (decision p) eqn:Ed; cbn; [naive_solver|]. naive_solver.
Qed.

Lemma register_spec {A} now now2 ck k mp (pre : ChatConfirm → Registry → option A) cid r res r' :
  dicts_ok r → (∀ c, pend r c = [] → idx r c = []) →
  _register_pending now now2 ck k mp pre cid r = (res, r') →
  dicts_ok r' ∧ registered ck k mp cid (λ st r1 v, pre st r1 = Some v) r r' res.
Proof.
  intros Hd Hidx. unfold _register_pending.
  destruct (gc_spec now r Hd Hidx) as [Hd0 Hs0].
  destruct (_get_chat now2 ck (_gc now r)) as [st0 r1] eqn:Eg.
  destruct (get_chat_spec _ _ _ _ _ Hd0 Eg) as (Hd1 & Hs1 & Hh1 & E1 & E2 & E3 & E4).
  assert (heap r1 = heap r) as Hh by done.
  pose proof (same_chats_trans _ _ _ Hs0 Hs1) as Hs.
  destruct (Hs ck) as (Ep & Ei & Ea), (Hs0 ck) as (Ep0 & Ei0 & Ea0), (Hs1 ck) as (Ep1 & Ei1 & Ea1).
  set (st := st0 <| last_ts := now |>).
  assert (pending st = pend r1 ck) as F1 by (unfold st; cbn; congruence).
  assert (key_index st = idx r1 ck) as F2 by (unfold st; cbn; congruence).
  assert (session_allows st ⊆ allows r ck) as F3 by (unfold st; cbn; by rewrite E3).
  assert (session_allows st ⊆ allows r1 ck) as F4.
  { unfold st; cbn. by rewrite E3, E4. }
  clearbody st. destruct (Hd1) as [_ Hnd]. destruct (Hnd ck) as [Hn1 Hn2].
  destruct (pre st r1) as [short|] eqn:Epre.
  { intros [= <- <-]. split; [apply put_dicts; congruence|].
    apply (reg_short _ _ _ _ _ _ _ _ st r1); try done; [|congruence..].
    eapply same_chats_trans; [exact Hs|by apply put_same]. }
  pose proof (reusable_spec k st r1) as Hre.
  destruct (reusable k st r1) as [[[cid' l] p]|].
  - intros [= <- <-]. destruct Hre as (G1 & G2 & G3 & G4 & G5).
    split; [apply put_dicts; [done|congruence..]|].
    apply (reg_join _ _ _ _ _ _ _ _ _ p); [congruence|done|congruence|congruence|done|cbn; congruence|].
    eapply same_chats_trans; [exact Hs|].
    by apply (put_same ck st (put_pending l (p <| waiters := waiters p + 1 |>) r1)).
  - intros [= <- <-]. split.
    { apply put_dicts; [done| |]; cbn; [rewrite F1|rewrite F2]; by apply dput_NoDup. }
    rewrite Hh. apply reg_new.
    + intros cid' l p G1 G2 G3 G4. apply (Hre cid' l p); [congruence|done|congruence|congruence].
    + done.
    + intros c. unfold pend at 1. rewrite chat_of_put.
      case_decide; [cbn; congruence|]. apply (Hs c).
    + intros c. unfold idx at 1. rewrite chat_of_put.
      case_decide; [cbn; congruence|]. apply (Hs c).
    + intros c. unfold allows at 1. rewrite chat_of_put.
      case_decide; [subst; done|]. apply (Hs c).
Qed.

Definition fresh_item (q : request) (wording : string) (now : Z) : Pending :=
  match q with
  | RGate _ a => gate_pending a now
  | RPick a => pick_pending a wording now
  end.

(** Why a call is answered without an item. *)
Definition short_answer (q : request) (st : ChatConfirm) (r : Registry) (v : verdict) : Prop :=
  match q with
  | RGate settings a =>
      _confirm_enabled settings (g_kind a) = false ∧ v = Pass ∨
      g_interactive a = false ∧ v = Intercept STATUS_BLOCKED ∨
      g_interactive a = true ∧ _session_allowed a st = Some v
  | RPick a =>
      k_interactive a = false ∧ v = Intercept STATUS_BLOCKED ∨
      _reject_concurrent a st r = Some v
  end.

Definition asked (q : request) : Prop :=
  match q with RGate _ a => g_interactive a = true | RPick a => k_interactive a = true end.

Lemma reg_same {A} ck k mp cid (ok : ChatConfirm → Registry → A → Prop) r v :
  ok (chat_of r ck) r v → registered ck k mp cid ok r r (inl v).
Proof. intros. by apply (reg_short _ _ _ _ _ _ _ _ (chat_of r ck) r). Qed.

Lemma registered_mono {A} ck k mp cid (ok ok' : ChatConfirm → Registry → A → Prop) r r' res :
  (∀ st r1 v, ok st r1 v → ok' st r1 v) →
  registered ck k mp cid ok r r' res → registered ck k mp cid ok' r r' res.
Proof.
  intros Hok. destruct 1; [eapply reg_short; eauto|by eapply reg_join|by eapply reg_new].
Qed.

Lemma enter_spec q wording now now2 now3 cid r res r' :
  dicts_ok r → (∀ c, pend r c = [] → idx r c = []) →
  enter q wording now now2 now3 cid r = (res, r') →
  dicts_ok r' ∧
  registered (req_chat q) (req_key q) (fresh_item q wording now3) cid (short_answer q) r r' res ∧
  match res with inl _ => True | inr _ => asked q end.
Proof.
  intros Hd Hidx. destruct q as [settings a|a]; cbn [enter req_chat req_key fresh_item asked].
  - unfold gate_enter. destruct (_confirm_enabled settings (g_kind a)) eqn:Ee; cbn [negb].
    2:{ intros [= <- <-]. split_and!; [done| |done]. apply reg_same. by left. }
    destruct (g_interactive a) eqn:Ei; cbn [negb].
    2:{ intros [= <- <-]. split_and!; [done| |done]. apply reg_same. right; by left. }
    intros Hr. apply register_spec in Hr as [Hd' Hr]; [|done..].
    split_and!; [done| |by destruct res].
    eapply registered_mono; [|exact Hr]. cbn. intros st r1 v ?. right; by right.
  - unfold pick_enter. destruct (k_interactive a) eqn:Ei; cbn [negb].
    2:{ intros [= <- <-]. split_and!; [done| |done]. apply reg_same. by left. }
    intros Hr. apply register_spec in Hr as [Hd' Hr]; [|done..].
    split_and!; [done| |by destruct res].
    eapply registered_mono; [|exact Hr]. cbn. intros st r1 v ?. by right.
Qed.

(** What a resumed call is told. *)
Definition told (q : request) (p : Pending) : verdict :=
  let d := default _DECISION_TIMEOUT (decision p) in
  match q with
  | RGate _ _ => gate_verdict d (claims q p)
  | RPick _ => pick_verdict d (choice p)
  end.

Definition claimed (q : request) (p : Pending) : Pending :=
  if claims q p then p <| performed := true |> else p.

Definition leaves (q : request) (p : Pending) : Pending :=
  (claimed q p) <| waiters := waiters p - 1 |>.

Definition index_after (k : key) (cid : string) (i : pydict key string) : pydict key string :=
  if bool_decide (dget i k = Some cid) then dpop i k else i.

Lemma drop_item_spec k cid p d b st :
  pending (drop_item k cid p d b st) = dpop (pending st) cid ∧
  key_index (drop_item k cid p d b st) = index_after k cid (key_index st) ∧
  session_allows (drop_item k cid p d b st) = session_allows st.
Proof.
  unfold drop_item, index_after. cbn.
  destruct (bool_decide (dget (key_index st) k = Some cid)); cbn; destruct (_ && _); done.
Qed.

Lemma waiters_claimed q p : waiters (claimed q p) = waiters p.
Proof. unfold claimed. by destruct (claims q p). Qed.

Lemma static_leaves q p : static_eq p (leaves q p).
Proof. unfold leaves, claimed. by destruct (claims q p). Qed.

(** The one shape both resumptions have. *)
Lemma wait_spec {A} ck k cid l w (extract : Pending → string → A * Pending) r p p1 x :
  dicts_ok r → heap r !! l = Some p →
  extract p (default _DECISION_TIMEOUT (decision p)) = (x, p1) → waiters p1 = waiters p →
  let res := _wait_pending ck k cid l w extract r in
  let last := bool_decide (waiters p - 1 ≤ 0) in
  dicts_ok res.2 ∧
  res.1 = match w with Cancelled => None | _ => Some (default _DECISION_TIMEOUT (decision p), x) end ∧
  heap res.2 = <[l := p1 <| waiters := waiters p - 1 |>]> (heap r) ∧
  (∀ c, pend res.2 c = if last && bool_decide (ck = c) then dpop (pend r c) cid else pend r c) ∧
  (∀ c, idx res.2 c = if last && bool_decide (ck = c) then index_after k cid (idx r c) else idx r c) ∧
  (∀ c, allows res.2 c = allows r c).
Proof.
  intros Hd Hl Ex Hw. unfold _wait_pending. rewrite Hl, Ex, Hw. cbn zeta.
  rewrite (bool_decide_decide (waiters p - 1 ≤ 0)). cbn [snd fst].
  assert (waiters (p1 <| waiters := waiters p - 1 |>) = waiters p - 1) as -> by done.
  set (r1 := put_pending l _ r). assert (dicts_ok r1) as Hd1 by done.
  assert (∀ c, chat_of r1 c = chat_of r c) as Hc1 by done.
  assert (heap r1 = <[l := p1 <| waiters := waiters p - 1 |>]> (heap r)) as Hh1 by done.
  destruct (waiters p - 1 <=? 0) eqn:Ew; case_decide; bool_simpl; try lia; cbn [andb].
  2:{ split_and!; [done|by destruct w|done..]. }
  destruct (dget (chats r1) ck) as [st|] eqn:Es.
  - assert (chat_of r ck = st) as Est by (unfold chat_of; change (chats r) with (chats r1); by rewrite Es).
    destruct (drop_item_spec k cid (p1 <| waiters := waiters p - 1 |>)
                (default _DECISION_TIMEOUT (decision p))
                match w with Cancelled => true | _ => false end st) as (D1 & D2 & D3).
    destruct Hd as [_ Hnd]. destruct (Hnd ck) as [Hn1 Hn2].
    split_and!.
    + apply put_dicts; [done| |].
      * rewrite D1. apply dpop_NoDup. by rewrite <- Est.
      * rewrite D2. unfold index_after. case_bool_decide; [apply dpop_NoDup|]; by rewrite <- Est.
    + by destruct w.
    + done.
    + intros c. unfold pend. rewrite chat_of_put. case_decide; case_bool_decide; try done.
      subst. by rewrite D1.
    + intros c. unfold idx. rewrite chat_of_put. case_decide; case_bool_decide; try done.
      subst. by rewrite D2.
    + intros c. unfold allows. rewrite chat_of_put. case_decide; [subst; by rewrite D3|done].
  - assert (∀ c, ck = c → chat_of r c = new_chat 0) as Est.
    { intros c <-. unfold chat_of. change (chats r) with (chats r1). by rewrite Es. }
    split_and!; [done|by destruct w|done| | |done].
    + intros c. case_bool_decide; [|done]. unfold pend. by rewrite Hc1, Est.
    + intros c. case_bool_decide; [|done]. unfold idx. by rewrite Hc1, Est.
Qed.

Lemma resume_spec q cid l w r p :
  dicts_ok r → heap r !! l = Some p →
  let res := resume q cid l w r in
  let last := bool_decide (waiters p - 1 ≤ 0) in
  dicts_ok res.2 ∧
  res.1 = match w with Cancelled => None | _ => Some (told q p) end ∧
  heap res.2 = <[l := leaves q p]> (heap r) ∧
  (∀ c, pend res.2 c = if last && bool_decide (req_chat q = c) then dpop (pend r c) cid
                       else pend r c) ∧
  (∀ c, idx res.2 c = if last && bool_decide (req_chat q = c)
                      then index_after (req_key q) cid (idx r c) else idx r c) ∧
  (∀ c, allows res.2 c = allows r c).
Proof.
  intros Hd Hl. destruct q as [settings a|a]; cbn [resume req_chat req_key].
  - unfold gate_resume.
    assert (_claim_first p (default _DECISION_TIMEOUT (decision p)) =
            (claims (RGate settings a) p, claimed (RGate settings a) p)) as Ex by done.
    pose proof (wait_spec (chat_key (g_chat a)) (gate_key a) cid l w _ r p _ _ Hd Hl Ex
                  (waiters_claimed _ _)) as (W1 & W2 & W3 & W4 & W5 & W6).
    destruct (_wait_pending _ _ _ _ _ _ _) as [o r'].
    cbn [fst snd] in *. subst o. destruct w; cbn [fst snd]; split_and!; done.
  - unfold pick_resume.
    pose proof (wait_spec (chat_key (k_chat a)) (pick_key a) cid l w (λ p _, (choice p, p)) r p
                  _ _ Hd Hl eq_refl eq_refl) as (W1 & W2 & W3 & W4 & W5 & W6).
    destruct (_wait_pending _ _ _ _ _ _ _) as [o r'].
    cbn [fst snd] in *. subst o. destruct w; cbn [fst snd]; split_and!; done.
Qed.

Definition allowed_session (p : Pending) : Pending :=
  p <| decision := Some DECISION_ALLOW_SESSION |>.

Lemma cascades_decided cid p g other q : cascades cid p g other (allowed_session q) = false.
Proof. unfold cascades. cbn. by rewrite andb_false_r. Qed.

Lemma cascade_spec cid p g items h h' cids ls :
  cascade cid p g items h = (h', cids, ls) →
  length h' = length h ∧
  (∀ l p1, h' !! l = Some p1 → ∃ p0, h !! l = Some p0 ∧
     (p1 = p0 ∨ l ∈ ls ∧ p1 = allowed_session p0 ∧
        ∃ other, (other, l) ∈ items ∧ cascades cid p g other p0 = true)).
Proof.
  revert h h' cids ls. induction items as [|[other l] items IH]; intros h h' cids ls; cbn [cascade].
  { intros [= <- <- <-]. split; [done|]. intros l p1 Hl. exists p1. auto. }
  assert (∀ h' cids ls, cascade cid p g items h = (h', cids, ls) →
    length h' = length h ∧
    (∀ l1 p1, h' !! l1 = Some p1 → ∃ p0, h !! l1 = Some p0 ∧
     (p1 = p0 ∨ l1 ∈ ls ∧ p1 = allowed_session p0 ∧
        ∃ other0, (other0, l1) ∈ (other, l) :: items ∧ cascades cid p g other0 p0 = true))) as Hskip.
  { intros h2 cids2 ls2 Hc. destruct (IH _ _ _ _ Hc) as [Hlen Hback]. split; [done|].
    intros l1 p1 H1. destruct (Hback l1 p1 H1) as (p0 & H0 & Hcase). exists p0. split; [done|].
    destruct Hcase as [?|(?&?&o&?&?)]; [by left|right]. split_and!; [done..|].
    exists o. split; [by right|done]. }
  destruct (h !! l) as [q|] eqn:El; [|by apply Hskip].
  destruct (cascades cid p g other q) eqn:Ec; [|by apply Hskip].
  clear Hskip. destruct (cascade _ _ _ _ _) as [[h2 cids2] ls2] eqn:Erec. intros [= <- <- <-].
  destruct (IH _ _ _ _ Erec) as [Hlen Hback]. split; [by rewrite Hlen, length_insert|].
  intros l1 p1 H1. destruct (Hback l1 p1 H1) as (p0 & H0 & Hcase).
  rewrite list_lookup_insert in H0. case_decide as E1.
  - destruct E1 as [-> _]. injection H0 as <-. exists q. split; [done|].
    destruct Hcase as [->|(_ & _ & o & _ & Ho)]; [|by rewrite cascades_decided in Ho].
    right. split_and!; [left|done|]. exists other. split; [left|done].
  - exists p0. split; [done|]. destruct Hcase as [?|(?&?&o&?&?)]; [by left|right].
    split_and!; [by right|done|]. exists o. split; [by right|done].
Qed.

(** What a decision does to an item at [l0]. *)
Inductive ruled (chat cid d : string) (o : option string) (l : loc) (p : Pending) (ls : list loc)
    (r : Registry) (l0 : loc) (p0 : Pending) : Pending → Prop :=
| ruled_not : ruled chat cid d o l p ls r l0 p0 p0
| ruled_by_user p1 :
    l0 = l → p0 = p → check_decision p d o = Ok p1 →
    ruled chat cid d o l p ls r l0 p0 (p1 <| decision := Some d |>)
| ruled_by_cascade other :
    l0 ∈ ls → d = DECISION_ALLOW_SESSION → (other, l0) ∈ pend r chat →
    cascades cid p (_session_scope (kind p) (logical_path p)) other p0 = true →
    ruled chat cid d o l p ls r l0 p0 (allowed_session p0).

Definition granted_now (chat d : string) (p : Pending) (c : string) : gset (string * string) :=
  if bool_decide (c = chat) && bool_decide (d = DECISION_ALLOW_SESSION)
  then {[ (kind p, _session_scope (kind p) (logical_path p)) ]} else ∅.

Lemma check_decision_keeps p d o p1 :
  check_decision p d o = Ok p1 →
  static_eq p p1 ∧ waiters p1 = waiters p ∧ performed p1 = performed p ∧ event p1 = event p ∧
  decision p1 = decision p ∧
  (choice p1 = choice p ∨ d = DECISION_CHOICE ∧ o = choice p1 ∧
     ∃ x, choice p1 = Some x ∧ x ≠ "" ∧ x ∈ valid_ids p) ∧
  (d = DECISION_ALLOW_SESSION → kind p ≠ KIND_DESIGN_PICK).
Proof.
  unfold check_decision. intros Hc. split_matches Hc; bool_simpl; split_and!; try done; eauto.
  all: try (intros ->; set_solver).
  right. split_and!; [done..|]. by eexists.
Qed.

Lemma set_decision_spec now chat cid d o r d' op' path' cids r' ls :
  dicts_ok r → set_decision now chat cid d o r = (Recorded d' op' path' cids, r', ls) →
  ∃ l p p1, dget (pend r chat) cid = Some l ∧ heap r !! l = Some p ∧
    check_decision p d o = Ok p1 ∧ dicts_ok r' ∧
    (∀ c, pend r' c = pend r c ∧ idx r' c = idx r c ∧ allows r' c = granted_now chat d p c ∪ allows r c) ∧
    length (heap r') = length (heap r) ∧ (∃ ls', ls = l :: ls') ∧
    (∀ l0 p', heap r' !! l0 = Some p' → ∃ p0, heap r !! l0 = Some p0 ∧
       ruled chat cid d o l p ls r l0 p0 p').
Proof.
  intros Hd. unfold set_decision.
  destruct (dget (chats r) chat) as [st|] eqn:Est; [|done].
  destruct (dget (pending st) cid) as [l|] eqn:El; [|done].
  destruct (heap r !! l) as [p|] eqn:Ep; [|done].
  destruct (check_decision p d o) as [p1|] eqn:Ec; [|done].
  assert (chat_of r chat = st) as Hst by (unfold chat_of; by rewrite Est).
  assert (pend r chat = pending st ∧ idx r chat = key_index st ∧ allows r chat = session_allows st)
    as (Hp & Hi & Ha) by (unfold pend, idx, allows; by rewrite Hst).
  destruct (Hd) as [_ Hnd]. destruct (Hnd chat) as [Hn1 Hn2]. rewrite Hp in Hn1. rewrite Hi in Hn2.
  assert (∀ l0 p', <[l := p1 <| decision := Some d |>]> (heap r) !! l0 = Some p' →
    ∃ p0, heap r !! l0 = Some p0 ∧ (p' = p0 ∨ l0 = l ∧ p0 = p ∧ p' = p1 <| decision := Some d |>)) as Hins.
  { intros l0 p'. rewrite list_lookup_insert. case_decide as E; intros E2; simplify_eq.
    - destruct E as [-> _]. eauto 10.
    - eauto. }
  unfold granted_now. destruct (bool_decide (d = DECISION_ALLOW_SESSION)) eqn:Ea.
  - destruct (cascade _ _ _ _ _) as [[h cids2] ls2] eqn:Ecas.
    intros Heq. injection Heq as <- <- <- <- <- <-. apply bool_decide_eq_true in Ea as ->.
    destruct (cascade_spec _ _ _ _ _ _ _ _ Ecas) as [Hlen Hback].
    exists l, p, p1. split_and!; [congruence|done|done| | | |by eexists|].
    + by apply put_dicts.
    + intros c. unfold pend, idx, allows.
      rewrite chat_of_put. case_decide as Ecc; [subst c|].
      * rewrite Hst. rewrite (bool_decide_true (chat = chat)) by done. done.
      * rewrite (bool_decide_false (c = chat)) by congruence. split_and!; [done..|cbn; set_solver].
    + cbn. rewrite Hlen. apply length_insert.
    + intros l0 p' Hp'. destruct (Hback l0 p' Hp') as (p0 & H0 & Hcase).
      destruct (Hins l0 p0 H0) as (p00 & H00 & Hc2). exists p00. split; [done|].
      destruct Hcase as [->|(Hls & -> & other & Hin & Hcs)].
      * destruct Hc2 as [->|(-> & -> & ->)]; [constructor|by apply ruled_by_user].
      * destruct Hc2 as [->|(-> & -> & ->)].
        -- apply (ruled_by_cascade _ _ _ _ _ _ _ _ _ _ other); [by right|done|by rewrite Hp|done].
        -- unfold cascades in Hcs. cbn in Hcs. by rewrite andb_false_r in Hcs.
  - intros Heq. injection Heq as <- <- <- <- <- <-. apply bool_decide_eq_false in Ea.
    exists l, p, p1. split_and!; [congruence|done|done| | | |by eexists|].
    + by apply put_dicts.
    + intros c. unfold pend, idx, allows. rewrite chat_of_put. rewrite andb_false_r.
      case_decide; subst; (split_and!; [done..|]); set_solver.
    + cbn. apply length_insert.
    + intros l0 p' Hp'. destruct (Hins l0 p' Hp') as (p0 & H0 & [->|(-> & -> & ->)]);
        eexists; (split; [done|]); [constructor|by apply ruled_by_user].
Qed.
End system.
