(* ===== verification/ConfirmGateInv.v ===== *)
(** * The invariants of the confirmation gate are kept by every step *)

From S2P Require Import Prelude PyString PyDict ConfirmGate ConfirmGateProps.

Import ConfirmGate.

(** ** Counting the coroutines of an item *)

Lemma count_insert l m tid su :
  m !! tid = None →
  count l (<[tid := su]> m) = (count l m + if decide (s_loc su = l) then 1 else 0)%nat.
Proof.
  intros Hm. unfold count. case_decide as E.
  - rewrite map_filter_insert_True by done. rewrite map_size_insert_None; [lia|].
    apply map_lookup_filter_None. by left.
  - rewrite map_filter_insert_False by done. rewrite delete_id by done. lia.
Qed.

Lemma count_delete l m tid su :
  m !! tid = Some su →
  count l m = (count l (delete tid m) + if decide (s_loc su = l) then 1 else 0)%nat.
Proof.
  intros Hm. rewrite <- (insert_delete_id m tid su) at 1 by done.
  apply count_insert. apply lookup_delete_eq.
Qed.

Lemma count_pos l m : (0 < count l m)%nat → ∃ tid su, m !! tid = Some su ∧ s_loc su = l.
Proof.
  unfold count. intros Hc. destruct (map_choose (filter (λ ts, s_loc ts.2 = l) m)) as (tid & su & Hx).
  { intros E. rewrite E, map_size_empty in Hc. lia. }
  apply map_lookup_filter_Some in Hx as [? ?]. eauto.
Qed.

Lemma count_zero l m : (∀ tid su, m !! tid = Some su → s_loc su ≠ l) → count l m = 0%nat.
Proof.
  intros Hm. destruct (count l m) eqn:E; [done|].
  destruct (count_pos l m) as (tid & su & Hx & Hl); [lia|]. by apply Hm in Hx.
Qed.

Section invariant.
Context `{GateHost}.

(** ** Consequences of the invariant *)

Lemma wf_waiter s c cid l :
  wf s → dget (pend (reg s) c) cid = Some l → ∃ tid su, waiting s !! tid = Some su ∧ s_loc su = l.
Proof.
  intros Hwf Hl. destruct (wf_ref s Hwf c cid l Hl) as (_ & p & Hp & Hpos).
  apply count_pos. pose proof (wf_count s Hwf l p Hp). lia.
Qed.

Lemma wf_inj s c cid c' cid' l :
  wf s → dget (pend (reg s) c) cid = Some l → dget (pend (reg s) c') cid' = Some l →
  c = c' ∧ cid = cid'.
Proof.
  intros Hwf H1 H2. destruct (wf_waiter s c cid l Hwf H1) as (tid & su & Hw & Hl).
  destruct (wf_home s Hwf _ _ _ _ _ H1 Hw Hl) as [<- <-].
  by destruct (wf_home s Hwf _ _ _ _ _ H2 Hw Hl) as [<- <-].
Qed.

Lemma wf_empty_chat s c : wf s → pend (reg s) c = [] → idx (reg s) c = [].
Proof.
  intros Hwf Hp. destruct (idx (reg s) c) as [|[k cid] i] eqn:Ei; [done|].
  destruct (wf_idx s Hwf c k cid) as (l & p & Hl & _).
  { rewrite Ei. cbn. by rewrite bool_decide_true. }
  by rewrite Hp in Hl.
Qed.

(** ** Preservation *)

(** The registry keeps its references; items may be decided, woken or told
    their choice. *)
Lemma wf_update s r' waking' log' :
  wf s → dicts_ok r' →
  (∀ c, pend r' c = pend (reg s) c ∧ idx r' c = idx (reg s) c) →
  length (heap r') = length (heap (reg s)) →
  (∀ l p', heap r' !! l = Some p' → ∃ p, heap (reg s) !! l = Some p ∧ static_eq p p' ∧
     waiters p' = waiters p ∧ (decision p' = None → decision p = None) ∧
     (decision p' ≠ None → event p' = true ∨ l ∈ waking')) →
  wf (mkSys r' (waiting s) waking' log').
Proof.
  intros Hwf Hd Hsame Hlen Hheap.
  assert (∀ l p, heap (reg s) !! l = Some p → ∃ p', heap r' !! l = Some p' ∧ static_eq p p' ∧
     waiters p' = waiters p) as Hfwd.
  { intros l p Hp. destruct (lookup_lt_is_Some_2 (heap r') l) as [p' Hp'].
    { rewrite Hlen. by eapply lookup_lt_Some. }
    destruct (Hheap l p' Hp') as (p0 & H0 & ? & ? & _). simplify_eq. eauto. }
  assert (∀ p p', static_eq p p' → key_of p' = key_of p) as Hkey.
  { intros p p' (E1 & E2 & _). unfold key_of. congruence. }
  constructor; cbn.
  - done.
  - intros c cid l. destruct (Hsame c) as [-> _]. intros Hl.
    destruct (wf_ref s Hwf c cid l Hl) as (? & p & Hp & ?). split; [done|].
    destruct (Hfwd l p Hp) as (p' & ? & _ & ?). exists p'. split; [done|lia].
  - intros l p' Hp'. destruct (Hheap l p' Hp') as (p & Hp & _ & -> & _). by apply (wf_count s Hwf).
  - intros tid su Hw. destruct (Hsame (req_chat (s_req su))) as [-> _].
    destruct (wf_wait s Hwf tid su Hw) as (? & p & Hp & Hk). split; [done|].
    destruct (Hfwd _ p Hp) as (p' & ? & Hst & _). exists p'. split; [done|].
    by rewrite (Hkey p p').
  - intros c cid l tid su. destruct (Hsame c) as [-> _]. apply (wf_home s Hwf).
  - intros c k cid. destruct (Hsame c) as [-> ->]. intros Hi.
    destruct (wf_idx s Hwf c k cid Hi) as (l & p & ? & Hp & Hk).
    destruct (Hfwd _ p Hp) as (p' & ? & Hst & _). exists l, p'. split_and!; [done..|].
    by rewrite (Hkey p p').
  - intros c cid l p' Hl Hp' Hdec. destruct (Hsame c) as [E1 E2]. rewrite E1 in Hl. rewrite E2.
    destruct (Hheap l p' Hp') as (p & Hp & Hst & _ & Hnone & _). rewrite (Hkey p p') by done.
    eapply (wf_live s Hwf); eauto.
  - intros l p' Hp' Hdec. destruct (Hheap l p' Hp') as (p & _ & _ & _ & _ & Haw). by apply Haw.
Qed.

Lemma wf_enter_join s tid q r' cid l p :
  wf s → waiting s !! tid = None → dicts_ok r' →
  dget (idx (reg s) (req_chat q)) (req_key q) = Some cid →
  dget (pend (reg s) (req_chat q)) cid = Some l → heap (reg s) !! l = Some p →
  heap r' = <[l := p <| waiters := waiters p + 1 |>]> (heap (reg s)) → same_chats (reg s) r' →
  wf (mkSys r' (<[tid := mkSusp q cid l]> (waiting s)) (waking s) (log s)).
Proof.
  intros Hwf Htid Hd Hi Hl Hp Hh Hsame.
  assert (∀ l0 p0, heap (reg s) !! l0 = Some p0 → ∃ p1, heap r' !! l0 = Some p1 ∧
    key_of p1 = key_of p0 ∧ decision p1 = decision p0 ∧ event p1 = event p0 ∧
    waiters p1 = waiters p0 + if decide (l = l0) then 1 else 0) as Hfwd.
  { intros l0 p0 H0. rewrite Hh, list_lookup_insert. case_decide as E.
    - destruct E as [-> _]. simplify_eq. eexists. split_and!; [done..|]. cbn. by case_decide.
    - exists p0. split_and!; [done..|]. case_decide; [|lia]. subst.
      destruct E. split; [done|by eapply lookup_lt_Some]. }
  assert (∀ l0 p1, heap r' !! l0 = Some p1 → ∃ p0, heap (reg s) !! l0 = Some p0) as Hbwd.
  { intros l0 p1. rewrite Hh, list_lookup_insert. case_decide as E; [destruct E; subst|]; eauto. }
  destruct (wf_idx s Hwf _ _ _ Hi) as (l' & p' & Hl' & Hp' & Hkey). simplify_eq.
  constructor; cbn.
  - done.
  - intros c cid' l0. destruct (Hsame c) as (-> & _). intros H0.
    destruct (wf_ref s Hwf _ _ _ H0) as (? & p0 & Hp0 & ?). split; [done|].
    destruct (Hfwd l0 p0 Hp0) as (p1 & ? & _ & _ & _ & Hw1). exists p1. split; [done|].
    rewrite Hw1. case_decide; lia.
  - intros l0 p1 H1. destruct (Hbwd l0 p1 H1) as [p0 H0].
    destruct (Hfwd l0 p0 H0) as (p2 & ? & _ & _ & _ & Hw). simplify_eq. rewrite Hw.
    rewrite count_insert by done. rewrite (wf_count s Hwf l0 p0 H0). cbn. case_decide; lia.
  - intros t su Hw. apply lookup_insert_Some in Hw as [[<- <-]|[_ Hw]]; cbn.
    + destruct (Hsame (req_chat q)) as (-> & _). split; [done|].
      destruct (Hfwd l p Hp) as (p1 & ? & Hk1 & _). exists p1. by rewrite Hk1.
    + destruct (wf_wait s Hwf t su Hw) as (? & p0 & Hp0 & <-).
      destruct (Hsame (req_chat (s_req su))) as (-> & _). split; [done|].
      destruct (Hfwd _ p0 Hp0) as (p1 & ? & Hk1 & _). by exists p1.
  - intros c cid' l0 t su. destruct (Hsame c) as (-> & _). intros H0 Hw Hloc.
    apply lookup_insert_Some in Hw as [[<- <-]|[_ Hw]]; cbn in *.
    + subst l0. by apply (wf_inj s _ _ _ _ l).
    + by eapply (wf_home s Hwf).
  - intros c k cid'. destruct (Hsame c) as (-> & -> & _). intros Hx.
    destruct (wf_idx s Hwf _ _ _ Hx) as (l0 & p0 & ? & H0 & <-).
    destruct (Hfwd _ p0 H0) as (p1 & ? & <- & _). eauto.
  - intros c cid' l0 p1 H0 H1 Hdec. destruct (Hsame c) as (E1 & E2 & _). rewrite E1 in H0. rewrite E2.
    destruct (Hbwd l0 p1 H1) as [p0 Hp0].
    destruct (Hfwd l0 p0 Hp0) as (p2 & H2 & Hk2 & Hd2 & _).
    assert (p2 = p1) as -> by congruence. rewrite Hk2.
    eapply (wf_live s Hwf); eauto. congruence.
  - intros l0 p1 H1 Hdec. destruct (Hbwd l0 p1 H1) as [p0 Hp0].
    destruct (Hfwd l0 p0 Hp0) as (p2 & H2 & _ & Hd2 & Hev2 & _).
    assert (p2 = p1) as -> by congruence. rewrite Hev2.
    apply (wf_awake s Hwf l0 p0 Hp0). by rewrite <- Hd2.
Qed.

Lemma wf_enter_new s tid q r' cid p :
  wf s → waiting s !! tid = None → dicts_ok r' → fresh_cid (req_chat q) cid (reg s) →
  key_of p = req_key q → decision p = None → waiters p = 1 →
  (∀ cid l p, dget (idx (reg s) (req_chat q)) (req_key q) = Some cid → cid ≠ "" →
     dget (pend (reg s) (req_chat q)) cid = Some l → heap (reg s) !! l = Some p → decision p ≠ None) →
  let l := length (heap (reg s)) in
  heap r' = heap (reg s) ++ [p] →
  (∀ c, pend r' c = if decide (req_chat q = c) then dput (pend (reg s) (req_chat q)) cid l
                    else pend (reg s) c) →
  (∀ c, idx r' c = if decide (req_chat q = c) then dput (idx (reg s) (req_chat q)) (req_key q) cid
                   else idx (reg s) c) →
  wf (mkSys r' (<[tid := mkSusp q cid l]> (waiting s)) (waking s) (log s)).
Proof.
  intros Hwf Htid Hd [Hne Hfresh] Hkey Hdec Hw1 Hold l Hh Hpend Hidx.
  assert (∀ l0 p0, heap (reg s) !! l0 = Some p0 → l0 < l)%nat as Hlt
    by (intros; by eapply lookup_lt_Some).
  assert (∀ c cid0 l0, dget (pend (reg s) c) cid0 = Some l0 → ∃ p0, heap (reg s) !! l0 = Some p0) as Hsome.
  { intros c cid0 l0 H0. destruct (wf_ref s Hwf _ _ _ H0) as (_ & p0 & ? & _). eauto. }
  assert (∀ l0 p0, heap r' !! l0 = Some p0 ↔ heap (reg s) !! l0 = Some p0 ∨ l0 = l ∧ p0 = p) as Hheap.
  { intros l0 p0. rewrite Hh, lookup_app. destruct (heap (reg s) !! l0) as [p1|] eqn:E.
    - pose proof (Hlt _ _ E). split; [naive_solver|]. intros [?|[-> _]]; [done|lia].
    - rewrite list_lookup_singleton. apply lookup_ge_None in E. fold l in E.
      destruct (l0 - length (heap (reg s)))%nat eqn:E2; fold l in E2.
      + split; [intros [= <-]; right; split; [lia|done]|naive_solver].
      + split; [done|]. intros [?|[-> _]]; [done|lia]. }
  assert (∀ c cid0 l0, dget (pend r' c) cid0 = Some l0 →
    dget (pend (reg s) c) cid0 = Some l0 ∨ c = req_chat q ∧ cid0 = cid ∧ l0 = l) as Hback.
  { intros c cid0 l0. rewrite Hpend. case_decide; [|by left]. subst c. rewrite dget_dput.
    case_bool_decide; [|by left]. intros [= <-]. subst. by right. }
  assert (∀ c cid0 l0, dget (pend (reg s) c) cid0 = Some l0 → dget (pend r' c) cid0 = Some l0) as Hfwd.
  { intros c cid0 l0 H0. rewrite Hpend. case_decide; [|done]. subst c. rewrite dget_dput.
    case_bool_decide; [|done]. by subst; rewrite Hfresh in H0. }
  constructor; cbn.
  - done.
  - intros c cid0 l0 Hl0. destruct (Hback _ _ _ Hl0) as [H0|(-> & -> & ->)].
    + destruct (wf_ref s Hwf _ _ _ H0) as (? & p0 & ? & ?). split; [done|]. exists p0.
      split; [|done]. apply Hheap. by left.
    + split; [done|]. exists p. split; [|lia]. apply Hheap. by right.
  - intros l0 p0 Hp0. rewrite count_insert by done. cbn. apply Hheap in Hp0 as [H0|[-> ->]].
    + rewrite (wf_count s Hwf _ _ H0). pose proof (Hlt _ _ H0). case_decide; lia.
    + rewrite decide_True by done. rewrite count_zero; [lia|]. intros t su Ht E.
      destruct (wf_wait s Hwf _ _ Ht) as (_ & p0 & H0 & _). pose proof (Hlt _ _ H0). lia.
  - intros t su Ht. apply lookup_insert_Some in Ht as [[<- <-]|[_ Ht]]; cbn.
    + split; [rewrite Hpend, decide_True by done; apply dget_dput_eq|].
      exists p. split; [apply Hheap; by right|done].
    + destruct (wf_wait s Hwf _ _ Ht) as (? & p0 & ? & ?). split; [by apply Hfwd|].
      exists p0. split; [apply Hheap; by left|done].
  - intros c cid0 l0 t su Hl0 Ht Hloc. destruct (Hback _ _ _ Hl0) as [H0|(-> & -> & ->)].
    + apply lookup_insert_Some in Ht as [[<- <-]|[_ Ht]]; cbn in *.
      * destruct (Hsome _ _ _ H0) as [p0 Hp0]. pose proof (Hlt _ _ Hp0). lia.
      * by eapply (wf_home s Hwf).
    + apply lookup_insert_Some in Ht as [[<- <-]|[_ Ht]]; cbn in *; [done|].
      destruct (wf_wait s Hwf _ _ Ht) as (_ & p0 & Hp0 & _). pose proof (Hlt _ _ Hp0). lia.
  - intros c k cid0 Hx. rewrite Hidx in Hx.
    assert (dget (idx (reg s) c) k = Some cid0 ∨ c = req_chat q ∧ k = req_key q ∧ cid0 = cid) as Hc.
    { case_decide; [|by left]. subst c. rewrite dget_dput in Hx. case_bool_decide; [|by left].
      injection Hx as <-. by right. }
    destruct Hc as [H0|(-> & -> & ->)].
    + destruct (wf_idx s Hwf _ _ _ H0) as (l0 & p0 & ? & ? & ?). exists l0, p0.
      split_and!; [by apply Hfwd|apply Hheap; by left|done].
    + exists l, p. split_and!; [|apply Hheap; by right|done].
      rewrite Hpend, decide_True by done. apply dget_dput_eq.
  - intros c cid0 l0 p0 Hl0 Hp0 Hd0. rewrite Hidx. destruct (Hback _ _ _ Hl0) as [H0|(-> & -> & ->)].
    + apply Hheap in Hp0 as [Hp0|[-> ->]].
      2:{ destruct (Hsome _ _ _ H0) as [p0 Hp0]. pose proof (Hlt _ _ Hp0). lia. }
      pose proof (wf_live s Hwf _ _ _ _ H0 Hp0 Hd0) as Hx. case_decide; [|done]. subst c.
      rewrite dget_dput. case_bool_decide as Ek; [|done]. exfalso.
      rewrite <- Ek in Hx. eapply Hold; eauto. by destruct (wf_ref s Hwf _ _ _ H0).
    + apply Hheap in Hp0 as [Hp0|[_ ->]]; [pose proof (Hlt _ _ Hp0); lia|].
      rewrite decide_True by done. rewrite Hkey. apply dget_dput_eq.
  - intros l0 p0 Hp0 Hd0. apply Hheap in Hp0 as [Hp0|[_ ->]]; [by apply (wf_awake s Hwf _ _ Hp0)|done].
Qed.

Lemma wf_leave s tid q cid l p r' w :
  wf s → waiting s !! tid = Some (mkSusp q cid l) → heap (reg s) !! l = Some p →
  r' = (resume q cid l w (reg s)).2 →
  wf (mkSys r' (delete tid (waiting s)) (waking s) (log s)).
Proof.
  intros Hwf Htid Hp Hr.
  destruct (resume_spec q cid l w (reg s) p (wf_dicts s Hwf) Hp) as (Hd & _ & Hh & Hpend & Hidx & _).
  rewrite <- Hr in *. clear Hr.
  destruct (wf_wait s Hwf _ _ Htid) as (Hl & p' & Hp' & Hkey). cbn in Hl, Hp', Hkey.
  assert (p' = p) as -> by congruence. clear Hp'.
  pose proof (wf_count s Hwf l p Hp) as Hcnt.
  pose proof (count_delete l (waiting s) tid _ Htid) as Hcd. cbn in Hcd.
  rewrite decide_True in Hcd by done.
  set (lastb := bool_decide (waiters p - 1 ≤ 0)) in *.
  assert (∀ l0 p1, heap r' !! l0 = Some p1 → ∃ p0, heap (reg s) !! l0 = Some p0 ∧
    key_of p1 = key_of p0 ∧ decision p1 = decision p0 ∧ event p1 = event p0 ∧
    waiters p1 = waiters p0 - if decide (l = l0) then 1 else 0) as Hbwd.
  { intros l0 p1. rewrite Hh, list_lookup_insert. case_decide as E.
    - destruct E as [<- _]. intros [= <-]. exists p. unfold leaves, claimed.
      destruct (claims q p); (split_and!; [done..|]); cbn; by case_decide.
    - intros H1. exists p1. split_and!; [done..|]. case_decide; [|lia]. subst.
      destruct E. split; [done|by eapply lookup_lt_Some]. }
  assert (∀ l0 p0, heap (reg s) !! l0 = Some p0 → ∃ p1, heap r' !! l0 = Some p1 ∧
    key_of p1 = key_of p0 ∧ waiters p1 = waiters p0 - if decide (l = l0) then 1 else 0) as Hfwd.
  { intros l0 p0 H0. destruct (lookup_lt_is_Some_2 (heap r') l0) as [p1 H1].
    { rewrite Hh, length_insert. by eapply lookup_lt_Some. }
    destruct (Hbwd _ _ H1) as (p00 & H00 & ? & _ & _ & ?). assert (p00 = p0) as -> by congruence. eauto. }
  assert (∀ c cid0 l0, dget (pend (reg s) c) cid0 = Some l0 → lastb = true → l0 ≠ l →
    dget (pend r' c) cid0 = Some l0) as Hkeep.
  { intros c cid0 l0 H0 Hlast Hne. rewrite Hpend, Hlast. cbn. case_bool_decide; [|done]. subst c.
    rewrite dget_dpop_ne; [done|]. intros ->. congruence. }
  assert (∀ c cid0 l0, dget (pend r' c) cid0 = Some l0 →
    dget (pend (reg s) c) cid0 = Some l0 ∧ (lastb = true → l0 ≠ l)) as Hback.
  { intros c cid0 l0. rewrite Hpend. destruct lastb; cbn; [|intros; split; done].
    case_bool_decide as Ec.
    - subst c. destruct (decide (cid0 = cid)) as [->|Hne].
      + destruct (wf_dicts s Hwf) as [_ Hnd]. destruct (Hnd (req_chat q)) as [Hn _].
        by rewrite dget_dpop_eq.
      + rewrite dget_dpop_ne by done. intros H0. split; [done|]. intros _ ->.
        by destruct (wf_inj s _ _ _ _ l Hwf Hl H0).
    - intros H0. split; [done|]. intros _ ->. by destruct (wf_inj s _ _ _ _ l Hwf Hl H0). }
  assert (∀ c cid0 l0, dget (pend (reg s) c) cid0 = Some l0 → (lastb = true → l0 ≠ l) →
    dget (pend r' c) cid0 = Some l0) as Hkeep2.
  { intros c cid0 l0 H0 Hne. destruct lastb eqn:El; [by apply Hkeep; auto|]. by rewrite Hpend. }
  assert (∀ c k x, dget (idx r' c) k = Some x → dget (idx (reg s) c) k = Some x ∧
    (lastb = true → c = req_chat q → x = cid → k ≠ req_key q)) as Hiback.
  { intros c k x. rewrite Hidx. destruct lastb; cbn; [|intros; split; done].
    case_bool_decide as Ec; [|intros; split; [done|congruence]]. subst c. unfold index_after.
    destruct (wf_dicts s Hwf) as [_ Hnd]. destruct (Hnd (req_chat q)) as [_ Hn].
    case_bool_decide as Ei.
    - destruct (decide (k = req_key q)) as [->|Hne]; [by rewrite dget_dpop_eq|].
      rewrite dget_dpop_ne by done. intros; split; done.
    - intros H0. split; [done|]. intros _ _ -> ->. done. }
  constructor; cbn.
  - done.
  - intros c cid0 l0 H0. destruct (Hback _ _ _ H0) as [H1 Hne].
    destruct (wf_ref s Hwf _ _ _ H1) as (? & p0 & Hp0 & Hpos). split; [done|].
    destruct (Hfwd _ _ Hp0) as (p1 & ? & _ & Hw1). exists p1. split; [done|]. rewrite Hw1.
    case_decide; [subst l0|lia]. assert (p0 = p) as -> by congruence.
    destruct (decide (waiters p - 1 ≤ 0)); [|lia].
    destruct Hne; [|done]. unfold lastb. by apply bool_decide_eq_true.
  - intros l0 p1 H1. destruct (Hbwd _ _ H1) as (p0 & H0 & _ & _ & _ & ->).
    pose proof (count_delete l0 (waiting s) tid _ Htid) as Hc0. cbn in Hc0.
    rewrite (wf_count s Hwf _ _ H0). case_decide; lia.
  - intros t su Ht. apply lookup_delete_Some in Ht as [Hnt Ht].
    destruct (wf_wait s Hwf _ _ Ht) as (Hl0 & p0 & Hp0 & Hk0).
    destruct (Hfwd _ _ Hp0) as (p1 & ? & Hk1 & _). split; [|exists p1; split; [done|congruence]].
    apply Hkeep2; [done|]. intros Hlast Eq. apply bool_decide_eq_true in Hlast.
    pose proof (count_delete l (delete tid (waiting s)) t su) as Hc2.
    rewrite lookup_delete_ne in Hc2 by done. specialize (Hc2 Ht). rewrite decide_True in Hc2 by done. lia.
  - intros c cid0 l0 t su H0 Ht. apply lookup_delete_Some in Ht as [_ Ht].
    destruct (Hback _ _ _ H0) as [H1 _]. by eapply (wf_home s Hwf).
  - intros c k x Hx. destruct (Hiback _ _ _ Hx) as [H0 Hne].
    destruct (wf_idx s Hwf _ _ _ H0) as (l0 & p0 & Hl0 & Hp0 & Hk0).
    destruct (Hfwd _ _ Hp0) as (p1 & ? & Hk1 & _). exists l0, p1.
    split_and!; [|done|congruence]. apply Hkeep2; [done|]. intros Hlast ->.
    destruct (wf_inj s _ _ _ _ l Hwf Hl Hl0) as [<- <-]. assert (p0 = p) as -> by congruence.
    destruct Hne; [done..|]. congruence.
  - intros c cid0 l0 p1 H0 H1 Hd1. destruct (Hback _ _ _ H0) as [H0' Hne].
    destruct (Hbwd _ _ H1) as (p0 & Hp0 & Hk & Hdd & _). rewrite Hk.
    pose proof (wf_live s Hwf _ _ _ _ H0' Hp0 ltac:(congruence)) as Hx.
    rewrite Hidx. destruct lastb; cbn; [|done]. case_bool_decide; [|done]. subst c.
    unfold index_after. case_bool_decide as Ei; [|done].
    destruct (decide (key_of p0 = req_key q)) as [Ek|Ek]; [|by rewrite dget_dpop_ne].
    exfalso. rewrite Ek, Ei in Hx. injection Hx as ->. apply Hne; [done|]. congruence.
  - intros l0 p1 H1 Hd1. destruct (Hbwd _ _ H1) as (p0 & Hp0 & _ & Hdd & -> & _).
    apply (wf_awake s Hwf _ _ Hp0). by rewrite <- Hdd.
Qed.

Lemma wf_log r' w k l1 l2 : wf (mkSys r' w k l1) → wf (mkSys r' w k l2).
Proof. by destruct 1. Qed.

(** Steps that leave the items alone. *)
Lemma wf_same s r' log' :
  wf s → dicts_ok r' → same_chats (reg s) r' → heap r' = heap (reg s) →
  wf (mkSys r' (waiting s) (waking s) log').
Proof.
  intros Hwf Hd Hs Hh. apply (wf_update s); [done|done| |by rewrite Hh|].
  - intros c. by destruct (Hs c) as (-> & -> & _).
  - rewrite Hh. intros l p Hp. exists p. split_and!; [done..|]. by apply (wf_awake s Hwf).
Qed.

Lemma with_live_spec {A} (none : A) some now chat r :
  let r' := (with_live none some now chat r).2 in
  dicts_ok r → dicts_ok r' ∧ same_chats r r' ∧ heap r' = heap r.
Proof.
  intros r' Hd. unfold r', with_live. destruct chat as [[|a c]|]; [done| |done].
  destruct (dget (chats r) _) as [st|] eqn:E; [|done].
  destruct (live_items r st); [done|]. cbn.
  assert (chat_of r (String.String a c) = st) as Hst by (unfold chat_of; by rewrite E).
  destruct (Hd) as [_ Hnd]. destruct (Hnd (String.String a c)) as [H1 H2].
  unfold pend, idx in H1, H2. rewrite Hst in H1, H2.
  split_and!; [by apply put_dicts|apply put_same; unfold pend, idx, allows; by rewrite Hst|done].
Qed.

Lemma allow_session_spec now1 now2 chat r :
  chat ≠ "" → dicts_ok r →
  let r' := allow_session now1 now2 (Some chat) r in
  dicts_ok r' ∧ heap r' = heap r ∧
  ∀ c, pend r' c = pend r c ∧ idx r' c = idx r c ∧
    allows r' c ⊆ (if decide (chat = c) then {[ (KIND_MYSPACE, "") ]} else ∅) ∪ allows r c.
Proof.
  intros Hne Hd. unfold allow_session. destruct chat as [|a cs]; [done|].
  set (chat := String.String a cs).
  destruct (_get_chat now1 chat r) as [st r1] eqn:E.
  destruct (get_chat_spec _ _ _ _ _ Hd E) as (Hd1 & Hs & Hh & E1 & E2 & E3 & E4).
  destruct (Hd) as [_ Hnd]. destruct (Hnd chat) as [H1 H2]. cbn zeta.
  split_and!; [apply put_dicts; [done|cbn; by rewrite E1|cbn; by rewrite E2]|done|].
  intros c. unfold pend, idx, allows. rewrite chat_of_put. case_decide.
  - subst c. split_and!; [done..|]. cbn. rewrite E3. done.
  - destruct (Hs c) as (? & ? & ?). split_and!; [done..|]. set_solver.
Qed.

Lemma wf_init : wf init_sys.
Proof.
  constructor; cbn; try done.
  - split; [constructor|]. intros c. split; constructor.
Qed.

Lemma ruled_keeps chat cid d o l p ls r l0 p0 p1 :
  ruled chat cid d o l p ls r l0 p0 p1 →
  static_eq p0 p1 ∧ waiters p1 = waiters p0 ∧ performed p1 = performed p0 ∧ event p1 = event p0 ∧
  (decision p1 = None → decision p0 = None).
Proof.
  destruct 1 as [|p1 -> -> Hc|]; [done| |done].
  apply check_decision_keeps in Hc as (? & ? & ? & ? & ? & _). done.
Qed.

Lemma wf_step s s' : wf s → step s s' → wf s'.
Proof.
  intros Hwf. pose proof (wf_dicts s Hwf) as Hd.
  assert (∀ c, pend (reg s) c = [] → idx (reg s) c = []) as Hemp by (intros; by eapply wf_empty_chat).
  destruct 1 as [s tid q wording now now2 now3 cid v r Ht Hf He
    |s tid q wording now now2 now3 cid cid' l r Ht Hf He|s tid q cid l w v r Ht Ha Hr
    |s tid q cid l p r Ht Hp Hr|s now chat cid d o d' op' path' cids r l ls Hs
    |s l w1 w2 Hk|s now1 now2 chat Hne|s now chat|s now chat].
  - apply enter_spec in He as (Hd' & He & _); [|done..]. inversion He; subst. by apply (wf_same s).
  - apply enter_spec in He as (Hd' & He & _); [|done..]. inversion He; subst; cbn.
    + eapply wf_log. eapply (wf_enter_join s); eauto.
    + eapply wf_log, (wf_enter_new s); eauto; by destruct q.
  - destruct (wf_wait s Hwf _ _ Ht) as (_ & p & Hp & _). cbn in Hp.
    eapply wf_log. eapply (wf_leave s _ _ _ _ p _ w); eauto. by rewrite Hr.
  - eapply wf_log. eapply (wf_leave s _ _ _ _ p _ Cancelled); eauto. by rewrite Hr.
  - destruct (set_decision_spec _ _ _ _ _ _ _ _ _ _ _ _ Hd Hs)
      as (l1 & p & p1 & Hl & Hp & Hc & Hd' & Hsame & Hlen & [ls' Hin] & Hback).
    injection Hin as <- <-.
    apply (wf_update s); [done|done| |done|].
    { intros c. by destruct (Hsame c) as (? & ? & _). }
    intros l0 p' Hp'. destruct (Hback _ _ Hp') as (p0 & H0 & Hru).
    destruct (ruled_keeps _ _ _ _ _ _ _ _ _ _ _ Hru) as (? & ? & _ & Hev & ?).
    exists p0. split_and!; [done..|]. intros Hdec. rewrite Hev.
    destruct (decide (decision p0 = None)) as [Hn|Hn].
    + right. apply elem_of_app. right. destruct Hru; [done| |done]. subst. left.
    + destruct (wf_awake s Hwf _ _ H0 Hn) as [?|?]; [by left|right]. apply elem_of_app. by left.
  - unfold set_event. destruct (heap (reg s) !! l) as [p|] eqn:Hp.
    + apply (wf_update s); [done|done|done|apply length_insert|]. cbn.
      intros l0 p'. rewrite list_lookup_insert. case_decide as E.
      * destruct E as [-> _]. intros [= <-]. exists p. split_and!; try done. by left.
      * intros H0. exists p'. split_and!; [done..|]. intros Hdec.
        destruct (wf_awake s Hwf _ _ H0 Hdec) as [?|Hin]; [by left|right].
        rewrite Hk in Hin. apply elem_of_app in Hin as [?|Hin]; [set_solver|].
        apply elem_of_cons in Hin as [->|?]; [|set_solver]. destruct E. split; [done|].
        by eapply lookup_lt_Some.
    + apply (wf_update s); [done..|]. cbn. intros l0 p' H0. exists p'. split_and!; [done..|]. intros Hdec.
      destruct (wf_awake s Hwf _ _ H0 Hdec) as [?|Hin]; [by left|right].
      rewrite Hk in Hin. apply elem_of_app in Hin as [?|Hin]; [set_solver|].
      apply elem_of_cons in Hin as [->|?]; [congruence|set_solver].
  - destruct (allow_session_spec now1 now2 chat (reg s) Hne Hd) as (Hd' & Hh & Hsame).
    apply (wf_update s); [done|done| |exact (f_equal length Hh)|].
    + intros c. by destruct (Hsame c) as (? & ? & _).
    + intros l p Hp. change (heap (allow_session now1 now2 (Some chat) (reg s)) !! l = Some p) in Hp.
      rewrite Hh in Hp. exists p. split_and!; [done..|]. by apply (wf_awake s Hwf).
  - destruct (with_live_spec None (λ live, match latest live with
      | Some (cid, p) => Some (_pending_to_info cid p) | None => None end) now chat (reg s) Hd)
      as (? & ? & ?). by apply (wf_same s).
  - destruct (with_live_spec [] (λ live, map (λ cp, _pending_to_info cp.1 cp.2) (order_by by_ts live))
      now chat (reg s) Hd) as (? & ? & ?). by apply (wf_same s).
Qed.

Lemma reachable_wf s : reachable s → wf s.
Proof. induction 1; [apply wf_init|by eapply wf_step]. Qed.

(** ** Where permissions come from *)

Lemma static_valid_ids p p' : static_eq p p' → valid_ids p' = valid_ids p.
Proof. intros (_ & _ & _ & E). unfold valid_ids. by rewrite E. Qed.

Lemma grant_in_mono h h' pre pre' c k sc :
  heap_le h h' → pre ⊆ pre' → grant_in h pre c k sc → grant_in h' pre' c k sc.
Proof.
  intros Hh Hp. destruct 1 as [? ? ?|l p o ? Hl -> ? ->]; [apply grant_pre; auto|].
  destruct (Hh l p Hl) as (p' & Hl' & _ & E2 & E3 & _).
  apply (grant_user _ _ _ _ _ l p' o); [by apply Hp|done|done|done|by rewrite E2].
Qed.

Lemma decision_from_mono h h' pre pre' c l d :
  heap_le h h' → pre ⊆ pre' → decision_from h pre c l d → decision_from h' pre' c l d.
Proof.
  intros Hh Hp. destruct 1 as [o Ho|p l' p' o H1 H2 Ho -> Hk Hn Hcov].
  - apply (from_user _ _ _ _ _ o). auto.
  - destruct (Hh l p H1) as (q & Hq & _ & E2 & E3 & _), (Hh l' p' H2) as (q' & Hq' & _ & F2 & F3 & _).
    apply (from_cascade _ _ _ _ _ q l' q' o); [done..|by apply Hp|done|congruence|congruence|].
    by rewrite F2, F3, E2.
Qed.

Lemma entry_justified_mono h h' pre e :
  heap_le h h' → entry_justified h pre e → entry_justified h' pre e.
Proof.
  intros Hh. destruct e as [tid [settings a|a] [|st|o] item| | |]; cbn; try done.
  - destruct item as [l|]; cbn.
    + intros (Hi & p & d & Hl & Hk & Ha & Hd). split; [done|].
      destruct (Hh l p Hl) as (p' & Hl' & E1 & E2 & _). exists p', d.
      split_and!; [done| |done|by eapply decision_from_mono].
      rewrite <- Hk. unfold key_of. congruence.
    + intros [?|(Hi & c & sc & ? & ? & Hg & ?)]; [by left|right]. split; [done|].
      exists c, sc. split_and!; [done..| |done]. by eapply grant_in_mono.
  - intros (l & p & -> & Hl & Hk & Ho & Hin & Hv). destruct (Hh l p Hl) as (p' & Hl' & Hs).
    exists l, p'. split_and!; [done|done| |done|done|by rewrite (static_valid_ids p p')].
    destruct Hs as (E1 & E2 & _). rewrite <- Hk. unfold key_of. congruence.
Qed.

Definition dup_ok (pre : list entry) (e : entry) : Prop :=
  match e with
  | Answered _ (RGate _ _) (Intercept st) (Some l) =>
      st = "deduplicated" → (0 < claims_of l pre)%nat
  | _ => True
  end.

Record just (s : Sys) : Prop := {
  ju_allow c k sc : (k, sc) ∈ allows (reg s) c → grant_in (heap (reg s)) (log s) c k sc;
  ju_dec tid su p d : waiting s !! tid = Some su → heap (reg s) !! s_loc su = Some p →
    decision p = Some d →
    decision_from (heap (reg s)) (log s) (req_chat (s_req su)) (s_loc su) d;
  ju_choice tid su p o : waiting s !! tid = Some su → heap (reg s) !! s_loc su = Some p →
    choice p = Some o →
    o ≠ "" ∧ o ∈ valid_ids p ∧
    Decided (s_loc su) (req_chat (s_req su)) DECISION_CHOICE (Some o) ∈ log s;
  ju_open l p : heap (reg s) !! l = Some p → decision p = None → choice p = None;
  ju_asked tid su : waiting s !! tid = Some su → asked (s_req su);
  ju_perf l p : heap (reg s) !! l = Some p →
    claims_of l (log s) = if performed p then 1%nat else 0%nat;
  ju_none l : heap (reg s) !! l = None → claims_of l (log s) = 0%nat;
  ju_log pre e post : log s = pre ++ e :: post →
    entry_justified (heap (reg s)) pre e ∧ dup_ok pre e
}.

Lemma log_snoc (es : list entry) e pre x post :
  es ++ [e] = pre ++ x :: post → pre = es ∧ x = e ∨ ∃ post', es = pre ++ x :: post'.
Proof.
  destruct post as [|y post] using rev_ind.
  - intros E. apply app_inj_tail in E as [-> ->]. by left.
  - rewrite app_comm_cons, app_assoc. intros E. apply app_inj_tail in E as [-> _]. right. eauto.
Qed.

(** The log grows by one entry, justified when it is written. *)
Lemma just_log_snoc s h e pre x post :
  just s → heap_le (heap (reg s)) h →
  entry_justified h (log s) e → dup_ok (log s) e →
  log s ++ [e] = pre ++ x :: post → entry_justified h pre x ∧ dup_ok pre x.
Proof.
  intros Hj Hh He Hd Hl. apply log_snoc in Hl as [[-> ->]|[post' Hl]]; [done|].
  destruct (ju_log s Hj _ _ _ Hl). split; [by eapply entry_justified_mono|done].
Qed.

Lemma claims_snoc l es e : claims_of l (es ++ [e]) = (claims_of l es + if claim_of l e then 1 else 0)%nat.
Proof.
  unfold claims_of. rewrite List.filter_app, length_app. cbn. by destruct (claim_of l e).
Qed.

Lemma heap_le_back h h' :
  length h' = length h →
  (∀ l p', h' !! l = Some p' → ∃ p, h !! l = Some p ∧ static_eq p p') → heap_le h h'.
Proof.
  intros Hlen Hb l p Hl. destruct (lookup_lt_is_Some_2 h' l) as [p' Hp'].
  { rewrite Hlen. by eapply lookup_lt_Some. }
  destruct (Hb l p' Hp') as (p0 & H0 & Hs). assert (p0 = p) as -> by congruence. eauto.
Qed.

(** Steps that suspend or resume nobody, and log at most a non-claiming entry. *)
Lemma just_update s r' waking' es :
  just s → length (heap r') = length (heap (reg s)) →
  (∀ l p', heap r' !! l = Some p' → ∃ p, heap (reg s) !! l = Some p ∧ static_eq p p' ∧
     performed p' = performed p ∧
     (decision p' = decision p ∧ choice p' = choice p ∨
      is_Some (decision p') ∧ ∀ tid su, waiting s !! tid = Some su → s_loc su = l →
        (∀ d, decision p' = Some d →
           decision_from (heap r') (log s ++ es) (req_chat (s_req su)) l d) ∧
        (choice p' = choice p ∨ ∃ o, choice p' = Some o ∧ o ≠ "" ∧ o ∈ valid_ids p ∧
           Decided l (req_chat (s_req su)) DECISION_CHOICE (Some o) ∈ log s ++ es))) →
  (∀ c k sc, (k, sc) ∈ allows r' c →
     (k, sc) ∈ allows (reg s) c ∨ grant_in (heap r') (log s ++ es) c k sc) →
  (∀ l, claims_of l (log s ++ es) = claims_of l (log s)) →
  (∀ pre e post, log s ++ es = pre ++ e :: post → entry_justified (heap r') pre e ∧ dup_ok pre e) →
  just (mkSys r' (waiting s) waking' (log s ++ es)).
Proof.
  intros Hj Hlen Hb Hal Hcl Hlog.
  assert (heap_le (heap (reg s)) (heap r')) as Hle.
  { apply heap_le_back; [done|]. intros l p' Hp'. destruct (Hb l p' Hp') as (p & ? & ? & _). eauto. }
  assert (log s ⊆ log s ++ es) as Hsub by set_solver.
  constructor; cbn -[claims_of].
  - intros c k sc Hin. destruct (Hal c k sc Hin) as [?|?]; [|done].
    eapply grant_in_mono; [done..|]. by apply (ju_allow s Hj).
  - intros tid su p' d Hw Hp' Hd. destruct (Hb _ _ Hp') as (p & Hp & _ & _ & [[E1 _]|[_ Hn]]).
    + eapply decision_from_mono; [done..|]. eapply (ju_dec s Hj); eauto. congruence.
    + by apply (Hn tid su Hw eq_refl).
  - intros tid su p' o Hw Hp' Ho. destruct (Hb _ _ Hp') as (p & Hp & Hs & _ & Hc).
    rewrite (static_valid_ids p p' Hs).
    assert (choice p = Some o → o ≠ "" ∧ o ∈ valid_ids p ∧
      Decided (s_loc su) (req_chat (s_req su)) DECISION_CHOICE (Some o) ∈ log s ++ es) as Hold.
    { intros Hpo. destruct (ju_choice s Hj _ _ _ _ Hw Hp Hpo) as (? & ? & ?). set_solver. }
    destruct Hc as [[_ E2]|[_ Hn]]; [apply Hold; congruence|].
    destruct (Hn tid su Hw eq_refl) as [_ [E2|(o' & Ho' & ? & ? & ?)]]; [apply Hold; congruence|].
    by assert (o' = o) as -> by congruence.
  - intros l p' Hp' Hd. destruct (Hb _ _ Hp') as (p & Hp & _ & _ & [[E1 E2]|[[d Hs] _]]); [|congruence].
    rewrite E2. eapply (ju_open s Hj); eauto. congruence.
  - apply (ju_asked s Hj).
  - intros l p' Hp'. destruct (Hb _ _ Hp') as (p & Hp & _ & -> & _). rewrite Hcl. by apply (ju_perf s Hj).
  - intros l Hn. rewrite Hcl. apply (ju_none s Hj). apply lookup_ge_None. rewrite <- Hlen.
    by apply lookup_ge_None.
  - done.
Qed.

Lemma just_same s r' e :
  just s → heap r' = heap (reg s) → (∀ c, allows r' c ⊆ allows (reg s) c) →
  (∀ l, claim_of l e = false) → entry_justified (heap (reg s)) (log s) e → dup_ok (log s) e →
  just (mkSys r' (waiting s) (waking s) (log s ++ [e])).
Proof.
  intros Hj Hh Hal Hcl He Hd. apply just_update; rewrite ?Hh; [done|done| | | |].
  - intros l p Hp. exists p. split_and!; [done..|]. by left.
  - intros c k sc Hin. left. by apply Hal.
  - intros l. rewrite claims_snoc, Hcl. lia.
  - intros pre x post. apply just_log_snoc; [done|apply heap_le_refl|done..].
Qed.

(** ** Answers given at once *)

Lemma short_justified s q st r1 v tid :
  just s → session_allows st ⊆ allows (reg s) (req_chat q) → short_answer q st r1 v →
  entry_justified (heap (reg s)) (log s) (Answered tid q v None).
Proof.
  intros Hj Hal. destruct q as [settings a|a]; cbn.
  - intros [[Hc ->]|[[Hi ->]|[Hi Hs]]]; [by left|done|]. unfold _session_allowed in Hs.
    destruct (g_chat a) as [[|ch cs]|] eqn:Ec; [done| |done].
    set (c := String.String ch cs) in *.
    destruct (existsb _ _) eqn:Ex; [|done]. injection Hs as <-.
    apply existsb_exists in Ex as ([k sc] & Hin & Hk). cbn in Hk. bool_simpl. subst k.
    apply list_elem_of_In, elem_of_elements in Hin. right. split; [done|].
    exists c, sc. split_and!; [done|done| |done]. apply (ju_allow s Hj).
    apply Hal in Hin. cbn in Hin. unfold chat_key in Hin. by rewrite Ec in Hin.
  - intros [[_ ->]|Hs]; [done|]. unfold _reject_concurrent in Hs. by case_match; simplify_eq.
Qed.

(** ** Coroutines that suspend and resume *)

Lemma just_suspend s tid su r' :
  just s → waiting s !! tid = None → heap_le (heap (reg s)) (heap r') →
  (∀ l p', heap r' !! l = Some p' →
     (∃ p, heap (reg s) !! l = Some p ∧ static_eq p p' ∧ performed p' = performed p ∧
        decision p' = decision p ∧ choice p' = choice p) ∨
     heap (reg s) !! l = None ∧ performed p' = false ∧ decision p' = None ∧ choice p' = None) →
  (∀ p', heap r' !! s_loc su = Some p' → decision p' = None) →
  (∀ c, allows r' c ⊆ allows (reg s) c) → asked (s_req su) →
  just (mkSys r' (<[tid := su]> (waiting s)) (waking s) (log s)).
Proof.
  intros Hj Htid Hle Hb Hsu Hal Hask.
  assert (∀ l p', heap r' !! l = Some p' → decision p' = None → choice p' = None) as Hopen.
  { intros l p' Hp' Hd. destruct (Hb _ _ Hp') as [(p & Hp & _ & _ & E1 & E2)|(_ & _ & _ & ?)]; [|done].
    rewrite E2. eapply (ju_open s Hj); eauto. congruence. }
  assert (∀ t su0, waiting s !! t = Some su0 → ∀ p', heap r' !! s_loc su0 = Some p' →
    decision p' ≠ None → ∃ p, heap (reg s) !! s_loc su0 = Some p ∧ static_eq p p' ∧
      decision p' = decision p ∧ choice p' = choice p) as Hold.
  { intros t su0 Ht p' Hp' Hd. destruct (Hb _ _ Hp') as [(p & ? & ? & _ & ? & ?)|(_ & _ & ? & _)]; [eauto|done]. }
  constructor; cbn -[claims_of].
  - intros c k sc Hin. eapply grant_in_mono; [done..|]. apply (ju_allow s Hj). by apply Hal.
  - intros t su0 p' d Ht Hp' Hd. apply lookup_insert_Some in Ht as [[<- <-]|[_ Ht]].
    + by rewrite (Hsu _ Hp') in Hd.
    + destruct (Hold t su0 Ht p' Hp' ltac:(congruence)) as (p & Hp & _ & E1 & _).
      eapply decision_from_mono; [done..|]. eapply (ju_dec s Hj); eauto. congruence.
  - intros t su0 p' o Ht Hp' Ho. apply lookup_insert_Some in Ht as [[<- <-]|[_ Ht]].
    + rewrite (Hopen _ _ Hp') in Ho; [done|by apply Hsu].
    + destruct (decide (decision p' = None)) as [Hn|Hn]; [by rewrite (Hopen _ _ Hp' Hn) in Ho|].
      destruct (Hold t su0 Ht p' Hp' Hn) as (p & Hp & Hs & _ & E2).
      rewrite (static_valid_ids p p' Hs). eapply (ju_choice s Hj); eauto. congruence.
  - done.
  - intros t su0 Ht. apply lookup_insert_Some in Ht as [[<- <-]|[_ Ht]]; [done|by eapply (ju_asked s Hj)].
  - intros l p' Hp'. destruct (Hb _ _ Hp') as [(p & Hp & _ & -> & _)|(Hn & -> & _)].
    + by apply (ju_perf s Hj).
    + by apply (ju_none s Hj).
  - intros l Hn. apply (ju_none s Hj). destruct (heap (reg s) !! l) as [p|] eqn:E; [|done].
    destruct (Hle l p E) as (? & ? & _). congruence.
  - intros pre e post Hl. destruct (ju_log s Hj _ _ _ Hl). split; [by eapply entry_justified_mono|done].
Qed.

Lemma claims_performed q p :
  performed (leaves q p) = claims q p || performed p ∧ (claims q p = true → performed p = false) ∧
  decision (leaves q p) = decision p ∧ choice (leaves q p) = choice p.
Proof.
  unfold leaves, claimed. destruct q as [settings a|a]; cbn; [|done].
  destruct (is_allow (default _DECISION_TIMEOUT (decision p))), (performed p) eqn:E; cbn; by rewrite ?E.
Qed.

(** The entry a resumed or cancelled coroutine leaves in the log. *)
Inductive leaving (tid : nat) (q : request) (l : loc) (p : Pending) : entry → Prop :=
| leaving_answer : leaving tid q l p (Answered tid q (told q p) (Some l))
| leaving_cancel : leaving tid q l p (CancelledCall tid q l (claims q p)).

Lemma told_pass settings a p :
  told (RGate settings a) p = Pass ↔ claims (RGate settings a) p = true.
Proof.
  unfold told, gate_verdict. cbn [claims].
  destruct (is_allow _); cbn; [by destruct (performed p)|]. by case_bool_decide.
Qed.

Lemma leaving_claim tid q l p e l0 :
  leaving tid q l p e → claim_of l0 e = bool_decide (l = l0) && claims q p.
Proof.
  destruct 1; [|done]. destruct q as [settings a|a]; cbn [claim_of claims].
  - pose proof (told_pass settings a p) as Ht. cbn [claims] in Ht.
    destruct (told (RGate settings a) p); destruct (_ && _); cbn;
      rewrite ?andb_true_r, ?andb_false_r; try done; naive_solver.
  - by rewrite andb_false_r.
Qed.

Lemma told_justified s tid q cid l p :
  wf s → just s → waiting s !! tid = Some (mkSusp q cid l) → heap (reg s) !! l = Some p →
  entry_justified (heap (reg s)) (log s) (Answered tid q (told q p) (Some l)) ∧
  dup_ok (log s) (Answered tid q (told q p) (Some l)).
Proof.
  intros Hwf Hj Ht Hp. destruct (wf_wait s Hwf _ _ Ht) as (_ & p' & Hp' & Hk). cbn in Hp', Hk.
  assert (p' = p) as -> by congruence. destruct q as [settings a|a].
  - pose proof (told_pass settings a p) as Hpass.
    destruct (told (RGate settings a) p) as [|st|o] eqn:Et; cbn.
    + split; [|done]. split; [by apply (ju_asked s Hj _ _ Ht)|].
      destruct Hpass as [Hc _]. specialize (Hc eq_refl). cbn in Hc. bool_simpl.
      destruct (decision p) as [d|] eqn:Ed; [|done]. exists p, d. split_and!; [done..|].
      by apply (ju_dec s Hj _ _ _ _ Ht Hp Ed).
    + split; [done|]. intros ->. rewrite (ju_perf s Hj _ _ Hp). revert Et.
      unfold told, gate_verdict. cbn [claims].
      destruct (is_allow _); cbn; [destruct (performed p); cbn; [lia|done]|].
      by case_bool_decide.
    + revert Et. unfold told, gate_verdict. repeat case_match; done.
  - split; [|done]. cbn [told]. unfold pick_verdict.
    destruct (bool_decide (_ = DECISION_CHOICE)) eqn:Ec;
      [|by destruct (bool_decide (_ = DECISION_SKIP))].
    assert (entry_justified (heap (reg s)) (log s) (Answered tid (RPick a)
      (if bool_decide (default _DECISION_TIMEOUT (decision p) = DECISION_SKIP)
       then Intercept "skipped" else Intercept "timeout") (Some l))) as Hskip
      by by destruct (bool_decide (_ = DECISION_SKIP)).
    destruct (choice p) as [[|ch o]|] eqn:Eo; [done| |done].
    destruct (ju_choice s Hj _ _ _ _ Ht Hp Eo) as (? & ? & ?). cbn in *. by exists l, p.
Qed.

Lemma just_leave s tid q cid l p r' e :
  wf s → just s → waiting s !! tid = Some (mkSusp q cid l) → heap (reg s) !! l = Some p →
  heap r' = <[l := leaves q p]> (heap (reg s)) → (∀ c, allows r' c = allows (reg s) c) →
  leaving tid q l p e →
  just (mkSys r' (delete tid (waiting s)) (waking s) (log s ++ [e])).
Proof.
  intros Hwf Hj Ht Hp Hh Hal He.
  destruct (claims_performed q p) as (Hperf & Hfirst & Hdec & Hcho).
  assert (heap_le (heap (reg s)) (heap r')) as Hle.
  { rewrite Hh. apply (heap_le_insert _ _ p); [done|apply static_leaves]. }
  assert (∀ l0 p', heap r' !! l0 = Some p' → ∃ p0, heap (reg s) !! l0 = Some p0 ∧ static_eq p0 p' ∧
    decision p' = decision p0 ∧ choice p' = choice p0 ∧
    performed p' = (bool_decide (l = l0) && claims q p) || performed p0 ∧
    (bool_decide (l = l0) && claims q p = true → performed p0 = false)) as Hb.
  { intros l0 p'. rewrite Hh, list_lookup_insert. case_decide as E.
    - destruct E as [<- _]. intros [= <-]. exists p. rewrite bool_decide_true by done.
      split_and!; try done. apply static_leaves.
    - intros Hp'. exists p'. assert (l ≠ l0) as Hne.
      { intros ->. apply E. split; [done|by eapply lookup_lt_Some]. }
      by rewrite bool_decide_false by done. }
  constructor; cbn -[claims_of].
  - intros c k sc Hin. rewrite Hal in Hin.
    eapply grant_in_mono; [done| |by apply (ju_allow s Hj)]. set_solver.
  - intros t su p' d Hw Hp' Hd. apply lookup_delete_Some in Hw as [_ Hw].
    destruct (Hb _ _ Hp') as (p0 & Hp0 & _ & E1 & _). eapply decision_from_mono; [done| |].
    2:{ eapply (ju_dec s Hj); eauto. congruence. } set_solver.
  - intros t su p' o Hw Hp' Ho. apply lookup_delete_Some in Hw as [_ Hw].
    destruct (Hb _ _ Hp') as (p0 & Hp0 & Hs & _ & E2 & _). rewrite (static_valid_ids p0 p' Hs).
    destruct (ju_choice s Hj _ _ _ o Hw Hp0) as (? & ? & ?); [congruence|]. set_solver.
  - intros l0 p' Hp' Hd. destruct (Hb _ _ Hp') as (p0 & Hp0 & _ & E1 & E2 & _). rewrite E2.
    eapply (ju_open s Hj); eauto. congruence.
  - intros t su Hw. apply lookup_delete_Some in Hw as [_ Hw]. by eapply (ju_asked s Hj).
  - intros l0 p' Hp'. destruct (Hb _ _ Hp') as (p0 & Hp0 & _ & _ & _ & E3 & E4).
    rewrite claims_snoc, (leaving_claim _ _ _ _ _ _ He), (ju_perf s Hj _ _ Hp0), E3.
    destruct (_ && _); cbn; [rewrite E4 by done; lia|]. lia.
  - intros l0 Hn. rewrite claims_snoc, (leaving_claim _ _ _ _ _ _ He).
    assert (heap (reg s) !! l0 = None) as Hn0.
    { destruct (heap (reg s) !! l0) as [p0|] eqn:E; [|done].
      destruct (Hle _ _ E) as (? & ? & _). congruence. }
    rewrite (ju_none s Hj _ Hn0). case_bool_decide; [congruence|done].
  - intros pre x post. destruct (told_justified s tid q cid l p Hwf Hj Ht Hp) as [J1 J2].
    apply just_log_snoc; [done|done|by destruct He; [eapply entry_justified_mono|]|by destruct He].
Qed.

Lemma just_enter s tid q wording now now2 now3 cid cid' l r' :
  wf s → just s → waiting s !! tid = None → fresh_cid (req_chat q) cid (reg s) →
  enter q wording now now2 now3 cid (reg s) = (inr (cid', l), r') →
  just (mkSys r' (<[tid := mkSusp q cid' l]> (waiting s)) (waking s) (log s)).
Proof.
  intros Hwf Hj Ht Hf He.
  apply enter_spec in He as (_ & He & Hask); [|apply (wf_dicts s Hwf)|intros; by eapply wf_empty_chat].
  inversion He as [|? ? p Hi Hne Hl Hp Hdec Hh Hsame|Hold Hh Hpend Hidx Hal]; subst.
  - apply just_suspend; cbn; [done|done| | | |intros c; by destruct (Hsame c) as (_ & _ & ?)|done].
    + rewrite Hh. by apply (heap_le_insert _ _ p).
    + intros l0 p'. rewrite Hh, list_lookup_insert. case_decide as E; intros Hp'.
      * destruct E as [<- _]. simplify_eq. left. by exists p.
      * left. by exists p'.
    + intros p'. rewrite Hh, list_lookup_insert. case_decide as E; intros Hp'; simplify_eq; [done|].
      by destruct E; split; [|eapply lookup_lt_Some].
  - apply just_suspend; cbn; [done|done| | | |done|done].
    + rewrite Hh. apply heap_le_app.
    + intros l0 p' Hp'. rewrite Hh in Hp'.
      apply lookup_app_Some in Hp' as [Hp'|[Hge Hp']]; [left; by exists p'|right].
      split; [by apply lookup_ge_None|]. rewrite list_lookup_singleton in Hp'. destruct (_ - _)%nat; [|done].
      injection Hp' as <-. by destruct q.
    + intros p'. rewrite Hh. rewrite lookup_app_r, Nat.sub_diag by done. intros [= <-]. by destruct q.
Qed.

Lemma just_decide s now chat cid d o d' op' path' cids r' l ls waking' :
  wf s → just s →
  set_decision now chat cid d o (reg s) = (Recorded d' op' path' cids, r', l :: ls) →
  just (mkSys r' (waiting s) waking' (log s ++ [Decided l chat d o])).
Proof.
  intros Hwf Hj Hs.
  destruct (set_decision_spec _ _ _ _ _ _ _ _ _ _ _ _ (wf_dicts s Hwf) Hs)
    as (l1 & p & p1 & Hl & Hp & Hc & _ & Hsame & Hlen & [ls' Hls] & Hback).
  injection Hls as <- <-.
  destruct (check_decision_keeps _ _ _ _ Hc) as (Hst & _ & _ & _ & _ & Hcho & Hnd).
  assert (heap_le (heap (reg s)) (heap r')) as Hle.
  { apply heap_le_back; [done|]. intros l0 p' Hp'. destruct (Hback _ _ Hp') as (p0 & H0 & Hru).
    exists p0. split; [done|]. by destruct (ruled_keeps _ _ _ _ _ _ _ _ _ _ _ Hru). }
  assert (Decided l chat d o ∈ log s ++ [Decided l chat d o]) as Hin by set_solver.
  destruct (Hle _ _ Hp) as (pn & Hpn & _ & En2 & En3 & _).
  apply just_update; [done|done| | | |].
  - intros l0 p' Hp'. destruct (Hback _ _ Hp') as (p0 & H0 & Hru). exists p0.
    destruct (ruled_keeps _ _ _ _ _ _ _ _ _ _ _ Hru) as (Hs0 & _ & Hpf & _).
    split_and!; [done..|]. destruct Hru as [|p2 El0 Ep0 Hc2|other Hls Ed Hin2 Hcs]; [by left|right|right].
    + subst l0 p0. assert (p2 = p1) as -> by congruence. split; [by eexists|]. intros tid su Hw Hloc.
      destruct (wf_home s Hwf _ _ _ _ _ Hl Hw Hloc) as [-> _]. split.
      * intros d0 [= <-]. by apply (from_user _ _ _ _ _ o).
      * cbn. destruct Hcho as [?|(-> & -> & x & Hx & ? & ?)]; [by left|right].
        exists x. by rewrite Hx in *.
    + subst d. split; [by eexists|]. intros tid su Hw Hloc. split; [|by left].
      destruct (wf_dicts s Hwf) as [_ Hnn]. destruct (Hnn chat) as [Hnn1 _].
      pose proof (elem_dget _ _ _ Hnn1 Hin2) as Hl0.
      destruct (wf_home s Hwf _ _ _ _ _ Hl0 Hw Hloc) as [-> _].
      intros d0 [= <-]. unfold cascades in Hcs. bool_simpl.
      apply (from_cascade _ _ _ _ _ (allowed_session p0) l pn o); cbn; try done; [congruence|].
      by rewrite En2, En3.
  - intros c k sc. destruct (Hsame c) as (_ & _ & ->). intros [Hin2|?]%elem_of_union; [right|by left].
    unfold granted_now in Hin2. destruct (_ && _) eqn:E; [|set_solver]. bool_simpl. subst.
    apply elem_of_singleton in Hin2 as [= -> ->].
    apply (grant_user _ _ _ _ _ l pn o); [done|done|done|by apply Hnd|by rewrite En2].
  - intros l0. rewrite claims_snoc. cbn. lia.
  - intros pre x post. by apply just_log_snoc.
Qed.

Lemma just_init : just init_sys.
Proof. constructor; cbn; try done. intros pre e post E. by destruct pre. Qed.

(** Steps that log nothing and decide nothing. *)
Lemma just_quiet s r' waking' :
  just s → length (heap r') = length (heap (reg s)) →
  (∀ l p', heap r' !! l = Some p' → ∃ p, heap (reg s) !! l = Some p ∧ static_eq p p' ∧
     performed p' = performed p ∧ decision p' = decision p ∧ choice p' = choice p) →
  (∀ c, allows r' c ⊆ allows (reg s) c) →
  just (mkSys r' (waiting s) waking' (log s)).
Proof.
  intros Hj Hlen Hb Hal. rewrite <- (app_nil_r (log s)).
  apply just_update; rewrite ?app_nil_r; [done|done| | |done|].
  - intros l p' Hp'. destruct (Hb l p' Hp') as (p & ? & ? & ? & ? & ?). exists p.
    split_and!; [done..|]. by left.
  - intros c k sc Hin. left. by apply Hal.
  - intros pre e post Hl. destruct (ju_log s Hj _ _ _ Hl).
    split; [|done]. eapply entry_justified_mono; [|done]. apply heap_le_back; [done|].
    intros l p' Hp'. destruct (Hb l p' Hp') as (p & ? & ? & _). eauto.
Qed.

Lemma just_step s s' : wf s → just s → step s s' → just s'.
Proof.
  intros Hwf Hj. pose proof (wf_dicts s Hwf) as Hd.
  assert (∀ c, pend (reg s) c = [] → idx (reg s) c = []) as Hemp by (intros; by eapply wf_empty_chat).
  assert (∀ r', heap r' = heap (reg s) → same_chats (reg s) r' →
    just (mkSys r' (waiting s) (waking s) (log s))) as Hquiet.
  { intros r' Hh Hs. apply just_quiet; rewrite ?Hh; [done|done| |].
    - intros l p Hp. by exists p.
    - intros c. by destruct (Hs c) as (_ & _ & Ha). }
  destruct 1 as [s tid q wording now now2 now3 cid v r Ht Hf He
    |s tid q wording now now2 now3 cid cid' l r Ht Hf He|s tid q cid l w v r Ht Ha Hr
    |s tid q cid l p r Ht Hp Hr|s now chat cid d o d' op' path' cids r l ls Hs
    |s l w1 w2 Hk|s now1 now2 chat Hne|s now chat|s now chat].
  - apply enter_spec in He as (_ & He & _); [|done..].
    inversion He as [v0 st r1 Hh Hsame Hh1 Hs1 _ _ Hal Hsh| |]; subst.
    apply (just_same s r); [done|done| |by destruct q, v| |].
    + intros c. by destruct (Hsame c) as (_ & _ & ?).
    + by eapply short_justified.
    + by destruct q, v.
  - by eapply (just_enter s).
  - destruct (wf_wait s Hwf _ _ Ht) as (_ & p & Hp & _). cbn in Hp.
    destruct (resume_spec q cid l w (reg s) p Hd Hp) as (_ & Hv & Hh & _ & _ & Hal).
    rewrite Hr in Hv, Hh, Hal. cbn in Hv, Hh, Hal.
    eapply (just_leave s); eauto. destruct w; [| |done]; injection Hv as ->; constructor.
  - destruct (resume_spec q cid l Cancelled (reg s) p Hd Hp) as (_ & _ & Hh & _ & _ & Hal).
    rewrite Hr in Hh, Hal. cbn in Hh, Hal. eapply (just_leave s); eauto. constructor.
  - by eapply (just_decide s).
  - unfold set_event. destruct (heap (reg s) !! l) as [p|] eqn:Hp.
    + apply (just_quiet s); [done|apply length_insert| |done]. intros l0 p'. cbn.
      rewrite list_lookup_insert. case_decide as E; intros Hp'.
      * destruct E as [<- _]. simplify_eq. by exists p.
      * by exists p'.
    + apply (just_quiet s); [done..| |done]. intros l0 p' Hp'. by exists p'.
  - destruct (allow_session_spec now1 now2 chat (reg s) Hne Hd) as (_ & Hh & Hsame).
    apply (just_update s); [done|exact (f_equal length Hh)| | | |].
    + intros l p Hp. exists p. split; [rewrite <- Hh; exact Hp|]. split_and!; [done..|]. by left.
    + intros c k sc Hin. destruct (Hsame c) as (_ & _ & Hal). apply Hal in Hin.
      apply elem_of_union in Hin as [Hin|?]; [right|by left]. case_decide; [subst c|set_solver].
      apply elem_of_singleton in Hin as [= -> ->]. apply grant_pre; [set_solver|done..].
    + intros l. rewrite claims_snoc. cbn. lia.
    + intros pre x post. apply just_log_snoc; [done| |done|done].
      intros l p Hp. exists p. split; [rewrite <- Hh in Hp; exact Hp|done].
  - destruct (with_live_spec None (λ live, match latest live with
      | Some (cid, p) => Some (_pending_to_info cid p) | None => None end) now chat (reg s) Hd)
      as (? & ? & ?). by apply Hquiet.
  - destruct (with_live_spec [] (λ live, map (λ cp, _pending_to_info cp.1 cp.2) (order_by by_ts live))
      now chat (reg s) Hd) as (? & ? & ?). by apply Hquiet.
Qed.

Lemma reachable_just s : reachable s → just s.
Proof.
  induction 1 as [|s s' Hr IH Hs]; [apply just_init|].
  eapply just_step; eauto. by apply reachable_wf.
Qed.
End invariant.
