(* ===== verification/ConfirmGateThms.v ===== *)
(** * What the confirmation gate guarantees

    Theorems about every interleaving of tool coroutines, decisions, timeouts
    and cancellations, and an executable form of the step relation on which the
    witnesses run. *)

From S2P Require Import Prelude PyString PyDict ConfirmGate ConfirmGateProps ConfirmGateInv.

Import ConfirmGate.

Section theorems.
Context `{GateHost}.

(** ** Running a scenario *)

Inductive action : Type :=
| AEnter (tid : nat) (q : request) (wording : string) (now : Z) (cid : string)
| AResume (tid : nat) (w : wake)
| ADecide (now : Z) (chat cid d : string) (o : option string)
| ASetEvent.

Definition exec (s : Sys) (a : action) : option Sys :=
  match a with
  | AEnter tid q wording now cid =>
      match waiting s !! tid, bool_decide (cid = ""),
            dget (pend (reg s) (req_chat q)) cid with
      | None, false, None =>
          match enter q wording now now now cid (reg s) with
          | (inl v, r) => Some (s <| reg := r |> <| log := log s ++ [Answered tid q v None] |>)
          | (inr (cid', l), r) =>
              Some (s <| reg := r |> <| waiting := <[tid := mkSusp q cid' l]> (waiting s) |>)
          end
      | _, _, _ => None
      end
  | AResume tid w =>
      match waiting s !! tid with
      | Some (mkSusp q cid l) =>
          match resume q cid l w (reg s) with
          | (Some v, r) =>
              if awake w l (reg s) then
                Some (s <| reg := r |> <| waiting := delete tid (waiting s) |>
                        <| log := log s ++ [Answered tid q v (Some l)] |>)
              else None
          | (None, r) =>
              match w, heap (reg s) !! l with
              | Cancelled, Some p =>
                  Some (s <| reg := r |> <| waiting := delete tid (waiting s) |>
                          <| log := log s ++ [CancelledCall tid q l (claims q p)] |>)
              | _, _ => None
              end
          end
      | None => None
      end
  | ADecide now chat cid d o =>
      match set_decision now chat cid d o (reg s) with
      | (Recorded _ _ _ _, r, l :: ls) =>
          Some (s <| reg := r |> <| waking := waking s ++ l :: ls |>
                  <| log := log s ++ [Decided l chat d o] |>)
      | _ => None
      end
  | ASetEvent =>
      match waking s with
      | l :: ls => Some (s <| reg := set_event l (reg s) |> <| waking := ls |>)
      | [] => None
      end
  end.

Definition exec_all : list action → option Sys :=
  foldl (λ os a, match os with Some s => exec s a | None => None end) (Some init_sys).

Lemma exec_step s a s' : exec s a = Some s' → step s s'.
Proof.
  destruct a as [tid q wording now cid|tid w|now chat cid d o|]; cbn [exec].
  - destruct (waiting s !! tid) eqn:Ht; [done|].
    destruct (bool_decide (cid = "")) eqn:Ec; [done|].
    destruct (dget _ cid) eqn:Ed; [done|].
    destruct (enter _ _ _ _ _ _ _) as [[v|[cid' l]] r] eqn:Ee; intros [= <-].
    + eapply step_answer; eauto. split; [by apply bool_decide_eq_false in Ec|done].
    + eapply step_suspend; eauto. split; [by apply bool_decide_eq_false in Ec|done].
  - destruct (waiting s !! tid) as [[q cid l]|] eqn:Ht; [|done].
    destruct (resume q cid l w (reg s)) as [[v|] r] eqn:Er.
    + destruct (awake w l (reg s)) eqn:Ea; intros [= <-]. by eapply step_resume.
    + destruct w; [done..|]. destruct (heap (reg s) !! l) as [p|] eqn:Hp; intros [= <-].
      by eapply step_cancel.
  - destruct (set_decision _ _ _ _ _ _) as [[[d' op' path' cids|] r] [|l ls]] eqn:Es; try done.
    intros [= <-]. by eapply step_decide.
  - destruct (waking s) as [|l ls] eqn:Ew; [done|]. intros [= <-].
    by apply (step_set_event s l [] ls).
Qed.

Lemma exec_all_reachable acts s : exec_all acts = Some s → reachable s.
Proof.
  unfold exec_all. revert s. induction acts as [|a acts IH] using rev_ind; cbn.
  - intros s [= <-]. constructor.
  - intros s. rewrite foldl_app. cbn. destruct (foldl _ _ acts) as [s0|] eqn:E; [|done].
    intros Hs. eapply reachable_step; [by apply IH|by apply exec_step in Hs].
Qed.

(** C5: No tool passes the gate by itself.  Whatever the interleaving, a call
    that is let through had confirmations of its kind switched off, or a session
    grant of its own kind, given by the user in this chat (or to the owner's own
    channel), that covers its target, or waited on an item of the same chat,
    operation and target that the user allowed, directly or by allowing for the
    session another item, of the kind of the item waited on, whose scope covers
    it.  The item waited on may itself be of another kind than the call: calls are
    joined by operation and target only.  And a design picker returns only an
    option of its question that the user chose. *)
Theorem gate_pass_authorized s pre e post :
  reachable s → log s = pre ++ e :: post →
  match e with
  | Answered _ (RGate settings a) Pass item => pass_justified (heap (reg s)) pre settings a item
  | Answered _ (RPick a) (Chosen o) item => choice_justified (heap (reg s)) pre a o item
  | Answered _ (RGate _ _) (Chosen _) _ | Answered _ (RPick _) Pass _ => False
  | _ => True
  end.
Proof.
  intros Hr Hl. destruct (ju_log s (reachable_just s Hr) _ _ _ Hl) as [Hj _].
  by destruct e as [tid [settings a|a] [|st|o] item| | |].
Qed.

(** The coroutines that share a confirmation perform the operation at most
    once: at most one of them is let through, and one is told that another did the
    work only after a coroutine of the group claimed it. *)
Theorem group_performs_once s l :
  reachable s →
  (claims_of l (log s) ≤ 1)%nat ∧
  ∀ pre tid settings a post,
    log s = pre ++ Answered tid (RGate settings a) (Intercept "deduplicated") (Some l) :: post →
    claims_of l pre = 1%nat.
Proof.
  intros Hr. pose proof (reachable_just s Hr) as Hj.
  assert (claims_of l (log s) ≤ 1)%nat as Hle.
  { destruct (heap (reg s) !! l) as [p|] eqn:Hp.
    - rewrite (ju_perf s Hj l p Hp). destruct (performed p); lia.
    - rewrite (ju_none s Hj l Hp). lia. }
  split; [done|]. intros pre tid settings a post Hl.
  destruct (ju_log s Hj _ _ _ Hl) as [_ Hd]. cbn [dup_ok] in Hd. specialize (Hd eq_refl).
  rewrite Hl in Hle. unfold claims_of in *. rewrite List.filter_app, length_app in Hle. lia.
Qed.

(** The registry holds no zombie.  Every pending item has a coroutine that
    waits on it and every waiting coroutine finds its item; a chat has at most one
    undecided item per operation and target; no decision is lost: the event of a
    decided item is set or about to be; and once nobody waits every chat is empty,
    so that the idle collection removes it. *)
Theorem no_zombie_items s :
  reachable s →
  (∀ c cid l, dget (pend (reg s) c) cid = Some l →
     ∃ tid su, waiting s !! tid = Some su ∧ s_loc su = l ∧ s_cid su = cid ∧ req_chat (s_req su) = c) ∧
  (∀ tid su, waiting s !! tid = Some su →
     dget (pend (reg s) (req_chat (s_req su))) (s_cid su) = Some (s_loc su)) ∧
  (∀ c cid1 l1 p1 cid2 l2 p2,
     dget (pend (reg s) c) cid1 = Some l1 → heap (reg s) !! l1 = Some p1 → decision p1 = None →
     dget (pend (reg s) c) cid2 = Some l2 → heap (reg s) !! l2 = Some p2 → decision p2 = None →
     key_of p1 = key_of p2 → cid1 = cid2) ∧
  (∀ l p, heap (reg s) !! l = Some p → decision p ≠ None → event p = true ∨ l ∈ waking s) ∧
  (waiting s = ∅ → ∀ now, (∀ c st, (c, st) ∈ chats (reg s) → _TTL_S < now - last_ts st) →
     chats (_gc now (reg s)) = []).
Proof.
  intros Hr. pose proof (reachable_wf s Hr) as Hwf. split_and!.
  - intros c cid l Hl. destruct (wf_waiter s c cid l Hwf Hl) as (tid & su & Hw & Hloc).
    destruct (wf_home s Hwf _ _ _ _ _ Hl Hw Hloc). by exists tid, su.
  - intros tid su Hw. apply (wf_wait s Hwf _ _ Hw).
  - intros c cid1 l1 p1 cid2 l2 p2 H1 Hp1 Hd1 H2 Hp2 Hd2 Hk.
    pose proof (wf_live s Hwf _ _ _ _ H1 Hp1 Hd1) as X1.
    pose proof (wf_live s Hwf _ _ _ _ H2 Hp2 Hd2) as X2. congruence.
  - apply (wf_awake s Hwf).
  - intros Hw now Hold. cbn. apply filter_all_false. intros [c st] Hin. cbn.
    destruct (pending st) as [|[cid l] ps] eqn:Ep.
    + rewrite bool_decide_true by (by eapply Hold). done.
    + exfalso. destruct (wf_dicts s Hwf) as [Hnd _].
      destruct (wf_waiter s c cid l Hwf) as (tid & su & Hx & _); [|by rewrite Hw in Hx].
      unfold pend, chat_of. rewrite (elem_dget _ c st Hnd Hin). cbn. rewrite Ep. cbn.
      by rewrite bool_decide_true.
Qed.

(** ** What one decision changes *)

Lemma cascade_exact cid p g items h h' cids ls :
  NoDup items.*2 → cascade cid p g items h = (h', cids, ls) →
  (∀ other, other ∈ cids ↔ ∃ l q, (other, l) ∈ items ∧ h !! l = Some q ∧
     cascades cid p g other q = true) ∧
  (∀ other l q, (other, l) ∈ items → h !! l = Some q →
     h' !! l = Some (if cascades cid p g other q then allowed_session q else q)) ∧
  (∀ l, l ∉ items.*2 → h' !! l = h !! l).
Proof.
  revert h h' cids ls. induction items as [|[other l] items IH]; intros h h' cids ls Hnd; cbn [cascade].
  { intros [= <- <- <-]. split_and!; [|set_solver|done]. intros other.
    split; [by intros ?%not_elem_of_nil|]. intros (? & ? & ?%not_elem_of_nil & _). done. }
  cbn in Hnd. apply NoDup_cons in Hnd as [Hl Hnd].
  assert (∀ other' l' , (other', l') ∈ items → l' ≠ l) as Hne.
  { intros other' l' Hin ->. apply Hl. by apply (list_elem_of_fmap_2 snd) in Hin. }
  destruct (match h !! l with Some q => cascades cid p g other q | None => false end) eqn:Ec.
  - destruct (h !! l) as [q|] eqn:Eq; [|done]. rewrite Ec.
    destruct (cascade _ _ _ _ _) as [[h2 cids2] ls2] eqn:Er. intros [= <- <- <-].
    destruct (IH _ _ _ _ Hnd Er) as (I1 & I2 & I3).
    assert (∀ l', l' ≠ l → <[l := q <| decision := Some DECISION_ALLOW_SESSION |>]> h !! l' = h !! l') as Hins
      by (intros; by apply list_lookup_insert_ne).
    split_and!.
    + intros x. rewrite elem_of_cons, I1. split.
      * intros [->|(l' & q' & Hin & Hq' & Hc)]; [exists l, q; split_and!; [left|done..]|].
        rewrite Hins in Hq' by (by eapply Hne). exists l', q'. split_and!; [by right|done..].
      * intros (l' & q' & [[= -> ->]|Hin]%elem_of_cons & Hq' & Hc); [by left|right].
        exists l', q'. rewrite Hins by (by eapply Hne). done.
    + intros x l' q' [[= -> ->]|Hin]%elem_of_cons Hq'.
      * rewrite I3 by done. rewrite Eq in Hq'. injection Hq' as <-. rewrite Ec.
        apply list_lookup_insert_eq. by eapply lookup_lt_Some.
      * apply I2; [done|]. rewrite Hins; [done|by eapply Hne].
    + intros l' Hl'. cbn in Hl'. apply not_elem_of_cons in Hl' as [Hll Hl'].
      rewrite I3 by done. by apply Hins.
  - intros Hcas. assert (cascade cid p g items h = (h', cids, ls)) as Er.
    { destruct (h !! l) as [q|]; [by rewrite Ec in Hcas|done]. }
    destruct (IH _ _ _ _ Hnd Er) as (I1 & I2 & I3). split_and!.
    + intros x. rewrite I1. split.
      * intros (l' & q' & Hin & ? & ?). exists l', q'. split_and!; [by right|done..].
      * intros (l' & q' & [[= -> ->]|Hin]%elem_of_cons & Hq' & Hc); [|by exists l', q'].
        rewrite Hq' in Ec. congruence.
    + intros x l' q' [[= -> ->]|Hin]%elem_of_cons Hq'; [|by apply I2].
      rewrite Hq' in Ec. rewrite Ec. by rewrite I3.
    + intros l' Hl'. cbn in Hl'. apply not_elem_of_cons in Hl' as [_ Hl']. by apply I3.
Qed.

Lemma pend_locs_NoDup s c : wf s → NoDup (pend (reg s) c).*2.
Proof.
  intros Hwf. destruct (wf_dicts s Hwf) as [_ Hnd]. destruct (Hnd c) as [Hn _].
  assert (∀ cid l, (cid, l) ∈ pend (reg s) c → dget (pend (reg s) c) cid = Some l) as Hget
    by (intros; by apply elem_dget).
  assert (∀ x y, x ∈ pend (reg s) c → y ∈ pend (reg s) c → x.2 = y.2 → x.1 = y.1) as Hinj.
  { intros [c1 l1] [c2 l2] Hx Hy E. cbn in *. subst l2.
    by destruct (wf_inj s c c1 c c2 l1 Hwf (Hget _ _ Hx) (Hget _ _ Hy)). }
  clear Hget. induction (pend (reg s) c) as [|[c1 l1] ps IH]; cbn; [constructor|].
  cbn in Hn. apply NoDup_cons in Hn as [Hc1 Hn]. apply NoDup_cons. split.
  - intros ([c2 l2] & E & Hin)%list_elem_of_fmap. cbn in E. subst l2. apply Hc1.
    specialize (Hinj (c1, l1) (c2, l1) ltac:(left) ltac:(by right) eq_refl). cbn in Hinj. subst c2.
    by apply (list_elem_of_fmap_2 fst) in Hin.
  - apply IH; [done|]. intros x y Hx Hy. apply Hinj; by right.
Qed.

(** A decision is checked against the kind of its item and changes exactly
    what it is about.  A refusal changes nothing, and is "stale" exactly when the
    chat has no such item.  A recorded decision decides its item; allowing for
    the session also decides the undecided items of the chat that have the same
    kind, are not design pickers and lie in the granted scope, reports exactly
    those, and leaves every other item as it was. *)
Theorem decision_reaches_its_group s now chat cid d o ans r' ls :
  reachable s → set_decision now chat cid d o (reg s) = (ans, r', ls) →
  match ans with
  | Refused reason =>
      r' = reg s ∧ ls = [] ∧ (reason = "stale" ↔ dget (pend (reg s) chat) cid = None)
  | Recorded d' op' path' cids =>
      ∃ l p p1, dget (pend (reg s) chat) cid = Some l ∧ heap (reg s) !! l = Some p ∧
        check_decision p d o = Ok p1 ∧ d' = d ∧ op' = op p ∧ path' = logical_path p ∧
        let covered other q := d = DECISION_ALLOW_SESSION ∧
          cascades cid p (_session_scope (kind p) (logical_path p)) other q = true in
        (∀ other, other ∈ cids ↔ ∃ l0 q, (other, l0) ∈ pend (reg s) chat ∧
           heap (reg s) !! l0 = Some q ∧ covered other q) ∧
        heap r' !! l = Some (p1 <| decision := Some d |>) ∧
        (∀ other l0 q, (other, l0) ∈ pend (reg s) chat → heap (reg s) !! l0 = Some q →
           covered other q → heap r' !! l0 = Some (allowed_session q)) ∧
        (∀ l0 q, heap (reg s) !! l0 = Some q → l0 ≠ l →
           (∀ other, (other, l0) ∈ pend (reg s) chat → ¬ covered other q) →
           heap r' !! l0 = Some q)
  end.
Proof.
  intros Hr. pose proof (reachable_wf s Hr) as Hwf. unfold set_decision.
  pose proof (pend_locs_NoDup s chat Hwf) as Hnd.
  destruct (wf_dicts s Hwf) as [_ Hnk]. destruct (Hnk chat) as [Hnk1 _]. clear Hnk.
  assert (∀ st, dget (chats (reg s)) chat = Some st → pend (reg s) chat = pending st) as Hpend.
  { intros st E. unfold pend, chat_of. by rewrite E. }
  destruct (dget (chats (reg s)) chat) as [st|] eqn:Est.
  2:{ intros [= <- <- <-]. unfold pend, chat_of. by rewrite Est. }
  rewrite (Hpend st eq_refl) in *.
  destruct (dget (pending st) cid) as [l|] eqn:El; [|by intros [= <- <- <-]].
  destruct (wf_ref s Hwf chat cid l) as (_ & p & Hp & _); [by rewrite (Hpend st eq_refl)|].
  rewrite Hp. destruct (check_decision p d o) as [p1|reason] eqn:Ec.
  2:{ intros [= <- <- <-]. split_and!; [done..|]. split; [|done].
      intros ->. revert Ec. unfold check_decision. by repeat case_match. }
  assert (∀ l0, l0 ≠ l → <[l := p1 <| decision := Some d |>]> (heap (reg s)) !! l0 = heap (reg s) !! l0)
    as Hins by (intros; by apply list_lookup_insert_ne).
  assert (<[l := p1 <| decision := Some d |>]> (heap (reg s)) !! l = Some (p1 <| decision := Some d |>))
    as Hinl by (apply list_lookup_insert_eq; by eapply lookup_lt_Some).
  assert (∀ other q g, cascades cid p g other q = true → (other, l) ∉ pending st) as Hself.
  { intros other q g Hc Hin. apply (elem_dget _ _ _ Hnk1) in Hin. unfold cascades in Hc. bool_simpl.
    destruct (wf_inj s chat cid chat other l Hwf) as [_ ?]; rewrite ?(Hpend st eq_refl); done. }
  destruct (bool_decide (d = DECISION_ALLOW_SESSION)) eqn:Ea.
  - apply bool_decide_eq_true in Ea as ->.
    destruct (cascade _ _ _ _ _) as [[h cids] ls'] eqn:Ecas. intros [= <- <- <-].
    destruct (cascade_exact _ _ _ _ _ _ _ _ Hnd Ecas) as (I1 & I2 & I3). cbn [heap put_pending] in I1, I2, I3.
    assert (∀ other, (other, l) ∈ pending st → other = cid) as Hcid.
    { intros other Hin. apply (elem_dget _ _ _ Hnk1) in Hin.
      by destruct (wf_inj s chat other chat cid l Hwf); rewrite ?(Hpend st eq_refl). }
    exists l, p, p1. split_and!; [done..| | | |].
    + intros other. rewrite I1. split; intros (l0 & q & Hin & Hq & Hc); exists l0, q.
      * rewrite Hins in Hq; [done|]. intros ->. by eapply Hself.
      * destruct Hc as [_ Hc]. split_and!; [done| |done]. cbn. rewrite Hins; [done|].
        intros ->. by eapply Hself.
    + cbn. rewrite (I2 cid l (p1 <| decision := Some DECISION_ALLOW_SESSION |>)); [|by apply dget_elem|done].
      unfold cascades. by rewrite bool_decide_true by done.
    + intros other l0 q Hin Hq [_ Hc]. cbn. rewrite (I2 other l0 q); [by rewrite Hc|done|].
      cbn. rewrite Hins; [done|]. intros ->. by eapply Hself.
    + intros l0 q Hq Hne Hno. cbn. destruct (decide (l0 ∈ (pending st).*2)) as [Hin|Hin].
      * apply list_elem_of_fmap in Hin as ([other l1] & -> & Hin). cbn in *.
        rewrite (I2 other l1 q); [|done|cbn; by rewrite Hins].
        destruct (cascades cid p _ other q) eqn:Hc; [by destruct (Hno other Hin)|done].
      * rewrite I3 by done. cbn. by rewrite Hins.
  - apply bool_decide_eq_false in Ea. intros [= <- <- <-]. exists l, p, p1.
    split_and!; [done..| |done| |].
    + intros other. split; [by intros ?%not_elem_of_nil|]. by intros (? & ? & _ & _ & ? & _).
    + by intros ? ? ? _ _ [? _].
    + intros l0 q Hq Hne _. cbn. by rewrite Hins.
Qed.
End theorems.

(** ** A run of the gate *)

#[local] Instance demo_host : GateHost := {| real_user_path p := p; repr_nested _ := "" |}.

Definition demo_gate (kind op path : string) : request :=
  RGate (Some (mkSandbox (Some true) (Some true))) (mkGateArgs (Some "chat") op path true "" kind).

Definition write_a : request := demo_gate "local_path:write" "local_write" "/home/me/p/a.txt".
Definition write_b : request := demo_gate "local_path:write" "local_write" "/home/me/p/b.txt".
Definition write_etc : request := demo_gate "local_path:write" "local_write" "/etc/passwd".
Definition save_a : request := demo_gate KIND_MYSPACE "write" "/myspace/a".
Definition design : request :=
  RPick (mkPickArgs (Some "chat") "Which?" [[("id", JStr "one")]; [("id", JStr "two")]] true).

(** Two coroutines write the same file, others a sibling, a file elsewhere and to
    My Space; the user allows the first for the session. *)
Definition session_run : list action :=
  [AEnter 0 write_a "" 1 "c0"; AEnter 1 write_a "" 2 "cx"; AEnter 2 write_b "" 3 "c2";
   AEnter 3 write_etc "" 4 "c3"; AEnter 4 save_a "" 5 "c4"; AEnter 5 design "Pick one" 6 "c5";
   ADecide 7 "chat" "c0" "allow_session" None; ASetEvent; ASetEvent;
   AResume 0 Woken; AResume 1 Woken; AResume 2 Woken;
   AResume 3 TimedOut; AResume 4 TimedOut; AEnter 6 write_b "" 8 "c6";
   ADecide 9 "chat" "c5" "choice" (Some "two"); ASetEvent; AResume 5 Woken].

Definition answer_of (tid : nat) (es : list entry) : option verdict :=
  match List.filter (λ e, match e with Answered t _ _ _ => bool_decide (t = tid) | _ => false end) es with
  | Answered _ _ v _ :: _ => Some v
  | _ => None
  end.

Definition session_log : list entry := default [] (log <$> exec_all session_run).

Example session_answers :
  (λ tid, answer_of tid session_log) <$> [0; 1; 2; 3; 4; 5; 6]%nat =
  [Some Pass; Some (Intercept "deduplicated"); Some Pass; Some (Intercept "confirm_timeout");
   Some (Intercept "confirm_timeout"); Some (Chosen "two"); Some Pass].
Proof. vm_compute. reflexivity. Qed.

Definition session_sys : Sys := default init_sys (exec_all session_run).

Lemma session_reachable : reachable session_sys.
Proof.
  apply (exec_all_reachable session_run). unfold session_sys.
  destruct (exec_all session_run) eqn:E; [done|]. by vm_compute in E.
Qed.

Lemma gate_pass_authorized_witness :
  pass_justified (heap (reg session_sys)) (take 1 (log session_sys))
    (Some (mkSandbox (Some true) (Some true)))
    (mkGateArgs (Some "chat") "local_write" "/home/me/p/a.txt" true "" "local_path:write") (Some 0%nat).
Proof.
  exact (gate_pass_authorized session_sys (take 1 (log session_sys))
           (Answered 0 write_a Pass (Some 0%nat)) (drop 2 (log session_sys)) session_reachable
           ltac:(vm_compute; reflexivity)).
Defined.

Lemma group_performs_once_witness :
  (claims_of 0 (log session_sys) ≤ 1)%nat ∧ claims_of 0 (take 2 (log session_sys)) = 1%nat.
Proof.
  destruct (group_performs_once session_sys 0 session_reachable) as [Hle Hdup]. split; [exact Hle|].
  apply (Hdup (take 2 (log session_sys)) 1%nat (Some (mkSandbox (Some true) (Some true)))
    (mkGateArgs (Some "chat") "local_write" "/home/me/p/a.txt" true "" "local_path:write")
    (drop 3 (log session_sys))).
  vm_compute. reflexivity.
Defined.

Lemma no_zombie_items_witness : waiting session_sys = ∅ ∧ chats (_gc (seconds 4000) (reg session_sys)) = [].
Proof.
  destruct (no_zombie_items session_sys session_reachable) as (_ & _ & _ & _ & Hgc).
  assert (waiting session_sys = ∅) as Hw by (vm_compute; reflexivity).
  split; [exact Hw|]. apply (Hgc Hw). intros c st Hin.
  assert (forallb (λ cs, _TTL_S <? seconds 4000 - last_ts cs.2) (chats (reg session_sys)) = true) as Hall
    by (vm_compute; reflexivity).
  rewrite forallb_forall in Hall. apply Z.ltb_lt. apply (Hall (c, st)). by apply list_elem_of_In.
Defined.

(** The state just before the decision of the run. *)
Definition asked_sys : Sys := default init_sys (exec_all (take 6 session_run)).

Lemma asked_reachable : reachable asked_sys.
Proof.
  apply (exec_all_reachable (take 6 session_run)). unfold asked_sys.
  destruct (exec_all (take 6 session_run)) eqn:E; [done|]. by vm_compute in E.
Qed.

Lemma decision_reaches_its_group_witness :
  ∃ r' ls, set_decision 7 "chat" "c0" "allow_session" None (reg asked_sys) =
             (Recorded "allow_session" "local_write" "/home/me/p/a.txt" ["c2"], r', ls) ∧
    "c3" ∉ ["c2"] ∧
    ("c3" ∈ ["c2"] ↔ ∃ l0 q, ("c3", l0) ∈ pend (reg asked_sys) "chat" ∧
       heap (reg asked_sys) !! l0 = Some q ∧ DECISION_ALLOW_SESSION = DECISION_ALLOW_SESSION ∧
       cascades "c0" (default (gate_pending (mkGateArgs None "" "" true "" "") 0) (heap (reg asked_sys) !! 0%nat))
         "/home/me/p" "c3" q = true).
Proof.
  destruct (set_decision 7 "chat" "c0" "allow_session" None (reg asked_sys)) as [[ans r'] ls] eqn:E.
  pose proof (decision_reaches_its_group asked_sys _ _ _ _ _ _ _ _ asked_reachable E) as Hd.
  assert (ans = Recorded "allow_session" "local_write" "/home/me/p/a.txt" ["c2"]) as ->.
  { apply (f_equal (λ x, x.1.1)) in E. vm_compute in E. symmetry. exact E. }
  exists r', ls. split; [reflexivity|]. split.
  { intros Hx. apply list_elem_of_singleton in Hx. discriminate Hx. }
  destruct Hd as (l & p & p1 & Hl & Hp & _ & _ & _ & _ & Hcids & _).
  vm_compute in Hl. injection Hl as <-. vm_compute in Hp. injection Hp as <-. exact (Hcids "c3").
Defined.

(** A coroutine that is cancelled after the user allowed the operation claims the
    execution of its group, although it performs nothing; the coroutine that
    shares the confirmation is then told that the work is done. *)
Definition cancel_run : list action :=
  [AEnter 0 write_a "" 1 "c0"; AEnter 1 write_a "" 2 "cx"; ADecide 3 "chat" "c0" "allow" None;
   AResume 0 Cancelled; ASetEvent; AResume 1 Woken].

Theorem cancelled_claim_loses_write :
  ∃ s l, reachable s ∧ waiting s = ∅ ∧ answer_of 1 (log s) = Some (Intercept "deduplicated") ∧
    (∃ d, Decided l "chat" d None ∈ log s ∧ is_allow d = true) ∧
    ¬ ∃ tid q item, Answered tid q Pass item ∈ log s.
Proof.
  destruct (exec_all cancel_run) as [s|] eqn:E; [|by vm_compute in E].
  exists s, 0%nat. split; [by eapply exec_all_reachable|].
  vm_compute in E. injection E as <-. split_and!; [done|done| |].
  - exists "allow". split; [left|done].
  - intros (tid & q & item & Hin). cbn in Hin.
    repeat (apply elem_of_cons in Hin as [Hin|Hin]; [discriminate Hin|]).
    by apply not_elem_of_nil in Hin.
Qed.
