(* ===== verification/PosixPath.v ===== *)
(** * POSIX paths: [posixpath] as the backend uses it

    The lexical operations are functions; what the file system and the
    environment answer is the class [HostPaths].  A normal path is the list of
    its components, and containment of normal paths is prefix of components. *)

From S2P Require Import Prelude PyString PyDict.
From Stdlib Require Import Ascii String.

Class HostPaths := {
  expanduser : string → string;
  cwd : string;
  realpath : string → string;      (* of an absolute path *)
  path_exists : string → bool;
  is_dir : string → bool;
  is_link : string → bool
}.

(** ** Components *)

(** [s.split("/")] *)
Fixpoint split_slash (s : string) : list string :=
  match s with
  | EmptyString => [EmptyString]
  | String c s' =>
      if bool_decide (c = slash) then EmptyString :: split_slash s'
      else match split_slash s' with
           | w :: ws => String c w :: ws
           | [] => [String c EmptyString]
           end
  end.

Definition nonempty_str (s : string) : bool := negb (bool_decide (s = EmptyString)).

(** [[part for part in s.split("/") if part]] *)
Definition parts (s : string) : list string := List.filter nonempty_str (split_slash s).

Definition isabs (s : string) : bool := str_prefix "/" s.

Definition ends_slash (s : string) : bool := bool_decide (last_str 1 s = "/").

(** [os.path.join(a, b)] *)
Definition join_path (a b : string) : string :=
  if isabs b then b
  else if bool_decide (a = EmptyString) || ends_slash a then a +:+ b
  else a +:+ "/" +:+ b.

(** One component of [normpath]; [acc] is in reverse. *)
Definition norm_step (absolute : bool) (acc : list string) (comp : string) : list string :=
  if bool_decide (comp = "") || bool_decide (comp = ".") then acc
  else if negb (bool_decide (comp = "..")) then comp :: acc
  else match acc with
       | [] => if absolute then [] else [comp]
       | last :: acc' => if bool_decide (last = "..") then comp :: acc else acc'
       end.

Definition norm_comps (absolute : bool) (comps : list string) : list string :=
  rev (foldl (norm_step absolute) [] comps).

(** Exactly two leading slashes are kept, by POSIX. *)
Definition leading (s : string) : string :=
  if str_prefix "//" s && negb (str_prefix "///" s) then "//"
  else if isabs s then "/" else "".

Definition normpath (s : string) : string :=
  let body := leading s +:+ join "/" (norm_comps (isabs s) (split_slash s)) in
  if bool_decide (body = "") then "." else body.

Example normpath_1 : normpath "/a//b/./c/../d" = "/a/b/d". Proof. reflexivity. Qed.
Example normpath_2 : normpath "../x/.." = "..". Proof. reflexivity. Qed.
Example normpath_3 : normpath "//etc" = "//etc". Proof. reflexivity. Qed.
Example normpath_4 : normpath "/../.." = "/". Proof. reflexivity. Qed.

(** [str(PurePosixPath(s))]: empty and [.] components go, [..] stays. *)
Definition is_part (comp : string) : bool := nonempty_str comp && negb (bool_decide (comp = ".")).
Definition path_text (s : string) : string :=
  let body := leading s +:+ join "/" (List.filter is_part (split_slash s)) in
  if bool_decide (body = "") then "." else body.

Example path_text_1 : path_text "a//b/./../c/" = "a/b/../c". Proof. reflexivity. Qed.
Example path_text_2 : path_text "./" = ".". Proof. reflexivity. Qed.

Section host.
Context `{HostPaths}.

(** [str(Path(s).expanduser())]; [None] is the [RuntimeError] of a home that is
    not known. *)
Definition path_expanduser (s : string) : option string :=
  let p := path_text s in
  if isabs p then Some p
  else match split_slash p with
       | first :: rest =>
           if str_prefix "~" first then
             let home := expanduser first in
             if str_prefix "~" home then None else Some (path_text (join "/" (home :: rest)))
           else Some p
       | [] => Some p
       end.

Definition abspath (s : string) : string :=
  normpath (if isabs s then s else join_path cwd s).

(** [os.path.realpath(os.path.abspath(os.path.expanduser(p)))] *)
Definition canonical_path (p : string) : string := realpath (abspath (expanduser p)).
End host.

(** ** Normal paths *)

Definition valid_comp (c : string) : Prop :=
  c ≠ "" ∧ c ≠ "." ∧ c ≠ ".." ∧ split_at slash c = None.

(** The path of a list of components. *)
Definition abs_of (comps : list string) : string := "/" +:+ join "/" comps.

Definition normal (p : string) : Prop := ∃ comps, p = abs_of comps ∧ Forall valid_comp comps.

Lemma split_slash_nonnil s : split_slash s ≠ [].
Proof. destruct s as [|c s]; cbn; [done|]. case_bool_decide; [done|]. by destruct (split_slash s). Qed.

Lemma split_slash_noslash s c : c ∈ split_slash s → split_at slash c = None.
Proof.
  revert c. induction s as [|a s IH]; intros c; cbn [split_slash].
  - intros Hc. apply list_elem_of_singleton in Hc as ->. done.
  - case_bool_decide as Ea.
    + intros Hc. apply elem_of_cons in Hc as [->|Hc]; [done|by apply IH].
    + destruct (split_slash s) as [|w ws] eqn:E; [by destruct (split_slash_nonnil s)|].
      intros Hc. apply elem_of_cons in Hc as [->|Hc]; [|apply IH; by right].
      cbn. rewrite bool_decide_false by done. rewrite IH by left. done.
Qed.

Lemma norm_comps_valid comps :
  (∀ c, c ∈ comps → split_at slash c = None) → Forall valid_comp (norm_comps true comps).
Proof.
  intros Hc. unfold norm_comps. apply Forall_rev.
  assert (∀ acc, Forall valid_comp acc → Forall valid_comp (foldl (norm_step true) acc comps)) as Hf.
  { induction comps as [|c comps IH]; intros acc Hacc; cbn; [done|].
    apply IH; [intros; apply Hc; by right|]. unfold norm_step.
    destruct (bool_decide (c = "") || bool_decide (c = ".")) eqn:E1; [done|]. bool_simpl.
    case_bool_decide as E2; cbn.
    - destruct Hacc as [|x acc Hx Hacc]; [constructor|].
      rewrite bool_decide_false by apply Hx. done.
    - constructor; [|done]. split_and!; [done..|]. apply Hc. by left. }
  by apply Hf.
Qed.

(** An absolute path without a double slash in front normalises to a normal one. *)
Lemma normpath_normal s : leading s = "/" → normal (normpath s).
Proof.
  intros Hl. assert (isabs s = true) as Ha.
  { unfold leading in Hl. destruct (_ && _); [done|]. by destruct (isabs s). }
  exists (norm_comps true (split_slash s)). split.
  - unfold normpath. rewrite Hl, Ha. by rewrite bool_decide_false by done.
  - apply norm_comps_valid. apply split_slash_noslash.
Qed.

Lemma valid_split c : split_at slash c = None → c ≠ "" → split_slash c = [c].
Proof.
  induction c as [|a c IH]; [done|]. cbn. case_bool_decide; [done|].
  destruct (split_at slash c) as [[? ?]|] eqn:E; [done|]. intros _ _.
  destruct c as [|b c]; [done|]. by rewrite IH.
Qed.

Lemma split_slash_join c rest :
  split_at slash c = None → split_slash (c +:+ String slash rest) = c :: split_slash rest.
Proof.
  induction c as [|a c IH]; cbn; intros Hc; [done|]. revert Hc.
  case_bool_decide as Ea; [done|]. destruct (split_at slash c) as [[? ?]|] eqn:E; [done|].
  intros _. change (String a c +:+ String slash rest) with (String a (c +:+ String slash rest)).
  cbn [split_slash]. rewrite bool_decide_false by done. by rewrite IH.
Qed.

Lemma parts_join comps : Forall valid_comp comps → parts (join "/" comps) = comps.
Proof.
  induction 1 as [|c comps Hc Hcs IH]; [done|].
  destruct Hc as (Hne & _ & _ & Hs). destruct comps as [|c2 comps].
  - cbn [join]. unfold parts. rewrite (valid_split c Hs Hne). cbn.
    unfold nonempty_str. by rewrite bool_decide_false.
  - change (join "/" (c :: c2 :: comps)) with (c +:+ String slash (join "/" (c2 :: comps))).
    unfold parts. rewrite split_slash_join by done. cbn [List.filter].
    unfold nonempty_str at 1. rewrite bool_decide_false by done. cbn. f_equal. exact IH.
Qed.

Lemma parts_abs_of comps : Forall valid_comp comps → parts (abs_of comps) = comps.
Proof. intros Hc. unfold abs_of. cbn. by apply parts_join. Qed.

Lemma abs_of_inj c1 c2 :
  Forall valid_comp c1 → Forall valid_comp c2 → abs_of c1 = abs_of c2 → c1 = c2.
Proof. intros H1 H2 E. rewrite <- (parts_abs_of c1 H1), E. by apply parts_abs_of. Qed.

(** ** Containment *)

Lemma str_prefix_iff p s : str_prefix p s = true ↔ ∃ t, s = p +:+ t.
Proof.
  unfold str_prefix. revert s. induction p as [|a p IH]; intros s.
  - destruct s; naive_solver.
  - destruct s as [|b s]; [split; [done|]; by intros [t E]|].
    cbn [String.prefix]. destruct (ascii_dec a b) as [->|Hne].
    + specialize (IH s). split.
      * intros [t ->]%IH. by exists t.
      * intros [t E]. injection E as ->. apply IH. by exists t.
    + split; [done|]. intros [t E]. injection E. congruence.
Qed.

Lemma split_slash_app s t : split_slash (s +:+ String slash t) = split_slash s ++ split_slash t.
Proof.
  induction s as [|a s IH]; [done|].
  change (String a s +:+ String slash t) with (String a (s +:+ String slash t)).
  cbn [split_slash]. case_bool_decide; [by rewrite IH|]. rewrite IH.
  destruct (split_slash s) eqn:E; [by destruct (split_slash_nonnil s)|]. done.
Qed.

Lemma parts_app s t : parts (s +:+ String slash t) = parts s ++ parts t.
Proof. unfold parts. by rewrite split_slash_app, List.filter_app. Qed.

Lemma str_app_assoc a b c : (a +:+ b) +:+ c = a +:+ (b +:+ c).
Proof. induction a as [|x a IH]; [done|]. exact (f_equal (String x) IH). Qed.

Lemma join_app c1 c2 :
  c1 ≠ [] → c2 ≠ [] → join "/" (c1 ++ c2) = join "/" c1 +:+ String slash (join "/" c2).
Proof.
  intros H1 H2. induction c1 as [|x c1 IH]; [done|]. destruct c1 as [|y c1].
  - destruct c2; [done|]. done.
  - change ((x :: y :: c1) ++ c2) with (x :: (y :: c1) ++ c2).
    change (join "/" (x :: y :: c1)) with (x +:+ String slash (join "/" (y :: c1))).
    transitivity (x +:+ String slash (join "/" ((y :: c1) ++ c2))); [done|].
    rewrite IH by done. by rewrite str_app_assoc.
Qed.

Lemma str_len_snoc s c : str_len (s +:+ String c EmptyString) = S (str_len s).
Proof. induction s as [|a s IH]; [done|]. exact (f_equal S IH). Qed.

Lemma last_str_snoc s c : last_str 1 (s +:+ String c EmptyString) = String c EmptyString.
Proof.
  unfold last_str. rewrite str_len_snoc. replace (S (str_len s) - 1)%nat with (str_len s) by lia.
  induction s as [|a s IH]; [done|]. exact IH.
Qed.

Lemma last_char s : s ≠ "" → ∃ s' c, s = s' +:+ String c EmptyString.
Proof.
  induction s as [|a s IH]; [done|]. intros _. destruct s as [|b s].
  - by exists "", a.
  - destruct IH as (s' & c & ->); [done|]. by exists (String a s'), c.
Qed.

Lemma valid_last comps :
  Forall valid_comp comps → comps ≠ [] → ∃ s c, abs_of comps = s +:+ String c EmptyString ∧ c ≠ slash.
Proof.
  intros Hc Hne. destruct comps as [|x comps _] using rev_ind; [done|].
  apply Forall_app in Hc as [_ Hx]. apply Forall_singleton in Hx as (Hx & _ & _ & Hs).
  destruct (last_char x Hx) as (s & c & ->).
  assert (c ≠ slash) as Hcs.
  { intros ->. clear Hx Hne. induction s as [|a s IH]; [done|].
    change (String a s +:+ String slash "") with (String a (s +:+ String slash "")) in Hs.
    cbn [split_at] in Hs. revert Hs. case_bool_decide; [done|].
    by destruct (split_at slash (s +:+ String slash "")) as [[? ?]|]. }
  destruct comps as [|y comps].
  - exists ("/" +:+ s), c. split; [|done]. unfold abs_of. cbn [join app]. by rewrite str_app_assoc.
  - exists ("/" +:+ join "/" (y :: comps) +:+ String slash s), c. split; [|done].
    unfold abs_of. rewrite join_app by done. cbn [join]. by rewrite !str_app_assoc.
Qed.

Lemma ends_slash_abs comps : Forall valid_comp comps → ends_slash (abs_of comps) = bool_decide (comps = []).
Proof.
  intros Hc. case_bool_decide as E; [by subst|].
  destruct (valid_last comps Hc E) as (s & c & -> & Hs). unfold ends_slash. rewrite last_str_snoc.
  apply bool_decide_eq_false. intros [=]. done.
Qed.

(** [is_within] of [oslayer/policy.py] and [_is_under] of [local_policy.py] *)
Definition is_within (path root : string) : bool :=
  bool_decide (path = root) ||
  str_prefix (if ends_slash root then root else root +:+ "/") path.

Lemma is_within_iff p r :
  Forall valid_comp p → Forall valid_comp r →
  is_within (abs_of p) (abs_of r) = true ↔ r `prefix_of` p.
Proof.
  intros Hp Hr. unfold is_within. rewrite orb_true_iff, bool_decide_eq_true, str_prefix_iff.
  rewrite ends_slash_abs by done. split.
  - intros [E|[t E]].
    + apply abs_of_inj in E as ->; done.
    + apply (f_equal parts) in E. rewrite parts_abs_of in E by done. revert E. case_bool_decide as Er.
      * intros _. subst r. apply prefix_nil.
      * rewrite str_app_assoc. change ("/" +:+ t) with (String slash t).
        rewrite parts_app, parts_abs_of by done. intros ->. by exists (parts t).
  - intros [q ->]. destruct q as [|x q]; [left; by rewrite app_nil_r|right].
    case_bool_decide as Er.
    + subst r. unfold abs_of. by exists (join "/" (x :: q)).
    + exists (join "/" (x :: q)). unfold abs_of. rewrite join_app by done.
      by rewrite !str_app_assoc.
Qed.

(** [path_depth] *)
Definition path_depth (p : string) : nat := List.length (parts p).

Lemma path_depth_abs comps : Forall valid_comp comps → path_depth (abs_of comps) = List.length comps.
Proof. intros Hc. unfold path_depth. by rewrite parts_abs_of. Qed.

(** Two ancestors of a path are comparable, and equal when equally deep. *)
Lemma prefixes_comparable {A} (a b p : list A) :
  a `prefix_of` p → b `prefix_of` p → (List.length a ≤ List.length b)%nat → a `prefix_of` b.
Proof.
  intros [x ->] [y E] Hle. exists (drop (List.length a) b).
  apply (f_equal (take (List.length b))) in E. rewrite take_app_length in E.
  rewrite take_app_ge in E by done. rewrite <- E. by rewrite drop_app_length.
Qed.

Lemma prefix_same_length {A} (a b : list A) : a `prefix_of` b → List.length a = List.length b → a = b.
Proof.
  intros [x ->] E. rewrite length_app in E. destruct x; [by rewrite app_nil_r|cbn in E; lia].
Qed.

(** ** Normal paths and [normpath] *)

Lemma str_prefix_slash_valid comps : Forall valid_comp comps → str_prefix "/" (join "/" comps) = false.
Proof.
  intros Hc. apply not_true_iff_false. intros [t E]%str_prefix_iff.
  destruct comps as [|c comps]; [done|]. apply Forall_cons in Hc as [(Hne & _ & _ & Hs) _].
  destruct c as [|a c]; [done|].
  assert (a = slash) as -> by (destruct comps; by injection E).
  cbn in Hs. by rewrite bool_decide_true in Hs.
Qed.

Lemma split_slash_valid comps : Forall valid_comp comps → comps ≠ [] → split_slash (join "/" comps) = comps.
Proof.
  induction 1 as [|c comps (Hne & _ & _ & Hs) Hcs IH]; [done|]. intros _. destruct comps as [|c2 comps].
  - cbn [join]. by apply valid_split.
  - change (join "/" (c :: c2 :: comps)) with (c +:+ String slash (join "/" (c2 :: comps))).
    rewrite split_slash_join by done. by rewrite IH.
Qed.

Lemma norm_comps_id comps : Forall valid_comp comps → norm_comps true comps = comps.
Proof.
  intros Hc. unfold norm_comps.
  assert (∀ acc, foldl (norm_step true) acc comps = rev comps ++ acc) as ->.
  { induction Hc as [|c comps (H1 & H2 & H3 & _) Hc IH]; intros acc; [done|]. cbn. unfold norm_step at 2.
    rewrite !bool_decide_false by done. cbn. by rewrite IH, <- app_assoc. }
  by rewrite app_nil_r, rev_involutive.
Qed.

Lemma normpath_abs comps : Forall valid_comp comps → normpath (abs_of comps) = abs_of comps.
Proof.
  intros Hc. unfold normpath.
  assert (isabs (abs_of comps) = true) as Ha by (apply str_prefix_iff; by eexists).
  assert (leading (abs_of comps) = "/") as ->.
  { unfold leading. assert (str_prefix "//" (abs_of comps) = false) as ->.
    { exact (str_prefix_slash_valid comps Hc). }
    by rewrite Ha. }
  rewrite Ha.
  assert (norm_comps true (split_slash (abs_of comps)) = comps) as ->.
  { change (split_slash (abs_of comps)) with ("" :: split_slash (join "/" comps)).
    destruct comps as [|c comps]; [done|]. rewrite split_slash_valid by done.
    change (norm_comps true ("" :: c :: comps)) with (norm_comps true (c :: comps)). by apply norm_comps_id. }
  by rewrite bool_decide_false.
Qed.

Lemma rstrip_slash_snoc s c : c ≠ slash → rstrip_slash (s +:+ String c EmptyString) = s +:+ String c EmptyString.
Proof.
  intros Hc. induction s as [|a s IH].
  - change (rstrip_slash (String c EmptyString) = String c EmptyString). unfold rstrip_slash.
    by rewrite bool_decide_false.
  - change (String a s +:+ String c "") with (String a (s +:+ String c "")). cbn [rstrip_slash]. rewrite IH.
    by destruct s.
Qed.
