(* ===== verification/WorkspacePaths.v ===== *)
(** * Workspace paths: [core/llm/tools/_paths.py] and
    [services/script_runner_service/workspace_paths.py]

    The model speaks of [/workspace] and [/myspace]; the tools translate such a
    path to the real directory of the session or of the user.  POSIX only; the
    digest of a session id is a parameter. *)

From S2P Require Import Prelude PyString PyDict PosixPath.
From Stdlib Require Import Ascii.

Class Digest := { sha256 : string → string }.

Module WorkspacePaths.

Definition MYSPACE_LOGICAL : string := "/myspace".
Definition _CANON_WS : string := "/workspace".

(** [s[len(prefix):]] *)
Definition after (prefix s : string) : string := drop_str (str_len prefix) s.

(** [path == base or path.startswith(base + "/")] *)
Definition at_or_under (base path : string) : bool :=
  bool_decide (path = base) || str_prefix (base +:+ "/") path.

Definition nonempty (o : option string) : option string :=
  match o with Some "" | None => None | Some s => Some s end.

(** ** The execution service's own resolution *)

Section session.
Context `{Digest}.

(** [None] is [ValueError]. *)
Definition session_root (root session_id : string) : option string :=
  let value := strip session_id in
  if bool_decide (value = "") || (512 <? str_len value)%nat then None
  else Some (join_path (join_path root ".sessions") (sha256 value)).

Definition resolve_path (path root session_id : string) (user_id : option string) : option string :=
  let logical :=
    if at_or_under MYSPACE_LOGICAL path then
      match nonempty user_id with
      | None => None
      | Some u => Some ("/workspace/myspace/" +:+ u +:+ after MYSPACE_LOGICAL path)
      end
    else Some path in
  match logical with
  | None => None
  | Some p =>
      if at_or_under _CANON_WS p then
        match session_root root session_id with
        | None => None
        | Some base => Some (foldl join_path base (parts (after _CANON_WS p)))
        end
      else Some p
  end.
End session.

(** ** The file tools *)

Section tools.
Variable WORKSPACE_ROOT : string.
Variable local_mode : bool.

Definition canonicalize_ws_path (path : string) : string :=
  if bool_decide (WORKSPACE_ROOT = _CANON_WS) then path
  else if bool_decide (path = _CANON_WS) then WORKSPACE_ROOT
  else if str_prefix (_CANON_WS +:+ "/") path then WORKSPACE_ROOT +:+ after _CANON_WS path
  else path.

Inductive rejection : Type := BadPath | NoMyspace | OutsideRoots | OutsideProject.

Definition _is_traversal_or_bad (path : string) : bool :=
  bool_decide (path = "") || contains "/../" path || bool_decide (last_str 3 path = "/..") || contains "//" path.

(** [None] accepts the path. *)
Definition validate_workspace_path (path : string) : option rejection :=
  if _is_traversal_or_bad path then Some BadPath
  else
    let p := canonicalize_ws_path path in
    if at_or_under MYSPACE_LOGICAL p then if local_mode then Some NoMyspace else None
    else if at_or_under WORKSPACE_ROOT p then None
    else if local_mode && isabs p then None
    else Some OutsideRoots.

(** The first component after [/myspace/], empty for its root. *)
Definition first_part (rest : string) : string := default "" (head (split_slash rest)).
Fixpoint lstrip_slash (s : string) : string :=
  match s with
  | String c s' => if bool_decide (c = slash) then lstrip_slash s' else s
  | EmptyString => EmptyString
  end.

Definition validate_project_scope_path (path : string) (project_folder_name : option string) : option rejection :=
  match nonempty project_folder_name with
  | None => None
  | Some folder =>
      if bool_decide (path = "") then None
      else if negb (at_or_under MYSPACE_LOGICAL path) then None
      else if bool_decide (first_part (lstrip_slash (after MYSPACE_LOGICAL path)) = folder) then None
      else Some OutsideProject
  end.

Context `{Digest, HostPaths}.

(** Outside a local session: the workspace of the container, or the user's area. *)
Definition shared_path (path : string) (user_id : option string) : string :=
  if at_or_under MYSPACE_LOGICAL path then
    match nonempty user_id with
    | Some u => WORKSPACE_ROOT +:+ "/myspace/" +:+ u +:+ after MYSPACE_LOGICAL path
    | None => path
    end
  else canonicalize_ws_path path.

(** [None] is the [ValueError] of the service's resolution. *)
Definition to_physical_path (path : string) (user_id session_id : option string) : option string :=
  let physical :=
    match nonempty session_id with
    | Some sid => if local_mode then resolve_path path WORKSPACE_ROOT sid user_id
                  else Some (shared_path path user_id)
    | None => Some (shared_path path user_id)
    end in
  match physical with
  | None => None
  | Some p => Some (if local_mode then realpath (abspath (expanduser p)) else p)
  end.

Definition is_myspace_physical (physical_path : string) (user_id : option string) : bool :=
  match nonempty user_id with
  | None => false
  | Some u =>
      let prefix := WORKSPACE_ROOT +:+ "/myspace/" +:+ u +:+ "/" in
      bool_decide (physical_path = rstrip_slash prefix) || str_prefix prefix physical_path
  end.

(** [path.rsplit("/", 1)] *)
Definition basename (path : string) : string := List.last (split_slash path) "".
Definition parent_dir (path : string) : string :=
  if contains "/" path then str_or (join "/" (removelast (split_slash path))) WORKSPACE_ROOT
  else WORKSPACE_ROOT.
End tools.

End WorkspacePaths.

Example parent_1 : WorkspacePaths.parent_dir "/w" "/a/b/c" = "/a/b". Proof. reflexivity. Qed.
Example parent_2 : WorkspacePaths.parent_dir "/w" "/a" = "/w". Proof. reflexivity. Qed.
Example base_1 : WorkspacePaths.basename "/a/b/c" = "c". Proof. reflexivity. Qed.
