(* ===== verification/WorkspacePathsThms.v ===== *)
(** * Translated paths stay where they belong

    A path the tools accept cannot leave the workspace, the user's area or the
    session directory it is translated into. *)

From S2P Require Import Prelude PyString PyDict PosixPath WorkspacePaths.

Import WorkspacePaths.

(** ** Components of an accepted path *)

Lemma split_head t : ∃ w ws, split_slash t = w :: ws ∧ (t = w ∧ ws = [] ∨ ∃ z, t = w +:+ String slash z).
Proof.
  induction t as [|c t (w & ws & E & H)]; [exists "", []; auto|]. cbn [split_slash].
  case_bool_decide as Ec; [subst; exists "", (split_slash t); split; [done|right; by exists t]|].
  rewrite E. exists (String c w), ws. split; [done|]. destruct H as [[-> ->]|[z ->]]; [by left|right; by exists z].
Qed.

Lemma dotdot_occurs t :
  ".." ∈ tail (split_slash t) → ∃ x y, t = x +:+ "/.." +:+ y ∧ (y = "" ∨ ∃ z, y = String slash z).
Proof.
  induction t as [|c t IH]; [by intros ?%not_elem_of_nil|]. cbn [split_slash]. case_bool_decide as Ec.
  - subst. cbn [tail]. destruct (split_head t) as (w & ws & E & H). rewrite E in *. cbn [tail] in IH.
    intros [<-|Hw]%elem_of_cons.
    + destruct H as [[-> _]|[z ->]]; [exists "", ""|exists "", (String slash z)]; split; eauto.
    + destruct (IH Hw) as (x & y & -> & Hy). by exists (String slash x), y.
  - destruct (split_slash t) as [|w ws] eqn:E; [by destruct (split_slash_nonnil t)|]. cbn [tail] in *.
    intros Hw. destruct (IH Hw) as (x & y & -> & Hy). by exists (String c x), y.
Qed.

Lemma contains_app n x y : contains n (x +:+ n +:+ y) = true.
Proof.
  induction x as [|c x IH].
  - assert (str_prefix n (n +:+ y) = true) as Hp by (apply str_prefix_iff; by exists y).
    unfold str_prefix in Hp. change ("" +:+ n +:+ y) with (n +:+ y). destruct (n +:+ y); cbn [contains]; by rewrite Hp.
  - change (String c x +:+ n +:+ y) with (String c (x +:+ n +:+ y)). cbn [contains]. rewrite IH. apply orb_true_r.
Qed.

Lemma last_str_app x y : last_str (str_len y) (x +:+ y) = y.
Proof.
  assert (str_len (x +:+ y) = (str_len x + str_len y)%nat) as E.
  { induction x as [|c x IH]; [done|]. exact (f_equal S IH). }
  unfold last_str. rewrite E. replace (str_len x + str_len y - str_len y)%nat with (str_len x) by lia. clear E.
  induction x as [|c x IH]; [|exact IH]. clear. induction y as [|c y IH]; [done|].
  change (String c (String.substring 0 (str_len y) y) = String c y). by f_equal.
Qed.

Lemma no_dotdot p : _is_traversal_or_bad p = false → ".." ∉ tail (split_slash p).
Proof.
  unfold _is_traversal_or_bad. intros Hb (x & y & -> & Hy)%dotdot_occurs. bool_simpl.
  destruct Hy as [->|[z ->]].
  - match goal with Hn : last_str 3 _ ≠ _ |- _ => apply Hn end.
    replace (x +:+ "/.." +:+ "") with (x +:+ "/..") by (clear; induction x as [|c x IH]; [done|exact (f_equal (String c) IH)]).
    exact (last_str_app x "/..").
  - pose proof (contains_app "/../" x z) as Hc.
    change (contains "/../" (x +:+ "/.." +:+ String slash z) = true) in Hc. congruence.
Qed.

(** ** Normal form of a path below a base *)

Definition kept (c : string) : bool := negb (bool_decide (c = "") || bool_decide (c = ".")).

Lemma norm_fold acc cs :
  ".." ∉ cs → foldl (norm_step true) acc cs = rev (List.filter kept cs) ++ acc.
Proof.
  revert acc. induction cs as [|c cs IH]; intros acc Hn; [done|]. cbn [foldl List.filter].
  apply not_elem_of_cons in Hn as [Hc Hn]. rewrite IH by done. unfold norm_step, kept.
  destruct (bool_decide (c = "") || bool_decide (c = ".")); cbn [negb]; [done|].
  rewrite bool_decide_false by done. cbn [negb rev]. by rewrite <- app_assoc.
Qed.

Lemma kept_valid cs : (∀ c, c ∈ cs → split_at slash c = None) → ".." ∉ cs → Forall valid_comp (List.filter kept cs).
Proof.
  intros Hs Hn. apply Forall_forall. intros c Hc%list_elem_of_In%filter_In.
  destruct Hc as [Hin%list_elem_of_In Hk]. unfold kept in Hk. apply negb_true_iff, orb_false_iff in Hk as [H1 H2].
  apply bool_decide_eq_false in H1, H2. split_and!; [done..|by intros ->|by apply Hs].
Qed.

Lemma kept_id cs : Forall valid_comp cs → List.filter kept cs = cs.
Proof.
  induction 1 as [|c cs (H1 & H2 & _) Hcs IH]; [done|]. cbn. unfold kept at 1.
  rewrite !bool_decide_false by done. cbn. by rewrite IH.
Qed.

Lemma valid_no_dotdot cs : Forall valid_comp cs → ".." ∉ cs.
Proof. rewrite Forall_forall. intros Hv Hin. by destruct (Hv _ Hin) as (_ & _ & ? & _). Qed.

(** [base + "/" + rest] without [..] normalises below [base]. *)
Lemma normpath_below bc rest :
  Forall valid_comp bc → bc ≠ [] → ".." ∉ split_slash rest →
  ∃ cs, normpath (abs_of bc +:+ String slash rest) = abs_of (bc ++ cs) ∧ Forall valid_comp cs.
Proof.
  intros Hb Hne Hn. set (cs := List.filter kept (split_slash rest)).
  assert (Forall valid_comp cs) as Hcs by (apply kept_valid; [by apply split_slash_noslash|done]).
  exists cs. split; [|done]. unfold normpath.
  destruct bc as [|b bc]; [done|].
  assert (isabs (abs_of (b :: bc) +:+ String slash rest) = true) as Ha.
  { apply str_prefix_iff. exists (join "/" (b :: bc) +:+ String slash rest). unfold abs_of. by rewrite str_app_assoc. }
  assert (leading (abs_of (b :: bc) +:+ String slash rest) = "/") as ->.
  { unfold leading. rewrite Ha.
    assert (str_prefix "//" (abs_of (b :: bc) +:+ String slash rest) = false) as ->; [|done].
    apply Forall_cons in Hb as [Hb _]. apply not_true_iff_false. intros [t E]%str_prefix_iff.
    assert (str_prefix "/" (join "/" [b]) = true) as Hp; [|by rewrite str_prefix_slash_valid in Hp by (by constructor)].
    apply str_prefix_iff. destruct b as [|a b]; [by destruct Hb|]. exists b.
    destruct bc; by injection E as -> _. }
  rewrite Ha, split_slash_app.
  assert (split_slash (abs_of (b :: bc)) = "" :: b :: bc) as ->.
  { change (split_slash (abs_of (b :: bc))) with ("" :: split_slash (join "/" (b :: bc))). f_equal.
    by apply split_slash_valid. }
  unfold norm_comps. rewrite norm_fold.
  2:{ intros [Hin|Hin]%elem_of_app; [|done]. apply elem_of_cons in Hin as [?|Hin]; [done|].
      by apply (valid_no_dotdot _ Hb). }
  change (List.filter kept (("" :: b :: bc) ++ split_slash rest))
    with (List.filter kept ((b :: bc) ++ split_slash rest)).
  rewrite List.filter_app, (kept_id (b :: bc)) by done. fold cs. rewrite app_nil_r, rev_involutive.
  by rewrite bool_decide_false.
Qed.

(** ** Accepted paths *)

(** [p] is [base] or lies below it, with nothing that climbs out. *)
Definition below (base p : string) : Prop :=
  p = base ∨ ∃ rest, p = base +:+ String slash rest ∧ ".." ∉ split_slash rest.

Lemma below_within bc p :
  Forall valid_comp bc → bc ≠ [] → below (abs_of bc) p → normal (normpath p) ∧ is_within (normpath p) (abs_of bc) = true.
Proof.
  intros Hb Hne [->|(rest & -> & Hn)].
  - rewrite normpath_abs by done. split; [by exists bc|]. by apply is_within_iff.
  - destruct (normpath_below bc rest Hb Hne Hn) as (cs & -> & Hcs).
    assert (Forall valid_comp (bc ++ cs)) as Hall by by apply Forall_app. split; [by exists (bc ++ cs)|].
    apply is_within_iff; [done..|]. by exists cs.
Qed.

Lemma at_or_under_iff base p : at_or_under base p = true ↔ p = base ∨ ∃ rest, p = base +:+ String slash rest.
Proof.
  unfold at_or_under. rewrite orb_true_iff, bool_decide_eq_true, str_prefix_iff.
  split; (intros [?|[t ->]]; [by left|right; exists t]); by rewrite str_app_assoc.
Qed.

Lemma accepted_rest base rest :
  _is_traversal_or_bad (base +:+ String slash rest) = false → ".." ∉ split_slash rest.
Proof.
  intros Hb%no_dotdot Hin. apply Hb. rewrite split_slash_app.
  destruct (split_slash base) as [|w ws] eqn:E; [by destruct (split_slash_nonnil base)|]. cbn [app tail].
  apply elem_of_app. by right.
Qed.

Lemma below_accepted base p : _is_traversal_or_bad p = false → at_or_under base p = true → below base p.
Proof.
  intros Hb [->|[rest ->]]%at_or_under_iff; [by left|right]. exists rest. split; [done|].
  by apply (accepted_rest base).
Qed.

Lemma after_app base t : after base (base +:+ t) = t.
Proof. unfold after. induction base as [|c base IH]; [by destruct t|exact IH]. Qed.

Lemma after_self base : after base base = "".
Proof. unfold after. by induction base. Qed.

(** What is left of an accepted path after its alias goes below any base. *)
Lemma below_moved alias base p :
  _is_traversal_or_bad p = false → at_or_under alias p = true → below base (base +:+ after alias p).
Proof.
  intros Hb Hu. destruct (below_accepted _ _ Hb Hu) as [->|(rest & -> & Hn)].
  - rewrite after_self. left. clear. induction base as [|c base IH]; [done|exact (f_equal (String c) IH)].
  - rewrite after_app. right. by exists rest.
Qed.

Lemma canonicalize_cases root p :
  canonicalize_ws_path root p = p ∨
  at_or_under _CANON_WS p = true ∧ canonicalize_ws_path root p = root +:+ after _CANON_WS p.
Proof.
  unfold canonicalize_ws_path, at_or_under. case_bool_decide; [by left|].
  case_bool_decide as E; [subst; right; split; [done|]|].
  - rewrite after_self. clear. induction root as [|c r IH]; [done|exact (f_equal (String c) IH)].
  - destruct (str_prefix (_CANON_WS +:+ "/") p); [right|left]; done.
Qed.

Lemma canonical_below root p :
  _is_traversal_or_bad p = false → at_or_under root (canonicalize_ws_path root p) = true →
  below root (canonicalize_ws_path root p).
Proof.
  intros Hb Hu. destruct (canonicalize_cases root p) as [E|[Ha E]]; rewrite E in *.
  - by apply below_accepted.
  - by apply below_moved.
Qed.

(** Components without slashes joined onto a base. *)
Definition plain (c : string) : Prop := c ≠ "" ∧ split_at slash c = None.

Lemma split_plain cs : Forall plain cs → cs ≠ [] → split_slash (join "/" cs) = cs.
Proof.
  induction 1 as [|c cs [Hne Hs] Hcs IH]; [done|]. intros _. destruct cs as [|c2 cs].
  - cbn [join]. by apply valid_split.
  - change (join "/" (c :: c2 :: cs)) with (c +:+ String slash (join "/" (c2 :: cs))).
    rewrite split_slash_join by done. by rewrite IH.
Qed.

Lemma plain_relative c : plain c → isabs c = false.
Proof.
  intros [Hne Hs]. destruct c as [|a c]; [done|]. apply not_true_iff_false. intros [t E]%str_prefix_iff.
  injection E as -> _. cbn in Hs. by rewrite bool_decide_true in Hs.
Qed.

Lemma parts_plain s : Forall plain (parts s).
Proof.
  apply Forall_forall. intros c Hc. unfold parts in Hc. apply list_elem_of_In, filter_In in Hc as [Hin Hne].
  split; [|by apply (split_slash_noslash s), list_elem_of_In].
  unfold nonempty_str in Hne. by apply negb_true_iff, bool_decide_eq_false in Hne.
Qed.

Lemma ends_slash_snoc s c : c ≠ slash → ends_slash (s +:+ String c "") = false.
Proof. intros Hc. unfold ends_slash. rewrite last_str_snoc. apply bool_decide_eq_false. by intros [= ->]. Qed.

Lemma plain_last c : plain c → ∃ s a, c = s +:+ String a "" ∧ a ≠ slash.
Proof.
  intros [Hne Hs]. destruct (last_char c Hne) as (s & a & ->). exists s, a. split; [done|]. intros ->.
  clear Hne. induction s as [|b s IH]; [done|]. change (String b s +:+ String slash "") with (String b (s +:+ String slash "")) in Hs.
  cbn [split_at] in Hs. revert Hs. case_bool_decide; [done|]. by destruct (split_at slash _) as [[? ?]|].
Qed.

Lemma join_fold base cs :
  base ≠ "" → ends_slash base = false → Forall plain cs → cs ≠ [] →
  foldl join_path base cs = base +:+ String slash (join "/" cs).
Proof.
  intros Hb He Hcs. revert base Hb He. induction Hcs as [|c cs Hc Hcs IH]; intros base Hb He Hne; [done|].
  cbn [foldl]. assert (join_path base c = base +:+ String slash c) as ->.
  { unfold join_path. rewrite (plain_relative c Hc), He, bool_decide_false by done. done. }
  destruct cs as [|c2 cs]; [done|].
  destruct (plain_last c Hc) as (s & a & Ec & Ha). rewrite IH.
  - rewrite str_app_assoc. done.
  - by destruct base.
  - rewrite Ec. replace (base +:+ String slash (s +:+ String a "")) with ((base +:+ String slash s) +:+ String a "")
      by (by rewrite str_app_assoc). by apply ends_slash_snoc.
  - done.
Qed.

Lemma session_below base alias p :
  base ≠ "" → ends_slash base = false → _is_traversal_or_bad p = false → at_or_under alias p = true →
  below base (foldl join_path base (parts (after alias p))).
Proof.
  intros Hb He Ht Hu. destruct (decide (parts (after alias p) = [])) as [->|Hne]; [by left|right].
  exists (join "/" (parts (after alias p))). split; [by apply join_fold; [..|apply parts_plain|]|].
  rewrite split_plain by (done || apply parts_plain). intros Hin.
  destruct (below_accepted _ _ Ht Hu) as [->|(rest & -> & Hn)]; [rewrite after_self in Hin; by apply not_elem_of_nil in Hin|].
  rewrite after_app in Hin. apply Hn. change (parts (String slash rest)) with (parts ("" +:+ String slash rest)) in Hin.
  rewrite parts_app in Hin. apply elem_of_app in Hin as [Hin|Hin]; [by apply not_elem_of_nil in Hin|].
  unfold parts in Hin. apply list_elem_of_In, filter_In in Hin as [Hin _]. by apply list_elem_of_In.
Qed.

Lemma abs_of_snoc bc c : bc ≠ [] → abs_of (bc ++ [c]) = abs_of bc +:+ String slash c.
Proof. intros Hne. unfold abs_of. rewrite join_app by done. cbn [join]. by rewrite str_app_assoc. Qed.

Section theorems.
Context `{Digest, HostPaths}.

(** The directory of a session. *)
Definition session_comps (rc : list string) (sid : string) : list string := rc ++ [".sessions"; sha256 (strip sid)].

Lemma join_valid bc c : Forall valid_comp bc → bc ≠ [] → valid_comp c → join_path (abs_of bc) c = abs_of (bc ++ [c]).
Proof.
  intros Hb Hne (H1 & _ & _ & Hs). rewrite abs_of_snoc by done. unfold join_path.
  rewrite (plain_relative c) by done. rewrite ends_slash_abs, (bool_decide_false (bc = [])) by done.
  rewrite bool_decide_false by done. done.
Qed.

Lemma session_root_abs rc sid base :
  Forall valid_comp rc → rc ≠ [] → valid_comp (sha256 (strip sid)) →
  session_root (abs_of rc) sid = Some base →
  base = abs_of (session_comps rc sid) ∧ Forall valid_comp (session_comps rc sid).
Proof.
  intros Hr Hne Hd. unfold session_root. destruct (_ || _); [done|]. intros [= <-].
  assert (valid_comp ".sessions") as Hs by done.
  rewrite join_valid by done. rewrite join_valid; [|by apply Forall_app; auto|by destruct rc|done].
  unfold session_comps. rewrite <- app_assoc. split; [done|]. apply Forall_app. auto.
Qed.

(** Below a nested base a path lies in it, in its parent, and in no sibling. *)
Lemma below_nested rc a c p :
  Forall valid_comp (rc ++ [a; c]) → below (abs_of (rc ++ [a; c])) p →
  normal (normpath p) ∧ is_within (normpath p) (abs_of rc) = true ∧
  ∀ c', valid_comp c' → is_within (normpath p) (abs_of (rc ++ [a; c'])) = true ↔ c' = c.
Proof.
  intros Hv Hb. destruct (below_within (rc ++ [a; c]) p Hv ltac:(by destruct rc) Hb) as [(q & E & Hq) Hin].
  rewrite E in *. apply is_within_iff in Hin as [rest ->]; [|done..].
  assert (Forall valid_comp rc ∧ valid_comp a) as [Hrc Ha].
  { apply Forall_app in Hv as [? Hac]. apply Forall_cons in Hac as [? _]. done. }
  split; [by eexists|]. split; [|intros c' Hc'; split].
  - apply is_within_iff; [done..|]. exists ([a; c] ++ rest). by rewrite app_assoc.
  - intros Hw. apply is_within_iff in Hw as [rest' Hr]; [|done|apply Forall_app; auto].
    rewrite <- !app_assoc in Hr. apply app_inv_head in Hr. cbn in Hr. by injection Hr as <- _.
  - intros ->. apply is_within_iff; [done|done|]. by exists rest.
Qed.

Lemma shared_below rc path u :
  Forall valid_comp rc → rc ≠ [] → valid_comp u → validate_workspace_path (abs_of rc) false path = None →
  if at_or_under MYSPACE_LOGICAL path then below (abs_of (rc ++ ["myspace"; u])) (shared_path (abs_of rc) path (Some u))
  else below (abs_of rc) (shared_path (abs_of rc) path (Some u)).
Proof.
  intros Hr Hne Hu. unfold validate_workspace_path, shared_path.
  destruct (_is_traversal_or_bad path) eqn:Hb; [done|]. intros Hv.
  assert (nonempty (Some u) = Some u) as -> by (destruct Hu; by destruct u).
  destruct (at_or_under MYSPACE_LOGICAL path) eqn:Hm.
  - replace (abs_of rc +:+ "/myspace/" +:+ u +:+ after MYSPACE_LOGICAL path)
      with (abs_of (rc ++ ["myspace"; u]) +:+ after MYSPACE_LOGICAL path); [by apply below_moved|].
    change ["myspace"; u] with (["myspace"] ++ [u]). rewrite app_assoc, abs_of_snoc, abs_of_snoc by (by destruct rc).
    rewrite !str_app_assoc. done.
  - destruct (canonicalize_cases (abs_of rc) path) as [E|[Ha E]]; [|rewrite E; by apply below_moved].
    apply canonical_below; [done|]. rewrite E, Hm in Hv. rewrite E.
    destruct (at_or_under (abs_of rc) path); [done|]. by destruct (isabs path).
Qed.

(** C38: A path the file tools accept stays where it belongs.  Outside local mode
    the translated path lies, in normal form, in the workspace, and a path under
    [/myspace] in the area of its own user and of no other.  In local mode a path
    under [/workspace] is resolved into the directory of its session, and sessions
    of different digests share no path.  (The absolute host paths that local mode
    accepts as well are not translated; the permission gateway decides on them.) *)
Theorem translated_paths_stay_inside rc path u sid :
  Forall valid_comp rc → rc ≠ [] → valid_comp u →
  (validate_workspace_path (abs_of rc) false path = None →
     ∃ p, to_physical_path (abs_of rc) false path (Some u) sid = Some p ∧
       normal (normpath p) ∧ is_within (normpath p) (abs_of rc) = true ∧
       (at_or_under MYSPACE_LOGICAL path = true →
          ∀ u', valid_comp u' → is_within (normpath p) (abs_of (rc ++ ["myspace"; u'])) = true ↔ u' = u)) ∧
  (∀ s p, validate_workspace_path (abs_of rc) true path = None → at_or_under _CANON_WS path = true →
     valid_comp (sha256 (strip s)) → resolve_path path (abs_of rc) s (Some u) = Some p →
     normal (normpath p) ∧
     ∀ s', valid_comp (sha256 (strip s')) →
       is_within (normpath p) (abs_of (session_comps rc s')) = true ↔ sha256 (strip s') = sha256 (strip s)).
Proof.
  intros Hr Hne Hu. split.
  - intros Hv. exists (shared_path (abs_of rc) path (Some u)).
    pose proof (shared_below rc path u Hr Hne Hu Hv) as Hb.
    split; [unfold to_physical_path; by destruct (nonempty sid)|].
    destruct (at_or_under MYSPACE_LOGICAL path) eqn:Hm.
    + apply below_nested in Hb as (? & ? & ?); [done|].
      apply Forall_app. split; [done|]. apply Forall_cons. by rewrite Forall_singleton.
    + by apply below_within in Hb as [? ?].
  - intros s p Hv Hws Hd. unfold validate_workspace_path in Hv.
    destruct (_is_traversal_or_bad path) eqn:Hb; [done|]. clear Hv. unfold resolve_path.
    assert (at_or_under MYSPACE_LOGICAL path = false) as ->.
    { apply not_true_iff_false. intros [->|[r ->]]%at_or_under_iff; revert Hws; by vm_compute. }
    rewrite Hws. destruct (session_root (abs_of rc) s) as [base|] eqn:Es; [|done]. intros [= <-].
    destruct (session_root_abs rc s base Hr Hne Hd Es) as [-> Hsv].
    destruct (below_nested rc ".sessions" (sha256 (strip s)) _ Hsv
      (session_below (abs_of (session_comps rc s)) _CANON_WS path ltac:(done)
         ltac:(rewrite ends_slash_abs by done; by destruct rc) Hb Hws)) as (Hn & _ & Hs).
    split; [done|]. intros s' Hd'. by apply Hs.
Qed.
End theorems.

(** ** Witness *)

Definition demo_digest : Digest := {| sha256 := λ s, "h" +:+ s |}.
Definition demo_host : HostPaths := {|
  expanduser := λ s, s; cwd := "/"; realpath := λ s, s;
  path_exists := λ _, true; is_dir := λ _, true; is_link := λ _, false |}.

Lemma translated_paths_stay_inside_witness :
  @to_physical_path "/workspace" false demo_digest demo_host "/myspace/a/./b" (Some "u1") None
    = Some "/workspace/myspace/u1/a/./b" ∧
  is_within (normpath "/workspace/myspace/u1/a/./b") "/workspace" = true ∧
  ∀ p, @resolve_path demo_digest "/workspace/x" "/workspace" "s1" (Some "u1") = Some p → normal (normpath p).
Proof.
  split; [reflexivity|].
  destruct (@translated_paths_stay_inside demo_digest demo_host ["workspace"] "/myspace/a/./b" "u1" None
    ltac:(by repeat constructor) ltac:(done) ltac:(done)) as [Hc _].
  destruct Hc as (p & Hp & _ & Hw & _); [reflexivity|].
  split; [injection Hp as <-; exact Hw|]. intros q Hq.
  destruct (@translated_paths_stay_inside demo_digest demo_host ["workspace"] "/workspace/x" "u1" None
    ltac:(by repeat constructor) ltac:(done) ltac:(done)) as [_ Hl].
  exact (proj1 (Hl "s1" q eq_refl eq_refl ltac:(done) Hq)).
Defined.
