(* ===== verification/SandboxPolicy.v ===== *)
(** * The sandbox policy model: [core/sandbox/oslayer/policy.py]

    What a confined command may touch: file-system entries resolved by path
    specificity, and the network switch.  A policy travels to a launcher process
    as JSON.  [LocalAccessDecision] and [build_policy] are those of
    [core/sandbox/os_sandbox.py]. *)

From S2P Require Import Prelude PyString PyDict PosixPath.

Module SandboxPolicy.

Inductive AccessMode : Type := READ | WRITE | DENY.
#[global] Instance access_eq : EqDecision AccessMode.
Proof. solve_decision. Defined.

Definition can_read (m : AccessMode) : bool := match m with DENY => false | _ => true end.
Definition can_write (m : AccessMode) : bool := match m with WRITE => true | _ => false end.
Definition precedence (m : AccessMode) : nat := match m with READ => 0 | WRITE => 1 | DENY => 2 end.
Definition access_value (m : AccessMode) : string :=
  match m with READ => "read" | WRITE => "write" | DENY => "deny" end.

Inductive SpecialPath : Type := ROOT | MINIMAL | PROJECT_ROOTS | HOME | TMPDIR | SLASH_TMP.
#[global] Instance special_eq : EqDecision SpecialPath.
Proof. solve_decision. Defined.
Definition special_value (s : SpecialPath) : string :=
  match s with
  | ROOT => "root" | MINIMAL => "minimal" | PROJECT_ROOTS => "project_roots"
  | HOME => "home" | TMPDIR => "tmpdir" | SLASH_TMP => "slash_tmp"
  end.

Inductive FileSystemKind : Type := RESTRICTED | UNRESTRICTED.
Definition kind_value (k : FileSystemKind) : string :=
  match k with RESTRICTED => "restricted" | UNRESTRICTED => "unrestricted" end.

Inductive NetworkPolicy : Type := NET_RESTRICTED | NET_ENABLED.
Definition network_value (n : NetworkPolicy) : string :=
  match n with NET_RESTRICTED => "restricted" | NET_ENABLED => "enabled" end.
Definition is_enabled (n : NetworkPolicy) : bool :=
  match n with NET_ENABLED => true | NET_RESTRICTED => false end.

(** [SandboxPolicyError] with its cause, and the errors of reading JSON. *)
Inductive policy_error : Type :=
| EmptyPath | NoHome | NoTempDir | BadEntry
| KeyError (key : string) | ValueError (value : string) | NotAMapping.

Record PolicyContext := mkContext {
  ctx_cwd : string;
  workspace_roots : list string;
  home_dir : option string;
  temp_dirs : list string;
  protected_metadata_names : list string;
  state_dir : option string
}.

Record FileSystemEntry := mkEntry {
  e_access : AccessMode;
  e_path : option string;
  e_special : option SpecialPath;
  e_skip_if_missing : bool;
  e_ephemeral : bool
}.

Record ResolvedEntry := mkResolved {
  path : string;
  access : AccessMode;
  skip_if_missing : bool;
  ephemeral : bool
}.

Record AccessRoot := mkRoot {
  root : string;
  read_only_subpaths : list string;
  denied_subpaths : list string;
  root_protected : list string;
  root_ephemeral : bool
}.

Record ResolvedFileSystem := mkResolvedFS {
  rfs_kind : FileSystemKind;
  entries : list ResolvedEntry;
  rfs_protected : list string;
  include_platform_defaults : bool
}.

Record FileSystemPolicy := mkFSPolicy {
  fs_kind : FileSystemKind;
  fs_entries : list FileSystemEntry
}.

Record SandboxPolicy := mkPolicy { filesystem : FileSystemPolicy; network : NetworkPolicy }.

Definition is_restricted (k : FileSystemKind) : bool :=
  match k with RESTRICTED => true | UNRESTRICTED => false end.

Definition is_unconfined (p : SandboxPolicy) : bool :=
  negb (is_restricted (fs_kind (filesystem p))) && is_enabled (network p).

(** [__post_init__]: exactly one of [path] and [special]. *)
Definition valid_entry (e : FileSystemEntry) : bool :=
  match e_path e, e_special e with
  | Some _, None | None, Some _ => true
  | _, _ => false
  end.

(** Python's [for x in l: out.append(f(x))] with exceptions. *)
Fixpoint traverse {A B E} (f : A → result E B) (l : list A) : result E (list B) :=
  match l with
  | [] => Ok []
  | x :: l' =>
      with? y := f x in
      with? ys := traverse f l' in
      Ok (y :: ys)
  end.

(** ** Resolving against a host *)

Section host.
Context `{HostPaths}.

Definition normalize_logical (p : string) : result policy_error string :=
  let expanded := expanduser (strip p) in
  if bool_decide (expanded = "") then Err EmptyPath else Ok (normpath (abspath expanded)).

Definition resolve_symlinks (p : string) : result policy_error string :=
  with? n := normalize_logical p in Ok (realpath n).

Definition normalize_trusted_top_level_alias (p : string) : result policy_error string :=
  with? normalized := normalize_logical p in
  match parts normalized with
  | [] => Ok normalized
  | top :: rest =>
      let top_level := "/" +:+ top in
      if is_link top_level
      then Ok (normpath (foldl join_path (realpath top_level) rest))
      else Ok normalized
  end.

Definition filesystem_root : string := abspath "/".

Definition resolve_special (ctx : PolicyContext) (s : SpecialPath) : result policy_error (list string) :=
  match s with
  | ROOT => Ok [filesystem_root]
  | MINIMAL => Ok []
  | PROJECT_ROOTS =>
      traverse normalize_logical
        (match workspace_roots ctx with [] => [ctx_cwd ctx] | roots => roots end)
  | HOME =>
      match home_dir ctx with
      | None | Some "" => Err NoHome
      | Some h => with? n := normalize_logical h in Ok [n]
      end
  | TMPDIR =>
      match temp_dirs ctx with
      | [] => Err NoTempDir
      | dirs => traverse normalize_logical dirs
      end
  | SLASH_TMP => with? n := normalize_logical "/tmp" in Ok [n]
  end.

Definition resolve_entry (ctx : PolicyContext) (e : FileSystemEntry) : result policy_error (list string) :=
  match e_special e with
  | Some s => resolve_special ctx s
  | None => with? n := normalize_logical (default "" (e_path e)) in Ok [n]
  end.

Definition expand (ctx : PolicyContext) (e : FileSystemEntry) : result policy_error (list ResolvedEntry) :=
  with? paths := resolve_entry ctx e in
  Ok (omap (λ p, if e_skip_if_missing e && negb (path_exists p) then None
                 else Some (mkResolved p (e_access e) (e_skip_if_missing e) (e_ephemeral e))) paths).

(** [deduped]: the most restrictive entry of each path, in first-seen order. *)
Definition dedupe_step (d : pydict string ResolvedEntry) (e : ResolvedEntry) : pydict string ResolvedEntry :=
  match dget d (path e) with
  | Some existing =>
      if (precedence (access existing) <? precedence (access e))%nat then dput d (path e) e else d
  | None => dput d (path e) e
  end.
Definition dedupe (es : list ResolvedEntry) : list ResolvedEntry := (foldl dedupe_step [] es).*2.

(** The key [(path_depth(path), path)] *)
Definition depth_leb (a b : ResolvedEntry) : bool :=
  (path_depth (path a) <? path_depth (path b))%nat ||
  (path_depth (path a) =? path_depth (path b))%nat && String.leb (path a) (path b).

Definition wants_baseline (p : FileSystemPolicy) : bool :=
  existsb (λ e, bool_decide (e_special e = Some MINIMAL) && can_read (e_access e)) (fs_entries p).

Definition resolve (p : FileSystemPolicy) (ctx : PolicyContext) : result policy_error ResolvedFileSystem :=
  with? expanded := traverse (expand ctx) (fs_entries p) in
  Ok (mkResolvedFS (fs_kind p) (order_by depth_leb (dedupe (concat expanded)))
        (protected_metadata_names ctx) (wants_baseline p && is_restricted (fs_kind p))).
End host.

(** ** What a resolved policy grants *)

(** One entry of the scan: [(best_depth, winner)], [None] for depth -1. *)
Definition access_step (p : string) (best : option nat * AccessMode) (e : ResolvedEntry)
    : option nat * AccessMode :=
  if is_within p (path e) then
    let depth := path_depth (path e) in
    match best.1 with
    | None => (Some depth, access e)
    | Some d =>
        if (d <? depth)%nat then (Some depth, access e)
        else if (depth =? d)%nat && (precedence best.2 <? precedence (access e))%nat
        then (best.1, access e)
        else best
    end
  else best.

Definition effective_access (fs : ResolvedFileSystem) (p : string) : AccessMode :=
  if is_restricted (rfs_kind fs) then (foldl (access_step p) (None, DENY) (entries fs)).2 else WRITE.

Definition effective_for_entry (fs : ResolvedFileSystem) (e : ResolvedEntry) : AccessMode :=
  effective_access fs (path e).

Definition has_full_disk_read_access `{HostPaths} (fs : ResolvedFileSystem) : bool :=
  negb (is_restricted (rfs_kind fs)) || can_read (effective_access fs filesystem_root).
Definition has_full_disk_write_access `{HostPaths} (fs : ResolvedFileSystem) : bool :=
  negb (is_restricted (rfs_kind fs)) || can_write (effective_access fs filesystem_root).

Definition protected_names_for (fs : ResolvedFileSystem) (r : string) : list string :=
  let explicit := omap (λ e, if bool_decide (access e = WRITE) then Some (path e) else None) (entries fs) in
  fromkeys (List.filter (λ n, negb (bool_decide (join_path r n ∈ explicit))) (rfs_protected fs)).

(** [sorted(set(l))] *)
Definition sorted_set (l : list string) : list string := order_by String.leb (remove_dups l).

Definition wanted (fs : ResolvedFileSystem) (a : AccessMode) (e : ResolvedEntry) : bool :=
  bool_decide (effective_for_entry fs e = a) ||
  bool_decide (a = READ) && can_read (effective_for_entry fs e).

(** The entries strictly inside [e]. *)
Definition inside (fs : ResolvedFileSystem) (e : ResolvedEntry) : list ResolvedEntry :=
  List.filter (λ o, negb (bool_decide (path o = path e)) && is_within (path o) (path e)) (entries fs).

Definition root_of (fs : ResolvedFileSystem) (a : AccessMode) (e : ResolvedEntry) : AccessRoot :=
  let denied := List.filter (λ o, bool_decide (effective_for_entry fs o = DENY)) (inside fs e) in
  let read_only := List.filter (λ o, negb (bool_decide (effective_for_entry fs o = DENY)) &&
                     bool_decide (a = WRITE) && negb (can_write (effective_for_entry fs o))) (inside fs e) in
  mkRoot (path e) (sorted_set (map path read_only)) (sorted_set (map path denied))
    (if bool_decide (a = WRITE) && negb (ephemeral e) then protected_names_for fs (path e) else [])
    (ephemeral e).

Definition roots_for (fs : ResolvedFileSystem) (a : AccessMode) : list AccessRoot :=
  map (root_of fs a) (List.filter (wanted fs a) (entries fs)).

(** ** Building a policy from an access decision *)

Definition special_entry (a : AccessMode) (s : SpecialPath) : FileSystemEntry :=
  mkEntry a None (Some s) false false.
Definition path_entry (a : AccessMode) (p : string) : FileSystemEntry :=
  mkEntry a (Some p) None false false.

Definition build_filesystem_policy (writable_roots readable_roots denied_paths : list string)
    (full_disk_read writable_temp : bool) : FileSystemPolicy :=
  mkFSPolicy RESTRICTED
    ([special_entry READ (if full_disk_read then ROOT else MINIMAL)]
     ++ map (path_entry READ) readable_roots
     ++ map (path_entry WRITE) writable_roots
     ++ (if writable_temp
         then [mkEntry WRITE None (Some TMPDIR) false true; mkEntry WRITE None (Some SLASH_TMP) true true]
         else [])
     ++ map (path_entry DENY) denied_paths).

Definition unrestricted_policy : SandboxPolicy := mkPolicy (mkFSPolicy UNRESTRICTED []) NET_ENABLED.

Definition with_entries (p : FileSystemPolicy) (es : list FileSystemEntry) : FileSystemPolicy :=
  mkFSPolicy (fs_kind p) (fs_entries p ++ es).

Record LocalAccessDecision := mkDecision {
  d_approval_mode : string;
  unconfined : bool;
  writable_roots : list string;
  readable_roots : list string;
  denied_paths : list string;
  network_allowed : bool;
  writable_scratch : bool
}.

Definition build_policy (d : LocalAccessDecision) : SandboxPolicy :=
  if unconfined d then unrestricted_policy
  else mkPolicy
         (build_filesystem_policy (writable_roots d) (readable_roots d) (denied_paths d) true
            (writable_scratch d))
         (if network_allowed d then NET_ENABLED else NET_RESTRICTED).

(** ** JSON *)

Definition strs (l : list string) : json := JList (map JStr l).
Definition opt_str (o : option string) : json := match o with Some s => JStr s | None => JNull end.

Definition entry_to_json (e : FileSystemEntry) : json :=
  JDict ([("access", JStr (access_value (e_access e)))]
         ++ match e_special e with
            | Some s => [("special", JStr (special_value s))]
            | None => [("path", opt_str (e_path e))]
            end
         ++ (if e_skip_if_missing e then [("skip_if_missing", JBool true)] else [])
         ++ (if e_ephemeral e then [("ephemeral", JBool true)] else [])).

Definition fs_to_json (p : FileSystemPolicy) : json :=
  JDict [("kind", JStr (kind_value (fs_kind p))); ("entries", JList (map entry_to_json (fs_entries p)))].

Definition policy_to_json (p : SandboxPolicy) : json :=
  JDict [("filesystem", fs_to_json (filesystem p)); ("network", JStr (network_value (network p)))].

Definition context_to_json (c : PolicyContext) : json :=
  JDict [("cwd", JStr (ctx_cwd c)); ("workspace_roots", strs (workspace_roots c));
         ("home_dir", opt_str (home_dir c)); ("temp_dirs", strs (temp_dirs c));
         ("protected_metadata_names", strs (protected_metadata_names c));
         ("state_dir", opt_str (state_dir c))].

Definition AccessMode_of (v : json) : result policy_error AccessMode :=
  if json_is (Some v) "read" then Ok READ
  else if json_is (Some v) "write" then Ok WRITE
  else if json_is (Some v) "deny" then Ok DENY
  else Err (ValueError "access").

Definition SpecialPath_of (v : json) : result policy_error SpecialPath :=
  match List.find (λ s, json_is (Some v) (special_value s))
          [ROOT; MINIMAL; PROJECT_ROOTS; HOME; TMPDIR; SLASH_TMP] with
  | Some s => Ok s
  | None => Err (ValueError "special")
  end.

Definition kind_of (v : json) : result policy_error FileSystemKind :=
  if json_is (Some v) "restricted" then Ok RESTRICTED
  else if json_is (Some v) "unrestricted" then Ok UNRESTRICTED
  else Err (ValueError "kind").

Definition network_of (v : json) : result policy_error NetworkPolicy :=
  if json_is (Some v) "restricted" then Ok NET_RESTRICTED
  else if json_is (Some v) "enabled" then Ok NET_ENABLED
  else Err (ValueError "network").

Definition as_dict (v : json) : result policy_error dict :=
  match v with JDict d => Ok d | _ => Err NotAMapping end.
(** [x or ()] iterated, [x or {}] read as a mapping *)
Definition items_of (v : option json) : result policy_error (list json) :=
  match v with
  | None => Ok []
  | Some (JList l) => Ok l
  | Some v => if truthy v then Err NotAMapping else Ok []
  end.
Definition mapping_of (v : option json) : result policy_error dict :=
  match v with
  | None => Ok []
  | Some (JDict d) => Ok d
  | Some v => if truthy v then Err NotAMapping else Ok []
  end.
Definition truthy_at (d : dict) (k : string) : bool :=
  match dict_get d k with Some v => truthy v | None => false end.

(** [payload.get("path")] of a text or absent value. *)
Definition str_at (d : dict) (k : string) : result policy_error (option string) :=
  match dict_get d k with
  | None | Some JNull => Ok None
  | Some (JStr s) => Ok (Some s)
  | Some _ => Err (ValueError k)
  end.

Definition make_entry (a : AccessMode) (p : option string) (s : option SpecialPath) (skip eph : bool)
    : result policy_error FileSystemEntry :=
  let e := mkEntry a p s skip eph in if valid_entry e then Ok e else Err BadEntry.

Definition entry_from_json (v : json) : result policy_error FileSystemEntry :=
  with? d := as_dict v in
  with? a := match dict_get d "access" with Some a => AccessMode_of a | None => Err (KeyError "access") end in
  with? p := str_at d "path" in
  with? s := (if truthy_at d "special"
              then match dict_get d "special" with
                   | Some v => with? s := SpecialPath_of v in Ok (Some s)
                   | None => Ok None
                   end
              else Ok None) in
  make_entry a p s (truthy_at d "skip_if_missing") (truthy_at d "ephemeral").

Definition fs_from_json (d : dict) : result policy_error FileSystemPolicy :=
  with? k := match dict_get d "kind" with Some v => kind_of v | None => Ok RESTRICTED end in
  with? items := items_of (dict_get d "entries") in
  with? es := traverse entry_from_json items in
  Ok (mkFSPolicy k es).

Definition policy_from_json (v : json) : result policy_error SandboxPolicy :=
  with? d := as_dict v in
  with? fd := mapping_of (dict_get d "filesystem") in
  with? fs := fs_from_json fd in
  with? n := match dict_get d "network" with Some v => network_of v | None => Ok NET_RESTRICTED end in
  Ok (mkPolicy fs n).

(** [str(item)] of a JSON text; other values do not occur in a context. *)
Definition as_str (v : json) : result policy_error string :=
  match v with JStr s => Ok s | _ => Err (ValueError "str") end.
(** [payload.get(k) or None] *)
Definition opt_at (d : dict) (k : string) : result policy_error (option string) :=
  if truthy_at d k then str_at d k else Ok None.
Definition strs_at (d : dict) (k : string) : result policy_error (list string) :=
  with? items := items_of (dict_get d k) in traverse as_str items.

Definition context_from_json (v : json) : result policy_error PolicyContext :=
  with? d := as_dict v in
  with? c := match dict_get d "cwd" with Some v => as_str v | None => Err (KeyError "cwd") end in
  with? roots := strs_at d "workspace_roots" in
  with? home := opt_at d "home_dir" in
  with? temps := strs_at d "temp_dirs" in
  with? names := strs_at d "protected_metadata_names" in
  with? state := opt_at d "state_dir" in
  Ok (mkContext c roots home temps names state).

End SandboxPolicy.
