(* ===== verification/SandboxPolicyThms.v ===== *)
(** * What a sandbox policy grants

    Access is decided by the narrowest entry, whatever the order and repetition
    of the entries; the roots handed to a platform backend say the same thing; a
    policy survives its JSON form; a policy built from an access decision opens
    nothing else. *)

From S2P Require Import Prelude PyString PyDict PosixPath SandboxPolicy.

Import SandboxPolicy.

(** ** The narrowest entry governs *)

Definition covers (p : string) (e : ResolvedEntry) : Prop := is_within p (path e) = true.
Definition depth (e : ResolvedEntry) : nat := path_depth (path e).

(** [e] does not beat the pair of depth [d] and mode [m]. *)
Definition yields (e : ResolvedEntry) (d : nat) (m : AccessMode) : Prop :=
  (depth e < d)%nat ∨ depth e = d ∧ (precedence (access e) ≤ precedence m)%nat.

(** The reference: no entry covers the path and it is denied, or the narrowest
    covering entry gives the mode, the most restrictive among equally narrow. *)
Definition governs (es : list ResolvedEntry) (p : string) (m : AccessMode) : Prop :=
  (∀ e, e ∈ es → ¬ covers p e) ∧ m = DENY ∨
  ∃ e, e ∈ es ∧ covers p e ∧ access e = m ∧
    ∀ e', e' ∈ es → covers p e' → yields e' (depth e) m.

Lemma precedence_inj a b : precedence a = precedence b → a = b.
Proof. by destruct a, b. Qed.

Lemma governs_unique es p m1 m2 : governs es p m1 → governs es p m2 → m1 = m2.
Proof.
  intros [[Hn1 ->]|(e1 & H1 & C1 & <- & M1)] [[Hn2 ->]|(e2 & H2 & C2 & <- & M2)]; try done.
  - by destruct (Hn1 e2).
  - by destruct (Hn2 e1).
  - apply precedence_inj. destruct (M1 e2 H2 C2), (M2 e1 H1 C1); lia.
Qed.

(** The state of the scan after the entries [es]. *)
Definition scanned (p : string) (es : list ResolvedEntry) (r : option nat * AccessMode) : Prop :=
  match r with
  | (None, m) => m = DENY ∧ ∀ e, e ∈ es → ¬ covers p e
  | (Some d, m) =>
      ∃ e, e ∈ es ∧ covers p e ∧ access e = m ∧ depth e = d ∧
        ∀ e', e' ∈ es → covers p e' → yields e' d m
  end.

(** The scan keeps its best entry against [e], or takes [e]. *)
Lemma scanned_keep p es d m e :
  scanned p es (Some d, m) → (covers p e → yields e d m) → scanned p (es ++ [e]) (Some d, m).
Proof.
  intros (e0 & He0 & Hc & Ha & Hd & Hy) Hk. exists e0. split_and!; [set_solver|done..|].
  intros e' [He'|He'%list_elem_of_singleton]%elem_of_app; [by apply Hy|by subst].
Qed.

Lemma scanned_take p es e :
  covers p e → (∀ e', e' ∈ es → covers p e' → yields e' (depth e) (access e)) →
  scanned p (es ++ [e]) (Some (depth e), access e).
Proof.
  intros Hc Hy. exists e. split_and!; [set_solver|done..|].
  intros e' [He'|He'%list_elem_of_singleton]%elem_of_app Hc'; [by apply Hy|subst; by right].
Qed.

Lemma scanned_step p es r e : scanned p es r → scanned p (es ++ [e]) (access_step p r e).
Proof.
  intros Hs. unfold access_step. destruct (is_within p (path e)) eqn:Ec.
  2:{ destruct r as [[d|] m]; [apply scanned_keep; [done|]; unfold covers; congruence|].
      destruct Hs as [-> Hn]. split; [done|].
      intros e' [He'|He'%list_elem_of_singleton]%elem_of_app; [by apply Hn|].
      subst. unfold covers. congruence. }
  destruct r as [[d|] m]; cbn [fst snd].
  - fold (depth e). pose proof Hs as (_ & _ & _ & _ & _ & Hy).
    destruct (d <? depth e)%nat eqn:E1; [apply Nat.ltb_lt in E1|apply Nat.ltb_ge in E1].
    { apply scanned_take; [done|]. intros e' He' Hc'. left. destruct (Hy e' He' Hc'); lia. }
    destruct ((depth e =? d)%nat && (precedence m <? precedence (access e))%nat) eqn:E2.
    + apply andb_true_iff in E2 as [E2 E3]. apply Nat.eqb_eq in E2. apply Nat.ltb_lt in E3.
      rewrite <- E2. apply scanned_take; [done|]. intros e' He' Hc'. unfold yields.
      destruct (Hy e' He' Hc'); lia.
    + apply scanned_keep; [done|]. intros _. unfold yields.
      apply andb_false_iff in E2 as [E2|E2]; [apply Nat.eqb_neq in E2|apply Nat.ltb_ge in E2]; lia.
  - destruct Hs as [-> Hn]. apply scanned_take; [done|]. intros e' He' Hc'. by destruct (Hn e').
Qed.

Lemma access_fold p es : scanned p es (foldl (access_step p) (None, DENY) es).
Proof.
  induction es as [|e es IH] using rev_ind.
  - split; [done|]. by intros e ?%not_elem_of_nil.
  - rewrite foldl_app. by apply scanned_step.
Qed.

Lemma effective_governs fs p :
  is_restricted (rfs_kind fs) = true → governs (entries fs) p (effective_access fs p).
Proof.
  intros Hr. unfold effective_access. rewrite Hr. pose proof (access_fold p (entries fs)) as Hs.
  destruct (foldl _ _ _) as [[d|] m]; cbn in *.
  - right. destruct Hs as (e & ? & ? & ? & <- & ?). by exists e.
  - left. by destruct Hs.
Qed.

(** Lists that cover each other up to precedence govern alike. *)
Lemma governs_dominated es es' p m :
  (∀ e, e ∈ es → e ∈ es') →
  (∀ e, e ∈ es' → ∃ e', e' ∈ es ∧ path e' = path e ∧ (precedence (access e) ≤ precedence (access e'))%nat) →
  governs es p m → governs es' p m.
Proof.
  intros Hsub Hdom [[Hn ->]|(e & He & Hc & <- & Hy)].
  - left. split; [|done]. intros e He Hc. destruct (Hdom e He) as (e' & He' & Ep & _).
    apply (Hn e' He'). unfold covers in *. by rewrite Ep.
  - right. exists e. split_and!; [by apply Hsub|done|done|]. intros e1 H1 C1.
    destruct (Hdom e1 H1) as (e2 & H2 & Ep & Hle). assert (covers p e2) as C2 by (unfold covers in *; by rewrite Ep).
    destruct (Hy e2 H2 C2) as [Hlt|[Heq Hpr]]; unfold yields, depth in *; rewrite Ep in *; [by left|right]. lia.
Qed.

(** The dict after the entries [es]: the most restrictive entry of each path. *)
Definition deduped (es : list ResolvedEntry) (d : pydict string ResolvedEntry) : Prop :=
  NoDup d.*1 ∧
  (∀ k e, dget d k = Some e → e ∈ es ∧ path e = k) ∧
  (∀ e, e ∈ es → ∃ e', dget d (path e) = Some e' ∧
     (precedence (access e) ≤ precedence (access e'))%nat).

Lemma deduped_put es d x :
  deduped es d →
  (∀ e, dget d (path x) = Some e → (precedence (access e) ≤ precedence (access x))%nat) →
  deduped (es ++ [x]) (dput d (path x) x).
Proof.
  intros (Hn & Hb & Hf) Hx. split_and!; [by apply dput_NoDup| |].
  - intros k e. rewrite dget_dput. case_bool_decide as E; intros Hg.
    + simplify_eq. split; [set_solver|done].
    + destruct (Hb k e Hg). split; [set_solver|done].
  - intros e [He|He%list_elem_of_singleton]%elem_of_app.
    + rewrite dget_dput. destruct (Hf e He) as (e' & Hg & Hle). case_bool_decide as E; [|by exists e'].
      exists x. split; [done|]. rewrite <- E in Hg. specialize (Hx _ Hg). lia.
    + subst. exists x. split; [apply dget_dput_eq|done].
Qed.

Lemma deduped_step es d x : deduped es d → deduped (es ++ [x]) (dedupe_step d x).
Proof.
  intros Hd. unfold dedupe_step. destruct (dget d (path x)) as [ex|] eqn:Eg.
  - destruct (precedence (access ex) <? precedence (access x))%nat eqn:El.
    + apply Nat.ltb_lt in El. apply deduped_put; [done|]. intros e He. simplify_eq. lia.
    + apply Nat.ltb_ge in El. destruct Hd as (Hn & Hb & Hf). split_and!; [done| |].
      * intros k e Hg. destruct (Hb k e Hg). split; [set_solver|done].
      * intros e [He|He%list_elem_of_singleton]%elem_of_app; [by apply Hf|]. subst. by exists ex.
  - apply deduped_put; [done|]. intros e He. congruence.
Qed.

Lemma dedupe_dict es : deduped es (foldl dedupe_step [] es).
Proof.
  induction es as [|x es IH] using rev_ind.
  - split_and!; [constructor|done|by intros e ?%not_elem_of_nil].
  - rewrite foldl_app. by apply deduped_step.
Qed.

Lemma dedupe_spec es :
  (∀ e, e ∈ dedupe es → e ∈ es) ∧
  (∀ e, e ∈ es → ∃ e', e' ∈ dedupe es ∧ path e' = path e ∧
     (precedence (access e) ≤ precedence (access e'))%nat).
Proof.
  unfold dedupe. destruct (dedupe_dict es) as (Hn & Hb & Hf). split.
  - intros e ([k e0] & -> & Hin)%list_elem_of_fmap. apply (elem_dget _ _ _ Hn) in Hin.
    by destruct (Hb _ _ Hin).
  - intros e He. destruct (Hf e He) as (e' & Hg & Hle). exists e'.
    split_and!; [|by destruct (Hb _ _ Hg)|done].
    apply dget_elem in Hg. by apply (list_elem_of_fmap_2 snd) in Hg.
Qed.

Lemma traverse_Ok {A B E} (f : A → result E B) l ys :
  traverse f l = Ok ys → Forall2 (λ x y, f x = Ok y) l ys.
Proof.
  revert ys. induction l as [|x l IH]; intros ys; cbn; [intros [= <-]; constructor|].
  destruct (f x) eqn:Ef; [|done]. destruct (traverse f l) as [ys'|] eqn:Et; [|done].
  intros [= <-]. constructor; auto.
Qed.

Lemma traverse_elem {A B E} (f : A → result E (list B)) l ys b :
  traverse f l = Ok ys → b ∈ concat ys ↔ ∃ x y, x ∈ l ∧ f x = Ok y ∧ b ∈ y.
Proof.
  intros Ht%traverse_Ok. induction Ht as [|x y l ys Hxy Ht IH]; cbn.
  - split; [by intros ?%not_elem_of_nil|]. by intros (? & ? & ?%not_elem_of_nil & _).
  - rewrite elem_of_app, IH. split.
    + intros [Hb|(x' & y' & ? & ? & ?)]; [exists x, y|exists x', y']; split_and!; try done; [left|by right].
    + intros (x' & y' & [->|Hx]%elem_of_cons & Hf & Hb); [left; congruence|right; eauto].
Qed.

Lemma governs_ext es es' p m : (∀ e, e ∈ es ↔ e ∈ es') → governs es p m → governs es' p m.
Proof. intros He. apply governs_dominated; [by intros; apply He|]. intros e Hin. exists e. by rewrite He. Qed.

Section theorems.
Context `{HostPaths}.

Lemma resolve_governs pol ctx fs p :
  fs_kind pol = RESTRICTED → resolve pol ctx = Ok fs →
  ∃ raw, traverse (expand ctx) (fs_entries pol) = Ok raw ∧ rfs_kind fs = RESTRICTED ∧
    (∀ e, e ∈ entries fs → e ∈ concat raw) ∧ governs (concat raw) p (effective_access fs p).
Proof.
  intros Hk. unfold resolve. destruct (traverse _ _) as [raw|] eqn:Et; [|done]. intros [= <-].
  exists raw. destruct (dedupe_spec (concat raw)) as [D1 D2]. cbn.
  split_and!; [done|done|intros e He; apply D1; by rewrite order_by_perm in He|].
  eapply governs_dominated; [| |apply effective_governs; cbn; by rewrite Hk].
  - cbn. intros e He. apply D1. by rewrite order_by_perm in He.
  - cbn. intros e He. destruct (D2 e He) as (e' & ? & ? & ?). exists e'. by rewrite order_by_perm.
Qed.

(** The access of a path is a matter of its narrowest entry and of nothing
    else.  However the entries of a restricted policy are ordered, repeated or
    split, resolving it (expanding symbols, dropping missing paths, removing
    duplicates, sorting) grants a path the mode of the narrowest expanded entry
    that covers it, the most restrictive among equally narrow ones, and denies a
    path no entry covers. *)
Theorem narrowest_entry_governs pol pol' ctx fs fs' p :
  fs_kind pol = RESTRICTED → fs_kind pol' = RESTRICTED →
  resolve pol ctx = Ok fs → resolve pol' ctx = Ok fs' →
  (∃ raw, traverse (expand ctx) (fs_entries pol) = Ok raw ∧
     ∀ m, effective_access fs p = m ↔ governs (concat raw) p m) ∧
  ((∀ e, e ∈ fs_entries pol ↔ e ∈ fs_entries pol') →
     effective_access fs' p = effective_access fs p).
Proof.
  intros Hk Hk' Hr Hr'.
  destruct (resolve_governs _ _ _ p Hk Hr) as (raw & Ht & _ & _ & Hg).
  destruct (resolve_governs _ _ _ p Hk' Hr') as (raw' & Ht' & _ & _ & Hg'). split.
  - exists raw. split; [done|]. intros m. split; [by intros <-|]. intros Hm. by eapply governs_unique.
  - intros He. eapply governs_unique; [exact Hg'|]. eapply governs_ext; [|exact Hg].
    intros e. rewrite (traverse_elem _ _ _ _ Ht), (traverse_elem _ _ _ _ Ht').
    split; intros (x & y & ? & ? & ?); exists x, y; split_and!; try done; by apply He.
Qed.

(** ** The roots a backend expresses *)

Definition normal_fs (fs : ResolvedFileSystem) : Prop := ∀ e, e ∈ entries fs → normal (path e).

Lemma covers_iff p e :
  normal p → normal (path e) →
  ∃ cp ce, p = abs_of cp ∧ path e = abs_of ce ∧ Forall valid_comp cp ∧ Forall valid_comp ce ∧
    (covers p e ↔ ce `prefix_of` cp).
Proof.
  intros (cp & -> & Hp) (ce & He & Hce). exists cp, ce. split_and!; try done.
  unfold covers. rewrite He. by apply is_within_iff.
Qed.

(** Of two entries that cover a path, the deeper lies within the other. *)
Lemma covers_nested p e e' :
  normal p → normal (path e) → normal (path e') → covers p e → covers p e' →
  (depth e ≤ depth e')%nat → is_within (path e') (path e) = true ∧ (depth e = depth e' → path e = path e').
Proof.
  intros Hp He He' C C' Hle.
  destruct (covers_iff p e Hp He) as (cp & ce & -> & Ee & Vp & Ve & I).
  destruct (covers_iff (abs_of cp) e' Hp He') as (cp' & ce' & E' & Ee' & Vp' & Ve' & I').
  apply abs_of_inj in E' as <-; [|done..]. apply I in C. apply I' in C'.
  unfold depth in *. rewrite Ee, Ee', !path_depth_abs in * by done.
  pose proof (prefixes_comparable ce ce' cp C C' Hle) as Hpre.
  split; [by apply is_within_iff|]. intros Hd. by rewrite (prefix_same_length ce ce').
Qed.

Lemma within_trans p e e' :
  normal p → normal (path e) → normal (path e') →
  covers p e' → is_within (path e') (path e) = true → covers p e.
Proof.
  intros Hp He He' C' W.
  destruct (covers_iff p e Hp He) as (cp & ce & -> & Ee & Vp & Ve & I).
  destruct (covers_iff (abs_of cp) e' Hp He') as (cp' & ce' & E' & Ee' & Vp' & Ve' & I').
  apply abs_of_inj in E' as <-; [|done..]. apply I. rewrite Ee, Ee', is_within_iff in W by done.
  etrans; [exact W|by apply I'].
Qed.

Lemma within_depth e e' :
  normal (path e) → normal (path e') → is_within (path e') (path e) = true → path e' ≠ path e →
  (depth e < depth e')%nat.
Proof.
  intros (ce & Ee & Ve) (ce' & Ee' & Ve') W Hne. unfold depth.
  rewrite Ee, Ee', !path_depth_abs by done. rewrite Ee, Ee', is_within_iff in W by done.
  destruct W as [q ->]. rewrite length_app. destruct q; [|cbn; lia].
  rewrite app_nil_r in *. congruence.
Qed.

(** The narrowest entry of a path has the access of the path at its own path. *)
Lemma governing_entry fs p :
  normal_fs fs → normal p → is_restricted (rfs_kind fs) = true →
  (∃ e, e ∈ entries fs ∧ covers p e) →
  ∃ n, n ∈ entries fs ∧ covers p n ∧ effective_for_entry fs n = effective_access fs p ∧
    ∀ e, e ∈ entries fs → covers p e → (depth e ≤ depth n)%nat.
Proof.
  intros Hn Hp Hr (e0 & He0 & C0).
  destruct (effective_governs fs p Hr) as [[Hno _]|(n & Hin & Cn & Ha & Hy)]; [by destruct (Hno e0)|].
  assert (∀ e, e ∈ entries fs → covers p e → (depth e ≤ depth n)%nat) as Hmax.
  { intros e He Ce. destruct (Hy e He Ce); lia. }
  exists n. split_and!; [done|done| |done].
  eapply governs_unique; [by apply effective_governs|]. right. exists n.
  assert (covers (path n) n) as Cnn by (unfold covers, is_within; by rewrite bool_decide_true).
  split_and!; [done|done|done|]. intros e He Ce.
  apply Hy; [done|]. by apply (within_trans p e n); auto.
Qed.

Lemma elem_of_sorted_set x l : x ∈ sorted_set l ↔ x ∈ l.
Proof. unfold sorted_set. by rewrite order_by_perm, elem_of_remove_dups. Qed.

Lemma elem_of_inside fs e o :
  o ∈ inside fs e ↔ o ∈ entries fs ∧ path o ≠ path e ∧ is_within (path o) (path e) = true.
Proof.
  unfold inside. rewrite list_elem_of_In, filter_In, <- list_elem_of_In, andb_true_iff,
    negb_true_iff, bool_decide_eq_false. naive_solver.
Qed.

Lemma elem_of_carved fs e (f : ResolvedEntry → bool) q :
  q ∈ sorted_set (map path (List.filter f (inside fs e))) ↔
  ∃ o, o ∈ inside fs e ∧ f o = true ∧ q = path o.
Proof.
  rewrite elem_of_sorted_set, list_elem_of_In, in_map_iff.
  setoid_rewrite filter_In. setoid_rewrite <- list_elem_of_In. naive_solver.
Qed.

(** A path that is not denied has an entry that governs it, none inside it covers it. *)
Lemma governing_root fs p (ok : AccessMode → bool) :
  normal_fs fs → normal p → is_restricted (rfs_kind fs) = true → ok DENY = false →
  ok (effective_access fs p) = true →
  ∃ n, n ∈ entries fs ∧ covers p n ∧ effective_for_entry fs n = effective_access fs p ∧
    ∀ o, o ∈ inside fs n → is_within p (path o) = false.
Proof.
  intros Hn Hp Hr Hdeny Hok. destruct (governing_entry fs p Hn Hp Hr) as (n & Hin & Cn & Hnn & Hmax).
  { destruct (effective_governs fs p Hr) as [[_ E]|(e & He & Ce & _)]; [congruence|eauto]. }
  exists n. split_and!; [done..|]. intros o (Ho & Hne & Hw)%elem_of_inside.
  destruct (is_within p (path o)) eqn:E; [|done].
  pose proof (Hmax o Ho E). pose proof (within_depth n o (Hn n Hin) (Hn o Ho) Hw Hne). lia.
Qed.

(** Under an entry the governing entry of a path is that entry or lies inside it. *)
Lemma governing_below fs p e :
  normal_fs fs → normal p → is_restricted (rfs_kind fs) = true → e ∈ entries fs → covers p e →
  ∃ n, n ∈ entries fs ∧ covers p n ∧ effective_for_entry fs n = effective_access fs p ∧
    (n ∈ inside fs e ∨ path n = path e).
Proof.
  intros Hn Hp Hr He Ce. destruct (governing_entry fs p Hn Hp Hr) as (n & Hin & Cn & Hnn & Hmax); [eauto|].
  exists n. split_and!; [done..|]. destruct (decide (path n = path e)) as [E|E]; [by right|left].
  apply elem_of_inside. split_and!; [done..|]. by apply (covers_nested p e n); auto.
Qed.

Lemma elem_of_roots fs a r :
  r ∈ roots_for fs a ↔ ∃ e, e ∈ entries fs ∧ wanted fs a e = true ∧ r = root_of fs a e.
Proof.
  unfold roots_for. rewrite list_elem_of_In, in_map_iff. setoid_rewrite filter_In.
  setoid_rewrite <- list_elem_of_In. naive_solver.
Qed.

(** The roots handed to a platform backend express the policy exactly.  A
    path is writable precisely when a write root contains it and none of that
    root's read-only or denied carve-outs does; it is readable precisely when a
    read root contains it and none of that root's denied carve-outs does. *)
Theorem backend_roots_exact fs p :
  normal_fs fs → normal p → rfs_kind fs = RESTRICTED →
  (can_write (effective_access fs p) = true ↔
     ∃ r, r ∈ roots_for fs WRITE ∧ is_within p (root r) = true ∧
       ∀ q, q ∈ read_only_subpaths r ∨ q ∈ denied_subpaths r → is_within p q = false) ∧
  (can_read (effective_access fs p) = true ↔
     ∃ r, r ∈ roots_for fs READ ∧ is_within p (root r) = true ∧
       ∀ q, q ∈ denied_subpaths r → is_within p q = false).
Proof.
  intros Hn Hp Hk. assert (is_restricted (rfs_kind fs) = true) as Hr by by rewrite Hk.
  split; split.
  - intros Hw. destruct (governing_root fs p can_write Hn Hp Hr eq_refl Hw) as (n & Hin & Cn & Hnn & Hclean).
    exists (root_of fs WRITE n). split_and!; [apply elem_of_roots; exists n; split_and!; [done| |done]|done|].
    + unfold wanted. rewrite Hnn. destruct (effective_access fs p); done.
    + intros q [Hq|Hq]; apply elem_of_carved in Hq as (o & Ho & _ & ->); by apply Hclean.
  - intros (r & (e & He & Hwant & ->)%elem_of_roots & Ce & Hclean).
    destruct (governing_below fs p e Hn Hp Hr He Ce) as (n & Hin & Cn & Hnn & Hcase).
    unfold wanted in Hwant. cbn in Hwant. rewrite orb_false_r in Hwant. apply bool_decide_eq_true in Hwant.
    destruct Hcase as [Hins|E].
    + destruct (effective_for_entry fs n) eqn:En; rewrite <- Hnn; [exfalso|done|exfalso].
      * unfold covers in Cn. rewrite (Hclean (path n)) in Cn; [done|]. left. apply elem_of_carved. exists n. by rewrite En.
      * unfold covers in Cn. rewrite (Hclean (path n)) in Cn; [done|]. right. apply elem_of_carved. exists n. by rewrite En.
    + unfold effective_for_entry in *. rewrite E in Hnn. by rewrite <- Hnn, Hwant.
  - intros Hw. destruct (governing_root fs p can_read Hn Hp Hr eq_refl Hw) as (n & Hin & Cn & Hnn & Hclean).
    exists (root_of fs READ n). split_and!; [apply elem_of_roots; exists n; split_and!; [done| |done]|done|].
    + unfold wanted. rewrite Hnn. destruct (effective_access fs p); done.
    + intros q Hq. apply elem_of_carved in Hq as (o & Ho & _ & ->). by apply Hclean.
  - intros (r & (e & He & Hwant & ->)%elem_of_roots & Ce & Hclean).
    destruct (governing_below fs p e Hn Hp Hr He Ce) as (n & Hin & Cn & Hnn & Hcase).
    assert (can_read (effective_for_entry fs e) = true) as Hre.
    { unfold wanted in Hwant. apply orb_true_iff in Hwant as [Hw|Hw]; [|by apply andb_true_iff in Hw as [_ ?]].
      apply bool_decide_eq_true in Hw. by rewrite Hw. }
    destruct Hcase as [Hins|E].
    + destruct (effective_for_entry fs n) eqn:En; rewrite <- Hnn; [done|done|exfalso].
      unfold covers in Cn. rewrite (Hclean (path n)) in Cn; [done|]. apply elem_of_carved. exists n. by rewrite En.
    + unfold effective_for_entry in *. rewrite E in Hnn. by rewrite <- Hnn.
Qed.

(** ** A policy built from an access decision *)

Lemma expand_elem ctx e y r :
  expand ctx e = Ok y → r ∈ y →
  access r = e_access e ∧ ∃ ps, resolve_entry ctx e = Ok ps ∧ path r ∈ ps.
Proof.
  unfold expand. destruct (resolve_entry ctx e) as [ps|] eqn:Er; [|done]. intros [= <-] Hr.
  apply list_elem_of_omap in Hr as (q & Hq & Hr). destruct (_ && _); [done|]. injection Hr as <-.
  split; [done|]. by exists ps.
Qed.

Lemma traverse_in {A B E} (f : A → result E B) l ys y :
  traverse f l = Ok ys → y ∈ ys → ∃ x, x ∈ l ∧ f x = Ok y.
Proof.
  intros Ht%traverse_Ok. induction Ht as [|x z l ys Hxz Ht IH]; [by intros ?%not_elem_of_nil|].
  intros [->|Hy]%elem_of_cons; [exists x; split; [left|done]|].
  destruct (IH Hy) as (x' & ? & ?). exists x'. split; [by right|done].
Qed.

(** Where a write entry of a built policy comes from. *)
Lemma build_write_entry d ctx e ps q :
  unconfined d = false → e ∈ fs_entries (filesystem (build_policy d)) → e_access e = WRITE →
  resolve_entry ctx e = Ok ps → q ∈ ps →
  ∃ w, (w ∈ writable_roots d ∨ writable_scratch d = true ∧ (w ∈ temp_dirs ctx ∨ w = "/tmp")) ∧
    normalize_logical w = Ok q.
Proof.
  intros Hu He Ha. unfold build_policy in He. rewrite Hu in He. cbn in He.
  apply elem_of_cons in He as [->|He]; [done|].
  apply elem_of_app in He as [(w & -> & _)%list_elem_of_fmap|He]; [done|].
  apply elem_of_app in He as [(w & -> & Hw)%list_elem_of_fmap|He].
  { cbn. destruct (normalize_logical w) as [n|] eqn:En; [|done]. intros [= <-] Hq%list_elem_of_singleton.
    subst. exists w. auto. }
  apply elem_of_app in He as [He|(w & -> & _)%list_elem_of_fmap]; [|done].
  destruct (writable_scratch d); [|by apply not_elem_of_nil in He].
  apply elem_of_cons in He as [->|He].
  - cbn. destruct (temp_dirs ctx) as [|t ts] eqn:Et; [done|]. intros Hp Hq.
    change (traverse normalize_logical (t :: ts) = Ok ps) in Hp.
    destruct (traverse_in _ _ _ _ Hp Hq) as (w & Hw & Hn). exists w. split; [right|done]. split; [done|by left].
  - apply list_elem_of_singleton in He as ->. cbn.
    destruct (normalize_logical "/tmp") as [n|] eqn:En; [|done]. intros [= <-] Hq%list_elem_of_singleton.
    subst. exists "/tmp". auto.
Qed.

(** A writable path comes from a writable root or a temporary directory. *)
Lemma writable_origin d ctx fs p :
  unconfined d = false → resolve (filesystem (build_policy d)) ctx = Ok fs →
  can_write (effective_access fs p) = true →
  ∃ w n, (w ∈ writable_roots d ∨ writable_scratch d = true ∧ (w ∈ temp_dirs ctx ∨ w = "/tmp")) ∧
    normalize_logical w = Ok n ∧ is_within p n = true.
Proof.
  intros Hu Hr Hw.
  assert (fs_kind (filesystem (build_policy d)) = RESTRICTED) as Hk by (unfold build_policy; by rewrite Hu).
  destruct (resolve_governs _ _ _ p Hk Hr) as (raw & Ht & _ & _ & Hg).
  destruct Hg as [[_ E]|(e & He & Ce & Ha & _)]; [by rewrite E in Hw|].
  rewrite (traverse_elem _ _ _ _ Ht) in He. destruct He as (x & y & Hx & Hxy & Hey).
  destruct (expand_elem _ _ _ _ Hxy Hey) as (Hax & ps & Hps & Hin).
  destruct (build_write_entry d ctx x ps (path e)) as (w & Hw2 & Hn); try done.
  { rewrite <- Hax, Ha. by destruct (effective_access fs p). }
  by exists w, (path e).
Qed.

(** The policy built from an access decision opens nothing but what the
    decision names.  A writable path lies under a writable root, or under a
    temporary directory when scratch space was granted; and a path under a denied
    path is readable only through an entry strictly narrower than the denial. *)
Theorem decision_opens_nothing_else d ctx fs p :
  unconfined d = false → resolve (filesystem (build_policy d)) ctx = Ok fs →
  (can_write (effective_access fs p) = true →
     ∃ w n, (w ∈ writable_roots d ∨
             writable_scratch d = true ∧ (w ∈ temp_dirs ctx ∨ w = "/tmp")) ∧
       normalize_logical w = Ok n ∧ is_within p n = true) ∧
  (∀ q n, q ∈ denied_paths d → normalize_logical q = Ok n → is_within p n = true →
     can_read (effective_access fs p) = true →
     ∃ e, e ∈ entries fs ∧ covers p e ∧ (path_depth n < path_depth (path e))%nat ∧ access e ≠ DENY).
Proof.
  intros Hu Hr.
  assert (fs_kind (filesystem (build_policy d)) = RESTRICTED) as Hk.
  { unfold build_policy. by rewrite Hu. }
  destruct (resolve_governs _ _ _ p Hk Hr) as (raw & Ht & Hkf & Hsub & Hg).
  pose proof (effective_governs fs p ltac:(by rewrite Hkf)) as Hgf. split.
  - by apply writable_origin.
  - intros q n Hq Hn Hpn Hread.
    assert (mkResolved n DENY false false ∈ concat raw) as Hden.
    { rewrite (traverse_elem _ _ _ _ Ht). exists (path_entry DENY q), [mkResolved n DENY false false].
      split_and!; [|unfold expand; cbn; by rewrite Hn|left].
      unfold build_policy. rewrite Hu. cbn. right.
      rewrite !elem_of_app. right; right; right. by apply list_elem_of_fmap_2. }
    destruct Hgf as [[_ E]|(e & He & Ce & Ha & Hy)]; [by rewrite E in Hread|].
    exists e. assert (access e ≠ DENY) as Hne by (rewrite Ha; by intros E; rewrite E in Hread).
    split_and!; [done|done| |done].
    destruct Hg as [[Hno _]|(e1 & He1 & Ce1 & Ha1 & Hy1)]; [by destruct (Hno _ Hden)|].
    pose proof (Hy1 e (Hsub e He) Ce) as Hee1.
    destruct (Hy1 _ Hden Hpn) as [Hlt|[_ Hpr]].
    2:{ cbn in Hpr. rewrite <- Ha in Hpr. destruct (access e); cbn in Hpr; [lia|lia|done]. }
    (* the winner of the raw list is as deep as the winner of the resolved one *)
    destruct Hee1 as [Hlt2|[Heq _]]; [|change (path_depth n < depth e1)%nat in Hlt; unfold depth in *; lia].
    destruct (dedupe_spec (concat raw)) as [_ D2]. destruct (D2 e1 He1) as (e2 & H2 & P2 & _).
    assert (e2 ∈ entries fs) as H2f.
    { revert Hr. unfold resolve. rewrite Ht. intros [= <-]. cbn. by rewrite order_by_perm. }
    assert (covers p e2) as C2 by (unfold covers in *; by rewrite P2).
    destruct (Hy e2 H2f C2) as [?|[? _]]; unfold depth in *; rewrite P2 in *; lia.
Qed.
End theorems.

(** ** Policies as JSON *)

Lemma traverse_map {A B E} (f : B → result E A) (g : A → B) l :
  (∀ x, x ∈ l → f (g x) = Ok x) → traverse f (map g l) = Ok l.
Proof.
  induction l as [|x l IH]; cbn; intros Hl; [done|].
  rewrite Hl by left. rewrite IH; [done|]. intros y Hy. apply Hl. by right.
Qed.

Lemma entry_roundtrip e : valid_entry e = true → entry_from_json (entry_to_json e) = Ok e.
Proof.
  destruct e as [a [p|] [s|] sk eph]; cbn; try done; intros _.
  - by destruct a, sk, eph.
  - by destruct a, s, sk, eph.
Qed.

Lemma get_2 k1 v1 k2 v2 :
  k1 ≠ k2 → dict_get [(k1, v1); (k2, v2)] k1 = Some v1 ∧ dict_get [(k1, v1); (k2, v2)] k2 = Some v2.
Proof. intros. cbn. by rewrite (bool_decide_true (k1 = k1)), (bool_decide_false (k1 = k2)), (bool_decide_true (k2 = k2)). Qed.

Lemma fs_roundtrip k es :
  forallb valid_entry es = true →
  fs_from_json [("kind", JStr (kind_value k)); ("entries", JList (map entry_to_json es))] = Ok (mkFSPolicy k es).
Proof.
  intros He. rewrite forallb_forall in He. unfold fs_from_json.
  destruct (get_2 "kind" (JStr (kind_value k)) "entries" (JList (map entry_to_json es))) as [-> ->]; [done|].
  cbn [items_of]. rewrite traverse_map; [by destruct k|].
  intros e Hin. apply entry_roundtrip, He. by apply list_elem_of_In.
Qed.

Lemma strs_roundtrip d k l : dict_get d k = Some (strs l) → strs_at d k = Ok l.
Proof. intros Hd. unfold strs_at. rewrite Hd. by apply traverse_map. Qed.

Lemma opt_roundtrip d k o : dict_get d k = Some (opt_str o) → o ≠ Some "" → opt_at d k = Ok o.
Proof. intros Hd Ho. unfold opt_at, truthy_at, str_at. rewrite Hd. by destruct o as [[|a s]|]. Qed.

(** A policy crosses the process boundary unchanged: reading back the JSON of
    a policy whose entries name a path or a symbol, and of a context whose
    optional directories are not empty strings, gives the same policy and the
    same context. *)
Theorem policy_json_roundtrip p c :
  forallb valid_entry (fs_entries (filesystem p)) = true →
  home_dir c ≠ Some "" → state_dir c ≠ Some "" →
  policy_from_json (policy_to_json p) = Ok p ∧ context_from_json (context_to_json c) = Ok c.
Proof.
  intros He Hh Hs. split.
  - destruct p as [[k es] n]. unfold policy_from_json, policy_to_json. cbn [as_dict filesystem network].
    destruct (get_2 "filesystem" (fs_to_json (mkFSPolicy k es)) "network" (JStr (network_value n))) as [-> ->];
      [done|]. cbn [mapping_of fs_to_json fs_kind fs_entries]. rewrite fs_roundtrip by done. by destruct n.
  - destruct c as [w roots home temps names state]. cbn [home_dir state_dir] in *.
    unfold context_from_json, context_to_json. cbn [as_dict ctx_cwd workspace_roots home_dir temp_dirs
      protected_metadata_names state_dir].
    set (d := [("cwd", JStr w); _; _; _; _; _]).
    rewrite (strs_roundtrip d "workspace_roots" roots), (strs_roundtrip d "temp_dirs" temps),
      (strs_roundtrip d "protected_metadata_names" names) by done.
    by rewrite (opt_roundtrip d "home_dir" home), (opt_roundtrip d "state_dir" state).
Qed.

(** ** A desktop install *)

#[local] Instance demo_host : HostPaths := {|
  expanduser p := p; cwd := "/work"; realpath p := p;
  path_exists _ := true; is_dir _ := true; is_link _ := false |}.

Definition demo_decision : LocalAccessDecision :=
  mkDecision "ask" false ["/data/ws"; "/home/me/p"] ["/opt/ref"] ["/data"; "/home/me/p/secret"] true true.
Definition demo_context : PolicyContext :=
  mkContext "/data/ws" ["/data/ws"] (Some "/home/me") ["/var/tmp"] [".git"] None.
Definition demo_fs : ResolvedFileSystem :=
  match resolve (filesystem (build_policy demo_decision)) demo_context with
  | Ok fs => fs
  | Err _ => mkResolvedFS RESTRICTED [] [] false
  end.

Lemma demo_resolves : resolve (filesystem (build_policy demo_decision)) demo_context = Ok demo_fs.
Proof. vm_compute. reflexivity. Qed.

Example demo_access :
  effective_access demo_fs <$>
    ["/data/ws/a"; "/data/db"; "/home/me/p/x"; "/home/me/p/secret/k"; "/etc/passwd"; "/var/tmp/t"] =
  [WRITE; DENY; WRITE; DENY; READ; WRITE].
Proof. vm_compute. reflexivity. Qed.

Definition demo_reordered : FileSystemPolicy :=
  mkFSPolicy RESTRICTED (rev (fs_entries (filesystem (build_policy demo_decision)))).

Lemma narrowest_entry_governs_witness :
  ∃ fs', resolve demo_reordered demo_context = Ok fs' ∧
    effective_access fs' "/data/ws/a" = effective_access demo_fs "/data/ws/a".
Proof.
  destruct (resolve demo_reordered demo_context) as [fs'|] eqn:E; [|by vm_compute in E].
  exists fs'. split; [reflexivity|].
  destruct (narrowest_entry_governs (filesystem (build_policy demo_decision)) demo_reordered demo_context
              demo_fs fs' "/data/ws/a" eq_refl eq_refl demo_resolves E) as [_ Heq].
  apply Heq. intros e. cbn. rewrite <- (reverse_Permutation (_ :: _)). done.
Defined.

Lemma normal_of p c : p = abs_of c → forallb (λ x, bool_decide (valid_comp x)) c = true → normal p.
Proof.
  intros -> Hc. exists c. split; [done|]. rewrite forallb_forall in Hc.
  apply Forall_forall. intros x Hx. specialize (Hc x). rewrite bool_decide_eq_true in Hc.
  apply Hc. by apply list_elem_of_In.
Qed.

Lemma demo_normal : normal_fs demo_fs ∧ normal "/data/ws/a".
Proof.
  split; [|by apply (normal_of _ ["data"; "ws"; "a"])].
  intros e He. apply (normal_of _ (parts (path e))).
  - assert (forallb (λ e, bool_decide (path e = abs_of (parts (path e)))) (entries demo_fs) = true) as Hall
      by (vm_compute; reflexivity).
    rewrite forallb_forall in Hall. eapply bool_decide_eq_true_1, (Hall e). exact (proj1 (list_elem_of_In _ _) He).
  - assert (forallb (λ e, forallb (λ x, bool_decide (valid_comp x)) (parts (path e))) (entries demo_fs) = true)
      as Hall by (vm_compute; reflexivity).
    rewrite forallb_forall in Hall. apply (Hall e). exact (proj1 (list_elem_of_In _ _) He).
Qed.

Lemma backend_roots_exact_witness :
  ∃ r, r ∈ roots_for demo_fs WRITE ∧ is_within "/data/ws/a" (root r) = true ∧
    ∀ q, q ∈ read_only_subpaths r ∨ q ∈ denied_subpaths r → is_within "/data/ws/a" q = false.
Proof.
  destruct demo_normal as [Hn Hp].
  destruct (backend_roots_exact demo_fs "/data/ws/a" Hn Hp ltac:(vm_compute; reflexivity)) as [[Hto _] _].
  apply Hto. vm_compute. reflexivity.
Defined.

Lemma decision_opens_nothing_else_witness :
  ∃ e, e ∈ entries demo_fs ∧ covers "/data/ws/a" e ∧ (path_depth "/data" < path_depth (path e))%nat ∧
    access e ≠ DENY.
Proof.
  destruct (decision_opens_nothing_else demo_decision demo_context demo_fs "/data/ws/a" eq_refl demo_resolves)
    as [_ Hd].
  apply (Hd "/data" "/data"); [left|vm_compute; reflexivity..].
Defined.

Lemma policy_json_roundtrip_witness :
  policy_from_json (policy_to_json (build_policy demo_decision)) = Ok (build_policy demo_decision) ∧
  context_from_json (context_to_json demo_context) = Ok demo_context.
Proof. by apply (policy_json_roundtrip (build_policy demo_decision) demo_context). Defined.
