(* ===== verification/Regex.v ===== *)
(** * Regular expressions: [re.search] and [re.match] as the backend uses them

    A pattern is written as in the Python source and parsed; matching is
    existential, as the callers only ask whether there is a match.  The matcher is
    shown equal to a declarative reading of the syntax tree. *)

From S2P Require Import Prelude PyString.
From Stdlib Require Import Ascii String.

(** [\w] of this range: letters, digits and the underscore, numeric signs of
    Latin-1 included. *)
Definition is_word (c : ascii) : bool :=
  in_range 48 57 c || in_range 65 90 c || in_range 97 122 c || in_range 95 95 c ||
  existsb (λ n, (code c =? n)%N) [170; 178; 179; 181; 185; 186]%N ||
  in_range 188 190 c || in_range 192 214 c || in_range 216 246 c || in_range 248 255 c.

Definition newline_char : ascii := ascii_of_N 10.
Definition not_newline (c : ascii) : bool := negb (bool_decide (c = newline_char)).

Inductive regex : Type :=
| Empty
| Sym (f : ascii → bool)
| Cat (a b : regex)
| Alt (a b : regex)
| Star (a : regex)
| Start                        (* [^] *)
| Finish                       (* [$] *)
| Boundary                     (* [\b] *)
| NotNext (a : regex).         (* [(?!a)] *)

Definition Plus (a : regex) : regex := Cat a (Star a).
Definition Opt (a : regex) : regex := Alt a Empty.

(** ** Matching *)

Local Open Scope lazy_bool_scope.

(** A position: the character before it and the rest of the string. *)
Definition position : Type := option ascii * string.

Definition word_before (p : position) : bool := match p.1 with Some c => is_word c | None => false end.
Definition word_after (p : position) : bool := match p.2 with String c _ => is_word c | EmptyString => false end.
Definition at_boundary (p : position) : bool := xorb (word_before p) (word_after p).
Definition at_start (p : position) : bool := match p.1 with None => true | Some _ => false end.
(** [$] is the end, or the newline before it. *)
Definition at_finish (p : position) : bool :=
  match p.2 with
  | EmptyString => true
  | String c EmptyString => bool_decide (c = newline_char)
  | _ => false
  end.

(** [star] repeats an attempt [step]; an empty repetition is not taken twice. *)
Fixpoint star_upto (step : (position → bool) → position → bool) (n : nat) (k : position → bool)
    (p : position) : bool :=
  k p |||
  match n with
  | O => false
  | S n' => step (λ p', (str_len p'.2 <? str_len p.2)%nat &&& star_upto step n' k p') p
  end.

(** Whether [r] matches from [p] up to a position where [k] holds. *)
Fixpoint run (r : regex) (k : position → bool) (p : position) : bool :=
  match r with
  | Empty => k p
  | Sym f => match p.2 with
             | String c s => f c &&& k (Some c, s)
             | EmptyString => false
             end
  | Cat a b => run a (run b k) p
  | Alt a b => run a k p ||| run b k p
  | Star a => star_upto (run a) (str_len p.2) k p
  | Start => at_start p &&& k p
  | Finish => at_finish p &&& k p
  | Boundary => at_boundary p &&& k p
  | NotNext a => negb (run a (λ _, true) p) &&& k p
  end.

Definition accepts (_ : position) : bool := true.

Fixpoint search_from (r : regex) (before : option ascii) (s : string) : bool :=
  run r accepts (before, s) |||
  match s with
  | EmptyString => false
  | String c s' => search_from r (Some c) s'
  end.

(** [re.search(r, s) is not None], [re.match(r, s) is not None] *)
Definition re_search (r : regex) (s : string) : bool := search_from r None s.
Definition re_match (r : regex) (s : string) : bool := run r accepts (None, s).

(** ** What a match is *)

(** A lookahead is decided by its own search, whose meaning is [matches_run] below. *)
Inductive matches : regex → position → position → Prop :=
| m_empty p : matches Empty p p
| m_sym (f : ascii → bool) b c s : f c = true → matches (Sym f) (b, String c s) (Some c, s)
| m_cat a b p q r : matches a p q → matches b q r → matches (Cat a b) p r
| m_left a b p q : matches a p q → matches (Alt a b) p q
| m_right a b p q : matches b p q → matches (Alt a b) p q
| m_done a p : matches (Star a) p p
| m_more a p q r : matches a p q → matches (Star a) q r → matches (Star a) p r
| m_start p : at_start p = true → matches Start p p
| m_finish p : at_finish p = true → matches Finish p p
| m_boundary p : at_boundary p = true → matches Boundary p p
| m_not_next a p : run a accepts p = false → matches (NotNext a) p p.

(** The positions of a string that come after [p], [p] included. *)
Inductive later : position → position → Prop :=
| later_refl p : later p p
| later_next b c s q : later (Some c, s) q → later (b, String c s) q.

Lemma later_length p q : later p q → (str_len q.2 ≤ str_len p.2)%nat.
Proof. induction 1; cbn in *; lia. Qed.

Lemma later_same p q : later p q → str_len q.2 = str_len p.2 → q = p.
Proof. intros [|b c s q' Hl%later_length]; [done|]. cbn in *. lia. Qed.

Lemma later_trans p q r : later p q → later q r → later p r.
Proof. induction 1; [done|]. intros. constructor. auto. Qed.

Lemma matches_later r p q : matches r p q → later p q.
Proof. induction 1; try constructor; try done; [constructor|by eapply later_trans..]. Qed.

Lemma run_sound r k p : run r k p = true → ∃ q, matches r p q ∧ k q = true.
Proof.
  revert k p. induction r as [|f|a IHa b IHb|a IHa b IHb|a IHa| | | |a IHa]; intros k p; cbn [run].
  - intros Hk. exists p. split; [constructor|done].
  - destruct p as [b [|c s]]; cbn; [done|]. intros [Hf Hk]%andb_true_iff. eexists. split; [by constructor|done].
  - intros (q & Hq & (q' & Hq' & Hk)%IHb)%IHa. exists q'. split; [by econstructor|done].
  - intros [(q & Hq & Hk)%IHa|(q & Hq & Hk)%IHb]%orb_true_iff; exists q; split; try done; by constructor.
  - generalize (str_len p.2). intros n. revert p. induction n as [|n IHn]; intros p; cbn [star_upto].
    + intros [Hk|?]%orb_true_iff; [|done]. exists p. split; [constructor|done].
    + intros [Hk|(q & Hq & (_ & (q' & Hq' & Hk)%IHn)%andb_true_iff)%IHa]%orb_true_iff.
      * exists p. split; [constructor|done].
      * exists q'. split; [by econstructor|done].
  - intros [Hs Hk]%andb_true_iff. exists p. split; [by constructor|done].
  - intros [Hs Hk]%andb_true_iff. exists p. split; [by constructor|done].
  - intros [Hs Hk]%andb_true_iff. exists p. split; [by constructor|done].
  - intros [Hs%negb_true_iff Hk]%andb_true_iff. exists p. split; [by constructor|done].
Qed.

(** A chain of repetitions of [a] that each consume something. *)
Lemma star_chain a p q :
  matches (Star a) p q →
  p = q ∨ ∃ r, matches a p r ∧ (str_len r.2 < str_len p.2)%nat ∧ matches (Star a) r q.
Proof.
  intros Hm. remember (Star a) as r eqn:Er. induction Hm; simplify_eq; [by left|].
  destruct (decide (str_len q.2 = str_len p.2)) as [E|Hne].
  - apply later_same in E as ->; [|by eapply matches_later]. by apply IHHm2.
  - right. exists q. pose proof (later_length _ _ (matches_later _ _ _ Hm1)). split_and!; [done|lia|done].
Qed.

Lemma star_complete a (step : (position → bool) → position → bool) k n p q :
  (∀ k p q, matches a p q → k q = true → step k p = true) →
  (str_len p.2 ≤ n)%nat → matches (Star a) p q → k q = true → star_upto step n k p = true.
Proof.
  intros Hstep. revert p. induction n as [|n IH]; intros p Hn Hm Hk; cbn [star_upto]; apply orb_true_iff.
  - destruct (star_chain _ _ _ Hm) as [->|(r & _ & Hlt & _)]; [by left|lia].
  - destruct (star_chain _ _ _ Hm) as [->|(r & Hr & Hlt & Hrest)]; [by left|right].
    eapply Hstep; [exact Hr|]. apply andb_true_iff. split; [by apply Nat.ltb_lt|]. apply IH; [lia|done..].
Qed.

Lemma run_complete r k p q : matches r p q → k q = true → run r k p = true.
Proof.
  revert k p q. induction r as [|f|a IHa b IHb|a IHa b IHb|a IHa| | | |a IHa]; intros k p q Hm Hk.
  5: { cbn [run]. apply (star_complete a (run a) k _ p q); [intros; by eapply IHa|done..]. }
  all: inversion Hm; subst; cbn [run fst snd].
  - done.
  - by apply andb_true_iff.
  - by eauto.
  - apply orb_true_iff. eauto.
  - apply orb_true_iff. eauto.
  - by apply andb_true_iff.
  - by apply andb_true_iff.
  - by apply andb_true_iff.
  - apply andb_true_iff. split; [by apply negb_true_iff|done].
Qed.

Lemma matches_run r p : run r accepts p = true ↔ ∃ q, matches r p q.
Proof.
  split; [intros (q & Hq & _)%run_sound; by exists q|]. intros [q Hq]. by eapply run_complete.
Qed.

(** A search finds a match exactly when one starts at some position. *)
Lemma search_iff r s : re_search r s = true ↔ ∃ p q, later (None, s) p ∧ matches r p q.
Proof.
  unfold re_search. generalize (@None ascii) as b. induction s as [|c s IH]; intros b; cbn [search_from].
  - etransitivity; [apply orb_true_iff|]. rewrite matches_run. split.
    + intros [[q Hq]|?]; [|done]. exists (b, ""), q. split; [constructor|done].
    + intros (p & q & Hl & Hq). inversion Hl; subst. left. by exists q.
  - etransitivity; [apply orb_true_iff|]. rewrite matches_run, IH. split.
    + intros [[q Hq]|(p & q & Hl & Hq)]; [exists (b, String c s), q; split; [constructor|done]|].
      exists p, q. split; [by constructor|done].
    + intros (p & q & Hl & Hq). inversion Hl; subst; [left; by exists q|right; by exists p, q].
Qed.

(** ** Reading a pattern *)

(** Case-insensitive matching of a set: some case of the character is in it. *)
Definition upper_ascii (c : ascii) : ascii :=
  if in_range 97 122 c then ascii_of_N (code c - 32) else c.
Definition any_case (f : ascii → bool) (c : ascii) : bool := f (lower_char c) || f (upper_ascii c).
Definition cased (ignore_case : bool) (f : ascii → bool) : ascii → bool :=
  if ignore_case then any_case f else f.
Definition only (c : ascii) : ascii → bool := Ascii.eqb c.

(** The set of an escape such as [\s]; any other escaped character is itself. *)
Definition escape_set (c : ascii) : ascii → bool :=
  match c with
  | "s"%char => is_space
  | "S"%char => λ x, negb (is_space x)
  | "w"%char => is_word
  | "d"%char => is_digit
  | "n"%char => only newline_char
  | _ => only c
  end.

Definition backslash_char : ascii := ascii_of_N 92.

(** The items of a bracketed set up to its end. *)
Fixpoint parse_set (acc : ascii → bool) (s : string) : option ((ascii → bool) * string) :=
  match s with
  | EmptyString => None
  | String "]" s' => Some (acc, s')
  | String c s' =>
      if bool_decide (c = backslash_char) then
        match s' with
        | String e s'' => parse_set (λ x, acc x || escape_set e x) s''
        | EmptyString => None
        end
      else
        match s' with
        | String "-" (String hi s'') =>
            if bool_decide (hi = "]"%char) then
              Some (λ x, acc x || only c x || only "-"%char x, s'')
            else parse_set (λ x, acc x || in_range (code c) (code hi) x) s''
        | _ => parse_set (λ x, acc x || only c x) s'
        end
  end.

Definition parse_class (ignore_case : bool) (s : string) : option (regex * string) :=
  match s with
  | String "^" s' =>
      match parse_set (λ _, false) s' with
      | Some (f, rest) => Some (Sym (λ c, negb (cased ignore_case f c)), rest)
      | None => None
      end
  | _ =>
      match parse_set (λ _, false) s with
      | Some (f, rest) => Some (Sym (cased ignore_case f), rest)
      | None => None
      end
  end.

Definition repeated (a : regex) (s : string) : regex * string :=
  match s with
  | String "*" s' => (Star a, s')
  | String "+" s' => (Plus a, s')
  | String "?" s' => (Opt a, s')
  | _ => (a, s)
  end.

Definition closed (wrap : regex → regex) (r : option (regex * string)) : option (regex * string) :=
  match r with
  | Some (a, String ")" rest) => Some (wrap a, rest)
  | _ => None
  end.

Section parser.
Variable ignore_case : bool.

(** Alternatives, sequences and atoms; [n] bounds the depth and the length. *)
Fixpoint parse_alt (n : nat) (s : string) : option (regex * string) :=
  match n with
  | O => None
  | S n' =>
      match parse_seq n' s with
      | Some (a, String "|" rest) =>
          match parse_alt n' rest with
          | Some (b, rest') => Some (Alt a b, rest')
          | None => None
          end
      | r => r
      end
  end
with parse_seq (n : nat) (s : string) : option (regex * string) :=
  match n with
  | O => None
  | S n' =>
      match s with
      | EmptyString => Some (Empty, EmptyString)
      | String ")" _ | String "|" _ => Some (Empty, s)
      | _ =>
          match parse_atom n' s with
          | Some (a, rest) =>
              let (a', rest') := repeated a rest in
              match parse_seq n' rest' with
              | Some (b, rest'') => Some (Cat a' b, rest'')
              | None => None
              end
          | None => None
          end
      end
  end
with parse_atom (n : nat) (s : string) : option (regex * string) :=
  match n with
  | O => None
  | S n' =>
      match s with
      | EmptyString => None
      | String "^" s' => Some (Start, s')
      | String "$" s' => Some (Finish, s')
      | String "." s' => Some (Sym not_newline, s')
      | String "[" s' => parse_class ignore_case s'
      | String "(" (String "?" (String ":" s')) => closed (λ a, a) (parse_alt n' s')
      | String "(" (String "?" (String "!" s')) => closed NotNext (parse_alt n' s')
      | String "(" s' => closed (λ a, a) (parse_alt n' s')
      | String c s' =>
          if bool_decide (c = backslash_char) then
            match s' with
            | String "b" s'' => Some (Boundary, s'')
            | String e s'' => Some (Sym (cased ignore_case (escape_set e)), s'')
            | EmptyString => None
            end
          else Some (Sym (cased ignore_case (only c)), s')
      end
  end.
End parser.

Definition parse_regex (ignore_case : bool) (s : string) : option regex :=
  match parse_alt ignore_case (4 * S (str_len s)) s with
  | Some (r, EmptyString) => Some r
  | _ => None
  end.

(** The regular expression of a pattern; one that matches nothing when the
    pattern is outside the syntax read here. *)
Definition compiled (ignore_case : bool) (s : string) : regex :=
  default (Sym (λ _, false)) (parse_regex ignore_case s).

Example regex_1 : re_search (compiled true "\brm\s+(-\w*\s+)*-\w*[rf]") "sudo RM -v  -rf x" = true.
Proof. vm_compute. reflexivity. Qed.
Example regex_2 : re_search (compiled true "\brm\s+(-\w*\s+)*-\w*[rf]") "npm rm --save" = false.
Proof. vm_compute. reflexivity. Qed.
Example regex_3 : re_match (compiled false "^(?:\d*|&)(?:>>?|>&)$") "2>>" = true.
Proof. vm_compute. reflexivity. Qed.
Example regex_4 : re_match (compiled false "^[A-Za-z][A-Za-z0-9+.-]*://") "git+ssh://h" = true.
Proof. vm_compute. reflexivity. Qed.
