(* ===== verification/LocalPolicy.v ===== *)
(** * The local execution policy: [core/sandbox/local_policy.py] and the grants
    of [core/services/local_grant_service.py]

    A path access or a shell command on the user's own machine is allowed,
    refused, or put to the user.  Only the POSIX branches are modelled; the
    patterns are those of the source, read by [Regex]. *)

From S2P Require Import Prelude PyString PyDict PosixPath Regex.
From Stdlib Require Import Ascii.

Module LocalPolicy.

Inductive decision : Type := ALLOW | CONFIRM | DENY.
#[global] Instance decision_eq : EqDecision decision.
Proof. solve_decision. Defined.

Definition _SEVERITY (d : decision) : nat := match d with ALLOW => 0 | CONFIRM => 1 | DENY => 2 end.

Inductive access : Type := READ | WRITE.
#[global] Instance access_eq : EqDecision access.
Proof. solve_decision. Defined.

Definition DELETE : string := "delete".
Definition SYSTEM_WRITE : string := "system_write".
Definition NETWORK : string := "network".
Definition PRIVILEGE : string := "privilege".
Definition CREDENTIAL : string := "credential".
Definition OUT_OF_SCOPE_WRITE : string := "out_of_scope_write".
Definition DANGER_REASON_PREFIX : string := "danger:".

Definition danger_categories (reasons : list string) : list string :=
  omap (λ r, if str_prefix DANGER_REASON_PREFIX r
             then Some (drop_str (str_len DANGER_REASON_PREFIX) r) else None) reasons.

(** [_DISPOSITION_TO_DECISION[d]]; [KeyError] on anything else. *)
Definition disposition (d : string) : result string decision :=
  if bool_decide (d = "block") then Ok DENY
  else if bool_decide (d = "confirm") then Ok CONFIRM
  else if bool_decide (d = "allow") then Ok ALLOW
  else Err d.

Record Grant := mkGrant { grant_path : string; grant_mode : string }.

Record Policy := mkPolicy {
  out_of_scope : string;
  workspace_write : string;
  danger : pydict string string
}.

Definition _DEFAULT_DANGER : pydict string string :=
  [(DELETE, "confirm"); (SYSTEM_WRITE, "block"); (NETWORK, "confirm"); (PRIVILEGE, "block");
   (CREDENTIAL, "block")].
Definition DANGER_CATEGORIES : list string := _DEFAULT_DANGER.*1.

Definition disposition_for (p : Policy) (category : string) : string :=
  match dget (danger p) category with
  | Some d => d
  | None => match dget _DEFAULT_DANGER category with Some d => d | None => "confirm" end
  end.

Record EvalResult := mkEval {
  verdict : decision;
  reasons : list string;
  write_paths : list string
}.

(** [max(decisions, key=severity)] *)
Definition max_decision (ds : list decision) : decision :=
  foldr (λ d acc, if (_SEVERITY acc <=? _SEVERITY d)%nat then d else acc) ALLOW ds.

(** ** Danger patterns *)

Definition _CMD_START : string := "(?:^|[\n;&|(`]+|\$\(|(?:-execdir|-exec)\s+)\s*".
Definition _CMD_WRAPPERS : string := "(?:(?:sudo|doas|env|command|nohup|time|xargs)\s+(?:-\S+\s+)*)*".
Definition command_pattern (names : string) : string :=
  _CMD_START +:+ _CMD_WRAPPERS +:+ "(?:\S*/)?(?:" +:+ names +:+ ")(?![\w.-])".
Definition _command_re (names : string) : regex := compiled true (command_pattern names).

(** The rows of the table: a category and a pattern. *)
Definition _POSIX_DANGER : list (string * string) :=
  [(DELETE, command_pattern "rm|rmdir|unlink|shred");
   (DELETE, "\brm\s+(-\w*\s+)*-\w*[rf]");
   (DELETE, "\bmkfs\b|\bdd\b.*\bof=/dev/");
   (SYSTEM_WRITE, ">>?\s*/(etc|usr|bin|sbin|boot|sys|System|Library)\b");
   (SYSTEM_WRITE, "\b(chmod|chown)\b.*\s/(etc|usr|bin|sbin|System)\b");
   (NETWORK, command_pattern "curl|wget|nc|ncat|scp|sftp|ssh|telnet");
   (NETWORK, "\b(curl|wget)\b[^|]*\|\s*(sudo\s+)?(ba)?sh\b");
   (PRIVILEGE, command_pattern "sudo|doas|su");
   (CREDENTIAL, command_pattern "security|secret-tool|keyctl|gnome-keyring(-daemon)?")].

Definition _POSIX_WRITE_INTENT : string :=
  "(?:^|[;&|]\s*)(?:sudo\s+|env\s+)*" +:+
  "(?:rm|rmdir|unlink|shred|touch|mkdir|mktemp|cp|mv|install|ln|chmod|chown|" +:+
  "truncate|tee|patch|make|cmake|ninja|npm|pnpm|yarn|pip|uv|cargo)\b|" +:+
  "\bsed\s+[^;&|]*-[A-Za-z]*i\b|" +:+
  "\bgit\s+(?:add|apply|checkout|switch|restore|reset|clean|commit|merge|rebase|" +:+
  "cherry-pick|revert|stash|pull)\b|" +:+
  "(?:^|[^<])>>?\s*[^&]".

Definition _has_write_intent (command : string) : bool :=
  re_search (compiled true _POSIX_WRITE_INTENT) command.

(** Every pattern is within the syntax that [compiled] reads. *)
Lemma patterns_compile :
  Forall (λ p, is_Some (parse_regex true p)) (_POSIX_WRITE_INTENT :: _POSIX_DANGER.*2).
Proof. apply (bool_decide_unpack _). vm_compute. exact I. Qed.

(** ** Paths *)

Definition _norm (p : string) : string := str_or (rstrip_slash (normpath p)) "/".

Definition _is_under (path base : string) : bool :=
  let p := _norm path in
  let b := _norm base in
  if bool_decide (b = "/") then isabs p
  else bool_decide (p = b) || str_prefix (b +:+ "/") p.

(** The rest after the longest prefix of [f]-characters. *)
Fixpoint skip_while (f : ascii → bool) (s : string) : string :=
  match s with
  | EmptyString => EmptyString
  | String c s' => if f c then skip_while f s' else s
  end.

Definition has_scheme (s : string) : bool := re_match (compiled false "^[A-Za-z][A-Za-z0-9+.-]*://") s.

Definition _looks_like_path (token : string) : bool :=
  if bool_decide (token = "") || str_prefix "-" token then false
  else if has_scheme token then false
  else str_prefix "~" token || contains "/" token.

Definition _system_write_roots : list string :=
  ["/etc"; "/usr"; "/bin"; "/sbin"; "/boot"; "/sys"; "/lib"; "/lib64"; "/System"; "/Library"].

Definition _is_system_write_path (path : string) : bool :=
  existsb (_is_under path) _system_write_roots.

Section host.
Context `{HostPaths}.

Definition _canonical (p : string) : string := _norm (realpath (abspath (expanduser p))).

Definition _resolve (token cwd : string) : string :=
  if str_prefix "~" token then _canonical token
  else if isabs token then _canonical token
  else _canonical (join_path cwd token).

Definition intersects_system_write_area (path : string) : bool :=
  let resolved := _canonical path in
  existsb (λ root, _is_under resolved root || _is_under root resolved) _system_write_roots.

(** ** One path *)

(** What one rule adds: a decision and its reasons. *)
Definition scope_decision (resolved workspace : string) (intent : access) (grants : list Grant)
    (policy : Policy) : result string (decision * list string) :=
  if _is_under resolved workspace then Ok (ALLOW, [])
  else
    let matching := List.filter (λ g, _is_under resolved (_canonical (grant_path g))) grants in
    let some_match := negb (bool_decide (matching = [])) in
    if some_match && (bool_decide (intent = READ) ||
         existsb (λ g, bool_decide (grant_mode g = "readwrite")) matching)
    then Ok (ALLOW, [])
    else
      with? d := disposition (out_of_scope policy) in
      Ok (d, if bool_decide (d = ALLOW) then []
             else ((if some_match then "read-only grant write" else "out-of-scope path") +:+ ": " +:+ resolved)
                  :: (if bool_decide (intent = WRITE)
                      then [DANGER_REASON_PREFIX +:+ OUT_OF_SCOPE_WRITE] else [])).

Definition write_decision (resolved : string) (intent : access) (policy : Policy)
    : result string (list decision * list string) :=
  if bool_decide (intent = READ) then Ok ([], [])
  else
    with? w := disposition (workspace_write policy) in
    let why := if bool_decide (w = ALLOW) then [] else ["write intent: " +:+ resolved] in
    if _is_system_write_path resolved then
      with? s := disposition (disposition_for policy SYSTEM_WRITE) in
      Ok ([w; s], why ++ (if bool_decide (s = ALLOW) then [] else [DANGER_REASON_PREFIX +:+ SYSTEM_WRITE]))
    else Ok ([w], why).

Definition evaluate_local_path (path : string) (intent : access) (grants : list Grant)
    (policy : Policy) (workspace_root : string) : result string EvalResult :=
  let resolved := _canonical path in
  let workspace := _canonical workspace_root in
  with? wr := write_decision resolved intent policy in
  with? sc := scope_decision resolved workspace intent grants policy in
  Ok (mkEval (max_decision (ALLOW :: wr.1 ++ [sc.1])) (wr.2 ++ sc.2) []).

(** ** Commands *)

Definition _shell_tokens (command : string) : list string :=
  match shell_lex command with Some ts => ts | None => split_space command end.

Definition control_char (c : ascii) : bool := existsb (Ascii.eqb c) [";"; "&"; "|"]%char.
Definition is_control (token : string) : bool :=
  negb (bool_decide (token = "")) && bool_decide (skip_while control_char token = "").

(** Segments between control groups; [cur] is the open one, in reverse. *)
Fixpoint segments_from (cur : list string) (tokens : list string) : list (list string) :=
  match tokens with
  | [] => match cur with [] => [] | _ => [rev cur] end
  | t :: ts =>
      if is_control t then match cur with [] => segments_from [] ts | _ => rev cur :: segments_from [] ts end
      else segments_from (t :: cur) ts
  end.
Definition _command_segments (command : string) : list (list string) :=
  segments_from [] (_shell_tokens command).

Definition angle (c : ascii) : bool := existsb (Ascii.eqb c) ["<"; ">"]%char.
(** [s.lstrip("<>")] *)
Definition lstrip_angle (s : string) : string := skip_while angle s.

Definition _extract_target_paths (command cwd : string) : list string :=
  omap (λ t, let stripped := lstrip_angle t in
             if _looks_like_path stripped then Some (_resolve stripped cwd) else None)
    (_shell_tokens command).

Definition _WRITE_ALL_OPERANDS : list string :=
  ["rm"; "rmdir"; "unlink"; "shred"; "touch"; "mkdir"; "chmod"; "chown"; "truncate"; "tee";
   "remove-item"; "set-content"; "add-content"; "out-file"; "new-item"; "rename-item";
   "set-itemproperty"; "new-itemproperty"; "del"; "erase"; "rd"; "md"].
Definition _WRITE_DESTINATION_ONLY : list string := ["cp"; "copy"; "install"; "ln"; "copy-item"].
Definition _WRITE_SOURCE_AND_DESTINATION : list string := ["mv"; "move"; "move-item"; "ren"; "rename"].
Definition git_write_subcommands : list string :=
  ["add"; "apply"; "checkout"; "switch"; "restore"; "reset"; "clean"; "commit"; "merge"; "rebase";
   "cherry-pick"; "revert"; "stash"; "pull"].

(** The part of a redirection after its digits or its ampersand. *)
Definition redirect_body (token : string) : string :=
  match token with
  | String "&" rest => rest
  | _ => skip_while is_digit token
  end.
Definition is_redirect_op (token : string) : bool :=
  re_match (compiled false "^(?:\d*|&)(?:>>?|>&)$") token.

(** The single line [[^>].*$] matches, with an optional newline at its end. *)
Fixpoint one_line (first : bool) (s : string) : option string :=
  match s with
  | EmptyString => if first then None else Some EmptyString
  | String c s' =>
      if negb first && bool_decide (c = ascii_of_N 10)
      then match s' with EmptyString => Some EmptyString | _ => None end
      else match one_line false s' with Some r => Some (String c r) | None => None end
  end.
Definition not_gt (s : string) : bool := negb (str_prefix ">" s).
(** The target of an attached redirection, [>out.txt] or [2>>log]. *)
Definition redirect_attached (token : string) : option string :=
  match redirect_body token with
  | String ">" (String ">" rest) => if not_gt rest then one_line true rest else None
  | String ">" rest => if not_gt rest then one_line true rest else None
  | _ => None
  end.

Definition in_place_flag (arg : string) : bool := re_match (compiled false "^-[A-Za-z]*i") arg.

Definition mem (x : string) (l : list string) : bool := existsb (String.eqb x) l.

(** [args[args.index(flag) + 1]] where both exist *)
Fixpoint after_flag (flag : string) (args : list string) : option string :=
  match args with
  | [] => None
  | a :: args' => if bool_decide (a = flag) then head args' else after_flag flag args'
  end.

Definition add_path (cwd : string) (out : list string) (token : string) : list string :=
  let candidate := lstrip_angle token in
  if _looks_like_path candidate then
    let resolved := _resolve candidate cwd in
    if bool_decide (resolved ∈ out) then out else out ++ [resolved]
  else out.

Fixpoint redirect_targets (segment : list string) : list string :=
  match segment with
  | [] => []
  | t :: rest =>
      if is_redirect_op t then option_list (head rest) ++ redirect_targets rest
      else match redirect_attached t with
           | Some target => target :: redirect_targets rest
           | None => (if str_prefix "of=" (lower t) then [drop_str 3 t] else []) ++ redirect_targets rest
           end
  end.

(** The executable and its arguments, past wrappers, assignments and flags. *)
Fixpoint find_command (segment : list string) : option (string * list string) :=
  match segment with
  | [] => None
  | t :: rest =>
      if mem (lower t) ["sudo"; "doas"; "env"; "command"; "nohup"] then find_command rest
      else if contains "=" t && negb (str_prefix "/" t || str_prefix backslash t) then find_command rest
      else if str_prefix "-" t || mem t ["<"; ">"; ">>"; "<<"; "<<<"] then find_command rest
      else Some (t, rest)
  end.

Definition to_slash (c : ascii) : ascii := if bool_decide (c = ascii_of_N 92) then slash else c.
(** [.replace("\\", "/").rsplit("/", 1)[-1].casefold()] *)
Definition executable_name (t : string) : string :=
  lower (List.last (split_slash (str_map to_slash t)) "").

(** The tokens a command line names as written, by its executable. *)
Definition operand_targets (executable : string) (args : list string) : list string :=
  let path_args := List.filter _looks_like_path args in
  if mem executable _WRITE_DESTINATION_ONLY && negb (bool_decide (path_args = [])) then
    match after_flag "-t" args with
    | Some d => [d]
    | None =>
        match after_flag "--target-directory" args with
        | Some d => [d]
        | None => option_list (last path_args)
        end
    end
  else if mem executable _WRITE_SOURCE_AND_DESTINATION then path_args
  else if mem executable _WRITE_ALL_OPERANDS then
    path_args ++ omap (λ f, after_flag f args) ["-Path"; "-LiteralPath"; "-OutFile"]
  else if bool_decide (executable = "sed") && existsb in_place_flag args then path_args
  else if bool_decide (executable = "patch") then omap (λ f, after_flag f args) ["-d"; "--directory"]
  else if bool_decide (executable = "git") &&
          existsb (λ a, mem (lower a) git_write_subcommands) args
  then omap (λ f, after_flag f args) ["-C"; "--git-dir"; "--work-tree"]
  else [].

Definition segment_targets (segment : list string) : list string :=
  redirect_targets segment ++
  match find_command segment with
  | Some (t, args) => operand_targets (executable_name t) args
  | None => []
  end.

Definition _extract_write_target_paths (command cwd : string) : list string :=
  foldl (λ out segment, foldl (add_path cwd) out (segment_targets segment)) []
    (_command_segments command).

(** The scan of the danger table; a category counts once. *)
Fixpoint danger_scan (command : string) (policy : Policy) (seen : list string)
    (rows : list (string * string)) : result string (list decision * list string) :=
  match rows with
  | [] => Ok ([], [])
  | (category, pattern) :: rows' =>
      if negb (mem category seen) && re_search (compiled true pattern) command then
        with? d := disposition (disposition_for policy category) in
        with? rest := danger_scan command policy (category :: seen) rows' in
        Ok (d :: rest.1, (DANGER_REASON_PREFIX +:+ category) :: rest.2)
      else danger_scan command policy seen rows'
  end.

(** The scope axis: every path the command names. *)
Fixpoint scope_scan (paths write_set : list string) (grants : list Grant) (policy : Policy)
    (workspace_root : string) : result string (list decision * list string) :=
  match paths with
  | [] => Ok ([], [])
  | p :: ps =>
      with? r := evaluate_local_path p (if bool_decide (p ∈ write_set) then WRITE else READ)
                   grants policy workspace_root in
      with? rest := scope_scan ps write_set grants policy workspace_root in
      Ok (verdict r :: rest.1, reasons r ++ rest.2)
  end.

Definition evaluate_local_command (command cwd : string) (grants : list Grant) (policy : Policy)
    (workspace_root : string) : result string EvalResult :=
  with? shape :=
    (if _has_write_intent command then
       with? d := disposition (workspace_write policy) in
       Ok ([d], if bool_decide (d = ALLOW) then [] else ["workspace write intent"])
     else Ok ([], [])) in
  let writes := _extract_write_target_paths command cwd in
  with? scope := scope_scan (_extract_target_paths command cwd) writes grants policy workspace_root in
  let system := existsb _is_system_write_path writes in
  with? sys :=
    (if system then
       with? d := disposition (disposition_for policy SYSTEM_WRITE) in
       Ok ([d], [DANGER_REASON_PREFIX +:+ SYSTEM_WRITE])
     else Ok ([], [])) in
  with? risk := danger_scan command policy (if system then [SYSTEM_WRITE] else []) _POSIX_DANGER in
  Ok (mkEval (max_decision (ALLOW :: shape.1 ++ scope.1 ++ sys.1 ++ risk.1))
        (fromkeys (shape.2 ++ scope.2 ++ sys.2 ++ risk.2)) writes).
End host.

(** ** The store of grants and dispositions *)

(** The content of [local_grants.json] as the module writes it; a file that is
    missing or is not an object reads as the empty store. *)
Record Store := mkStore { s_grants : list (pydict string string); s_policy : pydict string string }.
Definition _default_state : Store := mkStore [] [].
Definition _load (file : option Store) : Store := default _default_state file.

Definition _VALID_MODES : list string := ["read"; "readwrite"].
Definition _VALID_DISPOSITIONS : list string := ["block"; "confirm"; "allow"].

Section store.
Context `{HostPaths}.

Definition _canonical_grant_path (path : string) : string :=
  let raw := strip path in
  if bool_decide (raw = "") then "" else realpath (abspath (expanduser raw)).

Definition stored_path (g : pydict string string) : string := default "" (dget g "path").

Definition drop_grant (real : string) (gs : list (pydict string string)) : list (pydict string string) :=
  List.filter (λ g, negb (bool_decide (_canonical_grant_path (stored_path g) = real))) gs.

(** The new file and the entry; [None] is [ValueError]. *)
Definition add_grant (path mode : string) (file : option Store)
    : option (pydict string string * option Store) :=
  let real := _canonical_grant_path path in
  if bool_decide (real = "") then None
  else if negb (bool_decide (mode ∈ _VALID_MODES)) then None
  else
    let data := _load file in
    let entry := [("path", real); ("mode", mode)] in
    Some (entry, Some (mkStore (drop_grant real (s_grants data) ++ [entry]) (s_policy data))).

Definition remove_grant (path : string) (file : option Store) : option Store :=
  let data := _load file in
  Some (mkStore (drop_grant (_canonical_grant_path path) (s_grants data)) (s_policy data)).
End store.

Definition known_key (k : string) : bool :=
  bool_decide (k = "out_of_scope") || bool_decide (k ∈ DANGER_CATEGORIES).

(** The known keys, in order; [None] is [ValueError]. *)
Fixpoint clean_policy (p : pydict string string) : option (pydict string string) :=
  match p with
  | [] => Some []
  | (k, v) :: p' =>
      if known_key k then
        if bool_decide (v ∈ _VALID_DISPOSITIONS) then
          match clean_policy p' with Some c => Some ((k, v) :: c) | None => None end
        else None
      else clean_policy p'
  end.

Definition set_policy (p : pydict string string) (file : option Store)
    : option (pydict string string * option Store) :=
  match clean_policy p with
  | None => None
  | Some clean => Some (clean, Some (mkStore (s_grants (_load file)) clean))
  end.

Definition grants_for_gate (file : option Store) : list Grant :=
  omap (λ g, match dget g "path" with
             | None | Some "" => None
             | Some p => Some (mkGrant p (default "readwrite" (dget g "mode")))
             end) (s_grants (_load file)).

Definition policy_for_gate (approval_mode : string) (file : option Store) : Policy :=
  if bool_decide (approval_mode = "full") then
    mkPolicy "allow" "allow" (map (λ c, (c, "allow")) DANGER_CATEGORIES)
  else
    let stored := s_policy (_load file) in
    mkPolicy (default "confirm" (dget stored "out_of_scope")) "allow"
      (List.filter (λ kv, bool_decide (kv.1 ∈ DANGER_CATEGORIES)) stored).

End LocalPolicy.
