(* ===== verification/LocalPolicyThms.v ===== *)
(** * What the local execution policy promises

    Dispositions written through the settings can always be evaluated; the
    verdict on a path follows a decision table; the verdict on a command is that
    of the most severe rule it triggers, however rules repeat; the grant store is
    a finite map from canonical paths to modes. *)

From S2P Require Import Prelude PyString PyDict PosixPath Regex LocalPolicy.

Import LocalPolicy.

(** ** Verdicts *)

Definition at_most (d d' : decision) : Prop := (_SEVERITY d ≤ _SEVERITY d')%nat.

Lemma severity_inj a b : _SEVERITY a = _SEVERITY b → a = b.
Proof. by destruct a, b. Qed.

(** [d] is the most severe of the decisions in [S], [ALLOW] when there is none. *)
Definition most_severe (S : decision → Prop) (d : decision) : Prop :=
  (d = ALLOW ∨ S d) ∧ ∀ d', S d' → at_most d' d.

Lemma most_severe_unique S d d' : most_severe S d → most_severe S d' → d = d'.
Proof.
  intros [H1 M1] [H2 M2]. apply severity_inj. unfold at_most in *.
  destruct H1 as [->|H1], H2 as [->|H2]; try done.
  - specialize (M1 _ H2). cbn in *. lia.
  - specialize (M2 _ H1). cbn in *. lia.
  - specialize (M1 _ H2). specialize (M2 _ H1). lia.
Qed.

Lemma most_severe_ext S S' d : (∀ x, S x ↔ S' x) → most_severe S d → most_severe S' d.
Proof. intros E [H M]. split; [by rewrite <- E|]. intros d' Hd. by apply M, E. Qed.

Lemma max_decision_spec ds : most_severe (λ d, d ∈ ds) (max_decision (ALLOW :: ds)).
Proof.
  assert (most_severe (λ d, d ∈ ds) (max_decision ds)) as [H M].
  { induction ds as [|d ds [H M]]; cbn -[_SEVERITY].
    { split; [by left|]. intros d' Hd. by apply not_elem_of_nil in Hd. }
    fold (max_decision ds).
    destruct (_ <=? _)%nat eqn:E; [apply Nat.leb_le in E|apply Nat.leb_gt in E]; split.
    - right. by left.
    - intros d' [->|Hd]%elem_of_cons; [unfold at_most; lia|]. specialize (M _ Hd). unfold at_most in *. lia.
    - destruct H as [->|H]; [by left|right; by right].
    - intros d' [->|Hd]%elem_of_cons; [unfold at_most; lia|by apply M]. }
  cbn -[_SEVERITY]. fold (max_decision ds). change (_SEVERITY ALLOW) with 0%nat.
  destruct (_ <=? _)%nat eqn:E; [|by split]. apply Nat.leb_le in E.
  assert (max_decision ds = ALLOW) as E' by (apply severity_inj; cbn; lia). rewrite E' in *. by split.
Qed.

(** The list [ds] stands for the rules [S]: it holds nothing else above [ALLOW],
    and each rule is matched or exceeded. *)
Definition stands_for (ds : list decision) (S : decision → Prop) : Prop :=
  (∀ d, d ∈ ds → d = ALLOW ∨ S d) ∧ ∀ d, S d → ∃ d', d' ∈ ds ∧ at_most d d'.

Lemma stands_for_nil S : (∀ d, ¬ S d) → stands_for [] S.
Proof. intros Hn. split; [by intros d ?%not_elem_of_nil|]. intros d Hd. by destruct (Hn d). Qed.

Lemma stands_for_one d (S : decision → Prop) : (∀ x, S x ↔ x = d) → stands_for [d] S.
Proof.
  intros HS. split; intros x Hx.
  - apply list_elem_of_singleton in Hx as ->. right. by apply HS.
  - apply HS in Hx as ->. exists d. split; [by left|unfold at_most; lia].
Qed.

Lemma stands_for_severe d S : most_severe S d → stands_for [d] S.
Proof.
  intros [Hd Hm]. split; intros x Hx.
  - by apply list_elem_of_singleton in Hx as ->.
  - exists d. split; [by left|by apply Hm].
Qed.

Lemma stands_for_app ds1 ds2 S1 S2 (S : decision → Prop) :
  (∀ x, S x ↔ S1 x ∨ S2 x) → stands_for ds1 S1 → stands_for ds2 S2 → stands_for (ds1 ++ ds2) S.
Proof.
  intros HS [A1 B1] [A2 B2]. split; intros d Hd.
  - rewrite HS. apply elem_of_app in Hd as [Hd|Hd]; [apply A1 in Hd|apply A2 in Hd]; tauto.
  - apply HS in Hd as [Hd|Hd]; [destruct (B1 d Hd) as (d' & ? & ?)|destruct (B2 d Hd) as (d' & ? & ?)];
      exists d'; rewrite elem_of_app; auto.
Qed.

Lemma stands_for_max ds S : stands_for ds S → most_severe S (max_decision (ALLOW :: ds)).
Proof.
  intros [A B]. destruct (max_decision_spec ds) as [Hd Hm]. split.
  - destruct Hd as [Hd|Hd]; [by left|]. by apply A.
  - intros d HS. destruct (B d HS) as (d' & Hin & Hle). specialize (Hm d' Hin).
    unfold at_most in *. lia.
Qed.

(** ** Dispositions *)

Definition valid (d : string) : Prop := d ∈ _VALID_DISPOSITIONS.

Lemma disposition_valid d : valid d ↔ ∃ x, disposition d = Ok x.
Proof.
  unfold valid, disposition, _VALID_DISPOSITIONS. rewrite !elem_of_cons, elem_of_nil.
  repeat case_bool_decide; naive_solver.
Qed.

Record valid_policy (p : Policy) : Prop := {
  vp_scope : valid (out_of_scope p);
  vp_write : valid (workspace_write p);
  vp_danger : ∀ c d, dget (danger p) c = Some d → valid d
}.

Lemma valid_dec_true d : bool_decide (d ∈ _VALID_DISPOSITIONS) = true → valid d.
Proof. by intros H%bool_decide_eq_true. Qed.

Lemma valid_for p c : valid_policy p → valid (disposition_for p c).
Proof.
  intros [_ _ Hd]. unfold disposition_for. destruct (dget (danger p) c) eqn:E; [eauto|].
  destruct (dget _DEFAULT_DANGER c) as [d|] eqn:E'; [|by apply valid_dec_true].
  apply dget_elem in E'. unfold _DEFAULT_DANGER in E'. rewrite !elem_of_cons, elem_of_nil in E'.
  destruct_or?; simplify_eq; by apply valid_dec_true.
Qed.

(** What a disposition decides, where it is one. *)
Definition says (d : string) (x : decision) : Prop := disposition d = Ok x.

Lemma says_det d x y : says d x → says d y → x = y.
Proof. unfold says. intros -> E. by injection E. Qed.

(** ** Normal paths under [_norm] *)

Lemma norm_abs comps : Forall valid_comp comps → _norm (abs_of comps) = abs_of comps.
Proof.
  intros Hc. unfold _norm. rewrite normpath_abs by done. destruct comps as [|c comps]; [done|].
  destruct (valid_last (c :: comps) Hc) as (s & a & E & Ha); [done|]. rewrite E, rstrip_slash_snoc by done.
  by destruct s.
Qed.

Lemma is_under_iff p b :
  Forall valid_comp p → Forall valid_comp b → _is_under (abs_of p) (abs_of b) = true ↔ b `prefix_of` p.
Proof.
  intros Hp Hb. unfold _is_under. rewrite !norm_abs by done. rewrite <- (is_within_iff p b) by done.
  unfold is_within. rewrite ends_slash_abs by done. case_bool_decide as E.
  - apply (abs_of_inj b []) in E; [|done|constructor]. subst. rewrite (bool_decide_true ([] = [])) by done.
    split; [|intros _]; [|by apply str_prefix_iff; eexists].
    intros _. apply orb_true_iff. right. by apply str_prefix_iff; eexists.
  - by rewrite (bool_decide_false (b = [])) by (by intros ->).
Qed.

(** ** One path *)

Section host.
Context `{HostPaths}.

(** The path lies in the workspace, or in a grant that gives the access. *)
Definition in_scope (path : string) (intent : access) (grants : list Grant) (ws : string) : Prop :=
  _is_under (_canonical path) (_canonical ws) = true ∨
  ∃ g, g ∈ grants ∧ _is_under (_canonical path) (_canonical (grant_path g)) = true ∧
    (intent = READ ∨
     ∃ g', g' ∈ grants ∧ _is_under (_canonical path) (_canonical (grant_path g')) = true ∧
       grant_mode g' = "readwrite").

(** The rules a path access triggers. *)
Inductive path_rule (path : string) (intent : access) (grants : list Grant) (p : Policy) (ws : string)
    : decision → Prop :=
| rule_scope x : ¬ in_scope path intent grants ws → says (out_of_scope p) x →
    path_rule path intent grants p ws x
| rule_write x : intent = WRITE → says (workspace_write p) x → path_rule path intent grants p ws x
| rule_system x : intent = WRITE → _is_system_write_path (_canonical path) = true →
    says (disposition_for p SYSTEM_WRITE) x → path_rule path intent grants p ws x.

Lemma in_scope_iff path intent grants ws :
  in_scope path intent grants ws ↔
  let m := List.filter (λ g, _is_under (_canonical path) (_canonical (grant_path g))) grants in
  _is_under (_canonical path) (_canonical ws) = true ∨
  negb (bool_decide (m = [])) &&
    (bool_decide (intent = READ) || existsb (λ g, bool_decide (grant_mode g = "readwrite")) m) = true.
Proof.
  cbn zeta. set (m := List.filter _ _).
  assert (∀ g, g ∈ m ↔ g ∈ grants ∧ _is_under (_canonical path) (_canonical (grant_path g)) = true) as Hm.
  { intros g. subst m. by rewrite !list_elem_of_In, filter_In. }
  unfold in_scope. rewrite andb_true_iff, orb_true_iff, bool_decide_eq_true, negb_true_iff,
    bool_decide_eq_false, existsb_exists.
  setoid_rewrite <- list_elem_of_In. setoid_rewrite bool_decide_eq_true. split.
  - intros [Hw|(g & Hg & Hu & Hi)]; [by left|right]. split.
    + intros E. specialize (Hm g). rewrite E in Hm. set_solver.
    + destruct Hi as [->|(g' & Hg' & Hu' & Hrw)]; [by left|right]. exists g'. by rewrite Hm.
  - intros [Hw|[Hne Hi]]; [by left|right]. destruct m as [|g m'] eqn:E; [done|]. exists g.
    destruct (proj1 (Hm g)) as [H1 H2]; [by left|]. split_and!; [done..|].
    destruct Hi as [->|(g' & Hg' & Hrw)]; [by left|right]. apply Hm in Hg' as []. by exists g'.
Qed.

#[export] Instance in_scope_dec path intent grants ws : Decision (in_scope path intent grants ws).
Proof.
  pose proof (in_scope_iff path intent grants ws) as Hi. cbn zeta in Hi.
  match type of Hi with _ ↔ ?Q => destruct (decide Q) as [D|D] end; [left; by apply Hi|right; by rewrite Hi].
Defined.

Lemma scope_decision_spec path intent grants p ws r :
  scope_decision (_canonical path) (_canonical ws) intent grants p = Ok r →
  (in_scope path intent grants ws ∧ r.1 = ALLOW) ∨
  (¬ in_scope path intent grants ws ∧ says (out_of_scope p) r.1).
Proof.
  unfold scope_decision. pose proof (in_scope_iff path intent grants ws) as Hi. cbn zeta in Hi.
  destruct (_is_under (_canonical path) (_canonical ws)) eqn:Eu.
  { intros [= <-]. left. split; [apply Hi; by left|done]. }
  match goal with |- (if ?b then _ else _) = _ → _ => destruct b eqn:Eb end.
  { intros [= <-]. left. split; [apply Hi; by right|done]. }
  unfold says. destruct (disposition (out_of_scope p)) as [d|]; [|done].
  intros [= <-]. right. split; [|done]. rewrite Hi. intros [?|E]; [done|].
  rewrite E in Eb. done.
Qed.

Lemma write_decision_spec path intent p r x :
  write_decision (_canonical path) intent p = Ok r →
  x ∈ r.1 ↔ intent = WRITE ∧
    (says (workspace_write p) x ∨
     _is_system_write_path (_canonical path) = true ∧ says (disposition_for p SYSTEM_WRITE) x).
Proof.
  unfold write_decision, says. destruct intent; cbn [bool_decide decide_rel].
  { rewrite bool_decide_true by done. intros [= <-]. split; [by intros ?%not_elem_of_nil|by intros [? _]]. }
  rewrite bool_decide_false by done.
  destruct (disposition (workspace_write p)) as [w|]; [|done].
  destruct (_is_system_write_path (_canonical path)).
  - destruct (disposition (disposition_for p SYSTEM_WRITE)) as [s|]; [|done].
    intros [= <-]. cbn [fst]. rewrite !elem_of_cons, elem_of_nil. split.
    + intros [->|[->|[]]]; auto.
    + intros [_ [[= ->]|[_ [= ->]]]]; auto.
  - intros [= <-]. cbn [fst]. rewrite !elem_of_cons, elem_of_nil. split.
    + intros [->|[]]; auto.
    + intros [_ [[= ->]|[[=] _]]]; auto.
Qed.

Lemma path_verdict path intent grants p ws ev :
  evaluate_local_path path intent grants p ws = Ok ev →
  most_severe (path_rule path intent grants p ws) (verdict ev).
Proof.
  unfold evaluate_local_path.
  destruct (write_decision _ _ _) as [wr|] eqn:Ew; [|done].
  destruct (scope_decision _ _ _ _ _) as [sc|] eqn:Es; [|done]. intros [= <-].
  pose proof (λ x, write_decision_spec _ _ _ _ x Ew) as Hw.
  apply scope_decision_spec in Es.
  change (most_severe (path_rule path intent grants p ws) (max_decision (ALLOW :: wr.1 ++ [sc.1]))).
  pose proof (max_decision_spec (wr.1 ++ [sc.1])) as [Hd Hm]. split.
  - destruct Hd as [->|[Hd|Hd%list_elem_of_singleton]%elem_of_app]; [by left| |].
    + apply Hw in Hd as [Hi [Hd|[Hs Hd]]]; right; [by apply rule_write|by apply rule_system].
    + destruct Es as [[_ E]|[Hno E]]; [left; congruence|right]. apply rule_scope; [done|]. by rewrite Hd.
  - assert (∀ d, d ∈ wr.1 ++ [sc.1] → at_most d (max_decision (ALLOW :: wr.1 ++ [sc.1]))) as Hle by exact Hm.
    assert (∀ d, d ∈ wr.1 → at_most d (max_decision (ALLOW :: wr.1 ++ [sc.1]))) as Hl.
    { intros d Hin. apply Hle. rewrite elem_of_app. by left. }
    intros d' [x Hno Hx|x Hi Hx|x Hi Hs Hx]; [|apply Hl, Hw; auto..].
    destruct Es as [[? _]|[_ E]]; [done|]. rewrite (says_det _ _ _ Hx E).
    apply Hle. rewrite elem_of_app. right. by apply list_elem_of_singleton.
Qed.

Lemma path_evaluates path intent grants p ws :
  valid_policy p → ∃ ev, evaluate_local_path path intent grants p ws = Ok ev.
Proof.
  intros Hp. unfold evaluate_local_path, write_decision, scope_decision.
  destruct (proj1 (disposition_valid _) (vp_scope _ Hp)) as [o Ho].
  destruct (proj1 (disposition_valid _) (vp_write _ Hp)) as [w Hw].
  destruct (proj1 (disposition_valid _) (valid_for p SYSTEM_WRITE Hp)) as [s Hs].
  rewrite Ho, Hw, Hs.
  repeat match goal with |- context [if ?b then _ else _] => destruct b end; by eexists.
Qed.

(** ** Commands *)

Definition access_of (writes : list string) (q : string) : access :=
  if bool_decide (q ∈ writes) then WRITE else READ.

(** The pattern matches somewhere in the text, in the declarative reading. *)
Definition occurs (pattern text : string) : Prop :=
  ∃ p q, later (None, text) p ∧ matches (compiled true pattern) p q.

Lemma occurs_iff pattern text : occurs pattern text ↔ re_search (compiled true pattern) text = true.
Proof. symmetry. apply search_iff. Qed.

(** The rules a command triggers: its shape, every path it names, a write target
    in a system area, every row of the danger table that matches. *)
Inductive command_rule (command cwd : string) (grants : list Grant) (p : Policy) (ws : string)
    : decision → Prop :=
| rule_shape x : occurs _POSIX_WRITE_INTENT command → says (workspace_write p) x →
    command_rule command cwd grants p ws x
| rule_path q x : q ∈ _extract_target_paths command cwd →
    path_rule q (access_of (_extract_write_target_paths command cwd) q) grants p ws x →
    command_rule command cwd grants p ws x
| rule_system_target q x : q ∈ _extract_write_target_paths command cwd → _is_system_write_path q = true →
    says (disposition_for p SYSTEM_WRITE) x → command_rule command cwd grants p ws x
| rule_danger category pattern x : (category, pattern) ∈ _POSIX_DANGER →
    occurs pattern command → says (disposition_for p category) x → command_rule command cwd grants p ws x.

Lemma scope_scan_spec paths writes grants p ws r :
  scope_scan paths writes grants p ws = Ok r →
  stands_for r.1 (λ x, ∃ q, q ∈ paths ∧ path_rule q (access_of writes q) grants p ws x).
Proof.
  revert r. induction paths as [|q paths IH]; intros r; cbn.
  { intros [= <-]. apply stands_for_nil. intros d (q & ?%not_elem_of_nil & _). done. }
  fold (access_of writes q).
  destruct (evaluate_local_path _ _ _ _ _) as [ev|] eqn:Ee; [|done].
  destruct (scope_scan _ _ _ _ _) as [rest|]; [|done]. intros [= <-].
  apply (stands_for_app [verdict ev] rest.1 (path_rule q (access_of writes q) grants p ws)
    (λ x, ∃ q, q ∈ paths ∧ path_rule q (access_of writes q) grants p ws x)).
  - intros x. setoid_rewrite elem_of_cons. naive_solver.
  - by apply stands_for_severe, path_verdict.
  - by apply IH.
Qed.

(** A category already seen adds nothing: its disposition is counted. *)
Lemma danger_scan_spec command p seen rows r :
  danger_scan command p seen rows = Ok r →
  ∀ (S : decision → Prop), (∀ c x, mem c seen = true → says (disposition_for p c) x → S x) →
  ∀ ds, stands_for ds S →
  stands_for (ds ++ r.1) (λ x, S x ∨ ∃ c pat, (c, pat) ∈ rows ∧ re_search (compiled true pat) command = true ∧
                                        says (disposition_for p c) x).
Proof.
  revert seen r. induction rows as [|[c pat] rows IH]; intros seen r.
  { intros [= <-] S _ ds Hds. cbn. rewrite app_nil_r.
    destruct Hds as [A B]. split; [intros d Hd; destruct (A d Hd); auto|].
    intros d [Hd|(c & pat & ?%not_elem_of_nil & _)]; [by apply B|done]. }
  cbn [danger_scan]. destruct (negb (mem c seen) && re_search (compiled true pat) command) eqn:Ec.
  - destruct (disposition (disposition_for p c)) as [d|] eqn:Ed; [|done].
    destruct (danger_scan _ _ _ rows) as [rest|] eqn:Er; [|done]. intros [= <-] S HS ds Hds.
    apply andb_true_iff in Ec as [_ Hrow].
    specialize (IH _ _ Er (λ x, S x ∨ says (disposition_for p c) x)). cbn [fst].
    replace (ds ++ d :: rest.1) with ((ds ++ [d]) ++ rest.1) by (by rewrite <- app_assoc).
    destruct (IH) with (ds := ds ++ [d]) as [A B].
    { intros c' x Hc Hx. cbn in Hc. apply orb_true_iff in Hc as [E%String.eqb_eq|Hc]; [subst; auto|eauto]. }
    { eapply (stands_for_app ds [d]); [intros x; reflexivity|done|]. apply stands_for_one.
      intros x. unfold says. rewrite Ed. split; [by intros [= ->]|by intros ->]. }
    split; [intros x Hx|intros x Hx].
    + destruct (A x Hx) as [->|[[?|Hs]|(c' & pat' & Hm & Hr & Hs)]]; [by left|auto|right; right..].
      * exists c, pat. split; [by left|done].
      * exists c', pat'. split; [by right|done].
    + apply B. destruct Hx as [?|(c' & pat' & [Hm|Hm]%elem_of_cons & Hr & Hs)]; [auto|..].
      * injection Hm as -> ->. auto.
      * right. by exists c', pat'.
  - intros Er S HS ds Hds. destruct (IH _ _ Er S HS ds Hds) as [A B].
    split; [intros x Hx|intros x Hx].
    + destruct (A x Hx) as [->|[?|(c' & pat' & Hm & Hr & Hs)]]; [by left|auto|].
      right. right. exists c', pat'. split; [by right|done].
    + apply B. destruct Hx as [?|(c' & pat' & [Hm|Hm]%elem_of_cons & Hr & Hs)]; [auto|..].
      * injection Hm as -> ->. rewrite Hr, andb_true_r in Ec.
        apply negb_false_iff in Ec. left. by apply (HS c).
      * right. by exists c', pat'.
Qed.

(** A rule that counts when [b] holds. *)
Lemma guarded_rule (b : bool) d (why : decision → list string) r :
  (if b then with? x := disposition d in Ok ([x], why x) else Ok ([], [])) = Ok r →
  stands_for r.1 (λ x, b = true ∧ says d x).
Proof.
  destruct b; [|intros [= <-]; apply stands_for_nil; by intros x []].
  destruct (disposition d) as [y|] eqn:Ed; [|done]. intros [= <-].
  apply stands_for_one. intros x. unfold says. rewrite Ed. naive_solver.
Qed.

Lemma command_stands command cwd grants p ws ev :
  evaluate_local_command command cwd grants p ws = Ok ev →
  most_severe (command_rule command cwd grants p ws) (verdict ev).
Proof.
  unfold evaluate_local_command. set (writes := _extract_write_target_paths command cwd).
  match goal with |- match ?m with Ok _ => _ | Err _ => _ end = _ → _ => destruct m as [shape|] eqn:E1; [|done] end.
  destruct (scope_scan _ _ _ _ _) as [scope|] eqn:E2; [|done].
  match goal with |- match ?m with Ok _ => _ | Err _ => _ end = _ → _ => destruct m as [sys|] eqn:E3; [|done] end.
  destruct (danger_scan _ _ _ _) as [risk|] eqn:E4; [|done]. intros [= <-].
  change (most_severe (command_rule command cwd grants p ws)
            (max_decision (ALLOW :: shape.1 ++ scope.1 ++ sys.1 ++ risk.1))).
  apply stands_for_max.
  apply guarded_rule in E1, E3.
  apply scope_scan_spec in E2. set (S2 := λ x, ∃ q, _) in E2.
  pose proof (stands_for_app _ _ _ _ _ (λ x, iff_refl _) E2 E3) as S23.
  pose proof (stands_for_app _ _ _ _ _ (λ x, iff_refl _) E1 S23) as S123.
  assert (∀ d, d ∈ (shape.1 ++ scope.1 ++ sys.1) ++ risk.1 ↔ d ∈ shape.1 ++ scope.1 ++ sys.1 ++ risk.1) as Hp
    by (intros; by rewrite <- !app_assoc).
  pose proof (λ HS, danger_scan_spec _ _ _ _ _ E4 _ HS _ S123) as Hrisk. destruct Hrisk as [A B].
  { intros c x Hc Hx. destruct (existsb _is_system_write_path writes) eqn:Es; cbn in Hc; [|done].
    rewrite orb_false_r in Hc. apply String.eqb_eq in Hc as ->. auto. }
  split.
  - intros d Hd. apply Hp, A in Hd as [->|[[[? ?]|[(q & ? & ?)|[Hs ?]]]|(c & pat & ? & ? & ?)]]; [by left|right..].
    + by apply rule_shape; [apply occurs_iff|].
    + by apply rule_path with q.
    + apply existsb_exists in Hs as (q & Hq%list_elem_of_In & Hs). by apply rule_system_target with q.
    + by apply rule_danger with c pat; [|apply occurs_iff|].
  - intros d Hd. setoid_rewrite <- Hp. apply B. destruct Hd as [x ? ?|q x ? ?|q x Hq Hs ?|c pat x ? ? ?].
    + left. left. split; [by apply occurs_iff|done].
    + left. right. left. by exists q.
    + left. right. right. split; [|done]. apply existsb_exists. exists q. by rewrite <- list_elem_of_In.
    + right. exists c, pat. split_and!; [done|by apply occurs_iff|done].
Qed.

(** ** Evaluation never raises on valid dispositions *)

Lemma says_total d : valid d → ∃ x, says d x.
Proof. apply disposition_valid. Qed.

Lemma scope_scan_total paths writes grants p ws :
  valid_policy p → ∃ r, scope_scan paths writes grants p ws = Ok r.
Proof.
  intros Hp. induction paths as [|q paths [r IH]]; [by eexists|]. cbn.
  destruct (path_evaluates q (if bool_decide (q ∈ writes) then WRITE else READ) grants p ws Hp) as [ev ->].
  rewrite IH. by eexists.
Qed.

Lemma danger_scan_total command p seen rows :
  valid_policy p → ∃ r, danger_scan command p seen rows = Ok r.
Proof.
  intros Hp. revert seen. induction rows as [|[c pat] rows IH]; intros seen; [by eexists|]. cbn [danger_scan].
  destruct (negb _ && _); [|apply IH]. destruct (says_total _ (valid_for p c Hp)) as [x ->].
  destruct (IH (c :: seen)) as [r ->]. by eexists.
Qed.

Lemma command_evaluates command cwd grants p ws :
  valid_policy p → ∃ ev, evaluate_local_command command cwd grants p ws = Ok ev.
Proof.
  intros Hp. unfold evaluate_local_command.
  destruct (says_total _ (vp_write _ Hp)) as [w ->].
  destruct (says_total _ (valid_for p SYSTEM_WRITE Hp)) as [s ->].
  destruct (scope_scan_total (_extract_target_paths command cwd)
    (_extract_write_target_paths command cwd) grants p ws Hp) as [sc ->].
  destruct (_has_write_intent command), (existsb _is_system_write_path _);
    match goal with |- context [danger_scan ?a ?b ?c ?d] =>
      destruct (danger_scan_total a b c d Hp) as [r ->] end; by eexists.
Qed.

Lemma severe_allow S d : most_severe S ALLOW → S d → d = ALLOW.
Proof. intros [_ M] Hd. specialize (M d Hd). destruct d; unfold at_most in M; cbn in M; (done || lia). Qed.

(** With valid dispositions a shell command always gets a verdict, and it is
    that of the most severe rule the command triggers: its write-like shape, each
    path it names (outside the workspace and the grants, or written), a write
    target in a system area, each row of the danger table that matches.  Counting
    a category once and the order of the rules change nothing.  When paths out of
    scope are not allowed outright, an allowed command names only paths of the
    workspace or of a grant that gives the access. *)
Theorem command_verdict_most_severe command cwd grants p ws :
  valid_policy p →
  ∃ ev, evaluate_local_command command cwd grants p ws = Ok ev ∧
    (∀ d, verdict ev = d ↔ most_severe (command_rule command cwd grants p ws) d) ∧
    (verdict ev = ALLOW → out_of_scope p ≠ "allow" →
       ∀ q, q ∈ _extract_target_paths command cwd →
         in_scope q (access_of (_extract_write_target_paths command cwd) q) grants ws).
Proof.
  intros Hp. destruct (command_evaluates command cwd grants p ws Hp) as [ev Hev].
  exists ev. pose proof (command_stands _ _ _ _ _ _ Hev) as Hs. split_and!; [done| |].
  - intros d. split; [by intros <-|]. by apply most_severe_unique.
  - intros Ha Ho q Hq. apply dec_stable. intros Hno. rewrite Ha in Hs.
    destruct (says_total _ (vp_scope _ Hp)) as [x Hx].
    assert (x = ALLOW) as -> by (eapply severe_allow; [exact Hs|]; by apply rule_path with q; [|by apply rule_scope]).
    revert Hx Ho. unfold says, disposition. repeat case_bool_decide; congruence.
Qed.
End host.

(** ** The store *)

Section store.
Context `{HostPaths}.

(** Canonicalisation leaves the canonical form of [path] alone. *)
Definition stable (path : string) : Prop :=
  _canonical_grant_path (_canonical_grant_path path) = _canonical_grant_path path.

(** What the settings of a desktop can have written, with grants for paths of
    [P]. *)
Inductive written_by (P : string → Prop) : option Store → Prop :=
| written_nothing : written_by P None
| written_add path mode file entry file' :
    written_by P file → P path → add_grant path mode file = Some (entry, file') → written_by P file'
| written_remove path file : written_by P file → written_by P (remove_grant path file)
| written_policy p file clean file' :
    written_by P file → set_policy p file = Some (clean, file') → written_by P file'.

(** Grants for directories whose canonical form is stable. *)
Definition written : option Store → Prop := written_by stable.

Definition entry_of (pm : string * string) : pydict string string := [("path", pm.1); ("mode", pm.2)].

(** The grants are entries of pairs [pms], one per canonical path. *)
Record wf_grants (gs : list (pydict string string)) (pms : list (string * string)) : Prop := {
  wg_entries : gs = map entry_of pms;
  wg_canonical : ∀ p m, (p, m) ∈ pms → _canonical_grant_path p = p ∧ p ≠ "" ∧ m ∈ _VALID_MODES;
  wg_unique : NoDup pms.*1
}.

Definition wf_policy (d : pydict string string) : Prop := ∀ k v, (k, v) ∈ d → valid v.

Lemma stored_path_entry pm : stored_path (entry_of pm) = pm.1.
Proof. done. Qed.

Lemma drop_entries real pms :
  (∀ p m, (p, m) ∈ pms → _canonical_grant_path p = p) →
  drop_grant real (map entry_of pms) = map entry_of (List.filter (λ pm, negb (bool_decide (pm.1 = real))) pms).
Proof.
  unfold drop_grant. induction pms as [|[p m] pms IH]; intros Hc; [done|].
  change (map entry_of ((p, m) :: pms)) with (entry_of (p, m) :: map entry_of pms). cbn [List.filter fst].
  rewrite stored_path_entry. cbn [fst]. rewrite (Hc p m) by (by left). rewrite IH by (intros; eapply Hc; by right).
  by destruct (negb (bool_decide (p = real))).
Qed.

Lemma elem_of_dropped real (pms : list (string * string)) p m :
  (p, m) ∈ List.filter (λ pm, negb (bool_decide (pm.1 = real))) pms ↔ (p, m) ∈ pms ∧ p ≠ real.
Proof. by rewrite list_elem_of_In, filter_In, <- list_elem_of_In, negb_true_iff, bool_decide_eq_false. Qed.

Lemma wf_drop real gs pms :
  wf_grants gs pms →
  wf_grants (drop_grant real gs) (List.filter (λ pm, negb (bool_decide (pm.1 = real))) pms).
Proof.
  intros [-> Hc Hn]. split.
  - apply drop_entries. intros p m Hin. by destruct (Hc p m Hin).
  - intros p m [Hin _]%elem_of_dropped. by apply Hc.
  - by apply filter_NoDup.
Qed.

Lemma wf_add real mode gs pms :
  wf_grants gs pms → _canonical_grant_path real = real → real ≠ "" → mode ∈ _VALID_MODES →
  wf_grants (drop_grant real gs ++ [entry_of (real, mode)])
    (List.filter (λ pm, negb (bool_decide (pm.1 = real))) pms ++ [(real, mode)]).
Proof.
  intros Hw Hr Hne Hm. destruct (wf_drop real _ _ Hw) as [E Hc Hn]. split.
  - rewrite map_app. by rewrite <- E.
  - intros p m [Hin|Hin%list_elem_of_singleton]%elem_of_app; [by apply Hc|]. by simplify_eq.
  - rewrite fmap_app. apply NoDup_app. split_and!; [done| |apply NoDup_singleton].
    intros p ([p' m] & -> & [_ Hin]%elem_of_dropped)%list_elem_of_fmap [=]%list_elem_of_singleton. done.
Qed.

Lemma clean_policy_valid p clean : clean_policy p = Some clean → wf_policy clean.
Proof.
  revert clean. induction p as [|[k v] p IH]; intros clean; cbn.
  { intros [= <-] k v ?%not_elem_of_nil. done. }
  destruct (known_key k); [|apply IH]. case_bool_decide as Ev; [|done].
  destruct (clean_policy p) as [c|]; [|done]. intros [= <-].
  intros k' v' [[= -> ->]|Hin]%elem_of_cons; [done|]. by apply (IH c eq_refl k').
Qed.

Lemma add_grant_cases path mode file :
  let real := _canonical_grant_path path in
  match add_grant path mode file with
  | Some (entry, file') => real ≠ "" ∧ mode ∈ _VALID_MODES ∧ entry = entry_of (real, mode) ∧
      file' = Some (mkStore (drop_grant real (s_grants (_load file)) ++ [entry]) (s_policy (_load file)))
  | None => real = "" ∨ mode ∉ _VALID_MODES
  end.
Proof.
  cbn zeta. unfold add_grant. repeat case_bool_decide; cbn; auto.
Qed.

Lemma written_wf_policy P file : written_by P file → wf_policy (s_policy (_load file)).
Proof.
  induction 1 as [|path mode file entry file' Hw Hp Hs Ha|path file Hw Hp|p file clean file' Hw Hp Hs].
  - by intros k v ?%not_elem_of_nil.
  - pose proof (add_grant_cases path mode file) as Hc. cbn zeta in Hc. rewrite Ha in Hc.
    by destruct Hc as (_ & _ & -> & ->).
  - done.
  - unfold set_policy in Hs. destruct (clean_policy p) as [c|] eqn:Ec; [|done].
    injection Hs as <- <-. by apply clean_policy_valid with p.
Qed.

Lemma written_wf_grants file : written file → ∃ pms, wf_grants (s_grants (_load file)) pms.
Proof.
  induction 1 as [|path mode file entry file' Hw [pms Hg] Hs Ha|path file Hw [pms Hg]
                 |p file clean file' Hw [pms Hg] Hs].
  - exists []. split; [done|by intros ? ? ?%not_elem_of_nil|constructor].
  - pose proof (add_grant_cases path mode file) as Hc. cbn zeta in Hc. rewrite Ha in Hc.
    destruct Hc as (Hne & Hm & -> & ->). eexists. by apply wf_add.
  - eexists. by apply wf_drop.
  - unfold set_policy in Hs. destruct (clean_policy p) as [c|]; [|done].
    injection Hs as <- <-. by exists pms.
Qed.

Lemma gate_entries file pms :
  wf_grants (s_grants (_load file)) pms → grants_for_gate file = map (λ pm, mkGrant pm.1 pm.2) pms.
Proof.
  intros [E Hc _]. unfold grants_for_gate. rewrite E. clear E.
  induction pms as [|[p m] pms IH]; [done|]. cbn.
  destruct (Hc p m) as (_ & Hne & _); [by left|]. rewrite IH by (intros; apply Hc; by right).
  destruct p; [done|]. done.
Qed.

(** What the gate sees of the store, as a map from canonical path to mode. *)
Definition gate_map (file : option Store) : gmap string string :=
  list_to_map (map (λ g, (grant_path g, grant_mode g)) (grants_for_gate file)).

Lemma gate_map_lookup file pms p m :
  wf_grants (s_grants (_load file)) pms → gate_map file !! p = Some m ↔ (p, m) ∈ pms.
Proof.
  intros Hw. unfold gate_map. rewrite (gate_entries file pms Hw), map_map. cbn.
  replace (map _ pms) with pms by (clear; induction pms as [|[? ?] ? IH]; [done|cbn; by f_equal]).
  symmetry. apply elem_of_list_to_map, Hw.
Qed.

Lemma gate_map_ext file' pms' (f : gmap string string) :
  wf_grants (s_grants (_load file')) pms' →
  (∀ p m, (p, m) ∈ pms' ↔ f !! p = Some m) → gate_map file' = f.
Proof.
  intros Hw Hf. apply map_eq. intros p. apply option_eq. intros m. by rewrite (gate_map_lookup _ _ _ _ Hw), Hf.
Qed.

(** C37: The grant store refines a finite map from canonical directory to mode,
    as long as only directories are granted whose canonical form is [stable],
    that is, canonical again (it is not when the name ends in a blank: see
    [blank_grant_not_revoked]).  Whatever sequence of such additions, of removals
    and of policy changes wrote it, the gate sees at most one grant per directory;
    granting such a directory inserts (or is refused for an empty path or an
    unknown mode), the last mode given wins, revoking any path deletes its
    canonical directory, and changing dispositions leaves the grants alone. *)
Theorem grant_store_refines_map file :
  written file →
  NoDup (map grant_path (grants_for_gate file)) ∧
  (∀ path mode, stable path →
     match add_grant path mode file with
     | Some (_, file') => gate_map file' = <[_canonical_grant_path path := mode]> (gate_map file)
     | None => _canonical_grant_path path = "" ∨ mode ∉ _VALID_MODES
     end) ∧
  (∀ path, gate_map (remove_grant path file) = delete (_canonical_grant_path path) (gate_map file)) ∧
  (∀ p clean file', set_policy p file = Some (clean, file') → gate_map file' = gate_map file).
Proof.
  intros [pms Hw]%written_wf_grants. split_and!.
  - rewrite (gate_entries _ _ Hw), map_map. exact (wg_unique _ _ Hw).
  - intros path mode Hs. pose proof (add_grant_cases path mode file) as Hc. cbn zeta in Hc.
    destruct (add_grant path mode file) as [[entry file']|]; [|done].
    destruct Hc as (Hne & Hm & -> & ->). eapply gate_map_ext; [by eapply wf_add|].
    intros p m. rewrite elem_of_app, list_elem_of_singleton, elem_of_dropped,
      lookup_insert_Some, (gate_map_lookup _ _ _ _ Hw). naive_solver.
  - intros path. eapply gate_map_ext; [by eapply wf_drop|].
    intros p m. rewrite elem_of_dropped, lookup_delete_Some, (gate_map_lookup _ _ _ _ Hw). naive_solver.
  - intros p clean file' Hs. unfold set_policy in Hs. destruct (clean_policy p); [|done]. injection Hs as <- <-.
    eapply gate_map_ext; [exact Hw|]. intros q m. by rewrite (gate_map_lookup _ _ _ _ Hw).
Qed.

Lemma policy_for_gate_valid P mode (file : option Store) :
  written_by P file → valid_policy (policy_for_gate mode file).
Proof.
  intros Hp%written_wf_policy. unfold policy_for_gate. case_bool_decide.
  - split; [by apply valid_dec_true..|]. intros c d Hd%dget_elem. apply list_elem_of_fmap in Hd as (c' & [= -> ->] & _).
    by apply valid_dec_true.
  - split; cbn.
    + destruct (dget _ _) as [v|] eqn:E; [|by apply valid_dec_true]. apply dget_elem in E. by eapply Hp.
    + by apply valid_dec_true.
    + intros c d Hd%dget_elem%list_elem_of_In%filter_In. apply (Hp c), list_elem_of_In, Hd.
Qed.
End store.

(** ** Witnesses and findings *)

(** A host without links; on [mac] the usual system directories are links. *)
Definition plain_host : HostPaths := {|
  expanduser := λ s, s; cwd := "/workspace"; realpath := λ s, s;
  path_exists := λ _, true; is_dir := λ _, true; is_link := λ _, false |}.

Definition mac_host : HostPaths := {|
  expanduser := λ s, s; cwd := "/workspace";
  realpath := λ s, if _is_under s "/etc" then "/private" +:+ s else s;
  path_exists := λ _, true; is_dir := λ _, true; is_link := λ s, bool_decide (s = "/etc") |}.

Definition default_policy : Policy := mkPolicy "confirm" "allow" [].

Lemma default_policy_valid : valid_policy default_policy.
Proof. split; [by apply valid_dec_true..|done]. Qed.

Lemma command_verdict_most_severe_witness :
  @evaluate_local_command plain_host "rm /data/a" "/workspace" [] default_policy "/workspace"
    = Ok (mkEval CONFIRM ["out-of-scope path: /data/a"; "danger:out_of_scope_write"; "danger:delete"] ["/data/a"]) ∧
  ∀ d, CONFIRM = d ↔ most_severe (@command_rule plain_host "rm /data/a" "/workspace" []
                                    default_policy "/workspace") d.
Proof.
  destruct (@command_verdict_most_severe plain_host "rm /data/a" "/workspace" []
    default_policy "/workspace" default_policy_valid) as (ev & Hev & Hd & _).
  assert (@evaluate_local_command plain_host "rm /data/a" "/workspace" [] default_policy "/workspace"
    = Ok (mkEval CONFIRM ["out-of-scope path: /data/a"; "danger:out_of_scope_write"; "danger:delete"] ["/data/a"]))
    as Hc by (vm_compute; reflexivity).
  split; [exact Hc|]. intros d. rewrite <- Hd. rewrite Hc in Hev. injection Hev as <-. reflexivity.
Defined.

Definition granted : option Store :=
  Some (mkStore [entry_of ("/data", "read")] []).

Lemma granted_written : @written plain_host granted.
Proof.
  apply (@written_add plain_host _ "/data/./" "read" None (entry_of ("/data", "read")) granted).
  - constructor.
  - by vm_compute.
  - by vm_compute.
Qed.

Lemma grant_store_refines_map_witness :
  @written plain_host granted ∧
  gate_map (@remove_grant plain_host "/data//" granted) = delete "/data" (gate_map granted).
Proof.
  split; [exact granted_written|].
  destruct (@grant_store_refines_map plain_host granted granted_written) as (_ & _ & Hr & _).
  exact (Hr "/data//").
Defined.

(** Where [/etc] is a link, a write into it is not seen as a system write: the
    table of system areas is compared with resolved paths. *)
Lemma linked_system_area_unseen :
  @_canonical mac_host "/etc/hosts" = "/private/etc/hosts" ∧
  _is_system_write_path (@_canonical mac_host "/etc/hosts") = false ∧
  @evaluate_local_path mac_host "/etc/hosts" WRITE [mkGrant "/private" "readwrite"] default_policy "/workspace"
    = Ok (mkEval ALLOW [] []).
Proof. vm_compute. done. Qed.

(** A directory whose name ends in a blank is granted but cannot be revoked. *)
Lemma blank_grant_not_revoked :
  let file := Some (mkStore [entry_of ("/data ", "read")] []) in
  @add_grant plain_host "/data /." "read" None = Some (entry_of ("/data ", "read"), file) ∧
  grants_for_gate (@remove_grant plain_host "/data /." file) = [mkGrant "/data " "read"].
Proof. split; vm_compute; reflexivity. Qed.
