(* ===== verification/ToolPermissions.v ===== *)
(** * The permission gateway of governed tools: [core/llm/tool_permissions.py]

    A registry names the governed tools; a resolver turns a call into intents;
    the service asks the policy of each intent, the user's preset, and the
    confirmation gate; a ticket carries the result to the execution boundary and
    dies with the dispatch.  Questions put to the user are answered by an oracle
    that returns what [ConfirmGate.gate] may return. *)

From S2P Require Import Prelude PyString PyDict ConfirmGate PosixPath WorkspacePaths SandboxPolicy Regex LocalPolicy.

Module ToolPermissions.
Import ConfirmGate (gate_args, mkGateArgs, verdict, Pass, Intercept).
Import LocalPolicy (access, READ, WRITE).

Inductive domain : Type :=
| DOMAIN_LOCAL_PATH | DOMAIN_LOCAL_COMMAND | DOMAIN_MYSPACE | DOMAIN_APPROVAL | DOMAIN_DENY
| DOMAIN_OTHER (name : string).
#[global] Instance domain_eq : EqDecision domain.
Proof. solve_decision. Defined.

Inductive action : Type := Act (a : access) | EXECUTE | ActDeny | ActOther (name : string).
#[global] Instance action_eq : EqDecision action.
Proof. solve_decision. Defined.
Definition action_value (a : action) : string :=
  match a with
  | Act READ => "read" | Act WRITE => "write" | EXECUTE => "execute" | ActDeny => "deny" | ActOther n => n
  end.

Definition APPROVAL_ASK : string := "ask".
Definition APPROVAL_AUTO : string := "auto".
Definition APPROVAL_FULL : string := "full".
Definition APPROVAL_MODES : list string := [APPROVAL_ASK; APPROVAL_AUTO; APPROVAL_FULL].
Definition DESTRUCTIVE_OPS : list string := ["delete"; "cron_delete"].
Definition UNCONFINED_APPROVAL_MODES : list string := [APPROVAL_FULL].
Definition FAIL_CLOSED_MODE : string := "fail_closed".

(** The legacy names map to the most careful mode, as anything unknown does. *)
Definition _LEGACY_APPROVAL_ALIASES : pydict string string :=
  [("standard", APPROVAL_ASK); ("readonly", APPROVAL_ASK)].
Definition normalize_approval_mode (raw : option string) : string :=
  let mode := lower (strip (default "" raw)) in
  if bool_decide (mode ∈ APPROVAL_MODES) then mode
  else default APPROVAL_ASK (dget _LEGACY_APPROVAL_ALIASES mode).

(** [stored] is the user's own setting, [Err] when it cannot be read. *)
Definition resolve_approval_mode (explicit : option string) (user_id : option string)
    (stored : result unit (option string)) : string :=
  match explicit with
  | Some m => normalize_approval_mode (Some m)
  | None =>
      match user_id with
      | None | Some "" => APPROVAL_ASK
      | Some _ => match stored with Ok s => normalize_approval_mode s | Err _ => APPROVAL_ASK end
      end
  end.

Definition _preset_answers (mode : string) (dangerous : bool) : bool :=
  bool_decide (mode = APPROVAL_FULL) || bool_decide (mode = APPROVAL_AUTO) && negb dangerous.

Definition preset_answers_for_user (user_id : option string) (stored : result unit (option string))
    (op : string) (dangerous : bool) : bool :=
  _preset_answers (resolve_approval_mode None user_id stored)
    (dangerous || bool_decide (op ∈ DESTRUCTIVE_OPS)).

Record PermissionRuntime := mkRuntime {
  chat_id : option string;
  user_id : option string;
  interactive : bool;
  approval_available : bool;
  default_allow : bool;
  approval_mode : string;
  sandbox_session_id : option string
}.

Inductive fallback : Type := FALLBACK_DENY | FALLBACK_ALLOW.
#[global] Instance fallback_eq : EqDecision fallback.
Proof. solve_decision. Defined.

Record PermissionIntent := mkIntent {
  i_domain : domain;
  i_action : action;
  target : string;
  i_summary : string;
  i_op : string;
  i_kind : string;
  on_no_ui : fallback
}.

(** A resolver may raise; the text of the exception is its error. *)
Definition IntentResolver := dict → PermissionRuntime → result string (list PermissionIntent).
Record ToolPermissionSpec := mkSpec { spec_key : string; resolver : IntentResolver }.

Record LocalCommandAuthorization := mkCommandAuth {
  command : string;
  ca_mode : string;
  ca_access : SandboxPolicy.LocalAccessDecision;
  ca_workspace_root : string
}.
Definition confined (a : LocalCommandAuthorization) : bool := negb (SandboxPolicy.unconfined (ca_access a)).

Record PermissionTicket := mkTicket {
  tool_name : string;
  tool_call_id : string;
  args_hash : string;
  t_spec_key : string;
  intents : list PermissionIntent;
  local_command : option LocalCommandAuthorization;
  t_reasons : list string
}.

(** A tool call as the framework hands it over, its arguments parsed. *)
Record tool_call := mkCall { call_name : string; call_id : string; call_args : dict }.

(** Facts of the process: deployment, workspace root, what the lookup of the grant
    store yields, the install's own directories.  [Err] is a lookup that raises;
    a file that is missing, unreadable or no JSON object is not such a case, since
    [_load] answers it with the defaults: it is [Ok None]. *)
Record Env := mkEnv {
  local_mode : bool;
  WORKSPACE : string;
  store : result unit (option LocalPolicy.Store);
  install_paths : list string
}.

(** The wording shown to the user. *)
Class PermissionText := {
  path_summary : string → action → string → dict → string;
  command_summary : string → string
}.

Definition canonical_json (v : json) : string := json_dumps false true "," ":" v.

(** ** Registry *)

Record Registry := mkRegistry {
  specs : pydict string ToolPermissionSpec;
  sources : pydict string string
}.
Definition empty_registry : Registry := mkRegistry [] [].

(** [None] is [ValueError]. *)
Definition register (name : string) (spec : ToolPermissionSpec) (source : string) (r : Registry)
    : option Registry :=
  let name := strip name in
  if bool_decide (name = "") then None
  else match dget (specs r) name with
       | Some previous =>
           if bool_decide (spec_key previous = spec_key spec)
           then Some (mkRegistry (dput (specs r) name spec) (dput (sources r) name source))
           else None
       | None => Some (mkRegistry (dput (specs r) name spec) (dput (sources r) name source))
       end.

(** ** Specs *)

Definition allow_tool : ToolPermissionSpec := mkSpec "allow" (λ _ _, Ok []).
Definition deny_tool (reason : string) : ToolPermissionSpec :=
  mkSpec ("deny:" +:+ reason)
    (λ _ _, Ok [mkIntent DOMAIN_DENY ActDeny "" reason "" "" FALLBACK_DENY]).

(** [str(args.get(k) or "").strip()] *)
Definition arg_text `{ConfirmGate.GateHost} (args : dict) (k : string) : string :=
  match dict_get args k with
  | Some v => if truthy v then strip (ConfirmGate.py_str (Some v)) else ""
  | None => ""
  end.

Definition _is_myspace_target (env : Env) (logical physical : string) (user : option string) : bool :=
  WorkspacePaths.at_or_under WorkspacePaths.MYSPACE_LOGICAL logical ||
  WorkspacePaths.is_myspace_physical (WORKSPACE env) physical user.

(** [a or b] on identifiers *)
Definition or_id (a b : option string) : option string :=
  match a with None | Some "" => b | Some _ => a end.

Definition physical_path `{Digest, HostPaths} (env : Env) (rt : PermissionRuntime) (logical : string) : option string :=
  WorkspacePaths.to_physical_path (WORKSPACE env) (local_mode env) logical (user_id rt)
    (or_id (sandbox_session_id rt) (chat_id rt)).

Section specs.
Context `{PermissionText, Digest, HostPaths, ConfirmGate.GateHost}.
Variable env : Env.

(** The loop over [path_specs] from position [i]: the intents and the first
    logical and physical paths. *)
Fixpoint path_intents (tool default_path : string) (args : dict) (rt : PermissionRuntime) (first_arg : bool)
    (specs : list (string * access)) : result string (list PermissionIntent * option (string * string)) :=
  match specs with
  | [] => Ok ([], None)
  | (arg, mode) :: rest =>
      let given := arg_text args arg in
      let logical := if bool_decide (given = "") && first_arg then default_path else given in
      if bool_decide (logical = "") then path_intents tool default_path args rt false rest
      else
        match physical_path env rt logical with
        | None => Err "path"
        | Some physical =>
            with? more := path_intents tool default_path args rt false rest in
            Ok (mkIntent DOMAIN_LOCAL_PATH (Act mode) physical (path_summary tool (Act mode) logical args)
                  "" "" FALLBACK_DENY :: more.1,
                Some (logical, physical))
        end
  end.

Definition spec_text (arg_mode : string * access) : string :=
  arg_mode.1 +:+ ":" +:+ action_value (Act arg_mode.2).

Definition local_path_tool (path_arg : string) (act : access) (tool : string)
    (additional : list (string * access)) (myspace_op skip_if_arg default_path : string)
    : ToolPermissionSpec :=
  let path_specs := (path_arg, act) :: additional in
  mkSpec ("path:" +:+ join "," (map spec_text path_specs)
            +:+ (if bool_decide (myspace_op = "") then "" else ":myspace:" +:+ myspace_op)
            +:+ (if bool_decide (default_path = "") then "" else ":default:" +:+ default_path))
    (λ args rt,
       if negb (bool_decide (skip_if_arg = "")) && negb (bool_decide (arg_text args skip_if_arg = ""))
       then Ok []
       else
         with? r := path_intents tool default_path args rt true path_specs in
         Ok (r.1 ++ match r.2 with
                    | Some (logical, physical) =>
                        if negb (bool_decide (myspace_op = "")) &&
                           _is_myspace_target env logical physical (user_id rt)
                        then [mkIntent DOMAIN_MYSPACE (Act WRITE) logical
                                (path_summary tool (Act WRITE) logical args) myspace_op "myspace" FALLBACK_DENY]
                        else []
                    | None => []
                    end)).

Definition local_command_tool : ToolPermissionSpec :=
  mkSpec "local-command:command"
    (λ args _,
       let cmd := arg_text args "command" in
       if bool_decide (cmd = "") then Ok []
       else Ok [mkIntent DOMAIN_LOCAL_COMMAND EXECUTE cmd (command_summary cmd) "local_exec" "local_cmd"
                  FALLBACK_DENY]).

Definition governed : pydict string ToolPermissionSpec :=
  let path := local_path_tool in
  [("Read", path "file_path" READ "Read" [] "" "" "");
   ("Write", path "file_path" WRITE "Write" [] "write" "" "");
   ("Edit", path "file_path" WRITE "Edit" [] "edit" "" "");
   ("Glob", path "path" READ "Glob" [] "" "" "/workspace");
   ("Grep", path "path" READ "Grep" [] "" "" "/workspace");
   ("read_image", path "file_path" READ "read_image" [] "" "file_id" "");
   ("Delete", path "path" WRITE "Delete" [] "delete" "" "");
   ("Move", path "src_path" WRITE "Move" [("dst_path", WRITE)] "move" "" "");
   ("CreateFolder", path "path" WRITE "CreateFolder" [] "mkdir" "" "");
   ("bash", local_command_tool);
   ("Bash", local_command_tool);
   ("sandbox_put_artifact", path "dest_path" WRITE "sandbox_put_artifact" [] "" "" "");
   ("sandbox_get_artifact", path "src_path" READ "sandbox_get_artifact" [] "" "" "");
   ("run_job", path "script_path" READ "run_job" [("dest_path", WRITE)] "" "" "")].
Definition builtin_tool_permission (name : string) : option ToolPermissionSpec := dget governed name.

(** ** Declarations outside [tool_permissions.py] *)

(** [core/artifacts/local_project.py]; [local_path] is that of the project scope,
    empty without one. *)
Definition project_file_path (path local_path : string) (user session : option string) : option string :=
  match path_expanduser path with
  | None => None
  | Some source =>
      let to_physical p := WorkspacePaths.to_physical_path (WORKSPACE env) (local_mode env) p user session in
      if negb (isabs source) && negb (bool_decide (local_path = "")) then
        match path_expanduser local_path with
        | None => None
        | Some base => to_physical (path_text (join_path base source))
        end
      else to_physical source
  end.

(** The loop of [resolve_pin_paths]: other values than non-blank strings are
    skipped. *)
Fixpoint pin_intents (local_path : string) (session : option string) (rt : PermissionRuntime)
    (paths : list json) : result string (list PermissionIntent) :=
  match paths with
  | [] => Ok []
  | JStr path :: rest =>
      if bool_decide (strip path = "") then pin_intents local_path session rt rest
      else
        match project_file_path path local_path (user_id rt)
                (or_id session (or_id (sandbox_session_id rt) (chat_id rt))) with
        | None => Err "path"
        | Some physical =>
            with? ints := resolver (local_path_tool "path" READ "pin_to_workspace" [] "" "" "")
                            [("path", JStr physical)] rt in
            with? more := pin_intents local_path session rt rest in
            Ok (ints ++ more)
        end
  | _ :: rest => pin_intents local_path session rt rest
  end.

(** The declaration of [core/llm/tools/pin_tool.py]. *)
Definition pin_paths_tool (local_path : string) (session : option string) : ToolPermissionSpec :=
  mkSpec "local-project-pin-paths"
    (λ args rt,
       let paths := default JNull (dict_get args "file_paths") in
       if negb (truthy paths) then Ok []
       else match paths with
            | JStr _ => pin_intents local_path session rt [paths]
            | JList l => pin_intents local_path session rt l
            | JDict d => pin_intents local_path session rt (map (λ kv, JStr kv.1) d)
            | _ => Err "not iterable"
            end).

(** The declarations of [core/llm/tools/project_instructions_tool.py] for the
    instruction file [target]. *)
Definition read_instructions_tool (target : string) : ToolPermissionSpec :=
  local_path_tool "file_path" READ "read_project_instructions" [] "" "" target.
Definition save_instructions_tool (target : string) : ToolPermissionSpec :=
  local_path_tool "file_path" WRITE "save_project_instructions" [] "edit" "" target.
End specs.

(** ** Tickets *)

Section tickets.
Context `{Digest, HostPaths}.

Definition hash_args (args : dict) : string := sha256 (canonical_json (JDict args)).

Definition matches (t : PermissionTicket) (c : tool_call) : bool :=
  bool_decide (tool_name t = call_name c) && bool_decide (tool_call_id t = call_id c) &&
  bool_decide (args_hash t = hash_args (call_args c)).

Definition authorizes_path (t : PermissionTicket) (path : string) (a : access) : bool :=
  let wanted := canonical_path path in
  existsb (λ i, bool_decide (i_domain i = DOMAIN_LOCAL_PATH) &&
                bool_decide (canonical_path (target i) = wanted) &&
                (bool_decide (i_action i = Act a) ||
                 bool_decide (i_action i = Act WRITE) && bool_decide (a = READ))) (intents t).

(** ** One-shot write roots *)

(** [home] is [os.path.expanduser("~")]. *)
Definition _too_broad_write_root (p : string) : bool :=
  let resolved := canonical_path p in
  bool_decide (resolved = dirname resolved) || bool_decide (resolved = canonical_path (expanduser "~")).

Definition _one_shot_write_root (p : string) : option string :=
  let t := canonical_path p in
  if path_exists t then Some t
  else
    let parent := dirname t in
    if bool_decide (parent = t) || negb (is_dir parent) then None
    else if _too_broad_write_root parent then None
    else Some parent.
End tickets.

(** ** The service *)

Inductive payload : Type :=
| BlockedBy (why : string)
| FromGate (v : verdict).
Definition payload_ok (p : payload) : bool :=
  match p with
  | BlockedBy _ => false
  | FromGate (Intercept st) => bool_decide (st = "deduplicated")
  | FromGate _ => false
  end.

Record intent_result := mkResult {
  r_payload : option payload;
  r_reasons : list string;
  r_command : option LocalCommandAuthorization
}.

Inductive outcome : Type :=
| Unregistered                                  (* proceed, no ticket *)
| Proceed (t : PermissionTicket)
| Refuse (p : payload) (reasons : list string).

Section service.
Context `{Digest, HostPaths}.
Variable env : Env.
Variable rt : PermissionRuntime.

Definition _answers_for_user (dangerous : bool) : bool :=
  default_allow rt || _preset_answers (approval_mode rt) dangerous.

Definition has_chat : bool := match chat_id rt with None | Some "" => false | Some _ => true end.
Definition can_ask : bool := approval_available rt && has_chat.

Definition _no_ui_pass_through (i : PermissionIntent) : bool :=
  if can_ask then false else bool_decide (on_no_ui i = FALLBACK_ALLOW).

Definition closed_policy : LocalPolicy.Policy :=
  LocalPolicy.mkPolicy "block" "block"
    [(LocalPolicy.DELETE, "block"); (LocalPolicy.SYSTEM_WRITE, "block");
     (LocalPolicy.NETWORK, "block"); (LocalPolicy.PRIVILEGE, "block")].

(** [Err] is an exception of the lookup, not an unreadable file: [_load] answers
    that with the defaults (see [store]). *)
Definition _safe_local_security : string * list LocalPolicy.Grant * LocalPolicy.Policy :=
  match store env with
  | Ok file => (approval_mode rt, LocalPolicy.grants_for_gate file,
                LocalPolicy.policy_for_gate (approval_mode rt) file)
  | Err _ => (FAIL_CLOSED_MODE, [], closed_policy)
  end.

Definition is_dangerous (rs : list string) : bool :=
  negb (bool_decide (LocalPolicy.danger_categories rs = [])).

(** What the user is asked about intent [i]. *)
Definition path_question (i : PermissionIntent) (a : access) : gate_args :=
  mkGateArgs (chat_id rt) (match a with READ => "local_read" | WRITE => "local_write" end) (target i)
    can_ask (i_summary i) (ConfirmGate.KIND_LOCAL_PATH_PREFIX +:+ action_value (Act a)).

(** [intent.action] that is neither read nor write raises [ValueError]. *)
Definition _authorize_local_path (ask : gate_args → verdict) (i : PermissionIntent) : result string intent_result :=
  if negb (local_mode env) then Ok (mkResult None [] None)
  else
    match i_action i with
    | Act a =>
        let '(_, grants, policy) := _safe_local_security in
        with? ev := LocalPolicy.evaluate_local_path (target i) a grants policy (WORKSPACE env) in
        let rs := LocalPolicy.reasons ev in
        match LocalPolicy.verdict ev with
        | LocalPolicy.DENY => Ok (mkResult (Some (BlockedBy "policy")) rs None)
        | LocalPolicy.ALLOW => Ok (mkResult None rs None)
        | LocalPolicy.CONFIRM =>
            if _answers_for_user (is_dangerous rs)
            then Ok (mkResult None (rs ++ ["approved_by_preset:" +:+ approval_mode rt]) None)
            else if _no_ui_pass_through i
            then Ok (mkResult None (rs ++ ["no_approval_ui_pass_through:local_path"]) None)
            else match ask (path_question i a) with
                 | Pass => Ok (mkResult None rs None)
                 | v => Ok (mkResult (Some (FromGate v)) rs None)
                 end
        end
    | _ => Err "unsupported local path intent"
    end.

Definition _physical (logical : string) : string :=
  default logical (physical_path env rt logical).

(** [_admit]: one candidate for the writable roots. *)
Definition _admit (system_write_allowed : bool) (writable : list string) (candidate : string) : list string :=
  if bool_decide (candidate = "") || bool_decide (candidate ∈ writable) then writable
  else if negb system_write_allowed && LocalPolicy.intersects_system_write_area candidate then writable
  else writable ++ [candidate].

Definition granted_roots (system_write_allowed may_write : bool) (writable : list string)
    (grants : list LocalPolicy.Grant) : list string * list string :=
  foldl (λ wr g, if bool_decide (LocalPolicy.grant_mode g = "readwrite") && may_write
                 then (_admit system_write_allowed wr.1 (LocalPolicy.grant_path g), wr.2)
                 else (wr.1, wr.2 ++ [LocalPolicy.grant_path g])) (writable, []) grants.

Definition one_shot_roots (system_write_allowed : bool) (writable targets : list string) : list string :=
  foldl (λ w t, match _one_shot_write_root (_physical t) with
                | None | Some "" => w
                | Some root => _admit system_write_allowed w root
                end) writable targets.

Definition _local_command_authorization (cmd mode : string) (grants : list LocalPolicy.Grant)
    (policy : LocalPolicy.Policy) (one_shot_write_targets : list string) : LocalCommandAuthorization :=
  let may_write := negb (bool_decide (LocalPolicy.workspace_write policy = "block")) in
  let system_ok := bool_decide (LocalPolicy.disposition_for policy LocalPolicy.SYSTEM_WRITE = "allow") in
  let '(w1, readable) := granted_roots system_ok may_write (if may_write then [WORKSPACE env] else []) grants in
  let w2 := if may_write then one_shot_roots system_ok w1 one_shot_write_targets else w1 in
  mkCommandAuth cmd mode
    (SandboxPolicy.mkDecision mode (bool_decide (mode ∈ UNCONFINED_APPROVAL_MODES)) w2 (fromkeys readable)
       (install_paths env)
       (negb (bool_decide (LocalPolicy.disposition_for policy LocalPolicy.NETWORK = "block"))) may_write)
    (WORKSPACE env).

(** [why] is the wording of the reasons appended to the summary. *)
Definition command_question (i : PermissionIntent) (why : string) : gate_args :=
  mkGateArgs (chat_id rt) "local_exec" (take_str 160 (target i)) can_ask (i_summary i +:+ why)
    ConfirmGate.KIND_LOCAL_CMD.

Definition _authorize_local_command (ask : gate_args → verdict) (why : list string → string)
    (i : PermissionIntent) : result string intent_result :=
  if negb (local_mode env) then Ok (mkResult None [] None)
  else
    let '(mode, grants, policy) := _safe_local_security in
    let eval_grants := grants ++ (if bool_decide (WORKSPACE env = "/workspace") then []
                                  else [LocalPolicy.mkGrant (WORKSPACE env) "readwrite"]) in
    with? ev := LocalPolicy.evaluate_local_command (target i) "/workspace" eval_grants policy "/workspace" in
    let rs := LocalPolicy.reasons ev in
    let allowed := mkResult None rs (Some (_local_command_authorization (target i) mode grants policy
                                             (LocalPolicy.write_paths ev))) in
    match LocalPolicy.verdict ev with
    | LocalPolicy.DENY => Ok (mkResult (Some (BlockedBy "policy")) rs None)
    | LocalPolicy.ALLOW => Ok allowed
    | LocalPolicy.CONFIRM =>
        if _answers_for_user (is_dangerous rs) || _no_ui_pass_through i then Ok allowed
        else match ask (command_question i (why rs)) with
             | Pass => Ok allowed
             | v => Ok (mkResult (Some (FromGate v)) rs None)
             end
    end.

Definition approval_op (i : PermissionIntent) : string := str_or (i_op i) (action_value (i_action i)).

Definition approval_question (i : PermissionIntent) (may_ask : bool) : gate_args :=
  mkGateArgs (chat_id rt) (approval_op i) (target i) (may_ask && has_chat) (i_summary i)
    (str_or (i_kind i) ConfirmGate.KIND_TOOL_PERMISSION).

Definition _authorize_approval (ask : gate_args → verdict) (may_ask : bool) (i : PermissionIntent) : intent_result :=
  if _answers_for_user (bool_decide (approval_op i ∈ DESTRUCTIVE_OPS))
  then mkResult None ["approved_by_preset:" +:+ approval_mode rt] None
  else if negb may_ask && bool_decide (on_no_ui i = FALLBACK_ALLOW)
  then mkResult None ["no_approval_ui_pass_through:" +:+ approval_op i] None
  else match ask (approval_question i may_ask) with
       | Pass => mkResult None [] None
       | v => mkResult (Some (FromGate v)) [] None
       end.

Definition _authorize_intent (ask : gate_args → verdict) (why : list string → string) (i : PermissionIntent)
    : result string intent_result :=
  match i_domain i with
  | DOMAIN_DENY => Ok (mkResult (Some (BlockedBy (i_summary i))) [i_summary i] None)
  | DOMAIN_LOCAL_PATH => _authorize_local_path ask i
  | DOMAIN_LOCAL_COMMAND => _authorize_local_command ask why i
  | DOMAIN_MYSPACE => Ok (_authorize_approval ask (interactive rt) i)
  | DOMAIN_APPROVAL => Ok (_authorize_approval ask (approval_available rt) i)
  | DOMAIN_OTHER _ => Ok (mkResult (Some (BlockedBy "unknown_permission_domain")) ["unknown_permission_domain"] None)
  end.

(** The loop over the intents: the refusal of the first that has a payload, or
    the reasons and the command authorization gathered.  [ask n] answers the
    question of intent [n]. *)
Fixpoint authorize_all (ask : nat → gate_args → verdict) (why : list string → string) (n : nat)
    (rs : list string) (cmd : option LocalCommandAuthorization) (ints : list PermissionIntent)
    : result string (payload * list string + list string * option LocalCommandAuthorization) :=
  match ints with
  | [] => Ok (inr (rs, cmd))
  | i :: ints' =>
      with? r := _authorize_intent (ask n) why i in
      match r_payload r with
      | Some p => Ok (inl (p, r_reasons r))
      | None =>
          authorize_all ask why (S n) (rs ++ r_reasons r)
            (match r_command r with Some c => Some c | None => cmd end) ints'
      end
  end.

Definition authorize (reg : Registry) (ask : nat → gate_args → verdict) (why : list string → string)
    (c : tool_call) : result string outcome :=
  match dget (specs reg) (call_name c) with
  | None => Ok Unregistered
  | Some spec =>
      match resolver spec (call_args c) rt with
      | Err _ => Ok (Refuse (BlockedBy "resolver_failed") [])
      | Ok ints =>
          with? r := authorize_all ask why 0 (if default_allow rt then ["trusted_unattended_run"] else [])
                       None ints in
          match r with
          | inl (p, rs) => Ok (Refuse p rs)
          | inr (rs, cmd) =>
              Ok (Proceed (mkTicket (call_name c) (call_id c) (hash_args (call_args c)) (spec_key spec) ints cmd
                             (fromkeys rs)))
          end
      end
  end.

(** ** The execution boundary *)

(** What the context variable of a task holds: a ticket object and whether its
    lifetime is active. *)
Definition require_local_path_permission (current : option (PermissionTicket * bool)) (path : string)
    (a : access) : bool :=
  if negb (local_mode env) then true
  else match current with
       | Some (t, active) => active && authorizes_path t path a
       | None => false
       end.
End service.

Definition current_local_command_authorization (current : option (PermissionTicket * bool)) (cmd : string)
    : option LocalCommandAuthorization :=
  match current with
  | Some (t, true) =>
      match local_command t with
      | Some auth => if bool_decide (command auth = cmd) then Some auth else None
      | None => None
      end
  | _ => None
  end.

End ToolPermissions.
