(* ===== verification/ToolPermissionsProps.v ===== *)
(** * When an intent is permitted

    The relation [permitted] states, domain by domain, why the service may let an
    intent through; the lemmas tie it to the functions of [ToolPermissions].  The
    system of dispatches binds tickets to tasks the way the middleware does. *)

From S2P Require Import Prelude PyString PyDict ConfirmGate PosixPath WorkspacePaths SandboxPolicy Regex LocalPolicy LocalPolicyThms ToolPermissions.

Import ToolPermissions.
Import ConfirmGate (gate_args, verdict, Pass, Intercept).

Section permitted.
Context `{Digest, HostPaths}.
Variable env : Env.
Variable rt : PermissionRuntime.

Definition gate_mode : string := (_safe_local_security env rt).1.1.
Definition gate_grants : list LocalPolicy.Grant := (_safe_local_security env rt).1.2.
Definition gate_policy : LocalPolicy.Policy := (_safe_local_security env rt).2.

(** The grants a command is judged with: the workspace is one of them. *)
Definition command_grants : list LocalPolicy.Grant :=
  gate_grants ++ (if bool_decide (WORKSPACE env = "/workspace") then []
                  else [LocalPolicy.mkGrant (WORKSPACE env) "readwrite"]).

Definition path_eval (i : PermissionIntent) (a : LocalPolicy.access) : result string LocalPolicy.EvalResult :=
  LocalPolicy.evaluate_local_path (target i) a gate_grants gate_policy (WORKSPACE env).
Definition command_eval (i : PermissionIntent) : result string LocalPolicy.EvalResult :=
  LocalPolicy.evaluate_local_command (target i) "/workspace" command_grants gate_policy "/workspace".

Definition danger_of (ev : LocalPolicy.EvalResult) : bool := is_dangerous (LocalPolicy.reasons ev).

(** Someone answered for intent [i]: the preset, its declaration, or the user. *)
Definition answered (ask : gate_args → verdict) (dangerous pass_through : bool) (q : gate_args) : Prop :=
  _answers_for_user rt dangerous = true ∨ pass_through = true ∨ ask q = Pass.

(** The policy's verdict leaves the decision to an answer, and there is one. *)
Definition verdict_permits (ask : gate_args → verdict) (ev : LocalPolicy.EvalResult)
    (pass_through : bool) (q : gate_args) : Prop :=
  LocalPolicy.verdict ev = LocalPolicy.ALLOW ∨
  LocalPolicy.verdict ev = LocalPolicy.CONFIRM ∧ answered ask (danger_of ev) pass_through q.

Inductive permitted (ask : gate_args → verdict) (why : list string → string) (i : PermissionIntent) : Prop :=
| permitted_remote :
    i_domain i = DOMAIN_LOCAL_PATH ∨ i_domain i = DOMAIN_LOCAL_COMMAND → local_mode env = false →
    permitted ask why i
| permitted_path a ev :
    i_domain i = DOMAIN_LOCAL_PATH → local_mode env = true → i_action i = Act a → path_eval i a = Ok ev →
    verdict_permits ask ev (_no_ui_pass_through rt i) (path_question rt i a) →
    permitted ask why i
| permitted_command ev :
    i_domain i = DOMAIN_LOCAL_COMMAND → local_mode env = true → command_eval i = Ok ev →
    verdict_permits ask ev (_no_ui_pass_through rt i) (command_question rt i (why (LocalPolicy.reasons ev))) →
    permitted ask why i
| permitted_approval may_ask :
    i_domain i = DOMAIN_MYSPACE ∧ may_ask = interactive rt ∨
    i_domain i = DOMAIN_APPROVAL ∧ may_ask = approval_available rt →
    answered ask (bool_decide (approval_op i ∈ DESTRUCTIVE_OPS))
      (negb may_ask && bool_decide (on_no_ui i = FALLBACK_ALLOW)) (approval_question rt i may_ask) →
    permitted ask why i.

(** The policy, or the declaration, refuses intent [i] outright. *)
Definition refused_by_policy (i : PermissionIntent) : Prop :=
  match i_domain i with
  | DOMAIN_DENY | DOMAIN_OTHER _ => True
  | DOMAIN_LOCAL_PATH => local_mode env = true ∧
      ∃ a ev, i_action i = Act a ∧ path_eval i a = Ok ev ∧ LocalPolicy.verdict ev = LocalPolicy.DENY
  | DOMAIN_LOCAL_COMMAND => local_mode env = true ∧
      ∃ ev, command_eval i = Ok ev ∧ LocalPolicy.verdict ev = LocalPolicy.DENY
  | _ => False
  end.

Lemma refused_not_permitted ask why i : refused_by_policy i → ¬ permitted ask why i.
Proof.
  unfold refused_by_policy. intros Hr Hp. destruct Hp as [Hd Hl|a ev Hd Hl Ha He Hv|ev Hd Hl He Hv|m Hd Ha].
  - destruct Hd as [Hd|Hd]; rewrite Hd in Hr; destruct Hr; congruence.
  - rewrite Hd in Hr. destruct Hr as (_ & a' & ev' & Ha' & He' & Hv'). simplify_eq.
    destruct Hv as [?|[? _]]; congruence.
  - rewrite Hd in Hr. destruct Hr as (_ & ev' & He' & Hv'). simplify_eq.
    destruct Hv as [?|[? _]]; congruence.
  - destruct Hd as [[Hd _]|[Hd _]]; by rewrite Hd in Hr.
Qed.

(** The command authorization that goes with a permitted command. *)
Definition authorization_of (i : PermissionIntent) (auth : LocalCommandAuthorization) : Prop :=
  i_domain i = DOMAIN_LOCAL_COMMAND ∧ local_mode env = true ∧
  ∃ ev, command_eval i = Ok ev ∧
    auth = _local_command_authorization env rt (target i) gate_mode gate_grants gate_policy
             (LocalPolicy.write_paths ev).

(** What the result of an intent says. *)
Definition result_spec (ask : gate_args → verdict) (why : list string → string) (i : PermissionIntent)
    (r : intent_result) : Prop :=
  (r_payload r = None ↔ permitted ask why i) ∧
  ∀ auth, r_command r = Some auth → authorization_of i auth.

Lemma safe_security : _safe_local_security env rt = (gate_mode, gate_grants, gate_policy).
Proof. unfold gate_mode, gate_grants, gate_policy. by destruct (_safe_local_security env rt) as [[? ?] ?]. Qed.

Lemma path_result ask why i r :
  i_domain i = DOMAIN_LOCAL_PATH → _authorize_local_path env rt ask i = Ok r → result_spec ask why i r.
Proof.
  intros Hd. unfold _authorize_local_path. destruct (local_mode env) eqn:Hl; cbn.
  2:{ intros [= <-]. split; [|done]. split; [|done]. intros _. apply permitted_remote; auto. }
  destruct (i_action i) as [a| | |] eqn:Ha; try done. rewrite safe_security.
  fold (path_eval i a). destruct (path_eval i a) as [ev|] eqn:He; [|done].
  assert (permitted ask why i ↔ verdict_permits ask ev (_no_ui_pass_through rt i) (path_question rt i a)) as Hp.
  { split; [|by apply permitted_path]. intros [[Hd'|Hd'] Hl'|a' ev' _ _ Ha' He' Hv|? Hd' _ _ _|? [[Hd' _]|[Hd' _]] _];
      congruence. }
  assert (∀ r, r_command r = None → (r_payload r = None ↔ verdict_permits ask ev (_no_ui_pass_through rt i)
    (path_question rt i a)) → result_spec ask why i r) as Hend.
  { intros r' Hc Hr. split; [by rewrite Hr, Hp|]. by rewrite Hc. }
  unfold verdict_permits, answered, danger_of in *. clear Hp.
  destruct (LocalPolicy.verdict ev); cbn zeta.
  - intros [= <-]. apply Hend; naive_solver.
  - destruct (_answers_for_user rt _); [intros [= <-]; apply Hend; naive_solver|].
    destruct (_no_ui_pass_through rt i); [intros [= <-]; apply Hend; naive_solver|].
    destruct (ask _); intros [= <-]; apply Hend; naive_solver.
  - intros [= <-]. apply Hend; naive_solver.
Qed.

Lemma command_result ask why i r :
  i_domain i = DOMAIN_LOCAL_COMMAND → _authorize_local_command env rt ask why i = Ok r → result_spec ask why i r.
Proof.
  intros Hd. unfold _authorize_local_command. destruct (local_mode env) eqn:Hl; cbn.
  2:{ intros [= <-]. split; [|done]. split; [|done]. intros _. apply permitted_remote; auto. }
  rewrite safe_security. fold command_grants. fold (command_eval i).
  destruct (command_eval i) as [ev|] eqn:He; [|done].
  set (q := command_question rt i (why (LocalPolicy.reasons ev))).
  assert (permitted ask why i ↔ verdict_permits ask ev (_no_ui_pass_through rt i) q) as Hp.
  { split; [|by apply permitted_command].
    intros [[Hd'|Hd'] Hl'|a' ev' Hd' _ Ha' He' Hv|ev' Hd' _ He' Hv|? [[Hd' _]|[Hd' _]] _]; try congruence.
    assert (ev' = ev) as -> by congruence. done. }
  assert (∀ r, (∀ auth, r_command r = Some auth → authorization_of i auth) →
    (r_payload r = None ↔ verdict_permits ask ev (_no_ui_pass_through rt i) q) → result_spec ask why i r) as Hend.
  { intros r' Hc Hr. split; [by rewrite Hr, Hp|done]. }
  set (allowed := mkResult None _ (Some _)).
  assert (∀ auth, r_command allowed = Some auth → authorization_of i auth) as Hall.
  { intros auth [= <-]. split_and!; [done|done|]. by exists ev. }
  assert (r_payload allowed = None) as Hnone by done. clearbody allowed.
  unfold verdict_permits, answered, danger_of in *. clear Hp.
  destruct (LocalPolicy.verdict ev); cbn zeta.
  - intros [= <-]. apply Hend; naive_solver.
  - destruct (_answers_for_user rt _); [intros [= <-]; apply Hend; naive_solver|].
    destruct (_no_ui_pass_through rt i); [intros [= <-]; apply Hend; naive_solver|].
    cbn [orb]. destruct (ask q); intros [= <-]; apply Hend; naive_solver.
  - intros [= <-]. apply Hend; naive_solver.
Qed.

Lemma approval_result ask why i may_ask :
  i_domain i = DOMAIN_MYSPACE ∧ may_ask = interactive rt ∨
  i_domain i = DOMAIN_APPROVAL ∧ may_ask = approval_available rt →
  result_spec ask why i (_authorize_approval rt ask may_ask i).
Proof.
  intros Hd. assert (permitted ask why i ↔ answered ask (bool_decide (approval_op i ∈ DESTRUCTIVE_OPS))
      (negb may_ask && bool_decide (on_no_ui i = FALLBACK_ALLOW)) (approval_question rt i may_ask)) as Hp.
  { split; [|by apply permitted_approval].
    intros [[Hd'|Hd'] Hl'|a' ev' Hd' _ Ha' He' Hv|? Hd' _ He' Hv|m Hd' Hv];
      [destruct Hd as [[? _]|[? _]]; congruence..|].
    destruct Hd as [[? ->]|[? ->]], Hd' as [[? ->]|[? ->]]; congruence. }
  unfold result_spec. rewrite Hp. unfold _authorize_approval, answered.
  destruct (_answers_for_user rt _); [naive_solver|].
  destruct (negb may_ask && _); [naive_solver|]. destruct (ask _); naive_solver.
Qed.

Lemma intent_result_spec ask why i r : _authorize_intent env rt ask why i = Ok r → result_spec ask why i r.
Proof.
  unfold _authorize_intent. destruct (i_domain i) eqn:Hd.
  - by apply path_result.
  - by apply command_result.
  - intros [= <-]. apply approval_result. auto.
  - intros [= <-]. apply approval_result. auto.
  - intros [= <-]. split; [|done]. split; [done|]. intros Hp. exfalso. revert Hp.
    apply refused_not_permitted. unfold refused_by_policy. by rewrite Hd.
  - intros [= <-]. split; [|done]. split; [done|]. intros Hp. exfalso. revert Hp.
    apply refused_not_permitted. unfold refused_by_policy. by rewrite Hd.
Qed.

(** ** The loop over the intents *)

Lemma authorize_all_spec ask why ints n rs cmd res :
  authorize_all env rt ask why n rs cmd ints = Ok res →
  match res with
  | inr (_, cmd') => (∀ k i, ints !! k = Some i → permitted (ask (n + k)%nat) why i) ∧
      (cmd' = cmd ∨ ∃ auth i, cmd' = Some auth ∧ i ∈ ints ∧ authorization_of i auth)
  | inl _ => ∃ k i, ints !! k = Some i ∧ ¬ permitted (ask (n + k)%nat) why i
  end.
Proof.
  revert n rs cmd res. induction ints as [|i ints IH]; intros n rs cmd res.
  { intros [= <-]. split; [done|by left]. }
  cbn [authorize_all]. destruct (_authorize_intent _ _ _ _ _) as [r|] eqn:Er; [|done].
  destruct (intent_result_spec _ _ _ _ Er) as [Hp Hc]. destruct (r_payload r) eqn:Epay.
  { intros [= <-]. exists 0%nat, i. rewrite Nat.add_0_r. split; [done|]. rewrite <- Hp. done. }
  intros Hall%IH. destruct res as [[p rs']|[rs' cmd']].
  - destruct Hall as (k & j & Hk & Hn). exists (S k), j. by rewrite Nat.add_succ_r.
  - destruct Hall as [Hall Hcmd]. split.
    + intros [|k] j Hj; cbn in Hj; [simplify_eq; rewrite Nat.add_0_r; by apply Hp|].
      rewrite Nat.add_succ_r. by apply Hall.
    + destruct Hcmd as [->|(auth & j & -> & Hj & Ha)]; [|right; exists auth, j; set_solver].
      destruct (r_command r) as [auth|] eqn:Eau; [|by left]. right. exists auth, i. set_solver.
Qed.

(** A ticket says that every intent of the call was permitted. *)
Definition issued (reg : Registry) (ask : nat → gate_args → verdict) (why : list string → string)
    (c : tool_call) (t : PermissionTicket) : Prop :=
  ∃ spec, dget (specs reg) (call_name c) = Some spec ∧ resolver spec (call_args c) rt = Ok (intents t) ∧
    (∀ n i, intents t !! n = Some i → permitted (ask n) why i) ∧
    (∀ auth, local_command t = Some auth → ∃ i, i ∈ intents t ∧ authorization_of i auth) ∧
    matches t c = true ∧ t_spec_key t = spec_key spec.

Lemma authorize_issued reg ask why c t :
  authorize env rt reg ask why c = Ok (Proceed t) → issued reg ask why c t.
Proof.
  unfold authorize. destruct (dget _ _) as [spec|] eqn:Es; [|done].
  destruct (resolver spec _ rt) as [ints|] eqn:Ei; [|done].
  destruct (authorize_all _ _ _ _ _ _ _ _) as [res|] eqn:Ea; [|done].
  apply authorize_all_spec in Ea. destruct res as [[? ?]|[rs' cmd']]; [done|]. intros [= <-].
  destruct Ea as [Hall Hcmd]. exists spec. split_and!; [done..| | |done].
  - intros auth E. destruct Hcmd as [->|(auth' & j & -> & Hj & Ha)]; [done|]. exists j. cbn in E.
    by simplify_eq.
  - unfold matches. cbn. by rewrite !bool_decide_true.
Qed.
End permitted.

(** ** Dispatches, tasks and tickets *)

Lemma filter_map_NoDup {A B} (g : A → B) (f : A → bool) l : NoDup (map g l) → NoDup (map g (List.filter f l)).
Proof.
  induction l as [|x l IH]; cbn; [done|]. intros [Hx Hl]%NoDup_cons.
  destruct (f x); [|by apply IH]. cbn. apply NoDup_cons. split; [|by apply IH].
  rewrite list_elem_of_In, in_map_iff in *. intros (y & E & Hy%filter_In). apply Hx. exists y. tauto.
Qed.

Abbreviation loc := nat.
Abbreviation task := nat.

(** An open dispatch: the task that runs it, its ticket, the token of the context
    variable (its previous value), the call. *)
Record dispatch := mkDispatch { d_task : task; d_ticket : loc; d_token : option loc; d_call : tool_call }.

(** Tickets are objects with their lifetime; each task has its own copy of the
    context variable. *)
Record Sys := mkSys {
  tickets : list (PermissionTicket * bool);
  context : gmap task loc;
  tasks : nat;
  opened : list dispatch
}.
Definition initial_sys : Sys := mkSys [] ∅ 1 [].

Definition current (s : Sys) (k : task) : option (PermissionTicket * bool) :=
  match context s !! k with Some l => tickets s !! l | None => None end.

(** [CURRENT_PERMISSION_TICKET.set(ticket)] *)
Definition begin_dispatch (k : task) (c : tool_call) (t : PermissionTicket) (s : Sys) : Sys :=
  let l := List.length (tickets s) in
  mkSys (tickets s ++ [(t, true)]) (<[k := l]> (context s)) (tasks s)
    (opened s ++ [mkDispatch k l (context s !! k) c]).

(** The [finally] block: the ticket expires, then the variable is reset, which
    raises in a context that is not the one of the token. *)
Definition end_dispatch (k : task) (d : dispatch) (s : Sys) : Sys :=
  mkSys (alter (λ ta, (ta.1, false)) (d_ticket d) (tickets s))
    (if bool_decide (k = d_task d)
     then match d_token d with Some l => <[k := l]> (context s) | None => delete k (context s) end
     else context s)
    (tasks s) (List.filter (λ d', negb (bool_decide (d_ticket d' = d_ticket d))) (opened s)).

(** [asyncio.create_task]: a new task with a copy of the context. *)
Definition spawn (k : task) (s : Sys) : Sys :=
  mkSys (tickets s) (match context s !! k with Some l => <[tasks s := l]> (context s) | None => context s end)
    (S (tasks s)) (opened s).

Section system.
Context `{Digest, HostPaths}.

Inductive sys_step (s : Sys) : Sys → Prop :=
| step_begin env rt reg ask why k c t :
    authorize env rt reg ask why c = Ok (Proceed t) → sys_step s (begin_dispatch k c t s)
| step_end k d : d ∈ opened s → sys_step s (end_dispatch k d s)
| step_spawn k : sys_step s (spawn k s).

Inductive sys_steps (s : Sys) : Sys → Prop :=
| sys_refl : sys_steps s s
| sys_next s1 s2 : sys_steps s s1 → sys_step s1 s2 → sys_steps s s2.

(** The ticket at [l] is live exactly while a dispatch that holds it is open. *)
Record wf_sys (s : Sys) : Prop := {
  ws_live : ∀ l t, tickets s !! l = Some (t, true) → ∃ d, d ∈ opened s ∧ d_ticket d = l;
  ws_open : ∀ d, d ∈ opened s → ∃ t, tickets s !! d_ticket d = Some (t, true) ∧
    ∃ env rt reg ask why, authorize env rt reg ask why (d_call d) = Ok (Proceed t);
  ws_unique : NoDup (map d_ticket (opened s))
}.

Lemma ticket_bound s d : wf_sys s → d ∈ opened s → (d_ticket d < List.length (tickets s))%nat.
Proof. intros Hw Hd. destruct (ws_open s Hw d Hd) as (t & Ht & _). by eapply lookup_lt_Some. Qed.

Lemma elem_of_remaining d d' (ds : list dispatch) :
  d' ∈ List.filter (λ x, negb (bool_decide (d_ticket x = d_ticket d))) ds ↔ d' ∈ ds ∧ d_ticket d' ≠ d_ticket d.
Proof. by rewrite list_elem_of_In, filter_In, <- list_elem_of_In, negb_true_iff, bool_decide_eq_false. Qed.

Lemma wf_begin env rt reg ask why k c t s :
  authorize env rt reg ask why c = Ok (Proceed t) → wf_sys s → wf_sys (begin_dispatch k c t s).
Proof.
  intros Ha Hw. set (l := List.length (tickets s)).
  assert (∀ d, d ∈ opened s → d_ticket d ≠ l) as Hne by (intros d Hd; pose proof (ticket_bound s d Hw Hd); unfold l; lia).
  split; cbn -[l].
  - intros l' t' [Hl|(Hge & Hl)]%lookup_app_Some.
    + destruct (ws_live s Hw l' t' Hl) as (d & Hd & E). exists d. set_solver.
    + apply list_lookup_singleton_Some in Hl as [Hz _]. eexists. rewrite elem_of_app, list_elem_of_singleton.
      split; [right; reflexivity|]. cbn. fold l in Hz, Hge. lia.
  - intros d [Hd|Hd%list_elem_of_singleton]%elem_of_app.
    + destruct (ws_open s Hw d Hd) as (t' & Ht' & Hi). exists t'. split; [by apply lookup_app_l_Some|done].
    + subst. cbn. exists t. rewrite lookup_app_r by done. rewrite Nat.sub_diag. split; [done|]. by eexists _, _, _, _, _.
  - rewrite map_app. apply NoDup_app. split_and!; [apply Hw| |apply NoDup_singleton].
    intros x (d & -> & Hd)%list_elem_of_fmap E%list_elem_of_singleton. cbn in E. by destruct (Hne d Hd).
Qed.

Lemma wf_end k d s : wf_sys s → wf_sys (end_dispatch k d s).
Proof.
  intros Hw. split; cbn.
  - intros l t Hl. destruct (decide (d_ticket d = l)) as [<-|Hne].
    { rewrite list_lookup_alter_eq in Hl. by destruct (tickets s !! d_ticket d) as [[? ?]|]; cbn in Hl. }
    rewrite list_lookup_alter_ne in Hl by done. destruct (ws_live s Hw l t Hl) as (d' & Hd' & <-).
    exists d'. by rewrite elem_of_remaining.
  - intros d' [Hd' Hne]%elem_of_remaining. rewrite list_lookup_alter_ne by done. by apply Hw.
  - apply (filter_map_NoDup d_ticket), Hw.
Qed.

Lemma wf_sys_step s s' : sys_step s s' → wf_sys s → wf_sys s'.
Proof.
  intros [env rt reg ask why k c t Ha|k d Hd|k] Hw; [by eapply wf_begin|by apply wf_end|].
  destruct Hw as [? ? ?]. by split.
Qed.

Lemma wf_steps s s' : sys_steps s s' → wf_sys s → wf_sys s'.
Proof. induction 1; [done|]. intros Hw. eapply wf_sys_step; [done|auto]. Qed.

Lemma wf_initial : wf_sys initial_sys.
Proof. split; cbn; [done|by intros d ?%not_elem_of_nil|constructor]. Qed.

(** An expired ticket stays expired. *)
Lemma expired_stays s s' l t : sys_steps s s' → tickets s !! l = Some (t, false) → tickets s' !! l = Some (t, false).
Proof.
  induction 1 as [|s1 s2 Hs IH Hst]; [done|]. intros Hl. specialize (IH Hl).
  destruct Hst as [env rt reg ask why k c t' Ha|k d Hd|k]; cbn; [by apply lookup_app_l_Some| |done].
  destruct (decide (d_ticket d = l)) as [->|Hne]; [by rewrite list_lookup_alter_eq, IH|by rewrite list_lookup_alter_ne].
Qed.
End system.
