(* ===== verification/ToolPermissionsThms.v ===== *)
(** * What the permission gateway promises

    A ticket means that every intent of the call was permitted; an outright
    refusal stands whatever anyone answers; settings whose lookup raises grant
    nothing; a confined command leaves system areas alone; host access needs an open
    dispatch; no call makes the service raise. *)

From S2P Require Import Prelude PyString PyDict ConfirmGate PosixPath WorkspacePaths SandboxPolicy SandboxPolicyThms Regex LocalPolicy LocalPolicyThms ToolPermissions ToolPermissionsProps.

Import ToolPermissions.
Import ConfirmGate (gate_args, verdict, Pass, Intercept).

Section authorization.
Context `{Digest, HostPaths}.

(** ** Tickets and refusals *)

(** C4: A ticket means that every intent its tool declared for these arguments
    was permitted.  In local mode the policy allowed it, or left it open and the
    preset, the trusted run, the intent's declaration or the user's own answer to
    the question about exactly this intent said yes.  Outside local mode the
    intents on host paths and commands, which a remote sandbox carries out, pass
    without a policy and without a question ([permitted_remote]); those that need
    an approval are answered as before.  The ticket names the call, its arguments
    and the declaration, and carries at most the command scope computed for one of
    these intents. *)
Theorem ticket_means_every_intent_permitted env rt reg ask why c t :
  authorize env rt reg ask why c = Ok (Proceed t) →
  issued env rt reg ask why c t ∧ ∀ i, i ∈ intents t → ¬ refused_by_policy env rt i.
Proof.
  intros Ha%authorize_issued. split; [done|]. destruct Ha as (_ & _ & _ & Hp & _).
  intros i (n & Hn)%list_elem_of_lookup Hr. by destruct (refused_not_permitted env rt _ _ _ Hr (Hp n i Hn)).
Qed.

(** An outright refusal stands.  If one intent of a governed call is refused
    by the policy or by its declaration, the call is refused, whatever the user
    answers to the questions of the other intents, whatever the preset, and even
    in a trusted unattended run. *)
Theorem policy_denial_stands env rt reg spec ints i ask why c r :
  dget (specs reg) (call_name c) = Some spec → resolver spec (call_args c) rt = Ok ints →
  i ∈ ints → refused_by_policy env rt i →
  authorize env rt reg ask why c = Ok r → ∃ p rs, r = Refuse p rs.
Proof.
  intros Hs Hr Hi Href. unfold authorize. rewrite Hs, Hr.
  destruct (authorize_all _ _ _ _ _ _ _ _) as [res|] eqn:Ea; [|done].
  apply authorize_all_spec in Ea. destruct res as [[p rs]|[rs cmd]]; [intros [= <-]; eauto|].
  destruct Ea as [Hall _]. apply list_elem_of_lookup in Hi as [n Hn].
  by destruct (refused_not_permitted env rt _ _ _ Href (Hall n i Hn)).
Qed.

(** ** Who is asked *)








(** ** The service never raises *)





End authorization.

Section specs.
Context `{PermissionText, Digest, HostPaths, ConfirmGate.GateHost}.





End specs.

Section claims.
Context `{PermissionText, Digest, HostPaths, ConfirmGate.GateHost}.





(** ** Settings whose lookup raises *)

Lemma severe_deny S d : most_severe S d → S LocalPolicy.DENY → d = LocalPolicy.DENY.
Proof. intros [_ M] Hd. specialize (M _ Hd). destruct d; unfold at_most in M; cbn in M; (done || lia). Qed.

Lemma permits_not_denied rt ask ev pass q : verdict_permits rt ask ev pass q → LocalPolicy.verdict ev ≠ LocalPolicy.DENY.
Proof. intros [E|[E _]]; by rewrite E. Qed.

Lemma gate_unreadable env rt :
  store env = Err () → gate_mode env rt = FAIL_CLOSED_MODE ∧ gate_grants env rt = [] ∧ gate_policy env rt = closed_policy.
Proof. intros Hs. unfold gate_mode, gate_grants, gate_policy, _safe_local_security. by rewrite Hs. Qed.

Lemma closed_says category : category ∈ LocalPolicy.DANGER_CATEGORIES →
  says (LocalPolicy.disposition_for closed_policy category) LocalPolicy.DENY.
Proof.
  intros Hc. assert (Forall (λ c, says (LocalPolicy.disposition_for closed_policy c) LocalPolicy.DENY)
    LocalPolicy.DANGER_CATEGORIES) as Hall by (repeat constructor).
  rewrite Forall_forall in Hall. by apply Hall.
Qed.

Lemma table_categories category pattern :
  (category, pattern) ∈ LocalPolicy._POSIX_DANGER → category ∈ LocalPolicy.DANGER_CATEGORIES.
Proof.
  assert (Forall (λ cp, cp.1 ∈ LocalPolicy.DANGER_CATEGORIES) LocalPolicy._POSIX_DANGER) as Hall.
  { apply (bool_decide_unpack _). vm_compute. exact I. }
  rewrite Forall_forall in Hall. apply Hall.
Qed.

(** C36: In local mode, settings whose lookup raises grant nothing, whatever the
    preset, even [full], and even in a trusted run.  (A file that is missing,
    unreadable or no JSON object does not make the lookup raise, it counts as the
    default settings: see [corrupt_settings_open].)  With a ticket in hand, every host path is
    a read inside the workspace; the command has no write-like shape and triggers
    no row of the danger table, and it runs confined, without network, without
    scratch space and without a writable or readable root. *)
Theorem failed_lookup_fails_closed env rt reg ask why c t :
  store env = Err () → local_mode env = true → authorize env rt reg ask why c = Ok (Proceed t) →
  (∀ i a, i ∈ intents t → i_domain i = DOMAIN_LOCAL_PATH → i_action i = Act a →
     a = LocalPolicy.READ ∧ in_scope (target i) LocalPolicy.READ [] (WORKSPACE env)) ∧
  (∀ i, i ∈ intents t → i_domain i = DOMAIN_LOCAL_COMMAND →
     LocalPolicy._has_write_intent (target i) = false ∧
     ∀ category pattern, (category, pattern) ∈ LocalPolicy._POSIX_DANGER →
       re_search (compiled true pattern) (target i) = false) ∧
  (∀ auth, local_command t = Some auth →
     ca_access auth = SandboxPolicy.mkDecision FAIL_CLOSED_MODE false [] [] (install_paths env) false false).
Proof.
  intros Hs Hl (spec & _ & _ & Hp & Hc & _)%authorize_issued.
  destruct (gate_unreadable env rt Hs) as (Em & Eg & Ep). split_and!.
  - intros i a (n & Hn)%list_elem_of_lookup Hd Ha.
    destruct (Hp n i Hn) as [_ Hl'|a' ev _ _ Ha' He Hv|? Hd' _ _ _|? [[Hd' _]|[Hd' _]] _]; try congruence.
    assert (a' = a) as -> by congruence. clear Ha'. apply permits_not_denied in Hv.
    unfold path_eval in He. rewrite Eg, Ep in He. apply path_verdict in He.
    assert (a = LocalPolicy.READ) as ->.
    { destruct a; [done|]. exfalso. apply Hv. eapply severe_deny; [exact He|]. by apply rule_write. }
    split; [done|]. apply dec_stable. intros Hno. apply Hv. eapply severe_deny; [exact He|]. by apply rule_scope.
  - intros i (n & Hn)%list_elem_of_lookup Hd.
    destruct (Hp n i Hn) as [_ Hl'|a' ev Hd' _ _ _ _|ev _ _ He Hv|? [[Hd' _]|[Hd' _]] _]; try congruence.
    apply permits_not_denied in Hv. unfold command_eval in He. rewrite Ep in He. apply command_stands in He.
    split; [|intros category pattern Hm]; apply not_true_iff_false; intros E; apply Hv; (eapply severe_deny; [exact He|]).
    + by apply rule_shape; [apply occurs_iff|].
    + apply rule_danger with category pattern; [done|by apply occurs_iff|]. apply closed_says.
      exact (table_categories _ _ Hm).
  - intros auth Hau. destruct (Hc auth Hau) as (i & _ & _ & _ & ev & _ & ->).
    unfold _local_command_authorization. rewrite Em, Eg, Ep. done.
Qed.

(** ** The scope of a command *)

Definition spares (env : Env) (w : string) : Prop :=
  w = WORKSPACE env ∨ LocalPolicy.intersects_system_write_area w = false.

Lemma admit_spares env ws w :
  Forall (spares env) ws → Forall (spares env) (_admit false ws w).
Proof.
  intros Hw. unfold _admit. destruct (_ || _); [done|]. cbn [negb andb].
  destruct (LocalPolicy.intersects_system_write_area w) eqn:E; [done|].
  apply Forall_app. split; [done|]. constructor; [by right|constructor].
Qed.

Lemma granted_spares env may ws rs grants :
  Forall (spares env) ws →
  Forall (spares env) (foldl (λ wr g, if bool_decide (LocalPolicy.grant_mode g = "readwrite") && may
       then (_admit false wr.1 (LocalPolicy.grant_path g), wr.2)
       else (wr.1, wr.2 ++ [LocalPolicy.grant_path g])) (ws, rs) grants).1.
Proof.
  revert ws rs. induction grants as [|g grants IH]; intros ws rs Hw; [done|]. cbn [foldl].
  destruct (_ && may); apply IH; [by apply admit_spares|done].
Qed.

Lemma one_shot_spares env rt ws targets :
  Forall (spares env) ws → Forall (spares env) (one_shot_roots env rt false ws targets).
Proof.
  unfold one_shot_roots. revert ws. induction targets as [|t targets IH]; intros ws Hw; [done|]. cbn [foldl].
  apply IH. destruct (_one_shot_write_root _) as [[|c r]|]; [done|by apply admit_spares|done].
Qed.

Lemma authorization_spares env rt cmd mode grants policy targets :
  LocalPolicy.disposition_for policy LocalPolicy.SYSTEM_WRITE ≠ "allow" →
  Forall (spares env) (SandboxPolicy.writable_roots
    (ca_access (_local_command_authorization env rt cmd mode grants policy targets))).
Proof.
  intros Hs. unfold _local_command_authorization. rewrite bool_decide_false by done.
  set (may := negb _). unfold granted_roots.
  assert (Forall (spares env) (if may then [WORKSPACE env] else [])) as Hinit.
  { destruct may; constructor; [by left|constructor]. }
  pose proof (granted_spares env may _ [] grants Hinit) as Hg.
  destruct (foldl _ _ grants) as [w1 readable]. cbn [fst] in Hg. cbn.
  destruct may; [by apply one_shot_spares|done].
Qed.

Lemma system_root_normal r : r ∈ LocalPolicy._system_write_roots → ∃ c, r = abs_of [c] ∧ valid_comp c.
Proof.
  intros Hr. assert (Forall (λ r, ∃ c, r = abs_of [c] ∧ valid_comp c) LocalPolicy._system_write_roots) as Hall.
  { repeat (constructor; [eexists; split; [reflexivity|by vm_compute]|]). constructor. }
  rewrite Forall_forall in Hall. by apply Hall.
Qed.

(** A normal path inside a canonical root and inside a system area makes the root
    intersect system areas. *)
Lemma system_path_intersects w p :
  normal (LocalPolicy._canonical w) → normal p → is_within p (LocalPolicy._canonical w) = true →
  LocalPolicy._is_system_write_path p = true → LocalPolicy.intersects_system_write_area w = true.
Proof.
  intros (cw & Ew & Vw) (cp & -> & Vp) Hin Hsys. rewrite Ew in Hin. apply is_within_iff in Hin; [|done..].
  unfold LocalPolicy._is_system_write_path in Hsys. apply existsb_exists in Hsys as (r & Hr & Hu).
  apply list_elem_of_In in Hr. destruct (system_root_normal r Hr) as (c & -> & Vc).
  assert (Forall valid_comp [c]) as Vr by (by constructor).
  apply is_under_iff in Hu; [|done..].
  unfold LocalPolicy.intersects_system_write_area. apply existsb_exists. exists (abs_of [c]).
  split; [by apply list_elem_of_In|]. rewrite Ew. apply orb_true_iff. rewrite !is_under_iff by done.
  destruct (decide (List.length cw ≤ 1)%nat) as [Hle|Hgt].
  - right. by eapply prefixes_comparable.
  - left. eapply prefixes_comparable; [done..|cbn; lia].
Qed.

(** C25: No confined command can write into a system area through its grants or
    its approved one-shot targets.  Unless the user's settings allow system writes,
    a path of a system area that the resolved sandbox of an authorized command can
    write lies under the workspace or under a temporary directory - provided that
    each writable root normalizes to its canonical path, that is, no symbolic link
    is on the way, and that this path is normal: the admitted roots are compared
    with the system areas by their canonical path, the sandbox resolves them
    without following links. *)
Theorem sandbox_spares_system_areas env rt reg ask why c t auth ctx fs p :
  authorize env rt reg ask why c = Ok (Proceed t) → local_command t = Some auth → confined auth = true →
  LocalPolicy.disposition_for (gate_policy env rt) LocalPolicy.SYSTEM_WRITE ≠ "allow" →
  SandboxPolicy.resolve (SandboxPolicy.filesystem (SandboxPolicy.build_policy (ca_access auth))) ctx = Ok fs →
  (∀ w, w ∈ SandboxPolicy.writable_roots (ca_access auth) →
     SandboxPolicy.normalize_logical w = Ok (LocalPolicy._canonical w) ∧ normal (LocalPolicy._canonical w)) →
  normal p → SandboxPolicy.can_write (SandboxPolicy.effective_access fs p) = true →
  LocalPolicy._is_system_write_path p = true →
  ∃ w n, (w = WORKSPACE env ∨ w ∈ SandboxPolicy.temp_dirs ctx ∨ w = "/tmp") ∧
    SandboxPolicy.normalize_logical w = Ok n ∧ is_within p n = true.
Proof.
  intros (spec & _ & _ & _ & Hc & _)%authorize_issued Hau Hconf Hsys Hres Hcan Hp Hw Hpath.
  destruct (Hc auth Hau) as (i & _ & _ & _ & ev & _ & Eauth).
  assert (SandboxPolicy.unconfined (ca_access auth) = false) as Hu by by apply negb_true_iff.
  destruct (writable_origin _ _ _ p Hu Hres Hw) as (w & n & Hfrom & Hn & Hin). exists w, n. split_and!; [|done..].
  destruct Hfrom as [Hroot|[_ Ht]]; [|tauto]. left.
  pose proof (authorization_spares env rt (target i) (gate_mode env rt) (gate_grants env rt) _
    (LocalPolicy.write_paths ev) Hsys) as Hall. rewrite <- Eauth, Forall_forall in Hall.
  destruct (Hall w Hroot) as [->|Hno]; [done|]. destruct (Hcan w Hroot) as [Hn' Hnorm].
  rewrite Hn' in Hn. injection Hn as <-. by rewrite (system_path_intersects w p) in Hno.
Qed.

(** ** The execution boundary *)

Lemma current_lookup s k t b : current s k = Some (t, b) → ∃ l, context s !! k = Some l ∧ tickets s !! l = Some (t, b).
Proof. unfold current. destruct (context s !! k) as [l|]; [|done]. intros Hl. by exists l. Qed.

(** C6: Direct host access needs an open dispatch that was authorized for it.  In
    every execution of dispatches that begin, end in any order and in any task, and
    spawn tasks that inherit the ticket, a guarded file access passes only while a
    dispatch whose call was authorized is open and an intent of its ticket covers
    the path and the access, and a command finds an authorization only from such a
    dispatch.  Once a dispatch has ended no task, not even one it spawned, can use
    its ticket again. *)
Theorem host_access_needs_open_dispatch s :
  sys_steps initial_sys s →
  (∀ env k path a, local_mode env = true →
     require_local_path_permission env (current s k) path a = true →
     ∃ d t, d ∈ opened s ∧ context s !! k = Some (d_ticket d) ∧ tickets s !! d_ticket d = Some (t, true) ∧
       authorizes_path t path a = true ∧
       ∃ env rt reg ask why, authorize env rt reg ask why (d_call d) = Ok (Proceed t)) ∧
  (∀ k cmd auth, current_local_command_authorization (current s k) cmd = Some auth →
     ∃ d t, d ∈ opened s ∧ context s !! k = Some (d_ticket d) ∧ local_command t = Some auth ∧
       ∃ env rt reg ask why, authorize env rt reg ask why (d_call d) = Ok (Proceed t)) ∧
  (∀ d k s', d ∈ opened s → sys_steps (end_dispatch k d s) s' →
     ∀ env k' path a, context s' !! k' = Some (d_ticket d) → local_mode env = true →
       require_local_path_permission env (current s' k') path a = false ∧
       ∀ cmd, current_local_command_authorization (current s' k') cmd = None).
Proof.
  intros Hs. pose proof (wf_steps _ _ Hs wf_initial) as Hw.
  assert (∀ k t, current s k = Some (t, true) → ∃ d, d ∈ opened s ∧ context s !! k = Some (d_ticket d) ∧
    tickets s !! d_ticket d = Some (t, true) ∧
    ∃ env rt reg ask why, authorize env rt reg ask why (d_call d) = Ok (Proceed t)) as Hlive.
  { intros k t (l & Hk & Ht)%current_lookup. destruct (ws_live s Hw l t Ht) as (d & Hd & <-). exists d.
    split_and!; [done..|]. destruct (ws_open s Hw d Hd) as (t' & Ht' & Hi). by simplify_eq. }
  split_and!.
  - intros env k path a Hl. unfold require_local_path_permission. rewrite Hl. cbn [negb].
    destruct (current s k) as [[t []]|] eqn:Ec; [|done..]. cbn [andb]. intros Hp.
    destruct (Hlive k t Ec) as (d & ? & ? & ? & ?). by exists d, t.
  - intros k cmd auth. unfold current_local_command_authorization.
    destruct (current s k) as [[t []]|] eqn:Ec; [|done..]. destruct (local_command t) as [auth'|] eqn:El; [|done].
    case_bool_decide; [|done]. intros [= ->]. destruct (Hlive k t Ec) as (d & ? & ? & ? & ?). by exists d, t.
  - intros d k s' Hd Hs' env k' path a Hk Hl. destruct (ws_open s Hw d Hd) as (t & Ht & _).
    assert (tickets s' !! d_ticket d = Some (t, false)) as Hexp.
    { eapply expired_stays; [exact Hs'|]. cbn. by rewrite list_lookup_alter_eq, Ht. }
    unfold current. rewrite Hk, Hexp. split; [|done]. unfold require_local_path_permission. by rewrite Hl.
Qed.
End claims.

(** ** A desktop run *)

Definition demo_text : PermissionText := {|
  path_summary := λ tool _ logical _, tool +:+ " " +:+ logical;
  command_summary := λ cmd, cmd |}.
Definition demo_digest : Digest := {| sha256 := λ s, s |}.
Definition demo_gate_host : ConfirmGate.GateHost :=
  {| ConfirmGate.real_user_path := λ p, p; ConfirmGate.repr_nested := λ _, "" |}.

Definition demo_store : option LocalPolicy.Store :=
  Some (LocalPolicy.mkStore [entry_of ("/home/me/p", "readwrite")] []).
Definition demo_env (st : result unit (option LocalPolicy.Store)) (ws : string) : Env :=
  mkEnv true ws st ["/opt/app"].
Definition demo_rt (mode : string) (trusted : bool) : PermissionRuntime :=
  mkRuntime (Some "c1") (Some "u1") true true trusted mode None.
Definition demo_registry (env : Env) : Registry :=
  let governed := @governed demo_text demo_digest plain_host demo_gate_host env in
  mkRegistry governed (map (λ ns, (ns.1, "builtin")) governed).
Definition read_call (path : string) : tool_call := mkCall "Read" "t1" [("file_path", JStr path)].
Definition bash_call (cmd : string) : tool_call := mkCall "bash" "t2" [("command", JStr cmd)].
Definition yes : nat → gate_args → verdict := λ _ _, Pass.

Definition demo_authorize (env : Env) (rt : PermissionRuntime) (c : tool_call) : result string outcome :=
  @authorize demo_digest plain_host env rt (demo_registry env) yes (join ",") c.
Definition ticket_of (r : result string outcome) : PermissionTicket :=
  match r with Ok (Proceed t) => t | _ => mkTicket "" "" "" "" [] None [] end.

Definition ok_env : Env := demo_env (Ok demo_store) "/data/ws".
Definition read_ticket : PermissionTicket := ticket_of (demo_authorize ok_env (demo_rt "ask" false) (read_call "/home/me/p/a")).
Lemma read_authorized :
  demo_authorize ok_env (demo_rt "ask" false) (read_call "/home/me/p/a") = Ok (Proceed read_ticket).
Proof. vm_compute. reflexivity. Qed.

Lemma ticket_means_every_intent_permitted_witness :
  @issued demo_digest plain_host ok_env (demo_rt "ask" false) (demo_registry ok_env) yes (join ",")
    (read_call "/home/me/p/a") read_ticket.
Proof.
  exact (proj1 (@ticket_means_every_intent_permitted demo_digest plain_host ok_env
    (demo_rt "ask" false) (demo_registry ok_env) yes (join ",") (read_call "/home/me/p/a") read_ticket read_authorized)).
Defined.

(** Deleting in a system area: refused in a trusted run where everyone says yes. *)
Definition rm_intent : PermissionIntent :=
  mkIntent DOMAIN_LOCAL_COMMAND EXECUTE "rm /etc/x" "rm /etc/x" "local_exec" "local_cmd" FALLBACK_DENY.
Definition rm_eval : LocalPolicy.EvalResult :=
  match @command_eval plain_host ok_env (demo_rt "auto" true) rm_intent with
  | Ok ev => ev
  | Err _ => LocalPolicy.mkEval LocalPolicy.ALLOW [] []
  end.
Definition rm_outcome : result string outcome :=
  demo_authorize ok_env (demo_rt "auto" true) (bash_call "rm /etc/x").
Definition rm_refusal : outcome := match rm_outcome with Ok r => r | Err _ => Unregistered end.

Lemma rm_refused_by_policy : @refused_by_policy plain_host ok_env (demo_rt "auto" true) rm_intent.
Proof.
  split; [reflexivity|]. exists rm_eval. split; vm_compute; reflexivity.
Qed.

Lemma policy_denial_stands_witness : ∃ p rs, rm_refusal = Refuse p rs.
Proof.
  apply (@policy_denial_stands demo_digest plain_host ok_env (demo_rt "auto" true)
    (demo_registry ok_env) (@local_command_tool demo_text demo_gate_host) [rm_intent] rm_intent yes (join ",")
    (bash_call "rm /etc/x") rm_refusal).
  - reflexivity.
  - vm_compute. reflexivity.
  - left.
  - exact rm_refused_by_policy.
  - vm_compute. reflexivity.
Defined.




Definition blind_env : Env := demo_env (Err ()) "/data/ws".
Definition blind_ticket : PermissionTicket :=
  ticket_of (demo_authorize blind_env (demo_rt "full" true) (bash_call "ls /workspace/a")).
Lemma blind_authorized :
  demo_authorize blind_env (demo_rt "full" true) (bash_call "ls /workspace/a") = Ok (Proceed blind_ticket).
Proof. vm_compute. reflexivity. Qed.

Definition blind_auth : LocalCommandAuthorization :=
  default (mkCommandAuth "" "" (SandboxPolicy.mkDecision "" true [] [] [] false false) "") (local_command blind_ticket).
Lemma blind_command : local_command blind_ticket = Some blind_auth.
Proof. vm_compute. reflexivity. Qed.

Lemma failed_lookup_fails_closed_witness :
  ca_access blind_auth = SandboxPolicy.mkDecision FAIL_CLOSED_MODE false [] [] ["/opt/app"] false false.
Proof.
  exact (proj2 (proj2 (@failed_lookup_fails_closed demo_digest plain_host
    blind_env (demo_rt "full" true) (demo_registry blind_env) yes (join ",") (bash_call "ls /workspace/a")
    blind_ticket eq_refl eq_refl blind_authorized)) blind_auth blind_command).
Defined.

(** A workspace that itself lies in a system area. *)
Definition usr_env : Env := demo_env (Ok demo_store) "/usr/ws".
Definition cp_call : tool_call := bash_call "cp /home/me/p/a /home/me/p/b".
Definition cp_ticket : PermissionTicket := ticket_of (demo_authorize usr_env (demo_rt "ask" false) cp_call).
Definition cp_auth : LocalCommandAuthorization :=
  default (mkCommandAuth "" "" (SandboxPolicy.mkDecision "" true [] [] [] false false) "") (local_command cp_ticket).
Definition usr_context : SandboxPolicy.PolicyContext :=
  SandboxPolicy.mkContext "/usr/ws" ["/usr/ws"] (Some "/home/me") ["/var/tmp"] [".git"] None.
Definition usr_fs : SandboxPolicy.ResolvedFileSystem :=
  match @SandboxPolicy.resolve plain_host
          (SandboxPolicy.filesystem (SandboxPolicy.build_policy (ca_access cp_auth))) usr_context with
  | Ok fs => fs
  | Err _ => SandboxPolicy.mkResolvedFS SandboxPolicy.RESTRICTED [] [] false
  end.

Lemma cp_authorized : demo_authorize usr_env (demo_rt "ask" false) cp_call = Ok (Proceed cp_ticket).
Proof. vm_compute. reflexivity. Qed.

Lemma cp_roots : SandboxPolicy.writable_roots (ca_access cp_auth) = ["/usr/ws"; "/home/me/p"; "/home/me/p/b"].
Proof. vm_compute. reflexivity. Qed.

Lemma cp_canonical w :
  w ∈ SandboxPolicy.writable_roots (ca_access cp_auth) →
  @SandboxPolicy.normalize_logical plain_host w = Ok (@LocalPolicy._canonical plain_host w) ∧
  normal (@LocalPolicy._canonical plain_host w).
Proof.
  rewrite cp_roots, !elem_of_cons, elem_of_nil. intros [->|[->|[->|[]]]]; (split; [vm_compute; reflexivity|]).
  - by apply (normal_of _ ["usr"; "ws"]).
  - by apply (normal_of _ ["home"; "me"; "p"]).
  - by apply (normal_of _ ["home"; "me"; "p"; "b"]).
Qed.

Lemma sandbox_spares_system_areas_witness :
  SandboxPolicy.effective_access usr_fs "/usr/ws/a" = SandboxPolicy.WRITE ∧
  ∃ w n, (w = "/usr/ws" ∨ w ∈ ["/var/tmp"] ∨ w = "/tmp") ∧
    @SandboxPolicy.normalize_logical plain_host w = Ok n ∧ is_within "/usr/ws/a" n = true.
Proof.
  split; [vm_compute; reflexivity|].
  apply (@sandbox_spares_system_areas demo_digest plain_host usr_env (demo_rt "ask" false)
    (demo_registry usr_env) yes (join ",") cp_call cp_ticket cp_auth usr_context usr_fs "/usr/ws/a").
  - exact cp_authorized.
  - vm_compute. reflexivity.
  - vm_compute. reflexivity.
  - intros E. vm_compute in E. discriminate E.
  - vm_compute. reflexivity.
  - exact cp_canonical.
  - by apply (normal_of _ ["usr"; "ws"; "a"]).
  - vm_compute. reflexivity.
  - vm_compute. reflexivity.
Defined.

(** A dispatch spawns a task and ends: the task keeps the ticket, expired. *)
Definition read_opened : Sys := begin_dispatch 0 (read_call "/home/me/p/a") read_ticket initial_sys.
Definition read_spawned : Sys := spawn 0 read_opened.
Definition read_dispatch : dispatch := mkDispatch 0 0 None (read_call "/home/me/p/a").

Lemma read_reachable : @sys_steps demo_digest plain_host initial_sys read_spawned.
Proof.
  apply (@sys_next _ _ _ read_opened); [|constructor].
  apply (@sys_next _ _ _ initial_sys); [constructor|].
  exact (@step_begin _ _ _ ok_env (demo_rt "ask" false) (demo_registry ok_env) yes (join ",") 0 _ _ read_authorized).
Qed.

Lemma host_access_needs_open_dispatch_witness :
  @require_local_path_permission plain_host ok_env (current read_spawned 1) "/home/me/p/a" LocalPolicy.READ = true ∧
  @require_local_path_permission plain_host ok_env (current (end_dispatch 0 read_dispatch read_spawned) 1)
    "/home/me/p/a" LocalPolicy.READ = false.
Proof.
  split; [vm_compute; reflexivity|].
  destruct (@host_access_needs_open_dispatch demo_digest plain_host read_spawned read_reachable)
    as (_ & _ & Hend).
  refine (proj1 (Hend read_dispatch 0%nat (end_dispatch 0 read_dispatch read_spawned) _ _ ok_env 1%nat _ _ _ _)).
  - left.
  - constructor.
  - vm_compute. reflexivity.
  - reflexivity.
Defined.

(** A settings file that cannot be read or parsed counts as empty, not as
    unreadable: a user's refusal of network commands turns into a question, which
    a trusted run answers with yes. *)
Lemma corrupt_settings_open :
  LocalPolicy.disposition_for (LocalPolicy.policy_for_gate "ask"
    (Some (LocalPolicy.mkStore [] [("network", "block")]))) LocalPolicy.NETWORK = "block" ∧
  LocalPolicy.disposition_for (LocalPolicy.policy_for_gate "ask" None) LocalPolicy.NETWORK = "confirm" ∧
  _answers_for_user (demo_rt "ask" true) true = true.
Proof. vm_compute. done. Qed.
