(* ===== verification/DataMasking.v ===== *)
(** * [core/infra/data_masking.py]: masking of sensitive fields *)

From S2P Require Import Prelude PyString.
From Stdlib Require Import Ascii String.

Module DataMasking.

Definition digits_of (s : string) : string := str_filter is_digit s.
(** [re.sub(r'[\s\-]', '', s)] *)
Definition compact (s : string) : string :=
  str_filter (λ c, negb (is_space c || in_range 45 45 c)) s.

Definition mask_phone (phone : string) : string :=
  if bool_decide (phone = "") then phone else
  let digits := digits_of phone in
  if (str_len digits <? 7)%nat then phone
  else if (str_len digits =? 11)%nat then take_str 3 digits +:+ "****" +:+ last_str 4 digits
  else if (10 <=? str_len digits)%nat then take_str 3 digits +:+ "****" +:+ last_str 4 digits
  else take_str 2 digits +:+ "***" +:+ last_str 3 digits.

Definition mask_email (email : string) : string :=
  if bool_decide (email = "") then email else
  match split_at "@" email with
  | None => email
  | Some (local, domain) =>
      if (str_len local <=? 1)%nat then local +:+ "***@" +:+ domain
      else if (str_len local =? 2)%nat then take_str 1 local +:+ "***@" +:+ domain
      else take_str 2 local +:+ "***@" +:+ domain
  end.

Definition mask_id_card (id_card : string) : string :=
  if bool_decide (id_card = "") then id_card else
  let clean := compact id_card in
  if (str_len clean =? 18)%nat then take_str 6 clean +:+ "********" +:+ last_str 4 clean
  else if (10 <=? str_len clean)%nat then take_str 4 clean +:+ "****" +:+ last_str 4 clean
  else if (4 <=? str_len clean)%nat then take_str 2 clean +:+ "***" +:+ last_str 2 clean
  else id_card.

Definition mask_bank_card (card_number : string) : string :=
  if bool_decide (card_number = "") then card_number else
  let clean := compact card_number in
  if (str_len clean <? 8)%nat then card_number
  else "**** **** **** " +:+ last_str 4 clean.

Definition mask_api_key (api_key : string) (show_prefix show_suffix : nat) : string :=
  if bool_decide (api_key = "") then api_key
  else if (str_len api_key <=? show_prefix + show_suffix)%nat then "***"
  else take_str show_prefix api_key +:+ "..." +:+ last_str show_suffix api_key.

Definition mask_password (password : string) : string :=
  if bool_decide (password = "") then "" else "***".

Definition mask_token (token : string) : string :=
  if bool_decide (token = "") then token
  else if (str_len token <=? 8)%nat then "***"
  else take_str 8 token +:+ "...".

Definition MASKING_RULES (masking_type : string) : option (string → string) :=
  match masking_type with
  | "phone" => Some mask_phone
  | "email" => Some mask_email
  | "id_card" => Some mask_id_card
  | "bank_card" => Some mask_bank_card
  | "api_key" => Some (λ s, mask_api_key s 4 4)
  | "password" => Some mask_password
  | "token" => Some mask_token
  | "secret" => Some mask_password
  | "access_key" => Some (λ s, mask_api_key s 4 4)
  | "secret_key" => Some mask_password
  | _ => None
  end%string.

Definition default_rules : list (string * string) :=
  [("phone", "phone"); ("mobile", "phone"); ("telephone", "phone");
   ("email", "email"); ("mail", "email");
   ("id_card", "id_card"); ("id_number", "id_card");
   ("bank_card", "bank_card"); ("card_number", "bank_card");
   ("api_key", "api_key"); ("password", "password"); ("token", "token");
   ("secret", "secret"); ("access_key", "access_key"); ("secret_key", "secret_key")].

Definition default_patterns : list string :=
  ["password"; "token"; "secret"; "api_key"; "access_key"; "secret_key"].

(** [{**default_rules, **rules}.get(key)]: a custom rule wins. *)
Fixpoint rule_for (rules : list (string * string)) (key : string) : option string :=
  match rules with
  | [] => None
  | (k, t) :: rules' =>
      match rule_for rules' key with
      | Some t' => Some t'
      | None => if bool_decide (k = key) then Some t else None
      end
  end.

Definition _mask_value (rules : list (string * string)) (field_patterns : list string)
    (key value : string) : string :=
  let key_lower := lower key in
  match (t ← rule_for (default_rules ++ rules) key_lower; MASKING_RULES t) with
  | Some mask => mask value
  | None =>
      if existsb (λ pattern, contains (lower pattern) key_lower) field_patterns
      then mask_password value else value
  end.

Section mask.
Context (rules : list (string * string)) (field_patterns : list string).

Fixpoint _mask_recursive (obj : json) : json :=
  match obj with
  | JDict d =>
      JDict (map (λ kv, (kv.1,
               match kv.2 with
               | JStr v => JStr (_mask_value rules field_patterns kv.1 v)
               | _ => _mask_recursive kv.2
               end)) d)
  | JList l => JList (map _mask_recursive l)
  | _ => obj
  end.
End mask.

Definition mask_sensitive_data (data : json) (rules : option (list (string * string)))
    (field_patterns : option (list string)) : json :=
  _mask_recursive (default [] rules) (default default_patterns field_patterns) data.

Definition mask_user_response (user_data : json) : json :=
  mask_sensitive_data user_data
    (Some [("phone", "phone"); ("mobile", "phone"); ("email", "email");
           ("id_card", "id_card"); ("id_number", "id_card")]) None.
End DataMasking.
