(* ===== verification/ToolPolicies.v ===== *)
(** * Recovery policies, idempotency keys and recorded arguments

    The first part of [core/services/tool_effect_ledger.py]: the registry of
    recovery adapters, the derivation of idempotency keys, and the canonical
    and redacted form under which arguments are recorded; and the argument
    check of [orchestration/tool_effect_recovery.py] that guards a replay. *)

From S2P Require Import Prelude Db PyString DataMasking.
From Stdlib Require Import Ascii String.

(** What the code takes from the host: the digest, the substitution of each
    embedded-secret pattern, and [str] of a tool result. *)
Class Host := {
  sha256_hex : string → string;
  embedded_sub : nat → string → string;
  py_str : json → string
}.

Module ToolPolicies.

(** ** Registry *)

Definition RECOVERY_POLICIES : list (string * RecoveryPolicy) :=
  [("replay_safe", ReplaySafe); ("reconcile", Reconcile); ("never_replay", NeverReplay)].

Definition parse_policy (s : string) : option RecoveryPolicy :=
  snd <$> List.find (λ p, bool_decide (p.1 = s)) RECOVERY_POLICIES.

(** An adapter is named by the function it is. *)
Record ToolPolicy := mkPolicy {
  policy : RecoveryPolicy;
  replayer : option string;
  reconciler : option string
}.

Abbreviation Registry := (gmap string ToolPolicy).

Definition register (reg : Registry) (tool_name policy : string)
    (replayer reconciler : option string) : result exn Registry :=
  match parse_policy policy with
  | None => Err (ValueError "invalid recovery policy")
  | Some p =>
      if bool_decide (p = ReplaySafe) && negb (is_null reconciler)
      then Err (ValueError "replay_safe does not accept a reconciler")
      else if bool_decide (p = NeverReplay)
              && (negb (is_null replayer) || negb (is_null reconciler))
      then Err (ValueError "never_replay does not accept recovery adapters")
      else Ok (<[tool_name := mkPolicy p replayer reconciler]> reg)
  end.

Definition resolve (reg : Registry) (tool_name : string) : ToolPolicy :=
  default (mkPolicy NeverReplay None None) (reg !! tool_name).

(** [for name in names: registry.register(name, ...)] *)
Fixpoint register_all (reg : Registry) (names : list string) (policy : string)
    (replayer reconciler : option string) : result exn Registry :=
  match names with
  | [] => Ok reg
  | n :: names' =>
      match register reg n policy replayer reconciler with
      | Ok reg' => register_all reg' names' policy replayer reconciler
      | Err e => Err e
      end
  end.

Definition REPLAY_SAFE_TOOLS : list string :=
  ["Read"; "read_project_instructions"; "list_sites"; "site_kv_list"; "site_kv_get";
   "Glob"; "Grep"; "view_text_file"; "get_data_context"; "read_image"; "read_artifact";
   "list_myspace_files"; "stage_myspace_file"; "list_favorite_chats"; "get_chat_messages";
   "channel_read_attachment"; "sandbox_get_artifact"].
Definition NEVER_REPLAY_TOOLS : list string :=
  ["Write"; "save_project_instructions"; "Edit"; "Delete"; "Move"; "CreateFolder"; "bash";
   "Bash"; "sandbox_put_artifact"; "pin_to_workspace"; "run_job"; "choose_design";
   "call_subagent"; "update_plan"; "load_plugin"].
Definition RECONCILE_TOOLS : list string :=
  ["create_scheduled_task"; "update_scheduled_task"; "delete_scheduled_task"].

Definition build_default_tool_recovery_registry : result exn Registry :=
  match register_all ∅ REPLAY_SAFE_TOOLS "replay_safe" (Some "_default_replayer") None with
  | Err e => Err e
  | Ok reg1 =>
      match register_all reg1 NEVER_REPLAY_TOOLS "never_replay" None None with
      | Err e => Err e
      | Ok reg2 =>
          register_all reg2 RECONCILE_TOOLS "reconcile" (Some "_default_replayer")
            (Some "_scheduled_task_reconciler")
      end
  end.

(** The registrations a caller can make keep adapters consistent with the
    policy. *)
Definition policy_consistent (p : ToolPolicy) : Prop :=
  match policy p with
  | ReplaySafe => reconciler p = None
  | NeverReplay => replayer p = None ∧ reconciler p = None
  | Reconcile => True
  end.

Section host.
Context `{Host}.

(** ** Arguments *)

Definition _REDACT_FIELDS : list string :=
  ["password"; "token"; "api_key"; "apikey"; "authorization"; "secret"; "access_key";
   "cookie"].
Definition _WITHHOLD_FIELDS : list string :=
  ["command"; "content"; "stdin"; "script"; "code"].

(** The four patterns in order. *)
Definition _embedded_redact (value : string) : string :=
  foldl (λ cleaned i, embedded_sub i cleaned) value (seq 0 4).

Definition withheld (value : string) : json :=
  JDict [("_withheld", JBool true); ("sha256", JStr (sha256_hex value));
         ("length", JInt (Z.of_nat (str_len value)))].

Fixpoint _sanitize_value (value : json) (key : string) : json :=
  match value with
  | JDict d => JDict (map (λ kv, (kv.1, _sanitize_value kv.2 kv.1)) d)
  | JList l => JList (map (λ item, _sanitize_value item key) l)
  | JStr s =>
      if bool_decide (lower key ∈ _WITHHOLD_FIELDS) then withheld s
      else JStr (_embedded_redact s)
  | _ => value
  end.

Definition sanitize_dict (d : dict) : dict :=
  map (λ kv, (kv.1, _sanitize_value kv.2 kv.1)) d.

Definition canonical_args (args : dict) : string :=
  json_dumps true true "," ":" (JDict args).

Definition masked_args (args : dict) : dict :=
  match DataMasking.mask_sensitive_data (JDict args) None (Some _REDACT_FIELDS) with
  | JDict d => d
  | _ => args
  end.

(** The canonical text, its digest, and the recorded form. *)
Definition canonical_tool_args (args : dict) : string * string * dict :=
  (canonical_args args, sha256_hex (canonical_args args), sanitize_dict (masked_args args)).

Definition tool_args_hash (args : dict) : string := (canonical_tool_args args).1.2.

(** ** Idempotency keys *)

Definition nul : string := String (ascii_of_N 0) EmptyString.

Definition stable_idempotency_key (run_id tool_name invocation_id : string) : string :=
  "tool:" +:+ sha256_hex (run_id +:+ nul +:+ tool_name +:+ nul +:+ invocation_id).

Definition _resolved_idempotency_key (run_id principal_scope tool_name tool_call_id : string)
    (explicit_key : option string) : result exn (string * bool) :=
  let caller_key := strip (default "" explicit_key) in
  if negb (bool_decide (caller_key = "")) then
    Ok ("caller:" +:+ sha256_hex (principal_scope +:+ nul +:+ caller_key), true)
  else if bool_decide (tool_call_id = "") then
    Err (ToolIntentCommitError "tool_call_id or explicit idempotency_key is required")
  else Ok (stable_idempotency_key run_id tool_name tool_call_id, false).

(** [str(args.get("idempotency_key") or args.get("request_id") or "").strip()];
    a falsy value of a key falls through to the next. *)
Definition to_str (v : json) : string :=
  match v with JStr s => s | _ => py_str v end.
Definition key_from_args (args : dict) : string :=
  let pick k := match dict_get args k with
                | Some v => if truthy v then Some v else None
                | None => None
                end in
  match pick "idempotency_key" with
  | Some v => strip (to_str v)
  | None => match pick "request_id" with Some v => strip (to_str v) | None => "" end
  end.
Definition explicit_key_of (idempotency_key : option string) (args : dict) : option string :=
  match idempotency_key with
  | Some k => if bool_decide (k = "") then Some (key_from_args args) else Some k
  | None => Some (key_from_args args)
  end.

(** ** Guard on replayed arguments *)

Fixpoint _contains_withheld (value : json) : bool :=
  match value with
  | JDict d =>
      match dict_get d "_withheld" with Some v => truthy v | None => false end
      || existsb (λ kv, _contains_withheld kv.2) d
  | JList l => existsb _contains_withheld l
  | _ => false
  end.

Definition _plain_replay_args (redacted_args : dict) : result exn dict :=
  if _contains_withheld (JDict redacted_args) then
    Err (ToolEffectError "replay arguments contain withheld sensitive free text")
  else if contains "[REDACTED" (json_dumps false false ", " ": " (JDict redacted_args)) then
    Err (ToolEffectError "replay arguments were redacted and cannot be reconstructed safely")
  else Ok redacted_args.
End host.
End ToolPolicies.
