(* ===== verification/ToolPoliciesThms.v ===== *)
(** * Theorems about recovery policies, keys and recorded arguments *)

From S2P Require Import Prelude Db PyString DataMasking ToolPolicies.
From Stdlib Require Import Ascii String.
Import ToolPolicies.

(** ** The registry *)

Lemma parse_policy_policies s p : parse_policy s = Some p →
  (s = "replay_safe" ∧ p = ReplaySafe) ∨ (s = "reconcile" ∧ p = Reconcile) ∨
  (s = "never_replay" ∧ p = NeverReplay).
Proof.
  unfold parse_policy. simpl. repeat case_bool_decide; simpl; intros [= <-]; subst; auto.
Qed.

Lemma register_ok reg name pol rp rc reg' : register reg name pol rp rc = Ok reg' →
  ∃ p, parse_policy pol = Some p ∧ reg' = <[name := mkPolicy p rp rc]> reg ∧
       policy_consistent (mkPolicy p rp rc).
Proof.
  unfold register. destruct (parse_policy pol) as [p|]; [|done].
  destruct p, rp, rc; simpl; intros [= <-]; eexists; (split; [done|]); by split.
Qed.

Lemma register_all_lookup names reg pol rp rc reg' t :
  register_all reg names pol rp rc = Ok reg' →
  reg' !! t = if bool_decide (t ∈ names)
              then (λ p, mkPolicy p rp rc) <$> parse_policy pol else reg !! t.
Proof.
  revert reg. induction names as [|n names IH]; cbn [register_all]; intros reg E.
  { by injection E as <-. }
  destruct (register reg n pol rp rc) as [reg1|] eqn:Er; [|done].
  apply register_ok in Er as (p & Hp & -> & _). rewrite (IH _ E), Hp.
  destruct (decide (t = n)) as [->|Hne].
  - rewrite (bool_decide_true (n ∈ n :: names)) by left. case_bool_decide; [done|].
    by rewrite lookup_insert_eq.
  - rewrite lookup_insert_ne by done.
    rewrite (bool_decide_ext (t ∈ n :: names) (t ∈ names)); [done|]. set_solver.
Qed.

Lemma register_all_ok names reg pol p rp rc :
  parse_policy pol = Some p → policy_consistent (mkPolicy p rp rc) →
  ∃ reg', register_all reg names pol rp rc = Ok reg'.
Proof.
  intros Hp Hc. revert reg. induction names as [|n names IH]; intros reg; cbn [register_all]; [eauto|].
  assert (register reg n pol rp rc = Ok (<[n := mkPolicy p rp rc]> reg)) as ->; [|apply IH].
  unfold register. rewrite Hp. destruct p, rp, rc; simpl in Hc; (done || by destruct Hc).
Qed.

(** A registration, with the arguments of [register]. *)
Definition registration : Type := string * string * option string * option string.
Definition apply_registration (reg : Registry) (c : registration) : Registry :=
  let '(name, pol, rp, rc) := c in
  match register reg name pol rp rc with Ok reg' => reg' | Err _ => reg end.

(** the registry fails closed.  Whatever registrations were attempted, a
    tool never registered resolves to never-replay without adapters, and every
    resolved policy carries only the adapters its policy allows; in the default
    registry exactly the listed read-only tools replay and the three
    scheduled-task tools reconcile. *)
Theorem registry_fails_closed cs t :
  let reg := foldl apply_registration ∅ cs in
  policy_consistent (resolve reg t) ∧
  (t ∉ ((λ c, c.1.1.1) <$> cs) → resolve reg t = mkPolicy NeverReplay None None) ∧
  ∃ dflt, build_default_tool_recovery_registry = Ok dflt ∧
    policy (resolve dflt t) =
      if bool_decide (t ∈ RECONCILE_TOOLS) then Reconcile
      else if bool_decide (t ∈ NEVER_REPLAY_TOOLS) then NeverReplay
      else if bool_decide (t ∈ REPLAY_SAFE_TOOLS) then ReplaySafe else NeverReplay.
Proof.
  intros reg. assert (Hreg : ∀ l reg0, (∀ x p, reg0 !! x = Some p → policy_consistent p) →
    (∀ x p, foldl apply_registration reg0 l !! x = Some p → policy_consistent p) ∧
    ∀ x, x ∉ ((λ c : registration, c.1.1.1) <$> l) → foldl apply_registration reg0 l !! x = reg0 !! x).
  { induction l as [|[[[n pol] rp] rc] l IH]; intros reg0 H0; [done|]. simpl.
    assert (∀ x p, apply_registration reg0 (n, pol, rp, rc) !! x = Some p → policy_consistent p) as H1.
    { intros x p. simpl. destruct (register reg0 n pol rp rc) as [reg1|] eqn:E; [|apply H0].
      apply register_ok in E as (p0 & _ & -> & Hc).
      intros [[<- <-]|[_ Hx]]%lookup_insert_Some; [done|by eapply H0]. }
    destruct (IH _ H1) as [H2 H3]. split; [exact H2|]. intros x [Hne Hx]%not_elem_of_cons.
    rewrite H3 by done. simpl in *. destruct (register reg0 n pol rp rc) as [reg1|] eqn:E; [|done].
    apply register_ok in E as (p0 & _ & -> & _). by rewrite lookup_insert_ne. }
  destruct (Hreg cs ∅) as [Hc Hn]; [by intros x p Hx; rewrite lookup_empty in Hx|].
  split_and!.
  - unfold resolve. destruct (reg !! t) as [p|] eqn:E; [by apply (Hc t)|done].
  - intros Ht. unfold resolve, reg. by rewrite Hn, lookup_empty.
  - unfold build_default_tool_recovery_registry.
    destruct (register_all_ok REPLAY_SAFE_TOOLS ∅ "replay_safe" ReplaySafe (Some "_default_replayer")
      None) as [r1 E1]; [done|done|]. rewrite E1.
    destruct (register_all_ok NEVER_REPLAY_TOOLS r1 "never_replay" NeverReplay None None)
      as [r2 E2]; [done|done|]. rewrite E2.
    destruct (register_all_ok RECONCILE_TOOLS r2 "reconcile" Reconcile (Some "_default_replayer")
      (Some "_scheduled_task_reconciler")) as [r3 E3]; [done|done|]. rewrite E3.
    exists r3. split; [done|]. unfold resolve.
    rewrite (register_all_lookup _ _ _ _ _ _ t E3), (register_all_lookup _ _ _ _ _ _ t E2),
      (register_all_lookup _ _ _ _ _ _ t E1), lookup_empty.
    destruct (bool_decide (t ∈ RECONCILE_TOOLS)), (bool_decide (t ∈ NEVER_REPLAY_TOOLS)),
      (bool_decide (t ∈ REPLAY_SAFE_TOOLS)); reflexivity.
Qed.

(** ** Idempotency keys *)

Fixpoint nul_free (s : string) : bool :=
  match s with
  | EmptyString => true
  | String c s' => negb (bool_decide (c = ascii_of_N 0)) && nul_free s'
  end.

Lemma nul_split a a' b b' : nul_free a = true → nul_free a' = true →
  a +:+ nul +:+ b = a' +:+ nul +:+ b' → a = a' ∧ b = b'.
Proof.
  revert a'. induction a as [|c a IH]; intros [|c' a'] Ha Ha' E; simpl in *.
  - by injection E as E.
  - injection E as <- _. done.
  - injection E as -> _. done.
  - apply andb_true_iff in Ha as [_ Ha], Ha' as [_ Ha']. injection E as <- E.
    destruct (IH a' Ha Ha' E) as [<- <-]. done.
Qed.

(** idempotency keys separate callers.  If two resolved keys are equal then
    both are explicit keys of the same principal with the same text, or both are
    derived from the same run, tool and call; the only alternative is a
    collision of the digest. *)
Theorem idempotency_keys_separate `{Host} r u t c k r' u' t' c' k' key ex ex' :
  nul_free r = true → nul_free u = true → nul_free t = true →
  nul_free r' = true → nul_free u' = true → nul_free t' = true →
  _resolved_idempotency_key r u t c k = Ok (key, ex) →
  _resolved_idempotency_key r' u' t' c' k' = Ok (key, ex') →
  (ex = true ∧ ex' = true ∧ u = u' ∧ strip (default "" k) = strip (default "" k')) ∨
  (ex = false ∧ ex' = false ∧ r = r' ∧ t = t' ∧ c = c') ∨
  ∃ x y, x ≠ y ∧ sha256_hex x = sha256_hex y.
Proof.
  intros Hr Hu Ht Hr' Hu' Ht'. unfold _resolved_idempotency_key, stable_idempotency_key.
  destruct (negb (bool_decide (strip (default "" k) = ""))),
           (negb (bool_decide (strip (default "" k') = ""))).
  - intros [= <- <-] [= E <-].
    destruct (decide (u' +:+ nul +:+ strip (default "" k') = u +:+ nul +:+ strip (default "" k)))
      as [Heq|Hne]; [|right; right; by eexists _, _].
    left. by destruct (nul_split _ _ _ _ Hu' Hu Heq).
  - intros [= <- <-]. case_bool_decide; [done|]. by intros [= E _].
  - case_bool_decide; [done|]. intros [= <- <-]. by intros [= E _].
  - case_bool_decide; [done|]. intros [= <- <-]. case_bool_decide; [done|]. intros [= E <-].
    destruct (decide (r' +:+ nul +:+ t' +:+ nul +:+ c' = r +:+ nul +:+ t +:+ nul +:+ c))
      as [Heq|Hne]; [|right; right; by eexists _, _].
    right; left. destruct (nul_split _ _ _ _ Hr' Hr Heq) as [-> Heq2].
    by destruct (nul_split _ _ _ _ Ht' Ht Heq2) as [-> ->].
Qed.

(** ** Recorded arguments *)

Section args.
Context `{Host}.

(** The text [s] occurs under the key [k] somewhere in a value. *)
Inductive text_at (k s : string) : json → Prop :=
| text_here d : (k, JStr s) ∈ d → text_at k s (JDict d)
| text_in_dict d k' v : (k', v) ∈ d → text_at k s v → text_at k s (JDict d)
| text_in_list l v : v ∈ l → text_at k s v → text_at k s (JList l).

Lemma map_elem {A B} (f : A → B) l x : x ∈ l → f x ∈ map f l.
Proof. intros H'. apply list_elem_of_fmap_2. done. Qed.

Lemma existsb_elem {A} (p : A → bool) l x : x ∈ l → p x = true → existsb p l = true.
Proof. intros Hx Hp. apply existsb_exists. exists x. by rewrite <- list_elem_of_In. Qed.

(** Masking a field keeps a text under its key. *)
Lemma mask_text_at rules pats k s v : text_at k s v →
  ∃ s', text_at k s' (DataMasking._mask_recursive rules pats v).
Proof.
  induction 1 as [d Hin|d k' v Hin Hv [s' IH]|l v Hin Hv [s' IH]]; simpl.
  - eexists. apply text_here.
    apply (map_elem (λ kv, (kv.1, match kv.2 with JStr v => JStr (DataMasking._mask_value rules pats kv.1 v)
                                  | _ => DataMasking._mask_recursive rules pats kv.2 end))) in Hin.
    exact Hin.
  - exists s'. eapply text_in_dict; [|exact IH].
    apply (map_elem (λ kv, (kv.1, match kv.2 with JStr v => JStr (DataMasking._mask_value rules pats kv.1 v)
                                  | _ => DataMasking._mask_recursive rules pats kv.2 end))) in Hin.
    simpl in Hin. destruct v; [exact Hin|exact Hin|exact Hin|inversion Hv|exact Hin|exact Hin].
  - exists s'. eapply text_in_list; [|exact IH]. by apply map_elem.
Qed.

Lemma sanitize_withheld k s v key : text_at k s v → lower k ∈ _WITHHOLD_FIELDS →
  _contains_withheld (_sanitize_value v key) = true.
Proof.
  intros Ht Hk. revert key. induction Ht as [d Hin|d k' v Hin Hv IH|l v Hin Hv IH]; intros key; simpl.
  - apply orb_true_iff. right.
    apply (existsb_elem _ _ (k, withheld s)); [|done].
    apply (map_elem (λ kv, (kv.1, _sanitize_value kv.2 kv.1))) in Hin. simpl in Hin.
    by rewrite bool_decide_true in Hin.
  - apply orb_true_iff. right.
    apply (existsb_elem _ _ (k', _sanitize_value v k')); [|by apply IH].
    by apply (map_elem (λ kv, (kv.1, _sanitize_value kv.2 kv.1))) in Hin.
  - apply (existsb_elem _ _ (_sanitize_value v key)); [|by apply IH].
    by apply (map_elem (λ item, _sanitize_value item key)) in Hin.
Qed.

(** free text is never replayed.  If an argument holds a text under a
    command, content, stdin, script or code key, at any depth, the recorded
    arguments keep only its digest and the replay guard refuses them. *)
Theorem withheld_text_blocks_replay args k s :
  text_at k s (JDict args) → lower k ∈ _WITHHOLD_FIELDS →
  ∃ msg, _plain_replay_args (canonical_tool_args args).2 = Err (ToolEffectError msg).
Proof.
  intros Ht Hk. destruct (mask_text_at [] _REDACT_FIELDS k s _ Ht) as [s' Ht'].
  pose proof (sanitize_withheld k s' _ "" Ht' Hk) as Hw.
  unfold _plain_replay_args.
  assert (JDict (canonical_tool_args args).2 =
    _sanitize_value (DataMasking._mask_recursive [] _REDACT_FIELDS (JDict args)) "") as ->
    by reflexivity.
  rewrite Hw. by eexists.
Qed.

(** A value none of whose fields is masked, withheld or redacted, and which has
    no key the guard mistakes for a withheld marker. *)
Fixpoint plain (key : string) (v : json) : Prop :=
  match v with
  | JDict d =>
      (∀ w, dict_get d "_withheld" = Some w → truthy w = false) ∧
      (fix go d := match d with
                   | [] => True
                   | (k, w) :: d' => plain k w ∧
                       (∀ s, w = JStr s → DataMasking._mask_value [] _REDACT_FIELDS k s = s) ∧ go d'
                   end) d
  | JList l => (fix go l := match l with [] => True | w :: l' => plain key w ∧ go l' end) l
  | JStr s => lower key ∉ _WITHHOLD_FIELDS ∧ _embedded_redact s = s
  | _ => True
  end.

Lemma plain_kept : ∀ v key, plain key v →
  DataMasking._mask_recursive [] _REDACT_FIELDS v = v ∧ _sanitize_value v key = v ∧
  _contains_withheld v = false.
Proof.
  fix IH 1. intros [|b|z|s|l|d] key Hp; simpl in *; try done.
  - destruct Hp as [Hk Hs]. rewrite bool_decide_false by done. by rewrite Hs.
  - induction l as [|w l IHl]; simpl; [done|]. destruct Hp as [Hw Hl].
    destruct (IH w key Hw) as (E1 & E2 & E3). destruct (IHl Hl) as (F1 & F2 & F3).
    injection F1 as F1. injection F2 as F2. rewrite E1, E2, E3, F1, F2, F3. done.
  - destruct Hp as [Hmark Hd].
    assert (map (λ kv, (kv.1, match kv.2 with
        | JStr v => JStr (DataMasking._mask_value [] _REDACT_FIELDS kv.1 v)
        | _ => DataMasking._mask_recursive [] _REDACT_FIELDS kv.2 end)) d = d ∧
      map (λ kv, (kv.1, _sanitize_value kv.2 kv.1)) d = d ∧
      existsb (λ kv, _contains_withheld kv.2) d = false) as (F1 & F2 & F3).
    { clear Hmark. induction d as [|[k w] d IHd]; simpl; [done|]. destruct Hd as (Hw & Hm & Hd).
      destruct (IH w k Hw) as (E1 & E2 & E3). destruct (IHd Hd) as (F1 & F2 & F3).
      rewrite F1, F2, F3, E2, E3. split_and!; [|done|done]. f_equal. f_equal.
      destruct w; try done. f_equal. by apply Hm. }
    rewrite F1, F2, F3, orb_false_r. split_and!; [done|done|].
    destruct (dict_get d "_withheld") as [w|]; [by apply Hmark|done].
Qed.

(** plain arguments survive recording: if no field is masked, withheld or
    redacted, the recorded arguments are the original ones, and the guard hands
    them to the replay unchanged unless they quote the redaction marker. *)
Theorem plain_args_roundtrip args :
  plain "" (JDict args) →
  contains "[REDACTED" (json_dumps false false ", " ": " (JDict args)) = false →
  _plain_replay_args (canonical_tool_args args).2 = Ok args.
Proof.
  intros Hp Hm. destruct (plain_kept _ _ Hp) as (E1 & E2 & E3).
  assert ((canonical_tool_args args).2 = args) as Hrec.
  { unfold canonical_tool_args, masked_args.
    change (DataMasking.mask_sensitive_data (JDict args) None (Some _REDACT_FIELDS))
      with (DataMasking._mask_recursive [] _REDACT_FIELDS (JDict args)).
    rewrite E1. by injection E2. }
  unfold _plain_replay_args. by rewrite Hrec, E3, Hm.
Qed.

(** the replay guard misses masked fields.  A field masked by name, such as
    an e-mail address, is recorded without the redaction marker the guard looks
    for, so the guard hands the masked address to the replay as if it were the
    original argument. *)
Theorem masked_field_passes_guard :
  (∀ i, embedded_sub i "us***@example.com" = "us***@example.com") →
  _plain_replay_args (canonical_tool_args [("email", JStr "user@example.com")]).2
    = Ok [("email", JStr "us***@example.com")].
Proof.
  intros Hsub.
  assert ((canonical_tool_args [("email", JStr "user@example.com")]).2 =
    [("email", JStr (_embedded_redact "us***@example.com"))]) as -> by reflexivity.
  unfold _embedded_redact. simpl. rewrite !Hsub. reflexivity.
Qed.
End args.

(** ** Concrete arguments *)

Definition plain_host : Host :=
  {| sha256_hex := λ s, s; embedded_sub := λ _ s, s; py_str := λ _, "" |}.
#[local] Existing Instance plain_host.

Lemma idempotency_keys_separate_witness :
  ∃ key, _resolved_idempotency_key "run_1" "alice" "Write" "call_1" None = Ok (key, false) ∧
    ((false = true ∧ false = true ∧ "alice" = "alice" ∧ strip "" = strip "") ∨
     (false = false ∧ false = false ∧ "run_1" = "run_1" ∧ "Write" = "Write" ∧ "call_1" = "call_1") ∨
     ∃ x y, x ≠ y ∧ sha256_hex x = sha256_hex y).
Proof.
  exists (stable_idempotency_key "run_1" "Write" "call_1"). split; [reflexivity|].
  apply (idempotency_keys_separate "run_1" "alice" "Write" "call_1" None
           "run_1" "alice" "Write" "call_1" None
           (stable_idempotency_key "run_1" "Write" "call_1") false false); reflexivity.
Defined.

Lemma withheld_text_blocks_replay_witness :
  ∃ msg, _plain_replay_args
    (canonical_tool_args [("opts", JDict [("Command", JStr "rm -rf build")])]).2
    = Err (ToolEffectError msg).
Proof.
  apply (withheld_text_blocks_replay _ "Command" "rm -rf build").
  - eapply text_in_dict; [left|]. apply text_here. left.
  - vm_compute. left.
Defined.

Lemma plain_args_roundtrip_witness :
  _plain_replay_args (canonical_tool_args [("path", JStr "notes.md"); ("limit", JInt 20)]).2
    = Ok [("path", JStr "notes.md"); ("limit", JInt 20)].
Proof.
  apply plain_args_roundtrip.
  - simpl. split; [intros w Hw; discriminate|]. split; [split|].
    + intros Hin. vm_compute in Hin. repeat (apply elem_of_cons in Hin as [Hin|Hin]; [discriminate|]).
      by apply not_elem_of_nil in Hin.
    + reflexivity.
    + split; [intros s [= <-]; reflexivity|]. split; [done|]. split; [discriminate|done].
  - reflexivity.
Defined.

Lemma masked_field_passes_guard_witness :
  _plain_replay_args (canonical_tool_args [("email", JStr "user@example.com")]).2
    = Ok [("email", JStr "us***@example.com")].
Proof. apply masked_field_passes_guard. intros i. reflexivity. Defined.
