(* ===== verification/Program.v ===== *)
(** * Programs made of transactions

    The services of the durable core are sequences of short database
    transactions, random identifiers and calls into tools.  [prog] is the free
    monad of those actions; [catch] is Python's [try/except] and [finally_] its
    [finally].  A [world] runs any number of such programs with arbitrary
    interleaving: every transaction reads its own clock, may be interrupted
    before it starts or fail at its commit, applied or not, and every external
    call is recorded in a log at the moment it is made.  [ok] is the
    rely-guarantee judgement under which an invariant holds in every reachable
    world. *)

From S2P Require Import Prelude Db.

(** What the continuation of a transaction sees: its value, an exception of
    its body, or an exception of [db.commit()] itself, after which the caller
    cannot know whether the commit was applied. *)
Inductive tx_out (B : Type) : Type :=
| Returned (b : B)
| Raised (e : exn)
| CommitFailed (e : exn).
Arguments Returned {B} b.
Arguments Raised {B} e.
Arguments CommitFailed {B} e.

Section prog.
(** [C]: external calls; [V]: their answers. *)
Context {C V : Type}.

Inductive prog (A : Type) : Type :=
| Ret (a : A)
| Throw (e : exn)
| Tx (B : Type) (body : Z → Db → tx Db exn B) (k : tx_out B → prog A)
| Uuid (k : string → prog A)
| Call (c : C) (k : result exn V → prog A)
| IsSet (k : bool → prog A).
Arguments Ret {A} a.
Arguments Throw {A} e.
Arguments Tx {A B} body k.
Arguments Uuid {A} k.
Arguments Call {A} c k.
Arguments IsSet {A} k.

Fixpoint bind {A A'} (p : prog A) (f : A → prog A') : prog A' :=
  match p with
  | Ret a => f a
  | Throw e => Throw e
  | Tx body k => Tx body (λ o, bind (k o) f)
  | Uuid k => Uuid (λ u, bind (k u) f)
  | Call c k => Call c (λ r, bind (k r) f)
  | IsSet k => IsSet (λ b, bind (k b) f)
  end.

(** [try: p except e: handler e] *)
Fixpoint catch {A} (p : prog A) (h : exn → prog A) : prog A :=
  match p with
  | Ret a => Ret a
  | Throw e => h e
  | Tx body k => Tx body (λ o, catch (k o) h)
  | Uuid k => Uuid (λ u, catch (k u) h)
  | Call c k => Call c (λ r, catch (k r) h)
  | IsSet k => IsSet (λ b, catch (k b) h)
  end.

(** A [with session() as db:] block used as a statement. *)
Definition atomically {B} (body : Z → Db → tx Db exn B) : prog B :=
  Tx body (λ o, match o with
                | Returned b => Ret b
                | Raised e | CommitFailed e => Throw e
                end).

Definition uuid : prog string := Uuid Ret.
Definition call (c : C) : prog V :=
  Call c (λ r, match r with Ok v => Ret v | Err e => Throw e end).
(** [event.is_set()] of an event another task may set at any time. *)
Definition is_set : prog bool := IsSet Ret.

Definition lift {A} (r : result exn A) : prog A :=
  match r with Ok a => Ret a | Err e => Throw e end.

(** [with suppress(Exception): p] *)
Definition suppress (p : prog unit) : prog unit :=
  catch p (λ e, if is_exception e then Ret tt else Throw e).

Definition ignore {A} (p : prog A) : prog unit := bind p (λ _, Ret tt).

(** ** One transaction *)

(** Failures of the environment: the database, or a task cancellation. *)
Definition transient (e : exn) : bool :=
  match e with
  | IntegrityError | OperationalError | CancelledError | OtherError _ => true
  | _ => false
  end.

Inductive tx_step {B} (body : Z → Db → tx Db exn B) (now : Z) (db : Db)
    : tx_out B → Db → Prop :=
| tx_commit b db' : body now db = Commit b db' → tx_step body now db (Returned b) db'
| tx_rollback b : body now db = Rollback b → tx_step body now db (Returned b) db
| tx_raise e : body now db = Raise e → tx_step body now db (Raised e) db
| tx_interrupted e : transient e = true → tx_step body now db (Raised e) db
| tx_commit_lost b db' e :
    body now db = Commit b db' → transient e = true →
    tx_step body now db (CommitFailed e) db
| tx_commit_unacknowledged b db' e :
    body now db = Commit b db' → transient e = true →
    tx_step body now db (CommitFailed e) db'.

(** ** Worlds *)

(** The committed state, the states committed before it, and the external
    calls made so far with the task that made them. *)
Record state := mkState {
  cur : Db;
  past : list Db;
  calls : list (string * C)
}.

Definition commit_state (s : state) (db : Db) : state :=
  mkState db (cur s :: past s) (calls s).
Definition log_call (s : state) (tag : string) (c : C) : state :=
  mkState (cur s) (past s) (calls s ++ [(tag, c)]).

(** Every state the database was ever in. *)
Definition states (s : state) : list Db := cur s :: past s.

Record world := mkWorld {
  st : state;
  tasks : list (string * prog unit)
}.

Inductive task_step (tag : string) : prog unit → state → prog unit → state → Prop :=
| step_tx B (body : Z → Db → tx Db exn B) k now s o db' :
    tx_step body now (cur s) o db' →
    task_step tag (Tx body k) s (k o) (commit_state s db')
| step_uuid k u s : task_step tag (Uuid k) s (k u) s
| step_call c k r s : task_step tag (Call c k) s (k r) (log_call s tag c)
| step_is_set k b s : task_step tag (IsSet k) s (k b) s.

(** [client tag p]: a task with the identity [tag] may run [p]. *)
Context (client : string → prog unit → Prop).

Inductive world_step : world → world → Prop :=
| world_spawn s ts tag p :
    client tag p → tag ∉ ts.*1 → world_step (mkWorld s ts) (mkWorld s (ts ++ [(tag, p)]))
| world_task s ts1 ts2 tag p p' s' :
    task_step tag p s p' s' →
    world_step (mkWorld s (ts1 ++ (tag, p) :: ts2)) (mkWorld s' (ts1 ++ (tag, p') :: ts2)).

Abbreviation reachable := (rtc world_step).

(** ** Rely-guarantee *)

Context (Inv : state → Prop).
(** [moves tag s s']: what a step of the task [tag] may do. *)
Context (moves : string → state → state → Prop).

Definition stable (tag : string) (φ : state → Prop) : Prop :=
  ∀ other s s', other ≠ tag → Inv s → Inv s' → moves other s s' → φ s → φ s'.

(** From a state with [φ], and whatever the other tasks do, every step of [p]
    keeps the invariant and is a permitted move, and it ends in [Q]. *)
Fixpoint ok (tag : string) {A} (p : prog A) (φ : state → Prop)
    (Q : result exn A → state → Prop) {struct p} : Prop :=
  match p with
  | Ret a => ∀ s, Inv s → φ s → Q (Ok a) s
  | Throw e => ∀ s, Inv s → φ s → Q (Err e) s
  | Tx body k =>
      ∃ ψ : tx_out _ → state → Prop,
        (∀ o, stable tag (ψ o)) ∧ (∀ o, ok tag (k o) (ψ o) Q) ∧
        ∀ s now o db', Inv s → φ s → tx_step body now (cur s) o db' →
          Inv (commit_state s db') ∧ moves tag s (commit_state s db') ∧
          ψ o (commit_state s db')
  | Uuid k => ∀ u, ok tag (k u) φ Q
  | Call c k =>
      ∃ ψ : state → Prop,
        stable tag ψ ∧ (∀ r, ok tag (k r) ψ Q) ∧
        ∀ s, Inv s → φ s →
          Inv (log_call s tag c) ∧ moves tag s (log_call s tag c) ∧ ψ (log_call s tag c)
  | IsSet k => ∀ b, ok tag (k b) φ Q
  end.

Lemma ok_weaken tag {A} (p : prog A) : ∀ φ φ' (Q Q' : result exn A → state → Prop),
  (∀ s, Inv s → φ' s → φ s) → (∀ r s, Inv s → Q r s → Q' r s) →
  ok tag p φ Q → ok tag p φ' Q'.
Proof.
  induction p as [a|e|B body k IH|k IH|c k IH|k IH]; simpl; intros φ φ' Q Q' Hφ HQ H; eauto.
  - destruct H as (ψ & Hst & Hk & Hstep). exists ψ. split_and!; [done| |eauto].
    intros o. by eapply IH.
  - destruct H as (ψ & Hst & Hk & Hstep). exists ψ. split_and!; [done| |eauto].
    intros r. by eapply IH.
Qed.

Lemma ok_bind tag {A A'} (p : prog A) (f : A → prog A') : ∀ φ Q Q',
  ok tag p φ Q → (∀ a, ok tag (f a) (Q (Ok a)) Q') →
  (∀ e s, Inv s → Q (Err e) s → Q' (Err e) s) →
  ok tag (bind p f) φ Q'.
Proof.
  induction p as [a|e|B body k IH|k IH|c k IH|k IH]; simpl; intros φ Q Q' H Hf He; eauto.
  - eapply ok_weaken; [| |apply Hf]; eauto.
  - destruct H as (ψ & Hst & Hk & Hstep). exists ψ. split_and!; eauto.
  - destruct H as (ψ & Hst & Hk & Hstep). exists ψ. split_and!; eauto.
Qed.

Lemma ok_catch tag {A} (p : prog A) h : ∀ φ Q Q',
  ok tag p φ Q → (∀ e, ok tag (h e) (Q (Err e)) Q') →
  (∀ a s, Inv s → Q (Ok a) s → Q' (Ok a) s) →
  ok tag (catch p h) φ Q'.
Proof.
  induction p as [a|e|B body k IH|k IH|c k IH|k IH]; simpl; intros φ Q Q' H Hf He; eauto.
  - eapply ok_weaken; [| |apply Hf]; eauto.
  - destruct H as (ψ & Hst & Hk & Hstep). exists ψ. split_and!; eauto.
  - destruct H as (ψ & Hst & Hk & Hstep). exists ψ. split_and!; eauto.
Qed.

Definition task_ok (s : state) (t : string * prog unit) : Prop :=
  ∃ φ, stable t.1 φ ∧ φ s ∧ ok t.1 t.2 φ (λ _ _, True).

Record world_ok (w : world) : Prop := {
  world_inv : Inv (st w);
  world_tags : NoDup (tasks w).*1;
  world_calls : (calls (st w)).*1 ⊆ (tasks w).*1;
  world_tasks : ∀ t, t ∈ tasks w → task_ok (st w) t
}.

Lemma task_step_ok tag p s p' s' :
  task_step tag p s p' s' → Inv s → task_ok s (tag, p) →
  Inv s' ∧ (s' = s ∨ moves tag s s') ∧ task_ok s' (tag, p').
Proof.
  intros Hstep HI (φ & Hst & Hφ & Hok). unfold task_ok. simpl in *.
  destruct Hstep; simpl in Hok.
  - destruct Hok as (ψ & Hψ & Hk & Hs). destruct (Hs s now o db') as (?&?&?); [done..|].
    split_and!; eauto.
  - split_and!; eauto.
  - destruct Hok as (ψ & Hψ & Hk & Hs). destruct (Hs s) as (?&?&?); [done..|].
    split_and!; eauto.
  - split_and!; eauto.
Qed.

Lemma task_step_calls tag p s p' s' :
  task_step tag p s p' s' → (calls s').*1 ⊆ tag :: (calls s).*1.
Proof. destruct 1; simpl; rewrite ?fmap_app; simpl; set_solver. Qed.

(** What makes a class of clients safe: each may start in any state of the
    invariant, as long as its identity is new. *)
Definition clients_ok : Prop :=
  ∀ tag p, client tag p →
    ∃ φ, stable tag φ ∧ (∀ s, Inv s → tag ∉ (calls s).*1 → φ s) ∧ ok tag p φ (λ _ _, True).

Lemma world_step_ok w w' : clients_ok → world_ok w → world_step w w' → world_ok w'.
Proof.
  intros Hclient [HI Hnd Hsub Hts] Hstep.
  destruct Hstep as [s ts tag p Hc Hfresh|s ts1 ts2 tag p p' s' Hstep];
    cbn [st tasks] in *.
  - split; cbn [st tasks]; [done| | |].
    + rewrite fmap_app. apply NoDup_app. split_and!; [done| |apply NoDup_singleton].
      intros x Hx Hx'. apply list_elem_of_singleton in Hx'. by subst.
    + rewrite fmap_app. set_solver.
    + intros t Ht. apply elem_of_app in Ht as [Ht|Ht]; [by apply Hts|].
      apply list_elem_of_singleton in Ht as ->.
      destruct (Hclient _ _ Hc) as (φ & ? & Hφ & ?). exists φ. split_and!; [done| |done].
      apply Hφ; [done|]. intros Hin. by apply Hfresh, Hsub.
  - destruct (task_step_ok _ _ _ _ _ Hstep HI) as (HI' & Hmv & Hnew); [apply Hts; set_solver|].
    pose proof (task_step_calls _ _ _ _ _ Hstep) as Hcalls.
    rewrite fmap_app, fmap_cons in Hnd, Hsub. cbn in Hnd, Hsub.
    split; cbn [st tasks]; rewrite ?fmap_app, ?fmap_cons; cbn; [done|done|set_solver|].
    apply NoDup_app in Hnd as (_ & Hd & Hnd2). apply NoDup_cons in Hnd2 as [Hn2 _].
    assert (Hframe : ∀ t, t.1 ≠ tag → task_ok s t → task_ok s' t).
    { intros t Hne (φ' & ? & ? & ?). exists φ'. split_and!; [done| |done].
      destruct Hmv as [->|Hmv]; [done|]. eauto. }
    intros t Ht. apply elem_of_app in Ht as [Ht|Ht]; [|apply elem_of_cons in Ht as [->|Ht]].
    + apply Hframe; [|apply Hts; set_solver]. intros Heq. apply (Hd t.1); [|rewrite Heq; left].
      by apply list_elem_of_fmap_2.
    + done.
    + apply Hframe; [|apply Hts; set_solver]. intros Heq. apply Hn2. rewrite <- Heq.
      by apply list_elem_of_fmap_2.
Qed.

(** Soundness: programs judged [ok] keep the invariant under every
    interleaving and every choice of failures. *)
Lemma reachable_ok w w' : clients_ok → world_ok w → reachable w w' → world_ok w'.
Proof. intros Hc Hw Hr. induction Hr; [done|]. eauto using world_step_ok. Qed.

(** ** Programs whose transactions all respect a relation *)

Definition body_in (R : Db → Db → Prop) {B} (body : Z → Db → tx Db exn B) : Prop :=
  ∀ now db b db', body now db = Commit b db' → R db db'.

Fixpoint txs_in (R : Db → Db → Prop) {A} (p : prog A) : Prop :=
  match p with
  | Ret _ | Throw _ => True
  | Tx body k => body_in R body ∧ ∀ o, txs_in R (k o)
  | Uuid k => ∀ u, txs_in R (k u)
  | Call _ k => ∀ r, txs_in R (k r)
  | IsSet k => ∀ b, txs_in R (k b)
  end.

Lemma txs_in_bind R {A A'} (p : prog A) (f : A → prog A') :
  txs_in R p → (∀ a, txs_in R (f a)) → txs_in R (bind p f).
Proof using Type.
  intros Hp Hf. induction p as [a|e|B body k IH|k IH|c k IH|k IH]; simpl in *; auto.
  destruct Hp as [Hb Hk]. auto.
Qed.

Lemma txs_in_catch R {A} (p : prog A) h :
  txs_in R p → (∀ e, txs_in R (h e)) → txs_in R (catch p h).
Proof using Type.
  intros Hp Hf. induction p as [a|e|B body k IH|k IH|c k IH|k IH]; simpl in *; auto.
  destruct Hp as [Hb Hk]. auto.
Qed.

Lemma txs_in_atomically R {B} (body : Z → Db → tx Db exn B) :
  body_in R body → txs_in R (atomically body).
Proof. intros H. split; [done|]. by intros []. Qed.

Lemma tx_step_in R `{!Reflexive R} {B} (body : Z → Db → tx Db exn B) now db o db' :
  body_in R body → tx_step body now db o db' → R db db'.
Proof using Type. intros Hb Hs. destruct Hs; by eauto. Qed.

Lemma task_step_in R `{!Reflexive R} tag p s p' s' :
  task_step tag p s p' s' → txs_in R p →
  txs_in R p' ∧ R (cur s) (cur s') ∧ (states s' = states s ∨ states s' = cur s' :: states s).
Proof using Type.
  intros Hs Hp. destruct Hs as [B body k now s o db' Ht|k u s|c k r s|k b s]; simpl in *.
  - destruct Hp as [Hb Hk]. split_and!; [done|by eapply tx_step_in|by right].
  - by split_and!; [| |left].
  - by split_and!; [| |left].
  - by split_and!; [| |left].
Qed.

(** Whatever the interleaving and the failures, every state the database was
    in is related to the current one. *)
Lemma reachable_in R `{!PreOrder R} w w' :
  (∀ tag p, client tag p → txs_in R p) → reachable w w' →
  (∀ t, t ∈ tasks w → txs_in R t.2) →
  R (cur (st w)) (cur (st w')) ∧
  ∀ d, d ∈ states (st w') → d ∈ states (st w) ∨ R d (cur (st w')) ∧ R (cur (st w)) d.
Proof using Type.
  intros Hc Hr. induction Hr as [w|w w1 w2 Hstep Hr IH]; intros Hts.
  { split; [done|]. intros d Hd. by left. }
  assert ((∀ t, t ∈ tasks w1 → txs_in R t.2) ∧ R (cur (st w)) (cur (st w1)) ∧
          (states (st w1) = states (st w) ∨
           states (st w1) = cur (st w1) :: states (st w))) as (Hts1 & HR & Hst).
  { destruct Hstep as [s ts tag p Hcl|s ts1 ts2 tag p p' s' Hstep]; simpl in *.
    - split_and!; [|done|by left]. intros t [Ht| ->%list_elem_of_singleton]%elem_of_app; eauto.
    - destruct (task_step_in R _ _ _ _ _ Hstep) as (Hp' & HR & Hst).
      { apply (Hts (tag, p)), elem_of_app. right. left. }
      split_and!; [|done|done].
      intros t [Ht|[->|Ht]%elem_of_cons]%elem_of_app; [|done|]; apply Hts, elem_of_app;
        [by left|by right; right]. }
  destruct (IH Hts1) as [HR1 Hall]. split; [by etrans|].
  intros d Hd. destruct (Hall d Hd) as [Hin|[? ?]]; [|right; split; [done|by etrans]].
  destruct Hst as [E|E]; rewrite E in Hin; [by left|].
  apply elem_of_cons in Hin as [->|Hin]; [right|by left]. by split.
Qed.
End prog.

Arguments prog C V A : clear implicits.
Arguments Ret {C V A} a.
Arguments Throw {C V A} e.
Arguments Tx {C V A B} body k.
Arguments Uuid {C V A} k.
Arguments Call {C V A} c k.
Arguments IsSet {C V A} k.
Arguments state C : clear implicits.
Arguments world C V : clear implicits.

Declare Scope prog_scope.
Delimit Scope prog_scope with prog.
Notation "'let!' x ':=' p 'in' k" := (bind p (λ x, k))
  (at level 10, x pattern, k at level 200) : prog_scope.
Notation "'try' p 'except' h" := (catch p h)
  (at level 10, p at level 200, h at level 200) : prog_scope.
#[global] Open Scope prog_scope.

(** ** Running one program alone *)

Inductive fault :=
| NoFault
| Interrupted (e : exn)
| CommitLost (e : exn)
| CommitUnacknowledged (e : exn).

Definition run_body {B} (f : fault) (t : tx Db exn B) (db : Db) : tx_out B * Db :=
  match f, t with
  | Interrupted e, _ => (Raised e, db)
  | CommitLost e, Commit _ _ => (CommitFailed e, db)
  | CommitUnacknowledged e, Commit _ db' => (CommitFailed e, db')
  | _, Commit b db' => (Returned b, db')
  | _, Rollback b => (Returned b, db)
  | _, Raise e => (Raised e, db)
  end.

(** The machine a single program runs on: the database, the calls made, the
    faults and identifiers still to come; past their end there are no faults
    and identifiers are empty. *)
Record machine (C : Type) := mkMachine {
  m_db : Db;
  m_calls : list C;
  m_faults : list fault;
  m_ids : list string
}.
Arguments mkMachine {C} _ _ _ _.
Arguments m_db {C} _.
Arguments m_calls {C} _.
Arguments m_faults {C} _.
Arguments m_ids {C} _.

Fixpoint run {C V A} (now : Z) (answer : C → result exn V) (lost : bool)
    (p : prog C V A) (m : machine C) : result exn A * machine C :=
  match p with
  | Ret a => (Ok a, m)
  | Throw e => (Err e, m)
  | Tx body k =>
      let '(o, db') := run_body (hd NoFault (m_faults m)) (body now (m_db m)) (m_db m) in
      run now answer lost (k o) (mkMachine db' (m_calls m) (tl (m_faults m)) (m_ids m))
  | Uuid k =>
      run now answer lost (k (hd "" (m_ids m)))
        (mkMachine (m_db m) (m_calls m) (m_faults m) (tl (m_ids m)))
  | Call c k =>
      run now answer lost (k (answer c))
        (mkMachine (m_db m) (m_calls m ++ [c]) (m_faults m) (m_ids m))
  | IsSet k => run now answer lost (k lost) m
  end.

Lemma run_bind {C V A A'} now answer lost (p : prog C V A) (f : A → prog C V A') : ∀ m,
  run now answer lost (bind p f) m =
  match run now answer lost p m with
  | (Ok a, m') => run now answer lost (f a) m'
  | (Err e, m') => (Err e, m')
  end.
Proof.
  induction p as [a|e|B body k IH|k IH|c k IH|k IH]; simpl; intros m; try done.
  destruct (run_body _ _ _) as [o db']. apply IH.
Qed.

Lemma run_catch {C V A} now answer lost (p : prog C V A) h : ∀ m,
  run now answer lost (catch p h) m =
  match run now answer lost p m with
  | (Ok a, m') => (Ok a, m')
  | (Err e, m') => run now answer lost (h e) m'
  end.
Proof.
  induction p as [a|e|B body k IH|k IH|c k IH|k IH]; simpl; intros m; try done.
  destruct (run_body _ _ _) as [o db']. apply IH.
Qed.

Lemma run_atomically {C V B} now answer lost (body : Z → Db → tx Db exn B) m :
  m_faults m = [] →
  run now answer lost (atomically body : prog C V B) m =
  match body now (m_db m) with
  | Commit b db' => (Ok b, mkMachine db' (m_calls m) [] (m_ids m))
  | Rollback b => (Ok b, mkMachine (m_db m) (m_calls m) [] (m_ids m))
  | Raise e => (Err e, mkMachine (m_db m) (m_calls m) [] (m_ids m))
  end.
Proof. intros Hf. simpl. rewrite Hf. simpl. by destruct (body now (m_db m)). Qed.

(** A run alone is one execution of the world. *)
Definition fault_ok (f : fault) : bool :=
  match f with
  | NoFault => true
  | Interrupted e | CommitLost e | CommitUnacknowledged e => transient e
  end.

Lemma run_body_step {B} f (body : Z → Db → tx Db exn B) now db :
  fault_ok f = true →
  tx_step body now db (run_body f (body now db) db).1 (run_body f (body now db) db).2.
Proof.
  intros Hf. destruct (body now db) as [b db'|b|e] eqn:E, f as [|x|x|x]; simpl in *.
  - by apply tx_commit.
  - by apply tx_interrupted.
  - by apply (tx_commit_lost _ _ _ b db').
  - by apply (tx_commit_unacknowledged _ _ _ b db').
  - by apply tx_rollback.
  - by apply tx_interrupted.
  - by apply tx_rollback.
  - by apply tx_rollback.
  - by apply tx_raise.
  - by apply tx_interrupted.
  - by apply tx_raise.
  - by apply tx_raise.
Qed.

Lemma run_steps {C V} (client : string → prog C V unit → Prop) now answer lost tag
    (p : prog C V unit) : ∀ m s, Forall (λ f, fault_ok f = true) (m_faults m) → cur s = m_db m →
  ∃ s' p' new, rtc (world_step client) (mkWorld s [(tag, p)]) (mkWorld s' [(tag, p')]) ∧
    cur s' = m_db (run now answer lost p m).2 ∧
    m_calls (run now answer lost p m).2 = m_calls m ++ new ∧
    calls s' = calls s ++ ((tag,.) <$> new).
Proof.
  assert (Hone : ∀ s p1 s1 p2, task_step tag p1 s p2 s1 →
    world_step client (mkWorld s [(tag, p1)]) (mkWorld s1 [(tag, p2)])).
  { intros s p1 s1 p2 Ht. exact (world_task client s [] [] tag p1 p2 s1 Ht). }
  induction p as [a|e|B body k IH|k IH|c k IH|k IH]; simpl; intros m s Hf Hs.
  - exists s, (Ret a), []. rewrite fmap_nil, !app_nil_r. split_and!; [reflexivity|done..].
  - exists s, (Throw e), []. rewrite fmap_nil, !app_nil_r. split_and!; [reflexivity|done..].
  - pose proof (run_body_step (hd NoFault (m_faults m)) body now (m_db m)) as Hb.
    destruct (run_body _ _ _) as [o db'].
    destruct (IH o (mkMachine db' (m_calls m) (tl (m_faults m)) (m_ids m)) (commit_state s db'))
      as (s' & p' & new & Hr & Hc & Hm & Hl); [by destruct Hf|done|].
    exists s', p', new. split_and!; [|done|done|done].
    eapply rtc_l; [|exact Hr]. apply Hone. apply (step_tx _ _ _ _ now). rewrite Hs.
    apply Hb. by destruct Hf.
  - destruct (IH (hd "" (m_ids m)) (mkMachine (m_db m) (m_calls m) (m_faults m) (tl (m_ids m))) s)
      as (s' & p' & new & Hr & Hc & Hm & Hl); [done|done|].
    exists s', p', new. split_and!; [|done|done|done]. eapply rtc_l; [|exact Hr]. apply Hone, step_uuid.
  - destruct (IH (answer c) (mkMachine (m_db m) (m_calls m ++ [c]) (m_faults m) (m_ids m))
      (log_call s tag c)) as (s' & p' & new & Hr & Hc & Hm & Hl); [done|done|].
    exists s', p', (c :: new). split_and!; [|done| |].
    + eapply rtc_l; [|exact Hr]. apply Hone, step_call.
    + rewrite Hm. simpl. by rewrite <- app_assoc.
    + rewrite Hl. simpl. by rewrite <- app_assoc.
  - destruct (IH lost m s) as (s' & p' & new & Hr & Hc & Hm & Hl); [done|done|].
    exists s', p', new. split_and!; [|done|done|done]. eapply rtc_l; [|exact Hr].
    apply Hone, step_is_set.
Qed.
