(* ===== verification/HarnessLedger.v ===== *)
(** * [core/services/harness_ledger.py] and [core/harness/usage.py]

    The append-only logs of physical attempts and lifecycle events, and the
    in-memory recorder; both recorders meet the interface [UsageRecorder]. *)

From S2P Require Import Prelude Db.

Module HarnessLedger.

Record AttemptUsage := mkUsage {
  u_prompt : Z;
  u_completion : Z;
  u_cache_read : Z;
  u_cache_write : Z
}.
Definition no_usage : AttemptUsage := mkUsage 0 0 0 0.
Definition total_tokens (u : AttemptUsage) : Z := u_prompt u + u_completion u.

Record UsageAttempt := mkAttempt {
  ua_run_id : string;
  ua_kind : string;
  ua_operation_name : string;
  ua_status : string;
  ua_latency_ms : Z;
  ua_provider : string;
  ua_model : string;
  ua_effect_id : string;
  ua_retry_of : option Z;
  ua_usage : AttemptUsage;
  ua_metadata : dict;
  ua_attempt_seq : option Z
}.
#[global] Instance eta_attempt : Eta UsageAttempt := λ a,
  mkAttempt (ua_run_id a) (ua_kind a) (ua_operation_name a) (ua_status a) (ua_latency_ms a)
    (ua_provider a) (ua_model a) (ua_effect_id a) (ua_retry_of a) (ua_usage a)
    (ua_metadata a) (ua_attempt_seq a).

Definition str_in (s : string) (l : list string) : bool := bool_decide (s ∈ l).

Definition _validate (a : UsageAttempt) : result exn unit :=
  if bool_decide (ua_run_id a = "") then Err (ValueError "run_id is required")
  else if negb (str_in (ua_kind a) ["model"; "tool"; "hook"])
  then Err (ValueError "invalid attempt kind")
  else if negb (str_in (ua_status a) ["success"; "failed"; "timeout"; "cancelled"])
  then Err (ValueError "invalid attempt status")
  else Ok tt.

(** [_insert_cursor_if_missing] then the incrementing [UPDATE ... RETURNING]:
    the cursor's foreign key needs the run. *)
Definition _reserve (db : Db) (cursors : gmap string Z) (run_id : string)
    : result exn (Z * gmap string Z) :=
  if is_null (chat_runs db !! run_id) then Err IntegrityError else
  let value := default 0 (cursors !! run_id) + 1 in
  Ok (value, <[run_id := value]> cursors).

Definition same_attempt_seq (r : string) (seq : Z) (o : HarnessUsageAttempt.t) : bool :=
  bool_decide (HarnessUsageAttempt.run_id o = r) && (HarnessUsageAttempt.attempt_seq o =? seq).

(** The last failed attempt of the same effect. *)
Definition previous_failure (db : Db) (a : UsageAttempt) : option Z :=
  max_opt (HarnessUsageAttempt.attempt_seq <$>
    List.filter (λ o,
      bool_decide (HarnessUsageAttempt.run_id o = ua_run_id a)
      && bool_decide (HarnessUsageAttempt.kind o = ua_kind a)
      && bool_decide (HarnessUsageAttempt.operation_name o = ua_operation_name a)
      && str_in (HarnessUsageAttempt.status o) ["failed"; "timeout"]
      && sql_eq (HarnessUsageAttempt.effect_id o) (ua_effect_id a))
      (harness_usage_attempts db)).

Definition resolved_retry (db : Db) (a : UsageAttempt) : option Z :=
  match ua_retry_of a with
  | Some r => Some r
  | None =>
      if bool_decide (ua_kind a = "tool") && negb (bool_decide (ua_effect_id a = ""))
      then previous_failure db a else None
  end.

Definition attempt_row (now seq : Z) (retry_of : option Z) (a : UsageAttempt)
    : HarnessUsageAttempt.t :=
  let u := ua_usage a in
  HarnessUsageAttempt.mk (ua_run_id a) seq (ua_kind a) (ua_operation_name a) (ua_provider a)
    (ua_model a)
    (if bool_decide (ua_effect_id a = "") then None else Some (ua_effect_id a))
    (Z.max 0 (u_prompt u)) (Z.max 0 (u_completion u)) (Z.max 0 (u_cache_read u))
    (Z.max 0 (u_cache_write u)) (Z.max 0 (ua_latency_ms a)) (ua_status a) retry_of
    (ua_metadata a) now.

Definition record_attempt (a : UsageAttempt) (now : Z) (db : Db) : tx Db exn UsageAttempt :=
  let? _ := _validate a in
  let? (seq, cursors) := _reserve db (harness_usage_cursors db) (ua_run_id a) in
  let retry_of := resolved_retry db a in
  if existsb (same_attempt_seq (ua_run_id a) seq) (harness_usage_attempts db)
  then Raise IntegrityError
  else
    Commit (a <| ua_attempt_seq := Some seq |> <| ua_retry_of := retry_of |>)
      (db <| harness_usage_cursors := cursors |>
          <| harness_usage_attempts :=
               harness_usage_attempts db ++ [attempt_row now seq retry_of a] |>).

Definition attempt_of_row (o : HarnessUsageAttempt.t) : UsageAttempt :=
  mkAttempt (HarnessUsageAttempt.run_id o) (HarnessUsageAttempt.kind o)
    (HarnessUsageAttempt.operation_name o) (HarnessUsageAttempt.status o)
    (HarnessUsageAttempt.latency_ms o) (HarnessUsageAttempt.provider o)
    (HarnessUsageAttempt.model o) (default "" (HarnessUsageAttempt.effect_id o))
    (HarnessUsageAttempt.retry_of o)
    (mkUsage (HarnessUsageAttempt.prompt_tokens o) (HarnessUsageAttempt.completion_tokens o)
       (HarnessUsageAttempt.cache_read_tokens o) (HarnessUsageAttempt.cache_write_tokens o))
    (HarnessUsageAttempt.attempt_metadata o) (Some (HarnessUsageAttempt.attempt_seq o)).

Definition seq_leb (a b : HarnessUsageAttempt.t) : bool :=
  HarnessUsageAttempt.attempt_seq a <=? HarnessUsageAttempt.attempt_seq b.

Definition run_attempts (db : Db) (run_id : string) : list HarnessUsageAttempt.t :=
  List.filter (λ o, bool_decide (HarnessUsageAttempt.run_id o = run_id))
    (harness_usage_attempts db).

Definition attempts (db : Db) (run_id : string) : list UsageAttempt :=
  attempt_of_row <$> order_by seq_leb (run_attempts db run_id).

Record Aggregate := mkAggregate {
  ag_attempt_count : Z;
  ag_failed_attempts : Z;
  ag_model : Z;
  ag_tool : Z;
  ag_hook : Z;
  ag_prompt_tokens : Z;
  ag_completion_tokens : Z;
  ag_cache_read_tokens : Z;
  ag_cache_write_tokens : Z;
  ag_total_tokens : Z;
  ag_latency_ms : Z
}.

Definition sum (l : list Z) : Z := foldr Z.add 0 l.
Definition count_where {A} (p : A → bool) (l : list A) : Z := Z.of_nat (length (List.filter p l)).

Definition aggregate_rows (rows : list UsageAttempt) : Aggregate :=
  mkAggregate (Z.of_nat (length rows))
    (count_where (λ r, negb (bool_decide (ua_status r = "success"))) rows)
    (count_where (λ r, bool_decide (ua_kind r = "model")) rows)
    (count_where (λ r, bool_decide (ua_kind r = "tool")) rows)
    (count_where (λ r, bool_decide (ua_kind r = "hook")) rows)
    (sum ((u_prompt ∘ ua_usage) <$> rows)) (sum ((u_completion ∘ ua_usage) <$> rows))
    (sum ((u_cache_read ∘ ua_usage) <$> rows)) (sum ((u_cache_write ∘ ua_usage) <$> rows))
    (sum ((total_tokens ∘ ua_usage) <$> rows)) (sum (ua_latency_ms <$> rows)).

Definition aggregate (db : Db) (run_id : string) : Aggregate := aggregate_rows (attempts db run_id).

(** ** Events *)

Record Event := mkEvent {
  ev_run_id : string;
  ev_event_type : string;
  ev_phase : string;
  ev_payload : dict;
  ev_created_at : Z;
  ev_event_seq : option Z
}.

Definition same_event_seq (r : string) (seq : Z) (o : HarnessEventLog.t) : bool :=
  bool_decide (HarnessEventLog.run_id o = r) && (HarnessEventLog.event_seq o =? seq).

Definition store_event (e : Event) (now : Z) (db : Db) : tx Db exn Event :=
  if bool_decide (ev_run_id e = "") then Rollback e else
  let? (seq, cursors) := _reserve db (harness_event_cursors db) (ev_run_id e) in
  if existsb (same_event_seq (ev_run_id e) seq) (harness_event_log db)
  then Raise IntegrityError
  else
    Commit (mkEvent (ev_run_id e) (ev_event_type e) (ev_phase e) (ev_payload e)
              (ev_created_at e) (Some seq))
      (db <| harness_event_cursors := cursors |>
          <| harness_event_log :=
               harness_event_log db ++
               [HarnessEventLog.mk (ev_run_id e) seq (ev_event_type e) (ev_phase e)
                  (ev_payload e) (ev_created_at e)] |>).

(** ** The in-memory recorder *)

Abbreviation MemoryRecorder := (gmap string (list UsageAttempt)).

Definition memory_record_attempt (a : UsageAttempt) (rows : MemoryRecorder)
    : UsageAttempt * MemoryRecorder :=
  let old := default [] (rows !! ua_run_id a) in
  let recorded := a <| ua_attempt_seq := Some (Z.of_nat (length old) + 1) |> in
  (recorded, <[ua_run_id a := old ++ [recorded]]> rows).

Definition memory_attempts (rows : MemoryRecorder) (run_id : string) : list UsageAttempt :=
  default [] (rows !! run_id).

Record MemoryAggregate := mkMemoryAggregate {
  ma_attempt_count : Z;
  ma_failed_attempts : Z;
  ma_prompt_tokens : Z;
  ma_completion_tokens : Z;
  ma_cache_read_tokens : Z;
  ma_cache_write_tokens : Z;
  ma_total_tokens : Z
}.

Definition memory_aggregate (rows : MemoryRecorder) (run_id : string) : MemoryAggregate :=
  let rows := memory_attempts rows run_id in
  mkMemoryAggregate (Z.of_nat (length rows))
    (count_where (λ r, negb (bool_decide (ua_status r = "success"))) rows)
    (sum ((u_prompt ∘ ua_usage) <$> rows)) (sum ((u_completion ∘ ua_usage) <$> rows))
    (sum ((u_cache_read ∘ ua_usage) <$> rows)) (sum ((u_cache_write ∘ ua_usage) <$> rows))
    (sum ((total_tokens ∘ ua_usage) <$> rows)).
End HarnessLedger.
