(* ===== verification/ToolEffectJournal.v ===== *)
(** * [core/services/tool_effect_ledger.py]: the journal of tool effects

    The transactions of [ToolEffectJournal].  Each [with self._sessions() as
    db:] block is one function from the clock reading and the database to a
    [tx]; methods made of several blocks are programs that compose them. *)

From S2P Require Import Prelude Db RunJournal PyString ToolPolicies Program.
From Stdlib Require Import String.

Module ToolEffectJournal.
Import ToolPolicies.

(** ** Data *)

Record ToolIntent := mkIntent {
  in_effect_id : string;
  in_result_id : string;
  in_run_id : string;
  in_operation_seq : Z;
  in_tool_name : string;
  in_tool_call_id : string;
  in_args_hash : string;
  in_redacted_args : dict;
  in_idempotency_key : string;
  in_recovery_policy : RecoveryPolicy;
  in_created_at : Z
}.

Inductive IntentAction := AExecute | AReconcile | AWait | AKnown | AUnknown.
#[export] Instance IntentAction_eq_dec : EqDecision IntentAction.
Proof. solve_decision. Defined.

Inductive ResultState := Success | Error | StateUnknown.

Record IntentDecision := mkIntentDecision {
  id_action : IntentAction;
  id_intent : ToolIntent;
  id_result : json;
  id_state : ResultState
}.
Definition decide_only (a : IntentAction) (i : ToolIntent) : IntentDecision :=
  mkIntentDecision a i JNull Success.

Definition str_opt (s : option string) : string := default "" s.

Definition _intent_from_row (row : ToolEffectLedger.t) : ToolIntent :=
  mkIntent (ToolEffectLedger.effect_id row) (ToolEffectLedger.result_id row)
    (ToolEffectLedger.run_id row) (ToolEffectLedger.operation_seq row)
    (ToolEffectLedger.tool_name row) (str_opt (ToolEffectLedger.tool_call_id row))
    (ToolEffectLedger.args_hash row) (ToolEffectLedger.redacted_args row)
    (str_opt (ToolEffectLedger.idempotency_key row)) (ToolEffectLedger.recovery_policy row)
    (ToolEffectLedger.created_at row).

(** ** Queries *)

(** [terminal_effect_id] is unique: [one_or_none] cannot raise. *)
Definition _terminal_row (db : Db) (effect_id : string) : option ToolEffectLedger.t :=
  List.find (λ r, sql_eq (ToolEffectLedger.terminal_effect_id r) effect_id)
    (tool_effect_ledger db).

(** [idempotency_key] is unique too. *)
Definition intent_by_key (db : Db) (key : string) : option ToolEffectLedger.t :=
  List.find (λ r, sql_eq (ToolEffectLedger.idempotency_key r) key) (tool_effect_ledger db).

Definition is_intent_of (effect_id : string) (r : ToolEffectLedger.t) : bool :=
  bool_decide (ToolEffectLedger.effect_id r = effect_id)
  && bool_decide (ToolEffectLedger.event_type r = Intent).

Definition intent_rows (db : Db) (effect_id : string) : list ToolEffectLedger.t :=
  List.filter (is_intent_of effect_id) (tool_effect_ledger db).

Definition one_lease (db : Db) (effect_id : string) : result exn ToolEffectLease.t :=
  match tool_effect_leases db !! effect_id with
  | Some l => Ok l
  | None => Err NoResultFound
  end.

Definition _decision_from_terminal (intent : ToolIntent) (terminal : ToolEffectLedger.t)
    : IntentDecision :=
  match ToolEffectLedger.event_type terminal with
  | UnknownOutcome => mkIntentDecision AUnknown intent JNull StateUnknown
  | Result => mkIntentDecision AKnown intent (ToolEffectLedger.result_payload terminal) Success
  | _ => mkIntentDecision AKnown intent (ToolEffectLedger.result_payload terminal) Error
  end.

Definition _validate_identity (row : ToolEffectLedger.t) (tool_name args_hash : string)
    : result exn unit :=
  if bool_decide (ToolEffectLedger.tool_name row ≠ tool_name)
     || bool_decide (ToolEffectLedger.args_hash row ≠ args_hash)
  then Err (ToolIdempotencyConflict
              "idempotency_key already belongs to different tool arguments")
  else Ok tt.

(** ** Appending facts *)

Definition _append_event (now : Z) (db : Db) (run : ChatRun.t) (intent : ToolEffectLedger.t)
    (owner : string) (event_type : EventType) (operation_type phase safety : string)
    (result : json) (error : option string) (terminal : bool)
    : Prelude.result exn (ChatRun.t * Db) :=
  match RunJournal._append_locked now db run owner operation_type phase safety
          (Some [("effect_id", JStr (ToolEffectLedger.effect_id intent));
                 ("result_id", JStr (ToolEffectLedger.result_id intent))]) None with
  | Err e => Err e
  | Ok (receipt, run', db1) =>
      match insert_ledger db1
        (ToolEffectLedger.mk (ToolEffectLedger.effect_id intent)
           (ToolEffectLedger.result_id intent) (ToolEffectLedger.run_id intent)
           (RunJournal.rcpt_operation_seq receipt) event_type
           (ToolEffectLedger.tool_name intent) (ToolEffectLedger.tool_call_id intent)
           (ToolEffectLedger.args_hash intent) (ToolEffectLedger.redacted_args intent)
           None (ToolEffectLedger.recovery_policy intent) result error
           (if terminal then Some (ToolEffectLedger.effect_id intent) else None) now) with
      | Err e => Err e
      | Ok db2 => Ok (run', db2)
      end
  end.

Definition clear_claim (now : Z) (lease : ToolEffectLease.t) : ToolEffectLease.t :=
  lease <| ToolEffectLease.claim_owner := None |>
        <| ToolEffectLease.lease_expires_at := None |>
        <| ToolEffectLease.updated_at := now |>.

Definition _mark_unknown_locked (now : Z) (db : Db) (run : ChatRun.t)
    (intent : ToolEffectLedger.t) (lease : ToolEffectLease.t)
    (owner claim_owner reason : string) : result exn Db :=
  let e := ToolEffectLedger.effect_id intent in
  if negb (is_null (_terminal_row db e)) then Ok db
  else if bool_decide (ToolEffectLease.run_owner lease ≠ owner)
          || bool_decide (ToolEffectLease.claim_owner lease ≠ Some claim_owner)
  then Err (ToolEffectLeaseLost e)
  else
    match _append_event now db run intent owner UnknownOutcome "tool_outcome_unknown"
            "needs_attention" "manual_review" JNull (Some reason) true with
    | Err ex => Err ex
    | Ok (run', db1) =>
        Ok (put_lease
              (put_run db1
                 (run' <| ChatRun.status := NeedsAttention |>
                       <| ChatRun.failure_reason := Some reason |>
                       <| ChatRun.lease_owner := None |>
                       <| ChatRun.lease_expires_at := None |>
                       <| ChatRun.updated_at := now |>))
              (clear_claim now lease))
    end.

(** ** Existing intents *)

Definition replay_action (p : RecoveryPolicy) : IntentAction :=
  match p with Reconcile => AReconcile | _ => AExecute end.

Definition lease_deadline (now lease_seconds : Z) : Z :=
  now + seconds (Z.max 1 lease_seconds).

(** The caller's run holds its lease. *)
Definition caller_owns (now : Z) (run : ChatRun.t) (run_owner : string) : bool :=
  is_live (ChatRun.status run) && sql_eq (ChatRun.lease_owner run) run_owner
  && sql_gt (ChatRun.lease_expires_at run) now.

(** The takeover of an expired claim, after the [UPDATE] matched; the row is
    locked, so its guard on the previous values holds. *)
Definition take_over (now : Z) (db : Db) (run : ChatRun.t) (row : ToolEffectLedger.t)
    (lease : ToolEffectLease.t) (run_owner claim_owner : string) (lease_seconds : Z)
    : tx Db exn IntentDecision :=
  let intent := _intent_from_row row in
  let policy := ToolEffectLedger.recovery_policy row in
  let lease' := lease <| ToolEffectLease.run_owner := run_owner |>
                      <| ToolEffectLease.claim_owner := Some claim_owner |>
                      <| ToolEffectLease.lease_expires_at :=
                           Some (lease_deadline now lease_seconds) |>
                      <| ToolEffectLease.updated_at := now |> in
  let? (run1, db2) :=
    _append_event now (put_lease db lease') run row run_owner RecoveryClaim
      "tool_effect_recovery_claimed" ("tool_intent_" +:+ policy_str policy)
      (policy_str policy) JNull None false in
  match policy with
  | NeverReplay =>
      let? db3 := _mark_unknown_locked now db2 run1 row lease' run_owner claim_owner
                    "non-replayable tool intent has no committed result" in
      Commit (decide_only AUnknown intent) db3
  | _ => Commit (decide_only (replay_action policy) intent) db2
  end.

Definition _existing_decision (key caller_run_id run_owner claim_owner tool_name args_hash : string)
    (lease_seconds now : Z) (db : Db) : tx Db exn IntentDecision :=
  need? intent_row := intent_by_key db key else NoResultFound in
  let? _ := _validate_identity intent_row tool_name args_hash in
  let intent := _intent_from_row intent_row in
  let effect_id := in_effect_id intent in
  match chat_runs db !! caller_run_id, chat_runs db !! in_run_id intent with
  | Some caller_run, Some original_run =>
      if bool_decide (ChatRun.user_id original_run ≠ ChatRun.user_id caller_run)
      then Raise (ToolIdempotencyConflict "idempotency_key belongs to a different principal")
      else
      let terminal := _terminal_row db effect_id in
      match terminal, bool_decide (caller_run_id = in_run_id intent) with
      | Some t, true => Rollback (_decision_from_terminal intent t)
      | _, _ =>
        if negb (caller_owns now caller_run run_owner)
        then Raise (ToolIntentCommitError "run lease is not owned")
        else
        match terminal with
        | Some t => Rollback (_decision_from_terminal intent t)
        | None =>
          if bool_decide (in_run_id intent ≠ caller_run_id)
          then Rollback (decide_only AWait intent)
          else
            let? lease := one_lease db effect_id in
            let? run := RunJournal._locked_owned_run now db caller_run_id run_owner in
            if bool_decide (ToolEffectLease.run_owner lease = run_owner)
               && sql_gt (ToolEffectLease.lease_expires_at lease) now
            then
              if bool_decide (ToolEffectLease.claim_owner lease = Some claim_owner)
              then Rollback (decide_only (replay_action (in_recovery_policy intent)) intent)
              else Rollback (decide_only AWait intent)
            else if is_null (ToolEffectLease.lease_expires_at lease)
                    || sql_le (ToolEffectLease.lease_expires_at lease) now
            then take_over now db run intent_row lease run_owner claim_owner lease_seconds
            else Rollback (decide_only AWait intent)
        end
      end
  | _, _ => Raise (ToolIntentCommitError "run does not exist")
  end.

Section host.
Context `{Host}.

(** ** Intents *)

Definition caller_principal (run_id : string) (now : Z) (db : Db) : tx Db exn string :=
  match chat_runs db !! run_id with
  | None => Raise (ToolIntentCommitError "run does not exist")
  | Some row => Rollback (ChatRun.user_id row)
  end.

Definition key_exists (key : string) (now : Z) (db : Db) : tx Db exn bool :=
  Rollback (negb (is_null (intent_by_key db key))).

(** The block that commits a new intent; [None] when the key appeared. *)
Definition create_intent (run_id owner claim_owner tool_call_id tool_name args_hash : string)
    (redacted : dict) (recovery_policy : RecoveryPolicy) (key effect_id result_id : string)
    (lease_seconds now : Z) (db : Db) : tx Db exn (option IntentDecision) :=
  let? run := RunJournal._locked_owned_run now db run_id owner in
  if negb (is_null (intent_by_key db key)) then Rollback None else
  let? (receipt, run', db1) :=
    RunJournal._append_locked now db run owner "tool_intent_committed"
      ("tool_intent_" +:+ policy_str recovery_policy) (policy_str recovery_policy)
      (Some [("effect_id", JStr effect_id); ("result_id", JStr result_id);
             ("tool_name", JStr tool_name); ("tool_call_id", JStr tool_call_id);
             ("args_hash", JStr args_hash)]) None in
  let row := ToolEffectLedger.mk effect_id result_id run_id
               (RunJournal.rcpt_operation_seq receipt) Intent tool_name (Some tool_call_id)
               args_hash redacted (Some key) recovery_policy JNull None None now in
  let? db2 := insert_ledger db1 row in
  let? db3 := insert_lease db2
                (ToolEffectLease.mk effect_id run_id owner (Some claim_owner)
                   (Some (lease_deadline now lease_seconds)) now) in
  Commit (Some (decide_only AExecute (_intent_from_row row)))
    (put_run db3 (run' <| ChatRun.updated_at := now |>)).

(** ** Claims *)

(** [ToolEffectLease.run_id.in_(live_run)]: the run of the lease is live, owned
    by [run_owner] and its lease has not expired. *)
Definition live_run (now : Z) (db : Db) (run_owner run_id : string) : bool :=
  match chat_runs db !! run_id with
  | Some row => caller_owns now row run_owner
  | None => false
  end.

Definition acquire_invocation_claim (effect_id run_owner claim_owner : string)
    (lease_seconds now : Z) (db : Db) : tx Db exn unit :=
  match tool_effect_leases db !! effect_id with
  | Some lease =>
      if bool_decide (ToolEffectLease.run_owner lease = run_owner)
         && sql_eq (ToolEffectLease.claim_owner lease) claim_owner
         && sql_gt (ToolEffectLease.lease_expires_at lease) now
         && live_run now db run_owner (ToolEffectLease.run_id lease)
         && is_null (_terminal_row db effect_id)
      then Commit tt (put_lease db
             (lease <| ToolEffectLease.lease_expires_at :=
                         Some (lease_deadline now lease_seconds) |>
                    <| ToolEffectLease.updated_at := now |>))
      else Raise (ToolEffectLeaseLost effect_id)
  | None => Raise (ToolEffectLeaseLost effect_id)
  end.

Definition _intent_run_id (effect_id : string) (now : Z) (db : Db) : tx Db exn string :=
  let? row := one (intent_rows db effect_id) in
  Rollback (ToolEffectLedger.run_id row).

Definition abandon_invocation_claim (effect_id run_owner claim_owner : string)
    (now : Z) (db : Db) : tx Db exn unit :=
  match tool_effect_leases db !! effect_id with
  | Some lease =>
      if bool_decide (ToolEffectLease.run_owner lease = run_owner)
         && sql_eq (ToolEffectLease.claim_owner lease) claim_owner
      then Commit tt (put_lease db
             (lease <| ToolEffectLease.lease_expires_at := Some now |>
                    <| ToolEffectLease.updated_at := now |>))
      else Commit tt db
  | None => Commit tt db
  end.

(** [RunJournal.renew] as a transaction body. *)
Definition renew_run (run_id owner : string) (lease_seconds now : Z) (db : Db)
    : tx Db exn bool :=
  match RunJournal.renew now run_id owner lease_seconds db with
  | (Ok b, db') => Commit b db'
  | (Err e, _) => Raise e
  end.

(** ** Outcomes *)

Definition committed_value (effect_id : string) (terminal : ToolEffectLedger.t)
    : result exn json :=
  match ToolEffectLedger.event_type terminal with
  | UnknownOutcome => Err (ToolOutcomeUnknown effect_id)
  | _ => Ok (ToolEffectLedger.result_payload terminal)
  end.

Definition _commit_result_locked (now : Z) (db : Db) (intent : ToolEffectLedger.t)
    (lease : ToolEffectLease.t) (owner : string) (value : json) (failed reconciled : bool)
    : result exn (json * Db) :=
  let e := ToolEffectLedger.effect_id intent in
  match _terminal_row db e with
  | Some t =>
      match committed_value e t with Ok v => Ok (v, db) | Err ex => Err ex end
  | None =>
      if bool_decide (ToolEffectLease.run_owner lease ≠ owner)
      then Err (ToolEffectLeaseLost e)
      else
        match RunJournal._locked_owned_run now db (ToolEffectLedger.run_id intent) owner with
        | Err ex => Err ex
        | Ok run =>
            match _append_event now db run intent owner (if failed then Failure else Result)
                    (if failed then "tool_failure_committed" else "tool_result_committed")
                    "tool_result_committed"
                    (if reconciled then "reconciled"
                     else policy_str (ToolEffectLedger.recovery_policy intent))
                    value (if failed then Some (take_str 4000 (to_str value)) else None) true with
            | Err ex => Err ex
            | Ok (run', db1) =>
                Ok (value, put_lease (put_run db1 (run' <| ChatRun.updated_at := now |>))
                             (clear_claim now lease))
            end
        end
  end.

Definition commit_result_body (effect_id run_owner claim_owner : string) (value : json)
    (failed reconciled : bool) (now : Z) (db : Db) : tx Db exn json :=
  let? intent := one (intent_rows db effect_id) in
  match _terminal_row db effect_id with
  | Some t => let? v := committed_value effect_id t in Rollback v
  | None =>
      let? lease := one_lease db effect_id in
      if bool_decide (ToolEffectLease.run_owner lease ≠ run_owner)
         || bool_decide (ToolEffectLease.claim_owner lease ≠ Some claim_owner)
         || negb (sql_gt (ToolEffectLease.lease_expires_at lease) now)
      then Raise (ToolEffectLeaseLost effect_id)
      else
        let? (v, db') :=
          _commit_result_locked now db intent lease run_owner value failed reconciled in
        Commit v db'
  end.

Definition mark_unknown (effect_id owner claim_owner reason : string) (now : Z) (db : Db)
    : tx Db exn unit :=
  let? lease := one_lease db effect_id in
  let? intent := one (intent_rows db effect_id) in
  let? run := RunJournal._locked_owned_run now db (ToolEffectLedger.run_id intent) owner in
  let? db' := _mark_unknown_locked now db run intent lease owner claim_owner reason in
  Commit tt db'.

Definition terminal_decision (effect_id : string) (now : Z) (db : Db)
    : tx Db exn (option IntentDecision) :=
  let? intent := one_or_none (intent_rows db effect_id) in
  Rollback (row ← intent;
            _decision_from_terminal (_intent_from_row row) <$> _terminal_row db effect_id).

(** [ORDER BY created_at, event_id]: the table is in [event_id] order. *)
Definition ledger_leb (a b : ToolEffectLedger.t) : bool :=
  ToolEffectLedger.created_at a <=? ToolEffectLedger.created_at b.

Definition pending_effect_ids (now : Z) (db : Db) : tx Db exn (list string) :=
  Rollback (ToolEffectLedger.effect_id <$>
    order_by ledger_leb
      (List.filter (λ r, bool_decide (ToolEffectLedger.event_type r = Intent)
                         && is_null (_terminal_row db (ToolEffectLedger.effect_id r)))
         (tool_effect_ledger db))).

(** ** Recovery *)

Definition settle_terminal_run_intent (effect_id : string) (now : Z) (db : Db)
    : tx Db exn (option ToolIntent) :=
  let? found := one_or_none (intent_rows db effect_id) in
  match found, _terminal_row db effect_id with
  | Some intent, None =>
      match chat_runs db !! ToolEffectLedger.run_id intent with
      | Some run =>
          if is_live (ChatRun.status run)
             || bool_decide (ChatRun.status run = NeedsAttention)
          then Rollback None
          else
            let? lease := one_lease db effect_id in
            let terminal_status := status_str (ChatRun.status run) in
            let? (run', db1) :=
              _append_event now db run intent "system:terminal-settlement" UnknownOutcome
                "tool_outcome_unknown_after_terminal_run"
                (str_or (ChatRun.run_phase run) terminal_status) "manual_review" JNull
                (Some ("run became " +:+ terminal_status
                         +:+ " before the tool outcome committed")) true in
            Commit (Some (_intent_from_row intent))
              (put_lease (put_run db1 (run' <| ChatRun.updated_at := now |>))
                 (clear_claim now lease))
      | None => Rollback None
      end
  | _, _ => Rollback None
  end.

Definition claim_recovery_intent (effect_id recovery_owner : string) (lease_seconds now : Z)
    (db : Db) : tx Db exn (option ToolIntent) :=
  let? found := one_or_none (intent_rows db effect_id) in
  match found, _terminal_row db effect_id with
  | Some intent, None =>
      let expires := lease_deadline now lease_seconds in
      match chat_runs db !! ToolEffectLedger.run_id intent,
            tool_effect_leases db !! effect_id with
      | Some run, Some lease =>
          if (is_live (ChatRun.status run) || bool_decide (ChatRun.status run = NeedsAttention))
             && (RunJournal.lease_free now run || sql_eq (ChatRun.lease_owner run) recovery_owner)
             && (is_null (ToolEffectLease.lease_expires_at lease)
                 || sql_le (ToolEffectLease.lease_expires_at lease) now
                 || sql_eq (ToolEffectLease.claim_owner lease) recovery_owner)
          then
            let run1 := run <| ChatRun.status := Running |>
                            <| ChatRun.lease_owner := Some recovery_owner |>
                            <| ChatRun.lease_expires_at := Some expires |>
                            <| ChatRun.updated_at := now |> in
            let lease1 := lease <| ToolEffectLease.run_owner := recovery_owner |>
                                <| ToolEffectLease.claim_owner := Some recovery_owner |>
                                <| ToolEffectLease.lease_expires_at := Some expires |>
                                <| ToolEffectLease.updated_at := now |> in
            let policy := policy_str (ToolEffectLedger.recovery_policy intent) in
            let? (_, db1) :=
              _append_event now (put_lease (put_run db run1) lease1) run1 intent
                recovery_owner RecoveryClaim "tool_effect_recovery_claimed"
                ("tool_intent_" +:+ policy) policy JNull None false in
            Commit (Some (_intent_from_row intent)) db1
          else Rollback None
      | _, _ => Rollback None
      end
  | _, _ => Rollback None
  end.

(** The second block of [commit_recovered_result]. *)
Definition release_recovered_run (effect_id recovery_owner : string) (now : Z) (db : Db)
    : tx Db exn unit :=
  let? lease := one_lease db effect_id in
  need? run := chat_runs db !! ToolEffectLease.run_id lease else NoResultFound in
  if bool_decide (ToolEffectLease.run_owner lease ≠ recovery_owner)
     || bool_decide (ChatRun.lease_owner run ≠ Some recovery_owner)
  then Raise (ToolEffectLeaseLost effect_id)
  else Commit tt (put_run db (run <| ChatRun.lease_owner := None |>
                                  <| ChatRun.lease_expires_at := None |>
                                  <| ChatRun.updated_at := now |>)).

Definition release_recovery_claim (effect_id recovery_owner : string) (retry_seconds now : Z)
    (db : Db) : tx Db exn unit :=
  let? lease := one_lease db effect_id in
  if bool_decide (ToolEffectLease.run_owner lease ≠ recovery_owner)
     || bool_decide (ToolEffectLease.claim_owner lease ≠ Some recovery_owner)
  then Raise (ToolEffectLeaseLost effect_id)
  else
    need? run := chat_runs db !! ToolEffectLease.run_id lease else NoResultFound in
    if bool_decide (ChatRun.lease_owner run ≠ Some recovery_owner)
    then Raise (ToolEffectLeaseLost effect_id)
    else
      let retry_at := lease_deadline now retry_seconds in
      Commit tt
        (put_lease
           (put_run db (run <| ChatRun.lease_expires_at := Some retry_at |>
                            <| ChatRun.updated_at := now |>))
           (lease <| ToolEffectLease.claim_owner := None |>
                  <| ToolEffectLease.lease_expires_at := Some retry_at |>
                  <| ToolEffectLease.updated_at := now |>)).

(** ** Retention *)

Definition _ATTENTION_RETENTION_FACTOR : Z := 4.

Definition tier (cutoff attention_cutoff : Z) (status : RunStatus) : Z :=
  if bool_decide (status = NeedsAttention) then attention_cutoff else cutoff.

Definition _prunable (db : Db) (cutoff attention_cutoff : Z) (run_id : string) (stamp : Z)
    : bool :=
  (stamp <? Z.max cutoff attention_cutoff)
  && match chat_runs db !! run_id with
     | Some run => negb (is_live (ChatRun.status run))
                   && (stamp <? tier cutoff attention_cutoff (ChatRun.status run))
     | None => false
     end.

(** A run whose recovery columns are dropped. *)
Definition snapshot_prunable (cutoff attention_cutoff : Z) (run : ChatRun.t) : bool :=
  negb (is_live (ChatRun.status run))
  && sql_lt (ChatRun.completed_at run) (Z.max cutoff attention_cutoff)
  && sql_lt (ChatRun.completed_at run) (tier cutoff attention_cutoff (ChatRun.status run))
  && negb (is_null (ChatRun.recovery_snapshot run)).

Definition drop_snapshot (now : Z) (run : ChatRun.t) : ChatRun.t :=
  run <| ChatRun.recovery_snapshot := None |> <| ChatRun.request_payload := None |>
      <| ChatRun.updated_at := now |>.

Definition prune_settled (retention_days now : Z) (db : Db) : tx Db exn Z :=
  let cutoff := now - days retention_days in
  let attention_cutoff := now - days (retention_days * _ATTENTION_RETENTION_FACTOR) in
  let prunable := _prunable db cutoff attention_cutoff in
  let ledger_gone r := prunable (ToolEffectLedger.run_id r) (ToolEffectLedger.created_at r) in
  let op_gone o := prunable (ChatRunOperation.run_id o) (ChatRunOperation.created_at o) in
  let usage_gone o :=
    prunable (HarnessUsageAttempt.run_id o) (HarnessUsageAttempt.created_at o) in
  let event_gone o := prunable (HarnessEventLog.run_id o) (HarnessEventLog.created_at o) in
  let snap_gone := snapshot_prunable cutoff attention_cutoff in
  let deleted :=
    (affected ledger_gone (tool_effect_ledger db)
     + affected usage_gone (harness_usage_attempts db)
     + affected event_gone (harness_event_log db)
     + affected op_gone (chat_run_operations db)
     + affected snap_gone (map_to_list (chat_runs db)).*2)%nat in
  Commit (Z.of_nat deleted)
    (db <| tool_effect_ledger := List.filter (negb ∘ ledger_gone) (tool_effect_ledger db) |>
        <| tool_effect_leases :=
             filter (λ l, prunable (ToolEffectLease.run_id l.2) (ToolEffectLease.updated_at l.2)
                          = false) (tool_effect_leases db) |>
        <| harness_usage_attempts :=
             List.filter (negb ∘ usage_gone) (harness_usage_attempts db) |>
        <| harness_event_log := List.filter (negb ∘ event_gone) (harness_event_log db) |>
        <| chat_run_operations := List.filter (negb ∘ op_gone) (chat_run_operations db) |>
        <| chat_runs :=
             (λ run, if snap_gone run then drop_snapshot now run else run) <$> chat_runs db |>).
End host.
End ToolEffectJournal.
