(* ===== verification/ToolEffectGateway.v ===== *)
(** * [core/services/tool_effect_ledger.py]: the gateway and the recovery sweep

    The methods of [ToolEffectJournal] made of several transactions, the
    execution state machine [ToolEffectGateway.execute_outcome] and the sweep
    [recover_incomplete_tool_effects], as programs.  [while True] polling is
    bounded by [polls]: when it is used up the program returns [None], that is,
    it is still waiting. *)

From S2P Require Import Prelude Db RunJournal PyString ToolPolicies Program ToolEffectJournal.
From S2P Require Import HarnessLedger.

Module ToolEffectGateway.
Import ToolPolicies ToolEffectJournal.

(** ** External calls *)

Inductive tool_call :=
| Invoke (intent : ToolIntent)
| RunReconciler (adapter : string) (intent : ToolIntent)
| RunReplayer (adapter : string) (intent : ToolIntent).

Definition call_intent (c : tool_call) : ToolIntent :=
  match c with Invoke i | RunReconciler _ i | RunReplayer _ i => i end.

(** A plain value, or a [ReconciliationResult]. *)
Inductive answer :=
| Value (v : json)
| Reconciliation (outcome : string) (v : json).

Abbreviation prog := (Program.prog tool_call answer).

Definition value_of (a : answer) : json :=
  match a with Value v | Reconciliation _ v => v end.

(** [_reconciliation(value)] *)
Definition _reconciliation (a : answer) : string * json :=
  match a with
  | Reconciliation outcome v => (outcome, v)
  | Value JNull => ("unknown", JNull)
  | Value v => ("applied", v)
  end.

Section host.
Context `{Host}.

(** ** Journal methods of several transactions *)

Fixpoint begin_intent (run_id owner claim_owner tool_call_id tool_name : string) (args : dict)
    (recovery_policy : RecoveryPolicy) (idempotency_key : option string) (lease_seconds : Z)
    (conflict_retries : nat) : prog IntentDecision :=
  let '(_, args_hash, redacted) := canonical_tool_args args in
  let! principal_scope := atomically (caller_principal run_id) in
  let! (key, _) := lift (_resolved_idempotency_key run_id principal_scope tool_name
                           tool_call_id (explicit_key_of idempotency_key args)) in
  let existing := atomically (_existing_decision key run_id owner claim_owner tool_name
                                args_hash lease_seconds) in
  try
    (let! found := atomically (key_exists key) in
     if found : bool then existing else
     let! effect_id := uuid in
     let! result_id := uuid in
     let! created := atomically (create_intent run_id owner claim_owner tool_call_id tool_name
                       args_hash redacted recovery_policy key ("eff_" +:+ effect_id)
                       ("toolres_" +:+ result_id) lease_seconds) in
     match created with Some d => Ret d | None => existing end)
  except (λ e,
    if is_tool_effect_error e then Throw e
    else if is_db_conflict e then
      let! found := atomically (key_exists key) in
      if found : bool then existing
      else match conflict_retries with
           | S n => begin_intent run_id owner claim_owner tool_call_id tool_name args
                      recovery_policy idempotency_key lease_seconds n
           | O => Throw (ToolIntentCommitError "commit conflict")
           end
    else if is_exception e then Throw (ToolIntentCommitError "commit failed")
    else Throw e).

Definition renew_invocation_claim (effect_id run_owner claim_owner : string)
    (lease_seconds : Z) : prog bool :=
  let! run_id := atomically (_intent_run_id effect_id) in
  let! renewed := atomically (renew_run run_id run_owner lease_seconds) in
  if negb renewed then Ret false else
  try
    (let! _ := atomically (acquire_invocation_claim effect_id run_owner claim_owner
                             lease_seconds) in
     Ret true)
  except (λ e, match e with ToolEffectLeaseLost _ => Ret false | _ => Throw e end).

Definition renew_recovery_claim (effect_id recovery_owner : string) (lease_seconds : Z)
    : prog bool :=
  renew_invocation_claim effect_id recovery_owner recovery_owner lease_seconds.

Definition decision_value (effect_id : string) (d : IntentDecision) : prog json :=
  match id_action d with
  | AUnknown => Throw (ToolOutcomeUnknown effect_id)
  | _ => Ret (id_result d)
  end.

Fixpoint commit_result (effect_id run_owner claim_owner : string) (value : json)
    (failed reconciled : bool) (conflict_retries : nat) : prog json :=
  Tx (commit_result_body effect_id run_owner claim_owner value failed reconciled) (λ o,
    match o with
    | Returned v => Ret v
    | Raised e => Throw e
    | CommitFailed e =>
        if is_db_conflict e then
          let! terminal := atomically (terminal_decision effect_id) in
          match terminal with
          | Some d => decision_value effect_id d
          | None =>
              match conflict_retries with
              | S n => commit_result effect_id run_owner claim_owner value failed reconciled n
              | O => Throw (ToolEffectError "commit conflict")
              end
          end
        else Throw e
    end).

Definition commit_recovered_result (effect_id : string) (value : json) (recovery_owner : string)
    : prog json :=
  let! v := commit_result effect_id recovery_owner recovery_owner value false true 4 in
  let! _ := atomically (release_recovered_run effect_id recovery_owner) in
  Ret v.

(** ** The gateway *)

Record ToolExecutionOutcome := mkOutcome {
  out_result : json;
  out_effect_id : string;
  out_result_id : string;
  out_state : ResultState;
  out_invoked : bool
}.

Definition outcome_of (d : IntentDecision) : ToolExecutionOutcome :=
  mkOutcome (id_result d) (in_effect_id (id_intent d)) (in_result_id (id_intent d))
    (id_state d) false.

Section gateway.
Context (registry : Registry) (lease_seconds : Z).
Context (run_id owner tool_call_id tool_name : string) (args : dict)
  (idempotency_key : option string) (classify_failure : option (json → bool)).
(** [claim_owner = "tool:" + uuid4().hex] *)
Context (claim_id : string).

Definition gateway_claim : string := "tool:" +:+ claim_id.

Definition lost_check (effect_id : string) : prog unit :=
  let! lost := is_set in
  if lost : bool then Throw (ToolEffectLeaseLost effect_id) else Ret tt.

Definition mark_unknown_and_raise {A} (effect_id reason : string) : prog A :=
  let! _ := atomically (mark_unknown effect_id owner gateway_claim reason) in
  Throw (ToolOutcomeUnknown effect_id).

Definition invoke_and_commit (i : ToolIntent) : prog ToolExecutionOutcome :=
  let e := in_effect_id i in
  let! a := call (Invoke i) in
  let! _ := lost_check e in
  let failed := match classify_failure with Some f => f (value_of a) | None => false end in
  let! v := commit_result e owner gateway_claim (value_of a) failed false 4 in
  Ret (mkOutcome v e (in_result_id i) (if failed then Error else Success) true).

Definition claimed_body (d : IntentDecision) : prog ToolExecutionOutcome :=
  let i := id_intent d in
  let e := in_effect_id i in
  match id_action d with
  | AReconcile =>
      match reconciler (resolve registry tool_name) with
      | None => mark_unknown_and_raise e "reconcile policy has no reconciliation adapter"
      | Some adapter =>
          let! a := call (RunReconciler adapter i) in
          let! _ := lost_check e in
          let '(outcome, v) := _reconciliation a in
          if bool_decide (outcome = "applied") then
            let! v' := commit_result e owner gateway_claim v false true 4 in
            Ret (mkOutcome v' e (in_result_id i) Success false)
          else if bool_decide (outcome = "not_applied") then invoke_and_commit i
          else mark_unknown_and_raise e "reconciliation could not determine external outcome"
      end
  | _ => invoke_and_commit i
  end.

(** The [except] clauses: give the claim up; only cancellation and unknown
    outcomes keep their exception. *)
Definition abandon_execution (effect_id : string) (ex : exn) : prog ToolExecutionOutcome :=
  let! _ := suppress (atomically (abandon_invocation_claim effect_id owner gateway_claim)) in
  match ex with
  | CancelledError | ToolOutcomeUnknown _ => Throw ex
  | _ => Throw (ToolOutcomeUnknown effect_id)
  end.

Fixpoint execute_outcome (polls : nat) : prog (option ToolExecutionOutcome) :=
  match polls with
  | O => Ret None
  | S polls' =>
      let! d := begin_intent run_id owner gateway_claim tool_call_id tool_name args
                  (policy (resolve registry tool_name)) idempotency_key lease_seconds 4 in
      let e := in_effect_id (id_intent d) in
      match id_action d with
      | AKnown => Ret (Some (outcome_of d))
      | AUnknown => Throw (ToolOutcomeUnknown e)
      | AWait =>
          let! terminal := atomically (terminal_decision e) in
          match terminal with
          | None => execute_outcome polls'
          | Some t =>
              match id_action t with
              | AUnknown => Throw (ToolOutcomeUnknown e)
              | _ => Ret (Some (outcome_of t))
              end
          end
      | AExecute | AReconcile =>
          let! _ := atomically (acquire_invocation_claim e owner gateway_claim lease_seconds) in
          let! o := try (claimed_body d) except (abandon_execution e) in
          Ret (Some o)
      end
  end.
End gateway.

(** ** The recovery sweep *)

Inductive SweepAction := SwTerminalUnknown | SwNeedsAttention | SwReplayed | SwReconciled | SwRetry.
#[export] Instance SweepAction_eq_dec : EqDecision SweepAction.
Proof. solve_decision. Defined.

Record RecoverySweepDecision := mkSweep {
  sw_effect_id : string;
  sw_run_id : string;
  sw_action : SweepAction
}.

Section sweep.
Context (registry : Registry) (lease_seconds : Z).

(** [attempt_status_for_exception]: no modelled exception is a timeout. *)
Definition attempt_status (r : result exn answer) : string :=
  match r with
  | Ok _ => "success"
  | Err CancelledError => "cancelled"
  | Err _ => "failed"
  end.

Definition recovery_attempt (i : ToolIntent) (phase status : string) : HarnessLedger.UsageAttempt :=
  HarnessLedger.mkAttempt (in_run_id i) "tool" (in_tool_name i) status 0 "" ""
    (in_effect_id i) None HarnessLedger.no_usage [("recovery_phase", JStr phase)] None.

(** The call, then the usage record whatever its result; recording is bounded
    and never fails the call. *)
Definition _recorded_recovery_call (c : tool_call) (phase : string) : prog answer :=
  Call c (λ r,
    let! _ := suppress (ignore (atomically
                (HarnessLedger.record_attempt
                   (recovery_attempt (call_intent c) phase (attempt_status r))))) in
    lift r).

(** The [try] block of one claimed effect. *)
Definition recover_claimed (recovery_owner : string) (i : ToolIntent) : prog SweepAction :=
  let e := in_effect_id i in
  let p := resolve registry (in_tool_name i) in
  match in_recovery_policy i with
  | NeverReplay =>
      let! _ := atomically (mark_unknown e recovery_owner recovery_owner
                  "non-replayable tool intent has no committed result") in
      Ret SwNeedsAttention
  | ReplaySafe =>
      match replayer p with
      | None => Throw (ToolEffectError "replay_safe policy has no replay adapter")
      | Some adapter =>
          let! a := _recorded_recovery_call (RunReplayer adapter i) "replay" in
          let! _ := lost_check e in
          let! _ := commit_recovered_result e (value_of a) recovery_owner in
          Ret SwReplayed
      end
  | Reconcile =>
      match reconciler p with
      | None => Throw (ToolEffectError "reconcile policy has no reconciliation adapter")
      | Some adapter =>
          let! a := _recorded_recovery_call (RunReconciler adapter i) "reconcile" in
          let! _ := lost_check e in
          let '(outcome, v) := _reconciliation a in
          let finish (value : json) : prog SweepAction :=
            let! _ := lost_check e in
            let! _ := commit_recovered_result e value recovery_owner in
            Ret SwReconciled in
          let undetermined : prog SweepAction :=
            let! _ := atomically (mark_unknown e recovery_owner recovery_owner
                        "reconciliation could not determine external outcome") in
            Ret SwNeedsAttention in
          if bool_decide (outcome = "applied") then finish v
          else if bool_decide (outcome = "not_applied") then
            match replayer p with
            | Some adapter' =>
                let! a' := _recorded_recovery_call (RunReplayer adapter' i)
                             "replay_after_reconcile" in
                finish (value_of a')
            | None => undetermined
            end
          else undetermined
      end
  end.

(** [except Exception]: release the claim for a later sweep. *)
Definition defer (recovery_owner : string) (e : string) (ex : exn) : prog SweepAction :=
  if is_exception ex then
    let! _ := try (atomically (release_recovery_claim e recovery_owner 30))
              except (λ ex', if is_tool_effect_error ex' then Ret tt else Throw ex') in
    Ret SwRetry
  else Throw ex.

Definition recover_one (e : string) : prog (option RecoverySweepDecision) :=
  let! settled := atomically (settle_terminal_run_intent e) in
  match settled with
  | Some i => Ret (Some (mkSweep e (in_run_id i) SwTerminalUnknown))
  | None =>
      let! id := uuid in
      let recovery_owner := "tool-recovery:" +:+ id in
      let! claimed := atomically (claim_recovery_intent e recovery_owner lease_seconds) in
      match claimed with
      | None => Ret None
      | Some i =>
          let! a := try (recover_claimed recovery_owner i) except (defer recovery_owner e) in
          Ret (Some (mkSweep e (in_run_id i) a))
      end
  end.

Fixpoint recover_all (es : list string) : prog (list RecoverySweepDecision) :=
  match es with
  | [] => Ret []
  | e :: es' =>
      let! d := recover_one e in
      let! ds := recover_all es' in
      Ret (option_list d ++ ds)
  end.

Definition recover_incomplete_tool_effects : prog (list RecoverySweepDecision) :=
  let! es := atomically pending_effect_ids in
  recover_all es.
End sweep.
End host.
End ToolEffectGateway.
