(* ===== verification/ToolEffectProps.v ===== *)
(** * Invariants of the tool effect tables

    [effects_wf] relates the ledger, the leases and the runs; every transaction
    of the journal keeps it, appends to the ledger, keeps leases and never
    moves the claim of a non-replayable effect to another gateway call. *)

From S2P Require Import Prelude Db RunJournal RunJournalProps PyString ToolPolicies Program.
From S2P Require Import ToolEffectJournal.
Import ToolPolicies ToolEffectJournal.

Module Ledger := ToolEffectLedger.
Module Lease := ToolEffectLease.

(** ** The invariant *)

Definition terminal_event (t : EventType) : bool :=
  match t with Result | Failure | UnknownOutcome => true | _ => false end.

(** [row] is the committed intent of the effect [e]. *)
Definition intent_of (db : Db) (e : string) (row : Ledger.t) : Prop :=
  row ∈ tool_effect_ledger db ∧ is_intent_of e row = true.

Record effects_wf (db : Db) : Prop := {
  ew_lease e row : intent_of db e row →
    ∃ l, tool_effect_leases db !! e = Some l ∧ Lease.run_id l = Ledger.run_id row;
  ew_lease_intent e l : tool_effect_leases db !! e = Some l →
    Lease.effect_id l = e ∧ ∃ row, intent_of db e row;
  ew_intent e : (length (intent_rows db e) ≤ 1)%nat;
  ew_terminals : NoDup (omap Ledger.terminal_effect_id (tool_effect_ledger db));
  ew_keys : NoDup (omap Ledger.idempotency_key (tool_effect_ledger db));
  ew_terminal row e : row ∈ tool_effect_ledger db → Ledger.terminal_effect_id row = Some e →
    Ledger.effect_id row = e ∧ terminal_event (Ledger.event_type row) = true ∧
    ∃ i, intent_of db e i;
  ew_key row : row ∈ tool_effect_ledger db →
    (Ledger.event_type row = Intent ↔ is_Some (Ledger.idempotency_key row));
  ew_seq row : row ∈ tool_effect_ledger db →
    ∃ run, chat_runs db !! Ledger.run_id row = Some run ∧
           Ledger.operation_seq row ≤ ChatRun.operation_seq run
}.

Record inv (db : Db) : Prop := {
  inv_wf : wf db;
  inv_effects : effects_wf db
}.

(** ** How the tables change *)

Record grows (db db' : Db) : Prop := {
  gr_ledger : tool_effect_ledger db `prefix_of` tool_effect_ledger db';
  gr_leases e l : tool_effect_leases db !! e = Some l →
    ∃ l', tool_effect_leases db' !! e = Some l' ∧ Lease.run_id l' = Lease.run_id l;
  gr_runs : runs_evolve is_terminal db db'
}.

#[export] Instance grows_preorder : PreOrder grows.
Proof.
  split.
  - intros db. split; [reflexivity| |reflexivity]. intros e l H. by exists l.
  - intros a b c [La Ea Ra] [Lb Eb Rb]. split; [by etrans| |by etrans].
    intros e l H. destruct (Ea e l H) as (l1 & H1 & E1). destruct (Eb e l1 H1) as (l2 & H2 & E2).
    exists l2. split; [done|congruence].
Qed.

(** Not the claim of a gateway call. *)
Definition foreign (owner : string) : Prop := ∀ id, owner ≠ "tool:" +:+ id.

Definition claim_kept (c c' : option string) : Prop :=
  c' = c ∨ c' = None ∨ ∃ o, c' = Some o ∧ foreign o.

Definition never_replay (db : Db) (e : string) : Prop :=
  ∃ row, intent_of db e row ∧ Ledger.recovery_policy row = NeverReplay.

Definition claims_kept (db db' : Db) : Prop :=
  ∀ e l l', never_replay db e → tool_effect_leases db !! e = Some l →
    tool_effect_leases db' !! e = Some l' →
    claim_kept (Lease.claim_owner l) (Lease.claim_owner l').

Lemma claims_kept_same db db' :
  tool_effect_leases db' = tool_effect_leases db → claims_kept db db'.
Proof. intros E e l l' _ H1 H2. rewrite E in H2. simplify_eq. by left. Qed.

Lemma claims_kept_put db db' e0 l0' :
  tool_effect_leases db' = <[e0 := l0']> (tool_effect_leases db) →
  (∀ l, tool_effect_leases db !! e0 = Some l → never_replay db e0 →
     claim_kept (Lease.claim_owner l) (Lease.claim_owner l0')) →
  claims_kept db db'.
Proof.
  intros E Hk e l l' Hn H1 H2. rewrite E in H2.
  apply lookup_insert_Some in H2 as [[<- <-]|[Hne H2]]; [by apply Hk|].
  simplify_eq. by left.
Qed.

(** What a transaction of the effect tables guarantees. *)
Record effect_step (db db' : Db) : Prop := {
  es_inv : inv db';
  es_grows : grows db db';
  es_claims : claims_kept db db'
}.

(** ** Queries *)

Lemma is_intent_of_true e row :
  is_intent_of e row = true ↔ Ledger.effect_id row = e ∧ Ledger.event_type row = Intent.
Proof. unfold is_intent_of. rewrite andb_true_iff, !bool_decide_eq_true. done. Qed.

Lemma elem_of_intent_rows db e row : row ∈ intent_rows db e ↔ intent_of db e row.
Proof.
  unfold intent_rows, intent_of. rewrite list_elem_of_In, filter_In, <- list_elem_of_In. done.
Qed.

Lemma one_ok {A} (l : list A) x : one l = Ok x → l = [x].
Proof. destruct l as [|y [|]]; simpl; congruence. Qed.

Lemma one_or_none_ok {A} (l : list A) x : one_or_none l = Ok (Some x) → l = [x].
Proof. destruct l as [|y [|]]; simpl; congruence. Qed.

Lemma one_intent db e row : one (intent_rows db e) = Ok row → intent_of db e row.
Proof. intros H%one_ok. apply elem_of_intent_rows. rewrite H. left. Qed.

Lemma one_or_none_intent db e row :
  one_or_none (intent_rows db e) = Ok (Some row) → intent_of db e row.
Proof. intros H%one_or_none_ok. apply elem_of_intent_rows. rewrite H. left. Qed.

Lemma intent_rows_of db e row : effects_wf db → intent_of db e row → intent_rows db e = [row].
Proof.
  intros Hw Hi%elem_of_intent_rows. pose proof (ew_intent db Hw e) as Hlen.
  destruct (intent_rows db e) as [|y [|z l]]; simpl in Hlen; [by apply not_elem_of_nil in Hi| |lia].
  apply list_elem_of_singleton in Hi. by subst.
Qed.

Lemma intent_unique db e row1 row2 :
  effects_wf db → intent_of db e row1 → intent_of db e row2 → row1 = row2.
Proof.
  intros Hw H1 H2. pose proof (intent_rows_of db e row1 Hw H1) as E.
  rewrite (intent_rows_of db e row2 Hw H2) in E. congruence.
Qed.

Lemma find_some_elem {A} (p : A → bool) l x : List.find p l = Some x → x ∈ l ∧ p x = true.
Proof. intros H%List.find_some. by rewrite list_elem_of_In. Qed.

Lemma find_app {A} (p : A → bool) l1 l2 :
  List.find p (l1 ++ l2) = match List.find p l1 with Some x => Some x | None => List.find p l2 end.
Proof. induction l1 as [|x l1 IH]; simpl; [done|]. by destruct (p x). Qed.

Lemma terminal_row_some db e t :
  _terminal_row db e = Some t → t ∈ tool_effect_ledger db ∧ Ledger.terminal_effect_id t = Some e.
Proof. intros [H1 H2]%find_some_elem. by apply sql_eq_true in H2. Qed.

Lemma terminal_row_none db e row :
  _terminal_row db e = None → row ∈ tool_effect_ledger db → Ledger.terminal_effect_id row ≠ Some e.
Proof.
  intros Hn Hin Ht. apply list_elem_of_In in Hin.
  pose proof (List.find_none _ _ Hn row Hin) as H. simpl in H.
  rewrite (proj2 (sql_eq_true _ _) Ht) in H. done.
Qed.

Lemma intent_by_key_some db k row : intent_by_key db k = Some row →
  row ∈ tool_effect_ledger db ∧ Ledger.idempotency_key row = Some k.
Proof. intros [H1 H2]%find_some_elem. by apply sql_eq_true in H2. Qed.

Lemma intent_by_key_intent db k row : effects_wf db → intent_by_key db k = Some row →
  intent_of db (Ledger.effect_id row) row.
Proof.
  intros Hw [Hin Hk]%intent_by_key_some. split; [done|]. apply is_intent_of_true. split; [done|].
  by apply (ew_key db Hw row Hin).
Qed.

Lemma intent_by_key_none db k row :
  intent_by_key db k = None → row ∈ tool_effect_ledger db → Ledger.idempotency_key row ≠ Some k.
Proof.
  intros Hn Hin Ht. apply list_elem_of_In in Hin.
  pose proof (List.find_none _ _ Hn row Hin) as H. simpl in H.
  rewrite (proj2 (sql_eq_true _ _) Ht) in H. done.
Qed.

(** ** Elementary updates *)

(** The effect tables only see the runs through their operation counters. *)
Lemma effects_wf_runs db db' :
  tool_effect_ledger db' = tool_effect_ledger db →
  tool_effect_leases db' = tool_effect_leases db →
  (∀ r run, chat_runs db !! r = Some run → ∃ run', chat_runs db' !! r = Some run' ∧
     ChatRun.operation_seq run ≤ ChatRun.operation_seq run') →
  effects_wf db → effects_wf db'.
Proof.
  intros El Ee Hr [H1 H2 H3 H4 H5 H6 H7 H8].
  assert (∀ e row, intent_of db' e row ↔ intent_of db e row) as Hi.
  { intros e row. unfold intent_of. by rewrite El. }
  split; rewrite ?El, ?Ee; [..|].
  - intros e row Hrow%Hi. by apply H1.
  - intros e l Hl. destruct (H2 e l Hl) as [? [row ?]]. split; [done|]. exists row. by apply Hi.
  - intros e. unfold intent_rows. rewrite El. apply H3.
  - done.
  - done.
  - intros row e Hin Ht. destruct (H6 row e Hin Ht) as (? & ? & i & ?).
    split_and!; [done|done|]. exists i. by apply Hi.
  - done.
  - intros row Hin. destruct (H8 row Hin) as (run & Hrun & ?).
    destruct (Hr _ _ Hrun) as (run' & ? & ?). exists run'. split; [done|lia].
Qed.

Lemma put_run_inv db row row' :
  inv db → chat_runs db !! ChatRun.run_id row' = Some row → run_evolves is_terminal row row' →
  ChatRun.operation_seq row' = ChatRun.operation_seq row →
  inv (put_run db row') ∧ grows db (put_run db row').
Proof.
  intros [Hwf He] Hrow Hev Hseq.
  destruct (put_run_safe db row row' Hrow Hev Hseq Hwf) as [Hwf' Hevo].
  split; [split; [done|]|split; [done|by intros e l H; exists l|done]].
  apply (effects_wf_runs db); [done|done| |done]. intros r run Hr.
  destruct (Hevo r run Hr) as (run' & ? & []). eauto.
Qed.

Lemma put_lease_inv db l l' :
  inv db → tool_effect_leases db !! Lease.effect_id l' = Some l →
  Lease.run_id l' = Lease.run_id l →
  inv (put_lease db l') ∧ grows db (put_lease db l').
Proof.
  intros [Hwf [H1 H2 H3 H4 H5 H6 H7 H8]] Hl Hrun.
  split; [split|].
  - by apply (wf_same_runs db).
  - split; simpl; [| |exact H3|exact H4|exact H5|exact H6|exact H7|exact H8].
    + intros e row Hi. destruct (H1 e row Hi) as (l0 & Hl0 & E).
      destruct (decide (Lease.effect_id l' = e)) as [<-|Hne].
      * rewrite lookup_insert_eq. exists l'. split; [done|]. congruence.
      * rewrite lookup_insert_ne by done. eauto.
    + intros e l0 [[<- <-]|[Hne Hl0]]%lookup_insert_Some;
        [|exact (H2 e l0 Hl0)].
      split; [done|]. exact (proj2 (H2 _ _ Hl)).
  - split; simpl; [done| |by intros r run Hr; exists run]. intros e l0 Hl0.
    destruct (decide (Lease.effect_id l' = e)) as [<-|Hne].
    + rewrite lookup_insert_eq. exists l'. split; [done|]. congruence.
    + rewrite lookup_insert_ne by done. eauto.
Qed.

(** ** Appending a fact *)

Definition fact (now : Z) (intent : Ledger.t) (seq : Z) (ev : EventType) (v : json)
    (err : option string) (terminal : bool) : Ledger.t :=
  Ledger.mk (Ledger.effect_id intent) (Ledger.result_id intent) (Ledger.run_id intent) seq ev
    (Ledger.tool_name intent) (Ledger.tool_call_id intent) (Ledger.args_hash intent)
    (Ledger.redacted_args intent) None (Ledger.recovery_policy intent) v err
    (if terminal then Some (Ledger.effect_id intent) else None) now.

Definition with_fact (db : Db) (row : Ledger.t) : Db :=
  db <| tool_effect_ledger := tool_effect_ledger db ++ [row] |>.

Lemma insert_ledger_next db row run :
  effects_wf db → chat_runs db !! Ledger.run_id row = Some run →
  ChatRun.operation_seq run < Ledger.operation_seq row →
  (∀ k, Ledger.idempotency_key row = Some k → intent_by_key db k = None) →
  (∀ e, Ledger.terminal_effect_id row = Some e → _terminal_row db e = None) →
  insert_ledger db row = Ok (with_fact db row).
Proof.
  intros Hw Hrun Hseq Hkey Hterm. unfold insert_ledger.
  destruct (existsb _ _) eqn:E; [|done]. exfalso.
  apply existsb_exists in E as (other & Hin & Hc). apply list_elem_of_In in Hin.
  unfold ledger_conflict in Hc. apply orb_true_iff in Hc as [Hc|Hc].
  - apply orb_true_iff in Hc as [Hc|Hc].
    + destruct (Ledger.idempotency_key row) as [k|] eqn:Hk; [|done].
      apply sql_eq_true in Hc. by eapply intent_by_key_none; eauto.
    + destruct (Ledger.terminal_effect_id row) as [e|] eqn:Ht; [|done].
      apply sql_eq_true in Hc. by eapply terminal_row_none; eauto.
  - bool_simpl. destruct (ew_seq db Hw other Hin) as (run' & Hrun' & Hle).
    assert (run' = run) by congruence. subst. lia.
Qed.

Lemma omap_snoc {A B} (f : A → option B) l x :
  omap f (l ++ [x]) = omap f l ++ option_list (f x).
Proof. rewrite omap_app. simpl. by destruct (f x). Qed.

Lemma NoDup_snoc_option {A} (l : list A) (o : option A) :
  NoDup l → (∀ x, o = Some x → x ∉ l) → NoDup (l ++ option_list o).
Proof.
  intros Hnd Ho. destruct o as [x|]; simpl; [|by rewrite app_nil_r].
  apply NoDup_app. split_and!; [done| |apply NoDup_singleton].
  intros y Hy Hy'. apply list_elem_of_singleton in Hy' as ->. by apply (Ho x).
Qed.

Lemma elem_of_with_fact db row x :
  x ∈ tool_effect_ledger (with_fact db row) ↔ x ∈ tool_effect_ledger db ∨ x = row.
Proof. simpl. rewrite elem_of_app, list_elem_of_singleton. done. Qed.

Lemma intent_of_with_fact db row e x :
  intent_of (with_fact db row) e x ↔
  intent_of db e x ∨ (x = row ∧ is_intent_of e row = true).
Proof. unfold intent_of. rewrite elem_of_with_fact. naive_solver. Qed.

(** Adding a row that is not an intent. *)
Lemma with_fact_wf db row i :
  effects_wf db → intent_of db (Ledger.effect_id row) i →
  Ledger.event_type row ≠ Intent → Ledger.idempotency_key row = None →
  (∀ e, Ledger.terminal_effect_id row = Some e →
     e = Ledger.effect_id row ∧ terminal_event (Ledger.event_type row) = true ∧
     _terminal_row db e = None) →
  (∃ run, chat_runs db !! Ledger.run_id row = Some run ∧
     Ledger.operation_seq row ≤ ChatRun.operation_seq run) →
  effects_wf (with_fact db row).
Proof.
  intros Hw Hi Hev Hkey Hterm Hrun. pose proof Hw as [H1 H2 H3 H4 H5 H6 H7 H8].
  assert (∀ e, is_intent_of e row = false) as Hno.
  { intros e. destruct (is_intent_of e row) eqn:E; [|done].
    by apply is_intent_of_true in E as [_ ?]. }
  assert (∀ e x, intent_of (with_fact db row) e x ↔ intent_of db e x) as Hsame.
  { intros e x. rewrite intent_of_with_fact, Hno. naive_solver. }
  split.
  - intros e x Hx%Hsame. by apply H1.
  - intros e l Hl. destruct (H2 e l Hl) as [? [x ?]]. split; [done|]. exists x. by apply Hsame.
  - intros e. unfold intent_rows. simpl. rewrite List.filter_app, length_app. simpl.
    rewrite Hno. specialize (H3 e). unfold intent_rows in H3. simpl. lia.
  - simpl. rewrite omap_snoc. apply NoDup_snoc_option; [done|].
    intros e He. destruct (Hterm e He) as (_ & _ & Hn). rewrite list_elem_of_omap.
    intros (x & Hin & Hx). by eapply terminal_row_none.
  - simpl. rewrite omap_snoc, Hkey. by rewrite app_nil_r.
  - intros x e Hx He. apply elem_of_with_fact in Hx as [Hx| ->].
    + destruct (H6 x e Hx He) as (? & ? & y & ?). split_and!; [done|done|].
      exists y. by apply Hsame.
    + destruct (Hterm e He) as (-> & ? & _). split_and!; [done|done|]. exists i. by apply Hsame.
  - intros x Hx. apply elem_of_with_fact in Hx as [Hx| ->]; [by apply H7|].
    rewrite Hkey. split; [done|by intros []].
  - intros x Hx. apply elem_of_with_fact in Hx as [Hx| ->]; [by apply H8|done].
Qed.

(** [_append_event] on a committed run: it succeeds and says what it wrote. *)
Lemma append_event_ok now db run i e owner ev ty ph sf v err terminal :
  inv db → chat_runs db !! ChatRun.run_id run = Some run → intent_of db e i →
  Ledger.run_id i = ChatRun.run_id run → ev ≠ Intent →
  (terminal = true → terminal_event ev = true ∧ _terminal_row db e = None) →
  ∃ db', _append_event now db run i owner ev ty ph sf v err terminal =
      Ok (bumped run ph sf, db') ∧
    inv db' ∧ grows db db' ∧
    tool_effect_leases db' = tool_effect_leases db ∧
    tool_effect_ledger db' =
      tool_effect_ledger db ++ [fact now i (ChatRun.operation_seq run + 1) ev v err terminal] ∧
    chat_runs db' = <[ChatRun.run_id run := bumped run ph sf]> (chat_runs db).
Proof.
  intros [Hwf He] Hrun Hi Hri Hev Hterm.
  pose proof Hi as [_ [Hie _]%is_intent_of_true].
  unfold _append_event.
  destruct (append_locked_ok is_terminal now db run run owner ty ph sf
    (Some [("effect_id", JStr (Ledger.effect_id i)); ("result_id", JStr (Ledger.result_id i))])
    None) as (E & Hev1 & Hwf1 & Hevo); [done..|].
  rewrite E. cbv zeta. simpl RunJournal.rcpt_operation_seq.
  match goal with |- context [insert_ledger ?d ?r] => set (db1 := d); set (row := r) end.
  assert (effects_wf db1) as He1.
  { apply (effects_wf_runs db); [done|done| |done]. intros r x Hx.
    destruct (Hevo r x Hx) as (x' & ? & []). eauto. }
  assert (chat_runs db1 !! ChatRun.run_id run = Some (bumped run ph sf)) as Hrun1
    by apply lookup_insert_eq.
  assert (insert_ledger db1 row = Ok (with_fact db1 row)) as ->.
  { assert (chat_runs db !! Ledger.run_id row = Some run) by (simpl; congruence).
    change (insert_ledger db1 row) with
      (if existsb (ledger_conflict row) (tool_effect_ledger db) then Err IntegrityError
       else Ok (with_fact db1 row)).
    pose proof (insert_ledger_next db row run He) as Hins. unfold insert_ledger in Hins.
    destruct (existsb _ _); [|done]. exfalso.
    assert (@Err exn Db IntegrityError = Ok (with_fact db row)) as [=]. apply Hins; simpl;
      [congruence|lia|done|]. intros e0. destruct terminal; [|done]. intros [= <-].
    rewrite Hie. by apply Hterm. }
  eexists. split; [reflexivity|]. split_and!; [|split|done|done|done].
  - split; [by destruct Hwf1|]. apply (with_fact_wf db1 row i); simpl; [done| | | | |].
    + by rewrite Hie.
    + done.
    + done.
    + intros e0. destruct terminal; [|done]. intros [= <-]. split; [done|]. rewrite Hie.
      by apply Hterm.
    + rewrite Hri. eexists. split; [apply lookup_insert_eq|]. simpl. lia.
  - by eexists.
  - by intros e0 l Hl; exists l.
  - intros r x Hx. apply Hevo. done.
Qed.

(** Adding the intent row of a new effect together with its lease. *)
Lemma new_intent_wf db row l run :
  effects_wf db → Ledger.event_type row = Intent → Ledger.terminal_effect_id row = None →
  (∃ k, Ledger.idempotency_key row = Some k ∧ intent_by_key db k = None) →
  chat_runs db !! Ledger.run_id row = Some run →
  Ledger.operation_seq row ≤ ChatRun.operation_seq run →
  tool_effect_leases db !! Ledger.effect_id row = None →
  Lease.effect_id l = Ledger.effect_id row → Lease.run_id l = Ledger.run_id row →
  effects_wf (put_lease (with_fact db row) l).
Proof.
  intros Hw Hev Ht (k & Hk & Hnk) Hrun Hseq Hnl Hle Hlr.
  pose proof Hw as [H1 H2 H3 H4 H5 H6 H7 H8].
  assert (∀ e x, intent_of (put_lease (with_fact db row) l) e x ↔
            intent_of db e x ∨ (x = row ∧ e = Ledger.effect_id row)) as Hi.
  { intros e x.
    change (intent_of (put_lease (with_fact db row) l) e x) with
      (intent_of (with_fact db row) e x). rewrite intent_of_with_fact, is_intent_of_true.
    naive_solver. }
  assert (∀ x, ¬ intent_of db (Ledger.effect_id row) x) as Hfresh.
  { intros x Hx. destruct (H1 _ _ Hx) as (l0 & Hl0 & _). congruence. }
  split.
  - intros e x Hx%Hi. simpl. rewrite Hle. destruct Hx as [Hx|[-> ->]].
    + assert (Ledger.effect_id row ≠ e) by (intros <-; by eapply Hfresh).
      rewrite lookup_insert_ne by done. by apply H1.
    + rewrite lookup_insert_eq. eauto.
  - intros e l0 Hl0. simpl in Hl0. rewrite Hle in Hl0.
    apply lookup_insert_Some in Hl0 as [[<- <-]|[Hne Hl0]].
    + split; [done|]. exists row. apply Hi. auto.
    + destruct (H2 e l0 Hl0) as [? [x ?]]. split; [done|]. exists x. apply Hi. auto.
  - intros e. unfold intent_rows. simpl. rewrite List.filter_app, length_app. simpl.
    specialize (H3 e). unfold intent_rows in H3.
    destruct (is_intent_of e row) eqn:E; simpl; [|lia].
    apply is_intent_of_true in E as [<- _].
    destruct (List.filter (is_intent_of (Ledger.effect_id row)) (tool_effect_ledger db))
      as [|x xs] eqn:Ef; simpl; [lia|]. exfalso. apply (Hfresh x).
    apply elem_of_intent_rows. unfold intent_rows. rewrite Ef. left.
  - simpl. rewrite omap_snoc, Ht. by rewrite app_nil_r.
  - simpl. rewrite omap_snoc. apply NoDup_snoc_option; [done|].
    intros k'. rewrite Hk. intros [= <-]. rewrite list_elem_of_omap.
    intros (x & Hin & Hx). by eapply intent_by_key_none.
  - intros x e Hx He. apply elem_of_with_fact in Hx as [Hx| ->]; [|congruence].
    destruct (H6 x e Hx He) as (? & ? & y & ?). split_and!; [done|done|].
    exists y. apply Hi. auto.
  - intros x Hx. apply elem_of_with_fact in Hx as [Hx| ->]; [by apply H7|].
    rewrite Hk. split; eauto.
  - intros x Hx. apply elem_of_with_fact in Hx as [Hx| ->]; [by apply H8|]. eauto.
Qed.

(** ** Transactions *)

(** [P] holds of what the transaction returns, in the state it leaves. *)
Definition safe_body {B} (body : Z → Db → tx Db exn B) (P : B → Db → Prop) : Prop :=
  ∀ now db, inv db →
    match body now db with
    | Commit b db' => effect_step db db' ∧ P b db'
    | Rollback b => P b db
    | Raise _ => True
    end.

Lemma effect_step_refl db : inv db → effect_step db db.
Proof. intros H. split; [done|reflexivity|]. by apply claims_kept_same. Qed.

(** The last writes of a transaction: one run, then one lease. *)
Lemma put_run_step db db1 run1 run2 :
  inv db1 → grows db db1 → claims_kept db db1 →
  chat_runs db1 !! ChatRun.run_id run2 = Some run1 → run_evolves is_terminal run1 run2 →
  ChatRun.operation_seq run2 = ChatRun.operation_seq run1 →
  effect_step db (put_run db1 run2).
Proof.
  intros Hi Hg Hc Hrun Hev Hseq. destruct (put_run_inv db1 run1 run2) as [Hi2 Hg2]; [done..|].
  split; [done|by etrans|]. intros e l l' Hn H1 H2. by apply (Hc e l l').
Qed.

Lemma put_lease_step db db1 l l2 :
  effect_step db db1 → tool_effect_leases db1 = tool_effect_leases db →
  tool_effect_leases db !! Lease.effect_id l2 = Some l → Lease.run_id l2 = Lease.run_id l →
  (never_replay db (Lease.effect_id l2) →
   claim_kept (Lease.claim_owner l) (Lease.claim_owner l2)) →
  effect_step db (put_lease db1 l2).
Proof.
  intros [Hi Hg Hc] E Hl Hr Hk.
  destruct (put_lease_inv db1 l l2) as [Hi2 Hg2]; [done|by rewrite E|done|].
  split; [done|by etrans|]. apply (claims_kept_put db _ (Lease.effect_id l2) l2).
  - simpl. by rewrite E.
  - intros l0 Hl0. simplify_eq. done.
Qed.

Ltac solve_term :=
  split; simpl; auto; try lia;
  let H := fresh in intros H;
  repeat match goal with
  | Hl : is_live (ChatRun.status ?r) = true |- _ => destruct (ChatRun.status r); simpl in *; done
  end.

Lemma owned_run now db r o run : inv db →
  RunJournal._locked_owned_run now db r o = Ok run →
  chat_runs db !! r = Some run ∧ ChatRun.run_id run = r ∧ is_live (ChatRun.status run) = true.
Proof.
  intros [Hwf _] [Hrun Hl]%locked_owned_run_ok. apply holds_lease_true in Hl as [Hlive _].
  split_and!; [done|by eapply wf_keyed|done].
Qed.

Lemma lease_of db e l : inv db → one_lease db e = Ok l →
  tool_effect_leases db !! e = Some l ∧ Lease.effect_id l = e.
Proof.
  intros [_ Hw]. unfold one_lease. destruct (_ !! e) as [l0|] eqn:E; [|done]. intros [= <-].
  split; [done|]. by destruct (ew_lease_intent db Hw e l0 E).
Qed.

(** [_mark_unknown_locked] on a live run, possibly after the lease was taken in
    the same transaction. *)
Lemma mark_unknown_locked_step now db0 db run i e l0 l owner claim reason db' :
  inv db → grows db0 db → chat_runs db !! ChatRun.run_id run = Some run →
  is_live (ChatRun.status run) = true → intent_of db e i → Ledger.run_id i = ChatRun.run_id run →
  tool_effect_leases db0 !! e = Some l0 → tool_effect_leases db = <[e := l]> (tool_effect_leases db0) →
  Lease.effect_id l = e → Lease.run_id l = Lease.run_id l0 → _terminal_row db e = None →
  _mark_unknown_locked now db run i l owner claim reason = Ok db' →
  effect_step db0 db' ∧ ∃ t, _terminal_row db' e = Some t ∧ Ledger.event_type t = UnknownOutcome.
Proof.
  intros Hi Hg Hrun Hlive Hint Hri Hl0 Hls Hle Hlr Hnt H.
  pose proof Hint as [_ [Hie _]%is_intent_of_true].
  unfold _mark_unknown_locked in H. rewrite Hie, Hnt in H. simpl in H.
  destruct (_ || _); [done|].
  destruct (append_event_ok now db run i e owner UnknownOutcome "tool_outcome_unknown"
    "needs_attention" "manual_review" JNull (Some reason) true)
    as (db1 & E & Hi1 & Hg1 & El & Et & Er); [done..|].
  rewrite E in H. injection H as <-.
  match goal with |- context [put_run db1 ?x] => set (run2 := x) end.
  destruct (put_run_inv db1 (bumped run "needs_attention" "manual_review") run2) as [Hi2 Hg2].
  { done. } { rewrite Er. apply lookup_insert_eq. } { solve_term. } { done. }
  destruct (put_lease_inv (put_run db1 run2) l (clear_claim now l)) as [Hi3 Hg3].
  { done. } { simpl. rewrite El, Hls, Hle. apply lookup_insert_eq. } { done. }
  split; [split|].
  - done.
  - etrans; [exact Hg|]. etrans; [exact Hg1|]. by etrans.
  - apply (claims_kept_put db0 _ e (clear_claim now l)).
    + simpl. by rewrite El, Hls, Hle, insert_insert_eq.
    + intros. right. by left.
  - simpl. unfold _terminal_row in *. simpl. rewrite Et, find_app, Hnt. simpl.
    rewrite bool_decide_true by done. eexists. split; [done|]. done.
Qed.

(** What a decision of [begin_intent] rests on. *)
Record decision_ok (claim : string) (d : IntentDecision) (db : Db) : Prop := {
  dk_intent : ∃ row, intent_of db (Ledger.effect_id row) row ∧ id_intent d = _intent_from_row row;
  dk_reconcile : id_action d = AReconcile → in_recovery_policy (id_intent d) = Reconcile;
  dk_claim : id_action d = AExecute → in_recovery_policy (id_intent d) = NeverReplay →
    ∃ l, tool_effect_leases db !! in_effect_id (id_intent d) = Some l ∧
         Lease.claim_owner l = Some claim
}.

Lemma decision_passive claim a i row db :
  intent_of db (Ledger.effect_id row) row → i = _intent_from_row row →
  a ≠ AReconcile → a ≠ AExecute → ∀ v s, decision_ok claim (mkIntentDecision a i v s) db.
Proof. intros Hi -> H1 H2 v s. split; simpl; [by exists row|done|done]. Qed.

Lemma decision_terminal claim row t db :
  intent_of db (Ledger.effect_id row) row →
  decision_ok claim (_decision_from_terminal (_intent_from_row row) t) db.
Proof.
  intros Hi. unfold _decision_from_terminal.
  destruct (Ledger.event_type t); by eapply decision_passive.
Qed.

Lemma grows_intent db db' e row : grows db db' → intent_of db e row → intent_of db' e row.
Proof. intros [[k E] _ _] [Hin Hi]. split; [|done]. rewrite E. apply elem_of_app. by left. Qed.

Lemma take_over_safe now db run row l ro claim secs :
  inv db → RunJournal._locked_owned_run now db (Ledger.run_id row) ro = Ok run →
  intent_of db (Ledger.effect_id row) row → _terminal_row db (Ledger.effect_id row) = None →
  tool_effect_leases db !! Ledger.effect_id row = Some l → Lease.effect_id l = Ledger.effect_id row →
  match take_over now db run row l ro claim secs with
  | Commit d db' => effect_step db db' ∧ decision_ok claim d db'
  | Rollback d => decision_ok claim d db
  | Raise _ => True
  end.
Proof.
  intros Hi Hrun Hint Hnt Hl Hle. unfold take_over. set (e := Ledger.effect_id row) in *.
  apply owned_run in Hrun as (Hrun & Hid & Hlive); [|done].
  match goal with |- context [put_lease db ?x] => set (l' := x) end.
  destruct (put_lease_inv db l l') as [Hi1 Hg1]; [done|simpl; by rewrite Hle|done|].
  set (ph := "tool_intent_" +:+ policy_str (Ledger.recovery_policy row)).
  set (sf := policy_str (Ledger.recovery_policy row)).
  destruct (append_event_ok now (put_lease db l') run row e ro RecoveryClaim
    "tool_effect_recovery_claimed" ph sf JNull None false)
    as (db2 & E & Hi2 & Hg2 & El & Et & Er); [done|simpl; by rewrite Hid|done|by rewrite Hid|done|done|].
  rewrite E.
  assert (tool_effect_leases db2 = <[e := l']> (tool_effect_leases db)) as El2.
  { rewrite El. simpl. by rewrite Hle. }
  assert (intent_of db2 e row) as Hint2.
  { eapply grows_intent; [|exact Hint]. by etrans. }
  destruct (Ledger.recovery_policy row) eqn:Hpol; simpl in ph, sf.
  1,2: split; [split; [done|by etrans|]|split; simpl; rewrite ?Hpol; try done; by exists row];
    apply (claims_kept_put db _ e l' El2); intros l0 _ (row' & Hr' & Hp');
    rewrite (intent_unique db e row' row (inv_effects db Hi) Hr' Hint) in Hp'; congruence.
  destruct (_mark_unknown_locked _ _ _ _ _ _ _ _) as [db3|] eqn:Em; [|done].
  eapply (mark_unknown_locked_step now db db2 _ row e l l') in Em as [Hs (t & Ht & Hu)].
  - split; [done|]. eapply decision_passive; [|done|done|done].
    eapply grows_intent; [|exact Hint]. apply Hs.
  - done.
  - by etrans.
  - rewrite Er. apply lookup_insert_eq.
  - done.
  - done.
  - by simpl; rewrite Hid.
  - done.
  - done.
  - done.
  - done.
  - unfold _terminal_row in *. rewrite Et, find_app. simpl. by rewrite Hnt.
Qed.

Lemma existing_decision_safe key r ro claim tool ah secs :
  safe_body (_existing_decision key r ro claim tool ah secs) (decision_ok claim).
Proof.
  intros now db Hi. unfold _existing_decision.
  destruct (intent_by_key db key) as [row|] eqn:Hk; [|done].
  apply intent_by_key_intent in Hk; [|apply Hi].
  destruct (_validate_identity _ _ _); [|done].
  destruct (chat_runs db !! r) as [crun|]; [|done].
  destruct (chat_runs db !! _) as [orun|]; [|done].
  case_bool_decide; [done|]. simpl in_effect_id. simpl in_run_id. simpl in_recovery_policy.
  destruct (_terminal_row db (Ledger.effect_id row)) as [t|] eqn:Ht.
  { destruct (bool_decide (r = Ledger.run_id row)); [by apply decision_terminal|].
    destruct (negb _); [done|]. by apply decision_terminal. }
  destruct (negb _); [done|].
  case_bool_decide as Hr; [by eapply decision_passive|].
  destruct (one_lease db (Ledger.effect_id row)) as [l|] eqn:Hl; [|done].
  apply lease_of in Hl as [Hl Hle]; [|done].
  destruct (RunJournal._locked_owned_run now db r ro) as [run|] eqn:Hrun; [|done].
  destruct (_ && _).
  { case_bool_decide as Hc; [|by eapply decision_passive].
    split; simpl; [by exists row| |].
    - by destruct (Ledger.recovery_policy row).
    - intros _ _. by exists l. }
  destruct (_ || _); [|by eapply decision_passive].
  subst r. by apply take_over_safe.
Qed.

Lemma create_intent_safe r ro claim tc tool ah red pol key e rid secs :
  safe_body (create_intent r ro claim tc tool ah red pol key e rid secs)
    (λ o db, ∀ d, o = Some d → decision_ok claim d db).
Proof.
  intros now db Hi. unfold create_intent.
  destruct (RunJournal._locked_owned_run now db r ro) as [run|] eqn:Hrun; [|done].
  apply owned_run in Hrun as (Hrun & Hid & Hlive); [|done].
  destruct (intent_by_key db key) as [|] eqn:Hk; simpl; [done|].
  set (ph := "tool_intent_" +:+ policy_str pol). set (sf := policy_str pol).
  match goal with |- context [RunJournal._append_locked now db run ro ?ty ph sf ?pl None] =>
    destruct (append_locked_ok is_terminal now db run run ro ty ph sf pl None)
      as (E & Hev1 & Hwf1 & Hevo) end; [apply Hi|by rewrite Hid|done|done|].
  rewrite E. cbv zeta. simpl RunJournal.rcpt_operation_seq.
  match goal with |- context [insert_ledger ?d ?x] => set (db1 := d); set (row := x) end.
  destruct (insert_ledger db1 row) as [db2|] eqn:Hins; [|done].
  unfold insert_ledger in Hins. destruct (existsb _ _); [done|]. injection Hins as <-.
  match goal with |- context [insert_lease _ ?x] => set (l := x) end.
  unfold insert_lease. simpl Lease.effect_id.
  match goal with |- context [is_null ?o] => destruct o eqn:Hnl end; simpl; [done|].
  change (tool_effect_leases db !! e = None) in Hnl.
  assert (chat_runs db1 !! r = Some (bumped run ph sf)) as Hrun1.
  { simpl. rewrite Hid. apply lookup_insert_eq. }
  assert (effects_wf (put_lease (with_fact db1 row) l)) as Hw.
  { apply (new_intent_wf db1 row l (bumped run ph sf)); try done; [|by exists key].
    apply (effects_wf_runs db); [done|done| |apply Hi]. intros r0 x Hx.
    destruct (Hevo r0 x Hx) as (x' & ? & []). eauto. }
  assert (inv (put_lease (with_fact db1 row) l)) as Hi3 by (split; [by destruct Hwf1|done]).
  assert (grows db (put_lease (with_fact db1 row) l)) as Hg3.
  { split; [by eexists| |exact Hevo]. intros e0 l0 Hl0. exists l0. split; [|done].
    simpl. rewrite lookup_insert_ne; [done|]. intros <-. congruence. }
  split.
  - apply (put_run_step db (put_lease (with_fact db1 row) l) (bumped run ph sf)); [done|done| | | |].
    + apply (claims_kept_put db _ e l); [done|]. intros l0 Hl0. congruence.
    + simpl. apply lookup_insert_eq.
    + solve_term.
    + done.
  - intros d [= <-]. split; simpl; [|done|].
    + exists row. split; [|done]. split; [|by apply is_intent_of_true].
      apply elem_of_app. right. by left.
    + intros _ _. exists l. split; [apply lookup_insert_eq|done].
Qed.

(** A rewrite of one lease alone. *)
Lemma lease_only_step db e l l' :
  inv db → tool_effect_leases db !! e = Some l → Lease.effect_id l' = Lease.effect_id l →
  Lease.run_id l' = Lease.run_id l →
  claim_kept (Lease.claim_owner l) (Lease.claim_owner l') →
  effect_step db (put_lease db l').
Proof.
  intros Hi Hl He Hr Hc. destruct (ew_lease_intent db (inv_effects db Hi) e l Hl) as [Hle _].
  apply (put_lease_step db db l l'); [by apply effect_step_refl|done|by rewrite He, Hle|done|done].
Qed.

Definition anything {B} : B → Db → Prop := λ _ _, True.

Lemma acquire_safe e ro claim secs :
  safe_body (acquire_invocation_claim e ro claim secs) anything.
Proof.
  intros now db Hi. unfold acquire_invocation_claim.
  destruct (tool_effect_leases db !! e) as [l|] eqn:Hl; [|done].
  destruct (_ && _); [|done]. split; [|done]. eapply lease_only_step; [done|done..|by left].
Qed.

Lemma abandon_safe e ro claim : safe_body (abandon_invocation_claim e ro claim) anything.
Proof.
  intros now db Hi. unfold abandon_invocation_claim.
  destruct (tool_effect_leases db !! e) as [l|] eqn:Hl;
    [destruct (_ && _)|]; (split; [|done]); try by apply effect_step_refl.
  eapply lease_only_step; [done|done..|by left].
Qed.

(** Writes outside the effect tables. *)
Lemma runs_only_step db db' :
  inv db → journal_safe db db' → tool_effect_ledger db' = tool_effect_ledger db →
  tool_effect_leases db' = tool_effect_leases db → effect_step db db'.
Proof.
  intros [Hwf He] Hs El Ee. destruct (Hs Hwf) as [Hwf' Hevo].
  assert (runs_evolve is_terminal db db') as Hevo'.
  { intros r run Hr. destruct (Hevo r run Hr) as (run' & Hr' & []). exists run'. split; [done|].
    split; auto. intros Ht. apply ev_settled. by destruct (ChatRun.status run). }
  split; [split; [done|]|split; [by rewrite El| |done]|by apply claims_kept_same].
  - apply (effects_wf_runs db); [done..| |done]. intros r run Hr.
    destruct (Hevo r run Hr) as (run' & ? & []). eauto.
  - intros e l Hl. exists l. by rewrite Ee.
Qed.

Lemma renew_run_safe r ro secs : safe_body (renew_run r ro secs) anything.
Proof.
  intros now db Hi. unfold renew_run.
  destruct (RunJournal.renew now r ro secs db) as [[b|] db'] eqn:E; [|done].
  split; [|done].
  assert (db' = (RunJournal.renew now r ro secs db).2) as -> by by rewrite E.
  apply runs_only_step; [done|apply renew_safe|..];
    unfold RunJournal.renew, run_tx; destruct (chat_runs db !! r); simpl; [|done| |done];
    by destruct (_ && _).
Qed.

Lemma commit_result_safe `{Host} e ro claim v failed rec :
  safe_body (commit_result_body e ro claim v failed rec) anything.
Proof.
  intros now db Hi. unfold commit_result_body.
  destruct (one (intent_rows db e)) as [i|] eqn:Hint; [|done]. apply one_intent in Hint.
  destruct (_terminal_row db e) as [t|] eqn:Ht; [by destruct (committed_value e t)|].
  destruct (one_lease db e) as [l|] eqn:Hl; [|done]. apply lease_of in Hl as [Hl Hle]; [|done].
  destruct (_ || _ || _); [done|].
  pose proof Hint as [_ [Hie _]%is_intent_of_true].
  unfold _commit_result_locked. rewrite Hie, Ht.
  destruct (bool_decide _); [done|].
  destruct (RunJournal._locked_owned_run _ _ _ _) as [run|] eqn:Hrun; [|done].
  apply owned_run in Hrun as (Hrun & Hid & Hlive); [|done].
  match goal with |- context [_append_event now db run i ro ?ev ?ty ?ph ?sf v ?err true] =>
    destruct (append_event_ok now db run i e ro ev ty ph sf v err true)
      as (db1 & E & Hi1 & Hg1 & El & Et & Er) end;
    [done|by rewrite Hid|done|by rewrite Hid|by destruct failed|by destruct failed|].
  rewrite E. split; [|done].
  apply (put_lease_step db _ l); [|done|simpl; by rewrite Hle|done|by intros _; right; left].
  eapply put_run_step; [done|done|by apply claims_kept_same|..].
  - rewrite Er. apply lookup_insert_eq.
  - solve_term.
  - done.
Qed.

Lemma mark_unknown_safe e owner claim reason :
  safe_body (mark_unknown e owner claim reason) anything.
Proof.
  intros now db Hi. unfold mark_unknown.
  destruct (one_lease db e) as [l|] eqn:Hl; [|done]. apply lease_of in Hl as [Hl Hle]; [|done].
  destruct (one (intent_rows db e)) as [i|] eqn:Hint; [|done]. apply one_intent in Hint.
  destruct (RunJournal._locked_owned_run _ _ _ _) as [run|] eqn:Hrun; [|done].
  apply owned_run in Hrun as (Hrun & Hid & Hlive); [|done].
  destruct (_mark_unknown_locked _ _ _ _ _ _ _ _) as [db'|] eqn:Em; [|done]. split; [|done].
  destruct (_terminal_row db e) as [t|] eqn:Ht.
  { pose proof Hint as [_ [Hie _]%is_intent_of_true]. unfold _mark_unknown_locked in Em.
    rewrite Hie, Ht in Em. simpl in Em. injection Em as <-. by apply effect_step_refl. }
  eapply (mark_unknown_locked_step now db db run i e l l) in Em as [Hs _];
    [exact Hs|done|reflexivity|by rewrite Hid|done|done|by rewrite Hid|done| |done|done|done].
  by rewrite insert_id.
Qed.

Lemma settle_safe e : safe_body (settle_terminal_run_intent e) anything.
Proof.
  intros now db Hi. unfold settle_terminal_run_intent.
  destruct (one_or_none (intent_rows db e)) as [[i|]|] eqn:Hint; [|done|done].
  apply one_or_none_intent in Hint.
  destruct (_terminal_row db e) as [t|] eqn:Ht; [done|].
  destruct (chat_runs db !! _) as [run|] eqn:Hrun; [|done].
  destruct (_ || _); [done|].
  destruct (one_lease db e) as [l|] eqn:Hl; [|done]. apply lease_of in Hl as [Hl Hle]; [|done].
  pose proof (wf_keyed db (inv_wf db Hi) _ _ Hrun) as Hid.
  match goal with |- context [_append_event now db run i ?o ?ev ?ty ?ph ?sf ?v ?err true] =>
    destruct (append_event_ok now db run i e o ev ty ph sf v err true)
      as (db1 & E & Hi1 & Hg1 & El & Et & Er) end;
    [done|by rewrite Hid|done|by rewrite Hid|done|done|].
  rewrite E. split; [|done].
  apply (put_lease_step db _ l); [|done|simpl; by rewrite Hle|done|by intros _; right; left].
  eapply put_run_step; [done|done|by apply claims_kept_same|..].
  - rewrite Er. apply lookup_insert_eq.
  - split; simpl; auto; lia.
  - done.
Qed.

(** A recovered intent is the committed one. *)
Definition intent_found (e : string) (o : option ToolIntent) (db : Db) : Prop :=
  ∀ i, o = Some i → ∃ row, intent_of db e row ∧ i = _intent_from_row row.

Lemma claim_recovery_safe e owner secs :
  foreign owner → safe_body (claim_recovery_intent e owner secs) (intent_found e).
Proof.
  intros Hf now db Hi. unfold claim_recovery_intent.
  destruct (one_or_none (intent_rows db e)) as [[i|]|] eqn:Hint; [|done|done].
  apply one_or_none_intent in Hint.
  destruct (_terminal_row db e) as [t|] eqn:Ht; [done|].
  destruct (chat_runs db !! _) as [run|] eqn:Hrun; [|done].
  destruct (tool_effect_leases db !! e) as [l|] eqn:Hl; [|done].
  destruct (_ && _ && _) eqn:Hg; [|done].
  pose proof (wf_keyed db (inv_wf db Hi) _ _ Hrun) as Hid.
  destruct (ew_lease_intent db (inv_effects db Hi) e l Hl) as [Hle _].
  assert (is_terminal (ChatRun.status run) = false) as Hnt.
  { apply andb_true_iff in Hg as [Hg _]. apply andb_true_iff in Hg as [Hg _].
    apply orb_true_iff in Hg as [Hg|Hg]; [by destruct (ChatRun.status run)|].
    apply bool_decide_eq_true in Hg. by rewrite Hg. }
  match goal with |- context [put_run db ?x] => set (run1 := x) end.
  match goal with |- context [put_lease (put_run db run1) ?x] => set (l1 := x) end.
  destruct (put_run_inv db run run1) as [Hi1 Hg1]; [done|simpl; by rewrite Hid| |done|].
  { split; simpl; auto; try lia. congruence. }
  destruct (put_lease_inv (put_run db run1) l l1) as [Hi2 Hg2]; [done|simpl; by rewrite Hle|done|].
  match goal with |- context [_append_event now ?d run1 i ?o ?ev ?ty ?ph ?sf ?v ?err false] =>
    destruct (append_event_ok now d run1 i e o ev ty ph sf v err false)
      as (db1 & E & Hi3 & Hg3 & El & Et & Er) end;
    [done|apply lookup_insert_eq|done|simpl; by rewrite Hid|done|done|].
  rewrite E. assert (grows db db1) as Hgr by (etrans; [exact Hg1|by etrans]).
  split; [split; [done|done|]|].
  - apply (claims_kept_put db _ e l1); [rewrite El; simpl; by rewrite Hle|].
    intros. right. right. by exists owner.
  - intros i' [= <-]. exists i. split; [|done]. by eapply grows_intent.
Qed.

Lemma release_recovered_safe e owner : safe_body (release_recovered_run e owner) anything.
Proof.
  intros now db Hi. unfold release_recovered_run.
  destruct (one_lease db e) as [l|] eqn:Hl; [|done].
  destruct (chat_runs db !! _) as [run|] eqn:Hrun; [|done].
  destruct (_ || _); [done|]. split; [|done].
  eapply put_run_step; [done|reflexivity|by apply claims_kept_same| |solve_term|done].
  simpl. by rewrite (wf_keyed db (inv_wf db Hi) _ _ Hrun).
Qed.

Lemma release_recovery_safe e owner secs : safe_body (release_recovery_claim e owner secs) anything.
Proof.
  intros now db Hi. unfold release_recovery_claim.
  destruct (one_lease db e) as [l|] eqn:Hl; [|done]. apply lease_of in Hl as [Hl Hle]; [|done].
  destruct (_ || _); [done|].
  destruct (chat_runs db !! _) as [run|] eqn:Hrun; [|done].
  destruct (bool_decide _); [done|]. split; [|done].
  apply (put_lease_step db _ l); [|done|simpl; by rewrite Hle|done|by intros _; right; left].
  eapply put_run_step; [done|reflexivity|by apply claims_kept_same| |solve_term|done].
  simpl. by rewrite (wf_keyed db (inv_wf db Hi) _ _ Hrun).
Qed.

(** ** The run journal beside the effect tables *)

(** A [commit_effect] callback that leaves the effect tables alone. *)
Class EffectFrame (r : string) (e : RunJournal.effect) : Prop := {
  effect_frame_journal :: JournalEffect r e;
  effect_frame db db' : RunJournal.run_effect e db = Ok db' →
    tool_effect_ledger db' = tool_effect_ledger db ∧
    tool_effect_leases db' = tool_effect_leases db
}.

#[export] Instance effect_frame_none r : EffectFrame r None.
Proof. split; [apply _|]. by intros db db' [= <-]. Qed.

Definition same_effects (db db' : Db) : Prop :=
  tool_effect_ledger db' = tool_effect_ledger db ∧
  tool_effect_leases db' = tool_effect_leases db.

#[export] Instance same_effects_preorder : PreOrder same_effects.
Proof. split; [by intros db|]. intros a b c [] []. split; congruence. Qed.

#[export] Instance same_effects_frame : JournalFrame same_effects.
Proof. split; [apply _|intros db row; by split|intros db op; by split]. Qed.

Definition frame_ok (c : journal_call) : Prop :=
  match c with
  | CallAppend r _ _ _ _ _ e | CallComplete r _ _ _ _ _ e _ => EffectFrame r e
  | _ => True
  end.

Lemma frame_call_ok c : frame_ok c → call_ok c.
Proof. destruct c; simpl; try done; intros; apply _. Qed.

Lemma exec_call_same now c db : frame_ok c → same_effects db (exec_call now c db).
Proof.
  intros Hok. apply (exec_call_frame same_effects).
  destruct c; simpl in *; try done; by intros; apply effect_frame.
Qed.

Lemma journal_body_safe c : frame_ok c → safe_body (journal_body c) anything.
Proof.
  intros Hok now db Hi. split; [|done].
  destruct (exec_call_same now c db Hok) as [El Ee].
  apply runs_only_step; [done| |done|done]. by apply exec_call_safe, frame_call_ok.
Qed.
