(* ===== verification/ToolEffectWorld.v ===== *)
(** * Concurrent executions of the tool gateway

    Any number of gateway calls, recovery sweeps, heartbeats and run-journal
    calls run in one [world]: transactions interleave arbitrarily, commits fail
    with or without being applied, tasks stop at any point. *)

From S2P Require Import Prelude Db RunJournal RunJournalProps PyString ToolPolicies Program.
From S2P Require Import ToolEffectJournal ToolEffectProps HarnessLedger ToolEffectGateway.
Import ToolPolicies ToolEffectJournal ToolEffectGateway.

Abbreviation state := (Program.state tool_call).

(** ** Histories *)

(** [P] held in some committed state. *)
Definition once (P : Db → Prop) (s : state) : Prop := ∃ db, db ∈ states s ∧ P db.

(** The effect [e] was at some point claimed by the gateway call [id]. *)
Definition claimed_by (e id : string) : state → Prop :=
  once (λ db, ∃ l, tool_effect_leases db !! e = Some l ∧
                   Lease.claim_owner l = Some ("tool:" +:+ id)).

Definition is_invoke (c : tool_call) : bool :=
  match c with Invoke _ => true | _ => false end.

(** The tool invocations made by the task [tag]. *)
Definition invokes (tag : string) (s : state) : list (string * tool_call) :=
  List.filter (λ x, bool_decide (x.1 = tag) && is_invoke x.2) (calls s).

Record WInv (s : state) : Prop := {
  wi_inv : inv (cur s);
  wi_past db : db ∈ past s → grows db (cur s);
  wi_exclusive e id1 id2 : never_replay (cur s) e →
    claimed_by e id1 s → claimed_by e id2 s → id1 = id2;
  wi_intent x : x ∈ calls s →
    ∃ row, intent_of (cur s) (Ledger.effect_id row) row ∧ call_intent x.2 = _intent_from_row row;
  wi_never x : x ∈ calls s → in_recovery_policy (call_intent x.2) = NeverReplay →
    is_invoke x.2 = true ∧ claimed_by (in_effect_id (call_intent x.2)) x.1 s;
  wi_once tag : (length (invokes tag s) ≤ 1)%nat
}.

Definition moves (tag : string) (s s' : state) : Prop :=
  (∃ db', s' = commit_state s db' ∧ grows (cur s) db') ∨ ∃ c, s' = log_call s tag c.

Lemma once_commit P s db' : once P s → once P (commit_state s db').
Proof. intros (db & Hin & H). exists db. split; [|done]. by apply elem_of_cons; right. Qed.

Lemma tool_inj id1 id2 : "tool:" +:+ id1 = "tool:" +:+ id2 → id1 = id2.
Proof. apply (inj (String.append _)). Qed.

Lemma winv_commit s db' :
  WInv s → effect_step (cur s) db' → WInv (commit_state s db').
Proof.
  intros [Hi Hp He Hc Hn Ho] [Hi' Hg Hk].
  split; simpl; [done| | | | |exact Ho].
  - intros db [->|Hdb]%elem_of_cons; [done|]. etrans; [by apply Hp|done].
  - intros e id1 id2 Hnr H1 H2.
    assert (Hcase : ∀ id, claimed_by e id (commit_state s db') →
      claimed_by e id s ∨ ∃ l', tool_effect_leases db' !! e = Some l' ∧
                                Lease.claim_owner l' = Some ("tool:" +:+ id)).
    { intros id (db & [->|Hdb]%elem_of_cons & Hl); [by right|left]. by exists db. }
    destruct (tool_effect_leases (cur s) !! e) as [l|] eqn:Hl.
    + (* the effect exists: its claim can only have been given up *)
      assert (never_replay (cur s) e) as Hnr0.
      { destruct (ew_lease_intent _ (inv_effects _ Hi) e l Hl) as [_ [row Hrow]].
        destruct Hnr as (row' & Hrow' & Hpol).
        rewrite (intent_unique db' e row' row (inv_effects _ Hi') Hrow') in Hpol;
          [|by eapply grows_intent]. by exists row. }
      assert (Hold : ∀ id, claimed_by e id (commit_state s db') → claimed_by e id s).
      { intros id Hid. destruct (Hcase id Hid) as [?|(l' & Hl' & Hc')]; [done|].
        exists (cur s). split; [by left|]. exists l. split; [done|].
        destruct (Hk e l l' Hnr0 Hl Hl') as [E|[E|(o & E & Hf)]]; [congruence|congruence|].
        rewrite E in Hc'. injection Hc' as ->. by destruct (Hf id). }
      by apply (He e); [|apply Hold..].
    + (* a new effect: no earlier state has a lease for it *)
      assert (Hnew : ∀ id, ¬ claimed_by e id s).
      { intros id (db & [->|Hdb]%elem_of_cons & l & Hl' & _); [congruence|].
        destruct (gr_leases _ _ (Hp db Hdb) e l Hl') as (l2 & Hl2 & _). congruence. }
      destruct (Hcase id1 H1) as [?|(l1 & Hl1 & E1)]; [by destruct (Hnew id1)|].
      destruct (Hcase id2 H2) as [?|(l2 & Hl2 & E2)]; [by destruct (Hnew id2)|].
      rewrite Hl1 in Hl2. injection Hl2 as <-. rewrite E1 in E2. apply tool_inj. congruence.
  - intros x Hx. destruct (Hc x Hx) as (row & Hrow & E). exists row. split; [|done].
    by eapply grows_intent.
  - intros x Hx Hpol. destruct (Hn x Hx Hpol) as [? ?]. split; [done|]. by apply once_commit.
Qed.

(** A call the task [tag] may make. *)
Definition callable (tag : string) (c : tool_call) (s : state) : Prop :=
  (∃ row, intent_of (cur s) (Ledger.effect_id row) row ∧ call_intent c = _intent_from_row row) ∧
  (in_recovery_policy (call_intent c) = NeverReplay →
     is_invoke c = true ∧ claimed_by (in_effect_id (call_intent c)) tag s) ∧
  (is_invoke c = true → invokes tag s = []).

Lemma invokes_log s tag tag' c :
  invokes tag (log_call s tag' c) =
  invokes tag s ++ (if bool_decide (tag' = tag) && is_invoke c then [(tag', c)] else []).
Proof. unfold invokes, log_call. simpl. by rewrite List.filter_app. Qed.

Lemma winv_call s tag c : WInv s → callable tag c s → WInv (log_call s tag c).
Proof.
  intros [Hi Hp He Hc Hn Ho] (H1 & H2 & H3). split; simpl.
  - done.
  - done.
  - exact He.
  - intros x [Hx|Hx%list_elem_of_singleton]%elem_of_app; [by apply Hc|]. by subst.
  - intros x [Hx|Hx%list_elem_of_singleton]%elem_of_app Hpol; [by apply Hn|]. subst. by apply H2.
  - intros tag'. rewrite invokes_log, length_app.
    destruct (bool_decide (tag = tag') && is_invoke c) eqn:E; [|specialize (Ho tag'); simpl; lia].
    apply andb_true_iff in E as [->%bool_decide_eq_true Hc']. rewrite H3 by done. simpl. lia.
Qed.

(** ** Assertions kept by other tasks and by any commit *)

Definition keeps (tag : string) (φ : state → Prop) : Prop :=
  (∀ s db', grows (cur s) db' → φ s → φ (commit_state s db')) ∧
  (∀ s other c, other ≠ tag → φ s → φ (log_call s other c)).

Lemma keeps_stable tag φ : keeps tag φ → stable WInv moves tag φ.
Proof.
  intros [H1 H2] other s s' Hne _ _ [(db' & -> & Hg)|(c & ->)] Hφ; [by apply H1|by apply H2].
Qed.

Lemma keeps_and tag φ ψ : keeps tag φ → keeps tag ψ → keeps tag (λ s, φ s ∧ ψ s).
Proof. intros [] []. split; intros; naive_solver. Qed.

Lemma keeps_true tag : keeps tag (λ _, True).
Proof. done. Qed.

Lemma keeps_once tag P : keeps tag (once P).
Proof. split; [by intros; apply once_commit|done]. Qed.

Lemma keeps_uninvoked tag : keeps tag (λ s, invokes tag s = []).
Proof.
  split; [done|]. intros s other c Hne H. rewrite invokes_log, H, bool_decide_false by done. done.
Qed.

Lemma keeps_pure tag (P : Prop) : keeps tag (λ _, P).
Proof. done. Qed.

#[export] Hint Resolve keeps_and keeps_true keeps_once keeps_uninvoked keeps_pure : durable.

Abbreviation okp := (ok (V:=answer) WInv moves).

(** A transaction that respects the tables, seen from the outside. *)
Definition seen {B} (P : B → Db → Prop) (o : tx_out B) (s : state) : Prop :=
  match o with Returned b => once (P b) s | _ => True end.

Lemma keeps_seen tag {B} (P : B → Db → Prop) o : keeps tag (seen P o).
Proof. destruct o; [apply keeps_once|apply keeps_true..]. Qed.

Lemma ok_tx tag {A B} (body : Z → Db → tx Db exn B) P (k : tx_out B → prog A) φ Q :
  safe_body body P → keeps tag φ →
  (∀ o, okp tag (k o) (λ s, φ s ∧ seen P o s) Q) →
  okp tag (Tx body k) φ Q.
Proof.
  intros Hb Hφ Hk. exists (λ o s, φ s ∧ seen P o s). split_and!.
  - intros o. apply keeps_stable, keeps_and; [done|apply keeps_seen].
  - done.
  - intros s now o db' HI Hs Hstep. specialize (Hb now (cur s) (wi_inv s HI)).
    assert (effect_step (cur s) db' ∧ (∀ b, o = Returned b → P b db')) as [Hes HP].
    { pose proof (effect_step_refl _ (wi_inv s HI)) as Hrefl.
      destruct Hstep as [b db' E|b E|e E|e|b db' e E|b db' e E]; rewrite ?E in Hb.
      - destruct Hb. split; [done|]. by intros b' [= <-].
      - split; [done|]. by intros b' [= <-].
      - by split.
      - by split.
      - by split.
      - by destruct Hb. }
    split_and!; [by apply winv_commit|left; exists db'; split; [done|apply Hes]| |].
    + apply Hφ; [apply Hes|done].
    + destruct o; simpl; [|done|done]. exists db'. split; [by left|]. by apply HP.
Qed.

Lemma ok_atomically tag {B} (body : Z → Db → tx Db exn B) P φ :
  safe_body body P → keeps tag φ →
  okp tag (atomically body) φ (λ r s, φ s ∧ ∀ b, r = Ok b → once (P b) s).
Proof.
  intros Hb Hφ. eapply ok_tx; [done|done|]. intros [b|e|e]; simpl; intros s _ [Hs Hseen];
    (split; [done|]); [by intros b' [= <-]|done|done].
Qed.

Lemma ok_call tag {A} c (k : result exn answer → prog A) φ ψ Q :
  keeps tag ψ →
  (∀ s, WInv s → φ s → callable tag c s ∧ ψ (log_call s tag c)) →
  (∀ r, okp tag (k r) ψ Q) → okp tag (Call c k) φ Q.
Proof.
  intros Hψ Hc Hk. exists ψ. split_and!; [by apply keeps_stable|done|].
  intros s HI Hs. destruct (Hc s HI Hs) as [Hcall ?].
  split_and!; [by apply winv_call|by right; exists c|done].
Qed.

(** ** Sequencing *)

(** [φ] still holds, and a result satisfies [P] in some committed state. *)
Definition after {A} (φ : state → Prop) (P : A → Db → Prop) (r : result exn A) (s : state) : Prop :=
  φ s ∧ ∀ a, r = Ok a → once (P a) s.

Lemma okp_pre tag {A} (p : prog A) φ φ' Q :
  (∀ s, φ' s → φ s) → okp tag p φ Q → okp tag p φ' Q.
Proof. intros H. apply ok_weaken; [auto|done]. Qed.

Lemma okp_bind tag {A A'} (p : prog A) (f : A → prog A') φ P P' :
  okp tag p φ (after φ P) →
  (∀ a, okp tag (f a) (λ s, φ s ∧ once (P a) s) (after φ P')) →
  okp tag (bind p f) φ (after φ P').
Proof.
  intros Hp Hf. eapply ok_bind; [done| |].
  - intros a. eapply okp_pre; [|apply Hf]. intros s [? H]. split; [done|]. by apply H.
  - intros e s _ [? _]. by split.
Qed.

(** The result of the first part does not matter. *)
Lemma okp_seq tag {A A'} (p : prog A) (f : A → prog A') φ P P' :
  okp tag p φ (after φ P) → (∀ a, okp tag (f a) φ (after φ P')) →
  okp tag (bind p f) φ (after φ P').
Proof.
  intros Hp Hf. eapply okp_bind; [done|]. intros a. eapply okp_pre; [|apply Hf]. by intros s [].
Qed.

Lemma okp_catch tag {A} (p : prog A) h φ P :
  okp tag p φ (after φ P) → (∀ e, okp tag (h e) φ (after φ P)) →
  okp tag (catch p h) φ (after φ P).
Proof.
  intros Hp Hh. eapply ok_catch; [done| |done].
  intros e. eapply okp_pre; [|apply Hh]. by intros s [].
Qed.

Lemma okp_throw tag {A} e φ (P : A → Db → Prop) : okp tag (Throw e) φ (after φ P).
Proof. intros s _ Hs. by split. Qed.

Lemma okp_ret tag {A} (a : A) (φ φ' : state → Prop) (P : A → Db → Prop) :
  (∀ s, φ' s → φ s ∧ once (P a) s) → okp tag (Ret a) φ' (after φ P).
Proof. intros H s _ Hs. destruct (H s Hs). split; [done|]. by intros a' [= <-]. Qed.

Definition always {A} : A → Db → Prop := λ _ _, True.

Lemma once_always {A} (a : A) s : once (always a) s.
Proof. exists (cur s). split; [by left|done]. Qed.

Lemma okp_value tag {A} (a : A) φ : okp tag (Ret a) φ (after φ always).
Proof. apply okp_ret. intros s Hs. split; [done|apply once_always]. Qed.

Lemma okp_lift tag {A} (r : result exn A) φ : okp tag (lift r) φ (after φ always).
Proof. destruct r; [apply okp_value|apply okp_throw]. Qed.

Lemma okp_uuid tag φ : okp tag uuid φ (after φ always).
Proof. intros u. apply okp_value. Qed.

Lemma okp_is_set tag φ : okp tag is_set φ (after φ always).
Proof. intros b. apply okp_value. Qed.

Lemma okp_tx tag {B} (body : Z → Db → tx Db exn B) P φ :
  safe_body body P → keeps tag φ → okp tag (atomically body) φ (after φ P).
Proof. apply ok_atomically. Qed.

Lemma safe_anything {B} (body : Z → Db → tx Db exn B) P :
  safe_body body P → safe_body body always.
Proof.
  intros H now db Hi. specialize (H now db Hi). destruct (body now db); [|done|done].
  by destruct H.
Qed.

(** Transactions that only read. *)
Lemma safe_read {B} (body : Z → Db → tx Db exn B) :
  (∀ now db, match body now db with Commit _ _ => False | _ => True end) → safe_body body always.
Proof. intros H now db _. specialize (H now db). by destruct (body now db). Qed.

Lemma caller_principal_safe r : safe_body (caller_principal r) always.
Proof. apply safe_read. intros now db. unfold caller_principal. by destruct (_ !! _). Qed.
Lemma key_exists_safe k : safe_body (key_exists k) always.
Proof. by apply safe_read. Qed.
Lemma terminal_decision_safe e : safe_body (terminal_decision e) always.
Proof. apply safe_read. intros now db. unfold terminal_decision. by destruct (one_or_none _). Qed.
Lemma intent_run_id_safe e : safe_body (_intent_run_id e) always.
Proof. apply safe_read. intros now db. unfold _intent_run_id. by destruct (one _). Qed.
Lemma pending_safe : safe_body pending_effect_ids always.
Proof. by apply safe_read. Qed.

Lemma record_attempt_safe a : safe_body (HarnessLedger.record_attempt a) always.
Proof.
  intros now db Hi. unfold HarnessLedger.record_attempt.
  destruct (HarnessLedger._validate a); [|done].
  destruct (HarnessLedger._reserve _ _ _) as [[seq cs]|]; [|done].
  destruct (existsb _ _); [done|]. split; [|done].
  apply runs_only_step; [done| |done|done]. intros Hwf.
  split; [by apply (wf_same_runs db)|].
  intros r row Hr. by exists row.
Qed.

#[export] Hint Resolve caller_principal_safe key_exists_safe terminal_decision_safe
  intent_run_id_safe pending_safe record_attempt_safe acquire_safe abandon_safe renew_run_safe
  commit_result_safe mark_unknown_safe settle_safe release_recovered_safe release_recovery_safe
  existing_decision_safe create_intent_safe okp_throw okp_value okp_lift okp_uuid okp_is_set
  okp_tx : durable.

Section programs.
Context `{Host} (tag : string).

Lemma begin_intent_ok r o claim tc tool args pol ik secs n φ :
  keeps tag φ →
  okp tag (begin_intent r o claim tc tool args pol ik secs n) φ (after φ (decision_ok claim)).
Proof.
  intros Hφ. induction n as [|n IH].
  all: cbn [begin_intent canonical_tool_args]; eapply okp_seq; [eauto with durable|]; intros scope.
  all: eapply okp_seq; [eauto with durable|]; intros [key ex].
  all: assert (Hexist : okp tag (atomically (_existing_decision key r o claim tool
      (sha256_hex (canonical_args args)) secs)) φ (after φ (decision_ok claim)))
      by eauto with durable.
  all: apply okp_catch.
  1,3: eapply okp_seq; [eauto with durable|]; intros [|]; [done|];
    eapply okp_seq; [eauto with durable|]; intros eid;
    eapply okp_seq; [eauto with durable|]; intros rid;
    eapply okp_bind; [eauto with durable|]; intros [d|];
    [apply okp_ret; intros s [Hs (db & Hin & Hd)]; split; [done|]; exists db; auto
    |eapply okp_pre; [|exact Hexist]; by intros s []].
  all: intros e; destruct (is_tool_effect_error e); [eauto with durable|];
    destruct (is_db_conflict e);
    [eapply okp_seq; [eauto with durable|]; intros [|]; eauto with durable
    |destruct (is_exception e); eauto with durable].
Qed.

Lemma commit_result_ok e o claim v failed rec n φ :
  keeps tag φ →
  okp tag (commit_result e o claim v failed rec n) φ (after φ always).
Proof.
  intros Hφ. induction n as [|n IH].
  all: cbn [commit_result]; eapply ok_tx; [apply commit_result_safe|done|].
  all: intros [b|ex|ex]; cbv beta iota;
    [apply okp_ret; intros s [? _]; split; [done|apply once_always]
    |eapply okp_pre; [|apply okp_throw]; by intros s []|].
  all: eapply (okp_pre _ _ φ); [by intros s []|].
  all: destruct (is_db_conflict ex); [|eauto with durable].
  all: eapply okp_seq; [eauto with durable|]; intros [d|]; [|eauto with durable].
  all: unfold decision_value; destruct (id_action d); eauto with durable.
Qed.

Lemma commit_recovered_ok e v owner φ :
  keeps tag φ → okp tag (commit_recovered_result e v owner) φ (after φ always).
Proof.
  intros Hφ. eapply okp_seq; [by apply commit_result_ok|]. intros v'.
  eapply okp_seq; eauto with durable.
Qed.

Lemma renew_claim_ok e o claim secs φ :
  keeps tag φ → okp tag (renew_invocation_claim e o claim secs) φ (after φ always).
Proof.
  intros Hφ. eapply okp_seq; [eauto with durable|]. intros r.
  eapply okp_seq; [eauto with durable|]. intros [|]; simpl negb; cbv iota; [|eauto with durable].
  apply okp_catch; [eapply okp_seq; eauto with durable|].
  intros []; eauto with durable.
Qed.

Lemma suppress_ok (p : prog unit) φ :
  okp tag p φ (after φ always) → okp tag (suppress p) φ (after φ always).
Proof.
  intros Hp. apply okp_catch; [done|]. intros e. destruct (is_exception e); eauto with durable.
Qed.

Lemma lost_check_ok e φ : okp tag (lost_check e) φ (after φ always).
Proof. eapply okp_seq; [eauto with durable|]. intros [|]; eauto with durable. Qed.

(** After its only invocation a task has nothing left to prove. *)
Abbreviation done_with := (λ _ : state, True).

Section gateway.
Context (registry : Registry) (secs : Z) (r o tc tool : string) (args : dict)
  (ik : option string) (classify : option (json → bool)).

(** The state in which the gateway holds a decision to act. *)
Definition ready (d : IntentDecision) (s : state) : Prop :=
  invokes tag s = [] ∧ once (decision_ok (gateway_claim tag) d) s.

Lemma keeps_ready d : keeps tag (ready d).
Proof. apply keeps_and; auto with durable. Qed.

Lemma decision_intent d s :
  WInv s → once (decision_ok (gateway_claim tag) d) s →
  ∃ row, intent_of (cur s) (Ledger.effect_id row) row ∧ id_intent d = _intent_from_row row.
Proof.
  intros HI (db & Hin & [(row & Hrow & E) _ _]). exists row. split; [|done].
  apply elem_of_cons in Hin as [->|Hin]; [done|].
  eapply grows_intent; [by apply (wi_past s HI)|done].
Qed.

Lemma invoke_ok d φ :
  (∀ s, φ s → ready d s ∧
     (in_recovery_policy (id_intent d) = NeverReplay → id_action d = AExecute)) →
  okp tag (invoke_and_commit o classify tag (id_intent d)) φ (after done_with always).
Proof.
  intros Hr. unfold invoke_and_commit, call. cbn [bind].
  eapply (ok_call tag _ _ _ done_with); [apply keeps_true| |].
  - intros s HI Hs. split; [|done]. destruct (Hr s Hs) as [[Hno Hd] Ha].
    split_and!; [by apply decision_intent|intros Hpol; split; [done|]|done].
    destruct Hd as (db & Hin & [_ _ Hcl]). destruct (Hcl (Ha Hpol) Hpol) as (l & Hl & Hc).
    exists db. split; [done|]. by exists l.
  - intros [a|e]; [|eauto with durable]. cbn [bind].
    eapply okp_seq; [apply lost_check_ok|]. intros _.
    eapply okp_seq; [apply commit_result_ok, keeps_true|]. intros v. eauto with durable.
Qed.

Lemma mark_and_raise_ok {A} e reason :
  okp tag (mark_unknown_and_raise (A:=A) o tag e reason) done_with (after done_with always).
Proof. eapply okp_seq; [eauto with durable|]. eauto with durable. Qed.

Lemma claimed_body_ok d :
  id_action d = AExecute ∨ id_action d = AReconcile →
  okp tag (claimed_body registry o tool classify tag d) (ready d) (after done_with always).
Proof.
  intros Hact. unfold claimed_body.
  destruct (id_action d) eqn:Ha; try (by destruct Hact); [by apply invoke_ok|].
  destruct (reconciler _) as [adapter|].
  2:{ eapply okp_pre; [|apply mark_and_raise_ok]. done. }
  unfold call. cbn [bind].
  eapply (ok_call tag _ _ _ (λ s, ready d s ∧ in_recovery_policy (id_intent d) = Reconcile)).
  - apply keeps_and; [apply keeps_ready|apply keeps_pure].
  - intros s HI [Hno Hd].
    assert (in_recovery_policy (id_intent d) = Reconcile) as Hpol.
    { destruct Hd as (db & _ & [_ Hrec _]). by apply Hrec. }
    split_and!; [|split|done].
    + split_and!; [by apply decision_intent|simpl; congruence|done].
    + rewrite invokes_log, Hno. simpl. by rewrite andb_false_r.
    + exact Hd.
  - intros [a|e]; cbn [bind].
    2:{ eapply ok_weaken; [|done|apply (okp_throw _ _ done_with)]. done. }
    eapply ok_bind; [apply lost_check_ok| |].
    2:{ intros e s _ _. by split. }
    intros []. destruct (_reconciliation a) as [outcome v]. cbv beta iota.
    destruct (bool_decide (outcome = "applied")).
    + eapply (okp_pre _ _ done_with); [done|].
      eapply okp_seq; [apply commit_result_ok, keeps_true|]. eauto with durable.
    + destruct (bool_decide (outcome = "not_applied")).
      * apply invoke_ok. intros s [[Hr Hpol] _]. split; [done|]. congruence.
      * eapply (okp_pre _ _ done_with); [done|]. apply mark_and_raise_ok.
Qed.

Lemma abandon_execution_ok e ex : okp tag (abandon_execution o tag e ex) done_with (after done_with always).
Proof.
  eapply okp_seq; [apply suppress_ok; eauto with durable|]. intros _.
  destruct ex; eauto with durable.
Qed.

Lemma execute_outcome_ok polls :
  okp tag (execute_outcome registry secs r o tc tool args ik classify tag polls)
    (λ s, invokes tag s = []) (λ _ _, True).
Proof.
  induction polls as [|polls IH]; cbn [execute_outcome]; [done|].
  eapply ok_bind; [apply begin_intent_ok, keeps_uninvoked| |done].
  intros d. eapply (okp_pre _ _ (ready d)); [intros s [? Hd]; split; auto|].
  assert (Hskip : ∀ (p : prog (option ToolExecutionOutcome)),
    okp tag p (λ s, invokes tag s = []) (λ _ _, True) → okp tag p (ready d) (λ _ _, True)).
  { intros p. apply okp_pre. by intros s []. }
  destruct (id_action d) eqn:Ha; try done.
  1,2: eapply ok_bind; [apply okp_tx; [apply acquire_safe|apply keeps_ready]| |done];
    intros []; eapply (okp_pre _ _ (ready d)); [by intros s []|];
    eapply ok_bind; [|done|done];
    apply (ok_catch _ _ _ _ _ _ (after done_with always) (after done_with always)); [| |done];
    [apply claimed_body_ok; auto|intros ex; eapply okp_pre; [|apply abandon_execution_ok]; done].
  apply Hskip. eapply ok_bind; [eauto with durable| |done].
  intros [t|]; [by destruct (id_action t)|]. eapply okp_pre; [|exact IH]. by intros s [].
Qed.
End gateway.

Section sweep.
Context (registry : Registry) (secs : Z).

(** The sweep holds the committed intent of the effect it recovers. *)
Definition recovering (i : ToolIntent) : state → Prop :=
  once (λ db, ∃ row, intent_of db (Ledger.effect_id row) row ∧ i = _intent_from_row row).

Lemma recorded_call_ok i c phase :
  call_intent c = i → is_invoke c = false → in_recovery_policy i ≠ NeverReplay →
  okp tag (_recorded_recovery_call c phase) (recovering i) (after (recovering i) always).
Proof.
  intros Hi Hc Hp. eapply (ok_call tag _ _ _ (recovering i)); [apply keeps_once| |].
  - intros s HI Hs. split; [|exact Hs]. rewrite <- Hi in *. split_and!; [|done|congruence].
    destruct Hs as (db & Hin & row & Hrow & E). exists row. split; [|done].
    apply elem_of_cons in Hin as [->|Hin]; [done|].
    eapply grows_intent; [by apply (wi_past s HI)|done].
  - intros r. eapply okp_seq; [|intros []; apply okp_lift].
    apply suppress_ok. eapply okp_seq; [apply okp_tx; [apply record_attempt_safe|apply keeps_once]|].
    intros a. apply okp_value.
Qed.

Lemma recover_claimed_ok owner i :
  okp tag (recover_claimed registry owner i) (recovering i) (after (recovering i) always).
Proof.
  assert (keeps tag (recovering i)) as Hk by apply keeps_once.
  assert (∀ v, okp tag (commit_recovered_result (in_effect_id i) v owner) (recovering i)
                 (after (recovering i) always)) as Hcommit.
  { intros v. by apply commit_recovered_ok. }
  unfold recover_claimed. destruct (in_recovery_policy i) eqn:Hp.
  - destruct (replayer _) as [adapter|]; [|eauto with durable].
    eapply okp_seq; [by apply recorded_call_ok; [..|rewrite Hp]|]. intros a.
    eapply okp_seq; [apply lost_check_ok|]. intros [].
    eapply okp_seq; [apply Hcommit|]. eauto with durable.
  - destruct (reconciler _) as [adapter|]; [|eauto with durable].
    eapply okp_seq; [by apply recorded_call_ok; [..|rewrite Hp]|]. intros a.
    eapply okp_seq; [apply lost_check_ok|]. intros [].
    destruct (_reconciliation a) as [outcome v]. cbv beta iota zeta.
    assert (∀ v, okp tag (let! _ := lost_check (in_effect_id i) in
        let! _ := commit_recovered_result (in_effect_id i) v owner in Ret SwReconciled)
        (recovering i) (after (recovering i) always)) as Hfin.
    { intros v'. eapply okp_seq; [apply lost_check_ok|]. intros [].
      eapply okp_seq; [apply Hcommit|]. eauto with durable. }
    assert (∀ reason, okp tag (let! _ := atomically (mark_unknown (in_effect_id i) owner owner reason)
        in Ret SwNeedsAttention) (recovering i) (after (recovering i) always)) as Hund.
    { intros reason. eapply okp_seq; eauto with durable. }
    destruct (bool_decide _); [apply Hfin|].
    destruct (bool_decide _); [|apply Hund].
    destruct (replayer _) as [adapter'|]; [|apply Hund].
    eapply okp_seq; [by apply recorded_call_ok; [..|rewrite Hp]|]. intros a'. apply Hfin.
  - eapply okp_seq; eauto with durable.
Qed.

Lemma recovery_owner_foreign id : foreign ("tool-recovery:" +:+ id).
Proof. by intros id'. Qed.

Lemma defer_ok owner e ex φ :
  keeps tag φ → okp tag (defer owner e ex) φ (after φ always).
Proof.
  intros Hφ. unfold defer. destruct (is_exception ex); [|eauto with durable].
  eapply okp_seq; [|eauto with durable]. apply okp_catch; [eauto with durable|].
  intros ex'. destruct (is_tool_effect_error ex'); eauto with durable.
Qed.

Lemma recover_one_ok e : okp tag (recover_one registry secs e) done_with (after done_with always).
Proof.
  eapply okp_seq; [eauto with durable|]. intros [i|]; [eauto with durable|].
  eapply okp_seq; [eauto with durable|]. intros id.
  eapply okp_bind; [apply okp_tx; [apply claim_recovery_safe, recovery_owner_foreign|apply keeps_true]|].
  intros [i|]; [|apply okp_ret; intros s _; split; [done|apply once_always]].
  match goal with |- ok _ _ _ ?p _ _ =>
    assert (okp tag p (recovering i) (after (recovering i) always)) as Hp end.
  { eapply okp_seq; [apply okp_catch; [apply recover_claimed_ok|]|intros a; apply okp_value].
    intros ex. apply defer_ok, keeps_once. }
  eapply ok_weaken; [| |exact Hp]; [|by intros r s _ [_ ?]].
  intros s _ [_ (db & Hin & Hf)]. exists db. split; [done|].
  destruct (Hf i eq_refl) as (row & [Hrow [<- Hev]%is_intent_of_true] & ->).
  exists row. split; [|done]. split; [done|]. by apply is_intent_of_true.
Qed.

Lemma recover_all_ok es : okp tag (recover_all registry secs es) done_with (after done_with always).
Proof.
  induction es as [|e es IH]; [apply okp_value|].
  eapply okp_seq; [apply recover_one_ok|]. intros d.
  eapply okp_seq; [exact IH|]. intros ds. apply okp_value.
Qed.

Lemma sweep_ok :
  okp tag (recover_incomplete_tool_effects registry secs) done_with (after done_with always).
Proof. eapply okp_seq; [eauto with durable|]. intros es. apply recover_all_ok. Qed.
End sweep.
End programs.

(** ** Clients *)

Section clients.
Context `{Host}.

(** The tasks of the system: gateway calls named by the identifier in their
    claim, sweeps, heartbeats and calls of the run journal. *)
Inductive client : string → prog unit → Prop :=
| client_gateway id registry secs r o tc tool args ik classify polls :
    client id (ignore (execute_outcome registry secs r o tc tool args ik classify id polls))
| client_sweep id registry secs :
    client id (ignore (recover_incomplete_tool_effects registry secs))
| client_heartbeat id e o claim secs :
    client id (ignore (renew_invocation_claim e o claim secs))
| client_journal id c :
    frame_ok c → client id (ignore (atomically (journal_body c))).

Lemma okp_ignore tag {A} (p : prog A) φ Q :
  okp tag p φ Q → okp tag (ignore p) φ (λ _ _, True).
Proof. intros Hp. eapply ok_bind; [exact Hp| |]; done. Qed.

Lemma clients_safe : clients_ok client WInv moves.
Proof.
  intros tag p Hc. destruct Hc.
  - exists (λ s, invokes id s = []). split_and!.
    + apply keeps_stable, keeps_uninvoked.
    + intros s _ Hn. unfold invokes.
      destruct (List.filter _ _) as [|x xs] eqn:E; [done|]. exfalso.
      assert (x ∈ x :: xs) as Hx by left. rewrite <- E in Hx.
      apply list_elem_of_In, filter_In in Hx as [Hin Hx]. bool_simpl. apply Hn. subst.
      apply list_elem_of_fmap_2. by apply list_elem_of_In.
    + eapply okp_ignore, execute_outcome_ok.
  - exists (λ _, True). split_and!; [apply keeps_stable, keeps_true|done|].
    eapply okp_ignore, sweep_ok.
  - exists (λ _, True). split_and!; [apply keeps_stable, keeps_true|done|].
    eapply okp_ignore, renew_claim_ok, keeps_true.
  - exists (λ _, True). split_and!; [apply keeps_stable, keeps_true|done|].
    eapply okp_ignore, okp_tx; [by apply journal_body_safe|apply keeps_true].
Qed.

(** A fresh start: a consistent database, no task, no call. *)
Definition boot (db : Db) : world tool_call answer := mkWorld (mkState db [] []) [].

(** Every execution from [boot db]. *)
Definition execution (db : Db) (w : world tool_call answer) : Prop :=
  rtc (world_step client) (boot db) w.

Lemma execution_inv db w : inv db → execution db w → WInv (st w).
Proof.
  intros Hi Hr. refine (world_inv _ _ _ (reachable_ok client WInv moves _ _ clients_safe _ Hr)).
  split; simpl.
  - split; simpl; [done| | | | |].
    + intros db' Hin. by apply not_elem_of_nil in Hin.
    + intros e id1 id2 _ (db1 & [->|H1]%elem_of_cons & l1 & Hl1 & E1)
        (db2 & [->|H2]%elem_of_cons & l2 & Hl2 & E2);
        try by apply not_elem_of_nil in H1; try by apply not_elem_of_nil in H2.
      all: try by apply not_elem_of_nil in H2.
      apply tool_inj. congruence.
    + intros x Hx. by apply not_elem_of_nil in Hx.
    + intros x Hx. by apply not_elem_of_nil in Hx.
    + intros tag. simpl. lia.
  - apply NoDup_nil_2.
  - done.
  - intros t Ht. by apply not_elem_of_nil in Ht.
Qed.
End clients.
