(* ===== verification/ToolEffectThms.v ===== *)
(** * Theorems about tool effects

    Over all executions of the concurrent system of [ToolEffectWorld], then
    about single transactions and single programs. *)

From S2P Require Import Prelude Db RunJournal RunJournalProps PyString ToolPolicies Program.
From S2P Require Import ToolEffectJournal ToolEffectProps HarnessLedger ToolEffectGateway.
From S2P Require Import ToolEffectWorld RunJournalThms.
Import ToolPolicies ToolEffectJournal ToolEffectGateway.

(** ** Executions *)

(** The external calls made for the non-replayable intent with key [k]. *)
Definition calls_for_key (k : string) (s : state) : list (string * tool_call) :=
  List.filter (λ x, bool_decide (in_idempotency_key (call_intent x.2) = k)
                    && bool_decide (in_recovery_policy (call_intent x.2) = NeverReplay)) (calls s).

Lemma filter_le {A} (p q : A → bool) (l : list A) :
  (∀ x, x ∈ l → p x = true → q x = true) →
  (length (List.filter p l) ≤ length (List.filter q l))%nat.
Proof.
  induction l as [|x l IH]; intros H; simpl; [lia|].
  assert (length (List.filter p l) ≤ length (List.filter q l))%nat.
  { apply IH. intros y Hy. apply H. by right. }
  destruct (p x) eqn:Hp; [rewrite (H x); [simpl; lia|by left|done]|].
  destruct (q x); simpl; lia.
Qed.

Lemma key_unique db row1 row2 : effects_wf db →
  row1 ∈ tool_effect_ledger db → row2 ∈ tool_effect_ledger db →
  Ledger.idempotency_key row1 = Ledger.idempotency_key row2 →
  is_Some (Ledger.idempotency_key row1) → row1 = row2.
Proof.
  intros Hw H1 H2 E [k Hk]. eapply NoDup_omap_inj; [apply (ew_keys db Hw)|done|done|done|congruence].
Qed.

Section executions.
Context `{Host}.

(** C1: a non-replayable tool call reaches the outside world at most once.
    However many workers retry the same idempotency key, however their
    transactions interleave, whichever commits are lost or unacknowledged, and
    whatever recovery sweeps run beside them, at most one external call is ever
    made for it. *)
Theorem never_replay_at_most_once db w k :
  inv db → execution db w → (length (calls_for_key k (st w)) ≤ 1)%nat.
Proof.
  intros Hi Hw. pose proof (execution_inv db w Hi Hw) as HI.
  destruct (calls_for_key k (st w)) as [|x xs] eqn:E; [simpl; lia|]. rewrite <- E.
  assert (Hall : ∀ y, y ∈ calls_for_key k (st w) → y ∈ calls (st w) ∧
    in_idempotency_key (call_intent y.2) = k ∧ in_recovery_policy (call_intent y.2) = NeverReplay).
  { intros y Hy. apply list_elem_of_In, filter_In in Hy as [Hy Hb].
    apply list_elem_of_In in Hy. bool_simpl. done. }
  assert (x ∈ calls_for_key k (st w)) as Hx by (rewrite E; left).
  destruct (Hall x Hx) as (Hxin & Hxk & Hxp).
  destruct (wi_intent _ HI x Hxin) as (rx & [Hrx Hix] & Ex).
  destruct (wi_never _ HI x Hxin Hxp) as [_ Hxc].
  etrans; [|apply (wi_once _ HI x.1)].
  apply filter_le. intros y Hyin Hy.
  assert (y ∈ calls_for_key k (st w)) as Hy'.
  { apply list_elem_of_In, filter_In. by rewrite <- list_elem_of_In. }
  destruct (Hall y Hy') as (_ & Hyk & Hyp).
  destruct (wi_intent _ HI y Hyin) as (ry & [Hry Hiy] & Ey).
  destruct (wi_never _ HI y Hyin Hyp) as [Hyi Hyc].
  assert (rx = ry) as <-.
  { pose proof (inv_effects _ (wi_inv _ HI)) as Hwf.
    apply is_intent_of_true in Hix as [_ Hix], Hiy as [_ Hiy].
    pose proof (proj1 (ew_key _ Hwf rx Hrx) Hix) as [kx Hkx].
    pose proof (proj1 (ew_key _ Hwf ry Hry) Hiy) as [ky Hky].
    apply (key_unique (cur (st w))); [done|done|done| |by eexists].
    rewrite Ex in Hxk. rewrite Ey in Hyk. unfold _intent_from_row, str_opt in Hxk, Hyk.
    rewrite Hkx, Hky in *. simpl in *. congruence. }
  rewrite Ey in Hyc. rewrite Ex in Hxc. rewrite Hyi, andb_true_r. apply bool_decide_eq_true.
  eapply (wi_exclusive _ HI); [|exact Hyc|exact Hxc].
  exists rx. split; [by split|]. rewrite Ex in Hxp. exact Hxp.
Qed.

(** no tool runs before its intent is durable: whatever the execution,
    every external call was made for an intent that is committed in the ledger,
    and a sweep never calls an adapter for a non-replayable intent. *)
Theorem intent_precedes_call db w tag c :
  inv db → execution db w → (tag, c) ∈ calls (st w) →
  (∃ row, intent_of (cur (st w)) (in_effect_id (call_intent c)) row ∧
          call_intent c = _intent_from_row row) ∧
  (in_recovery_policy (call_intent c) = NeverReplay → ∃ i, c = Invoke i).
Proof.
  intros Hi Hw Hin. pose proof (execution_inv db w Hi Hw) as HI. split.
  - destruct (wi_intent _ HI _ Hin) as (row & Hrow & E). exists row. simpl in E. by rewrite E.
  - intros Hp. destruct (wi_never _ HI _ Hin Hp) as [Hc _]. destruct c; try done. by eexists.
Qed.

Lemma states_grow w w' : rtc (world_step client) w w' →
  ∀ db, db ∈ states (st w) → db ∈ states (st w').
Proof.
  induction 1 as [w|w w1 w' Hstep _ IH]; [done|]. intros db Hdb. apply IH.
  destruct Hstep as [|s ts1 ts2 tag p p' s' Ht]; [done|]. simpl in *.
  destruct Ht; simpl in *; [by right|done..].
Qed.

Lemma execution_grows db w w' : inv db → execution db w → rtc (world_step client) w w' →
  grows (cur (st w)) (cur (st w')).
Proof.
  intros Hi Hw Hr.
  assert (WInv (st w')) as HI by (eapply execution_inv; [done|unfold execution; by etrans]).
  assert (cur (st w) ∈ states (st w')) as [->|Hin]%elem_of_cons
    by (eapply states_grow; [done|left]).
  - reflexivity.
  - by apply (wi_past _ HI).
Qed.

(** C23: the outcome of an effect is decided once.  A terminal fact never
    changes or disappears, no second one is recorded for the effect, and a run
    that completed, failed or was cancelled keeps that verdict, in every
    continuation of every execution. *)
Theorem outcome_decided_once db w w' :
  inv db → execution db w → rtc (world_step client) w w' →
  (∀ e t, _terminal_row (cur (st w)) e = Some t → _terminal_row (cur (st w')) e = Some t) ∧
  (∀ e t1 t2, t1 ∈ tool_effect_ledger (cur (st w')) → t2 ∈ tool_effect_ledger (cur (st w')) →
     Ledger.terminal_effect_id t1 = Some e → Ledger.terminal_effect_id t2 = Some e → t1 = t2) ∧
  (∀ r run, chat_runs (cur (st w)) !! r = Some run → is_terminal (ChatRun.status run) = true →
     ∃ run', chat_runs (cur (st w')) !! r = Some run' ∧
             ChatRun.status run' = ChatRun.status run).
Proof.
  intros Hi Hw Hr. pose proof (execution_grows db w w' Hi Hw Hr) as [[k El] _ Hruns].
  assert (WInv (st w')) as HI by (eapply execution_inv; [done|unfold execution; by etrans]).
  split_and!.
  - intros e t Ht. unfold _terminal_row in *. by rewrite El, find_app, Ht.
  - intros e t1 t2 H1 H2 E1 E2.
    eapply NoDup_omap_inj; [apply (ew_terminals _ (inv_effects _ (wi_inv _ HI)))|done..].
  - intros r run Hrun Ht. destruct (Hruns r run Hrun) as (run' & Hrun' & Hev). exists run'.
    split; [done|]. by apply (ev_settled _ _ _ Hev).
Qed.
End executions.

(** ** Results *)

Section results.
Context `{Host}.

Lemma commit_result_shape e ro claim v failed rec now db v' db' :
  inv db → commit_result_body e ro claim v failed rec now db = Commit v' db' →
  v' = v ∧ ∃ i seq err, intent_of db e i ∧ _terminal_row db e = None ∧
    tool_effect_ledger db' =
      tool_effect_ledger db ++ [fact now i seq (if failed then Failure else Result) v err true].
Proof.
  intros Hi. unfold commit_result_body.
  destruct (one (intent_rows db e)) as [i|] eqn:Hint; [|done]. apply one_intent in Hint.
  destruct (_terminal_row db e) as [t|] eqn:Ht; [by destruct (committed_value e t)|].
  destruct (one_lease db e) as [l|] eqn:Hl; [|done]. apply lease_of in Hl as [Hl Hle]; [|done].
  destruct (_ || _ || _); [done|].
  pose proof Hint as [_ [Hie _]%is_intent_of_true].
  unfold _commit_result_locked. rewrite Hie, Ht.
  destruct (bool_decide _); [done|].
  destruct (RunJournal._locked_owned_run _ _ _ _) as [run|] eqn:Hrun; [|done].
  apply owned_run in Hrun as (Hrun & Hid & Hlive); [|done].
  match goal with |- context [_append_event now db run i ro ?ev ?ty ?ph ?sf v ?err true] =>
    destruct (append_event_ok now db run i e ro ev ty ph sf v err true)
      as (db1 & E & Hi1 & Hg1 & El & Et & Er) end;
    [done|by rewrite Hid|done|by rewrite Hid|by destruct failed|by destruct failed|].
  rewrite E. intros [= <- <-]. split; [done|]. eexists i, _, _. split_and!; [done|done|exact Et].
Qed.

(** The effect [e] has the committed outcome [v]. *)
Definition outcome_is (db : Db) (e : string) (failed : bool) (v : json) : Prop :=
  ∃ t, _terminal_row db e = Some t ∧ Ledger.result_payload t = v ∧
       Ledger.event_type t = if failed then Failure else Result.

Lemma commit_result_outcome e ro claim v failed rec now db v' db' :
  inv db → commit_result_body e ro claim v failed rec now db = Commit v' db' →
  outcome_is db' e failed v.
Proof.
  intros Hi Hc. destruct (commit_result_shape _ _ _ _ _ _ _ _ _ _ Hi Hc)
    as (-> & i & seq & err & [_ [Hie _]%is_intent_of_true] & Hn & El).
  eexists. unfold _terminal_row in *. rewrite El, find_app, Hn. simpl.
  rewrite bool_decide_true by done. split; [done|]. done.
Qed.

Lemma outcome_grows db db' e failed v : grows db db' → outcome_is db e failed v → outcome_is db' e failed v.
Proof.
  intros [[k El] _ _] (t & Ht & Hv). exists t. split; [|done].
  unfold _terminal_row in *. by rewrite El, find_app, Ht.
Qed.

Lemma intent_lookup db e row : effects_wf db → intent_of db e row →
  one (intent_rows db e) = Ok row ∧ one_or_none (intent_rows db e) = Ok (Some row).
Proof. intros Hw Hi. by rewrite (intent_rows_of db e row Hw Hi). Qed.

Lemma outcome_decision db e failed v now : inv db → outcome_is db e failed v →
  ∃ d, terminal_decision e now db = Rollback (Some d) ∧ id_action d = AKnown ∧ id_result d = v ∧
    id_state d = (if failed then Error else Success) ∧ in_effect_id (id_intent d) = e.
Proof.
  intros [_ Hw] (t & Ht & Hv & Hev). pose proof (terminal_row_some db e t Ht) as [Hin Hte].
  destruct (ew_terminal db Hw t e Hin Hte) as (_ & _ & i & Hint).
  destruct (intent_lookup db e i Hw Hint) as [_ E]. unfold terminal_decision. rewrite E. simpl.
  rewrite Ht. eexists. split; [done|]. unfold _decision_from_terminal. rewrite Hev.
  destruct Hint as [_ [Hie _]%is_intent_of_true]. destruct failed; simpl; auto.
Qed.

(** results are committed once and read back by everybody.  After a
    successful [commit_result], in the database it leaves and in every later
    one, each further commit for the effect, by whoever and with whatever value,
    returns the first value and writes nothing, and [terminal_decision] returns
    that value with its success or error state. *)
Theorem commit_result_idempotent e ro claim v failed rec now db v' db' db'' :
  inv db → commit_result_body e ro claim v failed rec now db = Commit v' db' →
  inv db'' → grows db' db'' →
  ∀ now' ro' claim' v2 failed2 rec2,
    commit_result_body e ro' claim' v2 failed2 rec2 now' db'' = Rollback v ∧
    ∃ d, terminal_decision e now' db'' = Rollback (Some d) ∧
      id_action d = AKnown ∧ id_result d = v ∧
      id_state d = (if failed then Error else Success) ∧ in_effect_id (id_intent d) = e.
Proof.
  intros Hi Hc Hi'' Hg now' ro' claim' v2 failed2 rec2.
  assert (outcome_is db'' e failed v) as Ho by eauto using outcome_grows, commit_result_outcome.
  split; [|by apply outcome_decision].
  destruct Ho as (t & Ht & Hv & Hev). pose proof (terminal_row_some db'' e t Ht) as [Hin Hte].
  pose proof (inv_effects _ Hi'') as Hw.
  destruct (ew_terminal db'' Hw t e Hin Hte) as (_ & _ & i & Hint).
  unfold commit_result_body. rewrite (proj1 (intent_lookup db'' e i Hw Hint)), Ht.
  unfold committed_value. rewrite Hev. by destruct failed; rewrite Hv.
Qed.

(** A sequence of failed commits, each applied or not, whose next read succeeds. *)
Definition conflicts (e : exn) (applied : list bool) : list fault :=
  flat_map (λ b : bool, [(if b then CommitUnacknowledged e else CommitLost e); NoFault]) applied.

Lemma decision_value_known e d v : id_action d = AKnown → id_result d = v →
  decision_value e d = Ret v.
Proof. intros Ha <-. unfold decision_value. by rewrite Ha. Qed.

Lemma commit_result_converges_n n : ∀ ex applied e ro claim v failed rec now db db' answer lost cs ids,
  is_db_conflict ex = true → (length applied ≤ n)%nat → inv db →
  commit_result_body e ro claim v failed rec now db = Commit v db' →
  ∃ fs, run now answer lost (commit_result e ro claim v failed rec n)
          (mkMachine db cs (conflicts ex applied) ids) = (Ok v, mkMachine db' cs fs ids).
Proof.
  assert (Hz : ∀ n e ro claim v failed rec now db db' answer lost cs ids,
    commit_result_body e ro claim v failed rec now db = Commit v db' →
    run now answer lost (commit_result e ro claim v failed rec n) (mkMachine db cs [] ids)
      = (Ok v, mkMachine db' cs [] ids)).
  { intros m e ro claim v failed rec now db db' answer lost cs ids Hc.
    destruct m; cbn [commit_result run m_db m_faults hd]; by rewrite Hc. }
  induction n as [|n IH];
    intros ex [|b applied] e ro claim v failed rec now db db' answer lost cs ids Hex Hlen Hi Hc;
    simpl in Hlen; try lia; try (by exists []; apply Hz).
  pose proof (commit_result_outcome _ _ _ _ _ _ _ _ _ _ Hi Hc) as Ho.
  assert (inv db') as Hi'.
  { pose proof (commit_result_safe e ro claim v failed rec now db Hi) as Hs. rewrite Hc in Hs.
    by destruct Hs as [[]]. }
  cbn [commit_result run conflicts flat_map app m_db m_faults hd tl m_calls m_ids]. rewrite Hc.
  destruct b; cbn [run_body]; rewrite Hex;
    cbn [atomically bind run m_db m_faults hd tl m_calls m_ids run_body].
  - destruct (outcome_decision db' e failed v now Hi' Ho) as (d & Hd & Ha & Hv & _).
    rewrite Hd. cbn [bind]. rewrite (decision_value_known e d v Ha Hv). cbn [run].
    by eexists.
  - destruct (commit_result_shape _ _ _ _ _ _ _ _ _ _ Hi Hc) as (_ & i & seq & err & Hint & Hn & _).
    destruct (intent_lookup db e i (inv_effects _ Hi) Hint) as [_ E].
    unfold terminal_decision at 1. rewrite E. cbn [bind]. rewrite Hn. simpl fmap. cbn [mbind option_bind].
    apply IH; [done|lia|done|done].
Qed.

(** a result survives lost and unacknowledged commits.  If up to four
    attempts of [commit_result] fail at their commit with an integrity or
    operational error, each with its write applied or not, the call still
    returns the result and leaves exactly the state one successful commit
    leaves. *)
Theorem commit_result_converges ex applied e ro claim v failed rec now db db' answer lost cs ids :
  is_db_conflict ex = true → (length applied ≤ 4)%nat → inv db →
  commit_result_body e ro claim v failed rec now db = Commit v db' →
  ∃ fs, run now answer lost (commit_result e ro claim v failed rec 4)
          (mkMachine db cs (conflicts ex applied) ids) = (Ok v, mkMachine db' cs fs ids).
Proof. apply commit_result_converges_n. Qed.
End results.

(** ** Fencing *)

(** C24: a recovery claim fences the previous holder out.  Once
    [claim_recovery_intent] committed, no other claim can be acquired or renewed,
    a late result of the previous holder is refused, and it can neither expire
    the new claim nor mark the effect unknown. *)
Theorem recovery_claim_fences `{Host} e owner secs now db i db' o claim :
  inv db → claim_recovery_intent e owner secs now db = Commit (Some i) db' →
  claim ≠ owner →
  ∀ now' secs' v failed rec reason,
    acquire_invocation_claim e o claim secs' now' db' = Raise (ToolEffectLeaseLost e) ∧
    commit_result_body e o claim v failed rec now' db' = Raise (ToolEffectLeaseLost e) ∧
    abandon_invocation_claim e o claim now' db' = Commit tt db' ∧
    (∀ db'', mark_unknown e o claim reason now' db' ≠ Commit tt db'').
Proof.
  intros Hi Hc Hne now' secs' v failed rec reason.
  unfold claim_recovery_intent in Hc.
  destruct (one_or_none (intent_rows db e)) as [[row|]|] eqn:Hint; [|done|done].
  apply one_or_none_intent in Hint.
  destruct (_terminal_row db e) as [t|] eqn:Ht; [done|].
  destruct (chat_runs db !! _) as [run|] eqn:Hrun; [|done].
  destruct (tool_effect_leases db !! e) as [l|] eqn:Hl; [|done].
  destruct (ew_lease_intent db (inv_effects db Hi) e l Hl) as [Hle _].
  destruct (_ && _ && _) eqn:Hg; [|done].
  set (l1 := l <| Lease.run_owner := owner |> <| Lease.claim_owner := Some owner |>
               <| Lease.lease_expires_at := Some (lease_deadline now secs) |>
               <| Lease.updated_at := now |>).
  destruct (_append_event _ _ _ _ _ _ _ _ _ _ _ _) as [[r1 db1]|] eqn:E; [|done].
  injection Hc as _ <-.
  assert (tool_effect_leases db1 = <[e := l1]> (tool_effect_leases db) ∧
          ∃ x, tool_effect_ledger db1 = tool_effect_ledger db ++ [x] ∧
               Ledger.event_type x = RecoveryClaim ∧ Ledger.terminal_effect_id x = None)
    as [El (x & Et & Hxe & Hxt)].
  { unfold _append_event, RunJournal._append_locked, insert_operation, insert_ledger in E.
    destruct (existsb _ _); [done|]. destruct (existsb _ _); [done|]. injection E as _ <-.
    simpl. rewrite Hle. split; [done|]. by eexists. }
  assert (tool_effect_leases db1 !! e = Some l1) as Hl1 by (rewrite El; apply lookup_insert_eq).
  assert (_terminal_row db1 e = None) as Ht1.
  { unfold _terminal_row in *. rewrite Et, find_app, Ht. simpl. by rewrite Hxt. }
  assert (one (intent_rows db1 e) = Ok row) as Hint1.
  { unfold intent_rows. rewrite Et, List.filter_app. fold (intent_rows db e).
    rewrite (intent_rows_of db e row (inv_effects _ Hi) Hint). simpl.
    unfold is_intent_of. rewrite Hxe. by rewrite andb_false_r. }
  assert (Lease.claim_owner l1 ≠ Some claim) as Hcl by (simpl; congruence).
  assert (sql_eq (Lease.claim_owner l1) claim = false) as Hsql.
  { simpl. rewrite bool_decide_false; [done|congruence]. }
  split_and!.
  - unfold acquire_invocation_claim. by rewrite Hl1, Hsql, andb_false_r.
  - unfold commit_result_body, one_lease. rewrite Hint1, Ht1, Hl1.
    rewrite (bool_decide_true (_ ≠ Some claim)) by done. by rewrite orb_true_r.
  - unfold abandon_invocation_claim. by rewrite Hl1, Hsql, andb_false_r.
  - intros db''. unfold mark_unknown, one_lease. rewrite Hl1, Hint1.
    destruct (RunJournal._locked_owned_run _ _ _ _); [|done].
    unfold _mark_unknown_locked. destruct Hint as [_ [-> _]%is_intent_of_true]. rewrite Ht1. simpl negb.
    rewrite (bool_decide_true (_ ≠ Some claim)) by done. by rewrite orb_true_r.
Qed.

(** ** Retention *)

(** When retention removes a row: its run is settled and the row is older than
    the tier of that run. *)
Definition expired_tier (db : Db) (now days_ : Z) (run_id : string) (stamp : Z) : Prop :=
  ∃ run, chat_runs db !! run_id = Some run ∧ is_live (ChatRun.status run) = false ∧
    stamp < now - days (if bool_decide (ChatRun.status run = NeedsAttention)
                        then days_ * 4 else days_).

Lemma prunable_spec db now d r stamp :
  _prunable db (now - days d) (now - days (d * _ATTENTION_RETENTION_FACTOR)) r stamp = true ↔
  expired_tier db now d r stamp.
Proof.
  unfold _prunable, expired_tier, tier, _ATTENTION_RETENTION_FACTOR.
  destruct (chat_runs db !! r) as [run|]; [|rewrite andb_false_r; naive_solver].
  rewrite !andb_true_iff, negb_true_iff, !Z.ltb_lt. split.
  - intros (_ & Hl & Hs). exists run. split_and!; [done|done|]. by case_bool_decide.
  - intros (run' & [= <-] & Hl & Hs). split_and!; [|done|]; case_bool_decide; lia.
Qed.

(** retention only removes what the policy says: exactly the ledger facts,
    leases and operations whose run is settled and which are older than that
    run's tier (four times longer for runs needing attention); everything of a
    live run stays, and so does its recovery snapshot. *)
Theorem prune_settled_exact d now db n db' :
  prune_settled d now db = Commit n db' →
  (∀ row, row ∈ tool_effect_ledger db' ↔ row ∈ tool_effect_ledger db ∧
     ¬ expired_tier db now d (Ledger.run_id row) (Ledger.created_at row)) ∧
  (∀ e l, tool_effect_leases db' !! e = Some l ↔ tool_effect_leases db !! e = Some l ∧
     ¬ expired_tier db now d (Lease.run_id l) (Lease.updated_at l)) ∧
  (∀ op, op ∈ chat_run_operations db' ↔ op ∈ chat_run_operations db ∧
     ¬ expired_tier db now d (ChatRunOperation.run_id op) (ChatRunOperation.created_at op)) ∧
  (∀ r run, chat_runs db !! r = Some run → is_live (ChatRun.status run) = true →
     chat_runs db' !! r = Some run) ∧
  (∀ r run, chat_runs db !! r = Some run → ∃ run', chat_runs db' !! r = Some run' ∧
     ChatRun.status run' = ChatRun.status run ∧
     ChatRun.operation_seq run' = ChatRun.operation_seq run).
Proof.
  intros Hp. unfold prune_settled in Hp. injection Hp as _ <-.
  assert (Hf : ∀ {A} (p : A → bool) l x, x ∈ List.filter (negb ∘ p) l ↔ x ∈ l ∧ ¬ p x = true).
  { intros A p l x. rewrite list_elem_of_In, filter_In, <- list_elem_of_In. simpl.
    rewrite negb_true_iff, not_true_iff_false. done. }
  split_and!.
  - intros row. simpl. rewrite Hf, prunable_spec. done.
  - intros e l. simpl. rewrite map_lookup_filter_Some. simpl.
    rewrite <- not_true_iff_false, prunable_spec. done.
  - intros op. simpl. rewrite Hf, prunable_spec. done.
  - intros r run Hrun Hl. simpl. rewrite lookup_fmap, Hrun. simpl.
    unfold snapshot_prunable. by rewrite Hl.
  - intros r run Hrun. simpl. rewrite lookup_fmap, Hrun. simpl. eexists. split; [done|].
    by destruct (snapshot_prunable _ _ _).
Qed.

(** ** A concrete execution *)

Definition demo_host : Host :=
  {| sha256_hex := λ s, s; embedded_sub := λ _ s, s; py_str := λ _, "" |}.
#[local] Existing Instance demo_host.

Lemma inv_no_effects db :
  wf db → tool_effect_ledger db = [] → tool_effect_leases db = ∅ → inv db.
Proof.
  intros Hwf El Ee. split; [done|].
  assert (∀ e row, ¬ intent_of db e row) as Hno.
  { intros e row [Hin _]. rewrite El in Hin. by apply not_elem_of_nil in Hin. }
  split; rewrite ?El, ?Ee.
  - intros e row Hi. by destruct (Hno e row).
  - intros e l Hl. by rewrite lookup_empty in Hl.
  - intros e. unfold intent_rows. rewrite El. simpl. lia.
  - apply NoDup_nil_2.
  - apply NoDup_nil_2.
  - intros row e Hin. by apply not_elem_of_nil in Hin.
  - intros row Hin. by apply not_elem_of_nil in Hin.
  - intros row Hin. by apply not_elem_of_nil in Hin.
Qed.

Lemma demo1_inv : inv demo1.
Proof. apply inv_no_effects; [apply demo1_wf|reflexivity..]. Qed.

(** A gateway call for a tool that is not registered, hence never replayed. *)
Definition demo_call : prog unit :=
  ignore (execute_outcome ∅ 300 "run_1" "w1" "call_1" "Write" [("path", JStr "a")] None None "u1" 2).
Definition demo_answer (c : tool_call) : result exn answer := Ok (Value (JStr "done")).
Definition demo_key : string := stable_idempotency_key "run_1" "Write" "call_1".

Lemma demo_execution :
  ∃ w, execution demo1 w ∧ (length (calls (st w)) = 1)%nat ∧
       is_Some (_terminal_row (cur (st w)) "eff_e1").
Proof.
  destruct (run_steps client 30 demo_answer false "u1" demo_call (mkMachine demo1 [] [] ["e1"; "r1"])
    (mkState demo1 [] [])) as (s' & p' & new & Hr & Hc & Hm & Hl); [constructor|reflexivity|].
  exists (mkWorld s' [("u1", p')]). split_and!.
  - eapply rtc_l; [|exact Hr]. apply (world_spawn client (mkState demo1 [] []) [] "u1" demo_call).
    + apply client_gateway.
    + apply not_elem_of_nil.
  - simpl. rewrite Hl. vm_compute in Hm. rewrite <- Hm. reflexivity.
  - simpl. rewrite Hc. vm_compute. by eexists.
Qed.

Lemma never_replay_at_most_once_witness :
  ∃ w, execution demo1 w ∧ (length (calls (st w)) = 1)%nat ∧
       (length (calls_for_key demo_key (st w)) ≤ 1)%nat.
Proof.
  destruct demo_execution as (w & Hw & Hc & _). exists w. split; [exact Hw|]. split; [exact Hc|].
  exact (never_replay_at_most_once demo1 w demo_key demo1_inv Hw).
Defined.

Lemma intent_precedes_call_witness :
  ∃ w tag c row, execution demo1 w ∧ (tag, c) ∈ calls (st w) ∧
    intent_of (cur (st w)) (in_effect_id (call_intent c)) row.
Proof.
  destruct demo_execution as (w & Hw & Hc & _).
  destruct (calls (st w)) as [|[tag c] l] eqn:E; [discriminate|].
  assert ((tag, c) ∈ calls (st w)) as Hin by (rewrite E; left).
  destruct (intent_precedes_call demo1 w tag c demo1_inv Hw Hin) as [(row & Hrow & _) _].
  exists w, tag, c, row. split; [exact Hw|]. split; [rewrite E; left|exact Hrow].
Defined.

Lemma outcome_decided_once_witness :
  ∃ w t, execution demo1 w ∧ _terminal_row (cur (st w)) "eff_e1" = Some t ∧
    ∀ w', rtc (world_step client) w w' → _terminal_row (cur (st w')) "eff_e1" = Some t.
Proof.
  destruct demo_execution as (w & Hw & _ & [t Ht]). exists w, t. split; [exact Hw|].
  split; [exact Ht|]. intros w' Hr.
  exact (proj1 (outcome_decided_once demo1 w w' demo1_inv Hw Hr) "eff_e1" t Ht).
Defined.

(** The intent of the demo call, committed but without a result. *)
Definition demo_pending : Db :=
  m_db (run 30 demo_answer false
    (begin_intent "run_1" "w1" "tool:u1" "call_1" "Write" [("path", JStr "a")] NeverReplay None 300 4)
    (mkMachine demo1 [] [] ["e1"; "r1"])).2.
Definition demo_committed : Db :=
  match commit_result_body "eff_e1" "w1" "tool:u1" (JStr "done") false false 40 demo_pending with
  | Commit _ db => db
  | _ => demo_pending
  end.

Lemma demo_pending_inv : inv demo_pending.
Proof.
  pose proof (create_intent_safe "run_1" "w1" "tool:u1" "call_1" "Write"
    (sha256_hex (canonical_args [("path", JStr "a")]))
    (canonical_tool_args [("path", JStr "a")]).2 NeverReplay demo_key "eff_e1" "toolres_r1" 300
    30 demo1 demo1_inv) as Hs.
  destruct (create_intent _ _ _ _ _ _ _ _ _ _ _ _ _ _) as [o db'| |] eqn:E;
    [|vm_compute in E; discriminate..].
  assert (db' = demo_pending) as <- by (vm_compute in E |- *; congruence).
  by destruct Hs as [[]].
Qed.

Lemma demo_commit : commit_result_body "eff_e1" "w1" "tool:u1" (JStr "done") false false 40 demo_pending
  = Commit (JStr "done") demo_committed.
Proof. vm_compute. reflexivity. Qed.

Lemma demo_committed_inv : inv demo_committed.
Proof.
  pose proof (commit_result_safe "eff_e1" "w1" "tool:u1" (JStr "done") false false 40 demo_pending
    demo_pending_inv) as Hs. rewrite demo_commit in Hs. by destruct Hs as [[]].
Qed.

Lemma commit_result_idempotent_witness :
  commit_result_body "eff_e1" "w2" "tool:u2" (JStr "other") true false 50 demo_committed
    = Rollback (JStr "done").
Proof.
  refine (proj1 (commit_result_idempotent "eff_e1" "w1" "tool:u1" (JStr "done") false false 40
    demo_pending (JStr "done") demo_committed demo_committed demo_pending_inv demo_commit
    demo_committed_inv _ 50 "w2" "tool:u2" (JStr "other") true false)).
  reflexivity.
Defined.

Lemma commit_result_converges_witness :
  ∃ fs, run 40 demo_answer false
          (commit_result "eff_e1" "w1" "tool:u1" (JStr "done") false false 4)
          (mkMachine demo_pending [] (conflicts OperationalError [false; false; true]) [])
        = (Ok (JStr "done"), mkMachine demo_committed [] fs []).
Proof.
  apply (commit_result_converges OperationalError [false; false; true]).
  - reflexivity.
  - simpl. lia.
  - exact demo_pending_inv.
  - exact demo_commit.
Defined.

Lemma recovery_claim_fences_witness :
  ∃ db', acquire_invocation_claim "eff_e1" "w1" "tool:u1" 300 400000001 db'
    = Raise (ToolEffectLeaseLost "eff_e1").
Proof.
  destruct (claim_recovery_intent "eff_e1" "tool-recovery:x" 120 400000000 demo_pending)
    as [[i|] db'| |] eqn:E.
  - exists db'. refine (proj1 (recovery_claim_fences "eff_e1" "tool-recovery:x" 120 400000000
      demo_pending i db' "w1" "tool:u1" demo_pending_inv E _ 400000001 300 JNull false false "")).
    discriminate.
  - vm_compute in E. discriminate.
  - vm_compute in E. discriminate.
  - vm_compute in E. discriminate.
Defined.

Lemma prune_settled_exact_witness :
  ∃ db', ∀ row, row ∈ tool_effect_ledger db' ↔ row ∈ tool_effect_ledger demo_committed ∧
     ¬ expired_tier demo_committed (days 30) 7 (Ledger.run_id row) (Ledger.created_at row).
Proof.
  destruct (prune_settled 7 (days 30) demo_committed) as [n db'| |] eqn:E; [|discriminate..].
  exists db'. exact (proj1 (prune_settled_exact 7 (days 30) demo_committed n db' E)).
Defined.
