(* ===== verification/ToolEffectSweep.v ===== *)
(** * The recovery sweep completes

    A sweep that runs without database faults returns, whatever its adapters
    answer; every decision it reports is true of the ledger, and an orphan whose
    run has no other pending effect is never passed over. *)

From S2P Require Import Prelude Db RunJournal RunJournalProps PyString ToolPolicies Program.
From S2P Require Import ToolEffectJournal ToolEffectProps HarnessLedger ToolEffectGateway.
From S2P Require Import ToolEffectWorld ToolEffectThms.
Import ToolPolicies ToolEffectJournal ToolEffectGateway.

(** ** What recovering one effect may touch *)

(** Only the run [r], the lease of [e] and facts of [e] differ. *)
Record local (e r : string) (db db' : Db) : Prop := {
  lo_grows : grows db db';
  lo_runs r' : r' ≠ r → chat_runs db' !! r' = chat_runs db !! r';
  lo_leases e' : e' ≠ e → tool_effect_leases db' !! e' = tool_effect_leases db !! e';
  lo_facts e' : e' ≠ e → _terminal_row db' e' = _terminal_row db e';
  lo_intents e' : intent_rows db' e' = intent_rows db e'
}.

#[export] Instance local_preorder e r : PreOrder (local e r).
Proof.
  split.
  - intros db. by split; [reflexivity|..].
  - intros a b c [? R1 L1 F1 I1] [? R2 L2 F2 I2]. split; [by etrans|..].
    + intros r' Hr. rewrite R2 by done. auto.
    + intros e' He. rewrite L2 by done. auto.
    + intros e' He. rewrite F2 by done. auto.
    + intros e'. by rewrite I2.
Qed.

Lemma local_put_run e r db run run2 :
  inv db → chat_runs db !! ChatRun.run_id run2 = Some run → run_evolves is_terminal run run2 →
  ChatRun.operation_seq run2 = ChatRun.operation_seq run → ChatRun.run_id run2 = r →
  local e r db (put_run db run2).
Proof.
  intros Hi Hr Hev Hs <-. split; [by apply (put_run_inv db run)| |done|done|done].
  intros r' Hne. simpl. by rewrite lookup_insert_ne.
Qed.

Lemma local_put_lease e r db l l2 :
  inv db → tool_effect_leases db !! Lease.effect_id l2 = Some l → Lease.run_id l2 = Lease.run_id l →
  Lease.effect_id l2 = e → local e r db (put_lease db l2).
Proof.
  intros Hi Hl Hr <-. split; [by apply (put_lease_inv db l)|done| |done|done].
  intros e' Hne. simpl. by rewrite lookup_insert_ne.
Qed.

Lemma local_append_event now db run i e owner ev ty ph sf v err terminal x :
  inv db → chat_runs db !! ChatRun.run_id run = Some run → intent_of db e i →
  Ledger.run_id i = ChatRun.run_id run → ev ≠ Intent →
  (terminal = true → terminal_event ev = true ∧ _terminal_row db e = None) →
  _append_event now db run i owner ev ty ph sf v err terminal = Ok x →
  x.1 = bumped run ph sf ∧ inv x.2 ∧ local e (ChatRun.run_id run) db x.2 ∧
  tool_effect_leases x.2 = tool_effect_leases db ∧
  chat_runs x.2 !! ChatRun.run_id run = Some (bumped run ph sf) ∧
  (if terminal then ∃ t, _terminal_row x.2 e = Some t ∧ Ledger.event_type t = ev
   else _terminal_row x.2 e = _terminal_row db e).
Proof.
  intros Hi Hrun Hint Hri Hev Hterm E.
  destruct (append_event_ok now db run i e owner ev ty ph sf v err terminal)
    as (db1 & E1 & Hi1 & Hg1 & El & Et & Er); [done..|].
  rewrite E1 in E. injection E as <-. destruct Hint as [_ [Hie Hiev]%is_intent_of_true].
  split_and!; [done|done| |done|simpl; rewrite Er; apply lookup_insert_eq|].
  - split; simpl; [done| | | |].
    + intros r' Hne. rewrite Er. by rewrite lookup_insert_ne.
    + intros e' Hne. by rewrite El.
    + intros e' Hne. unfold _terminal_row. rewrite Et, find_app. simpl.
      destruct (List.find _ _); [done|].
      destruct terminal; simpl; [|done]. by rewrite bool_decide_false by congruence.
    + intros e'. unfold intent_rows. rewrite Et, List.filter_app. simpl.
      unfold is_intent_of at 2. simpl. rewrite (bool_decide_false (ev = Intent)) by done.
      by rewrite andb_false_r, app_nil_r.
  - simpl. unfold _terminal_row in *. rewrite Et, find_app. destruct terminal.
    + destruct (Hterm eq_refl) as [_ ->]. simpl. rewrite bool_decide_true by done. by eexists.
    + by destruct (List.find _ _).
Qed.

Lemma append_event_err now db run i owner ev ty ph sf v err terminal ex :
  _append_event now db run i owner ev ty ph sf v err terminal = Err ex → ex = IntegrityError.
Proof.
  unfold _append_event, RunJournal._append_locked, insert_operation, insert_ledger.
  repeat (destruct (existsb _ _); [congruence|]). done.
Qed.

Lemma locked_err now db r o ex :
  RunJournal._locked_owned_run now db r o = Err ex → is_exception ex = true.
Proof.
  unfold RunJournal._locked_owned_run. intros E. split_matches E; done.
Qed.

Lemma one_err {A} (l : list A) ex : one l = Err ex → is_exception ex = true.
Proof. destruct l as [|? []]; simpl; by intros [= <-]. Qed.

Lemma one_or_none_err {A} (l : list A) ex : one_or_none l = Err ex → is_exception ex = true.
Proof. destruct l as [|? []]; simpl; by intros [= <-]. Qed.

Lemma one_lease_err db e ex : one_lease db e = Err ex → is_exception ex = true.
Proof. unfold one_lease. destruct (_ !! _); [done|]. by intros [= <-]. Qed.

Lemma mark_unknown_err now db run i l o c reason ex :
  _mark_unknown_locked now db run i l o c reason = Err ex → is_exception ex = true.
Proof.
  unfold _mark_unknown_locked. destruct (negb _); [done|]. destruct (_ || _); [by intros [= <-]|].
  destruct (_append_event _ _ _ _ _ _ _ _ _ _ _ _) as [[]|] eqn:E; [done|].
  apply append_event_err in E as ->. by intros [= <-].
Qed.

Section one_effect.
Context (e r : string).

(** [e] is an effect of the run [r]. *)
Definition of_run (db : Db) : Prop :=
  inv db ∧ ∃ i, intent_of db e i ∧ Ledger.run_id i = r.

Lemma of_run_local db db' : of_run db → inv db' → local e r db db' → of_run db'.
Proof.
  intros [_ (i & Hint & Hr)] Hi Hl. split; [done|]. exists i. split; [|done].
  eapply grows_intent; [apply Hl|done].
Qed.

Lemma of_run_intent db i : of_run db → intent_of db e i → Ledger.run_id i = r.
Proof. intros [Hi (i' & Hint & <-)] H. by rewrite (intent_unique db e i i' (inv_effects _ Hi) H Hint). Qed.

Lemma of_run_lease db l : of_run db → tool_effect_leases db !! e = Some l → Lease.run_id l = r.
Proof.
  intros [Hi (i & Hint & <-)] Hl. destruct (ew_lease _ (inv_effects _ Hi) e i Hint) as (l' & Hl' & ?).
  congruence.
Qed.

(** A transaction of the recovery of [e]. *)
Definition tame_body {B} (body : Z → Db → tx Db exn B) (P : Z → B → Db → Prop) : Prop :=
  ∀ now db, of_run db →
    match body now db with
    | Commit b db' => inv db' ∧ local e r db db' ∧ P now b db'
    | Rollback b => P now b db
    | Raise ex => is_exception ex = true
    end.
Definition whatever {B} : Z → B → Db → Prop := λ _ _ _, True.

Definition unknown_fact (db : Db) (e' : string) : Prop :=
  ∃ t, _terminal_row db e' = Some t ∧ Ledger.event_type t = UnknownOutcome.
Definition known_fact (db : Db) (e' : string) : Prop :=
  ∃ t, _terminal_row db e' = Some t ∧ Ledger.event_type t ≠ UnknownOutcome.

Lemma mark_unknown_tame owner claim reason :
  tame_body (mark_unknown e owner claim reason) (λ _ _ db, is_Some (_terminal_row db e)).
Proof.
  intros now db Ho. pose proof Ho as [Hi _]. unfold mark_unknown.
  destruct (one_lease db e) as [l|] eqn:Hl; [|by apply one_lease_err in Hl].
  apply lease_of in Hl as [Hl Hle]; [|done].
  destruct (one (intent_rows db e)) as [i|] eqn:Hint; [|by apply one_err in Hint].
  apply one_intent in Hint. pose proof (of_run_intent db i Ho Hint) as Hir.
  destruct (RunJournal._locked_owned_run _ _ _ _) as [run|] eqn:Hrun; [|by apply locked_err in Hrun].
  apply owned_run in Hrun as (Hrun & Hid & Hlive); [|done].
  destruct (_mark_unknown_locked _ _ _ _ _ _ _ _) as [db'|] eqn:Em; [|by apply mark_unknown_err in Em].
  pose proof Hint as [_ [Hie _]%is_intent_of_true].
  unfold _mark_unknown_locked in Em. rewrite Hie in Em.
  destruct (_terminal_row db e) as [t|] eqn:Ht; simpl in Em.
  { injection Em as <-. split_and!; [done|reflexivity|]. by rewrite Ht. }
  destruct (_ || _); [done|].
  destruct (_append_event _ _ _ _ _ _ _ _ _ _ _ _) as [[run1 db1]|] eqn:E; [|done].
  eapply local_append_event in E as (E1 & Hi1 & Hl1 & El & Er & Hterm);
    [|done|by rewrite Hid|done|by rewrite Hid|done|done].
  simpl in *. subst run1. injection Em as <-. destruct Hterm as (t & Ht1 & _).
  match goal with |- context [put_run db1 ?x] => set (run2 := x) end.
  destruct (put_run_inv db1 (bumped run "needs_attention" "manual_review") run2)
    as [Hi2 _]; [done|done|solve_term|done|].
  split_and!.
  - eapply (put_lease_inv _ l); [done|simpl; by rewrite El, Hle|done].
  - rewrite Hid, Hir in Hl1. etrans; [exact Hl1|].
    etrans; [eapply (local_put_run _ _ _ (bumped run "needs_attention" "manual_review") run2);
      [done|done|solve_term|done|simpl; congruence]|].
    eapply local_put_lease; [done|simpl; by rewrite El, Hle|done|done].
  - exists t. exact Ht1.
Qed.

Lemma lease_write_tame db l l2 run run2 :
  of_run db → tool_effect_leases db !! e = Some l → chat_runs db !! r = Some run →
  Lease.effect_id l2 = e → Lease.run_id l2 = Lease.run_id l →
  ChatRun.run_id run2 = r → run_evolves is_terminal run run2 →
  ChatRun.operation_seq run2 = ChatRun.operation_seq run →
  inv (put_lease (put_run db run2) l2) ∧ local e r db (put_lease (put_run db run2) l2).
Proof.
  intros [Hi _] Hl Hrun Hle Hlr Hid Hev Hseq.
  destruct (put_run_inv db run run2) as [Hi2 _]; [done|by rewrite Hid|done|done|].
  split; [eapply (put_lease_inv _ l); [done|simpl; by rewrite Hle|done]|].
  etrans; [eapply (local_put_run _ _ _ run); [done|by rewrite Hid|done|done|done]|].
  eapply (local_put_lease _ _ _ l); [done|simpl; by rewrite Hle|done|done].
Qed.

Lemma commit_result_tame `{Host} ro claim v failed rec :
  tame_body (commit_result_body e ro claim v failed rec) (λ _ _ db, known_fact db e).
Proof.
  intros now db Ho. pose proof Ho as [Hi _]. unfold commit_result_body.
  destruct (one (intent_rows db e)) as [i|] eqn:Hint; [|by apply one_err in Hint].
  apply one_intent in Hint. pose proof (of_run_intent db i Ho Hint) as Hir.
  destruct (_terminal_row db e) as [t|] eqn:Ht.
  { unfold committed_value. destruct (Ledger.event_type t) eqn:Hev; try done;
      exists t; (split; [done|congruence]). }
  destruct (one_lease db e) as [l|] eqn:Hl; [|by apply one_lease_err in Hl].
  apply lease_of in Hl as [Hl Hle]; [|done].
  destruct (_ || _ || _); [done|].
  pose proof Hint as [_ [Hie _]%is_intent_of_true].
  unfold _commit_result_locked. rewrite Hie, Ht.
  destruct (bool_decide _); [done|].
  destruct (RunJournal._locked_owned_run _ _ _ _) as [run|] eqn:Hrun; [|by apply locked_err in Hrun].
  apply owned_run in Hrun as (Hrun & Hid & Hlive); [|done].
  destruct (_append_event _ _ _ _ _ _ _ _ _ _ _ _) as [[run1 db1]|] eqn:E.
  2:{ by apply append_event_err in E as ->. }
  eapply local_append_event in E as (E1 & Hi1 & Hl1 & El & Er & Hterm);
    [|done|by rewrite Hid|done|by rewrite Hid|by destruct failed|by destruct failed].
  simpl in *. subst run1. rewrite Hid, Hir in *. destruct Hterm as (t & Ht1 & Hev).
  match goal with |- context [put_lease (put_run db1 ?x) ?y] =>
    assert (inv (put_lease (put_run db1 x) y) ∧ local e r db1 (put_lease (put_run db1 x) y))
      as [Hi2 Hl2] end.
  { eapply (lease_write_tame db1 l); [by eapply of_run_local|by rewrite El|exact Er|done|done|done|
      solve_term|done]. }
  split_and!; [done|by etrans|]. exists t. split; [exact Ht1|]. rewrite Hev. by destruct failed.
Qed.

Lemma settle_tame :
  tame_body (settle_terminal_run_intent e)
    (λ _ o db, o ≠ None → unknown_fact db e).
Proof.
  intros now db Ho. pose proof Ho as [Hi _]. unfold settle_terminal_run_intent.
  destruct (one_or_none (intent_rows db e)) as [[i|]|] eqn:Hint; [|done|by apply one_or_none_err in Hint].
  apply one_or_none_intent in Hint. pose proof (of_run_intent db i Ho Hint) as Hir.
  destruct (_terminal_row db e) as [t|] eqn:Ht; [done|].
  destruct (chat_runs db !! _) as [run|] eqn:Hrun; [|done].
  destruct (_ || _); [done|].
  destruct (one_lease db e) as [l|] eqn:Hl; [|by apply one_lease_err in Hl].
  apply lease_of in Hl as [Hl Hle]; [|done].
  pose proof (wf_keyed db (inv_wf db Hi) _ _ Hrun) as Hid.
  destruct (_append_event _ _ _ _ _ _ _ _ _ _ _ _) as [[run1 db1]|] eqn:E.
  2:{ by apply append_event_err in E as ->. }
  eapply local_append_event in E as (E1 & Hi1 & Hl1 & El & Er & Hterm);
    [|done|by rewrite Hid|done|by rewrite Hid|done|done].
  simpl in *. subst run1. rewrite Hid, Hir in *. destruct Hterm as (t & Ht1 & Hev).
  match goal with |- context [put_lease (put_run db1 ?x) ?y] =>
    assert (inv (put_lease (put_run db1 x) y) ∧ local e r db1 (put_lease (put_run db1 x) y))
      as [Hi2 Hl2] end.
  { eapply (lease_write_tame db1 l); [by eapply of_run_local|by rewrite El|exact Er|done|done|done|
      |done]. split; simpl; auto; lia. }
  split_and!; [done|by etrans|]. intros _. exists t. done.
Qed.

Lemma claim_recovery_tame owner secs :
  tame_body (claim_recovery_intent e owner secs)
    (λ now o db, ∀ i, o = Some i →
       (∃ row, intent_of db e row ∧ i = _intent_from_row row) ∧ _terminal_row db e = None ∧
       (∃ run, chat_runs db !! r = Some run ∧ RunJournal._holds_lease now run owner = true) ∧
       ∃ l, tool_effect_leases db !! e = Some l ∧ Lease.run_owner l = owner ∧
            Lease.claim_owner l = Some owner).
Proof.
  intros now db Ho. pose proof Ho as [Hi _]. unfold claim_recovery_intent.
  destruct (one_or_none (intent_rows db e)) as [[i|]|] eqn:Hint; [|done|by apply one_or_none_err in Hint].
  apply one_or_none_intent in Hint. pose proof (of_run_intent db i Ho Hint) as Hir.
  destruct (_terminal_row db e) as [t|] eqn:Ht; [done|].
  destruct (chat_runs db !! _) as [run|] eqn:Hrun; [|done].
  destruct (tool_effect_leases db !! e) as [l|] eqn:Hl; [|done].
  destruct (_ && _ && _) eqn:Hg; [|done].
  pose proof (wf_keyed db (inv_wf db Hi) _ _ Hrun) as Hid. rewrite Hir in *.
  destruct (ew_lease_intent db (inv_effects db Hi) e l Hl) as [Hle _].
  assert (is_terminal (ChatRun.status run) = false) as Hnt.
  { apply andb_true_iff in Hg as [Hg _]. apply andb_true_iff in Hg as [Hg _].
    apply orb_true_iff in Hg as [Hg|Hg]; [by destruct (ChatRun.status run)|].
    apply bool_decide_eq_true in Hg. by rewrite Hg. }
  match goal with |- context [put_lease (put_run db ?x) ?y] =>
    set (run1 := x); set (l1 := y) end.
  destruct (lease_write_tame db l l1 run run1) as [Hi2 Hl2]; [done..| |done|].
  { split; simpl; auto; try lia. congruence. }
  destruct (_append_event _ _ _ _ _ _ _ _ _ _ _ _) as [[run2 db1]|] eqn:E.
  2:{ by apply append_event_err in E as ->. }
  assert (chat_runs (put_lease (put_run db run1) l1) !! ChatRun.run_id run1 = Some run1)
    as Hrun1 by apply lookup_insert_eq.
  eapply local_append_event in E as (E1 & Hi1 & Hl1 & El & Er & Hsame);
    [|done|done| |simpl; by rewrite Hid|done|done].
  2:{ eapply grows_intent; [apply Hl2|done]. }
  simpl in *. rewrite Hid in *.
  split_and!; [done|by etrans|]. intros i' [= <-]. split_and!.
  - exists i. split; [|done]. eapply grows_intent; [apply Hl1|]. eapply grows_intent; [apply Hl2|done].
  - by rewrite Hsame.
  - eexists. split; [exact Er|]. apply holds_lease_true. simpl. split_and!; [done|done|].
    eexists. split; [done|]. unfold lease_deadline, seconds. lia.
  - exists l1. split; [|done]. rewrite El. simpl. rewrite Hle. apply lookup_insert_eq.
Qed.

Lemma release_recovered_tame owner : tame_body (release_recovered_run e owner) whatever.
Proof.
  intros now db Ho. pose proof Ho as [Hi _]. unfold release_recovered_run.
  destruct (one_lease db e) as [l|] eqn:Hl; [|by apply one_lease_err in Hl].
  apply lease_of in Hl as [Hl Hle]; [|done]. rewrite (of_run_lease db l Ho Hl).
  destruct (chat_runs db !! r) as [run|] eqn:Hrun; [|done].
  pose proof (wf_keyed db (inv_wf db Hi) _ _ Hrun) as Hid.
  destruct (_ || _); [done|]. split_and!; [| |done].
  - eapply (put_run_inv db run); [done|simpl; by rewrite Hid|solve_term|done].
  - eapply (local_put_run _ _ _ run); [done|simpl; by rewrite Hid|solve_term|done|done].
Qed.

Lemma release_recovery_tame owner secs : tame_body (release_recovery_claim e owner secs) whatever.
Proof.
  intros now db Ho. pose proof Ho as [Hi _]. unfold release_recovery_claim.
  destruct (one_lease db e) as [l|] eqn:Hl; [|by apply one_lease_err in Hl].
  apply lease_of in Hl as [Hl Hle]; [|done]. rewrite (of_run_lease db l Ho Hl).
  destruct (_ || _); [done|].
  destruct (chat_runs db !! r) as [run|] eqn:Hrun; [|done].
  pose proof (wf_keyed db (inv_wf db Hi) _ _ Hrun) as Hid.
  destruct (bool_decide _); [done|].
  match goal with |- context [put_lease (put_run db ?x) ?y] =>
    destruct (lease_write_tame db l y run x) as [Hi2 Hl2] end; [done..|solve_term|done|].
  by split_and!.
Qed.

Lemma record_attempt_tame a : tame_body (HarnessLedger.record_attempt a) whatever.
Proof.
  intros now db [Hi _]. pose proof (record_attempt_safe a now db Hi) as Hs.
  unfold HarnessLedger.record_attempt in *.
  destruct (HarnessLedger._validate a) as [|ex] eqn:Ev.
  2:{ unfold HarnessLedger._validate in Ev. by split_matches Ev. }
  destruct (HarnessLedger._reserve _ _ _) as [[seq cs]|ex] eqn:Er.
  2:{ unfold HarnessLedger._reserve in Er. by split_matches Er. }
  destruct (existsb _ _); [done|]. destruct Hs as [[Hi' Hg _] _]. by split_and!.
Qed.

Lemma terminal_decision_tame : tame_body (terminal_decision e) whatever.
Proof.
  intros now db [Hi _]. unfold terminal_decision.
  destruct (one_or_none _) eqn:E; [done|]. by apply one_or_none_err in E.
Qed.

(** ** Running a recovery program alone, without faults *)

Section alone.
Context (now : Z) (answer : tool_call → result exn ToolEffectGateway.answer) (lost : bool).
Context (Hanswer : ∀ c ex, answer c = Err ex → is_exception ex = true).

Definition triple {A} (φ : Db → Prop) (p : prog A) (R : A → Db → Prop) : Prop :=
  ∀ m, m_faults m = [] → of_run (m_db m) → φ (m_db m) →
    let '(res, m') := run now answer lost p m in
    m_faults m' = [] ∧ inv (m_db m') ∧ local e r (m_db m) (m_db m') ∧
    match res with
    | Ok a => R a (m_db m')
    | Err ex => is_exception ex = true
    end.

Definition T : Db → Prop := λ _, True.

Lemma triple_pre {A} (φ φ' : Db → Prop) (p : prog A) R :
  (∀ db, φ' db → φ db) → triple φ p R → triple φ' p R.
Proof. intros H Hp m Hf Ho Hφ. apply Hp; auto. Qed.

Lemma triple_ret {A} (φ : Db → Prop) (a : A) (R : A → Db → Prop) :
  (∀ db, φ db → R a db) → triple φ (Ret a) R.
Proof. intros HR m Hf Ho Hφ. split_and!; [done|apply Ho|reflexivity|by apply HR]. Qed.

Lemma triple_throw {A} φ ex (R : A → Db → Prop) : is_exception ex = true → triple φ (Throw ex) R.
Proof. intros He m Hf Ho Hφ. split_and!; [done|apply Ho|reflexivity|done]. Qed.

Lemma triple_bind {A A'} φ (p : prog A) (f : A → prog A') R R' :
  triple φ p R → (∀ a, triple (R a) (f a) R') → triple φ (bind p f) R'.
Proof.
  intros Hp Hk m Hf Ho Hφ. rewrite run_bind. specialize (Hp m Hf Ho Hφ).
  destruct (run now answer lost p m) as [[a|ex] m1]; destruct Hp as (Hf1 & Hi1 & Hl1 & HR);
    [|by split_and!].
  specialize (Hk a m1 Hf1 (of_run_local _ _ Ho Hi1 Hl1) HR).
  destruct (run now answer lost (f a) m1) as [res m2]. destruct Hk as (Hf2 & Hi2 & Hl2 & HR2).
  split_and!; [done|done|by etrans|done].
Qed.

Lemma triple_catch {A} φ (p : prog A) h (R : A → Db → Prop) :
  triple φ p R → (∀ ex, is_exception ex = true → triple T (h ex) R) → triple φ (catch p h) R.
Proof.
  intros Hp Hk m Hf Ho Hφ. rewrite run_catch. specialize (Hp m Hf Ho Hφ).
  destruct (run now answer lost p m) as [[a|ex] m1]; destruct Hp as (Hf1 & Hi1 & Hl1 & HR);
    [by split_and!|].
  specialize (Hk ex HR m1 Hf1 (of_run_local _ _ Ho Hi1 Hl1) I).
  destruct (run now answer lost (h ex) m1) as [res m2]. destruct Hk as (Hf2 & Hi2 & Hl2 & HR2).
  split_and!; [done|done|by etrans|done].
Qed.

(** A transaction, its continuation seeing the value it returned. *)
Lemma triple_tx {A B} (body : Z → Db → tx Db exn B) (P : Z → B → Db → Prop) k φ (R : A → Db → Prop) :
  tame_body body P → (∀ b, triple (P now b) (k (Returned b)) R) →
  (∀ ex, is_exception ex = true → triple T (k (Raised ex)) R) → triple φ (Tx body k) R.
Proof.
  intros Hb Hk He m Hf Ho _. simpl. rewrite Hf. simpl. specialize (Hb now (m_db m) Ho).
  destruct (body now (m_db m)) as [b db'|b|ex]; simpl.
  - destruct Hb as (Hi & Hl & HP).
    specialize (Hk b (mkMachine db' (m_calls m) [] (m_ids m)) eq_refl (of_run_local _ _ Ho Hi Hl) HP).
    destruct (run _ _ _ _ _) as [res m2]. destruct Hk as (? & ? & ? & ?).
    split_and!; [done|done|by etrans|done].
  - apply (Hk b (mkMachine (m_db m) (m_calls m) [] (m_ids m))); done.
  - apply (He ex Hb (mkMachine (m_db m) (m_calls m) [] (m_ids m))); done.
Qed.

Lemma triple_atomically {B} (body : Z → Db → tx Db exn B) P φ :
  tame_body body P → triple φ (atomically body) (P now).
Proof.
  intros Hb. eapply triple_tx; [done|intros b; by apply triple_ret|intros; by apply triple_throw].
Qed.

Lemma triple_is_set φ : triple φ is_set (λ _, φ).
Proof. intros m Hf Ho Hφ. simpl. split_and!; [done|apply Ho|reflexivity|done]. Qed.

Lemma triple_lost_check φ x : triple φ (lost_check x) (λ _, φ).
Proof.
  eapply triple_bind; [apply triple_is_set|]. intros [|]; [by apply triple_throw|by apply triple_ret].
Qed.

(** ** The programs of the sweep *)

Context `{Host} (registry : Registry) (secs : Z).

(** A fact that recovering [e] cannot undo. *)
Definition persistent (φ : Db → Prop) : Prop := ∀ db db', local e r db db' → φ db → φ db'.

Lemma triple_frame {A} φ (p : prog A) R :
  persistent φ → triple φ p R → triple φ p (λ a db, R a db ∧ φ db).
Proof.
  intros Hp Ht m Hf Ho Hφ. specialize (Ht m Hf Ho Hφ).
  destruct (run now answer lost p m) as [res m']. destruct Ht as (? & ? & Hl & HR).
  split_and!; [done|done|done|]. destruct res; [|done]. split; [done|]. by eapply Hp.
Qed.

Lemma terminal_persistent db db' t :
  local e r db db' → _terminal_row db e = Some t → _terminal_row db' e = Some t.
Proof.
  intros Hl Ht. destruct (gr_ledger _ _ (lo_grows _ _ _ _ Hl)) as [k El].
  unfold _terminal_row in *. by rewrite El, find_app, Ht.
Qed.

Lemma known_persistent : persistent (λ db, known_fact db e).
Proof. intros db db' Hl (t & Ht & Hk). exists t. eauto using terminal_persistent. Qed.

Lemma commit_result_triple ro claim v failed rec n :
  triple T (commit_result e ro claim v failed rec n) (λ _ db, known_fact db e).
Proof.
  destruct n; cbn [commit_result]; (eapply triple_tx; [apply commit_result_tame| |]);
    intros; by (apply triple_ret || apply triple_throw).
Qed.

Lemma commit_recovered_triple v owner :
  triple T (commit_recovered_result e v owner) (λ _ db, known_fact db e).
Proof.
  eapply triple_bind; [apply commit_result_triple|]. intros v'.
  eapply (triple_bind _ _ _ (λ _ db, known_fact db e)).
  - eapply triple_pre; [intros db Hdb; exact Hdb|].
    assert (triple (λ db, known_fact db e) (atomically (release_recovered_run e owner)) (whatever now))
      as Ht by (apply triple_atomically, release_recovered_tame).
    intros m Hf Ho Hφ. pose proof (triple_frame _ _ _ known_persistent Ht m Hf Ho Hφ) as Hr.
    destruct (run _ _ _ _ _) as [res m']. destruct Hr as (? & ? & ? & Hr).
    split_and!; [done|done|done|]. destruct res; [|done]. by destruct Hr.
  - intros []. by apply triple_ret.
Qed.

Lemma suppress_triple (p : prog unit) : triple T p (λ _, T) → triple T (suppress p) (λ _, T).
Proof.
  intros Hp. apply triple_catch; [done|]. intros ex Hex. rewrite Hex. by apply triple_ret.
Qed.

Lemma recorded_call_triple c phase : triple T (_recorded_recovery_call c phase) (λ _, T).
Proof.
  intros m Hf Ho _. unfold _recorded_recovery_call. cbn [run].
  set (m1 := mkMachine _ _ _ _).
  assert (triple T (let! _ := suppress (ignore (atomically (HarnessLedger.record_attempt
      (recovery_attempt (call_intent c) phase (attempt_status (answer c)))))) in lift (answer c))
      (λ _, T)) as Ht.
  { eapply triple_bind; [apply suppress_triple|].
    - eapply triple_bind; [apply triple_atomically, record_attempt_tame|].
      intros a. by apply triple_ret.
    - intros []. destruct (answer c) as [a|ex] eqn:E; [by apply triple_ret|].
      apply triple_throw. by eapply Hanswer. }
  exact (Ht m1 Hf Ho I).
Qed.

(** What a reported action says about the effect. *)
Definition action_true (db : Db) (e' : string) (a : SweepAction) : Prop :=
  match a with
  | SwTerminalUnknown => unknown_fact db e'
  | SwNeedsAttention => is_Some (_terminal_row db e')
  | SwReplayed | SwReconciled => known_fact db e'
  | SwRetry => True
  end.

Lemma recover_claimed_triple owner i : in_effect_id i = e →
  triple T (recover_claimed registry owner i) (λ a db, action_true db e a).
Proof.
  intros Hie. unfold recover_claimed. rewrite Hie.
  assert (Hund : ∀ reason, triple T (let! _ := atomically (mark_unknown e owner owner reason) in
    Ret SwNeedsAttention) (λ a db, action_true db e a)).
  { intros reason. eapply triple_bind; [apply triple_atomically, mark_unknown_tame|].
    intros []. by apply triple_ret. }
  assert (Hfin : ∀ v a, (a = SwReplayed ∨ a = SwReconciled) →
    triple T (let! _ := commit_recovered_result e v owner in Ret a) (λ a db, action_true db e a)).
  { intros v a Ha. eapply triple_bind; [apply commit_recovered_triple|].
    intros v'. apply triple_ret. intros db Hk. by destruct Ha as [-> | ->]. }
  destruct (in_recovery_policy i).
  - destruct (replayer _) as [adapter|]; [|by apply triple_throw].
    eapply triple_bind; [apply recorded_call_triple|]. intros a.
    eapply triple_bind; [apply triple_lost_check|]. intros []. apply Hfin; auto.
  - destruct (reconciler _) as [adapter|]; [|by apply triple_throw].
    eapply triple_bind; [apply recorded_call_triple|]. intros a.
    eapply triple_bind; [apply triple_lost_check|]. intros [].
    destruct (_reconciliation a) as [outcome v]. cbv beta iota zeta.
    assert (Hfin' : ∀ v, triple T (let! _ := lost_check e in
      let! _ := commit_recovered_result e v owner in Ret SwReconciled)
      (λ a db, action_true db e a)).
    { intros v'. eapply triple_bind; [apply triple_lost_check|]. intros []. apply Hfin; auto. }
    destruct (bool_decide _); [apply Hfin'|].
    destruct (bool_decide _); [|apply Hund].
    destruct (replayer _) as [adapter'|]; [|apply Hund].
    eapply triple_bind; [apply recorded_call_triple|]. intros a'. apply Hfin'.
  - apply Hund.
Qed.

(** The same, for programs that cannot raise. *)
Definition total {A} (φ : Db → Prop) (p : prog A) (R : A → Db → Prop) : Prop :=
  ∀ m, m_faults m = [] → of_run (m_db m) → φ (m_db m) →
    ∃ a m', run now answer lost p m = (Ok a, m') ∧ m_faults m' = [] ∧ inv (m_db m') ∧
      local e r (m_db m) (m_db m') ∧ R a (m_db m').

Lemma total_catch {A} φ (p : prog A) h (R : A → Db → Prop) :
  triple φ p R → (∀ ex, is_exception ex = true → total T (h ex) R) → total φ (catch p h) R.
Proof.
  intros Hp Hk m Hf Ho Hφ. rewrite run_catch. specialize (Hp m Hf Ho Hφ).
  destruct (run now answer lost p m) as [[a|ex] m1]; destruct Hp as (Hf1 & Hi1 & Hl1 & HR).
  - by exists a, m1.
  - destruct (Hk ex HR m1 Hf1 (of_run_local _ _ Ho Hi1 Hl1) I) as (a & m2 & E & ? & ? & ? & ?).
    exists a, m2. split_and!; [done|done|done|by etrans|done].
Qed.

Lemma release_no_other_error owner n db ex : of_run db →
  release_recovery_claim e owner n now db = Raise ex → is_tool_effect_error ex = true.
Proof.
  intros Ho. pose proof Ho as [Hi (i & Hint & Hr)]. unfold release_recovery_claim, one_lease.
  destruct (ew_lease _ (inv_effects _ Hi) e i Hint) as (l & Hl & Hlr). rewrite Hl.
  destruct (_ || _); [by intros [= <-]|].
  destruct (ew_seq _ (inv_effects _ Hi) i (proj1 Hint)) as (run & Hrun & _).
  rewrite Hlr, Hrun. destruct (bool_decide _); [by intros [= <-]|done].
Qed.

Lemma defer_total owner ex : is_exception ex = true →
  total T (defer owner e ex) (λ a db, action_true db e a).
Proof.
  intros Hex m Hf Ho _. unfold defer. rewrite Hex, run_bind, run_catch.
  pose proof (release_recovery_tame owner 30 now (m_db m) Ho) as Ht.
  pose proof (λ ex', release_no_other_error owner 30 (m_db m) ex' Ho) as He.
  simpl. rewrite Hf. simpl.
  destruct (release_recovery_claim e owner 30 now (m_db m)) as [b db'|b|ex'] eqn:Eb; simpl.
  - destruct Ht as (Hi & Hl & _). by eexists _, _.
  - eexists _, _. split; [done|]. split_and!; [done|apply Ho|reflexivity|done].
  - rewrite (He ex' eq_refl). simpl.
    eexists _, _. split; [done|]. split_and!; [done|apply Ho|reflexivity|done].
Qed.

(** ** One effect *)

Definition decision_true (db : Db) (d : RecoverySweepDecision) : Prop :=
  action_true db (sw_effect_id d) (sw_action d).

(** The orphan can be settled or claimed at [now]. *)
Definition recoverable (db : Db) (e' : string) : Prop :=
  _terminal_row db e' = None ∧
  ∃ i run l, intent_of db e' i ∧ chat_runs db !! Ledger.run_id i = Some run ∧
    tool_effect_leases db !! e' = Some l ∧
    (is_terminal (ChatRun.status run) = true ∨
     RunJournal.lease_free now run = true ∧
     (is_null (Lease.lease_expires_at l) || sql_le (Lease.lease_expires_at l) now) = true).

Lemma settle_cases db : of_run db →
  (∃ i db', settle_terminal_run_intent e now db = Commit (Some i) db') ∨
  settle_terminal_run_intent e now db = Rollback None ∧
  (recoverable db e → ∃ run, chat_runs db !! r = Some run ∧ is_terminal (ChatRun.status run) = false).
Proof.
  intros [Hi (i & Hint & Hr)]. unfold settle_terminal_run_intent.
  destruct (intent_lookup db e i (inv_effects _ Hi) Hint) as [_ ->].
  destruct (_terminal_row db e) as [t|] eqn:Ht; [right; split; [done|by intros [? _]; congruence]|].
  rewrite Hr. destruct (ew_seq _ (inv_effects _ Hi) i (proj1 Hint)) as (run & Hrun & _).
  rewrite Hr in Hrun. rewrite Hrun.
  destruct (is_live _ || _) eqn:Hlive.
  { right. split; [done|]. intros _. exists run. split; [done|].
    apply orb_true_iff in Hlive as [Hl|Hl%bool_decide_eq_true]; [|by rewrite Hl].
    by destruct (ChatRun.status run). }
  left. destruct (ew_lease _ (inv_effects _ Hi) e i Hint) as (l & Hl & Hlr).
  unfold one_lease. rewrite Hl. pose proof (wf_keyed db (inv_wf db Hi) _ _ Hrun) as Hid.
  match goal with |- context [_append_event now db run i ?o ?ev ?ty ?ph ?sf ?v ?err true] =>
    destruct (append_event_ok now db run i e o ev ty ph sf v err true) as (db1 & -> & _) end;
    [done|by rewrite Hid|done|by rewrite Hid|done|done|]. by eexists _, _.
Qed.

Lemma claim_cases owner db : of_run db →
  (∃ i db', claim_recovery_intent e owner secs now db = Commit (Some i) db') ∨
  claim_recovery_intent e owner secs now db = Rollback None ∧
  (recoverable db e → ∃ run, chat_runs db !! r = Some run ∧ is_terminal (ChatRun.status run) = true).
Proof.
  intros [Hi (i & Hint & Hr)]. unfold claim_recovery_intent.
  destruct (intent_lookup db e i (inv_effects _ Hi) Hint) as [_ ->].
  destruct (_terminal_row db e) as [t|] eqn:Ht; [right; split; [done|by intros [? _]; congruence]|].
  rewrite Hr. destruct (ew_seq _ (inv_effects _ Hi) i (proj1 Hint)) as (run & Hrun & _).
  rewrite Hr in Hrun. rewrite Hrun.
  destruct (ew_lease _ (inv_effects _ Hi) e i Hint) as (l & Hl & Hlr). rewrite Hl.
  pose proof (wf_keyed db (inv_wf db Hi) _ _ Hrun) as Hid.
  destruct (ew_lease_intent db (inv_effects db Hi) e l Hl) as [Hle _].
  destruct (_ && _ && _) eqn:Hg.
  - left. set (run1 := run <| ChatRun.status := Running |> <| ChatRun.lease_owner := Some owner |>
      <| ChatRun.lease_expires_at := Some (lease_deadline now secs) |> <| ChatRun.updated_at := now |>).
    assert (is_terminal (ChatRun.status run) = false) as Hnt.
    { apply andb_true_iff in Hg as [Hg _]. apply andb_true_iff in Hg as [Hg _].
      apply orb_true_iff in Hg as [Hg|Hg%bool_decide_eq_true]; [|by rewrite Hg].
      by destruct (ChatRun.status run). }
    match goal with |- context [put_lease (put_run db run1) ?y] => set (l1 := y) end.
    destruct (lease_write_tame db l l1 run run1) as [Hi2 Hl2]; [by split; [|exists i]|done..| |done|].
    { split; simpl; auto; try lia. congruence. }
    match goal with |- context [_append_event now ?d run1 i ?o ?ev ?ty ?ph ?sf ?v ?err false] =>
      destruct (append_event_ok now d run1 i e o ev ty ph sf v err false) as (db1 & -> & _) end;
      [done|apply lookup_insert_eq|by eapply grows_intent; [apply Hl2|]|simpl; by rewrite Hid|done|done|].
    by eexists _, _.
  - right. split; [done|]. intros (_ & i' & run' & l' & Hint' & Hrun' & Hl' & Hcase).
    rewrite (intent_unique db e i' i (inv_effects _ Hi) Hint' Hint), Hr in Hrun'.
    rewrite Hrun in Hrun'. injection Hrun' as <-. rewrite Hl in Hl'. injection Hl' as <-.
    exists run. split; [done|]. destruct Hcase as [Hc|[Hc1 Hc2]]; [done|].
    rewrite Hc1, Hc2 in Hg. simpl in Hg. rewrite !andb_true_r in Hg.
    by destruct (ChatRun.status run).
Qed.

Lemma recover_one_total m : m_faults m = [] → of_run (m_db m) →
  ∃ d m', run now answer lost (recover_one registry secs e) m = (Ok d, m') ∧
    m_faults m' = [] ∧ inv (m_db m') ∧ local e r (m_db m) (m_db m') ∧
    (∀ d', d = Some d' → sw_effect_id d' = e ∧ decision_true (m_db m') d') ∧
    (recoverable (m_db m) e → is_Some d).
Proof.
  intros Hf Ho. unfold recover_one. rewrite run_bind, (run_atomically now answer lost _ m Hf).
  pose proof (settle_tame now (m_db m) Ho) as Hs.
  destruct (settle_cases (m_db m) Ho) as [(i & db' & E)|[E Hnt]]; rewrite E in *.
  { destruct Hs as (Hi & Hl & Hu). eexists _, _. split; [reflexivity|]. simpl.
    split_and!; [done|done|done| |by eexists].
    intros d' [= <-]. split; [done|]. by apply Hu. }
  rewrite run_bind. cbn [run uuid m_db m_calls m_faults m_ids].
  set (owner := "tool-recovery:" +:+ _). rewrite run_bind, run_atomically by done. cbn [m_db m_calls m_ids].
  pose proof (claim_recovery_tame owner secs now (m_db m) Ho) as Hc.
  destruct (claim_cases owner (m_db m) Ho) as [(i & db' & E')|[E' Ht]]; rewrite E' in *.
  - destruct Hc as (Hi & Hl & Hpost).
    destruct (Hpost i eq_refl) as ((row & [_ [Hrow _]%is_intent_of_true] & ->) & _).
    set (m1 := mkMachine db' (m_calls m) [] (tl (m_ids m))).
    assert (total T (try (recover_claimed registry owner (_intent_from_row row)) except (defer owner e))
      (λ a db, action_true db e a)) as Htot.
    { apply total_catch; [by apply recover_claimed_triple|apply defer_total]. }
    destruct (Htot m1 eq_refl (of_run_local _ _ Ho Hi Hl) I) as (a & m2 & E2 & ? & ? & ? & ?).
    rewrite run_bind, E2. eexists _, _. split; [reflexivity|].
    split_and!; [done|done|by etrans| |by eexists]. intros d' [= <-]. by split.
  - eexists _, _. split; [reflexivity|]. simpl. split_and!; [done|apply Ho|reflexivity|done|].
    intros Hrec. destruct (Hnt Hrec) as (run & Hr1 & Hn). destruct (Ht Hrec) as (run' & Hr2 & Hn').
    rewrite Hr1 in Hr2. injection Hr2 as <-. congruence.
Qed.
End alone.
End one_effect.

(** ** The whole sweep *)

Lemma decision_true_grows db db' d : grows db db' → decision_true db d → decision_true db' d.
Proof.
  intros [[k El] _ _]. unfold decision_true, action_true, unknown_fact, known_fact.
  assert (∀ e' t, _terminal_row db e' = Some t → _terminal_row db' e' = Some t) as Ht.
  { intros e' t H. unfold _terminal_row in *. by rewrite El, find_app, H. }
  destruct (sw_action d); [| | | |done].
  - intros (t & ? & ?). eauto.
  - intros [t ?]. eexists. by apply Ht.
  - intros (t & ? & ?). eauto.
  - intros (t & ? & ?). eauto.
Qed.

Lemma intent_of_rows db db' e row : intent_rows db' e = intent_rows db e →
  intent_of db' e row ↔ intent_of db e row.
Proof. intros E. by rewrite <- !elem_of_intent_rows, E. Qed.

(** The effect [e] of [i] has its run for itself among [es]. *)
Definition alone_in (db : Db) (es : list string) (e : string) : Prop :=
  ∀ i e' i', intent_of db e i → e' ∈ es → intent_of db e' i' →
    Ledger.run_id i' = Ledger.run_id i → e' = e.

Lemma recoverable_local now db db' e r e' :
  local e r db db' → e' ≠ e → (∀ i, intent_of db e' i → Ledger.run_id i ≠ r) →
  recoverable now db e' → recoverable now db' e'.
Proof.
  intros [_ Hr Hl Hf Hi] Hne Hrun (Hn & i & run & l & Hint & Hr' & Hl' & Hc).
  split; [by rewrite Hf|]. exists i, run, l. split_and!; [|by rewrite Hr; [|apply Hrun]|by rewrite Hl|done].
  by apply (intent_of_rows db db').
Qed.

Section sweep.
Context (now : Z) (answer : tool_call → result exn ToolEffectGateway.answer) (lost : bool).
Context (Hanswer : ∀ c ex, answer c = Err ex → is_exception ex = true).
Context `{Host} (registry : Registry) (secs : Z).

Lemma recover_all_total es : ∀ m, m_faults m = [] → inv (m_db m) →
  (∀ e, e ∈ es → ∃ i, intent_of (m_db m) e i) →
  ∃ ds m', run now answer lost (recover_all registry secs es) m = (Ok ds, m') ∧
    m_faults m' = [] ∧ inv (m_db m') ∧ grows (m_db m) (m_db m') ∧
    (∀ d, d ∈ ds → decision_true (m_db m') d) ∧
    (∀ e, e ∈ es → recoverable now (m_db m) e → alone_in (m_db m) es e →
       ∃ d, d ∈ ds ∧ sw_effect_id d = e).
Proof.
  induction es as [|e es IH]; intros m Hf Hi Hint.
  { exists [], m. split_and!; [done|done|done|reflexivity| |].
    - intros d Hd. by apply not_elem_of_nil in Hd.
    - intros e He. by apply not_elem_of_nil in He. }
  destruct (Hint e) as [i Hie]; [by left|].
  destruct (recover_one_total e (Ledger.run_id i) now answer lost Hanswer registry secs m Hf)
    as (d & m1 & E1 & Hf1 & Hi1 & Hl1 & Hd1 & Hs1); [by split; [|exists i]|].
  assert (Hsame : ∀ e' x, intent_of (m_db m1) e' x ↔ intent_of (m_db m) e' x).
  { intros e' x. apply intent_of_rows. apply Hl1. }
  destruct (IH m1 Hf1 Hi1) as (ds & m2 & E2 & Hf2 & Hi2 & Hg2 & Hd2 & Hs2).
  { intros e' He'. destruct (Hint e') as [x Hx]; [by right|]. exists x. by apply Hsame. }
  cbn [recover_all]. rewrite run_bind, E1, run_bind, E2.
  eexists _, _. split; [reflexivity|]. split_and!; [done|done| | |].
  - etrans; [apply Hl1|done].
  - intros d' [Hd'|Hd']%elem_of_app; [|by apply Hd2].
    destruct d as [d0|]; [|by apply not_elem_of_nil in Hd'].
    apply list_elem_of_singleton in Hd' as ->. eapply decision_true_grows; [done|].
    by apply (Hd1 d0).
  - intros e' He' Hrec Halone. destruct (decide (e' = e)) as [->|Hne].
    + destruct (Hs1 Hrec) as [d0 ->]. exists d0. split; [left|]. by apply (Hd1 d0).
    + apply elem_of_cons in He' as [->|He']; [done|].
      destruct (Hs2 e' He') as (d' & Hd' & Hde).
      * eapply recoverable_local; [exact Hl1|done| |done].
        intros x Hx Hr. apply Hne. symmetry. by apply (Halone x e i Hx); [left| |].
      * intros x e2 x2 Hx He2 Hx2. apply Halone; [by apply Hsame|by right|by apply Hsame].
      * exists d'. split; [|done]. apply elem_of_app. by right.
Qed.

Lemma pending_elem db e : e ∈ match pending_effect_ids now db with Rollback l => l | _ => [] end ↔
  _terminal_row db e = None ∧ ∃ i, intent_of db e i.
Proof.
  simpl. rewrite list_elem_of_fmap. split.
  - intros (row & -> & Hrow). rewrite elem_of_order_by in Hrow.
    apply list_elem_of_In, filter_In in Hrow as [Hin Hb]. apply list_elem_of_In in Hin.
    bool_simpl. split; [by apply is_null_true|]. exists row. split; [done|]. by apply is_intent_of_true.
  - intros [Ht (i & Hin & [Hie Hev]%is_intent_of_true)]. exists i. split; [done|].
    rewrite elem_of_order_by. apply list_elem_of_In, filter_In. split; [by apply list_elem_of_In|].
    rewrite Hie, Ht. by rewrite bool_decide_true.
Qed.

(** The effect has its run for itself among the pending ones. *)
Definition sole_pending (db : Db) (e : string) : Prop :=
  ∀ i e' i', intent_of db e i → intent_of db e' i' → _terminal_row db e' = None →
    Ledger.run_id i' = Ledger.run_id i → e' = e.

(** one broken adapter cannot starve later work.  Run without database
    faults on consistent tables, the sweep returns whatever the adapters answer
    or raise, short of a cancellation; each decision it reports is true of the
    ledger it leaves, and every orphan that could be settled or claimed and is
    the only pending effect of its run gets a decision. *)
Theorem sweep_completes db ids : inv db →
  ∃ ds m', run now answer lost (recover_incomplete_tool_effects registry secs)
             (mkMachine db [] [] ids) = (Ok ds, m') ∧
    inv (m_db m') ∧ grows db (m_db m') ∧
    (∀ d, d ∈ ds → decision_true (m_db m') d) ∧
    (∀ e, recoverable now db e → sole_pending db e → ∃ d, d ∈ ds ∧ sw_effect_id d = e).
Proof.
  intros Hi. unfold recover_incomplete_tool_effects. rewrite run_bind, run_atomically by done.
  pose proof (pending_elem db) as Hp. unfold pending_effect_ids in *. cbn [m_db m_calls m_ids].
  match goal with |- context [recover_all registry secs ?l] => set (es := l) in * end.
  destruct (recover_all_total es (mkMachine db [] [] ids)) as (ds & m' & E & _ & Hi' & Hg & Hd & Hs);
    [done|done|intros e He; by apply Hp in He as [_ ?]|].
  exists ds, m'. split_and!; [done|done|done|done|].
  intros e Hrec Hsole. apply Hs; [|done|].
  - apply Hp. destruct Hrec as (? & i & run & l & Hint & _). eauto.
  - intros i e' i' Hie He' Hie' Hr. apply Hp in He' as [Ht _]. by eapply Hsole.
Qed.
End sweep.

(** ** A concrete sweep: the worker of [demo_pending] is gone *)

Lemma demo_recoverable : recoverable 400000000 demo_pending "eff_e1".
Proof.
  split; [vm_compute; reflexivity|].
  assert (∃ i, intent_rows demo_pending "eff_e1" = [i] ∧ Ledger.run_id i = "run_1") as (i & Hi & Hr).
  { eexists. split; [vm_compute; reflexivity|vm_compute; reflexivity]. }
  assert (∃ run, chat_runs demo_pending !! "run_1" = Some run ∧
    RunJournal.lease_free 400000000 run = true) as (run & Hrun & Hfree).
  { eexists. split; [vm_compute; reflexivity|vm_compute; reflexivity]. }
  assert (∃ l, tool_effect_leases demo_pending !! "eff_e1" = Some l ∧
    sql_le (Lease.lease_expires_at l) 400000000 = true) as (l & Hl & Hexp).
  { eexists. split; [vm_compute; reflexivity|vm_compute; reflexivity]. }
  exists i, run, l. split_and!; [|by rewrite Hr|done|].
  - apply elem_of_intent_rows. rewrite Hi. left.
  - right. split; [done|]. by rewrite Hexp, orb_true_r.
Qed.

Lemma demo_sole : sole_pending demo_pending "eff_e1".
Proof.
  intros i e' i' _ [Hin [He _]%is_intent_of_true] _ _. subst e'.
  assert (tool_effect_ledger demo_pending = [i'] → Ledger.effect_id i' = "eff_e1") as Hone.
  { vm_compute. intros [= <-]. reflexivity. }
  assert (∃ x, tool_effect_ledger demo_pending = [x]) as [x Hx] by (eexists; vm_compute; reflexivity).
  apply Hone. rewrite Hx in Hin |- *. apply list_elem_of_singleton in Hin. by subst.
Qed.

Lemma sweep_completes_witness :
  ∃ ds m', run 400000000 (λ _, Err (OtherError "adapter broken")) false
             (@recover_incomplete_tool_effects demo_host ∅ 120) (mkMachine demo_pending [] [] ["x"])
           = (Ok ds, m') ∧ ∃ d, d ∈ ds ∧ sw_effect_id d = "eff_e1".
Proof.
  destruct (sweep_completes 400000000 (λ _, Err (OtherError "adapter broken")) false
    (ltac:(intros c ex [= <-]; reflexivity)) (H:=demo_host) ∅ 120 demo_pending ["x"] demo_pending_inv)
    as (ds & m' & E & _ & _ & _ & Hs).
  exists ds, m'. split; [exact E|]. exact (Hs "eff_e1" demo_recoverable demo_sole).
Defined.
