(* ===== verification/EventOffsets.v ===== *)
(** * Event offsets of the workers: [_EventOffsets] of
    [orchestration/chat_run_executor.py]

    A worker takes the offsets of its events from reservations of 64 that the
    journal hands out, proves its ownership by reading the lease at most every
    quarter second, and allocates terminal events one by one.  The system below
    runs any number of such workers, several of them possibly on the same run,
    beside arbitrary journal calls. *)

From S2P Require Import Prelude Db RunJournal RunJournalProps RunJournalThms.

Module EventOffsets.

Definition _OFFSET_RESERVATION : Z := 64.
(** A quarter second, in microseconds of the monotonic clock. *)
Definition _CANCEL_VISIBILITY : Z := 250000.

Record t := mk {
  next : Z;
  remaining : Z;
  proven_at : Z;
  last : Z
}.
#[export] Instance eta_offsets : Eta t := λ x, mk (next x) (remaining x) (proven_at x) (last x).

Definition init : t := mk 0 0 0 0.

Definition _reserve (run_id owner : string) (now : Z) : Db → result exn Z * Db :=
  RunJournal.allocate_event_offset now run_id (Some owner) false _OFFSET_RESERVATION.

(** [lease_lost] is the state of the event, [monotonic] the reading of the
    monotonic clock. *)
Definition _prove_ownership (self : t) (run_id owner : string) (lease_lost : bool)
    (monotonic now : Z) (db : Db) : result exn t :=
  if lease_lost then Err (RunLeaseLost run_id)
  else if monotonic - proven_at self <? _CANCEL_VISIBILITY then Ok self
  else match (RunJournal.require_lease now run_id owner db).1 with
       | Ok _ => Ok (self <| proven_at := monotonic |>)
       | Err e => Err e
       end.

Definition hand_out (self : t) : Z * t :=
  let offset := next self in
  (offset, self <| next := offset + 1 |> <| remaining := remaining self - 1 |>
                <| last := offset |>).

Definition take (self : t) (run_id owner : string) (terminal lease_lost : bool)
    (monotonic now : Z) (db : Db) : result exn Z * t * Db :=
  if terminal then
    let self1 := self <| remaining := 0 |> in
    match RunJournal.allocate_event_offset now run_id None true 1 db with
    | (Ok o, db') => (Ok o, self1 <| last := o |>, db')
    | (Err e, db') => (Err e, self1, db')
    end
  else if remaining self =? 0 then
    match _reserve run_id owner now db with
    | (Ok first, db') =>
        let '(o, self') :=
          hand_out (self <| next := first |> <| remaining := _OFFSET_RESERVATION |>
                         <| proven_at := monotonic |>) in
        (Ok o, self', db')
    | (Err e, db') => (Err e, self, db')
    end
  else
    match _prove_ownership self run_id owner lease_lost monotonic now db with
    | Ok self1 => let '(o, self') := hand_out self1 in (Ok o, self', db)
    | Err e => (Err e, self, db)
    end.

(** ** Workers beside the journal *)

Record worker := mkWorker {
  w_run : string;
  w_owner : string;
  w_offsets : t
}.

(** The log records which worker emitted which offset of which run. *)
Record entry := mkEntry { e_worker : string; e_run : string; e_offset : Z }.

Record sys := mkSys {
  s_db : Db;
  s_workers : gmap string worker;
  s_log : list entry
}.

Inductive step : sys → sys → Prop :=
| step_start db ws log i r o :
    ws !! i = None →
    step (mkSys db ws log) (mkSys db (<[i := mkWorker r o init]> ws) log)
| step_take db ws log i r o x terminal lost monotonic now offset x' db' :
    ws !! i = Some (mkWorker r o x) →
    take x r o terminal lost monotonic now db = (Ok offset, x', db') →
    step (mkSys db ws log)
         (mkSys db' (<[i := mkWorker r o x']> ws) (log ++ [mkEntry i r offset]))
| step_take_fails db ws log i r o x terminal lost monotonic now e x' db' :
    ws !! i = Some (mkWorker r o x) →
    take x r o terminal lost monotonic now db = (Err e, x', db') →
    step (mkSys db ws log) (mkSys db' (<[i := mkWorker r o x']> ws) log)
| step_journal db ws log now c :
    call_ok c → step (mkSys db ws log) (mkSys (exec_call now c db) ws log).

(** [lo..lo+n-1] is handed to someone: it lies below the run's counter. *)
Definition allotted (db : Db) (r : string) (hi : Z) : Prop :=
  ∃ row, chat_runs db !! r = Some row ∧ hi ≤ ChatRun.last_event_offset row.

(** [o] lies in what the worker still has to hand out. *)
Definition owns (w : worker) (r : string) (o : Z) : Prop :=
  w_run w = r ∧ next (w_offsets w) ≤ o < next (w_offsets w) + remaining (w_offsets w).

Record inv (s : sys) : Prop := {
  inv_wf : wf (s_db s);
  inv_block i w o : s_workers s !! i = Some w → owns w (w_run w) o →
    allotted (s_db s) (w_run w) o;
  inv_blocks i j wi wj r o : s_workers s !! i = Some wi → s_workers s !! j = Some wj →
    owns wi r o → owns wj r o → i = j;
  inv_log e : e ∈ s_log s → allotted (s_db s) (e_run e) (e_offset e);
  inv_spent i w e o : s_workers s !! i = Some w → e ∈ s_log s → owns w (e_run e) o →
    e_worker e = i → e_offset e < o;
  inv_unspent i w e : s_workers s !! i = Some w → e ∈ s_log s →
    owns w (e_run e) (e_offset e) → False;
  inv_unique : NoDup ((λ e, (e_run e, e_offset e)) <$> s_log s);
  inv_started e : e ∈ s_log s →
    ∃ w, s_workers s !! e_worker e = Some w ∧ w_run w = e_run e;
  inv_remaining i w : s_workers s !! i = Some w → 0 ≤ remaining (w_offsets w);
  inv_sorted : StronglySorted (λ e1 e2, e_worker e1 = e_worker e2 → e_offset e1 < e_offset e2)
    (s_log s)
}.

Definition in_block (x : t) (o : Z) : Prop := next x ≤ o < next x + remaining x.

(** ** What one [take] does *)

(** The offset and what is left come from the old block, or lie above the
    counter of the run. *)
Definition above_or_old (db : Db) (r : string) (x : t) (o : Z) : Prop :=
  in_block x o ∨ ¬ allotted db r o.

Record taken (db db' : Db) (r : string) (x x' : t) (o : Z) : Prop := {
  tk_source : above_or_old db r x o;
  tk_allotted : allotted db' r o;
  tk_rest z : in_block x' z → o < z ∧ above_or_old db r x z ∧ allotted db' r z;
  tk_remaining : 0 ≤ remaining x'
}.

Lemma above_counter db r row o :
  chat_runs db !! r = Some row → ChatRun.last_event_offset row < o → ¬ allotted db r o.
Proof. intros Hr Hlt (row' & Hr' & Hle). simplify_eq. lia. Qed.

Lemma take_reserved now r ow tm n db o db' x x' :
  wf db → RunJournal.allocate_event_offset now r ow tm n db = (Ok o, db') →
  (∀ z, in_block x' z → o < z ≤ o + n - 1) → 0 ≤ remaining x' → taken db db' r x x' o.
Proof.
  intros Hwf (row & Hr & -> & -> & Hn)%allocate_shape Hz Hrem.
  pose proof (wf_keyed db Hwf _ _ Hr) as Hk.
  assert (∀ z, z ≤ ChatRun.last_event_offset row + 1 + n - 1 → allotted
    (put_run db (row <| ChatRun.last_event_offset :=
       ChatRun.last_event_offset row + 1 + n - 1 |> <| ChatRun.updated_at := now |>)) r z) as Hal.
  { intros z Hle. eexists. split; [simpl; rewrite Hk; apply lookup_insert_eq|done]. }
  split; [right; eapply above_counter; [done|lia]|apply Hal; lia| |done].
  intros z Hzb. specialize (Hz z Hzb). split_and!; [lia| |apply Hal; lia].
  right. eapply above_counter; [done|lia].
Qed.

Lemma take_ok db x r o terminal lost m now off x' db' :
  wf db → 0 ≤ remaining x → (∀ z, in_block x z → allotted db r z) →
  take x r o terminal lost m now db = (Ok off, x', db') → taken db db' r x x' off.
Proof.
  intros Hwf Hrem Hblock H. unfold take in H. destruct terminal.
  - destruct (RunJournal.allocate_event_offset _ _ _ _ _ _) as [[o1|] d] eqn:E; simplify_eq.
    eapply take_reserved; [done|exact E| |done]. unfold in_block; simpl; lia.
  - destruct (Z.eqb_spec (remaining x) 0) as [H0|H0].
    + destruct (_reserve _ _ _ _) as [[first|] d] eqn:E; simplify_eq/=.
      unfold _reserve in E. eapply take_reserved; [done|exact E| |done].
      unfold in_block, _OFFSET_RESERVATION; simpl; lia.
    + destruct (_prove_ownership _ _ _ _ _ _ _) as [x1|] eqn:E; simplify_eq/=.
      assert (next x1 = next x ∧ remaining x1 = remaining x) as [En Er].
      { unfold _prove_ownership in E. split_matches E; done. }
      assert (in_block x (next x1)) as Hin by (unfold in_block; lia).
      split; [by left|by apply Hblock| |simpl; lia].
      intros z Hz. unfold in_block in Hz. simpl in Hz.
      assert (in_block x z) by (unfold in_block; lia).
      split_and!; [lia|by left|by apply Hblock].
Qed.

Lemma take_err db x r o terminal lost m now e x' db' :
  take x r o terminal lost m now db = (Err e, x', db') → 0 ≤ remaining x →
  db' = db ∧ 0 ≤ remaining x' ∧ ∀ z, in_block x' z → in_block x z.
Proof.
  assert (∀ ow tm n e d, RunJournal.allocate_event_offset now r ow tm n db = (Err e, d) → d = db)
    as Hdb.
  { intros ow tm n e0 d. unfold RunJournal.allocate_event_offset, run_tx.
    destruct (_ <? _); [by intros [=]|].
    set (row_or := if tm then _ else _). destruct row_or; by intros [=]. }
  intros H Hrem. unfold take in H. destruct terminal.
  - destruct (RunJournal.allocate_event_offset _ _ _ _ _ _) as [[o1|] d] eqn:E; simplify_eq.
    split_and!; [by eapply Hdb|done|]. unfold in_block; simpl; lia.
  - destruct (Z.eqb_spec (remaining x) 0) as [H0|H0].
    + destruct (_reserve _ _ _ _) as [[first|] d] eqn:E; simplify_eq/=.
      unfold _reserve in E. split_and!; [by eapply Hdb|done|done].
    + destruct (_prove_ownership _ _ _ _ _ _ _) as [x1|] eqn:E; by simplify_eq/=.
Qed.

(** The counters only grow. *)
Lemma allotted_evolves settled db db' r o :
  runs_evolve settled db db' → allotted db r o → allotted db' r o.
Proof.
  intros Hev (row & Hr & Hle). destruct (Hev r row Hr) as (row' & Hr' & []). exists row'.
  split; [done|lia].
Qed.

Lemma allotted_lt db r a b : allotted db r a → ¬ allotted db r b → a < b.
Proof.
  intros (row & Hr & Ha) Hb. destruct (Z.lt_ge_cases a b); [done|]. destruct Hb.
  exists row. split; [done|lia].
Qed.

Lemma take_safe db x r o terminal lost m now res x' db' :
  wf db → take x r o terminal lost m now db = (res, x', db') →
  wf db' ∧ runs_evolve not_live db db'.
Proof.
  intros Hwf H.
  assert (∀ ow tm n, journal_safe db (RunJournal.allocate_event_offset now r ow tm n db).2) as Hs
    by (intros; apply allocate_event_offset_safe).
  unfold take, _reserve in H.
  destruct terminal; [|destruct (remaining x =? 0)].
  - destruct (RunJournal.allocate_event_offset _ _ _ _ _ _) as [res1 d] eqn:E.
    specialize (Hs None true 1). rewrite E in Hs. destruct res1; simplify_eq; by apply Hs.
  - destruct (RunJournal.allocate_event_offset _ _ _ _ _ _) as [res1 d] eqn:E.
    specialize (Hs (Some o) false _OFFSET_RESERVATION). rewrite E in Hs.
    destruct res1; simplify_eq/=; by apply Hs.
  - destruct (_prove_ownership _ _ _ _ _ _ _); by simplify_eq/=.
Qed.

(** ** The invariant *)

(** A worker [i] of run [r] now has [x'], taken from [x] or above the counter. *)
Definition fresh_worker (db db' : Db) (r : string) (x x' : t) : Prop :=
  0 ≤ remaining x' ∧ ∀ z, in_block x' z → above_or_old db r x z ∧ allotted db' r z.

Lemma above_not_owned s i r x o z :
  inv s → s_workers s !! i = Some (mkWorker r o x) → above_or_old (s_db s) r x z →
  ∀ j wj, s_workers s !! j = Some wj → owns wj r z → j = i.
Proof.
  intros Hi Hw [Hin|Hna] j wj Hj Ho.
  - by eapply (inv_blocks s Hi j i wj).
  - destruct Hna. destruct Ho as [<- Ho]. by eapply (inv_block s Hi).
Qed.

Lemma above_not_logged s i r x o z e :
  inv s → s_workers s !! i = Some (mkWorker r o x) → above_or_old (s_db s) r x z →
  e ∈ s_log s → e_run e = r → e_offset e ≠ z.
Proof.
  intros Hi Hw [Hin|Hna] He <- <-.
  - by eapply (inv_unspent s Hi i).
  - by apply Hna, (inv_log s Hi).
Qed.

Lemma above_own_log s i r x o z e :
  inv s → s_workers s !! i = Some (mkWorker r o x) → above_or_old (s_db s) r x z →
  e ∈ s_log s → e_worker e = i → e_run e = r ∧ e_offset e < z.
Proof.
  intros Hi Hw Hab He Hei.
  destruct (inv_started s Hi e He) as (w & Hw' & Hr). rewrite Hei, Hw in Hw'. simplify_eq/=.
  split; [done|]. destruct Hab as [Hin|Hna].
  - by eapply (inv_spent s Hi (e_worker e)).
  - eapply allotted_lt; [by apply (inv_log s Hi)|done].
Qed.

(** Replacing one worker's offsets, without a new log entry. *)
Lemma inv_replace s i r o x x' db' :
  inv s → s_workers s !! i = Some (mkWorker r o x) →
  wf db' → runs_evolve not_live (s_db s) db' → fresh_worker (s_db s) db' r x x' →
  inv (mkSys db' (<[i := mkWorker r o x']> (s_workers s)) (s_log s)).
Proof.
  intros Hi Hw Hwf Hev [Hrem Hx].
  assert (∀ j wj z, <[i := mkWorker r o x']> (s_workers s) !! j = Some wj →
    owns wj (w_run wj) z →
    (j = i ∧ w_run wj = r ∧ above_or_old (s_db s) r x z) ∨
    (j ≠ i ∧ s_workers s !! j = Some wj)) as Hcase.
  { intros j wj z [[<- <-]|[Hne Hj]]%lookup_insert_Some Ho; [left|right; done].
    split_and!; [done|done|]. by apply Hx, Ho. }
  split; simpl.
  - done.
  - intros j wj z [[<- <-]|[Hne Hj]]%lookup_insert_Some Ho; [by apply Hx, Ho|].
    eapply allotted_evolves; [done|]. by eapply (inv_block s Hi).
  - intros j k wj wk r0 z Hj Hk Hoj Hok.
    assert (w_run wj = r0 ∧ w_run wk = r0) as [Ej Ek] by (by destruct Hoj, Hok).
    destruct (Hcase j wj z Hj) as [(-> & E1 & A1)|[N1 L1]]; [by rewrite Ej|..];
      destruct (Hcase k wk z Hk) as [(-> & E2 & A2)|[N2 L2]]; try (by rewrite Ek); [done|..].
    + symmetry. eapply (above_not_owned s i r x o z); [done..|]. congruence.
    + eapply (above_not_owned s i r x o z); [done..|]. congruence.
    + by eapply (inv_blocks s Hi j k wj wk).
  - intros e He. eapply allotted_evolves; [done|]. by apply (inv_log s Hi).
  - intros j wj e z Hj He Ho Hej. assert (w_run wj = e_run e) as Er by (by destruct Ho).
    destruct (Hcase j wj z Hj) as [(-> & E1 & A1)|[N1 L1]]; [by rewrite Er| |].
    + by eapply above_own_log.
    + by eapply (inv_spent s Hi j).
  - intros j wj e Hj He Ho. assert (w_run wj = e_run e) as Er by (by destruct Ho).
    destruct (Hcase j wj (e_offset e) Hj) as [(-> & E1 & A1)|[N1 L1]]; [by rewrite Er| |].
    + eapply (above_not_logged s i); [done..|congruence|done].
    + by eapply (inv_unspent s Hi j).
  - by apply (inv_unique s Hi).
  - intros e He. destruct (inv_started s Hi e He) as (w & Hw' & Hr).
    destruct (decide (i = e_worker e)) as [->|Hne].
    + rewrite lookup_insert_eq. simplify_eq/=. eauto.
    + rewrite lookup_insert_ne by done. eauto.
  - intros j wj [[<- <-]|[Hne Hj]]%lookup_insert_Some; [done|]. by eapply (inv_remaining s Hi).
  - by apply (inv_sorted s Hi).
Qed.

Lemma StronglySorted_snoc {A} (R : A → A → Prop) l x :
  StronglySorted R l → (∀ y, y ∈ l → R y x) → StronglySorted R (l ++ [x]).
Proof.
  induction 1 as [|y l Hl IH Hf]; intros Hx; simpl; [by repeat constructor|].
  constructor; [apply IH; intros z Hz; apply Hx; by right|].
  apply Forall_app. split; [done|]. constructor; [apply Hx; left|done].
Qed.

(** Emitting one entry. *)
Lemma inv_emit db ws log i r o x off :
  inv (mkSys db ws log) → ws !! i = Some (mkWorker r o x) → allotted db r off →
  (∀ z, in_block x z → off < z) →
  (∀ e, e ∈ log → e_run e = r → e_offset e ≠ off) →
  (∀ e, e ∈ log → e_worker e = i → e_offset e < off) →
  (∀ j wj, ws !! j = Some wj → owns wj r off → j = i) →
  inv (mkSys db ws (log ++ [mkEntry i r off])).
Proof.
  intros Hi Hw Hal Hrest Hnew Hlt Hexcl. destruct Hi as [I1 I2 I3 I4 I5 I6 I7 I8 I9 I10]; simpl in *.
  split; simpl; [done|done|done|..|done|].
  - intros e [He| ->%list_elem_of_singleton]%elem_of_app; [by apply I4|done].
  - intros j wj e z Hj [He| ->%list_elem_of_singleton]%elem_of_app Ho Hej; [by eapply I5|].
    simpl in *. subst. rewrite Hw in Hj. simplify_eq. by apply Hrest, Ho.
  - intros j wj e Hj [He| ->%list_elem_of_singleton]%elem_of_app Ho; [by eapply I6|].
    simpl in *. pose proof (Hexcl j wj Hj Ho) as ->. rewrite Hw in Hj. simplify_eq.
    destruct Ho as [_ Ho]. specialize (Hrest off Ho). lia.
  - rewrite fmap_app. apply NoDup_app. split_and!; [done| |apply NoDup_singleton].
    intros p (e & -> & He)%list_elem_of_fmap Hp. apply list_elem_of_singleton in Hp.
    simplify_eq/=. by apply (Hnew e He).
  - intros e [He| ->%list_elem_of_singleton]%elem_of_app; [by apply I8|]. simpl. eauto.
  - apply StronglySorted_snoc; [done|]. intros e He Hei. by apply Hlt.
Qed.

Lemma step_inv s s' : inv s → step s s' → inv s'.
Proof.
  intros Hi Hs. destruct Hs as [db ws log i r o Hnew|db ws log i r o x tm lost m now off x' db' Hw Ht|
    db ws log i r o x tm lost m now e x' db' Hw Ht|db ws log now c Hok].
  - assert (∀ j wj, <[i := mkWorker r o init]> ws !! j = Some wj →
      (w_offsets wj = init) ∨ ws !! j = Some wj) as Hcase.
    { intros j wj [[_ <-]|[_ Hj]]%lookup_insert_Some; [by left|by right]. }
    assert (∀ wj r0 z, w_offsets wj = init → owns wj r0 z → False) as Hno.
    { intros wj r0 z E [_ Ho]. rewrite E in Ho. simpl in Ho. lia. }
    destruct Hi as [I1 I2 I3 I4 I5 I6 I7 I8 I9 I10]; simpl in *. split; simpl; try done.
    + intros j wj z [E|Hj]%Hcase Ho; [by destruct (Hno wj _ z E Ho)|by eapply I2].
    + intros j k wj wk r0 z [E|Hj]%Hcase [E'|Hk]%Hcase Hoj Hok';
        [by destruct (Hno _ _ _ E Hoj)|by destruct (Hno _ _ _ E Hoj)|
         by destruct (Hno _ _ _ E' Hok')|by eapply (I3 j k wj wk)].
    + intros j wj e z [E|Hj]%Hcase He Ho; [by destruct (Hno wj _ z E Ho)|by eapply I5].
    + intros j wj e [E|Hj]%Hcase He Ho; [by destruct (Hno wj _ _ E Ho)|by eapply I6].
    + intros e He. destruct (I8 e He) as (w & Hw & Hr). exists w.
      rewrite lookup_insert_ne; [done|]. congruence.
    + intros j wj [E|Hj]%Hcase; [by rewrite E|by eapply I9].
  - set (s := mkSys db ws log) in *.
    destruct (take_safe _ _ _ _ _ _ _ _ _ _ _ (inv_wf s Hi) Ht) as [Hwf Hev].
    assert (taken db db' r x x' off) as [T1 T2 T3 T4].
    { eapply take_ok; [apply Hi|by apply (inv_remaining s Hi i _ Hw)| |exact Ht].
      intros z Hz. by apply (inv_block s Hi i _ z Hw). }
    apply (inv_emit db' (<[i := mkWorker r o x']> ws) log i r o x' off).
    + apply (inv_replace s i r o x); [done..|]. split; [done|]. intros z Hz. by apply T3.
    + apply lookup_insert_eq.
    + done.
    + intros z Hz. by apply T3.
    + intros e He Hr. by eapply (above_not_logged s i).
    + intros e He Hei. by eapply (above_own_log s i).
    + intros j wj [[<- _]|[_ Hj]]%lookup_insert_Some Ho; [done|].
      by eapply (above_not_owned s i r x o off).
  - set (s := mkSys db ws log) in *.
    destruct (take_err _ _ _ _ _ _ _ _ _ _ _ Ht) as (-> & Hrem & Hz);
      [by apply (inv_remaining s Hi i _ Hw)|].
    apply (inv_replace s i r o x); [done|done|apply Hi|done|]. split; [done|].
    intros z Hin%Hz. split; [by left|]. by apply (inv_block s Hi i _ z Hw).
  - destruct Hi as [I1 I2 I3 I4 I5 I6 I7 I8 I9 I10]; simpl in *.
    destruct (exec_call_safe now c db Hok I1) as [Hwf Hev].
    split; simpl; try done; eauto using allotted_evolves.
Qed.

(** no two events of a run share an offset.  However many workers serve a
    run, one after the other or at the same time, and whatever journal calls
    happen in between, all offsets handed out for a run are distinct, and each
    worker's own events carry strictly increasing offsets, although only one
    take in 64 writes to the database. *)
Theorem offsets_unique_and_increasing db s :
  wf db → rtc step (mkSys db ∅ []) s →
  NoDup ((λ e, (e_run e, e_offset e)) <$> s_log s) ∧
  StronglySorted (λ e1 e2, e_worker e1 = e_worker e2 → e_offset e1 < e_offset e2) (s_log s).
Proof.
  intros Hwf Hr.
  assert (inv s) as Hi; [|split; [apply Hi|apply Hi]].
  assert (inv (mkSys db ∅ [])) as H0.
  { split; simpl; try done; try (intros; by destruct (not_elem_of_nil e));
      try (intros; by simplify_map_eq); constructor. }
  clear Hwf. induction Hr as [|s1 s2 s3 Hs _ IH]; [done|]. eauto using step_inv.
Qed.

(** Two workers on [run_1]: the first emits two events from one reservation;
    its lease expires, the run is claimed by another worker, whose first event
    comes from the next reservation. *)
Lemma demo_two_workers :
  ∃ s, rtc step (mkSys demo1 ∅ []) s ∧ e_offset <$> s_log s = [1; 2; 65].
Proof.
  eexists. split.
  - eapply rtc_l; [apply (step_start demo1 ∅ [] "t1" "run_1" "w1"); reflexivity|].
    eapply rtc_l; [eapply (step_take _ _ _ "t1" _ _ _ false false 0 30);
      [apply lookup_insert_eq|vm_compute; reflexivity]|].
    eapply rtc_l; [eapply (step_take _ _ _ "t1" _ _ _ false false 10 40);
      [apply lookup_insert_eq|vm_compute; reflexivity]|].
    eapply rtc_l; [apply (step_journal _ _ _ 100000000 (CallClaim "run_1" "w2" 90)); done|].
    eapply rtc_l; [apply (step_start _ _ _ "t2" "run_1" "w2"); reflexivity|].
    eapply rtc_l; [eapply (step_take _ _ _ "t2" _ _ _ false false 0 100000001);
      [apply lookup_insert_eq|vm_compute; reflexivity]|].
    apply rtc_refl.
  - reflexivity.
Qed.

Lemma offsets_unique_and_increasing_witness :
  ∃ s, rtc step (mkSys demo1 ∅ []) s ∧ e_offset <$> s_log s = [1; 2; 65] ∧
       NoDup ((λ e, (e_run e, e_offset e)) <$> s_log s).
Proof.
  destruct demo_two_workers as (s & Hr & Hlog). exists s. split; [exact Hr|split; [exact Hlog|]].
  exact (proj1 (offsets_unique_and_increasing demo1 s demo1_wf Hr)).
Defined.
End EventOffsets.
