(* ===== verification/ChatSequencer.v ===== *)
(** * Admission of chat runs: [core/services/chat_sequencer.py]

    [ChatSequencer] is the only way an interactive run enters a chat: one
    transaction reserves sequence numbers, stores the user message, the empty
    assistant row of [core/chat/inflight.py] and the pending run that takes the
    chat's writer slot.  [ChatRunExecutor] holds the compare-and-set helpers of
    [orchestration/chat_run_executor.py] that start, stop and acknowledge a
    run, [ChatService] the content limit of [core/services/chat_service.py].
    Identifiers are drawn by [Uuid] and each commit is one [Tx] of a program. *)

From S2P Require Import Prelude Db RunJournal PyString Program.

Module ChatService.
Definition _CONTENT_MAX : Z := 100000.
Definition _TRUNC_NOTE : text :=
  [10; 10; 8230; 65288; 26412; 26465; 22238; 22797; 36807; 38271; 65292; 24050; 25130;
   26029; 20445; 23384; 65307; 23436; 25972; 36807; 31243; 35265; 24037; 20855; 35843;
   29992; 35760; 24405; 65289].

(** [s.count(sub)]: the occurrences that do not overlap, left to right; [skip]
    characters still belong to the last one. *)
Fixpoint count_from (sub : text) (skip : nat) (s : text) : nat :=
  match s with
  | [] => 0
  | _ :: s' =>
      match skip with
      | S k => count_from sub k s'
      | O => if bool_decide (sub `prefix_of` s)
             then S (count_from sub (length sub - 1) s')
             else count_from sub 0 s'
      end
  end.
Definition count_text (sub s : text) : nat := count_from sub 0 s.

(** [s[:n]] for [0 <= n] *)
Definition take_text (n : Z) (s : text) : text := take (Z.to_nat n) s.
Definition len (s : text) : Z := Z.of_nat (length s).

Definition clamp_message_content (content : text) : text :=
  if len content <=? _CONTENT_MAX then content
  else
    let keep := _CONTENT_MAX - len _TRUNC_NOTE in
    let kept := take_text keep content in
    let close := text_of "</think>" in
    let kept' :=
      if (count_text close kept <? count_text (text_of "<think>") kept)%nat
      then take_text (keep - len close) kept ++ close
      else kept in
    kept' ++ _TRUNC_NOTE.
End ChatService.

(** ** [core/chat/inflight.py] *)

Module Inflight.
Definition IN_FLIGHT_KEY : string := "in_flight".

Definition mark (run_id phase : string) (event_offset : option Z) : dict :=
  [("run_id", JStr run_id); ("phase", JStr phase)]
  ++ match event_offset with Some o => [("event_offset", JInt o)] | None => [] end.

Definition marker (extra_data : json) : option dict :=
  match extra_data with
  | JDict d =>
      match dict_get d IN_FLIGHT_KEY with
      | Some (JDict value) =>
          if match dict_get value "run_id" with
             | Some v => truthy v
             | None => false
             end
          then Some value else None
      | _ => None
      end
  | _ => None
  end.

Definition new_assistant_row (message_id chat_id : string) (chat_seq : Z) (run_id : string)
    (model : option string) (created_at : Z) : ChatMessage.t :=
  ChatMessage.mk message_id chat_id chat_seq "assistant" [] model
    [(IN_FLIGHT_KEY, JDict (mark run_id "accepted" None));
     ("message_id", JStr message_id); ("run_id", JStr run_id)]
    created_at.
End Inflight.

(** ** The sequencer *)

Module ChatSequencer.
Import ChatRun.

Definition MAIN_WRITER_SLOT : string := "main".

Record AcceptedChatRun := mkAcceptedChatRun {
  acc_run : ChatRun.t;
  acc_user_message : ChatMessage.t
}.

Definition in_chat (chat_id : string) (m : ChatMessage.t) : bool :=
  bool_decide (ChatMessage.chat_id m = chat_id).

(** [db.get(ChatMessage, message_id)] *)
Definition get_message (db : Db) (message_id : string) : option ChatMessage.t :=
  List.find (λ m, bool_decide (ChatMessage.message_id m = message_id)) (chat_messages db).

Definition _recount (now : Z) (db : Db) (chat_id : string) (touch_last_message : bool) : Db :=
  let remaining := Z.of_nat (length (List.filter (in_chat chat_id) (chat_messages db))) in
  match chat_sessions db !! chat_id with
  | None => db
  | Some s =>
      db <| chat_sessions :=
        <[chat_id := s <| ChatSession.message_count := remaining |>
                       <| ChatSession.updated_at := now |>
                       <| ChatSession.last_message_at :=
                            if touch_last_message then Some now
                            else ChatSession.last_message_at s |>]> (chat_sessions db) |>
  end.

(** [ORDER BY created_at DESC, run_id DESC] *)
Definition newest_first (a b : ChatRun.t) : bool :=
  (created_at b <? created_at a)
  || ((created_at a =? created_at b) && String.leb (run_id b) (run_id a)).

Definition is_main_writer (chat_id : string) (row : ChatRun.t) : bool :=
  bool_decide (ChatRun.chat_id row = chat_id) && sql_eq (writer_slot row) MAIN_WRITER_SLOT.

Definition active_run (db : Db) (chat_id : string) : option ActiveRunRef :=
  match order_by newest_first
          (List.filter (is_main_writer chat_id) (map_to_list (chat_runs db)).*2) with
  | [] => None
  | row :: _ =>
      Some (mkActiveRunRef (run_id row) (message_id row) (status_str (status row)))
  end.

(** A pending run of the sequencer; the columns it does not name take their
    defaults. *)
Definition pending_run (now : Z) (run_id chat_id user_id message_id user_message_id : string)
    (user_chat_seq assistant_chat_seq : Z) (request_payload : dict) : ChatRun.t :=
  ChatRun.mk run_id chat_id user_id message_id (Some user_message_id) (Some user_chat_seq)
    (Some assistant_chat_seq) (Some MAIN_WRITER_SLOT) Pending (Some request_payload) 0 None
    None "accepted" None None 0 0 None "replayable" None now now None None.

(** [query.filter(chat_id == c, chat_seq >= n).delete()] *)
Definition delete_tail (db : Db) (chat_id : string) (from : Z) : nat * Db :=
  let doomed m := in_chat chat_id m && (from <=? ChatMessage.chat_seq m) in
  (length (List.filter doomed (chat_messages db)),
   db <| chat_messages := List.filter (λ m, negb (doomed m)) (chat_messages db) |>).

(** The transaction of [accept_main_run]. *)
Definition accept_main_body (run_id user_message_id assistant_message_id chat_id user_id : string)
    (user_content : text) (request_payload : dict) (model : option string)
    (user_extra_data : dict) (now : Z) (db : Db) : tx Db exn AcceptedChatRun :=
  let? (first_seq, db1) := reserve_chat_sequences now db chat_id 2 (Some user_id) in
  let user_message :=
    ChatMessage.mk user_message_id chat_id first_seq "user"
      (ChatService.clamp_message_content user_content) model user_extra_data now in
  let run :=
    pending_run now run_id chat_id user_id assistant_message_id user_message_id
      first_seq (first_seq + 1) request_payload in
  let assistant_message :=
    Inflight.new_assistant_row assistant_message_id chat_id (first_seq + 1) run_id model now in
  let? db2 := insert_message db1 user_message in
  let? db3 := insert_message db2 assistant_message in
  let? db4 := insert_run db3 run in
  Commit (mkAcceptedChatRun run user_message) (_recount now db4 chat_id true).

(** Tail deletion of [accept_existing_user_run]. *)
Definition rewrite_tail (db : Db) (chat_id : string) (user_message : ChatMessage.t)
    (delete_from_message_id : option string) (delete_from_chat_seq : option Z)
    : result exn Db :=
  match delete_from_chat_seq with
  | None => Ok db
  | Some from =>
      let boundary :=
        match delete_from_message_id with
        | Some m => if bool_decide (m = "") then None else get_message db m
        | None => None
        end in
      match boundary with
      | None => Err (ValueError "rewrite boundary is no longer valid")
      | Some b =>
          if negb (in_chat chat_id b) || negb (ChatMessage.chat_seq b =? from)
          then Err (ValueError "rewrite boundary is no longer valid")
          else if from <=? ChatMessage.chat_seq user_message
          then Err (ValueError "rewrite boundary must follow the user anchor")
          else match delete_tail db chat_id from with
               | (O, _) => Err (ValueError "rewrite boundary no longer exists")
               | (_, db') => Ok db'
               end
      end
  end.

Definition accept_existing_body (run_id assistant_message_id chat_id user_id user_message_id : string)
    (request_payload : dict) (delete_from_message_id : option string)
    (delete_from_chat_seq : option Z) (now : Z) (db : Db) : tx Db exn AcceptedChatRun :=
  let? (assistant_seq, db1) := reserve_chat_sequences now db chat_id 1 (Some user_id) in
  need? user_message := get_message db1 user_message_id
    else (ValueError "existing user message is not a valid run anchor") in
  if negb (in_chat chat_id user_message)
     || negb (bool_decide (ChatMessage.role user_message = "user"))
  then Raise (ValueError "existing user message is not a valid run anchor") else
  let? db2 := rewrite_tail db1 chat_id user_message delete_from_message_id
                delete_from_chat_seq in
  let run :=
    pending_run now run_id chat_id user_id assistant_message_id
      (ChatMessage.message_id user_message) (ChatMessage.chat_seq user_message)
      assistant_seq request_payload in
  let? db3 := insert_message db2
    (Inflight.new_assistant_row assistant_message_id chat_id assistant_seq run_id
       (ChatMessage.model user_message) now) in
  let? db4 := insert_run db3 run in
  Commit (mkAcceptedChatRun run user_message) (_recount now db4 chat_id false).

Definition accept_replacement_body
    (run_id user_message_id assistant_message_id chat_id user_id target_user_message_id : string)
    (delete_from_chat_seq : Z) (user_content : text) (request_payload : dict)
    (model : option string) (user_extra_data : dict) (now : Z) (db : Db)
    : tx Db exn AcceptedChatRun :=
  let? (first_seq, db1) := reserve_chat_sequences now db chat_id 2 (Some user_id) in
  need? target := get_message db1 target_user_message_id
    else (ValueError "replacement target is no longer a valid user message") in
  if negb (in_chat chat_id target) || negb (bool_decide (ChatMessage.role target = "user"))
     || negb (ChatMessage.chat_seq target =? delete_from_chat_seq)
  then Raise (ValueError "replacement target is no longer a valid user message") else
  let db2 := (delete_tail db1 chat_id delete_from_chat_seq).2 in
  let user_message :=
    ChatMessage.mk user_message_id chat_id first_seq "user"
      (ChatService.clamp_message_content user_content) model user_extra_data now in
  let run :=
    pending_run now run_id chat_id user_id assistant_message_id user_message_id
      first_seq (first_seq + 1) request_payload in
  let assistant_message :=
    Inflight.new_assistant_row assistant_message_id chat_id (first_seq + 1) run_id model now in
  let? db3 := insert_message db2 user_message in
  let? db4 := insert_message db3 assistant_message in
  let? db5 := insert_run db4 run in
  Commit (mkAcceptedChatRun run user_message) (_recount now db5 chat_id true).

(** ** The methods as programs *)

Section programs.
Context {C V : Type}.

Definition get_active_run (chat_id : string) : prog C V (option ActiveRunRef) :=
  atomically (λ _ db, Rollback (active_run db chat_id)).

(** [except IntegrityError]: name the winner; everything else is re-raised. *)
Definition admitting {A} (chat_id : string) (p : prog C V A) : prog C V A :=
  try p except (λ e,
    match e with
    | IntegrityError =>
        let! winner := get_active_run chat_id in
        match winner with
        | Some active => Throw (ChatBusyError active)
        | None => Throw e
        end
    | _ => Throw e
    end).

Definition run_name (u : string) : string := "run_" +:+ take_str 16 u.
Definition message_name (u : string) : string := "msg_" +:+ take_str 16 u.

Definition accept_main_run (chat_id user_id : string) (user_content : text)
    (request_payload : dict) (model : option string) (user_extra_data : dict)
    : prog C V AcceptedChatRun :=
  let! r := uuid in
  let! um := uuid in
  let! am := uuid in
  admitting chat_id
    (atomically (accept_main_body (run_name r) (message_name um) (message_name am) chat_id
       user_id user_content request_payload model user_extra_data)).

Definition accept_existing_user_run (chat_id user_id user_message_id : string)
    (request_payload : dict) (delete_from_message_id : option string)
    (delete_from_chat_seq : option Z) : prog C V AcceptedChatRun :=
  let! r := uuid in
  let! am := uuid in
  admitting chat_id
    (atomically (accept_existing_body (run_name r) (message_name am) chat_id user_id
       user_message_id request_payload delete_from_message_id delete_from_chat_seq)).

Definition accept_replacement_user_run (chat_id user_id target_user_message_id : string)
    (delete_from_chat_seq : Z) (user_content : text) (request_payload : dict)
    (model : option string) (user_extra_data : dict) : prog C V AcceptedChatRun :=
  let! r := uuid in
  let! um := uuid in
  let! am := uuid in
  admitting chat_id
    (atomically (accept_replacement_body (run_name r) (message_name um) (message_name am)
       chat_id user_id target_user_message_id delete_from_chat_seq user_content
       request_payload model user_extra_data)).
End programs.

(** ** Compare-and-set transitions *)

(** [query.filter(run_id == r, p).update(f)] with its affected count. *)
Definition cas_run (p : ChatRun.t → bool) (f : ChatRun.t → ChatRun.t) (run_id : string)
    (db : Db) : tx Db exn bool :=
  match chat_runs db !! run_id with
  | Some row => if p row then Commit true (put_run db (f row)) else Commit false db
  | None => Commit false db
  end.

Definition is_pending (row : ChatRun.t) : bool := bool_decide (status row = Pending).
Definition is_live_run (row : ChatRun.t) : bool := is_live (status row).

Definition mark_running (run_id : string) (now : Z) : Db → tx Db exn bool :=
  cas_run is_pending
    (λ row, row <| status := Running |> <| started_at := Some now |> <| updated_at := now |>)
    run_id.

Definition release_writer (run_id : string) (terminal_status : RunStatus) (now : Z) (db : Db)
    : tx Db exn bool :=
  if negb (is_terminal terminal_status) then Raise (ValueError "not a terminal status")
  else
    cas_run is_live_run
      (λ row, row <| status := terminal_status |> <| writer_slot := None |>
                  <| completed_at := Some now |> <| updated_at := now |>)
      run_id db.

Definition failed_with (reason default_reason : string) (now : Z) (row : ChatRun.t) : ChatRun.t :=
  row <| status := Failed |> <| writer_slot := None |>
      <| error_message := Some (take_str 1000 (str_or reason default_reason)) |>
      <| completed_at := Some now |> <| updated_at := now |>.

Definition abandon_pending_run (run_id reason : string) (now : Z) : Db → tx Db exn bool :=
  cas_run is_pending (failed_with reason "run launch failed" now) run_id.

Definition fail_run (run_id reason : string) (now : Z) : Db → tx Db exn bool :=
  cas_run is_live_run (failed_with reason "run failed" now) run_id.
End ChatSequencer.

(** ** [orchestration/chat_run_executor.py]: starting, stopping, acknowledging *)

Module ChatRunExecutor.
Import ChatRun ChatSequencer.

(** The durable part of [start_run] for an accepted run. *)
Definition store_launch_snapshot (run_id : string) (snapshot : dict) (now : Z) (db : Db)
    : tx Db exn unit :=
  need? row := chat_runs db !! run_id else (ValueError "accepted_run is no longer pending") in
  if negb (is_pending row) then Raise (ValueError "accepted_run is no longer pending") else
  Commit tt (put_run db
    (row <| recovery_snapshot := Some snapshot |>
         <| snapshot_version := Z.max (snapshot_version row) 1 |>
         <| run_phase := str_or (run_phase row) "accepted" |>
         <| last_operation_safety := str_or (last_operation_safety row) "replayable" |>
         <| updated_at := now |>)).

Definition _claim_run_execution (run_id : string) (now : Z) (db : Db)
    : tx Db exn (option Z) :=
  match cas_run is_pending
          (λ row, row <| status := Running |> <| started_at := Some now |>
                      <| updated_at := now |>) run_id db with
  | Commit won db' => Commit (if won then Some now else None) db'
  | Rollback won => Rollback (if won then Some now else None)
  | Raise e => Raise e
  end.

(** [or_(lease_owner IS NULL, lease_expires_at IS NULL, lease_expires_at <= now)] *)
Definition stoppable (require_expired_lease : bool) (now : Z) (row : ChatRun.t) : bool :=
  is_live_run row && (negb require_expired_lease || RunJournal.lease_free now row).

Definition _request_run_stop (run_id : string) (status' : RunStatus)
    (error_message' : option string) (require_expired_lease : bool) (now : Z) (db : Db)
    : tx Db exn bool :=
  if negb (is_terminal status') then Raise (ValueError "not a terminal status") else
  let noted row :=
    match error_message' with
    | Some m =>
        if bool_decide (m = "") then row
        else row <| error_message := Some (take_str 1000 m) |>
                 <| failure_reason := Some (take_str 1000 m) |>
    | None => row
    end in
  cas_run (stoppable require_expired_lease now)
    (λ row, noted row <| status := status' |> <| completed_at := Some now |>
                      <| updated_at := now |>) run_id db.

Definition _request_run_cancel (run_id : string) : Z → Db → tx Db exn bool :=
  _request_run_stop run_id Cancelled None false.

Definition fenced (row : ChatRun.t) : bool :=
  is_terminal (status row) && negb (is_null (writer_slot row)).

Definition drop_slot (now : Z) (row : ChatRun.t) : ChatRun.t :=
  row <| writer_slot := None |> <| updated_at := now |>.

Definition _acknowledge_terminal_writer (run_id : string) (now : Z) : Db → tx Db exn bool :=
  cas_run fenced (drop_slot now) run_id.

Definition _acknowledge_never_started_terminal_writer (run_id : string) (now : Z)
    : Db → tx Db exn bool :=
  cas_run (λ row, fenced row && is_null (started_at row)) (drop_slot now) run_id.
End ChatRunExecutor.
