(* ===== verification/ChatSequencerProps.v ===== *)
(** * Invariants of the chat tables under admission and termination

    [cwf] is the invariant of runs and messages, [chat_step] what every
    transaction of the sequencer, of the executor's fences and of the run
    journal guarantees about them. *)

From S2P Require Import Prelude Db RunJournal RunJournalProps PyString Program ChatSequencer.
Import ChatRun ChatSequencer ChatRunExecutor.

(** ** Messages *)

Definition next_seq (s : ChatSession.t) : Z := default 1 (ChatSession.next_message_seq s).

Record messages_wf (db : Db) : Prop := {
  mw_ids : NoDup (ChatMessage.message_id <$> chat_messages db);
  mw_seqs m1 m2 : m1 ∈ chat_messages db → m2 ∈ chat_messages db →
    ChatMessage.chat_id m1 = ChatMessage.chat_id m2 →
    ChatMessage.chat_seq m1 = ChatMessage.chat_seq m2 → m1 = m2;
  mw_alloc m : m ∈ chat_messages db →
    ∃ s, chat_sessions db !! ChatMessage.chat_id m = Some s ∧
         ChatMessage.chat_seq m < next_seq s
}.

Record cwf (db : Db) : Prop := {
  cwf_runs : wf db;
  cwf_messages : messages_wf db
}.

(** Allocators only advance, and a message that was not there before carries a
    number its chat had not handed out yet. *)
Record messages_grow (db db' : Db) : Prop := {
  mg_sessions c s : chat_sessions db !! c = Some s →
    ∃ s', chat_sessions db' !! c = Some s' ∧
          ChatSession.user_id s' = ChatSession.user_id s ∧ next_seq s ≤ next_seq s';
  mg_messages m : m ∈ chat_messages db' →
    m ∈ chat_messages db ∨
    ∀ s, chat_sessions db !! ChatMessage.chat_id m = Some s → next_seq s ≤ ChatMessage.chat_seq m
}.

Lemma messages_grow_same db db' :
  chat_sessions db' = chat_sessions db → chat_messages db' = chat_messages db →
  messages_grow db db'.
Proof.
  intros Es Em. split; rewrite ?Es, ?Em; [|by left]. intros c s H. by exists s.
Qed.

#[export] Instance messages_grow_preorder : PreOrder messages_grow.
Proof.
  split; [intros db; by apply messages_grow_same|].
  intros a b d [S1 M1] [S2 M2]. split.
  - intros c s H. destruct (S1 c s H) as (s1 & H1 & U1 & N1).
    destruct (S2 c s1 H1) as (s2 & H2 & U2 & N2). exists s2.
    split_and!; [done|congruence|lia].
  - intros m Hm. destruct (M2 m Hm) as [Hm1|Hm1]; [by apply M1|]. right. intros s H.
    destruct (S1 _ s H) as (s1 & H1 & _ & N1). specialize (Hm1 s1 H1). lia.
Qed.

(** What every transaction guarantees about messages, and about both tables. *)
Definition message_step (db db' : Db) : Prop :=
  messages_wf db → messages_wf db' ∧ messages_grow db db'.

#[export] Instance message_step_preorder : PreOrder message_step.
Proof.
  split; [by intros db H|]. intros a b d H1 H2 Ha.
  destruct (H1 Ha) as [Hb G1]. destruct (H2 Hb) as [Hd G2]. split; [done|by etrans].
Qed.

Lemma message_step_same db db' :
  chat_sessions db' = chat_sessions db → chat_messages db' = chat_messages db →
  message_step db db'.
Proof.
  intros Es Em [M1 M2 M3]. split; [|by apply messages_grow_same].
  by split; rewrite ?Es, ?Em.
Qed.

#[export] Instance message_step_frame : JournalFrame message_step.
Proof.
  split; [apply _|intros db row; by apply message_step_same|
          intros db op; by apply message_step_same].
Qed.

Record chat_grows (db db' : Db) : Prop := {
  cg_runs : runs_evolve not_live db db';
  cg_messages : messages_grow db db'
}.

#[export] Instance chat_grows_preorder : PreOrder chat_grows.
Proof.
  split; [by intros db|]. intros a b d [] []. split; by etrans.
Qed.

Definition chat_step (db db' : Db) : Prop := cwf db → cwf db' ∧ chat_grows db db'.

#[export] Instance chat_step_preorder : PreOrder chat_step.
Proof.
  split; [by intros db H|]. intros a b d H1 H2 Ha.
  destruct (H1 Ha) as [Hb G1]. destruct (H2 Hb) as [Hd G2]. split; [done|by etrans].
Qed.

Lemma chat_step_intro db db' : journal_safe db db' → message_step db db' → chat_step db db'.
Proof.
  intros Hj Hm [Hr Hmsg]. destruct (Hj Hr) as [Hr' Hev]. destruct (Hm Hmsg) as [Hm' Hg].
  by split; split.
Qed.

Lemma put_run_chat_step db row row' :
  chat_runs db !! run_id row' = Some row → run_evolves not_live row row' →
  operation_seq row' = operation_seq row → chat_step db (put_run db row').
Proof.
  intros H Hev Hs. apply chat_step_intro; [|by apply message_step_same].
  intros Hwf. by eapply put_run_safe.
Qed.

(** ** Reserving numbers and filling them *)

(** [db1] follows [db] inside a transaction that reserved [lo..hi-1] of [c]. *)
Record reserved (db : Db) (c : string) (lo hi : Z) (db1 : Db) : Prop := {
  rs_wf : cwf db1;
  rs_grows : chat_grows db db1;
  rs_first : ∃ s, chat_sessions db !! c = Some s ∧ next_seq s ≤ lo;
  rs_next : ∃ s, chat_sessions db1 !! c = Some s ∧ next_seq s = hi
}.

Definition in_range (lo hi : Z) (m : ChatMessage.t) : Prop :=
  lo ≤ ChatMessage.chat_seq m < hi.

Lemma max_next_seq_above db c m :
  m ∈ chat_messages db → ChatMessage.chat_id m = c →
  ChatMessage.chat_seq m < max_next_seq db c.
Proof.
  intros Hm Hc. unfold max_next_seq.
  destruct (max_opt_ge (ChatMessage.chat_seq <$>
    List.filter (λ m, bool_decide (ChatMessage.chat_id m = c)) (chat_messages db))
    (ChatMessage.chat_seq m)) as (x & -> & Hle); [|simpl; lia].
  apply list_elem_of_fmap_2, list_elem_of_In, filter_In.
  split; [by apply list_elem_of_In|by apply bool_decide_eq_true].
Qed.

(** The session of [c] with the allocator moved to [first + n]. *)
Definition advanced (now : Z) (db : Db) (c : string) (s : ChatSession.t) (next : Z) : Db :=
  db <| chat_sessions := <[c := s <| ChatSession.next_message_seq := Some next |>
                                  <| ChatSession.updated_at := now |>]> (chat_sessions db) |>.

(** Where the allocator starts: past every stored message and every number
    already handed out. *)
Definition first_free (db : Db) (c : string) (s : ChatSession.t) : Z :=
  Z.max (next_seq s) (max_next_seq db c).

Lemma reserve_eq now db c n u s :
  1 ≤ n → chat_sessions db !! c = Some s → ChatSession.user_id s = u →
  reserve_chat_sequences now db c n (Some u) =
  Ok (first_free db c s, advanced now db c s (first_free db c s + n)).
Proof.
  intros Hn Hs Hu. unfold reserve_chat_sequences.
  destruct (Z.ltb_spec n 1); [lia|]. rewrite Hs, bool_decide_true by done.
  fold (next_seq s).
  assert ((if max_next_seq db c <=? next_seq s then next_seq s else max_next_seq db c) =
          first_free db c s) as ->; [|done].
  unfold first_free. destruct (Z.leb_spec (max_next_seq db c) (next_seq s)); lia.
Qed.

Lemma reserve_spec now db c n u first db1 :
  reserve_chat_sequences now db c n (Some u) = Ok (first, db1) →
  ∃ s, 1 ≤ n ∧ chat_sessions db !! c = Some s ∧ ChatSession.user_id s = u ∧
       first = first_free db c s ∧ db1 = advanced now db c s (first + n).
Proof.
  intros H. pose proof H as H0. unfold reserve_chat_sequences in H0.
  destruct (Z.ltb_spec n 1); [done|]. destruct (chat_sessions db !! c) as [s|] eqn:Hs; [|done].
  case_bool_decide as Hu; [|done]. clear H0.
  rewrite (reserve_eq now db c n u s) in H by done. simplify_eq. by exists s.
Qed.

Lemma reserve_reserved now db c n u first db1 :
  cwf db → reserve_chat_sequences now db c n (Some u) = Ok (first, db1) →
  reserved db c first (first + n) db1 ∧ chat_messages db1 = chat_messages db ∧
  chat_runs db1 = chat_runs db.
Proof.
  intros [Hr [M1 M2 M3]] (s & Hn & Hs & Hu & Hf & ->)%reserve_spec.
  assert (next_seq s ≤ first) as Hle by (subst; unfold first_free; lia).
  split; [|done]. split.
  - split; [by apply (wf_same_runs db)|]. split; [done|done|].
    intros m Hm. destruct (M3 m Hm) as (s0 & Hs0 & Hlt). simpl.
    destruct (decide (c = ChatMessage.chat_id m)) as [Ec|Hne].
    + rewrite <- Ec in *. rewrite lookup_insert_eq. eexists. split; [done|]. simplify_eq. unfold next_seq in *. simpl in *. lia.
    + rewrite lookup_insert_ne by done. eauto.
  - split; [by intros r row Hrow; exists row|]. split; [|by left]. intros c0 s0 H0. simpl.
    destruct (decide (c = c0)) as [<-|Hne].
    + rewrite lookup_insert_eq. eexists. split; [done|]. simplify_eq.
      split; [done|]. unfold next_seq in *. simpl in *. lia.
    + rewrite lookup_insert_ne by done. by exists s0.
  - eauto.
  - simpl. rewrite lookup_insert_eq. eauto.
Qed.

Lemma insert_message_spec db m db' :
  insert_message db m = Ok db' →
  db' = db <| chat_messages := chat_messages db ++ [m] |> ∧
  message_allowed m = true ∧
  ∀ x, x ∈ chat_messages db → message_conflict m x = false.
Proof.
  unfold insert_message. destruct (message_allowed m); [|done]. simpl.
  destruct (existsb _ _) eqn:E; intros [= <-]. split_and!; [done|done|].
  intros x Hx. destruct (message_conflict m x) eqn:Ec; [|done].
  rewrite <- not_true_iff_false, existsb_exists in E. destruct E. exists x.
  split; [by apply list_elem_of_In|done].
Qed.

Lemma insert_message_reserved db c lo hi db1 m db2 :
  reserved db c lo hi db1 → ChatMessage.chat_id m = c → in_range lo hi m →
  insert_message db1 m = Ok db2 → reserved db c lo hi db2.
Proof.
  intros [[Hr [M1 M2 M3]] [G1 [G2 G3]] (s & Hs & Hle) (s1 & Hs1 & Hhi)] Hc [Hlo Hlt]
    (-> & _ & Hfree)%insert_message_spec.
  assert (∀ x, x ∈ chat_messages db1 → ChatMessage.message_id x ≠ ChatMessage.message_id m ∧
    (ChatMessage.chat_id x = c → ChatMessage.chat_seq x ≠ ChatMessage.chat_seq m)) as Hf.
  { intros x Hx. specialize (Hfree x Hx). unfold message_conflict in Hfree. bool_simpl.
    rewrite andb_false_iff in *. split; [congruence|]. intros Hcx Hsx.
    destruct H0 as [?|?]; bool_simpl; congruence. }
  split; [split; [by apply (wf_same_runs db1)|split]| |eauto|eauto]; simpl.
  - rewrite fmap_app. apply NoDup_app. split_and!; [done| |apply NoDup_singleton].
    intros i (x & -> & Hx)%list_elem_of_fmap Hi. apply list_elem_of_singleton in Hi.
    by destruct (Hf x Hx).
  - intros m1 m2 [H1|H1%list_elem_of_singleton]%elem_of_app
      [H2|H2%list_elem_of_singleton]%elem_of_app Ec Es; subst; [by apply M2|..|done].
    + destruct (Hf m1 H1) as [_ Hn]. by destruct Hn.
    + destruct (Hf m2 H2) as [_ Hn]. by destruct Hn.
  - intros x [Hx| ->%list_elem_of_singleton]%elem_of_app; [by apply M3|].
    rewrite Hc. exists s1. split; [done|lia].
  - split; [done|]. split; [done|]. intros x [Hx| ->%list_elem_of_singleton]%elem_of_app; [by apply G3|].
    right. intros s0 Hs0. rewrite Hc in Hs0. simplify_eq. lia.
Qed.

Lemma delete_tail_reserved db c lo hi db1 from :
  reserved db c lo hi db1 → reserved db c lo hi (delete_tail db1 c from).2.
Proof.
  intros [[Hr [M1 M2 M3]] [G1 [G2 G3]] ? ?]. unfold delete_tail. simpl.
  set (p := λ m, negb (in_chat c m && (from <=? ChatMessage.chat_seq m))).
  assert (∀ m, m ∈ List.filter p (chat_messages db1) → m ∈ chat_messages db1) as Hin.
  { intros m [Hm _]%list_elem_of_In%filter_In. by apply list_elem_of_In. }
  split; [split; [by apply (wf_same_runs db1)|split; simpl; eauto]|split; [done|split; simpl; eauto]|done|done].
  clear -M1. induction (chat_messages db1) as [|m l IH]; simpl; [done|].
  apply NoDup_cons in M1 as [Hn Hl]. destruct (p m); simpl; [|auto].
  apply NoDup_cons. split; [|auto].
  intros (x & Ex & Hx%list_elem_of_In%filter_In)%list_elem_of_fmap. apply Hn.
  rewrite Ex. apply list_elem_of_fmap_2, list_elem_of_In, Hx.
Qed.

Lemma insert_run_reserved db c lo hi db1 row db2 :
  reserved db c lo hi db1 → operation_seq row = 0 → insert_run db1 row = Ok db2 →
  reserved db c lo hi db2.
Proof.
  intros [Hw Hg Hf Hn] H0 Hins.
  assert (chat_sessions db2 = chat_sessions db1 ∧ chat_messages db2 = chat_messages db1) as [Es Em].
  { unfold insert_run in Hins. by split_matches Hins. }
  destruct (chat_step_intro db1 db2) as [Hw' Hg'];
    [by eapply insert_run_safe|by apply message_step_same|done|].
  split; [done|by etrans|done|]. by rewrite Es.
Qed.

Lemma recount_reserved db c lo hi db1 now touch :
  reserved db c lo hi db1 → reserved db c lo hi (_recount now db1 c touch).
Proof.
  intros [[Hr [M1 M2 M3]] [G1 [G2 G3]] Hf (s & Hs & Hn)]. unfold _recount. rewrite Hs.
  set (s' := s <| ChatSession.message_count := _ |> <| ChatSession.updated_at := _ |>
               <| ChatSession.last_message_at := _ |>).
  assert (next_seq s' = next_seq s) as Hsame by done.
  assert (ChatSession.user_id s' = ChatSession.user_id s) as Hu by done. clearbody s'.
  assert (∀ c0 s0, chat_sessions db1 !! c0 = Some s0 → ∃ s1,
    <[c := s']> (chat_sessions db1) !! c0 = Some s1 ∧
    ChatSession.user_id s1 = ChatSession.user_id s0 ∧ next_seq s1 = next_seq s0) as Hl.
  { intros c0 s0 H. destruct (decide (c = c0)) as [<-|Hne].
    - rewrite lookup_insert_eq. exists s'. simplify_eq. done.
    - rewrite lookup_insert_ne by done. by exists s0. }
  split; [split; [by apply (wf_same_runs db1)|split]|split; [|split]|done|]; simpl; [done|done| |done| |done|].
  - intros m Hm. destruct (M3 m Hm) as (s0 & H0 & Hlt). destruct (Hl _ _ H0) as (s1 & H1 & _ & E).
    exists s1. split; [done|lia].
  - intros c0 s0 H. destruct (G2 c0 s0 H) as (s1 & H1 & U1 & N1).
    destruct (Hl _ _ H1) as (s2 & H2 & U2 & N2). exists s2. split_and!; [done|congruence|lia].
  - rewrite lookup_insert_eq. exists s'. split; [done|lia].
Qed.

Lemma reserved_step db c lo hi db1 : reserved db c lo hi db1 → cwf db1 ∧ chat_grows db db1.
Proof. by intros []. Qed.

(** ** The transactions *)

#[export] Hint Resolve insert_message_reserved delete_tail_reserved insert_run_reserved
  recount_reserved : durable.

(** [fill R E]: the insert [E] uses one of the numbers [R] reserved. *)
Ltac fill R E :=
  let R' := fresh in
  match type of R with
  | reserved ?db ?c ?lo ?hi _ =>
    match type of E with
    | insert_message _ _ = Ok ?d =>
        assert (reserved db c lo hi d) as R' by
          (eapply insert_message_reserved; [exact R| | |exact E];
           [reflexivity|unfold in_range; simpl; lia]);
        clear R; rename R' into R
    end
  end.

Lemma accept_main_step r um am c u ct rp md ex :
  body_in chat_step (accept_main_body r um am c u ct rp md ex).
Proof.
  intros now db b db' H Hw. unfold accept_main_body in H.
  destruct (reserve_chat_sequences _ _ _ _ _) as [[first db1]|] eqn:Er; [|done].
  destruct (reserve_reserved _ _ _ _ _ _ _ Hw Er) as [Hres _].
  destruct (insert_message db1 _) as [db2|] eqn:E2; [|done].
  destruct (insert_message db2 _) as [db3|] eqn:E3; [|done].
  destruct (insert_run db3 _) as [db4|] eqn:E4; [|done]. simplify_eq.
  fill Hres E2. fill Hres E3.
  eapply reserved_step, recount_reserved, insert_run_reserved; [exact Hres| |exact E4]; done.
Qed.

Lemma rewrite_tail_spec db c um dm df db' :
  rewrite_tail db c um dm df = Ok db' →
  db' = match df with Some from => (delete_tail db c from).2 | None => db end.
Proof.
  unfold rewrite_tail. intros H. destruct df as [from|]; [|by simplify_eq].
  destruct (delete_tail db c from) as [n d]. split_matches H; done.
Qed.

Lemma accept_existing_step r am c u um rp dm df :
  body_in chat_step (accept_existing_body r am c u um rp dm df).
Proof.
  intros now db b db' H Hw. unfold accept_existing_body in H.
  destruct (reserve_chat_sequences _ _ _ _ _) as [[first db1]|] eqn:Er; [|done].
  destruct (reserve_reserved _ _ _ _ _ _ _ Hw Er) as [Hres _].
  destruct (get_message db1 um) as [m|]; [|done]. destruct (_ || _); [done|].
  destruct (rewrite_tail _ _ _ _ _) as [db2|] eqn:Et; [|done].
  destruct (insert_message db2 _) as [db3|] eqn:E3; [|done].
  destruct (insert_run db3 _) as [db4|] eqn:E4; [|done]. simplify_eq.
  assert (reserved db c first (first + 1) db2) as Hres2.
  { apply rewrite_tail_spec in Et as ->. destruct df; auto with durable. }
  fill Hres2 E3.
  eapply reserved_step, recount_reserved, insert_run_reserved; [exact Hres2| |exact E4]; done.
Qed.

Lemma accept_replacement_step r um am c u tm df ct rp md ex :
  body_in chat_step (accept_replacement_body r um am c u tm df ct rp md ex).
Proof.
  intros now db b db' H Hw. unfold accept_replacement_body in H.
  destruct (reserve_chat_sequences _ _ _ _ _) as [[first db1]|] eqn:Er; [|done].
  destruct (reserve_reserved _ _ _ _ _ _ _ Hw Er) as [Hres _].
  destruct (get_message db1 tm) as [m|]; [|done]. destruct (_ || _); [done|].
  destruct (insert_message (delete_tail _ _ _).2 _) as [db2|] eqn:E2; [|done].
  destruct (insert_message db2 _) as [db3|] eqn:E3; [|done].
  destruct (insert_run db3 _) as [db4|] eqn:E4; [|done]. simplify_eq.
  apply (delete_tail_reserved _ _ _ _ _ df) in Hres. fill Hres E2. fill Hres E3.
  eapply reserved_step, recount_reserved, insert_run_reserved; [exact Hres| |exact E4]; done.
Qed.

(** A compare-and-set whose update is a legal evolution of the rows it picks. *)
Lemma cas_run_step (p : ChatRun.t → bool) (f : ChatRun.t → ChatRun.t) r db b db' :
  (∀ row, p row = true → run_evolves not_live row (f row) ∧
                         operation_seq (f row) = operation_seq row) →
  cas_run p f r db = Commit b db' → chat_step db db'.
Proof.
  intros Hf H Hw. unfold cas_run in H. destruct (chat_runs db !! r) as [row|] eqn:Hr;
    [|by simplify_eq].
  destruct (p row) eqn:Hp; simplify_eq; [|done]. destruct (Hf row Hp) as [Hev Hseq].
  apply (put_run_chat_step db row); [|done|done|done].
  rewrite (ev_run_id _ _ _ Hev). pose proof (wf_keyed db (cwf_runs db Hw) _ _ Hr). by subst.
Qed.

(** Discharges [run_evolves] for an update of columns: identity and counters
    are untouched, and the guard says the row was live. *)
Ltac solve_evolves :=
  intros row Hp; split; [|repeat case_match; reflexivity];
  split; simpl;
    lazymatch goal with
    | |- not_live _ = true → _ =>
        unfold not_live, stoppable, is_pending, is_live_run, fenced in *; intros Hs;
        bool_simpl; destruct (status row); simpl in *; repeat case_match; simplify_eq; done
    | |- _ => repeat case_match; simpl; solve [reflexivity | lia | auto]
    end.

Lemma mark_running_step r : body_in chat_step (mark_running r).
Proof. intros now db b db' H. eapply cas_run_step; [|exact H]. solve_evolves. Qed.
Lemma release_writer_step r st : body_in chat_step (release_writer r st).
Proof.
  intros now db b db' H. unfold release_writer in H. destruct (negb _); [done|].
  eapply cas_run_step; [|exact H]. solve_evolves.
Qed.
Lemma abandon_step r reason : body_in chat_step (abandon_pending_run r reason).
Proof. intros now db b db' H. eapply cas_run_step; [|exact H]. solve_evolves. Qed.
Lemma fail_run_step r reason : body_in chat_step (fail_run r reason).
Proof. intros now db b db' H. eapply cas_run_step; [|exact H]. solve_evolves. Qed.
Lemma request_stop_step r st msg ex : body_in chat_step (_request_run_stop r st msg ex).
Proof.
  intros now db b db' H. unfold _request_run_stop in H. destruct (negb _); [done|].
  eapply cas_run_step; [|exact H]. solve_evolves.
Qed.
Lemma acknowledge_step r : body_in chat_step (_acknowledge_terminal_writer r).
Proof. intros now db b db' H. eapply cas_run_step; [|exact H]. solve_evolves. Qed.
Lemma acknowledge_never_started_step r :
  body_in chat_step (_acknowledge_never_started_terminal_writer r).
Proof. intros now db b db' H. eapply cas_run_step; [|exact H]. solve_evolves. Qed.

Lemma claim_execution_step r : body_in chat_step (_claim_run_execution r).
Proof.
  intros now db b db' H. unfold _claim_run_execution in H.
  destruct (cas_run _ _ _ _) as [b' d| |] eqn:E; simplify_eq.
  eapply cas_run_step; [|exact E]. solve_evolves.
Qed.

Lemma launch_step r snap : body_in chat_step (store_launch_snapshot r snap).
Proof.
  intros now db b db' H Hw. unfold store_launch_snapshot in H.
  destruct (chat_runs db !! r) as [row|] eqn:Hr; [|done].
  destruct (negb _) eqn:Hp; [done|]. simplify_eq.
  pose proof (wf_keyed db (cwf_runs db Hw) _ _ Hr) as Hk.
  apply (put_run_chat_step db row); [by simpl; rewrite Hk| |done|done].
  split; simpl; try done; [lia|by left].
Qed.

Lemma journal_step c : call_ok c → effect_in message_step c → body_in chat_step (journal_body c).
Proof.
  intros Hok He now db b db' H. unfold journal_body in H. simplify_eq.
  apply chat_step_intro; [by apply exec_call_safe|by apply exec_call_frame; [apply _|]].
Qed.

(** ** The writer fence of a settled run *)

Definition fence_kept (r : string) (db db' : Db) : Prop :=
  cwf db → cwf db' ∧
  ∀ row, chat_runs db !! r = Some row → is_live (status row) = false →
    ∃ row', chat_runs db' !! r = Some row' ∧ status row' = status row ∧
            writer_slot row' = writer_slot row ∧ chat_id row' = chat_id row ∧
            message_id row' = message_id row.

#[export] Instance fence_kept_preorder r : PreOrder (fence_kept r).
Proof.
  split; [intros db Hw; split; [done|]; eauto 10|].
  intros a b d H1 H2 Ha. destruct (H1 Ha) as [Hb K1]. destruct (H2 Hb) as [Hd K2].
  split; [done|]. intros row Hr Hl. destruct (K1 row Hr Hl) as (row1 & Hr1 & E1 & E2 & E3 & E4).
  destruct (K2 row1 Hr1) as (row2 & Hr2 & F1 & F2 & F3 & F4); [by rewrite E1|].
  exists row2. split_and!; [done|congruence..].
Qed.

(** A step that leaves settled rows as they are, or at least their slot. *)
Lemma fence_kept_rows r db db' :
  chat_step db db' →
  (cwf db → ∀ row, chat_runs db !! r = Some row → is_live (status row) = false →
     ∃ row', chat_runs db' !! r = Some row' ∧ writer_slot row' = writer_slot row) →
  fence_kept r db db'.
Proof.
  intros Hs Hk Hw. destruct (Hs Hw) as [Hw' [Hev _]]. split; [done|]. intros row Hr Hl.
  destruct (Hk Hw row Hr Hl) as (row' & Hr' & Hsl).
  destruct (Hev r row Hr) as (row1 & Hr1 & []). simplify_eq.
  exists row'. split_and!; [done| |done|done|done]. apply ev_settled. unfold not_live. by rewrite Hl.
Qed.

Lemma cas_run_fence p f r r0 db b db' :
  (∀ row, p row = true → run_evolves not_live row (f row) ∧
                         operation_seq (f row) = operation_seq row) →
  (r0 ≠ r ∨ ∀ row, p row = true → is_live (status row) = true) →
  cas_run p f r0 db = Commit b db' → fence_kept r db db'.
Proof.
  intros Hf Hp H. apply fence_kept_rows; [by eapply cas_run_step|].
  intros Hw row Hr Hl. unfold cas_run in H.
  destruct (chat_runs db !! r0) as [row0|] eqn:Hr0; [|simplify_eq; eauto].
  destruct (p row0) eqn:Hp0; simplify_eq; [|eauto].
  assert (r0 ≠ r) as Hne.
  { destruct Hp as [Hne|Hp]; [done|]. intros ->. simplify_eq. rewrite (Hp _ Hp0) in Hl. done. }
  simpl. rewrite (ev_run_id _ _ _ (proj1 (Hf _ Hp0))).
  rewrite (wf_keyed db (cwf_runs db Hw) _ _ Hr0), lookup_insert_ne by done. eauto.
Qed.

Lemma insert_run_keeps db row db' r row0 :
  insert_run db row = Ok db' → chat_runs db !! r = Some row0 → chat_runs db' !! r = Some row0.
Proof.
  unfold insert_run. intros H Hr. destruct (negb (slot_allowed _)); [done|].
  destruct (chat_runs db !! run_id row) eqn:E; [done|]. simpl in H.
  destruct (existsb _ _); simplify_eq. simpl. rewrite lookup_insert_ne; [done|]. congruence.
Qed.

Lemma recount_runs now db c t : chat_runs (_recount now db c t) = chat_runs db.
Proof. unfold _recount. by destruct (chat_sessions db !! c). Qed.

Lemma insert_message_runs db m db' : insert_message db m = Ok db' → chat_runs db' = chat_runs db.
Proof. by intros [-> _]%insert_message_spec. Qed.

(** Admissions keep every existing run row. *)
Definition keeps_rows (db db' : Db) : Prop :=
  ∀ r row, chat_runs db !! r = Some row → chat_runs db' !! r = Some row.

Lemma accept_main_keeps r um am c u ct rp md ex :
  body_in keeps_rows (accept_main_body r um am c u ct rp md ex).
Proof.
  intros now db b db' H r0 row Hr. unfold accept_main_body in H.
  destruct (reserve_chat_sequences _ _ _ _ _) as [[first db1]|] eqn:Er; [|done].
  apply reserve_spec in Er as (s & _ & _ & _ & _ & ->).
  destruct (insert_message _ _) as [db2|] eqn:E2; [|done].
  destruct (insert_message db2 _) as [db3|] eqn:E3; [|done].
  destruct (insert_run db3 _) as [db4|] eqn:E4; [|done]. simplify_eq.
  rewrite recount_runs. eapply insert_run_keeps; [exact E4|].
  by rewrite (insert_message_runs _ _ _ E3), (insert_message_runs _ _ _ E2).
Qed.

Lemma accept_existing_keeps r am c u um rp dm df :
  body_in keeps_rows (accept_existing_body r am c u um rp dm df).
Proof.
  intros now db b db' H r0 row Hr. unfold accept_existing_body in H.
  destruct (reserve_chat_sequences _ _ _ _ _) as [[first db1]|] eqn:Er; [|done].
  apply reserve_spec in Er as (s & _ & _ & _ & _ & ->).
  destruct (get_message _ um) as [m|]; [|done]. destruct (_ || _); [done|].
  destruct (rewrite_tail _ _ _ _ _) as [db2|] eqn:Et; [|done].
  destruct (insert_message db2 _) as [db3|] eqn:E3; [|done].
  destruct (insert_run db3 _) as [db4|] eqn:E4; [|done]. simplify_eq.
  rewrite recount_runs. eapply insert_run_keeps; [exact E4|].
  rewrite (insert_message_runs _ _ _ E3). apply rewrite_tail_spec in Et as ->. by destruct df.
Qed.

Lemma accept_replacement_keeps r um am c u tm df ct rp md ex :
  body_in keeps_rows (accept_replacement_body r um am c u tm df ct rp md ex).
Proof.
  intros now db b db' H r0 row Hr. unfold accept_replacement_body in H.
  destruct (reserve_chat_sequences _ _ _ _ _) as [[first db1]|] eqn:Er; [|done].
  apply reserve_spec in Er as (s & _ & _ & _ & _ & ->).
  destruct (get_message _ tm) as [m|]; [|done]. destruct (_ || _); [done|].
  destruct (insert_message (delete_tail _ _ _).2 _) as [db2|] eqn:E2; [|done].
  destruct (insert_message db2 _) as [db3|] eqn:E3; [|done].
  destruct (insert_run db3 _) as [db4|] eqn:E4; [|done]. simplify_eq.
  rewrite recount_runs. eapply insert_run_keeps; [exact E4|].
  by rewrite (insert_message_runs _ _ _ E3), (insert_message_runs _ _ _ E2).
Qed.

Lemma keeps_fence r {B} (body : Z → Db → tx Db exn B) :
  body_in chat_step body → body_in keeps_rows body → body_in (fence_kept r) body.
Proof.
  intros Hs Hk now db b db' H. apply fence_kept_rows; [by eapply Hs|].
  intros _ row Hr _. exists row. split; [|done]. by eapply Hk.
Qed.

Lemma exec_call_settled now c db r row :
  call_ok c → wf db → chat_runs db !! r = Some row → is_live (status row) = false →
  ∃ row', chat_runs (exec_call now c db) !! r = Some row' ∧ writer_slot row' = writer_slot row.
Proof.
  intros Hok Hwf Hr Hl.
  destruct (decide (call_run c = Some r)) as [Hc|Hc].
  - pose proof (wf_keyed db Hwf _ _ Hr) as Hk.
    assert (∀ o, RunJournal._locked_owned_run now db r o = Err (RunLeaseLost r)) as Hlock.
    { intros o. unfold RunJournal._locked_owned_run, RunJournal._holds_lease.
      rewrite Hr, Hl. reflexivity. }
    destruct c; simplify_eq/=;
      unfold RunJournal.claim, RunJournal.renew, RunJournal.append_operation,
        RunJournal.save_snapshot, RunJournal.complete, RunJournal.release, RunJournal.cancel,
        RunJournal.accept, RunJournal.accept_in_session, insert_run, run_tx; simpl;
      rewrite ?Hlock, ?Hr; simpl; rewrite ?Hl; simpl; try (tx_branches; solve [eauto]).
    + unfold RunJournal.allocate_event_offset, run_tx. destruct (_ <? _); [eauto|].
      destruct terminal; [rewrite Hr, Hl; simpl; rewrite lookup_insert_eq; eauto|].
      destruct owner as [o|]; [|eauto]. case_bool_decide; [eauto|]. rewrite Hlock. eauto.
    + unfold RunJournal.needs_attention, run_tx. destruct owner as [o|];
        [rewrite Hlock; eauto|rewrite Hr, Hl; eauto].
  - destruct (call_run c) as [r0|] eqn:E.
    + exists row. split; [|done]. eapply (exec_call_others now c db r0); [done..|congruence|done].
    + destruct c; simplify_eq/=. destruct (recover_spec now db Hwf) as (db' & E' & _ & _ & _ & Hk & _).
      rewrite E'. exists row. split; [|done]. apply Hk; [done|].
      unfold RunJournal.claimable_orphan. by rewrite Hl.
Qed.

Lemma journal_fence r c : call_ok c → effect_in message_step c →
  body_in (fence_kept r) (journal_body c).
Proof.
  intros Hok He now db b db' H. apply fence_kept_rows; [by eapply journal_step|].
  intros Hw row Hr Hl. unfold journal_body in H. simplify_eq.
  apply exec_call_settled; [done|apply Hw|done|done].
Qed.

(** ** Clients *)

(** The transactions the chat tables see: the sequencer's, the executor's and
    the journal's, each as one body. *)
Inductive chat_body : ∀ B, (Z → Db → tx Db exn B) → Prop :=
| body_mark_running r : chat_body _ (mark_running r)
| body_release r st : chat_body _ (release_writer r st)
| body_abandon r reason : chat_body _ (abandon_pending_run r reason)
| body_fail r reason : chat_body _ (fail_run r reason)
| body_launch r snap : chat_body _ (store_launch_snapshot r snap)
| body_claim_execution r : chat_body _ (_claim_run_execution r)
| body_stop r st msg ex : chat_body _ (_request_run_stop r st msg ex)
| body_journal c : call_ok c → effect_in message_step c → chat_body _ (journal_body c).

(** Releasing the fence of [r]. *)
Inductive acknowledgement (r : string) : (Z → Db → tx Db exn bool) → Prop :=
| ack_terminal : acknowledgement r (_acknowledge_terminal_writer r)
| ack_never_started : acknowledgement r (_acknowledge_never_started_terminal_writer r).

Ltac solve_live :=
  intros row Hp; unfold stoppable, is_pending, is_live_run in *; bool_simpl;
  destruct (status row); simpl in *; done.

Section clients.
Context {C V : Type}.

Inductive chat_program : prog C V unit → Prop :=
| run_main c u ct rp md ex : chat_program (ignore (accept_main_run c u ct rp md ex))
| run_existing c u um rp dm df : chat_program (ignore (accept_existing_user_run c u um rp dm df))
| run_replacement c u tm df ct rp md ex :
    chat_program (ignore (accept_replacement_user_run c u tm df ct rp md ex))
| run_active c : chat_program (ignore (get_active_run c))
| run_body B body : chat_body B body → chat_program (ignore (atomically body)).

Inductive chat_client (tag : string) : prog C V unit → Prop :=
| client_program p : chat_program p → chat_client tag p
| client_ack r body : acknowledgement r body → chat_client tag (ignore (atomically body)).

(** Every client but the ones that acknowledge [r]. *)
Inductive unacknowledged (r tag : string) : prog C V unit → Prop :=
| unack_program p : chat_program p → unacknowledged r tag p
| unack_other r' body : r' ≠ r → acknowledgement r' body →
    unacknowledged r tag (ignore (atomically body)).

Lemma txs_in_ignore (R : Db → Db → Prop) {A} (p : prog C V A) : txs_in R p → txs_in R (ignore p).
Proof. intros H. apply txs_in_bind; [exact H|by intros a]. Qed.

Lemma admitting_in R `{!Reflexive R} {A} c (body : Z → Db → tx Db exn A) :
  body_in R body → txs_in R (admitting (C:=C) (V:=V) c (atomically body)).
Proof.
  intros Hb. apply txs_in_catch; [by apply txs_in_atomically|].
  intros []; try exact I. apply txs_in_bind; [|by intros []].
  apply txs_in_atomically. by intros now db b db' [=].
Qed.

(** What is needed of a relation for it to hold across a client. *)
Lemma chat_program_in R `{!Reflexive R} p :
  (∀ B body, chat_body B body → body_in R body) →
  (∀ r um am c u ct rp md ex, body_in R (accept_main_body r um am c u ct rp md ex)) →
  (∀ r am c u um rp dm df, body_in R (accept_existing_body r am c u um rp dm df)) →
  (∀ r um am c u tm df ct rp md ex,
     body_in R (accept_replacement_body r um am c u tm df ct rp md ex)) →
  chat_program p → txs_in R p.
Proof.
  intros Hb H1 H2 H3 Hp. destruct Hp; apply txs_in_ignore.
  - intros r um am. by apply admitting_in.
  - intros r am. by apply admitting_in.
  - intros r um am. by apply admitting_in.
  - apply txs_in_atomically. by intros now db b db' [=].
  - apply txs_in_atomically. by eapply Hb.
Qed.

Lemma chat_body_step B body : chat_body B body → body_in chat_step body.
Proof.
  destruct 1; auto using mark_running_step, release_writer_step, abandon_step, fail_run_step,
    launch_step, claim_execution_step, request_stop_step, journal_step.
Qed.

Lemma chat_client_in tag p : chat_client tag p → txs_in chat_step p.
Proof.
  intros [p' Hp|r body Hack].
  - apply (chat_program_in chat_step); [apply chat_body_step|apply accept_main_step|
      apply accept_existing_step|apply accept_replacement_step|done].
  - apply txs_in_ignore, txs_in_atomically.
    destruct Hack; auto using acknowledge_step, acknowledge_never_started_step.
Qed.

Lemma chat_body_fence r B body : chat_body B body → body_in (fence_kept r) body.
Proof.
  intros Hb now db b db' H. destruct Hb.
  - eapply cas_run_fence; [| |exact H]; [solve_evolves|right]. solve_live.
  - unfold release_writer in H. destruct (negb _); [done|].
    eapply cas_run_fence; [| |exact H]; [solve_evolves|right]. solve_live.
  - eapply cas_run_fence; [| |exact H]; [solve_evolves|right]. solve_live.
  - eapply cas_run_fence; [| |exact H]; [solve_evolves|right]. solve_live.
  - eapply (fence_kept_rows r); [by eapply launch_step|]. intros Hw row Hr Hl.
    unfold store_launch_snapshot in H. destruct (chat_runs db !! r0) as [row0|] eqn:Hr0; [|done].
    destruct (is_pending row0) eqn:Hp; simpl in H; [|done]. simplify_eq. simpl.
    rewrite (wf_keyed db (cwf_runs db Hw) _ _ Hr0). unfold is_pending in Hp. bool_simpl.
    destruct (decide (r0 = r)) as [->|Hne]; [|rewrite lookup_insert_ne by done; eauto].
    simplify_eq. rewrite Hp in Hl. done.
  - unfold _claim_run_execution in H. destruct (cas_run _ _ _ _) eqn:E; simplify_eq.
    eapply cas_run_fence; [| |exact E]; [solve_evolves|right]. solve_live.
  - unfold _request_run_stop in H. destruct (negb _); [done|].
    eapply cas_run_fence; [| |exact H]; [solve_evolves|right]. solve_live.
  - by eapply journal_fence.
Qed.

Lemma unacknowledged_in r tag p : unacknowledged r tag p → txs_in (fence_kept r) p.
Proof.
  intros [p' Hp|r' body Hne Hack].
  - apply (chat_program_in (fence_kept r)); [apply chat_body_fence|..|done]; intros;
      apply keeps_fence; auto using accept_main_step, accept_existing_step,
        accept_replacement_step, accept_main_keeps, accept_existing_keeps,
        accept_replacement_keeps.
  - apply txs_in_ignore, txs_in_atomically. intros now db b db' H.
    destruct Hack; (eapply cas_run_fence; [| |exact H]; [solve_evolves|by left]).
Qed.
End clients.
