(* ===== verification/ChatSequencerThms.v ===== *)
(** * Theorems about admission, sequencing and the writer fence *)

From S2P Require Import Prelude Db RunJournal RunJournalProps PyString Program ChatSequencer.
From S2P Require Import ChatSequencerProps RunJournalThms.
Import ChatRun ChatSequencer ChatRunExecutor.

(** ** The content limit *)

Section clamp.
Import ChatService.

Lemma len_take n s : len (take_text n s) = Z.min (Z.max 0 n) (len s).
Proof. unfold len, take_text. rewrite length_take. lia. Qed.
Lemma len_app s t : len (s ++ t) = len s + len t.
Proof. unfold len. rewrite length_app. lia. Qed.

Lemma clamp_length ct : len (clamp_message_content ct) ≤ _CONTENT_MAX.
Proof.
  unfold clamp_message_content. destruct (Z.leb_spec (len ct) _CONTENT_MAX); [done|].
  destruct (_ <? _)%nat; rewrite !len_app, !len_take;
    change (len (text_of "</think>")) with 8; change (len _TRUNC_NOTE) with 29;
    unfold _CONTENT_MAX in *; lia.
Qed.

(** the content limit.  The stored text never exceeds 100000 characters, a
    text within the limit is stored unchanged, a longer one keeps a prefix of
    at least 99963 characters and ends with the truncation note, clamping is
    idempotent, and when the kept prefix has more opening than closing thinking
    tags the note follows a closing tag. *)
Theorem clamp_message_content_bounds ct :
  let out := clamp_message_content ct in
  len out ≤ _CONTENT_MAX ∧ clamp_message_content out = out ∧
  (len ct ≤ _CONTENT_MAX → out = ct) ∧
  (_CONTENT_MAX < len ct → ∃ n tail, 99963 ≤ n ∧ out = take_text n ct ++ tail ++ _TRUNC_NOTE ∧
     let kept := take_text (_CONTENT_MAX - len _TRUNC_NOTE) ct in
     tail = if (count_text (text_of "</think>") kept <? count_text (text_of "<think>") kept)%nat
            then text_of "</think>" else []).
Proof.
  intros out. pose proof (clamp_length ct) as Hlen.
  split_and!; [done| | |].
  - unfold clamp_message_content at 1. fold out in Hlen.
    by destruct (Z.leb_spec (len out) _CONTENT_MAX); [|lia].
  - intros Hle. unfold out, clamp_message_content.
    by destruct (Z.leb_spec (len ct) _CONTENT_MAX); [|lia].
  - intros Hlt. unfold out, clamp_message_content.
    destruct (Z.leb_spec (len ct) _CONTENT_MAX); [lia|].
    change (_CONTENT_MAX - len _TRUNC_NOTE) with 99971.
    destruct (_ <? _)%nat; eexists _, _; (split; [|split; [|reflexivity]]).
    + exact (Z.le_refl 99963).
    + rewrite app_assoc. do 2 f_equal. unfold take_text. rewrite take_take. f_equal.
    + exact (ltac:(lia) : 99963 ≤ 99971).
    + done.
Qed.
End clamp.

(** ** The holder of the writer slot *)

Definition ref_of (row : ChatRun.t) : ActiveRunRef :=
  mkActiveRunRef (run_id row) (message_id row) (status_str (status row)).

Lemma active_run_some db c ref :
  wf db → active_run db c = Some ref →
  ∃ row, chat_runs db !! run_id row = Some row ∧ chat_id row = c ∧
         writer_slot row = Some "main" ∧ ref = ref_of row.
Proof.
  intros Hwf H. unfold active_run in H.
  destruct (order_by _ _) as [|row l] eqn:E; simplify_eq. exists row.
  assert (row ∈ List.filter (is_main_writer c) (map_to_list (chat_runs db)).*2) as Hin.
  { eapply elem_of_order_by. rewrite E. left. }
  apply list_elem_of_In, filter_In in Hin as [Hin Hm]. unfold is_main_writer in Hm. bool_simpl.
  apply sql_eq_true in H0.
  apply list_elem_of_In, list_elem_of_fmap in Hin as ([r row'] & -> & Hin).
  apply elem_of_map_to_list in Hin. simpl in *.
  rewrite (wf_keyed db Hwf _ _ Hin) at 1. by split_and!.
Qed.

Lemma active_run_holder db c row :
  wf db → chat_runs db !! run_id row = Some row → chat_id row = c →
  writer_slot row = Some "main" → active_run db c = Some (ref_of row).
Proof.
  intros Hwf Hr Hc Hs. destruct (active_run db c) as [ref|] eqn:E.
  - destruct (active_run_some db c ref Hwf E) as (row' & Hr' & Hc' & Hs' & ->).
    assert (run_id row' = run_id row) as Heq by (eapply (wf_slots db Hwf); eauto; congruence).
    rewrite Heq in Hr'. by simplify_eq.
  - exfalso. unfold active_run in E. destruct (order_by _ _) eqn:El; [|done].
    assert (row ∈ ([] : list ChatRun.t)) as Hin; [|by apply not_elem_of_nil in Hin].
    rewrite <- El. apply elem_of_order_by, list_elem_of_In, filter_In. split.
    + apply list_elem_of_In, list_elem_of_fmap. exists (run_id row, row).
      split; [done|]. by apply elem_of_map_to_list.
    + unfold is_main_writer. by rewrite bool_decide_true, Hs.
Qed.

Lemma insert_main_run db row :
  wf db → chat_runs db !! run_id row = None → writer_slot row = Some "main" →
  insert_run db row =
  match active_run db (chat_id row) with
  | Some _ => Err IntegrityError
  | None => Ok (put_run db row)
  end.
Proof.
  intros Hwf Hnew Hslot. unfold insert_run, slot_allowed. rewrite Hslot, Hnew. simpl.
  destruct (existsb _ _) eqn:E.
  - apply existsb_exists in E as (x & Hin & Hconf).
    apply list_elem_of_In, list_elem_of_fmap in Hin as ([r x'] & -> & Hin).
    apply elem_of_map_to_list in Hin. simpl in *. unfold slot_conflict in Hconf.
    rewrite Hslot in Hconf. destruct (writer_slot x') as [s|] eqn:Es; [|done]. bool_simpl.
    rewrite (active_run_holder db _ x'); [done|done| |done|by subst].
    by rewrite (wf_keyed db Hwf _ _ Hin).
  - destruct (active_run db (chat_id row)) as [ref|] eqn:Ea; [|done]. exfalso.
    destruct (active_run_some _ _ _ Hwf Ea) as (x & Hx & Hc & Hs & _).
    rewrite <- not_true_iff_false, existsb_exists in E. apply E. exists x. split.
    + apply list_elem_of_In, list_elem_of_fmap. exists (run_id x, x).
      split; [done|]. by apply elem_of_map_to_list.
    + unfold slot_conflict. rewrite Hslot, Hs. by rewrite !bool_decide_true.
Qed.

(** ** Running an admission without failures *)

Lemma run_admitting {C V A} now (answer : C → result exn V) lost c
    (body : Z → Db → tx Db exn A) db calls ids :
  run now answer lost (admitting c (atomically body)) (mkMachine db calls [] ids) =
  match body now db with
  | Commit b db' => (Ok b, mkMachine db' calls [] ids)
  | Rollback b => (Ok b, mkMachine db calls [] ids)
  | Raise IntegrityError =>
      (Err (match active_run db c with
            | Some ref => ChatBusyError ref
            | None => IntegrityError
            end), mkMachine db calls [] ids)
  | Raise e => (Err e, mkMachine db calls [] ids)
  end.
Proof.
  unfold admitting. rewrite run_catch. unfold atomically at 1. cbn [run hd m_faults m_db].
  destruct (body now db) as [b db'|b|e]; cbn; [done|done|].
  destruct e; try done. cbn. by destruct (active_run db c).
Qed.

Definition with_message (db : Db) (m : ChatMessage.t) : Db :=
  db <| chat_messages := chat_messages db ++ [m] |>.

Definition message_free (db : Db) (m : ChatMessage.t) : Prop :=
  ∀ x, x ∈ chat_messages db →
    ChatMessage.message_id x ≠ ChatMessage.message_id m ∧
    (ChatMessage.chat_id x = ChatMessage.chat_id m →
     ChatMessage.chat_seq x ≠ ChatMessage.chat_seq m).

Lemma insert_message_free db m :
  message_allowed m = true → message_free db m → insert_message db m = Ok (with_message db m).
Proof.
  intros Ha Hf. unfold insert_message. rewrite Ha. simpl.
  destruct (existsb _ _) eqn:E; [|done]. exfalso.
  apply existsb_exists in E as (x & Hin & Hc). apply list_elem_of_In in Hin.
  destruct (Hf x Hin) as [H1 H2]. unfold message_conflict in Hc. bool_simpl.
  destruct Hc as [Hc|Hc]; bool_simpl; [congruence|]. apply H2; congruence.
Qed.

Lemma assistant_allowed m c s r md now :
  message_allowed (Inflight.new_assistant_row m c s r md now) = true.
Proof. done. Qed.

Lemma user_allowed m c s ct md ex now :
  message_allowed (ChatMessage.mk m c s "user"
    (ChatService.clamp_message_content ct) md ex now) = true.
Proof.
  unfold message_allowed. cbn [ChatMessage.role ChatMessage.content].
  rewrite bool_decide_true by set_solver. simpl. apply Z.leb_le, clamp_length.
Qed.

(** The rows of one admission, inserted after a reservation: they collide with
    nothing but another holder of the writer slot. *)
Section admission_rows.
Context (now : Z) (db db1 : Db) (c u r um am : string) (first : Z) (rp : dict)
  (md : option string) (user_message : ChatMessage.t).
Context (Hwf : wf db1) (Hruns : chat_runs db1 = chat_runs db).
Context (Hnew : chat_runs db !! r = None).
Context (Hsub : ∀ m, m ∈ chat_messages db1 → m ∈ chat_messages db).
Context (Hfirst : ∀ m, m ∈ chat_messages db → ChatMessage.chat_id m = c →
  ChatMessage.chat_seq m < first).
Context (Hids : ∀ m, m ∈ chat_messages db →
  ChatMessage.message_id m ≠ um ∧ ChatMessage.message_id m ≠ am).
Context (Hdistinct : um ≠ am).
Context (Hum : ChatMessage.message_id user_message = um)
  (Huc : ChatMessage.chat_id user_message = c)
  (Hus : ChatMessage.chat_seq user_message = first)
  (Hua : message_allowed user_message = true).

Let assistant := Inflight.new_assistant_row am c (first + 1) r md now.
Let run := pending_run now r c u am um first (first + 1) rp.

Lemma active_run_same d c' : chat_runs d = chat_runs db → active_run d c' = active_run db c'.
Proof using Type. intros E. unfold active_run. by rewrite E. Qed.

Lemma admit_rows {A} (k : Db → tx Db exn A) :
  match insert_message db1 user_message with
  | Ok db2 =>
      match insert_message db2 assistant with
      | Ok db3 => match insert_run db3 run with Ok db4 => k db4 | Err e => Raise e end
      | Err e => Raise e
      end
  | Err e => Raise e
  end =
  match active_run db c with
  | Some _ => Raise IntegrityError
  | None => k (put_run (with_message (with_message db1 user_message) assistant) run)
  end.
Proof using All.
  rewrite insert_message_free; [|done|].
  2: { intros x Hx%Hsub. destruct (Hids x Hx). rewrite Hum, Huc, Hus. split; [done|].
       intros Hc. specialize (Hfirst x Hx Hc). lia. }
  rewrite insert_message_free; [|done|].
  2: { intros x [Hx%Hsub| ->%list_elem_of_singleton]%elem_of_app; simpl.
       - destruct (Hids x Hx). split; [done|]. intros Hc. specialize (Hfirst x Hx Hc). lia.
       - rewrite Hum, Hus. split; [done|]. lia. }
  rewrite insert_main_run; [|by apply (wf_same_runs db1)|by simpl; rewrite Hruns|done].
  rewrite (active_run_same _ (chat_id run)) by exact Hruns. by destruct (active_run db _).
Qed.
End admission_rows.

Lemma first_free_above db c s m :
  m ∈ chat_messages db → ChatMessage.chat_id m = c → ChatMessage.chat_seq m < first_free db c s.
Proof. intros Hm Hc. pose proof (max_next_seq_above db c m Hm Hc). unfold first_free. lia. Qed.

Definition chat_messages_of (db : Db) (c : string) : list ChatMessage.t :=
  List.filter (in_chat c) (chat_messages db).

(** The identifiers drawn for an admission are new. *)
Definition ids_fresh (db : Db) (r um am : string) : Prop :=
  chat_runs db !! r = None ∧ um ≠ am ∧
  ∀ m, m ∈ chat_messages db → ChatMessage.message_id m ≠ um ∧ ChatMessage.message_id m ≠ am.

(** What an admission leaves in the chat: the two rows after [kept], the
    pending run in the writer slot, and counters that agree with the rows. *)
Record admitted (now : Z) (db db' : Db) (c u r um am : string) (kept : list ChatMessage.t)
    (s : ChatSession.t) (ct : text) (rp : dict) (md : option string) (ex : dict)
    (acc : AcceptedChatRun) : Prop := {
  ad_user : acc_user_message acc =
    ChatMessage.mk um c (first_free db c s) "user" (ChatService.clamp_message_content ct)
      md ex now;
  ad_run : acc_run acc =
    pending_run now r c u am um (first_free db c s) (first_free db c s + 1) rp;
  ad_messages : chat_messages db' =
    kept ++ [acc_user_message acc;
             Inflight.new_assistant_row am c (first_free db c s + 1) r md now];
  ad_runs : chat_runs db' = <[r := acc_run acc]> (chat_runs db);
  ad_holder : active_run db' c = Some (mkActiveRunRef r am "pending");
  ad_session : ∃ s', chat_sessions db' !! c = Some s' ∧
    next_seq s' = first_free db c s + 2 ∧
    ChatSession.message_count s' = Z.of_nat (length (chat_messages_of db' c)) ∧
    ChatSession.last_message_at s' = Some now
}.

Lemma admitted_ok now db db1 c u r um am s s1 ct rp md ex :
  wf db1 → chat_runs db1 = chat_runs db → chat_runs db !! r = None → active_run db c = None →
  chat_sessions db1 !! c = Some s1 → next_seq s1 = first_free db c s + 2 →
  let user_message := ChatMessage.mk um c (first_free db c s) "user"
                        (ChatService.clamp_message_content ct) md ex now in
  let run := pending_run now r c u am um (first_free db c s) (first_free db c s + 1) rp in
  admitted now db
    (_recount now (put_run (with_message (with_message db1 user_message)
       (Inflight.new_assistant_row am c (first_free db c s + 1) r md now)) run) c true)
    c u r um am (chat_messages db1) s ct rp md ex (mkAcceptedChatRun run user_message).
Proof.
  intros Hwf Hruns Hnew Hidle Hs Hn user_message run.
  set (dbf := put_run _ run).
  assert (wf dbf) as Hwff.
  { destruct (insert_run_safe (with_message (with_message db1 user_message)
      (Inflight.new_assistant_row am c (first_free db c s + 1) r md now)) run dbf) as [H _];
      [done| |by apply (wf_same_runs db1)|done].
    rewrite insert_main_run; [|by apply (wf_same_runs db1)|by simpl; rewrite Hruns|done].
    simpl. rewrite (active_run_same db _ c) by exact Hruns. by rewrite Hidle. }
  unfold _recount. change (chat_sessions dbf !! c) with (chat_sessions db1 !! c). rewrite Hs.
  split; simpl; [done|done| |by rewrite Hruns| |].
  - by rewrite <- app_assoc.
  - rewrite (active_run_same dbf) by done.
    rewrite (active_run_holder dbf c run); [done|done| |done|done].
    simpl. by rewrite lookup_insert_eq.
  - rewrite lookup_insert_eq. eexists. split_and!; [done|exact Hn|done|done].
Qed.

(** The user message [tm] of [c] still sits at [from]. *)
Definition valid_target (db : Db) (c tm : string) (from : Z) : bool :=
  match get_message db tm with
  | Some t => in_chat c t && bool_decide (ChatMessage.role t = "user")
              && (ChatMessage.chat_seq t =? from)
  | None => false
  end.

(** Everything but the rows of [c] from [from] on. *)
Definition before (db : Db) (c : string) (from : Z) : list ChatMessage.t :=
  List.filter (λ m, negb (in_chat c m && (from <=? ChatMessage.chat_seq m))) (chat_messages db).

Lemma before_sub db c from m : m ∈ before db c from → m ∈ chat_messages db.
Proof. intros [Hm _]%list_elem_of_In%filter_In. by apply list_elem_of_In. Qed.

Section outcomes.
Context {C V : Type} (now : Z) (answer : C → result exn V) (lost : bool).
Context (db : Db) (calls : list C) (ids : list string) (a b d : string).
Let r := run_name a.
Let um := message_name b.
Let am := message_name d.

(** admission of a new user message is all or nothing.  For the owner of
    an idle chat [accept_main_run] succeeds and leaves exactly the user message
    (clamped), the empty assistant row with the next number and the pending run
    that holds the chat's writer slot; for a busy chat it raises
    [ChatBusyError] naming the run that holds the slot; for anyone else
    [PermissionError].  In both error cases the database is untouched: no
    orphan message and no consumed sequence number. *)
Theorem accept_main_run_outcome c u ct rp md ex :
  wf db → ids_fresh db r um am →
  let out := run now answer lost (accept_main_run c u ct rp md ex)
               (mkMachine db calls [] (a :: b :: d :: ids)) in
  match chat_sessions db !! c with
  | Some s =>
      if bool_decide (ChatSession.user_id s = u) then
        match active_run db c with
        | Some winner => out.1 = Err (ChatBusyError winner) ∧ m_db out.2 = db
        | None =>
            ∃ acc, out.1 = Ok acc ∧
              admitted now db (m_db out.2) c u r um am (chat_messages db) s ct rp md ex acc
        end
      else out.1 = Err PermissionError ∧ m_db out.2 = db
  | None => out.1 = Err PermissionError ∧ m_db out.2 = db
  end.
Proof.
  intros Hwf (Hnew & Hne & Hids) out.
  assert (out = run now answer lost (admitting c (atomically
    (accept_main_body r um am c u ct rp md ex))) (mkMachine db calls [] ids)) as -> by done.
  rewrite run_admitting. unfold accept_main_body.
  destruct (chat_sessions db !! c) as [s|] eqn:Hs.
  2: { unfold reserve_chat_sequences. simpl. by rewrite Hs. }
  case_bool_decide as Hu.
  2: { unfold reserve_chat_sequences. simpl. rewrite Hs. by rewrite bool_decide_false. }
  rewrite (reserve_eq now db c 2 u s) by (done || lia).
  rewrite (admit_rows now db); try done;
    [|by apply (wf_same_runs db)|by intros m; apply first_free_above|by apply user_allowed].
  destruct (active_run db c) as [winner|] eqn:Ea; [done|].
  eexists. split; [done|]. eapply (admitted_ok now db (advanced now db c s _)); try done.
  - by apply (wf_same_runs db).
  - simpl. by rewrite lookup_insert_eq.
  - done.
Qed.

(** editing a past user message is atomic.  When the target is still the
    user message at the given number of that chat and the chat is idle, the
    rows before it stay, the target and everything after it are gone, and the
    new turn follows; when the target moved ([ValueError]), the chat is busy
    ([ChatBusyError] with the winner) or the caller is not the owner, the whole
    transcript is untouched. *)
Theorem accept_replacement_outcome c u tm from ct rp md ex :
  wf db → ids_fresh db r um am →
  let out := run now answer lost (accept_replacement_user_run c u tm from ct rp md ex)
               (mkMachine db calls [] (a :: b :: d :: ids)) in
  match chat_sessions db !! c with
  | Some s =>
      if bool_decide (ChatSession.user_id s = u) then
        if valid_target db c tm from then
          match active_run db c with
          | Some winner => out.1 = Err (ChatBusyError winner) ∧ m_db out.2 = db
          | None =>
              ∃ acc, out.1 = Ok acc ∧
                admitted now db (m_db out.2) c u r um am (before db c from) s ct rp md ex acc
          end
        else (∃ msg, out.1 = Err (ValueError msg)) ∧ m_db out.2 = db
      else out.1 = Err PermissionError ∧ m_db out.2 = db
  | None => out.1 = Err PermissionError ∧ m_db out.2 = db
  end.
Proof.
  intros Hwf (Hnew & Hne & Hids) out.
  assert (out = run now answer lost (admitting c (atomically
    (accept_replacement_body r um am c u tm from ct rp md ex))) (mkMachine db calls [] ids))
    as -> by done.
  rewrite run_admitting. unfold accept_replacement_body.
  destruct (chat_sessions db !! c) as [s|] eqn:Hs.
  2: { unfold reserve_chat_sequences. simpl. by rewrite Hs. }
  case_bool_decide as Hu.
  2: { unfold reserve_chat_sequences. simpl. rewrite Hs. by rewrite bool_decide_false. }
  rewrite (reserve_eq now db c 2 u s) by (done || lia).
  change (get_message (advanced now db c s _) tm) with (get_message db tm). unfold valid_target.
  destruct (get_message db tm) as [t|]; [|eauto].
  rewrite <- !negb_andb. destruct (_ && _ && _); simpl; [|eauto].
  rewrite (admit_rows now db); try done;
    [|by apply (wf_same_runs db)|by apply before_sub|by intros m; apply first_free_above|
      by apply user_allowed].
  destruct (active_run db c) as [winner|] eqn:Ea; [done|].
  eexists. split; [done|].
  eapply (admitted_ok now db (delete_tail (advanced now db c s _) c from).2); try done.
  - by apply (wf_same_runs db).
  - simpl. by rewrite lookup_insert_eq.
  - done.
Qed.
End outcomes.

(** ** Concurrent executions *)

Section worlds.
Context {C V : Type}.

(** A world that starts from [db] with no task yet. *)
Definition fresh_world (db : Db) : world C V := mkWorld (mkState db [] []) [].

Lemma fresh_reachable R `{!PreOrder R} (client : string → prog C V unit → Prop) db w :
  (∀ tag p, client tag p → txs_in R p) → rtc (world_step client) (fresh_world db) w →
  R db (cur (st w)) ∧ ∀ d, d ∈ states (st w) → R db d ∧ R d (cur (st w)).
Proof.
  intros Hc Hr.
  destruct (reachable_in client R (fresh_world db) w Hc Hr) as [HR Hall].
  { intros t Ht. by apply not_elem_of_nil in Ht. }
  split; [done|]. intros d Hd. destruct (Hall d Hd) as [Hin|[? ?]]; [|done].
  apply list_elem_of_singleton in Hin as ->. by split.
Qed.

(** C3: one main writer per chat, whatever runs concurrently.  Any number of
    admissions, executor transitions and journal calls, interleaved and failing
    arbitrarily, keep the run and message tables consistent: at most one run of
    a chat holds the writer slot, message numbers are unique per chat, and every
    run ever committed is still there with its settled status. *)
Theorem single_main_writer db (w : world C V) :
  cwf db → rtc (world_step chat_client) (fresh_world db) w →
  cwf (cur (st w)) ∧
  (∀ row1 row2, chat_runs (cur (st w)) !! run_id row1 = Some row1 →
     chat_runs (cur (st w)) !! run_id row2 = Some row2 → chat_id row1 = chat_id row2 →
     is_Some (writer_slot row1) → is_Some (writer_slot row2) → row1 = row2) ∧
  ∀ old r row, old ∈ states (st w) → chat_runs old !! r = Some row →
    ∃ row', chat_runs (cur (st w)) !! r = Some row' ∧ run_evolves not_live row row'.
Proof.
  intros Hw Hr. destruct (fresh_reachable chat_step _ _ _ chat_client_in Hr) as [HR Hall].
  destruct (HR Hw) as [Hw' _]. split_and!; [done|..].
  - intros row1 row2 H1 H2 Hc [s1 Hs1] [s2 Hs2].
    rewrite (wf_slot_main _ (cwf_runs _ Hw') _ _ _ H1 Hs1) in Hs1.
    rewrite (wf_slot_main _ (cwf_runs _ Hw') _ _ _ H2 Hs2) in Hs2.
    pose proof (wf_slots _ (cwf_runs _ Hw') _ _ _ _ _ H1 H2 Hc Hs1 Hs2) as E.
    rewrite E in H1. by simplify_eq.
  - intros old r row Hold Hrow. destruct (Hall old Hold) as [H1 H2].
    destruct (H1 Hw) as [Hwo _]. destruct (H2 Hwo) as [_ [Hev _]]. by apply Hev.
Qed.

(** a message number is never used twice.  A message of any past state and
    a message of the present with the same chat and the same number are the
    same row, even when edits deleted the tail it belonged to in between. *)
Theorem message_numbers_never_reused db (w : world C V) old m m' :
  cwf db → rtc (world_step chat_client) (fresh_world db) w → old ∈ states (st w) →
  m ∈ chat_messages old → m' ∈ chat_messages (cur (st w)) →
  ChatMessage.chat_id m' = ChatMessage.chat_id m →
  ChatMessage.chat_seq m' = ChatMessage.chat_seq m → m' = m.
Proof.
  intros Hw Hr Hold Hm Hm' Hc Hs.
  destruct (fresh_reachable chat_step _ _ _ chat_client_in Hr) as [_ Hall].
  destruct (Hall old Hold) as [H1 H2]. destruct (H1 Hw) as [[_ [_ Huniq Halloc]] _].
  destruct (H1 Hw) as [Hwo _]. destruct (H2 Hwo) as [_ [_ [_ Hnew]]].
  destruct (Hnew m' Hm') as [Hin|Hge]; [by apply Huniq|]. exfalso.
  destruct (Halloc m Hm) as (s & Hses & Hlt). rewrite <- Hc in Hses.
  specialize (Hge s Hses). lia.
Qed.

(** ** Stopping a run from outside *)

Lemma cas_run_true p f r db db' :
  wf db → (∀ row, run_id (f row) = run_id row) → cas_run p f r db = Commit true db' →
  ∃ row, chat_runs db !! r = Some row ∧ p row = true ∧ chat_runs db' !! r = Some (f row) ∧
         db' = put_run db (f row).
Proof.
  intros Hwf Hf H. unfold cas_run in H. destruct (chat_runs db !! r) as [row|] eqn:Hr; [|done].
  destruct (p row) eqn:Hp; simplify_eq. exists row. split_and!; [done|done| |done].
  simpl. rewrite Hf, (wf_keyed db Hwf _ _ Hr). by rewrite lookup_insert_eq.
Qed.

Lemma request_stop_true r st' msg ex now db db1 :
  wf db → _request_run_stop r st' msg ex now db = Commit true db1 →
  ∃ row row1, chat_runs db !! r = Some row ∧ chat_runs db1 !! r = Some row1 ∧
    is_terminal st' = true ∧ is_live (status row) = true ∧ status row1 = st' ∧
    writer_slot row1 = writer_slot row ∧ chat_id row1 = chat_id row ∧
    message_id row1 = message_id row.
Proof.
  intros Hwf H. unfold _request_run_stop in H. destruct (is_terminal st') eqn:Ht; [|done].
  apply cas_run_true in H as (row & Hr & Hp & Hr1 & _); [|done|by intros; repeat case_match].
  unfold stoppable, is_live_run in Hp. bool_simpl.
  exists row. eexists. split_and!; [done|exact Hr1|done|done|..]; repeat case_match; done.
Qed.

Lemma acknowledge_frees r now row db c :
  cwf db → chat_runs db !! r = Some row → chat_id row = c → writer_slot row = Some "main" →
  fenced row = true →
  ∃ db2, _acknowledge_terminal_writer r now db = Commit true db2 ∧ active_run db2 c = None.
Proof.
  intros Hw Hr Hc Hs Hf.
  assert (_acknowledge_terminal_writer r now db = Commit true (put_run db (drop_slot now row)))
    as Hack by (unfold _acknowledge_terminal_writer, cas_run; by rewrite Hr, Hf).
  eexists. split; [exact Hack|].
  destruct (acknowledge_step _ _ _ _ _ Hack Hw) as [[Hwf2 _] _].
  destruct (active_run (put_run db (drop_slot now row)) c) as [ref|] eqn:Ea; [exfalso|done].
  destruct (active_run_some _ _ _ Hwf2 Ea) as (x & Hx & Hcx & Hsx & _).
  pose proof (wf_keyed _ (cwf_runs _ Hw) _ _ Hr) as Hid. simpl in Hx. rewrite Hid in Hx.
  apply lookup_insert_Some in Hx as [[_ <-]|[Hne Hx]]; [done|].
  apply Hne. symmetry.
  eapply (wf_slots _ (cwf_runs _ Hw)); [exact Hx|exact Hr|congruence|exact Hsx|done].
Qed.

(** an external stop keeps the writer fence.  After [_request_run_stop]
    settled a run that holds its chat's slot, the chat admits no other run,
    whatever happens, until that run is acknowledged: every admission raises
    [ChatBusyError] naming the stopped run and its verdict.  The acknowledgement
    then frees the chat. *)
Theorem stopped_run_fences_chat r st' msg ex now db db1 row (w : world C V) :
  cwf db → _request_run_stop r st' msg ex now db = Commit true db1 →
  chat_runs db !! r = Some row → writer_slot row = Some "main" →
  rtc (world_step (unacknowledged r)) (fresh_world db1) w →
  let busy := mkActiveRunRef r (message_id row) (status_str st') in
  active_run (cur (st w)) (chat_id row) = Some busy ∧
  (∀ now' (answer : C → result exn V) lost calls ids a b d s u ct rp md ex',
     ids_fresh (cur (st w)) (run_name a) (message_name b) (message_name d) →
     chat_sessions (cur (st w)) !! chat_id row = Some s → ChatSession.user_id s = u →
     run now' answer lost (accept_main_run (chat_id row) u ct rp md ex')
       (mkMachine (cur (st w)) calls [] (a :: b :: d :: ids)) =
     (Err (ChatBusyError busy), mkMachine (cur (st w)) calls [] ids)) ∧
  ∀ now', ∃ db2, _acknowledge_terminal_writer r now' (cur (st w)) = Commit true db2 ∧
    active_run db2 (chat_id row) = None.
Proof.
  intros Hw Hstop Hrow Hslot Hr busy.
  destruct (request_stop_true _ _ _ _ _ _ _ (cwf_runs _ Hw) Hstop)
    as (row0 & row1 & Hr0 & Hr1 & Hterm & Hlive & Hst & Hs1 & Hc1 & Hm1). simplify_eq.
  destruct (request_stop_step _ _ _ _ _ _ _ _ Hstop Hw) as [Hw1 _].
  destruct (fresh_reachable (fence_kept r) _ _ _ (unacknowledged_in r) Hr) as [HR _].
  destruct (HR Hw1) as [[Hwf Hmsg] Hk].
  destruct (Hk row1 Hr1) as (row2 & Hr2 & E1 & E2 & E3 & E4).
  { by destruct (status row1). }
  pose proof (wf_keyed _ Hwf _ _ Hr2) as Hid.
  assert (active_run (cur (st w)) (chat_id row) = Some busy) as Hbusy.
  { rewrite (active_run_holder _ _ row2); [|done|by rewrite Hid|congruence|congruence].
    unfold busy, ref_of. by rewrite Hid, E1, E4, Hm1. }
  split_and!; [done|..].
  - intros now' answer lost calls ids a b d s u ct rp md ex' (Hnew & Hne & Hids) Hs Hu.
    transitivity (run now' answer lost (admitting (chat_id row) (atomically
      (accept_main_body (run_name a) (message_name b) (message_name d) (chat_id row) u ct rp
         md ex'))) (mkMachine (cur (st w)) calls [] ids)); [done|].
    rewrite run_admitting. unfold accept_main_body. rewrite (reserve_eq _ _ _ 2 u s) by (done || lia).
    rewrite (admit_rows now' (cur (st w))); try done;
      [|by apply (wf_same_runs (cur (st w)))|by intros m; apply first_free_above|
        by apply user_allowed].
    by rewrite Hbusy.
  - intros now'. apply (acknowledge_frees _ _ row2); [by split|done|congruence|congruence|].
    unfold fenced. by rewrite E1, E2, Hs1, Hslot, Hterm.
Qed.

(** ** Terminal verdicts *)

(** The ways a run is settled outside the journal: the sequencer's terminal
    methods and the executor's external stop. *)
Inductive verdict (r : string) : RunStatus → (Z → Db → tx Db exn bool) → Prop :=
| verdict_release st : is_terminal st = true → verdict r st (release_writer r st)
| verdict_abandon reason : verdict r Failed (abandon_pending_run r reason)
| verdict_fail reason : verdict r Failed (fail_run r reason)
| verdict_stop st msg ex : is_terminal st = true → verdict r st (_request_run_stop r st msg ex).

(** Each is a compare-and-set on a live row that writes its status. *)
Lemma verdict_cas r st body now db : verdict r st body →
  is_terminal st = true ∧ ∃ p f, body now db = cas_run p f r db ∧
    (∀ row, p row = true → is_live (status row) = true) ∧
    (∀ row, run_id (f row) = run_id row ∧ status (f row) = st).
Proof.
  intros [st' Ht|reason|reason|st' msg ex Ht]; (split; [done|]);
    unfold release_writer, _request_run_stop, abandon_pending_run, fail_run;
    rewrite ?Ht; (eexists _, _; split; [reflexivity|]);
    (split; [solve_live|intros row; repeat case_match; done]).
Qed.

(** a terminal verdict is decided once.  After one of the verdicts on a run
    won, the run keeps that status under any interleaving of admissions,
    executor transitions and journal calls, and every later verdict on it loses
    and writes nothing. *)
Theorem terminal_verdict_once r st1 body1 now db db1 (w : world C V) :
  cwf db → verdict r st1 body1 → body1 now db = Commit true db1 →
  rtc (world_step chat_client) (fresh_world db1) w →
  (∃ row, chat_runs (cur (st w)) !! r = Some row ∧ status row = st1) ∧
  ∀ st2 body2 now', verdict r st2 body2 →
    body2 now' (cur (st w)) = Commit false (cur (st w)).
Proof.
  intros Hw Hv Hwin Hr.
  destruct (verdict_cas r st1 body1 now db Hv) as (Ht & p & f & E & Hp & Hf).
  rewrite E in Hwin. pose proof Hwin as Hcas.
  apply cas_run_true in Hcas as (row & Hrow & Hprow & Hrow1 & _); [|apply Hw|apply Hf].
  assert (cwf db1) as Hw1.
  { assert (chat_body _ body1) as Hb by (destruct Hv; constructor).
    rewrite <- E in Hwin. by destruct (chat_body_step _ _ Hb _ _ _ _ Hwin Hw). }
  destruct (fresh_reachable chat_step _ _ _ chat_client_in Hr) as [HR _].
  destruct (HR Hw1) as [_ [Hev _]]. destruct (Hev _ _ Hrow1) as (row2 & Hrow2 & Hevo).
  assert (is_live st1 = false) as Hnl by by destruct st1.
  assert (status row2 = st1) as Hst2.
  { destruct (Hf row) as [_ Hst]. rewrite <- Hst. apply (ev_settled _ _ _ Hevo).
    unfold not_live. by rewrite Hst, Hnl. }
  split; [eauto|]. intros st2 body2 now' Hv2.
  destruct (verdict_cas r st2 body2 now' (cur (st w)) Hv2) as (_ & p2 & f2 & -> & Hp2 & _).
  unfold cas_run. rewrite Hrow2. destruct (p2 row2) eqn:Hpr; [|done].
  apply Hp2 in Hpr. congruence.
Qed.
End worlds.

(** ** A concrete chat *)

Section demo.
Definition no_answer (c : Empty_set) : result exn unit := match c with end.

Definition demo_session : ChatSession.t := ChatSession.mk "c1" "u1" "chat" 0 (Some 1) 0 None None.
Definition demo_chat : Db := empty_db <| chat_sessions := {["c1" := demo_session]} |>.

Definition admit_demo (db : Db) (ids : list string) : result exn AcceptedChatRun * machine Empty_set :=
  run 10 no_answer false (accept_main_run "c1" "u1" (text_of "hi") [] None []) (mkMachine db [] [] ids).
Definition demo_busy : Db := m_db (admit_demo demo_chat ["aaaa"; "bbbb"; "cccc"]).2.

Lemma demo_chat_cwf : cwf demo_chat.
Proof.
  split; [apply (wf_same_runs empty_db); [done|done|apply wf_empty]|].
  split; simpl; [apply NoDup_nil_2|..]; intros m; intros; by destruct (not_elem_of_nil m).
Qed.

Lemma demo_chat_fresh : ids_fresh demo_chat "run_aaaa" "msg_bbbb" "msg_cccc".
Proof.
  split_and!; [reflexivity|discriminate|]. intros m Hm. by destruct (not_elem_of_nil m).
Qed.

Lemma accept_main_run_outcome_witness :
  ∃ acc, (admit_demo demo_chat ["aaaa"; "bbbb"; "cccc"]).1 = Ok acc ∧
         active_run demo_busy "c1" = Some (mkActiveRunRef "run_aaaa" "msg_cccc" "pending").
Proof.
  pose proof (accept_main_run_outcome 10 no_answer false demo_chat [] [] "aaaa" "bbbb" "cccc"
    "c1" "u1" (text_of "hi") [] None [] (cwf_runs _ demo_chat_cwf) demo_chat_fresh) as H.
  replace (chat_sessions demo_chat !! "c1") with (Some demo_session) in H by reflexivity.
  rewrite bool_decide_true in H by reflexivity.
  replace (active_run demo_chat "c1") with (@None ActiveRunRef) in H by reflexivity.
  destruct H as (acc & Hok & Had). exists acc. split; [exact Hok|exact (ad_holder _ _ _ _ _ _ _ _ _ _ _ _ _ _ _ Had)].
Defined.

Lemma run_ignore {C V B} now answer lost (p : prog C V B) m :
  m_db (run now answer lost (ignore p) m).2 = m_db (run now answer lost p m).2.
Proof. unfold ignore. rewrite run_bind. by destruct (run now answer lost p m) as [[] ?]. Qed.

(** One client run alone, as an execution of the world. *)
Lemma spawned {C V} (client : string → prog C V unit → Prop) now answer lost tag p db ids :
  client tag p →
  ∃ w, rtc (world_step client) (fresh_world db) w ∧
       cur (st w) = m_db (run now answer lost p (mkMachine db [] [] ids)).2.
Proof.
  intros Hc.
  destruct (run_steps client now answer lost tag p (mkMachine db [] [] ids) (mkState db [] []))
    as (s' & p' & new & Hr & Hcur & _); [constructor|done|].
  exists (mkWorld s' [(tag, p')]). split; [|done].
  eapply rtc_l; [|exact Hr].
  apply (world_spawn client (mkState db [] []) [] tag p Hc), not_elem_of_nil.
Qed.

Lemma demo_busy_world : ∃ w : world Empty_set unit,
  rtc (world_step chat_client) (fresh_world demo_chat) w ∧ cur (st w) = demo_busy.
Proof.
  destruct (spawned chat_client 10 no_answer false "t1"
    (ignore (accept_main_run "c1" "u1" (text_of "hi") [] None [])) demo_chat
    ["aaaa"; "bbbb"; "cccc"]) as (w & Hr & Hc); [by repeat constructor|].
  exists w. split; [done|]. by rewrite Hc, run_ignore.
Qed.

Lemma demo_busy_cwf : cwf demo_busy.
Proof.
  destruct demo_busy_world as (w & Hr & <-).
  destruct (fresh_reachable chat_step _ _ _ chat_client_in Hr) as [HR _].
  apply HR, demo_chat_cwf.
Qed.

Definition committed (t : tx Db exn bool) : Db :=
  match t with Commit _ db => db | _ => empty_db end.
Definition demo_idle : Db := committed (release_writer "run_aaaa" Completed 15 demo_busy).
Definition demo_stopped : Db :=
  committed (_request_run_stop "run_aaaa" Cancelled None false 20 demo_busy).

Lemma demo_idle_cwf : cwf demo_idle.
Proof.
  apply (release_writer_step "run_aaaa" Completed 15 demo_busy true);
    [vm_compute; reflexivity|apply demo_busy_cwf].
Qed.

Lemma demo_idle_fresh : ids_fresh demo_idle "run_dddd" "msg_eeee" "msg_ffff".
Proof.
  split_and!; [vm_compute; reflexivity|discriminate|]. apply Forall_forall.
  vm_compute. repeat constructor; discriminate.
Qed.

Definition replace_demo : result exn AcceptedChatRun * machine Empty_set :=
  run 30 no_answer false
    (accept_replacement_user_run "c1" "u1" "msg_bbbb" 1 (text_of "bye") [] None [])
    (mkMachine demo_idle [] [] ["dddd"; "eeee"; "ffff"]).

Lemma accept_replacement_outcome_witness :
  ∃ acc, replace_demo.1 = Ok acc ∧
         ChatMessage.chat_seq <$> chat_messages (m_db replace_demo.2) = [3; 4].
Proof.
  pose proof (accept_replacement_outcome 30 no_answer false demo_idle [] [] "dddd" "eeee" "ffff"
    "c1" "u1" "msg_bbbb" 1 (text_of "bye") [] None [] (cwf_runs _ demo_idle_cwf) demo_idle_fresh)
    as H.
  destruct (chat_sessions demo_idle !! "c1") as [s|] eqn:Es; [|vm_compute in Es; discriminate].
  assert (Hs : s = demo_session <| ChatSession.next_message_seq := Some 3 |>
    <| ChatSession.message_count := 2 |> <| ChatSession.updated_at := 10 |>
    <| ChatSession.last_message_at := Some 10 |>) by (vm_compute in Es; by injection Es).
  rewrite Hs in H. rewrite bool_decide_true in H by reflexivity.
  replace (valid_target demo_idle "c1" "msg_bbbb" 1) with true in H by (vm_compute; reflexivity).
  replace (active_run demo_idle "c1") with (@None ActiveRunRef) in H by (vm_compute; reflexivity).
  destruct H as (acc & Hok & Had). exists acc. split; [exact Hok|].
  unfold replace_demo. rewrite (ad_messages _ _ _ _ _ _ _ _ _ _ _ _ _ _ _ Had).
  rewrite (ad_user _ _ _ _ _ _ _ _ _ _ _ _ _ _ _ Had). vm_compute. reflexivity.
Defined.

Lemma single_main_writer_witness : ∃ w : world Empty_set unit,
  rtc (world_step chat_client) (fresh_world demo_chat) w ∧ cur (st w) = demo_busy ∧
  cwf (cur (st w)).
Proof.
  destruct demo_busy_world as (w & Hr & Hc). exists w. split; [exact Hr|split; [exact Hc|]].
  exact (proj1 (single_main_writer demo_chat w demo_chat_cwf Hr)).
Defined.

Definition demo_user_message : ChatMessage.t :=
  ChatMessage.mk "msg_bbbb" "c1" 1 "user" (text_of "hi") None [] 10.

Lemma message_numbers_never_reused_witness :
  ∃ w : world Empty_set unit, rtc (world_step chat_client) (fresh_world demo_chat) w ∧
  cur (st w) = demo_busy ∧
  ∀ m', m' ∈ chat_messages (cur (st w)) → ChatMessage.chat_id m' = "c1" →
        ChatMessage.chat_seq m' = 1 → m' = demo_user_message.
Proof.
  destruct demo_busy_world as (w & Hr & Hc). exists w. split; [exact Hr|split; [exact Hc|]].
  intros m' Hm' Hc' Hs'.
  refine (message_numbers_never_reused demo_chat w (cur (st w)) demo_user_message m'
    demo_chat_cwf Hr _ _ Hm' Hc' Hs'); [left|].
  rewrite Hc. apply list_elem_of_In. vm_compute. left. reflexivity.
Defined.

Definition demo_run : ChatRun.t :=
  pending_run 10 "run_aaaa" "c1" "u1" "msg_cccc" "msg_bbbb" 1 2 [].

Lemma stopped_run_fences_chat_witness :
  active_run demo_stopped "c1" = Some (mkActiveRunRef "run_aaaa" "msg_cccc" "cancelled").
Proof.
  refine (proj1 (stopped_run_fences_chat (C:=Empty_set) (V:=unit) "run_aaaa" Cancelled None false
    20 demo_busy demo_stopped demo_run (fresh_world demo_stopped) demo_busy_cwf _ _ _ _));
    [vm_compute; reflexivity|vm_compute; reflexivity|reflexivity|apply rtc_refl].
Defined.

Lemma terminal_verdict_once_witness :
  fail_run "run_aaaa" "late" 40 demo_stopped = Commit false demo_stopped.
Proof.
  refine (proj2 (terminal_verdict_once (C:=Empty_set) (V:=unit) "run_aaaa" Cancelled _ 20
    demo_busy demo_stopped (fresh_world demo_stopped) demo_busy_cwf
    (verdict_stop _ Cancelled None false eq_refl) _ _) Failed _ 40 (verdict_fail _ "late"));
    [vm_compute; reflexivity|apply rtc_refl].
Defined.
End demo.
