(* ===== verification/SteerQueue.v ===== *)
(** * Queued user input: [core/services/steer_queue.py]

    A steer, follow-up or next-run message is accepted durably beside a live
    run, claimed under a lease by the worker that can inject it, and applied
    exactly once, either in the transaction that journals the injected message
    or by the hand-off that starts the successor run. *)

From S2P Require Import Prelude Db RunJournal PyString Program.
From Stdlib Require Import Ascii.

Module SteerQueue.
Module Q := ChatSteerQueueItem.

Record SteerRecord := mkSteerRecord {
  sr_queue_id : string;
  sr_steer_id : string;
  sr_chat_id : string;
  sr_user_id : string;
  sr_target_run_id : option string;
  sr_steer_seq : Z;
  sr_target_operation_seq : option Z;
  sr_delivery_mode : DeliveryMode;
  sr_status : QueueStatus;
  sr_message : string;
  sr_claim_owner : option string;
  sr_lease_expires_at : option Z;
  sr_delivery_attempt : Z;
  sr_superseded_by : option string;
  sr_applied_run_id : option string;
  sr_applied_source_run_id : option string;
  sr_applied_operation_seq : option Z
}.

(** [str(x) if x else None] *)
Definition nonempty (x : option string) : option string :=
  match x with
  | Some s => if bool_decide (s = "") then None else Some s
  | None => None
  end.

Definition _record (row : Q.t) : SteerRecord :=
  mkSteerRecord (Q.queue_id row) (Q.steer_id row) (Q.chat_id row) (Q.user_id row)
    (nonempty (Q.target_run_id row)) (Q.steer_seq row) (Q.target_operation_seq row)
    (Q.delivery_mode row) (Q.status row) (Q.message row) (nonempty (Q.lease_owner row))
    (Q.lease_expires_at row) (Q.delivery_attempt row) (nonempty (Q.superseded_by row))
    (nonempty (Q.applied_run_id row)) (nonempty (Q.applied_source_run_id row))
    (Q.applied_operation_seq row).

(** [s.replace("-", "_")] *)
Definition underscored (s : string) : string :=
  str_map (λ c, if bool_decide (c = "-"%char) then "_"%char else c) s.

Definition normalize_delivery_mode (value : string) : result exn DeliveryMode :=
  let key := lower (underscored (str_or value "steer")) in
  if bool_decide (key = "steer") then Ok Steer
  else if bool_decide (key ∈ ["followup"; "follow_up"]) then Ok FollowUp
  else if bool_decide (key ∈ ["nextrun"; "next_run"]) then Ok NextRun
  else Err (ValueError ("unsupported delivery mode: " +:+ value)).

Definition mode_str (m : DeliveryMode) : string :=
  match m with Steer => "steer" | FollowUp => "follow_up" | NextRun => "next_run" end.

Definition _idempotent_record_or_conflict (row : Q.t) (target_run_id : option string)
    (user_id : string) (delivery_mode : DeliveryMode) (message : string)
    : result exn SteerRecord :=
  if bool_decide (nonempty (Q.target_run_id row) = target_run_id)
     && bool_decide (Q.user_id row = user_id)
     && bool_decide (Q.delivery_mode row = delivery_mode)
     && bool_decide (Q.message row = message)
  then Ok (_record row)
  else Err (SteerQueueConflict
         "steer_id already belongs to a different run, message, or delivery mode").

(** [filter(chat_id == c, steer_id == s).one_or_none()] *)
Definition by_steer_id (db : Db) (chat_id steer_id : string) : result exn (option Q.t) :=
  one_or_none (List.filter (λ q, bool_decide (Q.chat_id q = chat_id)
                                && bool_decide (Q.steer_id q = steer_id)) (chat_steer_queue db)).

Definition next_steer_seq (db : Db) (chat_id : string) : Z :=
  default 0 (max_opt (Q.steer_seq <$>
    List.filter (λ q, bool_decide (Q.chat_id q = chat_id)) (chat_steer_queue db))) + 1.

Definition update_queue (db : Db) (p : Q.t → bool) (f : Q.t → Q.t) : Db :=
  db <| chat_steer_queue := update_where p f (chat_steer_queue db) |>.

Definition is_replaceable (target_run_id : string) (q : Q.t) : bool :=
  sql_eq (Q.target_run_id q) target_run_id
  && bool_decide (Q.delivery_mode q = Steer) && bool_decide (Q.status q = QAccepted).

Definition accept_body (target_run_id chat_id user_id steer_id message : string)
    (mode : DeliveryMode) (replace_latest : bool) (queue_id : string) (now : Z) (db : Db)
    : tx Db exn SteerRecord :=
  let? existing := by_steer_id db chat_id steer_id in
  match existing with
  | Some row =>
      let? r := _idempotent_record_or_conflict row (Some target_run_id) user_id mode message in
      Rollback r
  | None =>
      need? run := chat_runs db !! target_run_id
        else (SteerQueueConflict "target run does not belong to this chat/user") in
      if negb (bool_decide (ChatRun.chat_id run = chat_id))
         || negb (bool_decide (ChatRun.user_id run = user_id))
      then Raise (SteerQueueConflict "target run does not belong to this chat/user") else
      if negb (is_live (ChatRun.status run))
      then Raise (SteerQueueConflict "target run is no longer active") else
      let next_seq := next_steer_seq db chat_id in
      let db1 :=
        if replace_latest && bool_decide (mode = Steer) then
          update_queue db (is_replaceable target_run_id)
            (λ q, q <| Q.status := QSuperseded |> <| Q.superseded_by := Some queue_id |>
                    <| Q.updated_at := now |>)
        else db in
      let row :=
        Q.mk queue_id steer_id chat_id user_id (Some target_run_id) next_seq
          (Some (ChatRun.operation_seq run + 1)) mode QAccepted message None None 0 None None
          None None now None None None now in
      let? db2 := insert_queue_item db1 row in
      Commit (_record row) db2
  end.

(** The lookup after a lost race. *)
Definition lost_race_body (target_run_id chat_id user_id steer_id message : string)
    (mode : DeliveryMode) (_ : Z) (db : Db) : tx Db exn (option SteerRecord) :=
  let? existing := by_steer_id db chat_id steer_id in
  match existing with
  | Some row =>
      let? r := _idempotent_record_or_conflict row (Some target_run_id) user_id mode message in
      Rollback (Some r)
  | None => Rollback None
  end.

(** [or_(status == accepted, and_(status == claimed, lease_expires_at <= now))] *)
Definition claimable (now : Z) (q : Q.t) : bool :=
  bool_decide (Q.status q = QAccepted)
  || (bool_decide (Q.status q = QClaimed) && sql_le (Q.lease_expires_at q) now).

Definition seq_leb (a b : Q.t) : bool := Q.steer_seq a <=? Q.steer_seq b.

(** [query.filter(p).order_by(steer_seq).first()] *)
Definition first_by_seq (p : Q.t → bool) (db : Db) : option Q.t :=
  match order_by seq_leb (List.filter p (chat_steer_queue db)) with
  | [] => None
  | q :: _ => Some q
  end.

Definition get_item (db : Db) (queue_id : string) : option Q.t :=
  List.find (λ q, bool_decide (Q.queue_id q = queue_id)) (chat_steer_queue db).

Definition has_id (queue_id : string) (q : Q.t) : bool := bool_decide (Q.queue_id q = queue_id).

(** What one round of [claim_next] found: nothing to claim, a claim, or a row
    that somebody else changed first. *)
Inductive claim_round := NothingToClaim | ClaimedItem (r : SteerRecord) | LostRound.

Definition claim_body (target_run_id owner : string) (lease_seconds now : Z) (db : Db)
    : tx Db exn claim_round :=
  let expires := now + seconds (Z.max 1 lease_seconds) in
  match first_by_seq (λ q, sql_eq (Q.target_run_id q) target_run_id
                           && bool_decide (Q.delivery_mode q = Steer) && claimable now q) db with
  | None => Rollback NothingToClaim
  | Some candidate =>
      let p q := has_id (Q.queue_id candidate) q && claimable now q in
      let f q :=
        q <| Q.status := QClaimed |> <| Q.lease_owner := Some owner |>
          <| Q.lease_expires_at := Some expires |> <| Q.claimed_at := Some now |>
          <| Q.delivery_attempt := Q.delivery_attempt q + 1 |> <| Q.updated_at := now |> in
      let db' := update_queue db p f in
      match affected p (chat_steer_queue db) with
      | O => Commit LostRound db'
      | S _ =>
          (* the row just updated is still there *)
          match get_item db' (Q.queue_id candidate) with
          | Some claimed => Commit (ClaimedItem (_record claimed)) db'
          | None => Commit LostRound db'
          end
      end
  end.

Definition mark_applied_in_session (now : Z) (db : Db) (queue_id claim_owner applied_run_id : string)
    (applied_operation_seq : Z) : result exn Db :=
  let p q := has_id queue_id q && bool_decide (Q.status q = QClaimed)
             && sql_eq (Q.lease_owner q) claim_owner in
  let f q :=
    q <| Q.status := QApplied |> <| Q.applied_run_id := Some applied_run_id |>
      <| Q.applied_source_run_id := Some applied_run_id |>
      <| Q.applied_operation_seq := Some applied_operation_seq |>
      <| Q.applied_at := Some now |> <| Q.lease_owner := None |>
      <| Q.lease_expires_at := None |> <| Q.updated_at := now |> in
  match affected p (chat_steer_queue db) with
  | O => Err (SteerClaimLost queue_id)
  | S _ => Ok (update_queue db p f)
  end.

Definition cancellable (target_run_id steer_id : string) (now : Z) (q : Q.t) : bool :=
  sql_eq (Q.target_run_id q) target_run_id && bool_decide (Q.steer_id q = steer_id)
  && claimable now q.

Definition cancel_body (target_run_id steer_id : string) (now : Z) (db : Db) : tx Db exn bool :=
  let p := cancellable target_run_id steer_id now in
  Commit (negb (affected p (chat_steer_queue db) =? 0)%nat)
    (update_queue db p
       (λ q, q <| Q.status := QCancelled |> <| Q.cancelled_at := Some now |>
               <| Q.lease_owner := None |> <| Q.lease_expires_at := None |>
               <| Q.updated_at := now |>)).

Definition list_for_run_body (target_run_id : string) (_ : Z) (db : Db)
    : tx Db exn (list SteerRecord) :=
  Rollback (_record <$> order_by seq_leb
    (List.filter (λ q, sql_eq (Q.target_run_id q) target_run_id
                       || sql_eq (Q.applied_source_run_id q) target_run_id)
       (chat_steer_queue db))).

(** ** Hand-off to a successor run *)

(** [uuid.uuid5(uuid.NAMESPACE_URL, name).hex] *)
Class NameUuid := uuid5_hex : string → string.

Definition in_targets (source_run_id root_run_id : string) (q : Q.t) : bool :=
  sql_eq (Q.target_run_id q) source_run_id || sql_eq (Q.target_run_id q) root_run_id.

Definition handoff_candidate (source_run_id root_run_id chat_id : string) (q : Q.t) : bool :=
  bool_decide (Q.chat_id q = chat_id) && bool_decide (Q.status q = QAccepted)
  && ((bool_decide (Q.delivery_mode q ∈ [Steer; FollowUp]) && in_targets source_run_id root_run_id q)
      || bool_decide (Q.delivery_mode q = NextRun)).

Definition consume_next_handoff_in_session `{NameUuid} (now : Z) (db : Db)
    (source_run_id : string) (root_run_id : option string) (chat_id : string)
    (applied_run_id : option string) (applied_operation_seq : option Z)
    : option (SteerRecord * Db) :=
  let root := opt_str_or root_run_id source_run_id in
  match first_by_seq (handoff_candidate source_run_id root chat_id) db with
  | None => None
  | Some candidate =>
      let next_run_id :=
        opt_str_or applied_run_id
          ("run_" +:+ take_str 16 (uuid5_hex ("steer-handoff:" +:+ Q.queue_id candidate))) in
      let p q := has_id (Q.queue_id candidate) q && bool_decide (Q.status q = QAccepted) in
      let f q :=
        q <| Q.status := QApplied |> <| Q.applied_run_id := Some next_run_id |>
          <| Q.applied_source_run_id := Some source_run_id |>
          <| Q.applied_operation_seq := applied_operation_seq |>
          <| Q.applied_at := Some now |>
          <| Q.delivery_attempt := Q.delivery_attempt q + 1 |> <| Q.updated_at := now |> in
      match affected p (chat_steer_queue db) with
      | O => None
      | S _ =>
          let db' := update_queue db p f in
          match get_item db' (Q.queue_id candidate) with
          | Some applied => Some (_record applied, db')
          | None => None
          end
      end
  end.

(** ** The methods as programs *)

Section programs.
Context {C V : Type}.

(** The attempts of [accept]; whether the message of an [OperationalError]
    says the database was locked is read off the environment. *)
Fixpoint accept_attempts (attempts : nat) (target_run_id chat_id user_id steer_id message : string)
    (mode : DeliveryMode) (replace_latest : bool) : prog C V SteerRecord :=
  match attempts with
  | O => Throw (SteerQueueConflict "could not allocate a monotonic steer sequence")
  | S later =>
      let! u := uuid in
      let! outcome :=
        try (let! r := atomically (accept_body target_run_id chat_id user_id steer_id message
                                     mode replace_latest ("steerq_" +:+ u)) in
             Ret (Some r))
        except (λ e,
          match e with
          | IntegrityError =>
              atomically (lost_race_body target_run_id chat_id user_id steer_id message mode)
          | OperationalError =>
              let! locked := is_set in
              if negb locked || (later =? 0)%nat then Throw e else Ret None
          | _ => Throw e
          end) in
      match outcome with
      | Some r => Ret r
      | None =>
          accept_attempts later target_run_id chat_id user_id steer_id message mode replace_latest
      end
  end.

Definition accept (target_run_id : option string) (chat_id user_id steer_id message : string)
    (delivery_mode : string) (replace_latest : bool) : prog C V SteerRecord :=
  let! mode := lift (normalize_delivery_mode delivery_mode) in
  let text := strip message in
  if bool_decide (text = "") || (10000 <? Z.of_nat (str_len text))
  then Throw (ValueError "steer message must contain 1..10000 characters")
  else if bool_decide (steer_id = "") || (64 <? Z.of_nat (str_len steer_id))
  then Throw (ValueError "steer_id must contain 1..64 characters")
  else match nonempty target_run_id with
       | None => Throw (SteerQueueConflict (mode_str mode +:+ " requires an active target run"))
       | Some target =>
           accept_attempts 8 target chat_id user_id steer_id text mode replace_latest
       end.

Fixpoint claim_rounds (rounds : nat) (target_run_id owner : string) (lease_seconds : Z)
    : prog C V (option SteerRecord) :=
  match rounds with
  | O => Ret None
  | S later =>
      let! round := atomically (claim_body target_run_id owner lease_seconds) in
      match round with
      | NothingToClaim => Ret None
      | ClaimedItem r => Ret (Some r)
      | LostRound => claim_rounds later target_run_id owner lease_seconds
      end
  end.

Definition claim_next (target_run_id owner : string) (lease_seconds : Z)
    : prog C V (option SteerRecord) :=
  if bool_decide (owner = "") then Throw (ValueError "claim owner is required")
  else claim_rounds 8 target_run_id owner lease_seconds.

Definition cancel (target_run_id steer_id : string) : prog C V bool :=
  atomically (cancel_body target_run_id steer_id).

Definition list_for_run (target_run_id : string) : prog C V (list SteerRecord) :=
  atomically (list_for_run_body target_run_id).
End programs.
End SteerQueue.
