(* ===== verification/Artifacts.v ===== *)
(** * Pinned files: [core/services/artifact_service.py]

    [persist_artifacts] registers the files a worker pinned as rows of the
    [artifacts] table, in the transaction of its caller or in one of its own. *)

From S2P Require Import Prelude Db PyString.
From Stdlib Require Import Ascii String.

Module Artifacts.
Module A := Artifact.

(** A pinned file reference; an absent key is its default or [None]. *)
Record PinnedRef := mkPinned {
  pr_file_id : string;
  pr_name : string;
  pr_mime_type : option string;
  pr_size : option Z;
  pr_url : string;
  pr_storage_key : option string;
  pr_tool_name : string
}.

(** The file-backed artifact registry: the storage key it holds for a file. *)
Class ArtifactStore := stored_key : string → option string.

Definition is_local_project_ref (file_id : string) : bool := str_prefix "lpf_" file_id.

Definition infer_artifact_type (mime_type : string) : string :=
  if str_prefix "image/" mime_type then "chart"
  else if contains "wordprocessingml" mime_type then "report"
  else "document".

Definition resolve_artifact_storage_key `{ArtifactStore} (file_id : string)
    (storage_key : option string) : option string :=
  if bool_decide (file_id = "") then storage_key
  else match stored_key file_id with
       | Some k => if bool_decide (k = "") then storage_key else Some k
       | None => storage_key
       end.

Definition artifact_row `{ArtifactStore} (user_id chat_id : string) (folder : option string)
    (art : PinnedRef) : A.t :=
  let mime := default "application/octet-stream" (pr_mime_type art) in
  A.mk (pr_file_id art) chat_id user_id folder (infer_artifact_type mime) (pr_name art)
    (pr_name art) (Z.max (default 0 (pr_size art)) 1) mime
    (opt_str_or (resolve_artifact_storage_key (pr_file_id art) (pr_storage_key art))
       ("artifacts/" +:+ pr_file_id art))
    (pr_url art) [("source", JStr "ai_generated"); ("tool_name", JStr (pr_tool_name art))].

Fixpoint insert_all (db : Db) (rows : list A.t) : result exn Db :=
  match rows with
  | [] => Ok db
  | row :: rows' => with? db' := insert_artifact db row in insert_all db' rows'
  end.

(** [commit=False]: the rows are flushed into the open transaction, a failure
    is the caller's. *)
Definition stage_artifacts `{ArtifactStore} (db : Db) (user_id chat_id : string)
    (collected : list PinnedRef) (folder : option string) : result exn Db :=
  let refs := List.filter (λ a, negb (is_local_project_ref (pr_file_id a))) collected in
  let fresh :=
    List.filter (λ a, negb (bool_decide (pr_file_id a = ""))
                      && is_null (artifacts db !! pr_file_id a)) refs in
  insert_all db (artifact_row user_id chat_id folder <$> fresh).

(** [commit=True]: a failure is logged and rolled back. *)
Definition persist_artifacts `{ArtifactStore} (user_id chat_id : string)
    (collected : list PinnedRef) (folder : option string) (_ : Z) (db : Db) : tx Db exn unit :=
  match stage_artifacts db user_id chat_id collected folder with
  | Ok db' => Commit tt db'
  | Err _ => Rollback tt
  end.

(** Only the table of artifacts changes. *)
Lemma insert_all_only db rows db' :
  insert_all db rows = Ok db' → db' = db <| artifacts := artifacts db' |>.
Proof.
  revert db. induction rows as [|row rows IH]; intros db; simpl.
  { intros [= <-]. by destruct db. }
  destruct (insert_artifact db row) as [db1|] eqn:E; [|done]. intros H%IH.
  unfold insert_artifact in E. destruct (negb (artifact_allowed row)); [done|].
  destruct (negb (is_null _)); [done|]. simplify_eq. rewrite H. by destruct db.
Qed.

Lemma stage_artifacts_only `{ArtifactStore} db u c refs folder db' :
  stage_artifacts db u c refs folder = Ok db' → db' = db <| artifacts := artifacts db' |>.
Proof. apply insert_all_only. Qed.
End Artifacts.
