(* ===== verification/QueuedHandoff.v ===== *)
(** * Side effects committed with a journal call

    The callbacks [orchestration/chat_run_executor.py] hands to the journal:
    [_commit_output] stores the final assistant message and the pinned files and
    hands the chat to a queued successor run ([_commit_queued_handoff_in_session]), [_commit_steer]
    applies a claimed steer.  Also here: the message writer they use,
    [ChatService.upsert_message] with its repository. *)

From S2P Require Import Prelude Db RunJournal PyString ToolPolicies ChatSequencer SteerQueue.
From S2P Require Import Artifacts.

(** ** [core/db/repository/chat.py] and [ChatService.upsert_message] *)

Module MessageStore.
Module M := ChatMessage.

(** [_strip_nul]: NUL characters removed from texts, and from JSON values at
    every depth. *)
Definition strip_nul_text (s : text) : text := List.filter (λ c, negb (c =? 0)) s.
Definition strip_nul_str (s : string) : string := str_filter (λ c, negb (code c =? 0)%N) s.

Fixpoint strip_nul (v : json) : json :=
  match v with
  | JStr s => JStr (strip_nul_str s)
  | JList l => JList (map strip_nul l)
  | JDict d => JDict (foldl (λ acc kv, dict_set acc kv.1 kv.2) []
                        (map (λ kv, (strip_nul_str kv.1, strip_nul kv.2)) d))
  | _ => v
  end.
Definition strip_nul_dict (d : dict) : dict :=
  match strip_nul (JDict d) with JDict d' => d' | _ => [] end.

(** [session_repo.get_by_id]: a deleted session does not count. *)
Definition live_session (db : Db) (chat_id : string) : option ChatSession.t :=
  match chat_sessions db !! chat_id with
  | Some s => if is_null (ChatSession.deleted_at s) then Some s else None
  | None => None
  end.

Definition put_session (db : Db) (chat_id : string) (s : ChatSession.t) : Db :=
  db <| chat_sessions := <[chat_id := s]> (chat_sessions db) |>.

(** [ChatMessageRepository.create] without a commit; a missing number is
    reserved. *)
Definition create (now : Z) (db : Db) (message_id chat_id : string) (chat_seq : option Z)
    (role : string) (content : text) (model : option string) (extra_data : dict)
    : result exn Db :=
  let numbered :=
    match chat_seq with
    | Some s => Ok (s, db)
    | None => reserve_chat_sequences now db chat_id 1 None
    end in
  with? (s, db1) := numbered in
  insert_message db1
    (M.mk message_id chat_id s role (strip_nul_text content) model
       (strip_nul_dict extra_data) now).

(** ** Thinking blocks and the segments that point to them *)

(** A thinking block stands for its ["content"]; nothing else of it is read. *)
Definition _THINKING_MAX : Z := 200000.

(** The blocks in reversed order with their positions: those that are kept, the
    last one reached cut to its end. *)
Fixpoint keep_latest (budget : Z) (blocks : list (Z * text)) : list (Z * text) :=
  match blocks with
  | [] => []
  | (i, content) :: rest =>
      match content with
      | [] => keep_latest budget rest
      | _ =>
          let kept :=
            if budget <? ChatService.len content
            then drop (Z.to_nat (ChatService.len content - budget)) content else content in
          match kept with
          | [] => []
          | _ =>
              let budget' := budget - ChatService.len kept in
              (i, kept) :: if budget' <=? 0 then [] else keep_latest budget' rest
          end
      end
  end.

(** [remap.get(index)] *)
Definition remap_get (remap : list (Z * Z)) (index : option json) : result exn (option Z) :=
  let find i := snd <$> List.find (λ kv, kv.1 =? i) remap in
  match index with
  | Some (JInt i) => Ok (find i)
  | Some (JBool b) => Ok (find (if b then 1 else 0))
  | Some (JList _) | Some (JDict _) => Err (OtherError "unhashable type")
  | _ => Ok None
  end.

Definition json_or_null (v : option json) : json :=
  match v with Some v => if truthy v then v else JNull | None => JNull end.

Fixpoint remap_segments (remap : list (Z * Z)) (segments : list json)
    : result exn (list json) :=
  match segments with
  | [] => Ok []
  | JDict segment :: rest =>
      if negb (json_is (dict_get segment "type") "thinking") then
        with? rebuilt := remap_segments remap rest in Ok (JDict segment :: rebuilt)
      else
        with? new_index := remap_get remap (dict_get segment "index") in
        with? rebuilt := remap_segments remap rest in
        Ok (match new_index with
            | Some i => JDict (dict_set segment "index" (JInt i)) :: rebuilt
            | None => rebuilt
            end)
  | _ :: _ => Err (OtherError "object has no attribute get")
  end.

Definition _drop_thinking_segments (segments : option json) (remap : list (Z * Z))
    : result exn json :=
  match json_or_null segments with
  | JNull => Ok JNull
  | JList l => with? rebuilt := remap_segments remap l in Ok (json_or_null (Some (JList rebuilt)))
  | _ => Err (OtherError "segments are not a list of objects")
  end.

(** The kept contents and the segments with the positions of what is kept. *)
Definition clamp_thinking (blocks : option (list text)) (segments : option json)
    : result exn (option (list text) * json) :=
  let blocks := default [] blocks in
  match blocks with
  | [] => Ok (None, json_or_null segments)
  | _ =>
      if foldr Z.add 0 (map ChatService.len blocks) <=? _THINKING_MAX
      then Ok (Some blocks, json_or_null segments)
      else
        let kept := rev (keep_latest _THINKING_MAX (rev (imap (λ i b, (Z.of_nat i, b)) blocks))) in
        with? segs :=
          _drop_thinking_segments segments (imap (λ new kv, (kv.1, Z.of_nat new)) kept) in
        Ok (match kept with [] => None | _ => Some (map snd kept) end, segs)
  end.

(** The metadata with its segments clamped together with the thinking blocks. *)
Definition clamp_segments (thinking : option (list text)) (extra : dict) : result exn dict :=
  let segments := dict_get extra "segments" in
  with? (_, kept_segments) := clamp_thinking thinking segments in
  Ok (match segments with
      | Some _ => dict_set extra "segments" kept_segments
      | None => extra
      end).

(** The columns [thinking], [tool_calls], [model_steps], [usage] and [error] are
    not columns of the model; what [thinking] does to the metadata is. *)
Definition add_message (now : Z) (db : Db) (chat_id role : string) (content : text)
    (model : option string) (thinking : option (list text)) (extra_data : dict)
    (message_id : string) (chat_seq : option Z) : result exn Db :=
  with? extra := clamp_segments thinking extra_data in
  with? db1 := create now db message_id chat_id chat_seq role
                 (ChatService.clamp_message_content content) model extra in
  Ok (match live_session db1 chat_id with
      | Some s =>
          put_session db1 chat_id
            (s <| ChatSession.message_count := ChatSession.message_count s + 1 |>
               <| ChatSession.updated_at := now |>
               <| ChatSession.last_message_at := Some now |>)
      | None => db1
      end).

(** [upsert_message(commit=False)] on the columns of the model. *)
Definition upsert_message (now : Z) (db : Db) (chat_id role : string) (content : text)
    (message_id : string) (model : option string) (thinking : option (list text))
    (extra_data : option dict) (chat_seq : option Z) : result exn Db :=
  match ChatSequencer.get_message db message_id with
  | Some _ =>
      with? extra :=
        match extra_data with
        | Some x => with? x' := clamp_segments thinking x in Ok (Some x')
        | None => Ok None
        end in
      let db1 :=
        db <| chat_messages :=
          update_where (λ m, bool_decide (M.message_id m = message_id))
            (λ m, m <| M.content := strip_nul_text (ChatService.clamp_message_content content) |>
                    <| M.model := match model with Some _ => model | None => M.model m end |>
                    <| M.extra_data := match extra with
                                       | Some x => strip_nul_dict x
                                       | None => M.extra_data m
                                       end |>)
            (chat_messages db) |> in
      Ok (match live_session db1 chat_id with
          | Some s =>
              put_session db1 chat_id
                (s <| ChatSession.updated_at := now |> <| ChatSession.last_message_at := Some now |>)
          | None => db1
          end)
  | None =>
      add_message now db chat_id role content model thinking (default [] extra_data) message_id
        chat_seq
  end.
End MessageStore.

(** ** Handing the chat to a queued run *)

Module QueuedHandoff.
Module Q := ChatSteerQueueItem.
Import ToolPolicies SteerQueue MessageStore Artifacts.

(** [x or None] and [None] as JSON *)
Definition jopt (x : option string) : json :=
  match x with Some s => JStr s | None => JNull end.

(** [d.pop(k, None)] *)
Definition dict_pop (d : dict) (k : string) : dict :=
  List.filter (λ kv, negb (bool_decide (kv.1 = k))) d.

Section handoff.
(** [load_history]: the model-facing history [_persisted_history] reads back
    from the message rows; its format belongs to the compaction service. *)
Context `{Host} `{NameUuid} `{ArtifactStore} (load_history : Db → string → list json).

Definition root_of (context : dict) (source_run_id : string) : string :=
  match dict_get context "handoff_root_run_id" with
  | Some v => if truthy v then to_str v else source_run_id
  | None => source_run_id
  end.

Definition handoff_message_id (queue_id part : string) : string :=
  "msg_" +:+ take_str 16 (uuid5_hex (queue_id +:+ ":" +:+ part)).

Definition next_context (context : dict) (run_id message_id chat_id user_id : string)
    (handoff : SteerRecord) (root_run_id : string) : dict :=
  dict_update (dict_pop context "journal_owner")
    [("run_id", JStr run_id); ("message_id", JStr message_id); ("chat_id", JStr chat_id);
     ("user_id", JStr user_id); ("handoff_queue_id", JStr (sr_queue_id handoff));
     ("handoff_delivery_mode", JStr (mode_str (sr_delivery_mode handoff)));
     ("handoff_root_run_id", JStr root_run_id)].

Definition worker_args (messages : list json) (message : string) (context : dict)
    (model_name : option string) : dict :=
  [("session_messages", JList messages); ("effective_user_message", JStr message);
   ("raw_user_message", JStr message); ("context", JDict context);
   ("model_name", jopt model_name)].

Definition user_turn (message : string) : json :=
  JDict [("role", JStr "user"); ("content", JStr message)].

(** The prepared successor, [None] when nothing is queued; the staged state. *)
Definition _commit_queued_handoff_in_session (now : Z) (source_run_id chat_id user_id : string)
    (context : dict) (model_name : option string) (db : Db) : result exn (option dict * Db) :=
  match chat_runs db !! source_run_id with
  | None => Ok (None, db)
  | Some source_run =>
      let root_run_id := root_of context source_run_id in
      match consume_next_handoff_in_session now db source_run_id (Some root_run_id) chat_id None
              (Some (ChatRun.operation_seq source_run + 1)) with
      | None => Ok (None, db)
      | Some (handoff, db1) =>
          match sr_applied_run_id handoff with
          | None => Ok (None, db1)
          | Some next_run_id =>
              with? (first_seq, db2) :=
                reserve_chat_sequences now db1 chat_id 2 (Some user_id) in
              let next_message_id := handoff_message_id (sr_queue_id handoff) "assistant" in
              let user_message_id := handoff_message_id (sr_queue_id handoff) "user" in
              let args :=
                worker_args (load_history db2 chat_id ++ [user_turn (sr_message handoff)])
                  (sr_message handoff)
                  (next_context context next_run_id next_message_id chat_id user_id handoff
                     root_run_id) model_name in
              let request_payload :=
                dict_update (or_empty (ChatRun.request_payload source_run))
                  [("message", JStr (sr_message handoff)); ("chat_id", JStr chat_id);
                   ("attachments", JList []);
                   ("handoff", JDict
                     [("queue_id", JStr (sr_queue_id handoff));
                      ("steer_id", JStr (sr_steer_id handoff));
                      ("delivery_mode", JStr (mode_str (sr_delivery_mode handoff)));
                      ("source_run_id", JStr source_run_id)])] in
              with? (_, db3) :=
                RunJournal.accept_in_session db2 next_run_id next_message_id chat_id user_id
                  request_payload (Some [("kind", JStr "chat"); ("worker_args", JDict args)])
                  (Some user_message_id) (Some first_seq) (Some (first_seq + 1))
                  (Some "main") now in
              with? db4 :=
                upsert_message now db3 chat_id "user" (text_of (sr_message handoff))
                  user_message_id model_name None
                  (Some [("queued_handoff", JBool true);
                         ("steer_queue_id", JStr (sr_queue_id handoff));
                         ("steer_id", JStr (sr_steer_id handoff));
                         ("steer_seq", JInt (sr_steer_seq handoff));
                         ("delivery_mode", JStr (mode_str (sr_delivery_mode handoff)));
                         ("source_run_id", JStr source_run_id);
                         ("run_id", JStr next_run_id)])
                  (Some first_seq) in
              with? db5 :=
                insert_message db4
                  (Inflight.new_assistant_row next_message_id chat_id (first_seq + 1)
                     next_run_id model_name now) in
              Ok (Some
                ([("run_id", JStr next_run_id); ("message_id", JStr next_message_id);
                  ("user_message_id", JStr user_message_id);
                  ("assistant_chat_seq", JInt (first_seq + 1));
                  ("queue_id", JStr (sr_queue_id handoff));
                  ("steer_id", JStr (sr_steer_id handoff));
                  ("steer_seq", JInt (sr_steer_seq handoff));
                  ("delivery_mode", JStr (mode_str (sr_delivery_mode handoff)))] ++ args), db5)
          end
      end
  end.

(** ** The callback of the final commit *)

(** What the worker holds when the model has finished. *)
Record Output := mkOutput {
  out_run_id : string;
  out_chat_id : string;
  out_user_id : string;
  out_message_id : string;
  out_chat_seq : option Z;
  out_content : text;
  out_model : option string;
  out_thinking : option (list text);
  out_extra : dict;
  out_context : dict;
  out_pinned : list PinnedRef;
  out_folder : option string
}.

Definition _commit_output (now : Z) (o : Output) (db : Db) : result exn Db :=
  with? db1 := upsert_message now db (out_chat_id o) "assistant" (out_content o)
                 (out_message_id o) (out_model o) (out_thinking o) (Some (out_extra o))
                 (out_chat_seq o) in
  with? db2 := stage_artifacts db1 (out_user_id o) (out_chat_id o) (out_pinned o)
                 (out_folder o) in
  with? (_, db3) :=
    _commit_queued_handoff_in_session now (out_run_id o) (out_chat_id o) (out_user_id o)
      (out_context o) (out_model o) db2 in
  Ok db3.

(** ** The callback of an injected steer *)

(** The claimed steer as the stream carries it; [sg] is the assistant segment
    the steer closes, if the model had produced output. *)
Record Segment := mkSegment {
  sg_content : text;
  sg_message_id : string;
  sg_chat_seq : option Z;
  sg_thinking : option (list text);
  sg_extra : dict
}.

Record InjectedSteer := mkInjectedSteer {
  in_run_id : string;
  in_chat_id : string;
  in_user_id : string;
  in_queue_id : string;
  in_claim_owner : string;
  in_message : string;
  in_message_id : string;
  in_next_message_id : string;
  in_extra : dict;
  in_context : dict;
  in_model : option string
}.

Definition post_steer_snapshot (steer : InjectedSteer) (messages : list json) : dict :=
  [("kind", JStr "chat");
   ("worker_args", JDict
     (worker_args messages (in_message steer)
        (dict_update (dict_pop (in_context steer) "journal_owner")
           [("run_id", JStr (in_run_id steer)); ("message_id", JStr (in_next_message_id steer));
            ("chat_id", JStr (in_chat_id steer)); ("user_id", JStr (in_user_id steer))])
        (in_model steer)))].

Definition _commit_steer (now : Z) (steer : InjectedSteer) (segment : option Segment) (db : Db)
    : result exn Db :=
  match chat_runs db !! in_run_id steer with
  | None => Err (OtherError "NoneType has no attribute operation_seq")
  | Some owned_run =>
      with? db1 :=
        if negb (bool_decide (in_queue_id steer = ""))
           && negb (bool_decide (in_claim_owner steer = ""))
        then mark_applied_in_session now db (in_queue_id steer) (in_claim_owner steer)
               (in_run_id steer) (ChatRun.operation_seq owned_run + 1)
        else Ok db in
      with? db2 :=
        match segment with
        | Some sg =>
            upsert_message now db1 (in_chat_id steer) "assistant" (sg_content sg)
              (sg_message_id sg) (in_model steer) (sg_thinking sg)
              (Some (sg_extra sg)) (sg_chat_seq sg)
        | None => Ok db1
        end in
      with? db3 :=
        upsert_message now db2 (in_chat_id steer) "user" (text_of (in_message steer))
          (in_message_id steer) None None (Some (in_extra steer)) None in
      with? (seq, db4) := reserve_chat_sequences now db3 (in_chat_id steer) 1 None in
      with? db5 :=
        insert_message db4
          (Inflight.new_assistant_row (in_next_message_id steer) (in_chat_id steer) seq
             (in_run_id steer) (in_model steer) now) in
      Ok (put_run db5
        (owned_run
           <| ChatRun.recovery_snapshot :=
                Some (post_steer_snapshot steer (load_history db5 (in_chat_id steer))) |>
           <| ChatRun.snapshot_version := ChatRun.snapshot_version owned_run + 1 |>))
  end.

(** ** A [steer_applied] event of the agent stream *)

(** [msg_] and 16 digits: named after the run and the steer, so that a replay
    finds the same rows, or random ([fresh]) for an anonymous steer. *)
Definition steer_message_id (run_id steer_id suffix fresh : string) : string :=
  "msg_" +:+ take_str 16
    (if bool_decide (steer_id = "") then fresh
     else uuid5_hex (run_id +:+ ":" +:+ steer_id +:+ suffix)).

(** What the stream reports about a steer the middleware injected. *)
Record SteerChunk := mkSteerChunk {
  ck_steer_id : string;
  ck_queue_id : string;
  ck_claim_owner : string;
  ck_steer_seq : Z;
  ck_message : string
}.

Definition jstr_or_null (s : string) : json := if bool_decide (s = "") then JNull else JStr s.
Definition jint_or_null (n : Z) : json := if n =? 0 then JNull else JInt n.

Definition injected (run_id chat_id user_id : string) (context : dict) (model_name : option string)
    (timestamp fresh1 fresh2 : string) (ck : SteerChunk) : InjectedSteer :=
  let steer_id := take_str 64 (ck_steer_id ck) in
  let queue_id := take_str 64 (ck_queue_id ck) in
  {| in_run_id := run_id; in_chat_id := chat_id; in_user_id := user_id;
     in_queue_id := queue_id; in_claim_owner := take_str 160 (ck_claim_owner ck);
     in_message := strip (ck_message ck);
     in_message_id := steer_message_id run_id steer_id "" fresh1;
     in_next_message_id := steer_message_id run_id steer_id ":assistant" fresh2;
     in_extra := [("timestamp", JStr timestamp); ("steer", JBool true); ("run_id", JStr run_id);
                  ("steer_id", JStr steer_id); ("steer_queue_id", jstr_or_null queue_id);
                  ("steer_seq", jint_or_null (ck_steer_seq ck))];
     in_context := context; in_model := model_name |}.

(** An empty message commits nothing. *)
Definition steer_applied (now : Z) (owner : string) (ck : SteerChunk) (steer : InjectedSteer)
    (segment : option Segment) (db : Db) : result exn (option RunJournal.JournalReceipt) * Db :=
  if bool_decide (in_message steer = "") then (Ok None, db)
  else
    match RunJournal.append_operation now (in_run_id steer) owner
            "steer_messages_committed" "steer_committed" "side_effect_committed"
            (Some [("steer_id", JStr (take_str 64 (ck_steer_id ck)));
                   ("queue_id", jstr_or_null (in_queue_id steer));
                   ("steer_seq", jint_or_null (ck_steer_seq ck));
                   ("message_id", JStr (in_message_id steer));
                   ("previous_assistant_message_id", jopt (sg_message_id <$> segment))])
            (Some (_commit_steer now steer segment)) db with
    | (Ok receipt, db') => (Ok (Some receipt), db')
    | (Err e, db') => (Err e, db')
    end.
End handoff.
End QueuedHandoff.
