(* ===== verification/SteerQueueProps.v ===== *)
(** * Invariants of the steer queue *)

From S2P Require Import Prelude Db RunJournal RunJournalProps PyString Program SteerQueue.
Import SteerQueue.
Module Q := ChatSteerQueueItem.

(** ** The invariant and the evolution of items *)

Definition is_final (s : QueueStatus) : bool :=
  match s with QApplied | QCancelled | QSuperseded => true | _ => false end.

Record queue_wf (db : Db) : Prop := {
  qw_ids : NoDup (Q.queue_id <$> chat_steer_queue db);
  qw_seqs : NoDup ((λ q, (Q.chat_id q, Q.steer_seq q)) <$> chat_steer_queue db);
  qw_steers : NoDup ((λ q, (Q.chat_id q, Q.steer_id q)) <$> chat_steer_queue db)
}.

(** The request of an item is fixed, its final status and its delivery are
    final, attempts only grow. *)
Record item_evolves (a b : Q.t) : Prop := {
  ie_queue_id : Q.queue_id b = Q.queue_id a;
  ie_steer_id : Q.steer_id b = Q.steer_id a;
  ie_chat_id : Q.chat_id b = Q.chat_id a;
  ie_user_id : Q.user_id b = Q.user_id a;
  ie_target : Q.target_run_id b = Q.target_run_id a;
  ie_seq : Q.steer_seq b = Q.steer_seq a;
  ie_mode : Q.delivery_mode b = Q.delivery_mode a;
  ie_message : Q.message b = Q.message a;
  ie_attempt : Q.delivery_attempt a ≤ Q.delivery_attempt b;
  ie_final : is_final (Q.status a) = true → b = a
}.

#[export] Instance item_evolves_preorder : PreOrder item_evolves.
Proof.
  split; [intros q; by split|]. intros a b c [] []. split; try congruence; [lia|].
  intros Hf. specialize (ie_final0 Hf). subst b. auto.
Qed.

(** The items of before, evolved, then newer ones with larger numbers. *)
Definition queue_grows (db db' : Db) : Prop :=
  ∃ old new, chat_steer_queue db' = old ++ new ∧
    Forall2 item_evolves (chat_steer_queue db) old ∧
    ∀ q q0, q ∈ new → q0 ∈ chat_steer_queue db → Q.chat_id q0 = Q.chat_id q →
      Q.steer_seq q0 < Q.steer_seq q.

Lemma Forall2_evolves_elem l l' q' :
  Forall2 item_evolves l l' → q' ∈ l' → ∃ q, q ∈ l ∧ item_evolves q q'.
Proof.
  intros HF Hq. induction HF as [|x y l l' Hxy HF IH]; [by apply not_elem_of_nil in Hq|].
  apply elem_of_cons in Hq as [->|Hq]; [exists x; by split; [left|]|].
  destruct (IH Hq) as (q & ? & ?). exists q. by split; [right|].
Qed.

Lemma Forall2_evolves_elem_l l l' q :
  Forall2 item_evolves l l' → q ∈ l → ∃ q', q' ∈ l' ∧ item_evolves q q'.
Proof.
  intros HF Hq. induction HF as [|x y l l' Hxy HF IH]; [by apply not_elem_of_nil in Hq|].
  apply elem_of_cons in Hq as [->|Hq]; [exists y; by split; [left|]|].
  destruct (IH Hq) as (q' & ? & ?). exists q'. by split; [right|].
Qed.

#[export] Instance queue_grows_preorder : PreOrder queue_grows.
Proof.
  split.
  - intros db. exists (chat_steer_queue db), []. rewrite app_nil_r.
    split_and!; [done|reflexivity|]. intros q q0 Hq. by apply not_elem_of_nil in Hq.
  - intros a b c (o1 & n1 & E1 & F1 & S1) (o2 & n2 & E2 & F2 & S2).
    rewrite E1 in F2. apply Forall2_app_inv_l in F2 as (o2a & o2b & Fa & Fb & ->).
    exists o2a, (o2b ++ n2). rewrite app_assoc. split_and!; [done|by etrans|].
    intros q q0 [Hq|Hq]%elem_of_app Hq0 Hc.
    + destruct (Forall2_evolves_elem _ _ _ Fb Hq) as (q1 & Hq1 & Hev).
      rewrite (ie_seq _ _ Hev). apply S1; [done|done|]. by rewrite <- (ie_chat_id _ _ Hev).
    + destruct (Forall2_evolves_elem_l _ _ _ F1 Hq0) as (q1 & Hq1 & Hev).
      rewrite <- (ie_seq _ _ Hev). apply S2; [done|rewrite E1; set_solver|].
      by rewrite (ie_chat_id _ _ Hev).
Qed.

Definition queue_step (db db' : Db) : Prop := queue_wf db → queue_wf db' ∧ queue_grows db db'.

#[export] Instance queue_step_preorder : PreOrder queue_step.
Proof.
  split; [by intros db H|]. intros a b d H1 H2 Ha.
  destruct (H1 Ha) as [Hb G1]. destruct (H2 Hb) as [Hd G2]. split; [done|by etrans].
Qed.

Lemma queue_step_same db db' :
  chat_steer_queue db' = chat_steer_queue db → queue_step db db'.
Proof.
  intros E [W1 W2 W3]. split; [by split; rewrite E|].
  exists (chat_steer_queue db), []. rewrite app_nil_r. split_and!; [done|reflexivity|].
  intros q q0 Hq. by apply not_elem_of_nil in Hq.
Qed.

#[export] Instance queue_step_frame : JournalFrame queue_step.
Proof.
  split; [apply _|intros db row; by apply queue_step_same|intros db op; by apply queue_step_same].
Qed.

(** ** Updates in place *)

Lemma Forall2_evolves_fmap {B} (f : Q.t → B) l l' :
  (∀ a b, item_evolves a b → f b = f a) → Forall2 item_evolves l l' → f <$> l' = f <$> l.
Proof. intros Hf HF. induction HF; simpl; [done|]. f_equal; auto. Qed.

Lemma queue_wf_evolves l l' db db' :
  chat_steer_queue db = l → chat_steer_queue db' = l' → Forall2 item_evolves l l' →
  queue_wf db → queue_wf db'.
Proof.
  intros <- <- HF [W1 W2 W3].
  split; (rewrite (Forall2_evolves_fmap _ (chat_steer_queue db) (chat_steer_queue db'));
          [done|intros a b []; congruence|done]).
Qed.

Lemma update_queue_step db p f :
  (∀ q, p q = true → item_evolves q (f q)) → queue_step db (update_queue db p f).
Proof.
  intros Hf Hw.
  assert (Forall2 item_evolves (chat_steer_queue db) (update_where p f (chat_steer_queue db))) as HF.
  { unfold update_where. induction (chat_steer_queue db) as [|q l IH]; simpl; constructor; [|done].
    destruct (p q) eqn:Hp; [by apply Hf|reflexivity]. }
  split; [by eapply queue_wf_evolves|].
  exists (update_where p f (chat_steer_queue db)), []. rewrite app_nil_r.
  split_and!; [done|done|]. intros q q0 Hq. by apply not_elem_of_nil in Hq.
Qed.

Lemma next_steer_seq_above db c q :
  q ∈ chat_steer_queue db → Q.chat_id q = c → Q.steer_seq q < next_steer_seq db c.
Proof.
  intros Hq Hc. unfold next_steer_seq.
  destruct (max_opt_ge (Q.steer_seq <$>
    List.filter (λ q, bool_decide (Q.chat_id q = c)) (chat_steer_queue db)) (Q.steer_seq q))
    as (x & -> & Hle); [|simpl; lia].
  apply list_elem_of_fmap_2, list_elem_of_In, filter_In.
  split; [by apply list_elem_of_In|by apply bool_decide_eq_true].
Qed.

Lemma insert_queue_item_spec db q db' :
  insert_queue_item db q = Ok db' →
  chat_steer_queue db' = chat_steer_queue db ++ [q] ∧ chat_runs db' = chat_runs db ∧
  ∀ x, x ∈ chat_steer_queue db → queue_conflict q x = false.
Proof.
  unfold insert_queue_item. destruct (negb _); [done|].
  destruct (existsb _ _) eqn:E; intros [= <-]. split_and!; [done|done|].
  intros x Hx. destruct (queue_conflict q x) eqn:Ec; [|done].
  rewrite <- not_true_iff_false, existsb_exists in E. destruct E. exists x.
  split; [by apply list_elem_of_In|done].
Qed.

Lemma insert_queue_step db q db' :
  insert_queue_item db q = Ok db' →
  (∀ x, x ∈ chat_steer_queue db → Q.chat_id x = Q.chat_id q → Q.steer_seq x < Q.steer_seq q) →
  queue_step db db'.
Proof.
  intros (E & _ & Hfree)%insert_queue_item_spec Hseq [W1 W2 W3].
  assert (∀ x, x ∈ chat_steer_queue db → Q.queue_id x ≠ Q.queue_id q ∧
    (Q.chat_id x = Q.chat_id q → Q.steer_id x ≠ Q.steer_id q)) as Hne.
  { intros x Hx. specialize (Hfree x Hx). unfold queue_conflict in Hfree. bool_simpl.
    rewrite andb_false_iff in *. split; [congruence|]. intros Hc Hs.
    destruct H0 as [?|?]; bool_simpl; congruence. }
  split.
  - split; rewrite E, fmap_app; apply NoDup_app;
      (split_and!; [done| |apply NoDup_singleton]);
      intros y (x & -> & Hx)%list_elem_of_fmap Hy; apply list_elem_of_singleton in Hy;
      destruct (Hne x Hx) as [H1 H2]; [done|..]; injection Hy as Hc Hs; [|by apply H2].
    specialize (Hseq x Hx Hc). lia.
  - exists (chat_steer_queue db), [q]. split_and!; [done|reflexivity|].
    intros q1 q0 ->%list_elem_of_singleton Hq0 Hc. by apply Hseq.
Qed.

(** ** The transactions *)

Ltac solve_item :=
  intros q Hp; unfold is_replaceable, claimable, cancellable in Hp; bool_simpl;
  split; simpl; try reflexivity; try lia;
  intros Hf; unfold claimable in *; bool_simpl;
  repeat match goal with H : _ ∨ _ |- _ => destruct H; bool_simpl end;
  destruct (Q.status q); simpl in *; done.

Lemma accept_body_step t c u s m mode rl qid :
  body_in queue_step (accept_body t c u s m mode rl qid).
Proof.
  intros now db r db' H. unfold accept_body in H.
  destruct (by_steer_id db c s) as [[row|]|]; [by split_matches H| |done].
  destruct (chat_runs db !! t) as [run|]; [|done].
  destruct (_ || _); [done|]. destruct (negb _); [done|].
  set (db1 := if rl && _ then _ else db) in H.
  assert (queue_step db db1) as H1.
  { unfold db1. destruct (rl && _); [|reflexivity]. apply update_queue_step. solve_item. }
  destruct (insert_queue_item db1 _) as [db2|] eqn:E; [|done]. simplify_eq.
  etrans; [exact H1|]. eapply insert_queue_step; [exact E|]. simpl.
  assert (∀ x, x ∈ chat_steer_queue db1 → ∃ x0, x0 ∈ chat_steer_queue db ∧
    Q.chat_id x = Q.chat_id x0 ∧ Q.steer_seq x = Q.steer_seq x0) as Hback.
  { unfold db1. destruct (rl && _); [|by eauto].
    intros x (x0 & Hx0 & ->)%elem_of_update_where. exists x0. by destruct (is_replaceable t x0). }
  intros x Hx Hc. destruct (Hback x Hx) as (x0 & Hx0 & Ec & ->).
  apply next_steer_seq_above; [done|congruence].
Qed.

Lemma claim_body_step t o secs : body_in queue_step (claim_body t o secs).
Proof.
  intros now db r db' H. unfold claim_body in H.
  destruct (first_by_seq _ db) as [cand|]; [|done].
  assert (∀ d, d = update_queue db (λ q, has_id (Q.queue_id cand) q && claimable now q) (λ q,
    q <| Q.status := QClaimed |> <| Q.lease_owner := Some o |>
      <| Q.lease_expires_at := Some (now + seconds (Z.max 1 secs)) |>
      <| Q.claimed_at := Some now |>
      <| Q.delivery_attempt := Q.delivery_attempt q + 1 |> <| Q.updated_at := now |>) →
    queue_step db d) as Hstep.
  { intros d ->. apply update_queue_step. intros q [_ Hp]%andb_true_iff. revert q Hp. solve_item. }
  destruct (affected _ _); [by simplify_eq; apply Hstep|].
  destruct (get_item _ _); simplify_eq; by apply Hstep.
Qed.

Lemma cancel_body_step t s : body_in queue_step (cancel_body t s).
Proof.
  intros now db r db' H. unfold cancel_body in H. simplify_eq. apply update_queue_step. solve_item.
Qed.

Lemma mark_applied_step now db qid o r n db' :
  mark_applied_in_session now db qid o r n = Ok db' → queue_step db db'.
Proof.
  unfold mark_applied_in_session. destruct (affected _ _); intros [= <-].
  apply update_queue_step. solve_item.
Qed.

Lemma consume_step `{NameUuid} now db s root c a n r db' :
  consume_next_handoff_in_session now db s root c a n = Some (r, db') → queue_step db db'.
Proof.
  unfold consume_next_handoff_in_session. intros E.
  destruct (first_by_seq _ db) as [cand|]; [|done].
  destruct (affected _ _); [done|]. destruct (get_item _ _); simplify_eq.
  apply update_queue_step. solve_item.
Qed.

(** ** Clients *)

Section clients.
Context {C V : Type}.

Inductive queue_client (tag : string) : prog C V unit → Prop :=
| queue_accept t c u s m mode rl : queue_client tag (ignore (accept t c u s m mode rl))
| queue_claim t o secs : queue_client tag (ignore (claim_next t o secs))
| queue_cancel t s : queue_client tag (ignore (cancel t s))
| queue_list t : queue_client tag (ignore (list_for_run t))
| queue_journal c : effect_in queue_step c →
    queue_client tag (ignore (atomically (journal_body c))).

Lemma accept_attempts_in n t c u s m mode rl :
  txs_in queue_step (accept_attempts (C:=C) (V:=V) n t c u s m mode rl).
Proof.
  induction n as [|n IH]; cbn [accept_attempts]; [done|].
  apply txs_in_bind; [done|]. intros qid. apply txs_in_bind; [|by intros [r|]].
  apply txs_in_catch.
  - apply txs_in_bind; [|by intros r]. apply txs_in_atomically, accept_body_step.
  - intros []; try exact I.
    + apply txs_in_atomically. intros now db r db' H. unfold lost_race_body in H.
      destruct (by_steer_id db c s) as [[row|]|]; by split_matches H.
    + apply txs_in_bind; [done|]. intros b. by destruct (negb b || _).
Qed.

Lemma claim_rounds_in n t o secs :
  txs_in queue_step (claim_rounds (C:=C) (V:=V) n t o secs).
Proof.
  induction n as [|n IH]; cbn [claim_rounds]; [done|].
  apply txs_in_bind; [apply txs_in_atomically, claim_body_step|]. by intros [].
Qed.

Lemma queue_client_in tag p : queue_client tag p → txs_in queue_step p.
Proof.
  intros Hc. destruct Hc; (apply txs_in_bind; [|by intros []]).
  - unfold accept. destruct (normalize_delivery_mode mode) as [md|]; [|done].
    cbn [lift bind]. destruct (_ || _); [done|]. destruct (_ || _); [done|].
    destruct (nonempty t); [apply accept_attempts_in|done].
  - unfold claim_next. case_bool_decide; [done|]. apply claim_rounds_in.
  - apply txs_in_atomically, cancel_body_step.
  - apply txs_in_atomically. by intros now db r db' [=].
  - apply txs_in_atomically. intros now db r db' [= <- <-]. by apply exec_call_frame; [apply _|].
Qed.
End clients.
