(* ===== verification/SteerQueueThms.v ===== *)
(** * Theorems about queued user input *)

From S2P Require Import Prelude Db RunJournal RunJournalProps RunJournalThms PyString Program.
From S2P Require Import ChatSequencer ChatSequencerProps ChatSequencerThms.
From S2P Require Import SteerQueue SteerQueueProps.
Import SteerQueue.
Module Q := ChatSteerQueueItem.

(** ** Delivery *)

Section worlds.
Context {C V : Type}.

(** C8: a queued message is delivered at most once and never rewritten.  Under
    any interleaving of accepts, claims, cancels and journal calls, with
    arbitrary failures, every item ever accepted is still there with its
    request, an applied, cancelled or superseded item never changes again, and
    per chat both the client's identifier and the number of an item are
    unique. *)
Theorem steer_delivered_once db (w : world C V) :
  queue_wf db → rtc (world_step queue_client) (fresh_world db) w →
  queue_wf (cur (st w)) ∧
  ∀ old q, old ∈ states (st w) → q ∈ chat_steer_queue old →
    ∃ q', q' ∈ chat_steer_queue (cur (st w)) ∧ item_evolves q q' ∧
      ∀ q'', q'' ∈ chat_steer_queue (cur (st w)) → Q.queue_id q'' = Q.queue_id q → q'' = q'.
Proof.
  intros Hw Hr. destruct (fresh_reachable queue_step _ _ _ queue_client_in Hr) as [HR Hall].
  destruct (HR Hw) as [Hw' _]. split; [done|]. intros old q Hold Hq.
  destruct (Hall old Hold) as [H1 H2]. destruct (H1 Hw) as [Hwo _].
  destruct (H2 Hwo) as [_ (o & n & E & HF & _)].
  destruct (Forall2_evolves_elem_l _ _ _ HF Hq) as (q' & Hq' & Hev).
  assert (q' ∈ chat_steer_queue (cur (st w))) as Hin by (rewrite E; set_solver).
  exists q'. split_and!; [done|done|]. intros q'' Hq'' Hid.
  eapply (NoDup_fmap_elem Q.queue_id); [apply Hw'|done|done|].
  by rewrite (ie_queue_id _ _ Hev).
Qed.
End worlds.

(** ** The lease of a claim *)

Inductive queue_op :=
| OpAccept (target chat user steer message : string) (mode : DeliveryMode) (replace : bool)
    (queue_id : string)
| OpClaim (target owner : string) (lease_seconds : Z)
| OpCancel (target steer : string).

Definition commit_or {B} (t : tx Db exn B) (db : Db) : Db :=
  match t with Commit _ db' => db' | _ => db end.

Definition exec_op (now : Z) (op : queue_op) (db : Db) : Db :=
  match op with
  | OpAccept t c u s m md rl qid => commit_or (accept_body t c u s m md rl qid now db) db
  | OpClaim t o secs => commit_or (claim_body t o secs now db) db
  | OpCancel t s => commit_or (cancel_body t s now db) db
  end.

Definition exec_ops (h : list (Z * queue_op)) (db : Db) : Db :=
  foldl (λ d tc, exec_op tc.1 tc.2 d) db h.

(** [q] is claimed by [o] until [e]. *)
Definition held (q : Q.t) (o : string) (e : Z) : Prop :=
  Q.status q = QClaimed ∧ Q.lease_owner q = Some o ∧ Q.lease_expires_at q = Some e.

Lemma held_not_claimable q o e now : held q o e → now < e → claimable now q = false.
Proof.
  intros (Hs & _ & He) Hlt. unfold claimable. rewrite Hs, He. simpl. by apply Z.leb_gt.
Qed.

Lemma update_queue_keeps p f db q :
  q ∈ chat_steer_queue db → p q = false → q ∈ chat_steer_queue (update_queue db p f).
Proof.
  intros Hq Hp. apply elem_of_update_where. exists q. by rewrite Hp.
Qed.

Lemma exec_op_held now op db q o e :
  q ∈ chat_steer_queue db → held q o e → now < e → q ∈ chat_steer_queue (exec_op now op db).
Proof.
  intros Hq Hh Hlt. pose proof (held_not_claimable q o e now Hh Hlt) as Hnc.
  destruct Hh as (Hs & _ & _). destruct op as [t c u s m md rl qid|t o' secs|t s]; simpl.
  - unfold accept_body. destruct (by_steer_id db c s) as [[row|]|]; simpl; [|..|done].
    { by destruct (_idempotent_record_or_conflict _ _ _ _ _). }
    destruct (chat_runs db !! t) as [run|]; [|done].
    destruct (_ || _); [done|]. destruct (negb _); [done|].
    set (db1 := if rl && _ then _ else db).
    assert (q ∈ chat_steer_queue db1) as Hq1.
    { unfold db1. destruct (rl && _); [|done]. apply update_queue_keeps; [done|].
      unfold is_replaceable. rewrite Hs. by rewrite andb_false_r. }
    destruct (insert_queue_item db1 _) as [db2|] eqn:E; [|done]. simpl.
    apply insert_queue_item_spec in E as (-> & _). set_solver.
  - unfold claim_body. destruct (first_by_seq _ db) as [cand|]; [|done].
    destruct (affected _ _); [|destruct (get_item _ _)]; simpl;
      apply update_queue_keeps; rewrite ?Hnc, ?andb_false_r; done.
  - apply update_queue_keeps; [done|]. unfold cancellable. by rewrite Hnc, andb_false_r.
Qed.

Lemma exec_ops_held h : ∀ db q o e,
  q ∈ chat_steer_queue db → held q o e → Forall (λ tc, tc.1 < e) h →
  q ∈ chat_steer_queue (exec_ops h db).
Proof.
  induction h as [|[t op] h IH]; intros db q o e Hq Hh Hf; [done|].
  apply Forall_cons in Hf as [Ht Hf]. simpl. eapply IH; [|done|done].
  by eapply exec_op_held.
Qed.

Lemma exec_op_step now op db : queue_step db (exec_op now op db).
Proof.
  destruct op as [t c u s m md rl qid|t o' secs|t s]; simpl.
  - destruct (accept_body t c u s m md rl qid now db) eqn:E; simpl; try reflexivity.
    by eapply accept_body_step.
  - destruct (claim_body t o' secs now db) eqn:E; simpl; try reflexivity.
    by eapply claim_body_step.
  - by eapply (cancel_body_step t s now db).
Qed.

Lemma exec_ops_step h : ∀ db, queue_step db (exec_ops h db).
Proof.
  induction h as [|[t op] h IH]; intros db; [reflexivity|]. simpl.
  etrans; [apply exec_op_step|apply IH].
Qed.

Lemma get_item_some db qid q : get_item db qid = Some q →
  q ∈ chat_steer_queue db ∧ Q.queue_id q = qid.
Proof.
  intros [Hin Hp]%find_some. bool_simpl. split; [by apply list_elem_of_In|done].
Qed.

Lemma first_by_seq_some p db q : first_by_seq p db = Some q → q ∈ chat_steer_queue db ∧ p q = true.
Proof.
  unfold first_by_seq. destruct (order_by _ _) as [|q' l] eqn:E; [done|]. intros [= ->].
  assert (q ∈ List.filter p (chat_steer_queue db)) as Hin.
  { eapply elem_of_order_by. rewrite E. left. }
  apply list_elem_of_In, filter_In in Hin as [Hin Hp]. split; [by apply list_elem_of_In|done].
Qed.

(** The first item has the least number of those that match. *)
Lemma first_by_seq_least p db q x :
  first_by_seq p db = Some q → x ∈ chat_steer_queue db → p x = true →
  Q.steer_seq q ≤ Q.steer_seq x.
Proof.
  unfold first_by_seq. intros E Hx Hp.
  assert (x ∈ order_by seq_leb (List.filter p (chat_steer_queue db))) as Hin.
  { apply elem_of_order_by, list_elem_of_In, filter_In. split; [by apply list_elem_of_In|done]. }
  assert (StronglySorted (λ a b, seq_leb a b = true)
            (order_by seq_leb (List.filter p (chat_steer_queue db)))) as Hs.
  { apply order_by_sorted; unfold seq_leb; intros *; lia. }
  destruct (order_by _ _) as [|q0 l]; [done|]. injection E as ->.
  apply elem_of_cons in Hin as [->|Hin]; [done|].
  apply StronglySorted_inv in Hs as [_ Hs]. rewrite Forall_forall in Hs.
  specialize (Hs x Hin). unfold seq_leb in Hs. lia.
Qed.

Lemma first_by_seq_none p db x :
  first_by_seq p db = None → x ∈ chat_steer_queue db → p x = false.
Proof.
  unfold first_by_seq. intros E Hx. destruct (p x) eqn:Hp; [exfalso|done].
  assert (x ∈ order_by seq_leb (List.filter p (chat_steer_queue db))) as Hin.
  { apply elem_of_order_by, list_elem_of_In, filter_In. split; [by apply list_elem_of_In|done]. }
  destruct (order_by _ _); [by apply not_elem_of_nil in Hin|done].
Qed.

(** What a successful claim did. *)
Lemma claim_body_claimed t o secs now db r db1 :
  queue_wf db → claim_body t o secs now db = Commit (ClaimedItem r) db1 →
  ∃ q q', q ∈ chat_steer_queue db ∧ claimable now q = true ∧ q' ∈ chat_steer_queue db1 ∧
    held q' o (now + seconds (Z.max 1 secs)) ∧ Q.queue_id q' = Q.queue_id q ∧ r = _record q'.
Proof.
  intros Hw H. unfold claim_body in H. destruct (first_by_seq _ db) as [cand|] eqn:Ec; [|done].
  apply first_by_seq_some in Ec as [Hin [_ Hcl]%andb_true_iff].
  destruct (affected _ _); [done|].
  destruct (get_item _ (Q.queue_id cand)) as [q'|] eqn:Eg; simplify_eq.
  apply get_item_some in Eg as [Hq' Hid].
  exists cand, q'. split_and!; [done|done|done| |done|done].
  apply elem_of_update_where in Hq' as (q0 & Hq0 & ->).
  assert (Q.queue_id q0 = Q.queue_id cand) as Hid0 by (by destruct (_ && _)).
  assert (q0 = cand) as -> by (eapply (NoDup_fmap_elem Q.queue_id); [apply Hw|done|done|done]).
  unfold has_id. by rewrite bool_decide_true, Hcl.
Qed.

Lemma mark_applied_owner now db qid o r n q :
  q ∈ chat_steer_queue db → Q.queue_id q = qid → Q.status q = QClaimed → Q.lease_owner q = Some o →
  ∃ db' q', mark_applied_in_session now db qid o r n = Ok db' ∧ q' ∈ chat_steer_queue db' ∧
    Q.queue_id q' = qid ∧ Q.status q' = QApplied ∧ Q.applied_run_id q' = Some r ∧
    Q.applied_operation_seq q' = Some n.
Proof.
  intros Hq Hid Hs Ho. unfold mark_applied_in_session.
  set (p := λ q0, has_id qid q0 && bool_decide (Q.status q0 = QClaimed) && sql_eq (Q.lease_owner q0) o).
  assert (p q = true) as Hp.
  { unfold p, has_id. rewrite Hid, Hs, Ho. simpl. by rewrite !bool_decide_true. }
  destruct (affected p _) as [|k] eqn:E.
  - exfalso. unfold affected in E. apply length_zero_iff_nil in E.
    assert (q ∈ List.filter p (chat_steer_queue db)) as Hin.
    { apply list_elem_of_In, filter_In. split; [by apply list_elem_of_In|done]. }
    rewrite E in Hin. by apply not_elem_of_nil in Hin.
  - eexists _, _. split; [done|]. split; [|].
    + apply elem_of_update_where. exists q. split; [done|]. rewrite Hp. reflexivity.
    + by split_and!.
Qed.

Lemma mark_applied_foreign now db qid o o' r n q :
  queue_wf db → q ∈ chat_steer_queue db → Q.queue_id q = qid → Q.lease_owner q = Some o → o' ≠ o →
  mark_applied_in_session now db qid o' r n = Err (SteerClaimLost qid).
Proof.
  intros Hw Hq Hid Ho Hne. unfold mark_applied_in_session.
  set (p := λ q0, has_id qid q0 && bool_decide (Q.status q0 = QClaimed) && sql_eq (Q.lease_owner q0) o').
  destruct (affected p _) as [|k] eqn:E; [done|]. exfalso. unfold affected in E.
  destruct (List.filter p (chat_steer_queue db)) as [|q0 l] eqn:El; [done|].
  assert (q0 ∈ List.filter p (chat_steer_queue db)) as Hin by (rewrite El; left).
  apply list_elem_of_In, filter_In in Hin as [Hin Hp]. unfold p, has_id in Hp. bool_simpl.
  apply list_elem_of_In in Hin. apply sql_eq_true in H0.
  assert (q0 = q) as -> by (eapply (NoDup_fmap_elem Q.queue_id); [apply Hw|done|done|congruence]).
  congruence.
Qed.

(** a claim is exclusive until its lease expires.  After [claim_next] gave
    an item to a worker, whatever accepts, claims and cancels follow before the
    expiry, the worker can still apply the item, nobody else can, and no other
    claim before the expiry returns it. *)
Theorem steer_claim_exclusive t o secs now db r db1 h :
  queue_wf db → claim_body t o secs now db = Commit (ClaimedItem r) db1 →
  Forall (λ tc, tc.1 < now + seconds (Z.max 1 secs)) h →
  let db2 := exec_ops h db1 in
  (∀ now' run n, ∃ db3 q, mark_applied_in_session now' db2 (sr_queue_id r) o run n = Ok db3 ∧
     q ∈ chat_steer_queue db3 ∧ Q.queue_id q = sr_queue_id r ∧ Q.status q = QApplied) ∧
  (∀ now' o' run n, o' ≠ o →
     mark_applied_in_session now' db2 (sr_queue_id r) o' run n = Err (SteerClaimLost (sr_queue_id r))) ∧
  (∀ t' o' secs' now' r' db3, now' < now + seconds (Z.max 1 secs) →
     claim_body t' o' secs' now' db2 = Commit (ClaimedItem r') db3 → sr_queue_id r' ≠ sr_queue_id r).
Proof.
  intros Hw Hc Hf db2.
  destruct (claim_body_claimed _ _ _ _ _ _ _ Hw Hc) as (q0 & q & _ & _ & Hq & Hh & _ & ->).
  destruct (claim_body_step _ _ _ _ _ _ _ Hc Hw) as [Hw1 _].
  destruct (exec_ops_step h db1 Hw1) as [Hw2 _]. fold db2 in Hw2.
  pose proof (exec_ops_held h db1 q _ _ Hq Hh Hf) as Hq2. fold db2 in Hq2.
  pose proof Hh as (Hs & Ho & He). simpl. split_and!.
  - intros now' run n.
    destruct (mark_applied_owner now' db2 (Q.queue_id q) o run n q) as (db3 & q' & ? & ? & ? & ? & _);
      [done..|]. eauto 10.
  - intros now' o' run n Hne. by eapply mark_applied_foreign.
  - intros t' o' secs' now' r' db3 Hlt Hc' Hid.
    destruct (claim_body_claimed _ _ _ _ _ _ _ Hw2 Hc') as (q1 & q1' & Hq1 & Hcl & _ & _ & Hid1 & ->).
    simpl in Hid. assert (q1 = q) as ->.
    { eapply (NoDup_fmap_elem Q.queue_id); [apply Hw2|done|done|congruence]. }
    rewrite (held_not_claimable q o _ now' Hh Hlt) in Hcl. done.
Qed.

(** ** Accepting *)

(** The items of (chat, steer id): at most one. *)
Lemma by_steer_id_ok db c s : queue_wf db → ∃ x, by_steer_id db c s = Ok x.
Proof.
  intros [_ _ W3]. unfold by_steer_id.
  destruct (List.filter _ (chat_steer_queue db)) as [|a [|b l]] eqn:E; simpl; [eauto|eauto|exfalso].
  set (p := λ q, bool_decide (Q.chat_id q = c) && bool_decide (Q.steer_id q = s)) in E.
  assert (NoDup (List.filter p (chat_steer_queue db))) as Hnd.
  { apply NoDup_ListNoDup, List.NoDup_filter, NoDup_ListNoDup.
    by eapply NoDup_fmap_1. }
  rewrite E in Hnd. apply NoDup_cons in Hnd as [Hn _].
  assert (∀ q, q ∈ a :: b :: l → q ∈ chat_steer_queue db ∧ Q.chat_id q = c ∧ Q.steer_id q = s) as Hin.
  { intros q Hq. rewrite <- E in Hq. apply list_elem_of_In, filter_In in Hq as [Hq Hp].
    unfold p in Hp. bool_simpl. split_and!; [by apply list_elem_of_In|done|done]. }
  destruct (Hin a) as (Ha & Hac & Has); [set_solver|].
  destruct (Hin b) as (Hb & Hbc & Hbs); [set_solver|].
  apply Hn. replace b with a; [set_solver|].
  eapply (NoDup_fmap_elem (λ q, (Q.chat_id q, Q.steer_id q))); [done|done|done|congruence].
Qed.

Lemma by_steer_id_none db c s q :
  by_steer_id db c s = Ok None → q ∈ chat_steer_queue db → Q.chat_id q = c → Q.steer_id q ≠ s.
Proof.
  unfold by_steer_id. intros E Hq Hc Hs.
  destruct (List.filter _ (chat_steer_queue db)) as [|a [|b l]] eqn:El; [|done..].
  assert (q ∈ ([] : list Q.t)) as Hin; [|by apply not_elem_of_nil in Hin]. rewrite <- El.
  apply list_elem_of_In, filter_In. split; [by apply list_elem_of_In|].
  by rewrite !bool_decide_true.
Qed.

(** The queue after an accept: with [replace], the waiting steers of the run
    give way to the new one. *)
Definition superseded (now : Z) (t qid : string) (replace : bool) (q : Q.t) : Q.t :=
  if replace && is_replaceable t q
  then q <| Q.status := QSuperseded |> <| Q.superseded_by := Some qid |> <| Q.updated_at := now |>
  else q.

Definition accepted_item (now : Z) (db : Db) (run : ChatRun.t) (t c u s m : string)
    (mode : DeliveryMode) (qid : string) : Q.t :=
  Q.mk qid s c u (Some t) (next_steer_seq db c) (Some (ChatRun.operation_seq run + 1)) mode
    QAccepted m None None 0 None None None None now None None None now.

Lemma accept_body_new now db t c u s m mode rl qid run :
  queue_wf db → by_steer_id db c s = Ok None → (∀ q, q ∈ chat_steer_queue db → Q.queue_id q ≠ qid) →
  (∀ q, q ∈ chat_steer_queue db → 0 < Q.steer_seq q) →
  (1 ≤ str_len m)%nat → Z.of_nat (str_len m) ≤ 10000 →
  chat_runs db !! t = Some run → ChatRun.chat_id run = c → ChatRun.user_id run = u →
  is_live (ChatRun.status run) = true →
  ∃ db', accept_body t c u s m mode rl qid now db =
    Commit (_record (accepted_item now db run t c u s m mode qid)) db' ∧
    chat_steer_queue db' =
      (superseded now t qid (rl && bool_decide (mode = Steer)) <$> chat_steer_queue db)
      ++ [accepted_item now db run t c u s m mode qid].
Proof.
  intros Hw Hnone Hqid Hpos Hlen1 Hlen2 Hrun Hc Hu Hl. unfold accept_body. rewrite Hnone, Hrun.
  rewrite !bool_decide_true, Hl by done. simpl.
  set (db1 := if rl && _ then _ else db).
  assert (chat_steer_queue db1 =
    superseded now t qid (rl && bool_decide (mode = Steer)) <$> chat_steer_queue db) as Eq.
  { unfold db1, superseded. destruct (rl && _); simpl; [done|]. by rewrite list_fmap_id. }
  assert (∀ x, x ∈ chat_steer_queue db1 → ∃ x0, x0 ∈ chat_steer_queue db ∧
    Q.queue_id x = Q.queue_id x0 ∧ Q.chat_id x = Q.chat_id x0 ∧ Q.steer_id x = Q.steer_id x0 ∧
    Q.steer_seq x = Q.steer_seq x0) as Hback.
  { rewrite Eq. intros x (x0 & -> & Hx0)%list_elem_of_fmap. exists x0. unfold superseded.
    by destruct (_ && is_replaceable t x0). }
  assert (0 < next_steer_seq db c) as Hseq.
  { unfold next_steer_seq. destruct (max_opt _) as [x|] eqn:Em; simpl; [|lia].
    apply max_opt_elem, list_elem_of_fmap in Em as (q & -> & Hq).
    apply list_elem_of_In, filter_In in Hq as [Hq _]. apply list_elem_of_In in Hq.
    specialize (Hpos q Hq). lia. }
  unfold insert_queue_item, queue_allowed. simpl.
  unfold str_len in *. rewrite (proj2 (Z.ltb_lt _ _) Hseq), !(proj2 (Z.leb_le _ _)) by lia. simpl.
  destruct (existsb _ _) eqn:E.
  - exfalso. apply existsb_exists in E as (x & Hx & Hconf). apply list_elem_of_In in Hx.
    destruct (Hback x Hx) as (x0 & Hx0 & E1 & E2 & E3 & E4). unfold queue_conflict in Hconf.
    simpl in Hconf. rewrite E1, E2, E3, E4 in Hconf. bool_simpl.
    destruct Hconf as [Hconf|Hconf]; bool_simpl; [by eapply (Hqid x0)|].
    destruct H0 as [Hs|Hs]; bool_simpl.
    + by eapply (by_steer_id_none db c s x0).
    + pose proof (next_steer_seq_above db c x0 Hx0 (eq_sym H)). lia.
  - eexists. split; [done|]. simpl. by rewrite Eq.
Qed.

Ltac decide_request H :=
  match goal with
  | |- context [bool_decide (?A ∧ ?B)] => destruct (bool_decide_reflect (A ∧ B)) as [H|H]
  end.

Section accept_outcome.
Context {C V : Type} (now : Z) (answer : C → result exn V) (lost : bool).
Context (db : Db) (calls : list C) (ids : list string) (qid : string).

(** accepting is idempotent per (chat, steer id).  With valid arguments, a
    repeated request returns the stored record and writes nothing, the same
    identifier with another message, mode, run or user is refused, a run that
    is not the caller's live run of this chat is refused, and otherwise exactly
    one item is appended with the next number of the chat, superseding the
    steers still waiting for the run when it replaces them. *)
Theorem accept_outcome t c u s m mode_str mode rl :
  queue_wf db → (∀ q, q ∈ chat_steer_queue db → Q.queue_id q ≠ "steerq_" +:+ qid) →
  (∀ q, q ∈ chat_steer_queue db → 0 < Q.steer_seq q) →
  normalize_delivery_mode mode_str = Ok mode → t ≠ "" →
  1 ≤ Z.of_nat (str_len (strip m)) ≤ 10000 → 1 ≤ Z.of_nat (str_len s) ≤ 64 →
  let out := run now answer lost (accept (Some t) c u s m mode_str rl)
               (mkMachine db calls [] (qid :: ids)) in
  match by_steer_id db c s with
  | Ok (Some row) =>
      m_db out.2 = db ∧
      if bool_decide (nonempty (Q.target_run_id row) = Some t ∧ Q.user_id row = u ∧
                      Q.delivery_mode row = mode ∧ Q.message row = strip m)
      then out.1 = Ok (_record row) else ∃ msg, out.1 = Err (SteerQueueConflict msg)
  | Ok None =>
      match chat_runs db !! t with
      | Some run =>
          if bool_decide (ChatRun.chat_id run = c ∧ ChatRun.user_id run = u)
             && is_live (ChatRun.status run)
          then
            let item := accepted_item now db run t c u s (strip m) mode ("steerq_" +:+ qid) in
            out.1 = Ok (_record item) ∧
            chat_steer_queue (m_db out.2) =
              (superseded now t ("steerq_" +:+ qid) (rl && bool_decide (mode = Steer))
                 <$> chat_steer_queue db) ++ [item]
          else m_db out.2 = db ∧ ∃ msg, out.1 = Err (SteerQueueConflict msg)
      | None => m_db out.2 = db ∧ ∃ msg, out.1 = Err (SteerQueueConflict msg)
      end
  | Err _ => False
  end.
Proof.
  intros Hw Hqid Hpos Hmode Ht Hm Hs out.
  assert (out = run now answer lost (accept_attempts 8 t c u s (strip m) mode rl)
            (mkMachine db calls [] (qid :: ids))) as ->.
  { unfold out, accept. rewrite Hmode. cbn [lift bind].
    assert (strip m ≠ "") by (intros E; rewrite E in Hm; simpl in Hm; lia).
    assert (s ≠ "") by (intros ->; simpl in Hs; lia).
    rewrite !bool_decide_false by done. unfold nonempty. rewrite bool_decide_false by done.
    destruct (Z.ltb_spec 10000 (Z.of_nat (str_len (strip m)))); [lia|].
    destruct (Z.ltb_spec 64 (Z.of_nat (str_len s))); [lia|]. done. }
  cbn [accept_attempts]. rewrite run_bind. cbn [run uuid hd tl m_ids m_db m_calls m_faults].
  rewrite run_bind, run_catch, run_bind. cbn [run atomically hd m_faults m_db].
  destruct (by_steer_id_ok db c s Hw) as [x Ex]. rewrite Ex. destruct x as [row|].
  - unfold accept_body. rewrite Ex. unfold _idempotent_record_or_conflict.
    decide_request Hsame.
    + destruct Hsame as (H1 & H2 & H3 & H4). rewrite !bool_decide_true by done. done.
    + destruct (_ && _) eqn:Eb; [exfalso; bool_simpl; naive_solver|]. cbn. eauto.
  - destruct (chat_runs db !! t) as [rn|] eqn:Hrun.
    2: { unfold accept_body. rewrite Ex, Hrun. cbn. eauto. }
    decide_request Hown.
    + destruct Hown as [Hc Hu]. destruct (is_live (ChatRun.status rn)) eqn:Hl; simpl.
      * destruct (accept_body_new now db t c u s (strip m) mode rl ("steerq_" +:+ qid) rn)
          as (db' & E & Eq); [done|done|done|done|lia|lia|done|done|done|done|].
        rewrite E. cbn. done.
      * unfold accept_body. rewrite Ex, Hrun, Hl. rewrite !bool_decide_true by done. cbn. eauto.
    + simpl. unfold accept_body. rewrite Ex, Hrun.
      destruct (_ || _) eqn:Eo; [cbn; eauto|]. exfalso. bool_simpl. naive_solver.
Qed.
End accept_outcome.

(** ** A concrete queue: the live run of [demo_busy] is steered *)

Section demo.
Notation steer_demo db ids :=
  (run 40 no_answer false (accept (Some "run_aaaa") "c1" "u1" "s1" " look here " "steer" true)
     (mkMachine db [] [] ids)).
Definition demo_steered : Db := m_db (steer_demo demo_busy ["1111"]).2.
Definition demo_item : Q.t :=
  Q.mk "steerq_1111" "s1" "c1" "u1" (Some "run_aaaa") 1 (Some 1) Steer QAccepted "look here"
    None None 0 None None None None 40 None None None 40.

Lemma no_queue_wf db : chat_steer_queue db = [] → queue_wf db.
Proof. intros E. split; rewrite E; constructor. Qed.

Lemma demo_steered_world : ∃ w : world Empty_set unit,
  rtc (world_step queue_client) (fresh_world demo_busy) w ∧ cur (st w) = demo_steered.
Proof.
  destruct (spawned queue_client 40 no_answer false "t1"
    (ignore (accept (Some "run_aaaa") "c1" "u1" "s1" " look here " "steer" true)) demo_busy
    ["1111"]) as (w & Hr & Hc); [constructor|].
  exists w. split; [done|]. rewrite Hc. unfold demo_steered. apply run_ignore.
Qed.

Lemma demo_steered_queue : chat_steer_queue demo_steered = [demo_item].
Proof. vm_compute. reflexivity. Qed.

Lemma demo_steered_wf : queue_wf demo_steered.
Proof.
  destruct demo_steered_world as (w & Hr & <-).
  destruct (fresh_reachable queue_step _ _ _ queue_client_in Hr) as [HR _].
  apply HR, no_queue_wf. vm_compute. reflexivity.
Qed.

Lemma steer_delivered_once_witness : ∃ w : world Empty_set unit,
  rtc (world_step queue_client) (fresh_world demo_busy) w ∧
  ∃ q', q' ∈ chat_steer_queue (cur (st w)) ∧ item_evolves demo_item q'.
Proof.
  destruct demo_steered_world as (w & Hr & Hc). exists w. split; [exact Hr|].
  destruct (proj2 (steer_delivered_once demo_busy w
    (no_queue_wf demo_busy ltac:(vm_compute; reflexivity)) Hr) (cur (st w)) demo_item)
    as (q' & Hq' & He & _).
  - left.
  - rewrite Hc, demo_steered_queue. left.
  - exists q'. split; [exact Hq'|exact He].
Defined.

Definition demo_claimed : Db := commit_or (claim_body "run_aaaa" "w1" 30 50 demo_steered) demo_steered.
Definition demo_claim_record : SteerRecord :=
  mkSteerRecord "steerq_1111" "s1" "c1" "u1" (Some "run_aaaa") 1 (Some 1) Steer QClaimed
    "look here" (Some "w1") (Some (50 + seconds 30)) 1 None None None None.

Lemma demo_claim_commits :
  claim_body "run_aaaa" "w1" 30 50 demo_steered = Commit (ClaimedItem demo_claim_record) demo_claimed.
Proof. vm_compute. reflexivity. Qed.

Definition rival_ops : list (Z * queue_op) :=
  [(60, OpClaim "run_aaaa" "w2" 30); (70, OpCancel "run_aaaa" "s1");
   (80, OpAccept "run_aaaa" "c1" "u1" "s2" "again" Steer true "steerq_2222")].

Lemma steer_claim_exclusive_witness :
  mark_applied_in_session 90 (exec_ops rival_ops demo_claimed) "steerq_1111" "w2" "run_aaaa" 1
    = Err (SteerClaimLost "steerq_1111").
Proof.
  apply (proj1 (proj2 (steer_claim_exclusive "run_aaaa" "w1" 30 50 demo_steered demo_claim_record
    demo_claimed rival_ops demo_steered_wf demo_claim_commits
    ltac:(repeat constructor))) 90 "w2" "run_aaaa" 1).
  discriminate.
Defined.

(** The same request again, after it was accepted. *)
Lemma accept_outcome_witness :
  (steer_demo demo_steered ["2222"]).1 = Ok (_record demo_item) ∧
  m_db (steer_demo demo_steered ["2222"]).2 = demo_steered.
Proof.
  assert (∀ q, q ∈ chat_steer_queue demo_steered → q = demo_item) as Hq.
  { intros q Hq. rewrite demo_steered_queue in Hq. by apply list_elem_of_singleton in Hq. }
  pose proof (accept_outcome 40 no_answer false demo_steered [] [] "2222"
    "run_aaaa" "c1" "u1" "s1" " look here " "steer" Steer true demo_steered_wf) as Hout.
  replace (by_steer_id demo_steered "c1" "s1") with (Ok (E:=exn) (Some demo_item)) in Hout
    by (vm_compute; reflexivity).
  rewrite bool_decide_true in Hout by (vm_compute; done).
  destruct Hout as [Hdb Hok]; [|..|split; [exact Hok|exact Hdb]].
  - intros q Hin. rewrite (Hq q Hin). discriminate.
  - intros q Hin. rewrite (Hq q Hin). reflexivity.
  - reflexivity.
  - discriminate.
  - vm_compute. split; discriminate.
  - vm_compute. split; discriminate.
Defined.
End demo.
