(* ===== verification/QueuedHandoffThms.v ===== *)
(** * Theorems about the callbacks of the journal *)

From S2P Require Import Prelude Db RunJournal RunJournalProps RunJournalThms PyString ToolPolicies.
From S2P Require Import Program ChatSequencer ChatSequencerProps ChatSequencerThms.
From S2P Require Import SteerQueue SteerQueueProps SteerQueueThms Artifacts QueuedHandoff.
Import ChatRun RunJournal SteerQueue MessageStore Artifacts QueuedHandoff.

(** ** What the message writer leaves alone *)

(** Runs, operations and the queue are untouched. *)
Definition only_messages (db db' : Db) : Prop :=
  chat_runs db' = chat_runs db ∧ chat_run_operations db' = chat_run_operations db ∧
  chat_steer_queue db' = chat_steer_queue db.

#[export] Instance only_messages_preorder : PreOrder only_messages.
Proof.
  split; [by intros db|]. intros a b c (?&?&?) (?&?&?). split_and!; congruence.
Qed.

Lemma reserve_only_messages now db c n u s db' :
  reserve_chat_sequences now db c n u = Ok (s, db') → only_messages db db'.
Proof. unfold reserve_chat_sequences. intros H. split_matches H; by split_and!. Qed.

Lemma insert_message_only db m db' : insert_message db m = Ok db' → only_messages db db'.
Proof. by intros [-> _]%insert_message_spec. Qed.

Lemma live_session_only db c f :
  only_messages db (match live_session db c with Some s => put_session db c (f s) | None => db end).
Proof. by destruct (live_session db c). Qed.

Lemma upsert_only_messages now db c role ct m md th ex seq db' :
  upsert_message now db c role ct m md th ex seq = Ok db' → only_messages db db'.
Proof.
  unfold upsert_message. destruct (ChatSequencer.get_message db m).
  - destruct (match ex with Some _ => _ | None => _ end) as [ex'|]; [|done].
    intros [= <-]. etrans; [|apply live_session_only]. by split_and!.
  - unfold add_message, create. intros H. destruct (clamp_segments _ _) as [extra|]; [|done].
    destruct (match seq with Some _ => _ | None => _ end) as [[s db1]|] eqn:E; [|done].
    destruct (insert_message db1 _) as [db2|] eqn:Ei; simplify_eq.
    etrans; [|etrans; [by eapply insert_message_only|apply live_session_only]].
    destruct seq; [by simplify_eq|by eapply reserve_only_messages].
Qed.

Lemma stage_only_messages `{ArtifactStore} db u c refs folder db' :
  stage_artifacts db u c refs folder = Ok db' → only_messages db db'.
Proof. by intros ->%stage_artifacts_only. Qed.

(** The message and the files of [_commit_output], before the hand-off. *)
Lemma commit_output_split `{Host, NameUuid, ArtifactStore} load_history now o db db' :
  _commit_output load_history now o db = Ok db' →
  ∃ db1 res, only_messages db db1 ∧
    _commit_queued_handoff_in_session load_history now (out_run_id o) (out_chat_id o)
      (out_user_id o) (out_context o) (out_model o) db1 = Ok (res, db').
Proof.
  unfold _commit_output. intros E.
  destruct (upsert_message _ _ _ _ _ _ _ _ _ _) as [db1|] eqn:E1; [|done].
  apply upsert_only_messages in E1.
  destruct (stage_artifacts _ _ _ _ _) as [db2|] eqn:E2; [|done].
  apply stage_only_messages in E2.
  destruct (_commit_queued_handoff_in_session _ _ _ _ _ _ _ _) as [[res db3]|] eqn:E3; [|done].
  simplify_eq. exists db2, res. split; [by etrans|done].
Qed.

(** ** The hand-off *)

Section handoff.
Context `{Host} `{NameUuid} `{ArtifactStore} (load_history : Db → string → list json).

Definition next_run (q : Q.t) : string :=
  "run_" +:+ take_str 16 (uuid5_hex ("steer-handoff:" +:+ Q.queue_id q)).

Lemma next_run_nonempty q : next_run q ≠ "".
Proof. done. Qed.

(** [q] became [q'] where it stood, applied to its successor run; every other
    item is as it was. *)
Definition applied_in_place (db db' : Db) (q : Q.t) : Prop :=
  ∃ l1 q' l2, chat_steer_queue db = l1 ++ q :: l2 ∧ chat_steer_queue db' = l1 ++ q' :: l2 ∧
    item_evolves q q' ∧ Q.status q' = QApplied ∧ Q.applied_run_id q' = Some (next_run q).

Lemma consume_spec now db s root c n r db' :
  queue_wf db → consume_next_handoff_in_session now db s root c None n = Some (r, db') →
  ∃ q, first_by_seq (handoff_candidate s (opt_str_or root s) c) db = Some q ∧
    applied_in_place db db' q ∧ sr_applied_run_id r = Some (next_run q) ∧
    chat_runs db' = chat_runs db ∧ chat_run_operations db' = chat_run_operations db.
Proof.
  intros Hw E. unfold consume_next_handoff_in_session in E.
  destruct (first_by_seq _ db) as [q|] eqn:Ef; [|done].
  destruct (affected _ _); [done|]. destruct (get_item _ _) as [q'|] eqn:Eg; simplify_eq.
  apply get_item_some in Eg as [Hq' Hid]. exists q.
  pose proof (first_by_seq_some _ _ _ Ef) as [Hq Hc]. unfold handoff_candidate in Hc. bool_simpl.
  apply list_elem_of_split in Hq as (l1 & l2 & Hl). pose proof (qw_ids _ Hw) as Hnd.
  simpl in Hq'. rewrite Hl in Hq', Hnd.
  rewrite fmap_app, fmap_cons, NoDup_app, NoDup_cons in Hnd. destruct Hnd as (_ & Hn1 & Hn2 & _).
  assert (∀ y, y ∈ l1 ++ l2 → Q.queue_id y ≠ Q.queue_id q) as Hne.
  { intros y [Hy|Hy]%elem_of_app E; apply (list_elem_of_fmap_2 Q.queue_id) in Hy; rewrite E in Hy.
    - apply (Hn1 _ Hy). left.
    - done. }
  set (p := λ q0, has_id (Q.queue_id q) q0 && bool_decide (Q.status q0 = QAccepted)) in *.
  assert (p q = true) as Hp by (unfold p, has_id; by rewrite !bool_decide_true).
  assert (∀ y, y ∈ l1 ++ l2 → p y = false) as Hf.
  { intros y Hy. unfold p, has_id. by rewrite bool_decide_false by auto. }
  rewrite update_where_single in Hq' by done.
  assert (q' ∉ l1 ++ l2) as Hq1 by (intros Hin; by apply (Hne q')).
  rewrite elem_of_app in Hq1. apply elem_of_app in Hq' as [?|[->|?]%elem_of_cons]; [tauto| |tauto].
  split_and!; [done| |done..]. eexists l1, _, l2. split; [done|]. split.
  { simpl. rewrite Hl. by apply update_where_single. }
  split_and!; [|done..]. split; simpl; try done; [lia|].
  intros Hfin. by destruct (Q.status q).
Qed.

(** Nothing is consumed exactly when nothing waits. *)
Lemma consume_none now db s root c n :
  consume_next_handoff_in_session now db s root c None n = None →
  first_by_seq (handoff_candidate s (opt_str_or root s) c) db = None.
Proof.
  unfold consume_next_handoff_in_session. intros E.
  destruct (first_by_seq _ db) as [q|] eqn:Ef; [exfalso|done].
  pose proof (first_by_seq_some _ _ _ Ef) as [Hq Hc]. unfold handoff_candidate in Hc. bool_simpl.
  set (p := λ q0, has_id (Q.queue_id q) q0 && bool_decide (Q.status q0 = QAccepted)) in E.
  assert (p q = true) as Hp by (unfold p, has_id; by rewrite !bool_decide_true).
  destruct (affected p _) eqn:Ea.
  - unfold affected in Ea. apply length_zero_iff_nil in Ea.
    assert (q ∈ List.filter p (chat_steer_queue db)) as Hin.
    { apply list_elem_of_In, filter_In. split; [by apply list_elem_of_In|done]. }
    rewrite Ea in Hin. by apply not_elem_of_nil in Hin.
  - destruct (get_item _ _) eqn:Eg; [done|]. unfold get_item in Eg.
    eapply find_none in Eg; [|apply list_elem_of_In, elem_of_update_where; exists q; by split].
    rewrite Hp in Eg. simpl in Eg. by rewrite bool_decide_true in Eg.
Qed.

(** The rows a hand-off stages. *)
Record handed_over (db db' : Db) (c : string) (q : Q.t) : Prop := {
  ho_run : ∃ succ, run_id succ = next_run q ∧ chat_id succ = c ∧ status succ = Pending ∧
    writer_slot succ = Some "main" ∧ operation_seq succ = 0 ∧
    insert_run db succ = Ok (put_run db succ) ∧
    chat_runs db' = <[next_run q := succ]> (chat_runs db);
  ho_ops : chat_run_operations db' = chat_run_operations db;
  ho_item : applied_in_place db db' q
}.

Lemma insert_run_same db db1 row db2 :
  chat_runs db1 = chat_runs db → insert_run db1 row = Ok db2 →
  insert_run db row = Ok (put_run db row) ∧ chat_runs db2 = <[run_id row := row]> (chat_runs db) ∧
  chat_run_operations db2 = chat_run_operations db1 ∧ chat_steer_queue db2 = chat_steer_queue db1.
Proof.
  unfold insert_run. intros ->. destruct (negb (slot_allowed _)); [done|].
  destruct (negb (is_null _)); [done|]. destruct (existsb _ _); [done|]. intros [= <-].
  by split_and!.
Qed.

Lemma handoff_spec now s c u ctx md db res db' :
  queue_wf db → _commit_queued_handoff_in_session load_history now s c u ctx md db = Ok (res, db') →
  chat_runs db !! s ≠ None →
  match first_by_seq (handoff_candidate s (opt_str_or (Some (root_of ctx s)) s) c) db with
  | None => db' = db
  | Some q => handed_over db db' c q
  end.
Proof.
  intros Hw E Hs. unfold _commit_queued_handoff_in_session in E.
  destruct (chat_runs db !! s) as [source|]; [|done].
  destruct (consume_next_handoff_in_session _ _ _ _ _ _ _) as [[r db1]|] eqn:Ec.
  2: { apply consume_none in Ec. rewrite Ec. by simplify_eq. }
  apply consume_spec in Ec as (q & -> & (l1 & q' & l2 & Q1 & Q2 & Q3) & Happ & Hruns & Hops);
    [|done].
  rewrite Happ in E.
  destruct (reserve_chat_sequences _ _ _ _ _) as [[first db2]|] eqn:E2; [|done].
  apply reserve_only_messages in E2 as (R2 & O2 & K2).
  unfold accept_in_session in E.
  match type of E with context [insert_run db2 ?row] => set (succ := row) in E end.
  destruct (insert_run db2 succ) as [db3|] eqn:E3; [|done].
  destruct (insert_run_same db db2 succ db3) as (I1 & I2 & I3 & I4); [congruence|done|].
  destruct (upsert_message _ _ _ _ _ _ _ _ _ _) as [db4|] eqn:E4; [|done].
  apply upsert_only_messages in E4 as (R4 & O4 & K4).
  destruct (insert_message db4 _) as [db5|] eqn:E5; [|done].
  apply insert_message_only in E5 as (R5 & O5 & K5). simplify_eq.
  split.
  - exists succ. split_and!; try done. by rewrite R5, R4, I2.
  - by rewrite O5, O4, I3, O2.
  - exists l1, q', l2. split_and!; [done| |apply Q3..]. by rewrite K5, K4, I4, K2.
Qed.

(** ** The callbacks respect the journal *)

(** At most a new run appears, under a key that was free. *)
Definition adds_run (db db' : Db) : Prop :=
  chat_run_operations db' = chat_run_operations db ∧
  (chat_runs db' = chat_runs db ∨
   ∃ succ, operation_seq succ = 0 ∧ insert_run db succ = Ok (put_run db succ) ∧
           chat_runs db' = <[run_id succ := succ]> (chat_runs db)).

Lemma adds_run_safe db db' : adds_run db db' → journal_safe db db'.
Proof.
  intros [Ho [Hr|(succ & Hseq & Hins & Hr)]].
  - intros Hwf. split; [by apply (wf_same_runs db)|]. intros r row Hrow. exists row. by rewrite Hr.
  - etrans; [by eapply insert_run_safe|]. intros Hwf.
    split; [by apply (wf_same_runs (put_run db succ))|].
    intros r row Hrow. exists row. by rewrite Hr.
Qed.

Lemma adds_run_keeps db db' r row :
  adds_run db db' → chat_runs db !! r = Some row → chat_runs db' !! r = Some row.
Proof.
  intros [_ [->|(succ & _ & Hins & ->)]] Hrow; [done|].
  by apply (insert_run_keeps db succ (put_run db succ) r row Hins).
Qed.

Lemma handoff_adds_run now s c u ctx md db res db' :
  _commit_queued_handoff_in_session load_history now s c u ctx md db = Ok (res, db') →
  adds_run db db'.
Proof.
  intros E. unfold _commit_queued_handoff_in_session in E.
  destruct (chat_runs db !! s) as [source|]; [|simplify_eq; split; [done|by left]].
  destruct (consume_next_handoff_in_session _ _ _ _ _ _ _) as [[r db1]|] eqn:Ec;
    [|simplify_eq; split; [done|by left]].
  assert (chat_runs db1 = chat_runs db ∧ chat_run_operations db1 = chat_run_operations db) as [R1 O1].
  { unfold consume_next_handoff_in_session in Ec. destruct (first_by_seq _ db); [|done].
    destruct (affected _ _); [done|]. destruct (get_item _ _); by simplify_eq. }
  destruct (sr_applied_run_id r) as [next|]; [|simplify_eq; split; [done|by left]].
  destruct (reserve_chat_sequences _ _ _ _ _) as [[first db2]|] eqn:E2; [|done].
  apply reserve_only_messages in E2 as (R2 & O2 & K2). unfold accept_in_session in E.
  match type of E with context [insert_run db2 ?row] => set (succ := row) in E end.
  destruct (insert_run db2 succ) as [db3|] eqn:E3; [|done].
  destruct (insert_run_same db db2 succ db3) as (I1 & I2 & I3 & I4); [congruence|done|].
  destruct (upsert_message _ _ _ _ _ _ _ _ _ _) as [db4|] eqn:E4; [|done].
  apply upsert_only_messages in E4 as (R4 & O4 & K4).
  destruct (insert_message db4 _) as [db5|] eqn:E5; [|done].
  apply insert_message_only in E5 as (R5 & O5 & K5). simplify_eq.
  split; [by rewrite O5, O4, I3, O2|]. right. exists succ.
  split_and!; [done|done|]. by rewrite R5, R4, I2.
Qed.

Lemma insert_run_only db db' succ :
  chat_runs db' = chat_runs db →
  insert_run db' succ = Ok (put_run db' succ) → insert_run db succ = Ok (put_run db succ).
Proof.
  intros E Hi. symmetry in E. by destruct (insert_run_same db db' succ _ (eq_sym E) Hi).
Qed.

#[export] Instance commit_output_effect r now o :
  JournalEffect r (Some (_commit_output load_history now o)).
Proof.
  assert (∀ db db', run_effect (Some (_commit_output load_history now o)) db = Ok db' →
    adds_run db db') as Hadd.
  { intros db db' (db1 & res & (R1 & O1 & _) & E2)%commit_output_split.
    apply handoff_adds_run in E2 as [O2 H2]. split; [congruence|].
    destruct H2 as [R2|(succ & Hseq & Hins & R2)]; [left; congruence|].
    right. exists succ. split_and!; [done|by eapply insert_run_only|]. by rewrite R2, R1. }
  split.
  - intros db db' E. by apply adds_run_safe, Hadd.
  - intros db db' r' row _ E _. by apply adds_run_keeps, Hadd.
  - intros db db' E. destruct (Hadd db db' E) as [Ho _]. unfold ops_grow. by rewrite Ho.
  - intros db db' _ E. destruct (Hadd db db' E) as [Ho [R|(succ & Hseq & Hins & R)]].
    + apply numbered_on_same; [done|]. intros r'. unfold counter. by rewrite R.
    + etrans; [by eapply insert_run_numbered|]. apply numbered_on_same; [done|].
      intros r'. unfold counter. by rewrite R.
Qed.

(** The queue after the steer of [steer] was acknowledged, if it came from the
    queue. *)
Definition acknowledged (now : Z) (steer : InjectedSteer) (seq : Z) (db : Db)
    : result exn (list Q.t) :=
  if negb (bool_decide (in_queue_id steer = "")) && negb (bool_decide (in_claim_owner steer = ""))
  then match mark_applied_in_session now db (in_queue_id steer) (in_claim_owner steer)
               (in_run_id steer) seq with
       | Ok db1 => Ok (chat_steer_queue db1)
       | Err e => Err e
       end
  else Ok (chat_steer_queue db).

Lemma commit_steer_spec now steer sg db db' :
  _commit_steer load_history now steer sg db = Ok db' →
  ∃ row msgs, chat_runs db !! in_run_id steer = Some row ∧
    chat_run_operations db' = chat_run_operations db ∧
    acknowledged now steer (operation_seq row + 1) db = Ok (chat_steer_queue db') ∧
    chat_runs db' = <[run_id row :=
      row <| recovery_snapshot := Some (post_steer_snapshot steer msgs) |>
          <| snapshot_version := snapshot_version row + 1 |>]> (chat_runs db).
Proof.
  intros E. unfold _commit_steer, acknowledged in *.
  destruct (chat_runs db !! in_run_id steer) as [row|]; [|done].
  destruct (if _ && _ then _ else Ok db) as [db1|] eqn:E1; [|done].
  assert (chat_runs db1 = chat_runs db ∧ chat_run_operations db1 = chat_run_operations db) as [R1 O1].
  { destruct (_ && _); [|by simplify_eq]. unfold mark_applied_in_session in E1.
    destruct (affected _ _); by simplify_eq. }
  destruct (match sg with Some _ => _ | None => _ end) as [db2|] eqn:E2; [|done].
  assert (only_messages db1 db2) as (R2 & O2 & K2).
  { destruct sg; [by eapply upsert_only_messages|by simplify_eq]. }
  destruct (upsert_message _ db2 _ _ _ _ _ _ _ _) as [db3|] eqn:E3; [|done].
  apply upsert_only_messages in E3 as (R3 & O3 & K3).
  destruct (reserve_chat_sequences _ _ _ _ _) as [[s db4]|] eqn:E4; [|done].
  apply reserve_only_messages in E4 as (R4 & O4 & K4).
  destruct (insert_message db4 _) as [db5|] eqn:E5; [|done].
  apply insert_message_only in E5 as (R5 & O5 & K5). simplify_eq. simpl.
  eexists row, _. split_and!; [done|congruence| |].
  - rewrite K5, K4, K3, K2. destruct (_ && _); [by rewrite E1|by simplify_eq].
  - rewrite R5, R4, R3, R2, R1. reflexivity.
Qed.

#[export] Instance commit_steer_effect now steer sg :
  JournalEffect (in_run_id steer) (Some (_commit_steer load_history now steer sg)).
Proof.
  pose proof (λ db db', commit_steer_spec now steer sg db db') as Hspec.
  split.
  - intros db db' E Hwf. destruct (Hspec db db' E) as (row & msgs & Hr & Ho & _ & Hruns).
    destruct (put_run_safe (settled:=not_live) db row (row <| recovery_snapshot := Some (post_steer_snapshot steer msgs) |>
      <| snapshot_version := snapshot_version row + 1 |>)) as [Hwf' Hev];
      [exact (lookup_own _ _ _ Hwf Hr)|split; simpl; try done; [lia|by left]|done|done|].
    split; [by eapply wf_same_runs; [| |exact Hwf']|].
    intros r' x Hx. destruct (Hev r' x Hx) as (x' & Hx' & ?). exists x'. by rewrite Hruns.
  - intros db db' r' row' Hwf E Hne Hr'. destruct (Hspec db db' E) as (row & msgs & Hr & Ho & _ & ->).
    by rewrite (wf_keyed db Hwf _ _ Hr), lookup_insert_ne.
  - intros db db' E. destruct (Hspec db db' E) as (row & msgs & Hr & Ho & _).
    unfold ops_grow. by rewrite Ho.
  - intros db db' Hwf E. destruct (Hspec db db' E) as (row & msgs & Hr & Ho & _ & R).
    apply numbered_on_same; [done|]. intros r'. unfold counter. rewrite R, (wf_keyed db Hwf _ _ Hr).
    destruct (decide (in_run_id steer = r')) as [<-|Hne].
    + by rewrite lookup_insert_eq, Hr.
    + by rewrite lookup_insert_ne.
Qed.

(** The callbacks respect the queue as well, so a client of the queue may make
    the journal calls that carry them. *)
Lemma commit_output_queue now o db db' :
  run_effect (Some (_commit_output load_history now o)) db = Ok db' → queue_step db db'.
Proof.
  intros (db1 & res & (_ & _ & K1) & E2)%commit_output_split.
  etrans; [by apply queue_step_same|].
  unfold _commit_queued_handoff_in_session in E2.
  destruct (chat_runs db1 !! _) as [source|]; [|by simplify_eq].
  destruct (consume_next_handoff_in_session _ _ _ _ _ _ _) as [[r db2]|] eqn:Ec; [|by simplify_eq].
  apply consume_step in Ec. etrans; [exact Ec|].
  destruct (sr_applied_run_id r) as [next|]; [|by simplify_eq].
  destruct (reserve_chat_sequences _ _ _ _ _) as [[first db3]|] eqn:E3; [|done].
  apply reserve_only_messages in E3 as (_ & _ & K3). unfold accept_in_session in E2.
  destruct (insert_run db3 _) as [db4|] eqn:E4; [|done].
  apply (insert_run_same db3 db3) in E4 as (_ & _ & _ & K4); [|done].
  destruct (upsert_message _ db4 _ _ _ _ _ _ _ _) as [db5|] eqn:E5; [|done].
  apply upsert_only_messages in E5 as (_ & _ & K5).
  destruct (insert_message db5 _) as [db6|] eqn:E6; [|done].
  apply insert_message_only in E6 as (_ & _ & K6). simplify_eq.
  apply queue_step_same. congruence.
Qed.

Lemma commit_steer_queue now steer sg db db' :
  run_effect (Some (_commit_steer load_history now steer sg)) db = Ok db' → queue_step db db'.
Proof.
  intros (row & msgs & _ & _ & Hack & _)%commit_steer_spec. unfold acknowledged in Hack.
  destruct (_ && _); [|simplify_eq; by apply queue_step_same].
  destruct (mark_applied_in_session _ _ _ _ _ _) as [db1|] eqn:Em; [|done]. simplify_eq.
  etrans; [by eapply mark_applied_step|by apply queue_step_same].
Qed.

(** ** What the final commit does *)

Lemma first_by_seq_same p db db' :
  chat_steer_queue db' = chat_steer_queue db → first_by_seq p db' = first_by_seq p db.
Proof. unfold first_by_seq. by intros ->. Qed.

(** The queued messages that may follow the run; the oldest of them. *)
Definition may_follow (out : Output) : Q.t → bool :=
  handoff_candidate (out_run_id out)
    (opt_str_or (Some (root_of (out_context out) (out_run_id out))) (out_run_id out))
    (out_chat_id out).
Definition waiting (db : Db) (out : Output) : option Q.t := first_by_seq (may_follow out) db.

Lemma insert_run_fresh db succ :
  insert_run db succ = Ok (put_run db succ) → chat_runs db !! run_id succ = None.
Proof.
  unfold insert_run. destruct (negb (slot_allowed _)); [done|].
  by destruct (chat_runs db !! run_id succ).
Qed.

Lemma commit_output_spec now out db db' :
  queue_wf db → chat_runs db !! out_run_id out ≠ None →
  _commit_output load_history now out db = Ok db' →
  match waiting db out with
  | None => chat_runs db' = chat_runs db ∧ chat_steer_queue db' = chat_steer_queue db
  | Some q => handed_over db db' (out_chat_id out) q
  end.
Proof.
  intros Hq Hr (db1 & res & (R1 & O1 & K1) & E2)%commit_output_split.
  apply handoff_spec in E2; [|by destruct Hq; split; rewrite K1|by rewrite R1].
  unfold waiting. rewrite (first_by_seq_same _ db db1 K1) in E2.
  destruct (first_by_seq _ db) as [q|]; [|by subst].
  destruct E2 as [(succ & S1 & S2 & S3 & S4 & S5 & S6 & S7) Ho Hi]. split; [|congruence|by unfold applied_in_place in *; rewrite <- K1].
  exists succ. split_and!; [done..|by eapply insert_run_only|congruence].
Qed.

(** C26: completing a run hands the chat over in the same transaction.  When
    the final commit succeeds, the run is completed and no longer the writer of
    its chat.  If messages were waiting that may follow the run, the one with
    the least number became applied where it stands in the queue, its request
    unchanged, and names the successor, a new pending run of the same chat that
    is its writer; every other item of the queue and every other run are as
    before.  If none was waiting, the whole queue and every other run are. *)
Theorem completion_hands_over now r o us fr off out co db db' :
  wf db → queue_wf db → out_run_id out = r →
  complete now r o Completed us fr off (Some (_commit_output load_history now out)) co db
    = (Ok true, db') →
  (∃ row, chat_runs db' !! r = Some row ∧ status row = Completed ∧ writer_slot row = None) ∧
  match waiting db out with
  | None =>
      (∀ x, x ∈ chat_steer_queue db → may_follow out x = false) ∧
      chat_steer_queue db' = chat_steer_queue db ∧
      ∀ r', r' ≠ r → chat_runs db' !! r' = chat_runs db !! r'
  | Some q =>
      may_follow out q = true ∧
      (∀ x, x ∈ chat_steer_queue db → may_follow out x = true → Q.steer_seq q ≤ Q.steer_seq x) ∧
      applied_in_place db db' q ∧
      chat_runs db !! next_run q = None ∧
      (∃ succ, chat_runs db' !! next_run q = Some succ ∧ chat_id succ = out_chat_id out ∧
         status succ = Pending ∧ writer_slot succ = Some "main") ∧
      ∀ r', r' ≠ r → r' ≠ next_run q → chat_runs db' !! r' = chat_runs db !! r'
  end.
Proof.
  intros Hwf Hq <- Hc.
  destruct (complete_true _ _ _ _ _ _ _ _ _ db db' Hwf Hc)
    as (row & row1 & db1 & Hrow & Hcl & He & (_ & _ & BK & BR & _) & Hrow').
  split; [done|]. destruct Hcl as (Hid & _).
  rewrite (wf_keyed db Hwf _ _ Hrow) in Hid. simpl in He.
  pose proof (commit_output_spec now out (put_run db row1) db1) as Hspec. simpl in Hspec.
  rewrite Hid, lookup_insert_eq in Hspec.
  specialize (Hspec ltac:(by destruct Hq) ltac:(done) He).
  unfold waiting in *. rewrite (first_by_seq_same _ db (put_run db row1)) in Hspec by done.
  destruct (first_by_seq _ db) as [q|] eqn:Ef.
  - destruct Hspec as [(succ & S1 & S2 & S3 & S4 & S5 & S6 & S7) Ho (l1 & q' & l2 & Q1 & Q2 & Q3)].
    pose proof (insert_run_fresh _ _ S6) as Hfresh. rewrite S1 in Hfresh. simpl in *.
    rewrite Hid in *. apply lookup_insert_None in Hfresh as [Hfresh Hne].
    split_and!; [by apply (first_by_seq_some _ _ _ Ef)| | |done| |].
    + intros x. by apply first_by_seq_least.
    + exists l1, q', l2. by rewrite BK.
    + exists succ. rewrite BR by done. rewrite S7, lookup_insert_eq. done.
    + intros r' N1 N2. rewrite BR, S7, !lookup_insert_ne by done. done.
  - destruct Hspec as [R1 K1]. split_and!; [intros x; by apply first_by_seq_none|by rewrite BK, K1|].
    intros r' Hne. by rewrite BR, R1, lookup_insert_ne.
Qed.

(** ** What an injected steer commits *)

Lemma mark_applied_ok now db qid o r n db' :
  mark_applied_in_session now db qid o r n = Ok db' →
  ∃ q q', q ∈ chat_steer_queue db ∧ Q.queue_id q = qid ∧ Q.status q = QClaimed ∧
    Q.lease_owner q = Some o ∧ q' ∈ chat_steer_queue db' ∧ Q.queue_id q' = qid ∧
    Q.status q' = QApplied ∧ Q.applied_run_id q' = Some r ∧ Q.applied_operation_seq q' = Some n.
Proof.
  unfold mark_applied_in_session.
  set (p := λ q0, has_id qid q0 && bool_decide (Q.status q0 = QClaimed) && sql_eq (Q.lease_owner q0) o).
  intros E. destruct (List.filter p (chat_steer_queue db)) as [|q l] eqn:El.
  { unfold affected in E. by rewrite El in E. }
  assert (q ∈ List.filter p (chat_steer_queue db)) as Hin by (rewrite El; left).
  unfold affected in E. rewrite El in E. simplify_eq/=.
  apply list_elem_of_In, filter_In in Hin as [Hin Hp]. apply list_elem_of_In in Hin.
  pose proof Hp as Hp'. unfold p, has_id in Hp'. bool_simpl.
  assert (Q.lease_owner q = Some o) as Ho by by apply sql_eq_true.
  eexists q, _. do 4 (split; [done|]). split.
  - apply elem_of_update_where. exists q. split; [done|]. rewrite Hp. reflexivity.
  - done.
Qed.

Lemma steer_applied_ok now o ck steer sg db rc db' :
  wf db → steer_applied load_history now o ck steer sg db = (Ok (Some rc), db') →
  ∃ row msgs db1, chat_runs db !! in_run_id steer = Some row ∧
    acknowledged now steer (operation_seq row + 1) db = Ok (chat_steer_queue db1) ∧
    chat_steer_queue db' = chat_steer_queue db1 ∧
    rcpt_operation_seq rc = operation_seq row + 1 ∧
    ∃ row', chat_runs db' !! in_run_id steer = Some row' ∧
      operation_seq row' = operation_seq row + 1 ∧ run_phase row' = "steer_committed" ∧
      last_operation_safety row' = "side_effect_committed" ∧
      recovery_snapshot row' = Some (post_steer_snapshot steer msgs).
Proof.
  intros Hwf E. unfold steer_applied in E. case_bool_decide; [done|].
  destruct (RunJournal.append_operation _ _ _ _ _ _ _ _ _) as [[rc'|e] db2] eqn:Ea; simplify_eq.
  unfold append_operation, run_tx in Ea.
  destruct (_locked_owned_run now db _ o) as [row0|] eqn:Hl; [|done].
  destruct (run_effect _ db) as [db1|] eqn:He; [|done].
  apply commit_steer_spec in He as (row & msgs & Hr & Ho & Hack & Hruns).
  pose proof (wf_keyed db Hwf _ _ Hr) as Hid. rewrite Hid in Hruns.
  rewrite Hruns, lookup_insert_eq in Ea. unfold _append_locked, insert_operation in Ea.
  destruct (existsb _ _); simplify_eq/=. rewrite Hid in *.
  exists row, msgs, db1. split_and!; [done|done|done|done|].
  eexists. split; [apply lookup_insert_eq|]. done.
Qed.

Lemma steer_applied_err now o ck steer sg db e db' :
  steer_applied load_history now o ck steer sg db = (Err e, db') → db' = db.
Proof.
  unfold steer_applied, append_operation, run_tx. case_bool_decide; [done|].
  destruct (_locked_owned_run now db _ o); [|by intros [= _ <-]].
  destruct (run_effect _ db) as [db1|]; [|by intros [= _ <-]].
  destruct (chat_runs db1 !! _); [|by intros [= _ <-]].
  by destruct (_append_locked _ _ _ _ _ _ _ _ _) as [[[? ?] ?]|]; [|intros [= _ <-]].
Qed.

Lemma steer_applied_safe now o ck steer sg db rc db' :
  steer_applied load_history now o ck steer sg db = (Ok rc, db') → journal_safe db db'.
Proof.
  unfold steer_applied. case_bool_decide; [by intros [= _ <-]|].
  match goal with |- context [RunJournal.append_operation now (in_run_id steer) o ?a ?b ?c ?d ?e db] =>
    pose proof (append_operation_safe now (in_run_id steer) o a b c d e db) as Hs end.
  destruct (RunJournal.append_operation _ _ _ _ _ _ _ _ _) as [[?|?] ?]; intros [= _ <-].
  exact Hs.
Qed.

(** a queued steer is acknowledged in the transaction that makes it part of
    the run.  Either nothing is written, or the worker's own claim on the item
    was still in force and the item became applied, under the very operation
    number the journal gave to the injected message, while the run's snapshot
    became the conversation after the steer. *)
Theorem steer_commit_atomic now o ck steer sg db res db' :
  wf db → in_queue_id steer ≠ "" → in_claim_owner steer ≠ "" → in_message steer ≠ "" →
  steer_applied load_history now o ck steer sg db = (res, db') →
  match res with
  | Ok (Some rc) =>
      ∃ q q' row' msgs, q ∈ chat_steer_queue db ∧ Q.queue_id q = in_queue_id steer ∧
        Q.status q = QClaimed ∧ Q.lease_owner q = Some (in_claim_owner steer) ∧
        q' ∈ chat_steer_queue db' ∧ Q.queue_id q' = in_queue_id steer ∧
        Q.status q' = QApplied ∧ Q.applied_run_id q' = Some (in_run_id steer) ∧
        Q.applied_operation_seq q' = Some (rcpt_operation_seq rc) ∧
        chat_runs db' !! in_run_id steer = Some row' ∧
        operation_seq row' = rcpt_operation_seq rc ∧
        recovery_snapshot row' = Some (post_steer_snapshot steer msgs)
  | Ok None => False
  | Err _ => db' = db
  end.
Proof.
  intros Hwf Hq Ho Hm E. destruct res as [[rc|]|e].
  - destruct (steer_applied_ok _ _ _ _ _ _ _ _ Hwf E)
      as (row & msgs & db1 & Hr & Hack & Hk & Hrc & row' & Hr' & Hseq & _ & _ & Hsnap).
    unfold acknowledged in Hack. rewrite !bool_decide_false in Hack by done. simpl in Hack.
    destruct (mark_applied_in_session _ _ _ _ _ _) as [db2|] eqn:Em; [|done]. simplify_eq.
    apply mark_applied_ok in Em as (q & q' & ? & ? & ? & ? & ? & ? & ? & ? & Hn).
    exists q, q', row', msgs. split_and!; try done; try congruence.
  - unfold steer_applied in E. rewrite bool_decide_false in E by done.
    destruct (RunJournal.append_operation _ _ _ _ _ _ _ _ _) as [[?|?] ?]; done.
  - by eapply steer_applied_err.
Qed.

(** recovery does not resume from the snapshot a steer committed.  When the
    worker is lost right after the commit, the next sweep pauses the run for a
    manual review instead of resuming it from the post-steer conversation. *)
Theorem steer_committed_not_resumed now o ck steer sg db rc db' row t :
  wf db → steer_applied load_history now o ck steer sg db = (Ok (Some rc), db') →
  chat_runs db' !! in_run_id steer = Some row → claimable_orphan t row = true →
  ∃ ds db'' row'', recover t db' = (Ok ds, db'') ∧ decision_of row ActNeedsAttention ∈ ds ∧
    chat_runs db'' !! in_run_id steer = Some row'' ∧ status row'' = NeedsAttention.
Proof.
  intros Hwf E Hrow Hc. pose proof (steer_applied_safe _ _ _ _ _ _ _ _ E Hwf) as [Hwf' _].
  destruct (steer_applied_ok _ _ _ _ _ _ _ _ Hwf E)
    as (row0 & msgs & db1 & Hr & _ & _ & _ & row' & Hr' & Hseq & Hph & Hsf & Hsnap).
  assert (row' = row) as -> by congruence.
  assert (orphan_verdict row = Some ActNeedsAttention) as Hv.
  { unfold orphan_verdict, chat_verdict, run_kind, legacy_orphan, phase_of.
    by rewrite Hsnap, Hph, Hsf. }
  destruct (recover_spec t db' Hwf') as (db'' & Er & _ & _ & Hset & _).
  pose proof (wf_keyed db' Hwf' _ _ Hrow) as Hid. rewrite <- Hid in Hrow.
  destruct (Hset row Hrow Hc) as (row'' & Hrow'' & Hst). rewrite Hv in Hst.
  eexists _, db'', row''. split; [exact Er|]. split_and!; [|congruence|by destruct Hst].
  apply list_elem_of_omap. exists row. split; [by apply elem_of_claimable_rows|]. by rewrite Hv.
Qed.
End handoff.

(** ** A concrete hand-off and a concrete steer *)

Section demo.
Local Instance demo_host : Host :=
  {| sha256_hex := λ s, s; embedded_sub := λ _ s, s; py_str := λ _, "" |}.
Local Instance demo_uuid5 : NameUuid := λ s, s.
Local Instance demo_store : ArtifactStore := λ _, None.
Definition demo_history (db : Db) (chat : string) : list json :=
  (λ m, JStr (ChatMessage.message_id m)) <$> chat_messages db.

Definition demo_owned : Db := (claim 50 "run_aaaa" "w1" 90 demo_steered).2.
Definition demo_output : Output :=
  mkOutput "run_aaaa" "c1" "u1" "msg_cccc" (Some 2) (text_of "done") None None [] []
    [mkPinned "file_1" "report.md" None (Some 12) "https://x/1" None "writer"] None.
Definition demo_handed : Db :=
  (complete 60 "run_aaaa" "w1" Completed None None None
     (Some (_commit_output demo_history 60 demo_output)) None demo_owned).2.

Lemma demo_owned_wf : wf demo_owned.
Proof.
  apply claim_safe, (wf_same_runs demo_busy); [vm_compute; reflexivity..|apply demo_busy_cwf].
Qed.

Lemma demo_owned_queue_wf : queue_wf demo_owned.
Proof.
  apply (queue_step_same demo_steered); [vm_compute; reflexivity|apply demo_steered_wf].
Qed.

(** The run is completed, the waiting steer starts the successor. *)
Lemma completion_hands_over_witness :
  (∃ row, chat_runs demo_handed !! "run_aaaa" = Some row ∧ status row = Completed) ∧
  ∃ succ, chat_runs demo_handed !! next_run demo_item = Some succ ∧
          writer_slot succ = Some "main".
Proof.
  destruct (completion_hands_over demo_history 60 "run_aaaa" "w1" None None None demo_output None
    demo_owned demo_handed demo_owned_wf demo_owned_queue_wf) as [(row & H1 & H2 & _) Hnext].
  - reflexivity.
  - vm_compute. reflexivity.
  - split; [exists row; split; [exact H1|exact H2]|].
    replace (waiting demo_owned demo_output) with (Some demo_item) in Hnext
      by (vm_compute; reflexivity).
    destruct Hnext as (_ & _ & _ & _ & (succ & H3 & _ & _ & H4) & _). exists succ. split; [exact H3|exact H4].
Defined.

Definition demo_delivering : Db := (claim 50 "run_aaaa" "w1" 90 demo_claimed).2.
Definition demo_chunk : SteerChunk := mkSteerChunk "s1" "steerq_1111" "w1" 1 "look here".
Definition demo_injected : InjectedSteer :=
  injected "run_aaaa" "c1" "u1" [] None "now" "f1" "f2" demo_chunk.
Definition demo_injection : result exn (option JournalReceipt) * Db :=
  steer_applied demo_history 60 "w1" demo_chunk demo_injected None demo_delivering.
Definition demo_receipt : JournalReceipt := mkReceipt "run_aaaa" 1 1 "steer_committed".

Lemma demo_injection_ok : demo_injection = (Ok (Some demo_receipt), demo_injection.2).
Proof. vm_compute. reflexivity. Qed.

Lemma demo_delivering_wf : wf demo_delivering.
Proof.
  apply claim_safe, (wf_same_runs demo_busy); [vm_compute; reflexivity..|apply demo_busy_cwf].
Qed.

Lemma steer_commit_atomic_witness :
  ∃ q', q' ∈ chat_steer_queue demo_injection.2 ∧ Q.queue_id q' = "steerq_1111" ∧
        Q.status q' = QApplied ∧ Q.applied_operation_seq q' = Some 1.
Proof.
  destruct (steer_commit_atomic demo_history 60 "w1" demo_chunk demo_injected None demo_delivering
    _ _ demo_delivering_wf ltac:(discriminate) ltac:(discriminate) ltac:(discriminate)
    demo_injection_ok) as (q & q' & row' & msgs & _ & _ & _ & _ & H1 & H2 & H3 & _ & H4 & _).
  exists q'. split; [exact H1|]. split; [exact H2|]. split; [exact H3|exact H4].
Defined.

(** The lease of 90 seconds has expired. *)
Lemma steer_committed_not_resumed_witness :
  ∃ ds db'' row'', recover 200000000 demo_injection.2 = (Ok ds, db'') ∧
    chat_runs db'' !! "run_aaaa" = Some row'' ∧ status row'' = NeedsAttention.
Proof.
  destruct (chat_runs demo_injection.2 !! "run_aaaa") as [row|] eqn:Hrow;
    [|vm_compute in Hrow; discriminate].
  destruct (steer_committed_not_resumed demo_history 60 "w1" demo_chunk demo_injected None
    demo_delivering demo_receipt demo_injection.2 row 200000000 demo_delivering_wf
    demo_injection_ok Hrow) as (ds & db'' & row'' & H1 & _ & H2 & H3).
  - vm_compute in Hrow. injection Hrow as <-. vm_compute. reflexivity.
  - exists ds, db'', row''. split; [exact H1|split; [exact H2|exact H3]].
Defined.
End demo.
