(* ===== verification/Outbox.v ===== *)
(** * The memory outbox: [core/memory/outbox.py] and [core/memory/effect_lane.py]

    Work to be done after a response is a row of [memory_outbox]: a pipeline
    that extracts candidates, one row per candidate, edits and compactions of
    the profile, and one settlement per message.  Workers claim rows under a
    lease, do the work with external calls, and acknowledge it; the last
    acknowledgement of a message inserts its settlement in the same
    transaction. *)

From S2P Require Import Prelude Db PyString ToolPolicies Program.
From Stdlib Require Import Ascii String.

Module Outbox.
Module R := MemoryOutbox.
Import ToolPolicies.

(** ** Settings, contexts and hashes *)

Record Settings := mkSettings {
  outbox_lease_s : Z;
  outbox_max_attempts : Z;
  outbox_retry_base_s : Z
}.

(** [str(exc)], [sanitize] of [core/memory/sanitizer.py] ([None] when the text
    is rejected), and the identifiers [uuid.uuid4().hex] yields one after
    another from a state of the generator. *)
Class OutboxHost := {
  error_text : exn → string;
  sanitize : string → option string;
  uuid_from : string → nat → string
}.

Record MemoryContext := mkContext {
  cx_user_id : string;
  cx_workspace_id : string;
  cx_chat_id : option string;
  cx_allowed_levels : list string;
  cx_confidentiality : option string;
  cx_actor : option string;
  cx_write_enabled : bool;
  cx_scope_user_id : option string;
  cx_message_id : option string;
  cx_effect_id : option string
}.
#[global] Instance eta_context : Eta MemoryContext := λ c,
  mkContext (cx_user_id c) (cx_workspace_id c) (cx_chat_id c) (cx_allowed_levels c)
    (cx_confidentiality c) (cx_actor c) (cx_write_enabled c) (cx_scope_user_id c)
    (cx_message_id c) (cx_effect_id c).

Inductive ExtractorType := Identity | Preference | Task | Procedural | Graph.
#[export] Instance ExtractorType_eq_dec : EqDecision ExtractorType.
Proof. solve_decision. Defined.

Definition extractor_value (e : ExtractorType) : string :=
  match e with
  | Identity => "identity" | Preference => "preference" | Task => "task"
  | Procedural => "procedural" | Graph => "graph"
  end.
Definition extractor_types : list ExtractorType := [Identity; Preference; Task; Procedural; Graph].
(** [ExtractorType(s)] *)
Definition extractor_of (s : string) : option ExtractorType :=
  List.find (λ e, bool_decide (extractor_value e = s)) extractor_types.

Definition _LAYER_BY_EXTRACTOR (e : ExtractorType) : string :=
  match e with
  | Identity => "L1:identity" | Preference => "L1:preference" | Procedural => "L2:procedural"
  | Graph => "L3:graph" | Task => "session:task"
  end.

Definition jopt (x : option string) : json :=
  match x with Some s => JStr s | None => JNull end.

Definition _context_payload (ctx : MemoryContext) : dict :=
  [("user_id", JStr (cx_user_id ctx)); ("workspace_id", JStr (cx_workspace_id ctx));
   ("chat_id", jopt (cx_chat_id ctx));
   ("allowed_levels", JList (JStr <$> cx_allowed_levels ctx));
   ("confidentiality", jopt (cx_confidentiality ctx)); ("actor", jopt (cx_actor ctx));
   ("write_enabled", JBool (cx_write_enabled ctx));
   ("scope_user_id", jopt (cx_scope_user_id ctx)); ("message_id", jopt (cx_message_id ctx));
   ("effect_id", jopt (cx_effect_id ctx))].

Section host.
Context `{Host} `{OutboxHost} (settings : Settings).

Definition get_or (d : dict) (k : string) : json := default JNull (dict_get d k).
Definition get_opt_str (d : dict) (k : string) : option string :=
  match dict_get d k with Some (JStr s) => Some s | _ => None end.
(** [str(d.get(k) or default)] *)
Definition get_str (d : dict) (k fallback : string) : string :=
  let v := get_or d k in if truthy v then to_str v else fallback.
Definition get_dict (d : dict) (k : string) : dict :=
  match dict_get d k with Some (JDict x) => x | _ => [] end.

Definition _context_from_payload (payload : dict) : MemoryContext :=
  mkContext (get_str payload "user_id" "") (get_str payload "workspace_id" "default")
    (get_opt_str payload "chat_id")
    (match dict_get payload "allowed_levels" with
     | Some (JList (x :: l)) => to_str <$> (x :: l)
     | _ => ["public"; "internal"; "sensitive"]
     end)
    (get_opt_str payload "confidentiality") (get_opt_str payload "actor")
    (truthy (get_or payload "write_enabled")) (get_opt_str payload "scope_user_id")
    (get_opt_str payload "message_id") (get_opt_str payload "effect_id").

Definition _stable_hash (v : json) : string := sha256_hex (json_dumps false true "," ":" v).

Definition _effective_message_id (ctx : MemoryContext) (candidate_hash : string) : string :=
  match cx_message_id ctx with
  | Some m => if bool_decide (m = "")
              then "legacy:" +:+ opt_str_or (cx_chat_id ctx) (str_or (cx_user_id ctx) "anonymous")
                     +:+ ":" +:+ take_str 24 candidate_hash
              else m
  | None => "legacy:" +:+ opt_str_or (cx_chat_id ctx) (str_or (cx_user_id ctx) "anonymous")
              +:+ ":" +:+ take_str 24 candidate_hash
  end.

Definition _scope_key (ctx : MemoryContext) : string :=
  _stable_hash (JDict
    [("scope_user_id", JStr (opt_str_or (cx_scope_user_id ctx) (cx_user_id ctx)));
     ("workspace_id", JStr (str_or (cx_workspace_id ctx) "default"))]).

Definition _settlement_hash (message_id : string) : string :=
  _stable_hash (JDict [("message_id", JStr message_id); ("kind", JStr "settlement")]).

(** ** Queries *)

Definition is_final (s : OutboxStatus) : bool :=
  match s with ObSucceeded | ObQuarantined => true | _ => false end.

Definition has_id (job_id : string) (r : R.t) : bool := bool_decide (R.id r = job_id).

Definition update_outbox (db : Db) (p : R.t → bool) (f : R.t → R.t) : Db :=
  db <| memory_outbox := update_where p f (memory_outbox db) |>.

(** [db.get(MemoryOutbox, job_id)] *)
Definition get_job (db : Db) (job_id : string) : option R.t :=
  List.find (has_id job_id) (memory_outbox db).

(** [ORDER BY created_at, id] *)
Definition row_leb (a b : R.t) : bool :=
  (R.created_at a <? R.created_at b)
  || ((R.created_at a =? R.created_at b) && String.leb (R.id a) (R.id b)).
Definition first_row (p : R.t → bool) (db : Db) : option R.t :=
  match order_by row_leb (List.filter p (memory_outbox db)) with
  | [] => None
  | r :: _ => Some r
  end.

(** [filter_by(message_id, layer, candidate_hash).first()] *)
Definition same_candidate (message_id layer candidate_hash : string) (r : R.t) : bool :=
  bool_decide (R.message_id r = message_id) && bool_decide (R.layer r = layer)
  && bool_decide (R.candidate_hash r = candidate_hash).
Definition find_candidate (db : Db) (message_id layer candidate_hash : string) : option R.t :=
  List.find (same_candidate message_id layer candidate_hash) (memory_outbox db).

(** The row is processed by this worker. *)
Definition owned_by (job_id worker_id : string) (r : R.t) : bool :=
  has_id job_id r && bool_decide (R.status r = ObProcessing) && sql_eq (R.lease_owner r) worker_id.

(** ** Admission *)

Definition new_row (now : Z) (id : string) (parent_id : option string)
    (message_id : string) (scope_key : option string) (job_kind layer candidate_hash : string)
    (payload : dict) : R.t :=
  R.mk id parent_id message_id scope_key job_kind layer candidate_hash payload ObPending 0 None
    None (Some now) None JNull now now None.

Definition insert_job (id : string) (parent_id : option string)
    (message_id job_kind layer candidate_hash : string) (payload : dict)
    (scope_key : option string) (now : Z) (db : Db) : tx Db exn string :=
  let? db' := insert_outbox db
                (new_row now id parent_id message_id scope_key job_kind layer candidate_hash
                   payload) in
  Commit id db'.

(** The lookup after a violated constraint. *)
Definition existing_job (message_id layer candidate_hash : string) (e : exn) (_ : Z) (db : Db)
    : tx Db exn string :=
  match find_candidate db message_id layer candidate_hash with
  | Some r => Rollback (R.id r)
  | None => Raise e
  end.

(** ** Settlement *)

Definition _lock_pipeline_row (db : Db) (message_id : string) : option R.t :=
  first_row (λ r, bool_decide (R.message_id r = message_id)
                  && bool_decide (R.job_kind r = "pipeline")) db.

Definition effect_rows (db : Db) (message_id : string) : list R.t :=
  List.filter (λ r, bool_decide (R.message_id r = message_id)
                    && negb (bool_decide (R.job_kind r = "settlement"))) (memory_outbox db).

Definition settlement_row (now : Z) (message_id : string) : R.t :=
  new_row now ("mout_settle_" +:+ take_str 24 (_settlement_hash message_id)) None message_id None
    "settlement" "settlement" (_settlement_hash message_id) [("message_id", JStr message_id)].

(** The id of the settlement, if the message is ready for one. *)
Definition _enqueue_settlement_if_ready (now : Z) (db : Db) (message_id : string)
    : result exn (option string * Db) :=
  match _lock_pipeline_row db message_id with
  | None => Ok (None, db)
  | Some _ =>
      let rows := effect_rows db message_id in
      if bool_decide (rows = []) || existsb (λ r, negb (is_final (R.status r))) rows
      then Ok (None, db)
      else match find_candidate db message_id "settlement" (_settlement_hash message_id) with
           | Some r => Ok (Some (R.id r), db)
           | None =>
               let row := settlement_row now message_id in
               with? db' := insert_outbox db row in
               Ok (Some (R.id row), db')
           end
  end.

(** ** Claims and leases *)

Definition lease_until (now : Z) : Z := now + seconds (Z.max 1 (outbox_lease_s settings)).

Definition expired (now : Z) (r : R.t) : bool :=
  bool_decide (R.status r = ObProcessing) && sql_le (R.lease_expires_at r) now.

Definition due (now : Z) (r : R.t) : bool :=
  bool_decide (R.status r = ObPending)
  || (bool_decide (R.status r = ObRetry)
      && (is_null (R.next_attempt_at r) || sql_le (R.next_attempt_at r) now)).

Definition back_to_retry (now : Z) (reason : string) (r : R.t) : R.t :=
  r <| R.status := ObRetry |> <| R.lease_owner := None |> <| R.lease_expires_at := None |>
    <| R.next_attempt_at := Some now |> <| R.last_error := Some reason |>
    <| R.updated_at := now |>.

Definition start_processing (now : Z) (worker_id : string) (r : R.t) : R.t :=
  r <| R.status := ObProcessing |> <| R.attempts := R.attempts r + 1 |>
    <| R.lease_owner := Some worker_id |> <| R.lease_expires_at := Some (lease_until now) |>
    <| R.updated_at := now |>.

Definition expire_leases (now : Z) (db : Db) : Db :=
  update_outbox db (expired now) (back_to_retry now "worker lease expired").

Definition _claim_next (worker_id : string) (now : Z) (db : Db) : tx Db exn (option string) :=
  let db1 := expire_leases now db in
  match first_row (due now) db1 with
  | None => Commit None db1
  | Some row =>
      let p r := has_id (R.id row) r && bool_decide (R.status r = R.status row) in
      Commit (if (affected p (memory_outbox db1) =? 0)%nat then None else Some (R.id row))
        (update_outbox db1 p (start_processing now worker_id))
  end.

Definition _claim_specific (job_id worker_id : string) (now : Z) (db : Db) : tx Db exn bool :=
  let p r := has_id job_id r && due now r in
  Commit (negb (affected p (memory_outbox db) =? 0)%nat)
    (update_outbox db p (start_processing now worker_id)).

Definition _renew_lease (job_id worker_id : string) (now : Z) (db : Db) : tx Db exn bool :=
  let p := owned_by job_id worker_id in
  Commit (negb (affected p (memory_outbox db) =? 0)%nat)
    (update_outbox db p (λ r, r <| R.lease_expires_at := Some (lease_until now) |>
                                <| R.updated_at := now |>)).

Definition _release_worker_leases (worker_id : string) (now : Z) (db : Db) : tx Db exn nat :=
  let p r := bool_decide (R.status r = ObProcessing) && sql_eq (R.lease_owner r) worker_id in
  Commit (affected p (memory_outbox db))
    (update_outbox db p (back_to_retry now "worker stopped before acknowledgement")).

Definition _defer_claim (job_id worker_id : string) (retry_at : Z) (now : Z) (db : Db)
    : tx Db exn unit :=
  let at_ := Z.max retry_at (now + 100000) in
  match List.find (owned_by job_id worker_id) (memory_outbox db) with
  | None => Rollback tt
  | Some _ =>
      Commit tt (update_outbox db (owned_by job_id worker_id) (λ r,
        (back_to_retry now "waiting for an older L2 effect in this scope" r)
          <| R.attempts := Z.max 0 (R.attempts r - 1) |> <| R.next_attempt_at := Some at_ |>))
  end.

Definition _owns_lease (job_id worker_id : string) (_ : Z) (db : Db) : tx Db exn bool :=
  Rollback (existsb (owned_by job_id worker_id) (memory_outbox db)).

(** ** Acknowledgements *)

Definition METADATA_KEY : string := "evolution".

Definition put_summary (db : Db) (message_id : string) (summary : dict) : Db :=
  db <| chat_messages :=
    update_where (λ m, bool_decide (ChatMessage.message_id m = message_id))
      (λ m, m <| ChatMessage.extra_data :=
               dict_set (ChatMessage.extra_data m) METADATA_KEY (JDict summary) |>)
      (chat_messages db) |>.

(** What the acknowledgement of a settlement writes to its message. *)
Definition store_summary (db : Db) (message_id : string) (result_ : json) : result exn Db :=
  if existsb (λ m, bool_decide (ChatMessage.message_id m = message_id)) (chat_messages db) then
    match result_ with
    | JDict d =>
        match dict_get d "summary" with
        | Some (JDict summary) => Ok (put_summary db message_id summary)
        | _ => Err (RuntimeError "settlement result is missing its durable summary")
        end
    | _ => Err (RuntimeError "settlement result is missing its durable summary")
    end
  else Err (RuntimeError "assistant message is not durable yet; settlement will retry").

Definition succeed (now : Z) (result_ : json) (r : R.t) : R.t :=
  r <| R.status := ObSucceeded |> <| R.result_json := result_ |> <| R.lease_owner := None |>
    <| R.lease_expires_at := None |> <| R.last_error := None |>
    <| R.completed_at := Some now |> <| R.updated_at := now |>.

Definition _finish_success (job_id worker_id : string) (result_ : json) (now : Z) (db : Db)
    : tx Db exn (option string) :=
  match get_job db job_id with
  | None => Rollback None
  | Some row =>
      if negb (owned_by job_id worker_id row) then Rollback None else
      let message_id := R.message_id row in
      let db1 := update_outbox db (owned_by job_id worker_id) (succeed now result_) in
      let? db2 := (if bool_decide (R.job_kind row = "settlement")
                   then store_summary db1 message_id result_ else Ok db1) in
      let? (_, db3) := _enqueue_settlement_if_ready now db2 message_id in
      Commit (Some message_id) db3
  end.

Definition retry_delay (attempts : Z) : Z :=
  outbox_retry_base_s settings * 2 ^ Z.max 0 ((if attempts =? 0 then 1 else attempts) - 1).

Definition fail (now : Z) (error : exn) (r : R.t) : R.t :=
  let quarantined := outbox_max_attempts settings <=? R.attempts r in
  r <| R.status := if quarantined then ObQuarantined else ObRetry |>
    <| R.next_attempt_at :=
         if quarantined then None else Some (now + seconds (retry_delay (R.attempts r))) |>
    <| R.lease_owner := None |> <| R.lease_expires_at := None |>
    <| R.last_error := Some (take_str 2000 (error_text error)) |> <| R.updated_at := now |>
    <| R.completed_at := if quarantined then Some now else None |>.

Definition _finish_failure (job_id worker_id : string) (error : exn) (now : Z) (db : Db)
    : tx Db exn (option string) :=
  match get_job db job_id with
  | None => Rollback None
  | Some row =>
      if negb (owned_by job_id worker_id row) then Rollback None else
      let message_id := R.message_id row in
      let db1 := update_outbox db (has_id job_id) (fail now error) in
      if outbox_max_attempts settings <=? R.attempts row then
        let? (_, db2) := _enqueue_settlement_if_ready now db1 message_id in
        Commit (Some message_id) db2
      else Commit (Some message_id) db1
  end.

Definition _maybe_enqueue_settlement (message_id : string) (now : Z) (db : Db)
    : tx Db exn unit :=
  let? (_, db') := _enqueue_settlement_if_ready now db message_id in Commit tt db'.

Definition pipeline_messages (_ : Z) (db : Db) : tx Db exn (list string) :=
  Rollback (remove_dups (R.message_id <$>
    List.filter (λ r, bool_decide (R.job_kind r = "pipeline")) (memory_outbox db))).

(** One message of [reconcile_settlement_jobs]: was a settlement created? *)
Definition reconcile_message (message_id : string) (now : Z) (db : Db) : tx Db exn bool :=
  let existed :=
    existsb (λ r, bool_decide (R.message_id r = message_id)
                  && bool_decide (R.job_kind r = "settlement")) (memory_outbox db) in
  let? (row_id, db') := _enqueue_settlement_if_ready now db message_id in
  Commit (negb (is_null row_id) && negb existed) db'.

(** ** Candidates of a pipeline *)

Definition extracted_candidates (result_json : json) : option (list json) :=
  match result_json with
  | JDict d => match dict_get d "extracted_candidates" with Some (JList l) => Some l | _ => None end
  | _ => None
  end.

(** The extractor and the data of a checkpointed candidate, [None] to skip it. *)
Definition parse_candidate (c : json) : result exn (option (ExtractorType * dict)) :=
  match c with
  | JDict d =>
      match dict_get d "extractor" with
      | Some v =>
          match extractor_of (to_str v) with
          | Some e => Ok (match dict_get d "data" with
                          | Some (JDict (kv :: data)) => Some (e, kv :: data)
                          | _ => None
                          end)
          | None => Err (ValueError "invalid extractor checkpoint")
          end
      | None => Err (ValueError "invalid extractor checkpoint")
      end
  | _ => Err (OtherError "candidate is not a mapping")
  end.

Definition candidate_payload (ctx : MemoryContext) (e : ExtractorType) (data : dict) : dict :=
  [("ctx", JDict (_context_payload ctx)); ("extractor", JStr (extractor_value e));
   ("data", JDict data)].

Definition candidate_hash (e : ExtractorType) (data : dict) : string :=
  _stable_hash (JDict [("extractor", JStr (extractor_value e)); ("data", JDict data)]).

(** The admission of one candidate; [k] identifiers were used before. *)
Definition admit_candidate (now : Z) (pipeline : R.t) (ctx : MemoryContext) (generator : string)
    (k : nat) (c : json) (db : Db) : result exn (list string * nat * Db) :=
  with? parsed := parse_candidate c in
  match parsed with
  | None => Ok ([], k, db)
  | Some (e, data) =>
      match find_candidate db (R.message_id pipeline) (_LAYER_BY_EXTRACTOR e)
              (candidate_hash e data) with
      | Some r => Ok ([R.id r], k, db)
      | None =>
          let child_id := "mout_" +:+ take_str 24 (uuid_from generator k) in
          with? db' := insert_outbox db
            (new_row now child_id (Some (R.id pipeline)) (R.message_id pipeline)
               (R.scope_key pipeline) "candidate" (_LAYER_BY_EXTRACTOR e) (candidate_hash e data)
               (candidate_payload ctx e data)) in
          Ok ([child_id], S k, db')
      end
  end.

Fixpoint admit_candidates (now : Z) (pipeline : R.t) (ctx : MemoryContext) (generator : string)
    (k : nat) (cs : list json) (db : Db) : result exn (list string * Db) :=
  match cs with
  | [] => Ok ([], db)
  | c :: cs' =>
      with? (ids, k', db1) := admit_candidate now pipeline ctx generator k c db in
      with? (ids', db2) := admit_candidates now pipeline ctx generator k' cs' db1 in
      Ok (ids ++ ids', db2)
  end.

Definition checkpoint (candidates : list json) (child_ids : list string) : json :=
  JDict [("extracted_candidates", JList candidates);
         ("candidate_job_ids", JList (JStr <$> child_ids))].

Definition owned_pipeline (row : R.t) (r : R.t) : bool :=
  has_id (R.id row) r && bool_decide (R.status r = ObProcessing)
  && match R.lease_owner row with
     | Some o => sql_eq (R.lease_owner r) o
     | None => is_null (R.lease_owner r)
     end
  && bool_decide (R.job_kind r = "pipeline").

Definition _checkpoint_pipeline_candidates (row : R.t) (ctx : MemoryContext)
    (candidates : list json) (generator : string) (now : Z) (db : Db) : tx Db exn (list string) :=
  match List.find (owned_pipeline row) (memory_outbox db) with
  | None => Raise (RetryableMemoryError "pipeline lease was lost before candidate checkpoint")
  | Some pipeline =>
      let candidates' := default candidates (extracted_candidates (R.result_json pipeline)) in
      let? (child_ids, db1) := admit_candidates now pipeline ctx generator 0 candidates' db in
      Commit child_ids
        (update_outbox db1 (has_id (R.id pipeline)) (λ r,
           r <| R.result_json := checkpoint candidates' child_ids |> <| R.updated_at := now |>))
  end.

(** ** The ordered lane of L2 effects *)

Definition _oldest_nonterminal (db : Db) (scope_key : string) : option R.t :=
  first_row (λ r, sql_eq (R.scope_key r) scope_key
                  && bool_decide (R.layer r = "L2:procedural")
                  && negb (is_final (R.status r))) db.

(** The check [ordered_l2_effect] makes once it holds the lane. *)
Definition lane_check (scope_key job_id : string) (now : Z) (db : Db) : tx Db exn unit :=
  let deferred (retry_at : option Z) : tx Db exn unit :=
    Raise (EffectLaneDeferred (default (now + seconds 1) retry_at)) in
  match _oldest_nonterminal db scope_key with
  | None => deferred None
  | Some oldest =>
      if bool_decide (R.id oldest = job_id) then Rollback tt
      else deferred (match R.next_attempt_at oldest with
                     | Some t => Some t
                     | None => R.lease_expires_at oldest
                     end)
  end.

(** ** Processing a claimed job *)

(** The calls that leave the outbox: the extraction, the writers of the memory
    layers, the settlement of the evolution package. *)
Inductive effect_call :=
| ExtractCandidates (payload : dict)
| WriteLayered (e : ExtractorType) (data : dict) (ctx : MemoryContext)
| CompactProfile (ctx : MemoryContext)
| UpsertField (ctx : MemoryContext) (key text : string)
| UpdateMemory (memory_id text : string)
| UpdateEntryText (message_id key text : string)
| SettleTurn (message_id : string) (items : list json) (failed : bool).

Local Abbreviation prog := (prog effect_call json).

(** [{"extractor": e, "data": d} for e, d in results if d is a non-empty dict] *)
Definition candidates_of (results : json) : list json :=
  match results with
  | JDict d =>
      omap (λ kv, match kv.2 with
                  | JDict (x :: data) =>
                      Some (JDict [("extractor", JStr kv.1); ("data", JDict (x :: data))])
                  | _ => None
                  end) d
  | _ => []
  end.

Definition row_context (row : R.t) : MemoryContext :=
  _context_from_payload (get_dict (R.payload_json row) "ctx").

Definition _process_pipeline (row : R.t) : prog json :=
  let! candidates :=
    match extracted_candidates (R.result_json row) with
    | Some l => Ret l
    | None => let! results := call (ExtractCandidates (R.payload_json row)) in
              Ret (candidates_of results)
    end in
  let! generator := uuid in
  let! child_ids :=
    atomically (_checkpoint_pipeline_candidates row (row_context row) candidates generator) in
  Ret (JDict [("candidate_job_ids", JList (JStr <$> child_ids))]).

Definition _process_candidate (row : R.t) : prog json :=
  match dict_get (R.payload_json row) "extractor" with
  | None => Throw (OtherError "KeyError")
  | Some v =>
      match extractor_of (to_str v) with
      | None => Throw (ValueError "not an ExtractorType")
      | Some e =>
          call (WriteLayered e (get_dict (R.payload_json row) "data")
                  ((row_context row) <| cx_effect_id := Some (R.id row) |>))
      end
  end.

(** Lane first, for the layer whose effects are ordered. *)
Definition process_in_lane (row : R.t) : prog json :=
  match R.scope_key row with
  | Some scope =>
      if bool_decide (R.layer row = "L2:procedural") && negb (bool_decide (scope = "")) then
        let! _ := atomically (lane_check scope (R.id row)) in _process_candidate row
      else _process_candidate row
  | None => _process_candidate row
  end.

Definition _process_profile_compact (row : R.t) : prog json :=
  let! v := call (CompactProfile ((row_context row) <| cx_effect_id := Some (R.id row) |>)) in
  Ret (JDict [("compacted", v)]).

(** [if ctx.message_id: update_entry_text(...)] *)
Definition report_edit (ctx : MemoryContext) (key text : string) : prog unit :=
  match cx_message_id ctx with
  | Some m => if bool_decide (m = "") then Ret tt
              else ignore (call (UpdateEntryText m key text))
  | None => Ret tt
  end.

Definition _process_profile_edit (row : R.t) : prog json :=
  let ctx := (row_context row) <| cx_effect_id := Some (R.id row) |> in
  let key := get_str (R.payload_json row) "key" "" in
  let text := get_str (R.payload_json row) "text" "" in
  if bool_decide (key = "") || bool_decide (text = "")
  then Throw (ValueError "profile edit requires key and text")
  else match sanitize text with
       | None => Throw (ValueError "profile edit rejected by memory sanitizer")
       | Some clean =>
           let! applied := call (UpsertField ctx key clean) in
           let! _ := report_edit ctx key clean in
           Ret (JDict [("key", JStr key); ("text", JStr clean); ("applied", applied)])
       end.

Definition _process_memory_edit (row : R.t) : prog json :=
  let memory_id := get_str (R.payload_json row) "memory_id" "" in
  let text := get_str (R.payload_json row) "text" "" in
  if bool_decide (memory_id = "") || bool_decide (text = "")
  then Throw (ValueError "memory edit requires memory_id and text")
  else
    let! _ := call (UpdateMemory memory_id text) in
    let! _ := report_edit (row_context row) memory_id text in
    Ret (JDict [("id", JStr memory_id); ("text", JStr text)]).

Definition settlement_items (rows : list R.t) : list json :=
  List.concat (map (λ r,
    if bool_decide (R.job_kind r = "candidate") then
      match R.result_json r with
      | JList l => List.filter (λ v, match v with JDict _ => true | _ => false end) l
      | _ => []
      end
    else []) rows).

Definition _settlement_facts (message_id : string) (_ : Z) (db : Db)
    : tx Db exn (list json * bool) :=
  let rows := List.filter (λ r, bool_decide (R.message_id r = message_id)) (memory_outbox db) in
  Rollback (settlement_items rows,
            existsb (λ r, negb (bool_decide (R.job_kind r = "settlement"))
                          && bool_decide (R.status r = ObQuarantined)) rows).

Definition _process_settlement (row : R.t) : prog json :=
  let! (items, failed) := atomically (_settlement_facts (R.message_id row)) in
  let! summary := call (SettleTurn (R.message_id row) items failed) in
  Ret (JDict [("items", JList items); ("failed", JBool failed); ("summary", summary)]).

Definition process (row : R.t) : prog json :=
  let kind := R.job_kind row in
  if bool_decide (kind = "pipeline") then _process_pipeline row
  else if bool_decide (kind = "candidate") then process_in_lane row
  else if bool_decide (kind = "profile_compact") then _process_profile_compact row
  else if bool_decide (kind = "profile_edit") then _process_profile_edit row
  else if bool_decide (kind = "memory_edit") then _process_memory_edit row
  else if bool_decide (kind = "settlement") then _process_settlement row
  else Throw (RuntimeError ("unknown memory outbox job kind: " +:+ kind)).

(** [db.get] and [expunge]: the row as the worker saw it. *)
Definition claimed_row (job_id worker_id : string) (_ : Z) (db : Db) : tx Db exn (option R.t) :=
  Rollback (match get_job db job_id with
            | Some row => if owned_by job_id worker_id row then Some row else None
            | None => None
            end).

(** How the processing of a claimed row ended. *)
Inductive outcome := NotOwned | Finished (v : json) | Stopped (e : exn).

(** The event read on a cancellation is [lease_lost], which the heartbeat of
    the job, a client of [_renew_lease], sets when it could not renew. *)
Definition _process_claimed (job_id worker_id : string) : prog unit :=
  let! claimed := atomically (claimed_row job_id worker_id) in
  match claimed with
  | None => Ret tt
  | Some row =>
      let! o :=
        try (let! owns := atomically (_owns_lease job_id worker_id) in
             if owns then let! v := process row in Ret (Finished v) else Ret NotOwned)
        except (λ e, Ret (Stopped e)) in
      match o with
      | NotOwned => Ret tt
      | Finished v =>
          try (ignore (atomically (_finish_success job_id worker_id v)))
          except (λ e, if is_exception e
                       then ignore (atomically (_finish_failure job_id worker_id e))
                       else Throw e)
      | Stopped CancelledError =>
          let! lost := is_set in if lost then Ret tt else Throw CancelledError
      | Stopped (EffectLaneDeferred retry_at) =>
          atomically (_defer_claim job_id worker_id retry_at)
      | Stopped e => ignore (atomically (_finish_failure job_id worker_id e))
      end
  end.

(** ** Draining *)

Fixpoint drain (max_jobs : nat) (worker_id : string) : prog nat :=
  match max_jobs with
  | O => Ret O
  | S later =>
      let! job := atomically (_claim_next worker_id) in
      match job with
      | None => Ret O
      | Some job_id =>
          let! _ := _process_claimed job_id worker_id in
          let! n := drain later worker_id in
          Ret (S n)
      end
  end.

Definition job_snapshot (job_id : string) (_ : Z) (db : Db)
    : tx Db exn (option (OutboxStatus * json * option string)) :=
  Rollback ((λ r, (R.status r, R.result_json r, R.last_error r)) <$> get_job db job_id).

(** The polls of [consume_outbox_job] until its deadline. *)
Fixpoint poll_job (polls : nat) (job_id : string)
    : prog (OutboxStatus * json * option string) :=
  let! found := atomically (job_snapshot job_id) in
  match found with
  | None => Throw (RuntimeError ("outbox job disappeared: " +:+ job_id))
  | Some (s, v, e) =>
      if is_final s || bool_decide (s = ObRetry) then Ret (s, v, e)
      else match polls with
           | O => Ret (s, v, e)
           | S polls' => poll_job polls' job_id
           end
  end.

Definition consume_outbox_job (polls : nat) (worker_id job_id : string)
    : prog (OutboxStatus * json * option string) :=
  let! mine := atomically (_claim_specific job_id worker_id) in
  let! _ := if mine then _process_claimed job_id worker_id else Ret tt in
  poll_job polls job_id.

Fixpoint reconcile_messages (ms : list string) : prog nat :=
  match ms with
  | [] => Ret O
  | m :: ms' =>
      let! created := atomically (reconcile_message m) in
      let! n := reconcile_messages ms' in
      Ret ((if created then 1 else 0) + n)%nat
  end.

Definition reconcile_settlement_jobs : prog nat :=
  let! ms := atomically pipeline_messages in reconcile_messages ms.

(** ** The admissions as programs *)

Definition _enqueue (message_id job_kind layer candidate_hash : string) (payload : dict)
    (parent_id scope_key : option string) : prog string :=
  let! u := uuid in
  try (atomically (insert_job ("mout_" +:+ take_str 24 u) parent_id message_id job_kind layer
                     candidate_hash payload scope_key))
  except (λ e, match e with
               | IntegrityError => atomically (existing_job message_id layer candidate_hash e)
               | _ => Throw e
               end).

Definition enqueue_pipeline_job (ctx : MemoryContext) (user_message assistant_message : string)
    : prog string :=
  let payload := [("ctx", JDict (_context_payload ctx)); ("user_message", JStr user_message);
                  ("assistant_message", JStr assistant_message)] in
  let h := _stable_hash (JDict payload) in
  _enqueue (_effective_message_id ctx h) "pipeline" "pipeline" h payload None
    (Some (_scope_key ctx)).

Definition enqueue_candidate_job (parent_id : string) (ctx : MemoryContext) (e : ExtractorType)
    (data : dict) : prog string :=
  let h := candidate_hash e data in
  _enqueue (_effective_message_id ctx h) "candidate" (_LAYER_BY_EXTRACTOR e) h
    (candidate_payload ctx e data) (Some parent_id) (Some (_scope_key ctx)).

(** [revision]: of the profile snapshot read before. *)
Definition enqueue_profile_compaction (ctx : MemoryContext) (revision : Z) : prog string :=
  let h := _stable_hash (JDict [("user_id", JStr (cx_user_id ctx));
                                ("workspace_id", JStr (cx_workspace_id ctx));
                                ("revision", JInt revision)]) in
  _enqueue (_effective_message_id ctx h) "profile_compact" "L1:compact" h
    [("ctx", JDict (_context_payload ctx)); ("requested_revision", JInt revision)] None
    (Some (_scope_key ctx)).

Definition edit_id (operation_id : option string) : prog string :=
  match operation_id with
  | Some o => if bool_decide (o = "") then let! u := uuid in Ret ("edit_" +:+ u) else Ret o
  | None => let! u := uuid in Ret ("edit_" +:+ u)
  end.

(** The two edits: [field] is [key] or [memory_id]. *)
Definition enqueue_edit (kind layer field : string) (ctx : MemoryContext) (target text : string)
    (operation_id : option string) : prog string :=
  let! op := edit_id operation_id in
  let h := _stable_hash (JDict [("operation_id", JStr op); (field, JStr target);
                                ("text", JStr text)]) in
  _enqueue (_effective_message_id ctx h) kind layer h
    [("ctx", JDict (_context_payload ctx)); (field, JStr target); ("text", JStr text);
     ("operation_id", JStr op)] None (Some (_scope_key ctx)).

Definition enqueue_profile_edit_job : MemoryContext → string → string → option string → prog string :=
  enqueue_edit "profile_edit" "L1:profile_edit" "key".
Definition enqueue_memory_edit_job : MemoryContext → string → string → option string → prog string :=
  enqueue_edit "memory_edit" "L2:memory_edit" "memory_id".
End host.
End Outbox.
