(* ===== verification/OutboxProps.v ===== *)
(** * Invariants of the memory outbox

    The abstract job machine every row follows, the well-formedness of the
    table, and that every transaction of the outbox keeps both. *)

From S2P Require Import Prelude Db PyString ToolPolicies Program Outbox.
Import Outbox.

(** ** The abstract job machine *)

Inductive JobState :=
| Due (not_before : option Z)
| Leased (owner : string) (until : Z)
| Done (result_ : json)
| Dead.

Record Job := mkJob { j_state : JobState; j_attempts : Z }.

(** What [actor], a worker or nobody in particular, may do to a job at [now]. *)
Inductive job_step (max_attempts : Z) (actor : option string) (now : Z) : Job → Job → Prop :=
| js_claim w t until n :
    actor = Some w → (∀ at_, t = Some at_ → at_ ≤ now) → now < until →
    job_step max_attempts actor now (mkJob (Due t) n) (mkJob (Leased w until) (n + 1))
| js_renew w until until' n :
    actor = Some w → now < until' →
    job_step max_attempts actor now (mkJob (Leased w until) n) (mkJob (Leased w until') n)
| js_succeed w until n v :
    actor = Some w →
    job_step max_attempts actor now (mkJob (Leased w until) n) (mkJob (Done v) n)
| js_retry w until n at_ :
    actor = Some w → n < max_attempts →
    job_step max_attempts actor now (mkJob (Leased w until) n) (mkJob (Due (Some at_)) n)
| js_quarantine w until n :
    actor = Some w → max_attempts ≤ n →
    job_step max_attempts actor now (mkJob (Leased w until) n) (mkJob Dead n)
| js_defer w until n at_ :
    actor = Some w → now < at_ →
    job_step max_attempts actor now (mkJob (Leased w until) n)
      (mkJob (Due (Some at_)) (Z.max 0 (n - 1)))
| js_release w until n :
    actor = Some w →
    job_step max_attempts actor now (mkJob (Leased w until) n) (mkJob (Due (Some now)) n)
| js_expire w until n :
    until ≤ now →
    job_step max_attempts actor now (mkJob (Leased w until) n) (mkJob (Due (Some now)) n).

Definition abs (r : R.t) : Job :=
  mkJob match R.status r with
        | ObPending => Due None
        | ObRetry => Due (R.next_attempt_at r)
        | ObProcessing => Leased (default "" (R.lease_owner r)) (default 0 (R.lease_expires_at r))
        | ObSucceeded => Done (R.result_json r)
        | ObQuarantined => Dead
        end (R.attempts r).

Definition final (r : R.t) : Prop := is_final (R.status r) = true.

(** The request of a row never changes, and nothing at all once it is final. *)
Record same_request (r r' : R.t) : Prop := {
  sq_id : R.id r' = R.id r;
  sq_message : R.message_id r' = R.message_id r;
  sq_kind : R.job_kind r' = R.job_kind r;
  sq_layer : R.layer r' = R.layer r;
  sq_hash : R.candidate_hash r' = R.candidate_hash r;
  sq_scope : R.scope_key r' = R.scope_key r;
  sq_payload : R.payload_json r' = R.payload_json r;
  sq_created : R.created_at r' = R.created_at r;
  sq_final : final r → r' = r
}.

#[export] Instance same_request_preorder : PreOrder same_request.
Proof.
  split; [intros r; by split|]. intros a b c [] []. split; try congruence.
  intros Hf. assert (b = a) as -> by auto. auto.
Qed.

(** ** Tables *)

Section tables.
Context {A : Type} (ev : A → A → Prop).

Lemma update_where_Forall2 `{!Reflexive ev} p f l :
  (∀ x, x ∈ l → p x = true → ev x (f x)) → Forall2 ev l (update_where p f l).
Proof using Type.
  unfold update_where. induction l as [|x l IH]; intros H; simpl; constructor.
  - destruct (p x) eqn:E; [apply H; [left|done]|reflexivity].
  - apply IH. intros y Hy. apply H. by right.
Qed.

Lemma Forall2_elem_r l l' y : Forall2 ev l l' → y ∈ l' → ∃ x, x ∈ l ∧ ev x y.
Proof using Type.
  induction 1 as [|x y' l l' Hxy HF IH]; intros Hy; [by apply not_elem_of_nil in Hy|].
  apply elem_of_cons in Hy as [->|Hy]; [exists x; by split; [left|]|].
  destruct (IH Hy) as (z & ? & ?). exists z. by split; [right|].
Qed.

Lemma Forall2_elem_l l l' x : Forall2 ev l l' → x ∈ l → ∃ y, y ∈ l' ∧ ev x y.
Proof using Type.
  induction 1 as [|x' y l l' Hxy HF IH]; intros Hx; [by apply not_elem_of_nil in Hx|].
  apply elem_of_cons in Hx as [->|Hx]; [exists y; by split; [left|]|].
  destruct (IH Hx) as (z & ? & ?). exists z. by split; [right|].
Qed.

Lemma Forall2_fmap_same {B} (g : A → B) l l' :
  (∀ x y, ev x y → g y = g x) → Forall2 ev l l' → g <$> l' = g <$> l.
Proof using Type. intros Hg HF. induction HF; simpl; [done|]. f_equal; auto. Qed.

(** A table whose rows evolved, and new rows after them. *)
Definition grows_by (fresh : A → Prop) (l l' : list A) : Prop :=
  ∃ old new, l' = old ++ new ∧ Forall2 ev l old ∧ Forall fresh new.

Lemma grows_by_refl `{!Reflexive ev} fresh l : grows_by fresh l l.
Proof using Type. exists l, []. rewrite app_nil_r. split_and!; [done|reflexivity|constructor]. Qed.

Lemma grows_by_trans `{!Transitive ev} (fresh : A → Prop) l1 l2 l3 :
  (∀ x y, fresh x → ev x y → fresh y) →
  grows_by fresh l1 l2 → grows_by fresh l2 l3 → grows_by fresh l1 l3.
Proof using Type.
  intros Hfr (o1 & n1 & -> & F1 & N1) (o2 & n2 & -> & F2 & N2).
  apply Forall2_app_inv_l in F2 as (a & b & Fa & Fb & ->).
  exists a, (b ++ n2). rewrite app_assoc. split_and!; [done|by etrans|].
  apply Forall_app. split; [|done]. apply Forall_forall. intros y Hy.
  destruct (Forall2_elem_r _ _ _ Fb Hy) as (x & Hx & Hev).
  eapply Hfr; [|exact Hev]. rewrite Forall_forall in N1. by apply N1.
Qed.
End tables.

Section host.
Context `{Host} `{OutboxHost} (settings : Settings).
Abbreviation step := (job_step (outbox_max_attempts settings)).

(** ** Well-formed tables *)

Definition is_effect (m : string) (r : R.t) : Prop :=
  R.message_id r = m ∧ R.job_kind r ≠ "settlement".

Definition has_settlement (l : list R.t) (m : string) : Prop :=
  ∃ s, s ∈ l ∧ same_candidate m "settlement" (_settlement_hash m) s = true.

(** A message whose effects are all final is not left without a settlement. *)
Definition settled_at (l : list R.t) (m : string) : Prop :=
  (∃ r, r ∈ l ∧ R.message_id r = m ∧ R.job_kind r = "pipeline") →
  (∀ r, r ∈ l → is_effect m r → final r) → has_settlement l m.

(** A settlement comes after the effects it reports, and they are final. *)
Definition reports_final (l : list R.t) : Prop :=
  ∀ l1 s l2, l = l1 ++ s :: l2 → R.job_kind s = "settlement" →
    ∀ r, r ∈ l1 → is_effect (R.message_id s) r → final r.

(** Settlements, and only they, live in their layer, under the key of their
    message. *)
Definition settlement_ok (s : R.t) : Prop :=
  R.job_kind s = "settlement" ∨ R.layer s = "settlement" →
  R.job_kind s = "settlement" ∧
  same_candidate (R.message_id s) "settlement" (_settlement_hash (R.message_id s)) s = true.

Record table_wf (l : list R.t) : Prop := {
  tw_ids : NoDup (R.id <$> l);
  tw_keys : NoDup ((λ r, (R.message_id r, R.layer r, R.candidate_hash r)) <$> l);
  tw_leased : ∀ r, r ∈ l → R.status r = ObProcessing →
    is_Some (R.lease_owner r) ∧ is_Some (R.lease_expires_at r);
  tw_settlement : ∀ s, s ∈ l → settlement_ok s;
  tw_settled : ∀ m, settled_at l m;
  tw_reports : reports_final l
}.

Definition outbox_wf (db : Db) : Prop := table_wf (memory_outbox db).

(** ** What one transaction does *)

(** A row moved as the abstract machine allows [actor] to. *)
Definition row_step (actor : option string) (now : Z) (r r' : R.t) : Prop :=
  same_request r r' ∧ rtc (step actor now) (abs r) (abs r').

#[export] Instance row_step_preorder actor now : PreOrder (row_step actor now).
Proof.
  split; [intros r; by split|]. intros a b c [] []. split; by etrans.
Qed.

(** A job nobody has touched, and what the actor may have made of it. *)
Definition unstarted : Job := mkJob (Due None) 0.
Definition from_new (actor : option string) (now : Z) (r : R.t) : Prop :=
  rtc (step actor now) unstarted (abs r).

(** Every job of before took steps of the actor; the others are new. *)
Definition jobs_step (actor : option string) (now : Z) (db db' : Db) : Prop :=
  grows_by (row_step actor now) (from_new actor now) (memory_outbox db) (memory_outbox db').

#[export] Instance jobs_step_preorder actor now : PreOrder (jobs_step actor now).
Proof.
  split; [intros db; by apply grows_by_refl, _|].
  intros a b c Hab Hbc. eapply grows_by_trans; [apply _| |exact Hab|exact Hbc].
  intros x y Hx [_ Hxy]. unfold from_new in *. by etrans.
Qed.

Definition outbox_step (actor : option string) (now : Z) (db db' : Db) : Prop :=
  outbox_wf db → outbox_wf db' ∧ jobs_step actor now db db'.

#[export] Instance outbox_step_preorder actor now : PreOrder (outbox_step actor now).
Proof.
  split; [by intros db Hw|]. intros a b c Hab Hbc Hw.
  destruct (Hab Hw) as [Hb J1]. destruct (Hbc Hb) as [Hc J2]. split; [done|by etrans].
Qed.

(** [l'] is [l] after steps in which only rows of the message [m] may have
    become final. *)
Definition evolved (actor : option string) (now : Z) (m : option string) (l l' : list R.t) : Prop :=
  Forall2 (λ r r', row_step actor now r r' ∧
                   (final r' → final r ∨ Some (R.message_id r) = m) ∧
                   (R.status r' = ObProcessing → is_Some (R.lease_owner r') ∧
                                                 is_Some (R.lease_expires_at r'))) l l'.

Lemma evolved_requests a now m l l' : evolved a now m l l' → Forall2 same_request l l'.
Proof. intros He. eapply Forall2_impl; [exact He|]. by intros r r' [[? _] _]. Qed.

Lemma evolved_steps a now m l l' : evolved a now m l l' → Forall2 (row_step a now) l l'.
Proof. intros He. eapply Forall2_impl; [exact He|]. by intros r r' [? _]. Qed.

Lemma same_candidate_request m y h r r' :
  same_request r r' → same_candidate m y h r' = same_candidate m y h r.
Proof. intros [? E1 ? E2 E3]. unfold same_candidate. by rewrite E1, E2, E3. Qed.

Lemma is_effect_request m r r' : same_request r r' → is_effect m r' ↔ is_effect m r.
Proof. intros [? E1 E2]. unfold is_effect. by rewrite E1, E2. Qed.

(** All of [table_wf] but that the message [m] is settled. *)
Record table_wf_but (m : option string) (l : list R.t) : Prop := {
  tb_ids : NoDup (R.id <$> l);
  tb_keys : NoDup ((λ r, (R.message_id r, R.layer r, R.candidate_hash r)) <$> l);
  tb_leased : ∀ r, r ∈ l → R.status r = ObProcessing →
    is_Some (R.lease_owner r) ∧ is_Some (R.lease_expires_at r);
  tb_settlement : ∀ s, s ∈ l → settlement_ok s;
  tb_settled : ∀ m', Some m' ≠ m → settled_at l m';
  tb_reports : reports_final l
}.

Lemma table_wf_but_none l : table_wf_but None l ↔ table_wf l.
Proof. split; intros []; split; eauto. Qed.

Lemma settled_at_evolved a now m l l' m' :
  evolved a now m l l' → Some m' ≠ m → settled_at l m' → settled_at l' m'.
Proof.
  intros He Hne Hs (r' & Hr' & Hm & Hk) Hall.
  destruct (Forall2_elem_r _ _ _ _ (evolved_requests _ _ _ _ _ He) Hr') as (r & Hr & Hsq).
  destruct Hs as (s & Hin & Hc).
  - exists r. split; [done|]. by rewrite <- (sq_message _ _ Hsq), <- (sq_kind _ _ Hsq).
  - intros x Hx Heff. destruct (Forall2_elem_l _ _ _ _ He Hx) as (x' & Hx' & [[Hsq' _] [Hf _]]).
    destruct Hf as [?|E]; [|done|destruct Heff; congruence].
    apply Hall; [done|]. by apply (is_effect_request m' x x').
  - destruct (Forall2_elem_l _ _ _ _ (evolved_requests _ _ _ _ _ He) Hin) as (s' & Hin' & Hsq').
    exists s'. split; [done|]. by rewrite (same_candidate_request _ _ _ _ _ Hsq').
Qed.

Lemma evolved_wf a now m l l' : evolved a now m l l' → table_wf l → table_wf_but m l'.
Proof.
  intros He [W1 W2 W3 W4 W5 W6]. pose proof (evolved_requests _ _ _ _ _ He) as Hq. split.
  - rewrite (Forall2_fmap_same same_request _ l); [done|by intros ?? []|done].
  - rewrite (Forall2_fmap_same same_request _ l); [done|intros ?? []; congruence|done].
  - intros r' Hr'. destruct (Forall2_elem_r _ _ _ _ He Hr') as (r & _ & _ & _ & Hl). done.
  - intros s' Hs'. destruct (Forall2_elem_r _ _ _ _ Hq Hs') as (s & Hs & Hsq).
    unfold settlement_ok. rewrite (same_candidate_request _ _ _ _ _ Hsq), (sq_message _ _ Hsq).
    rewrite (sq_kind _ _ Hsq), (sq_layer _ _ Hsq). by apply W4.
  - intros m' Hne. by eapply settled_at_evolved.
  - intros l1' s' l2' -> Hk r' Hr' Heff.
    apply Forall2_app_inv_r in Hq as (l1 & l2 & Q1 & Q2 & ->).
    inversion Q2 as [|s ? l3 ? Hss Q3]; subst.
    destruct (Forall2_elem_r _ _ _ _ Q1 Hr') as (r & Hr & Hrr).
    assert (final r) as Hf.
    { apply (W6 l1 s l3 eq_refl); [by rewrite <- (sq_kind _ _ Hss)|done|].
      rewrite <- (sq_message _ _ Hss). by apply (is_effect_request _ r r'). }
    by rewrite (sq_final _ _ Hrr Hf).
Qed.

Lemma evolved_refl a now m l : table_wf l → evolved a now m l l.
Proof.
  intros W. unfold evolved. pose proof (tw_leased _ W) as W3. clear W.
  induction l as [|r l IH]; constructor.
  - split_and!; [done|by left|]. apply W3. left.
  - apply IH. intros x Hx. apply W3. by right.
Qed.

(** ** Appending a row *)

Lemma insert_outbox_spec db row db' : insert_outbox db row = Ok db' →
  memory_outbox db' = memory_outbox db ++ [row] ∧
  ∀ r, r ∈ memory_outbox db → R.id r ≠ R.id row ∧
    (R.message_id r, R.layer r, R.candidate_hash r) ≠
    (R.message_id row, R.layer row, R.candidate_hash row).
Proof.
  unfold insert_outbox. destruct (existsb _ _) eqn:E; [done|]. intros [= <-].
  split; [done|]. intros r Hr. assert (outbox_conflict row r = false) as Hc.
  { destruct (outbox_conflict row r) eqn:Hc; [|done]. exfalso.
    assert (existsb (outbox_conflict row) (memory_outbox db) = true); [|congruence].
    apply existsb_exists. exists r. split; [by apply list_elem_of_In|done]. }
  unfold outbox_conflict in Hc. split; intros Heq.
  - rewrite bool_decide_true in Hc; done.
  - injection Heq as E1 E2 E3. apply orb_false_iff in Hc as [_ Hc].
    by rewrite E1, E2, E3, !bool_decide_true in Hc.
Qed.

Lemma reports_final_snoc l row :
  reports_final l →
  (R.job_kind row = "settlement" → ∀ r, r ∈ l → is_effect (R.message_id row) r → final r) →
  reports_final (l ++ [row]).
Proof.
  intros Hl Hrow l1 s l2 E Hk r Hr Heff. destruct (decide (l2 = [])) as [->|Hne].
  - apply app_inj_tail in E as [-> ->]. by apply Hrow.
  - destruct (exists_last Hne) as (l3 & x & ->).
    rewrite (app_comm_cons l3 [x] s), app_assoc in E.
    apply app_inj_tail in E as [-> ->]. by eapply (Hl l1 s l3).
Qed.

Lemma snoc_wf_but m l row :
  table_wf_but m l → (∀ r, r ∈ l → R.id r ≠ R.id row ∧
    (R.message_id r, R.layer r, R.candidate_hash r) ≠
    (R.message_id row, R.layer row, R.candidate_hash row)) →
  R.status row = ObPending →
  settlement_ok row →
  (R.job_kind row = "settlement" → ∀ r, r ∈ l → is_effect (R.message_id row) r → final r) →
  table_wf_but (if decide (R.job_kind row = "settlement" ∧ Some (R.message_id row) = m)
                then None else m) (l ++ [row]).
Proof.
  intros [W1 W2 W3 W4 W5 W6] Hnew Hst Hok Hsettle. split.
  - rewrite fmap_app. apply NoDup_snoc; [done|]. intros y (r & -> & Hr)%list_elem_of_fmap.
    by apply Hnew.
  - rewrite fmap_app. apply NoDup_snoc; [done|]. intros y (r & -> & Hr)%list_elem_of_fmap.
    by apply Hnew.
  - intros r [Hr| ->%list_elem_of_singleton]%elem_of_app; [by apply W3|congruence].
  - intros r [Hr| ->%list_elem_of_singleton]%elem_of_app; [by apply W4|done].
  - intros m' Hm'. destruct (decide (R.job_kind row = "settlement" ∧ R.message_id row = m'))
      as [[Hk Hmm]|Hn].
    + subst m'. intros _ _. exists row. split; [set_solver|]. by apply Hok; left.
    + intros (r & Hr & Hrm & Hrk) Hall. destruct (W5 m') as (s & Hs & Hc).
      * intros <-. destruct (decide _) as [[? [= ?]]|]; [by destruct Hn|done].
      * apply elem_of_app in Hr as [Hr| ->%list_elem_of_singleton]; [by exists r|].
        exfalso. assert (final row) as Hf.
        { apply Hall; [set_solver|]. split; [done|]. rewrite Hrk. done. }
        unfold final in Hf. by rewrite Hst in Hf.
      * intros x Hx. apply Hall. set_solver.
      * exists s. split; [set_solver|done].
  - by apply reports_final_snoc.
Qed.

Lemma snoc_jobs a now db db' row :
  memory_outbox db' = memory_outbox db ++ [row] → abs row = unstarted → jobs_step a now db db'.
Proof.
  intros E Ha. exists (memory_outbox db), [row]. split_and!; [done|reflexivity|].
  constructor; [|constructor]. unfold from_new. by rewrite Ha.
Qed.

(** ** Admission *)

Lemma insert_step a now db row db' :
  insert_outbox db row = Ok db' → R.job_kind row ≠ "settlement" → R.layer row ≠ "settlement" →
  R.status row = ObPending →
  R.attempts row = 0 → outbox_step a now db db'.
Proof.
  intros [E Hnew]%insert_outbox_spec Hk Hy Hs Hn Hw. split.
  - unfold outbox_wf. rewrite E. apply table_wf_but_none.
    pose proof (snoc_wf_but None (memory_outbox db) row) as Hsn.
    rewrite decide_False in Hsn by (by intros [? _]).
    apply Hsn; [by apply table_wf_but_none|done|done|by intros [?|?]|done].
  - apply (snoc_jobs _ _ _ _ row E). unfold abs. by rewrite Hs, Hn.
Qed.

Lemma same_outbox_step a now db db' :
  memory_outbox db' = memory_outbox db → outbox_step a now db db'.
Proof.
  intros E Hw. unfold outbox_wf, jobs_step in *. rewrite E. split; [done|].
  apply grows_by_refl, _.
Qed.

(** ** Settlement *)

Lemma first_row_none p db r : first_row p db = None → r ∈ memory_outbox db → p r = false.
Proof.
  unfold first_row. destruct (order_by _ _) as [|x l] eqn:E; [|done]. intros _ Hr.
  destruct (p r) eqn:Hp; [exfalso|done].
  assert (r ∈ order_by row_leb (List.filter p (memory_outbox db))) as Hin.
  { apply elem_of_order_by, list_elem_of_In, filter_In. split; [by apply list_elem_of_In|done]. }
  rewrite E in Hin. by apply not_elem_of_nil in Hin.
Qed.

Lemma first_row_some p db r : first_row p db = Some r → r ∈ memory_outbox db ∧ p r = true.
Proof.
  unfold first_row. destruct (order_by _ _) as [|x l] eqn:E; [done|]. intros [= ->].
  assert (r ∈ List.filter p (memory_outbox db)) as Hin.
  { eapply elem_of_order_by. rewrite E. left. }
  apply list_elem_of_In, filter_In in Hin as [Hin Hp]. split; [by apply list_elem_of_In|done].
Qed.

Lemma elem_of_effect_rows db m r :
  r ∈ effect_rows db m ↔ r ∈ memory_outbox db ∧ is_effect m r.
Proof.
  unfold effect_rows, is_effect. rewrite list_elem_of_In, filter_In, <- list_elem_of_In.
  rewrite andb_true_iff, negb_true_iff, bool_decide_eq_true, bool_decide_eq_false. done.
Qed.

Lemma find_candidate_some db m y h r : find_candidate db m y h = Some r →
  r ∈ memory_outbox db ∧ same_candidate m y h r = true.
Proof. intros [Hin Hp]%find_some. split; [by apply list_elem_of_In|done]. Qed.

Lemma table_wf_settled m l : table_wf_but (Some m) l → settled_at l m → table_wf l.
Proof.
  intros [] Hs. split; try done. intros m'. destruct (decide (m' = m)) as [->|Hne]; [done|].
  apply tb_settled0. congruence.
Qed.

Lemma enqueue_settlement_wf now db m x db' a :
  table_wf_but (Some m) (memory_outbox db) →
  _enqueue_settlement_if_ready now db m = Ok (x, db') →
  outbox_wf db' ∧ jobs_step a now db db'.
Proof.
  intros Hw. unfold _enqueue_settlement_if_ready, _lock_pipeline_row.
  destruct (first_row _ db) as [p|] eqn:Ep.
  2: { intros [= <- <-]. split; [|reflexivity]. apply (table_wf_settled m); [done|].
       intros (r & Hr & Hm & Hk) _. eapply first_row_none in Ep; [|exact Hr].
       by rewrite !bool_decide_true in Ep. }
  apply first_row_some in Ep as [Hp Hpp]. bool_simpl.
  assert (p ∈ effect_rows db m) as Hpe.
  { apply elem_of_effect_rows. split; [done|]. split; [done|]. by rewrite H2. }
  destruct (bool_decide (effect_rows db m = []) || _) eqn:Er.
  { intros [= <- <-]. split; [|reflexivity]. apply (table_wf_settled m); [done|].
    intros _ Hall. exfalso. apply orb_true_iff in Er as [E|E].
    - apply bool_decide_eq_true in E. rewrite E in Hpe. by apply not_elem_of_nil in Hpe.
    - apply existsb_exists in E as (r & Hr & Hn). apply list_elem_of_In in Hr.
      apply elem_of_effect_rows in Hr as [Hr Heff]. unfold final in Hall.
      by rewrite (Hall r Hr Heff) in Hn. }
  apply orb_false_iff in Er as [_ Er].
  assert (∀ r, r ∈ memory_outbox db → is_effect m r → final r) as Hfin.
  { intros r Hr Heff. unfold final. destruct (is_final (R.status r)) eqn:E; [done|].
    assert (existsb (λ r, negb (is_final (R.status r))) (effect_rows db m) = true); [|congruence].
    apply existsb_exists. exists r. rewrite E. split; [|done].
    by apply list_elem_of_In, elem_of_effect_rows. }
  destruct (find_candidate _ _ _ _) as [s|] eqn:Ef.
  { intros [= <- <-]. split; [|reflexivity]. apply (table_wf_settled m); [done|]. intros _ _.
    apply find_candidate_some in Ef. by exists s. }
  destruct (insert_outbox db _) as [db1|] eqn:Ei; [|done]. intros [= <- <-].
  apply insert_outbox_spec in Ei as [E Hnew]. split; [|by eapply snoc_jobs].
  unfold outbox_wf. rewrite E.
  pose proof (snoc_wf_but (Some m) (memory_outbox db) (settlement_row now m)) as Hsn.
  rewrite decide_True in Hsn by done. apply table_wf_but_none, Hsn; [done|done|done| |done].
  intros _. split; [done|]. unfold same_candidate. simpl. by rewrite !bool_decide_true.
Qed.

(** ** Updates *)

(** What an update may do to a row it selects. *)
Record row_move (actor : option string) (now : Z) (m : option string) (r r' : R.t) : Prop := {
  rm_request : same_request r r';
  rm_steps : rtc (step actor now) (abs r) (abs r');
  rm_final : final r' → Some (R.message_id r) = m;
  rm_leased : R.status r' = ObProcessing →
    is_Some (R.lease_owner r') ∧ is_Some (R.lease_expires_at r')
}.

Lemma update_evolved a now m l p f :
  table_wf l → (∀ r, r ∈ l → p r = true → row_move a now m r (f r)) →
  evolved a now m l (update_where p f l).
Proof.
  intros Hw Hf. pose proof (tw_leased _ Hw) as Hl. clear Hw. unfold evolved, update_where.
  induction l as [|r l IH]; simpl; constructor.
  - destruct (p r) eqn:Hp.
    + destruct (Hf r) as [? ? ? ?]; [left|done|]. split_and!; [by split|auto..].
    + split_and!; [done|by left|]. apply Hl. left.
  - apply IH; intros x Hx; [apply Hf|apply Hl]; by right.
Qed.

Lemma evolved_jobs a now m l db db' :
  evolved a now m (memory_outbox db) l → memory_outbox db' = l → jobs_step a now db db'.
Proof.
  intros He <-. exists (memory_outbox db'), []. rewrite app_nil_r.
  split_and!; [done|by eapply evolved_steps|constructor].
Qed.

(** An update after which no message has to be settled. *)
Lemma update_step a now db p f :
  (∀ r, r ∈ memory_outbox db → p r = true → row_move a now None r (f r)) →
  outbox_step a now db (update_outbox db p f).
Proof.
  intros Hf Hw. pose proof (update_evolved a now None _ p f Hw Hf) as He.
  split; [|by eapply evolved_jobs]. apply table_wf_but_none. by eapply evolved_wf.
Qed.

(** An update that finishes a job of [m], then the settlement of [m]. *)
Lemma finish_step a now db p f m db1 x db' :
  (outbox_wf db → ∀ r, r ∈ memory_outbox db → p r = true → row_move a now (Some m) r (f r)) →
  memory_outbox db1 = memory_outbox (update_outbox db p f) →
  _enqueue_settlement_if_ready now db1 m = Ok (x, db') → outbox_step a now db db'.
Proof.
  intros Hf E Hs Hw. pose proof (update_evolved a now (Some m) _ p f Hw (Hf Hw)) as He.
  assert (table_wf_but (Some m) (memory_outbox db1)) as Hb.
  { rewrite E. by eapply evolved_wf. }
  destruct (enqueue_settlement_wf now db1 m x db' a Hb Hs) as [Hw' Hj]. split; [done|].
  etrans; [|exact Hj]. by eapply evolved_jobs.
Qed.

Lemma owned_by_true job w r : owned_by job w r = true →
  R.id r = job ∧ R.status r = ObProcessing ∧ R.lease_owner r = Some w.
Proof. unfold owned_by, has_id. intros. bool_simpl. by rewrite <- sql_eq_true. Qed.

Lemma same_id db r r' : outbox_wf db → r ∈ memory_outbox db → r' ∈ memory_outbox db →
  R.id r = R.id r' → r = r'.
Proof. intros Hw. eapply NoDup_fmap_elem. apply Hw. Qed.

Lemma get_job_some db job r : get_job db job = Some r → r ∈ memory_outbox db ∧ R.id r = job.
Proof.
  intros [Hin Hp]%find_some. unfold has_id in Hp. bool_simpl.
  split; [by apply list_elem_of_In|done].
Qed.

Lemma processing_not_final r : R.status r = ObProcessing → ¬ final r.
Proof. unfold final. by intros ->. Qed.

Lemma due_true now r : due now r = true →
  R.status r = ObPending ∨
  R.status r = ObRetry ∧ ∀ t, R.next_attempt_at r = Some t → t ≤ now.
Proof.
  unfold due. intros [Hp|Hr]%orb_true_iff; bool_simpl; [by left|right]. split; [done|].
  intros t Ht. rewrite Ht in H2. destruct H2 as [|H2]; [done|by apply Z.leb_le].
Qed.

Lemma due_not_final now r : due now r = true → ¬ final r.
Proof. unfold final. by intros [->|[-> _]]%due_true. Qed.

(** ** The moves *)

Lemma start_move now w r : due now r = true →
  row_move (Some w) now None r (start_processing settings now w r).
Proof.
  intros Hd. pose proof (due_not_final _ _ Hd). split; [by split| |by intros|done].
  apply rtc_once. unfold abs, start_processing, lease_until. simpl.
  destruct (due_true _ _ Hd) as [->|[-> Ht]]; apply js_claim; try done; unfold seconds; lia.
Qed.

Lemma back_move a now reason r :
  R.status r = ObProcessing →
  (a = R.lease_owner r ∧ is_Some a ∨ ∃ e, R.lease_expires_at r = Some e ∧ e ≤ now) →
  row_move a now None r (back_to_retry now reason r).
Proof.
  intros Hs Hwhy. pose proof (processing_not_final _ Hs). split; [by split| |by intros|done].
  apply rtc_once. unfold abs. simpl. rewrite Hs.
  destruct Hwhy as [[-> [w ->]]|(e & -> & He)]; [by apply js_release|by apply js_expire].
Qed.

Lemma owned_moves job w now r r' m :
  owned_by job w r = true →
  same_request r r' →
  (∀ u, step (Some w) now (mkJob (Leased w u) (R.attempts r)) (abs r')) →
  (final r' → Some (R.message_id r) = m) →
  (R.status r' = ObProcessing →
    is_Some (R.lease_owner r') ∧ is_Some (R.lease_expires_at r')) →
  row_move (Some w) now m r r'.
Proof.
  intros (_ & Hs & Ho)%owned_by_true Hq Hst Hf Hl. split; [done| |done|done].
  apply rtc_once. unfold abs at 1. rewrite Hs, Ho. apply Hst.
Qed.

Lemma owned_request job w r r' :
  owned_by job w r = true → R.id r' = R.id r → R.message_id r' = R.message_id r →
  R.job_kind r' = R.job_kind r → R.layer r' = R.layer r →
  R.candidate_hash r' = R.candidate_hash r → R.scope_key r' = R.scope_key r →
  R.payload_json r' = R.payload_json r → R.created_at r' = R.created_at r → same_request r r'.
Proof.
  intros (_ & Hs & _)%owned_by_true. intros. split; try done.
  intros Hf. by apply processing_not_final in Hf.
Qed.

(** ** Every transaction of the outbox *)

Lemma expire_step a now db : outbox_step a now db (expire_leases now db).
Proof.
  apply update_step. intros r _ Hp. unfold expired in Hp. bool_simpl. apply back_move; [done|].
  right. by apply sql_le_true.
Qed.

Lemma claim_next_step w now db x db' :
  _claim_next settings w now db = Commit x db' → outbox_step (Some w) now db db'.
Proof.
  unfold _claim_next. intros E Hw. destruct (expire_step (Some w) now db Hw) as [Hw1 J1].
  destruct (first_row _ _) as [row|] eqn:Er; simplify_eq; [|done].
  apply first_row_some in Er as [Hrow Hd].
  match goal with |- context [update_outbox _ ?p ?f] =>
    destruct (update_step (Some w) now (expire_leases now db) p f) as [Hw2 J2];
      [intros r Hr Hp|done|split; [done|by etrans]] end.
  unfold has_id in Hp. bool_simpl. assert (r = row) as -> by by eapply same_id.
  by apply start_move.
Qed.

Lemma claim_specific_step job w now db x db' :
  _claim_specific settings job w now db = Commit x db' → outbox_step (Some w) now db db'.
Proof.
  intros [= <- <-]. apply update_step. intros r _ Hp. bool_simpl. by apply start_move.
Qed.

Lemma renew_step job w now db x db' :
  _renew_lease settings job w now db = Commit x db' → outbox_step (Some w) now db db'.
Proof.
  intros [= <- <-]. apply update_step. intros r _ Hp. pose proof Hp as (_ & Hs & Ho)%owned_by_true.
  apply (owned_moves job); [done|by eapply owned_request| | |].
  - intros u. unfold abs. simpl. rewrite Hs, Ho. apply js_renew; [done|].
    unfold lease_until, seconds. simpl. lia.
  - intros Hf. unfold final in Hf. simpl in Hf. by rewrite Hs in Hf.
  - intros _. simpl. by rewrite Ho.
Qed.

Lemma release_step w now db x db' :
  _release_worker_leases w now db = Commit x db' → outbox_step (Some w) now db db'.
Proof.
  intros [= <- <-]. apply update_step. intros r _ Hp. bool_simpl.
  apply sql_eq_true in H2. apply back_move; [done|]. left. by rewrite H2.
Qed.

Lemma defer_step job w t now db x db' :
  _defer_claim job w t now db = Commit x db' → outbox_step (Some w) now db db'.
Proof.
  unfold _defer_claim. destruct (List.find _ _); [|done]. intros [= <- <-].
  apply update_step. intros r _ Hp.
  apply (owned_moves job); [done|by eapply owned_request| |by intros|done].
  intros u. apply (js_defer _ _ now w u (R.attempts r) (Z.max t (now + 100000))); [done|lia].
Qed.

Lemma store_summary_outbox db m v db' :
  store_summary db m v = Ok db' → memory_outbox db' = memory_outbox db.
Proof. unfold store_summary. intros E. by split_matches E. Qed.

Lemma abs_succeed now v r : abs (succeed now v r) = mkJob (Done v) (R.attempts r).
Proof. destruct r. reflexivity. Qed.

Lemma finish_success_spec job w v now db x db' :
  _finish_success job w v now db = Commit x db' →
  ∃ row db2 y, row ∈ memory_outbox db ∧ R.id row = job ∧ owned_by job w row = true ∧
    memory_outbox db2 = memory_outbox (update_outbox db (owned_by job w) (succeed now v)) ∧
    _enqueue_settlement_if_ready now db2 (R.message_id row) = Ok (y, db').
Proof.
  unfold _finish_success. destruct (get_job db job) as [row|] eqn:Eg; [|done].
  destruct (negb _) eqn:Ho; [done|]. apply negb_false_iff in Ho.
  apply get_job_some in Eg as [Hrow Hid].
  destruct (if bool_decide _ then _ else _) as [db2|] eqn:E2; [|done].
  destruct (_enqueue_settlement_if_ready _ _ _) as [[y db3]|] eqn:E3; [|done].
  injection 1 as _ <-. exists row, db2, y. split_and!; [exact Hrow|exact Hid|exact Ho| |exact E3].
  destruct (bool_decide _); [by apply store_summary_outbox in E2|by injection E2 as <-].
Qed.

Lemma finish_success_step job w v now db x db' :
  _finish_success job w v now db = Commit x db' → outbox_step (Some w) now db db'.
Proof.
  intros (row & db2 & y & Hrow & Hid & Ho & Em & E3)%finish_success_spec.
  eapply (finish_step (Some w) now db (owned_by job w) (succeed now v) (R.message_id row) db2);
    [|exact Em|exact E3].
  intros Hw r Hr Hp. pose proof Hp as (Hi & _ & _)%owned_by_true.
  assert (r = row) as -> by (eapply same_id; [exact Hw|exact Hr|exact Hrow|by rewrite Hi, Hid]).
  apply (owned_moves job); [done|by eapply owned_request| |done|done].
  intros u. rewrite abs_succeed. by apply js_succeed.
Qed.

Lemma fail_move job w now e r :
  owned_by job w r = true → row_move (Some w) now
    (if outbox_max_attempts settings <=? R.attempts r then Some (R.message_id r) else None)
    r (fail settings now e r).
Proof.
  intros Hp. apply (owned_moves job); [done|by eapply owned_request| | |].
  - intros u. unfold abs, fail. simpl. destruct (Z.leb_spec (outbox_max_attempts settings) (R.attempts r)).
    + by apply js_quarantine.
    + by apply js_retry.
  - unfold final, fail. simpl. by destruct (_ <=? _).
  - unfold fail. simpl. by destruct (_ <=? _).
Qed.

Lemma finish_failure_step job w e now db x db' :
  _finish_failure settings job w e now db = Commit x db' → outbox_step (Some w) now db db'.
Proof.
  unfold _finish_failure. destruct (get_job db job) as [row|] eqn:Eg; [|done].
  destruct (negb _) eqn:Ho; [done|]. bool_simpl.
  apply get_job_some in Eg as [Hrow Hid].
  assert (∀ r, outbox_wf db → r ∈ memory_outbox db → has_id job r = true → r = row) as Huniq.
  { intros r Hw Hr Hp. unfold has_id in Hp. bool_simpl. eapply same_id; [done..|congruence]. }
  pose proof (fail_move job w now e row Ho) as Hmove.
  destruct (_ <=? R.attempts row).
  - destruct (_enqueue_settlement_if_ready _ _ _) as [[y db2]|] eqn:E2; [|done]. intros [= <- <-].
    eapply (finish_step (Some w) now db (has_id job) (fail settings now e) (R.message_id row));
      [|reflexivity|exact E2].
    intros Hw r Hr Hp. by rewrite (Huniq r Hw Hr Hp).
  - intros [= <- <-] Hw. apply update_step; [|done]. intros r Hr Hp. by rewrite (Huniq r Hw Hr Hp).
Qed.

Lemma reconcile_step m now db x db' :
  reconcile_message m now db = Commit x db' → outbox_step None now db db'.
Proof.
  unfold reconcile_message. destruct (_enqueue_settlement_if_ready _ _ _) as [[y db1]|] eqn:E; [|done].
  intros [= _ <-] Hw. eapply enqueue_settlement_wf; [|exact E].
  apply table_wf_but_none in Hw. destruct Hw. split; try done. intros m' _. by apply tb_settled0.
Qed.

Lemma admit_step a now pl ctx g cs : ∀ k db ids db',
  admit_candidates now pl ctx g k cs db = Ok (ids, db') →
  outbox_step a now db db' ∧ ∃ new, memory_outbox db' = memory_outbox db ++ new.
Proof.
  induction cs as [|c cs IH]; intros k db ids db'; simpl.
  { intros [= <- <-]. split; [done|]. exists []. by rewrite app_nil_r. }
  destruct (admit_candidate _ _ _ _ _ _ _) as [[[ids1 k1] db1]|] eqn:E1; [|done].
  destruct (admit_candidates _ _ _ _ _ _ _) as [[ids2 db2]|] eqn:E2; [|done]. intros [= <- <-].
  assert (outbox_step a now db db1 ∧ ∃ new, memory_outbox db1 = memory_outbox db ++ new)
    as [H1 [new1 N1]].
  { unfold admit_candidate in E1. destruct (parse_candidate c) as [[[e data]|]|]; simplify_eq.
    - destruct (find_candidate _ _ _ _).
      + simplify_eq. split; [done|]. exists []. by rewrite app_nil_r.
      + destruct (insert_outbox db _) as [db0|] eqn:Ei; simplify_eq.
        split; [by eapply insert_step; try done; destruct e|]. apply insert_outbox_spec in Ei as [-> _]. eauto.
    - split; [done|]. exists []. by rewrite app_nil_r. }
  destruct (IH _ _ _ _ E2) as [H2 [new2 N2]]. split; [by etrans|].
  exists (new1 ++ new2). by rewrite N2, N1, app_assoc.
Qed.

Lemma checkpoint_step row ctx cs g a now db x db' :
  _checkpoint_pipeline_candidates row ctx cs g now db = Commit x db' → outbox_step a now db db'.
Proof.
  unfold _checkpoint_pipeline_candidates. destruct (List.find _ _) as [pl|] eqn:Ef; [|done].
  destruct (admit_candidates _ _ _ _ _ _ _) as [[ids db1]|] eqn:E1; [|done].
  intros [= <- <-] Hw. apply find_some in Ef as [Hin Hp]. apply list_elem_of_In in Hin.
  apply andb_true_iff in Hp as [[[_ Hps]%andb_true_iff _]%andb_true_iff _].
  apply bool_decide_eq_true in Hps.
  destruct (admit_step a _ _ _ _ _ _ _ _ _ E1) as [HA [new N1]].
  destruct (HA Hw) as [Hw1 J1].
  match goal with |- context [update_outbox db1 ?p ?f] =>
    destruct (update_step a now db1 p f) as [Hw2 J2];
      [intros r Hr Hid|done|split; [done|by etrans]] end.
  unfold has_id in Hid. bool_simpl.
  assert (r = pl) as -> by (eapply (same_id db1); [done|done|rewrite N1; set_solver|done]).
  pose proof (processing_not_final _ Hps) as Hnf. split; [by split| | |].
  - unfold abs. simpl. by rewrite Hps.
  - intros Hf. unfold final in Hf. simpl in Hf. by rewrite Hps in Hf.
  - intros _. simpl. by apply (tw_leased _ Hw1).
Qed.
End host.
