(* ===== verification/OutboxThms.v ===== *)
(** * Theorems about the memory outbox *)

From S2P Require Import Prelude Db PyString ToolPolicies Program ChatSequencerThms.
From S2P Require Import Outbox OutboxProps.
Import Outbox.

Section host.
Context `{Host} `{OutboxHost} (settings : Settings).
Abbreviation step := (job_step (outbox_max_attempts settings)).

(** ** Every transaction refines the job machine *)

(** The transactions of the outbox, with the worker on whose behalf they are
    made. *)
Inductive outbox_tx : option string → ∀ B, (Z → Db → tx Db exn B) → Prop :=
| otx_insert id pa m kind layer h pl sc :
    kind ≠ "settlement" → layer ≠ "settlement" →
    outbox_tx None _ (insert_job id pa m kind layer h pl sc)
| otx_existing m y h e : outbox_tx None _ (existing_job m y h e)
| otx_claim_next w : outbox_tx (Some w) _ (_claim_next settings w)
| otx_claim_specific job w : outbox_tx (Some w) _ (_claim_specific settings job w)
| otx_renew job w : outbox_tx (Some w) _ (_renew_lease settings job w)
| otx_release w : outbox_tx (Some w) _ (_release_worker_leases w)
| otx_defer job w t : outbox_tx (Some w) _ (_defer_claim job w t)
| otx_owns job w : outbox_tx (Some w) _ (_owns_lease job w)
| otx_claimed job w : outbox_tx (Some w) _ (claimed_row job w)
| otx_success job w v : outbox_tx (Some w) _ (_finish_success job w v)
| otx_failure job w e : outbox_tx (Some w) _ (_finish_failure settings job w e)
| otx_checkpoint w row ctx cs g :
    outbox_tx (Some w) _ (_checkpoint_pipeline_candidates row ctx cs g)
| otx_lane w scope job : outbox_tx (Some w) _ (lane_check scope job)
| otx_facts w m : outbox_tx (Some w) _ (_settlement_facts m)
| otx_reconcile m : outbox_tx None _ (reconcile_message m)
| otx_pipelines : outbox_tx None _ pipeline_messages
| otx_snapshot job : outbox_tx None _ (job_snapshot job).

Lemma outbox_tx_step a B (body : Z → Db → tx Db exn B) now db x db' :
  outbox_tx a B body → body now db = Commit x db' → outbox_step settings a now db db'.
Proof.
  intros Ht. destruct Ht; intros E.
  - unfold insert_job in E. destruct (insert_outbox db _) as [db1|] eqn:Ei; simplify_eq.
    by eapply insert_step.
  - unfold existing_job in E. by destruct (find_candidate _ _ _ _).
  - by eapply claim_next_step.
  - by eapply claim_specific_step.
  - by eapply renew_step.
  - by eapply release_step.
  - by eapply defer_step.
  - done.
  - done.
  - by eapply finish_success_step.
  - by eapply finish_failure_step.
  - by eapply checkpoint_step.
  - unfold lane_check in E. destruct (_oldest_nonterminal _ _); [|done]. by case_bool_decide.
  - done.
  - by eapply reconcile_step.
  - done.
  - done.
Qed.

(** A live lease fences every other worker out. *)
Lemma lease_fences a now w until n j :
  a ≠ Some w → now < until → rtc (step a now) (mkJob (Leased w until) n) j →
  j = mkJob (Leased w until) n.
Proof.
  intros Ha Hlt Hr. remember (mkJob (Leased w until) n) as j0 eqn:E.
  induction Hr as [|j1 j2 j3 Hs Hr IH]; [done|]. subst. exfalso.
  inversion Hs; subst; solve [congruence|lia].
Qed.

(** C9: the outbox implements one state machine per job.  Every transaction,
    made at [now] on behalf of a worker or of nobody, keeps the table
    well-formed; every row keeps its request and moves by steps the machine
    allows that actor, rows that appear start from an untouched job; and while
    a worker holds an unexpired lease, no other actor changes the job. *)
Theorem outbox_refines_jobs a B (body : Z → Db → tx Db exn B) now db x db' :
  outbox_tx a B body → body now db = Commit x db' → outbox_wf db →
  outbox_wf db' ∧
  (∀ r, r ∈ memory_outbox db → ∃ r', r' ∈ memory_outbox db' ∧ same_request r r' ∧
     rtc (step a now) (abs r) (abs r') ∧
     ∀ w until n, abs r = mkJob (Leased w until) n → a ≠ Some w → now < until → abs r' = abs r) ∧
  (∀ r', r' ∈ memory_outbox db' →
     (∃ r, r ∈ memory_outbox db ∧ same_request r r') ∨ rtc (step a now) unstarted (abs r')).
Proof.
  intros Ht E Hw. destruct (outbox_tx_step _ _ _ _ _ _ _ Ht E Hw) as [Hw' (old & new & Em & HF & Hn)].
  split; [done|]. rewrite Em. split.
  - intros r Hr. destruct (Forall2_elem_l _ _ _ _ HF Hr) as (r' & Hr' & Hq & Hs).
    exists r'. split_and!; [set_solver|done|done|]. intros w until n Ea Hne Hlt. rewrite Ea in *.
    by eapply lease_fences.
  - intros r' [Hr'|Hr']%elem_of_app.
    + left. destruct (Forall2_elem_r _ _ _ _ HF Hr') as (r & Hr & Hq & _). eauto.
    + right. rewrite Forall_forall in Hn. by apply Hn.
Qed.

(** ** Any number of workers *)

(** A transaction made by whoever at whatever time. *)
Definition some_step (j j' : Job) : Prop := ∃ a now, step a now j j'.

Definition row_evolves (r r' : R.t) : Prop := same_request r r' ∧ rtc some_step (abs r) (abs r').

#[export] Instance row_evolves_preorder : PreOrder row_evolves.
Proof. split; [intros r; by split|]. intros a b c [] []. split; by etrans. Qed.

Definition outbox_rel (db db' : Db) : Prop :=
  outbox_wf db → outbox_wf db' ∧
  grows_by row_evolves (λ r, rtc some_step unstarted (abs r)) (memory_outbox db) (memory_outbox db').

#[export] Instance outbox_rel_preorder : PreOrder outbox_rel.
Proof.
  split; [intros db Hw; split; [done|by apply grows_by_refl, _]|].
  intros a b c Hab Hbc Hw. destruct (Hab Hw) as [Hb G1]. destruct (Hbc Hb) as [Hc G2].
  split; [done|]. eapply grows_by_trans; [apply _| |exact G1|exact G2].
  intros x y Hx [_ Hxy]. by etrans.
Qed.

Lemma steps_some a now j j' : rtc (step a now) j j' → rtc some_step j j'.
Proof. apply rtc_subrel. intros x y Hs. by exists a, now. Qed.

Lemma outbox_step_rel a now db db' : outbox_step settings a now db db' → outbox_rel db db'.
Proof.
  intros Hs Hw. destruct (Hs Hw) as [Hw' (old & new & E & HF & Hn)]. split; [done|].
  exists old, new. split_and!; [done| |].
  - eapply Forall2_impl; [exact HF|]. intros r r' [Hq Hst]. split; [done|by eapply steps_some].
  - eapply Forall_impl; [exact Hn|]. intros r Hst. by eapply steps_some.
Qed.

Lemma same_outbox_rel db db' : memory_outbox db' = memory_outbox db → outbox_rel db db'.
Proof. intros E. by apply (outbox_step_rel None 0), same_outbox_step. Qed.

Lemma tx_in a B (body : Z → Db → tx Db exn B) : outbox_tx a B body → body_in outbox_rel body.
Proof. intros Ht now db x db' E. eapply outbox_step_rel, outbox_tx_step; [exact Ht|exact E]. Qed.

Lemma atomic_in a B (body : Z → Db → tx Db exn B) :
  outbox_tx a B body → txs_in (C:=effect_call) (V:=json) outbox_rel (atomically body).
Proof. intros Ht. by eapply txs_in_atomically, tx_in. Qed.

Lemma call_in c : txs_in (C:=effect_call) (V:=json) outbox_rel (call c).
Proof. by intros []. Qed.

Ltac bind_in := apply txs_in_bind; [|intros ?].

Lemma report_in ctx k t : txs_in outbox_rel (report_edit ctx k t).
Proof.
  unfold report_edit. destruct (cx_message_id ctx); [|done]. case_bool_decide; [done|].
  bind_in; [apply call_in|done].
Qed.

Lemma process_in row : txs_in outbox_rel (process row).
Proof.
  unfold process. repeat case_bool_decide; [..|done].
  - unfold _process_pipeline. bind_in.
    { destruct (extracted_candidates _); [done|]. bind_in; [apply call_in|done]. }
    bind_in; [done|]. bind_in; [|done]. by apply (atomic_in (Some "")); constructor.
  - assert (txs_in outbox_rel (_process_candidate row)) as Hc.
    { unfold _process_candidate. destruct (dict_get _ _); [|done].
      destruct (extractor_of _); [apply call_in|done]. }
    unfold process_in_lane. destruct (R.scope_key row); [|done]. destruct (_ && _); [|done].
    bind_in; [by apply (atomic_in (Some "")); constructor|done].
  - unfold _process_profile_compact. bind_in; [apply call_in|done].
  - unfold _process_profile_edit. destruct (_ || _); [done|]. destruct (sanitize _); [|done].
    bind_in; [apply call_in|]. bind_in; [apply report_in|done].
  - unfold _process_memory_edit. destruct (_ || _); [done|].
    bind_in; [apply call_in|]. bind_in; [apply report_in|done].
  - unfold _process_settlement. bind_in; [by apply (atomic_in (Some "")); constructor|].
    destruct a. bind_in; [apply call_in|done].
Qed.

Lemma process_claimed_in job w : txs_in outbox_rel (_process_claimed settings job w).
Proof.
  assert (∀ e, txs_in (C:=effect_call) (V:=json) outbox_rel
    (ignore (atomically (_finish_failure settings job w e)))) as Hfail.
  { intros e. bind_in; [by apply (atomic_in (Some w)); constructor|done]. }
  unfold _process_claimed. bind_in; [by apply (atomic_in (Some w)); constructor|].
  destruct a as [row|]; [|done]. bind_in.
  { apply txs_in_catch; [|done]. bind_in; [by apply (atomic_in (Some w)); constructor|].
    destruct a; [|done]. bind_in; [apply process_in|done]. }
  destruct a as [|v|e]; [done| |].
  - apply txs_in_catch; [|intros e; destruct (is_exception e); [apply Hfail|done]].
    bind_in; [by apply (atomic_in (Some w)); constructor|done].
  - destruct e; try apply Hfail.
    + by apply (atomic_in (Some w)); constructor.
    + bind_in; [done|]. by destruct a.
Qed.

Lemma drain_in n w : txs_in outbox_rel (drain settings n w).
Proof.
  induction n as [|n IH]; cbn [drain]; [done|].
  bind_in; [by apply (atomic_in (Some w)); constructor|]. destruct a as [job|]; [|done].
  bind_in; [apply process_claimed_in|]. by bind_in.
Qed.

Lemma poll_in n job : txs_in outbox_rel (poll_job n job).
Proof.
  induction n as [|n IH]; cbn [poll_job];
    (bind_in; [by apply (atomic_in None); constructor|]);
    destruct a as [[[s v] e]|]; try done; by destruct (_ || _).
Qed.

Lemma consume_in n w job : txs_in outbox_rel (consume_outbox_job settings n w job).
Proof.
  unfold consume_outbox_job. bind_in; [by apply (atomic_in (Some w)); constructor|].
  bind_in; [|apply poll_in]. destruct a; [apply process_claimed_in|done].
Qed.

Lemma reconcile_in : txs_in outbox_rel reconcile_settlement_jobs.
Proof.
  unfold reconcile_settlement_jobs. bind_in; [by apply (atomic_in None); constructor|].
  induction a as [|m ms IH]; cbn [reconcile_messages]; [done|].
  bind_in; [by apply (atomic_in None); constructor|]. by bind_in.
Qed.

Lemma enqueue_in m kind layer h pl pa sc :
  kind ≠ "settlement" → layer ≠ "settlement" →
  txs_in outbox_rel (_enqueue m kind layer h pl pa sc).
Proof.
  intros Hk Hy. unfold _enqueue. bind_in; [done|].
  apply txs_in_catch; [by apply (atomic_in None); constructor|].
  intros []; try exact I. by apply (atomic_in None); constructor.
Qed.

(** ** Clients: workers, admissions, and every transaction of other components *)

Inductive outbox_client (tag : string) : prog effect_call json unit → Prop :=
| oc_drain n w : outbox_client tag (ignore (drain settings n w))
| oc_consume n w job : outbox_client tag (ignore (consume_outbox_job settings n w job))
| oc_heartbeat job w : outbox_client tag (ignore (atomically (_renew_lease settings job w)))
| oc_stop w : outbox_client tag (ignore (atomically (_release_worker_leases w)))
| oc_reconcile : outbox_client tag (ignore reconcile_settlement_jobs)
| oc_pipeline ctx u a : outbox_client tag (ignore (enqueue_pipeline_job ctx u a))
| oc_candidate p ctx e d : outbox_client tag (ignore (enqueue_candidate_job p ctx e d))
| oc_compaction ctx n : outbox_client tag (ignore (enqueue_profile_compaction ctx n))
| oc_profile_edit ctx k t o : outbox_client tag (ignore (enqueue_profile_edit_job ctx k t o))
| oc_memory_edit ctx k t o : outbox_client tag (ignore (enqueue_memory_edit_job ctx k t o))
| oc_other B (body : Z → Db → tx Db exn B) :
    body_in (λ db db', memory_outbox db' = memory_outbox db) body →
    outbox_client tag (ignore (atomically body)).

Lemma edit_in kind layer f ctx k t o :
  kind ≠ "settlement" → layer ≠ "settlement" →
  txs_in outbox_rel (enqueue_edit kind layer f ctx k t o).
Proof.
  intros Hk Hy. unfold enqueue_edit. bind_in; [|by apply enqueue_in].
  unfold edit_id. destruct o; [|done]. by case_bool_decide.
Qed.

Lemma outbox_client_in tag p : outbox_client tag p → txs_in outbox_rel p.
Proof.
  intros Hc. destruct Hc; (apply txs_in_bind; [|done]).
  - apply drain_in.
  - apply consume_in.
  - by apply (atomic_in (Some w)); constructor.
  - by apply (atomic_in (Some w)); constructor.
  - apply reconcile_in.
  - by apply enqueue_in.
  - apply enqueue_in; by destruct e.
  - by apply enqueue_in.
  - by apply edit_in.
  - by apply edit_in.
  - apply txs_in_atomically. intros now db x db' E. eapply same_outbox_rel, H1, E.
Qed.

(** ** Every turn settles *)

Lemma settlement_unique l s s' : table_wf l → s ∈ l → s' ∈ l →
  R.job_kind s = "settlement" → R.job_kind s' = "settlement" →
  R.message_id s = R.message_id s' → s = s'.
Proof.
  intros Hw Hs Hs' Hk Hk' Hm.
  destruct (tw_settlement _ Hw s Hs (or_introl Hk)) as [_ Hc].
  destruct (tw_settlement _ Hw s' Hs' (or_introl Hk')) as [_ Hc'].
  unfold same_candidate in Hc, Hc'. bool_simpl.
  eapply (NoDup_fmap_elem (λ r, (R.message_id r, R.layer r, R.candidate_hash r)));
    [apply Hw|done|done|congruence].
Qed.

(** C10: every finished turn is settled, once, and late.  With any number of
    workers, admissions, shutdowns, reconciliations and foreign transactions,
    under any interleaving and any failures: whenever a message has a pipeline
    and all its effects are final, it has a settlement; it never has two; the
    effects recorded before its settlement are final; and no row that was ever
    committed is lost, changes its request, or changes at all once final. *)
Theorem turns_settle_once db (w : world effect_call json) :
  outbox_wf db → rtc (world_step outbox_client) (fresh_world db) w →
  let table := memory_outbox (cur (st w)) in
  (∀ m, (∃ r, r ∈ table ∧ R.message_id r = m ∧ R.job_kind r = "pipeline") →
     (∀ r, r ∈ table → is_effect m r → final r) →
     ∃ s, s ∈ table ∧ R.message_id s = m ∧ R.job_kind s = "settlement" ∧
       ∀ s', s' ∈ table → R.message_id s' = m → R.job_kind s' = "settlement" → s' = s) ∧
  (∀ before s after, table = before ++ s :: after → R.job_kind s = "settlement" →
     ∀ r, r ∈ before → is_effect (R.message_id s) r → final r) ∧
  (∀ old r, old ∈ states (st w) → r ∈ memory_outbox old →
     ∃ r', r' ∈ table ∧ same_request r r').
Proof.
  intros Hw Hr table. destruct (fresh_reachable outbox_rel _ _ _ outbox_client_in Hr) as [HR Hall].
  destruct (HR Hw) as [Hw' _]. split_and!.
  - intros m Hp Hf. destruct (tw_settled _ Hw' m Hp Hf) as (s & Hs & Hc).
    assert (R.message_id s = m ∧ R.layer s = "settlement") as [Hm Hy].
    { unfold same_candidate in Hc. by bool_simpl. }
    destruct (tw_settlement _ Hw' s Hs (or_intror Hy)) as [Hk _].
    exists s. split_and!; [done..|]. intros s' Hs' Hm' Hk'. symmetry.
    apply (settlement_unique table s s' Hw' Hs Hs' Hk Hk'). by rewrite Hm, Hm'.
  - apply (tw_reports _ Hw').
  - intros old r Hold Hin. destruct (Hall old Hold) as [H1 H2]. destruct (H1 Hw) as [Hwo _].
    destruct (H2 Hwo) as [_ (o & n & E & HF & _)].
    destruct (Forall2_elem_l _ _ _ _ HF Hin) as (r' & Hr' & Hq & _).
    exists r'. split; [unfold table; rewrite E; set_solver|done].
Qed.
End host.

(** ** A concrete turn *)

Section demo.
Local Instance demo_host : Host :=
  {| sha256_hex := λ s, s; embedded_sub := λ _ s, s; py_str := λ _, "" |}.
Local Instance demo_outbox_host : OutboxHost :=
  {| error_text := λ _, "error"; sanitize := Some; uuid_from := λ g _, g |}.
Definition demo_settings : Settings := mkSettings 120 5 5.
Definition demo_ctx : MemoryContext :=
  mkContext "u1" "default" (Some "c1") ["public"] None None true None (Some "m1") None.

Definition demo_answer (c : effect_call) : result exn json :=
  match c with
  | ExtractCandidates _ => Ok (JDict [("procedural", JDict [("rule", JStr "be brief")])])
  | WriteLayered _ _ _ => Ok (JList [JDict [("id", JStr "mem_1")]])
  | SettleTurn _ _ _ => Ok (JDict [("entries", JInt 1)])
  | _ => Ok JNull
  end.

Definition demo_start : Db :=
  empty_db <| chat_messages := [ChatMessage.mk "m1" "c1" 1 "assistant" [] None [] 0] |>.
Definition demo_run (p : prog effect_call json unit) (db : Db) (ids : list string) : Db :=
  m_db (run 10 demo_answer false p (mkMachine db [] [] ids)).2.
Definition demo_queued : Db :=
  demo_run (ignore (enqueue_pipeline_job demo_ctx "hi" "hello")) demo_start ["p1"].
Definition demo_drained : Db :=
  demo_run (ignore (drain demo_settings 10 "w1")) demo_queued ["k1"].

Lemma demo_world p db ids : outbox_client demo_settings "t" p →
  ∃ w, rtc (world_step (outbox_client demo_settings)) (fresh_world db) w ∧
       cur (st w) = demo_run p db ids.
Proof. apply spawned. Qed.

Lemma empty_table_wf : table_wf [].
Proof.
  split; [constructor|constructor|by intros r ?%not_elem_of_nil..| |].
  - intros m (r & Hr & _). by apply not_elem_of_nil in Hr.
  - intros l1 s l2 E. by destruct l1.
Qed.

Lemma demo_queued_wf : outbox_wf demo_queued.
Proof.
  destruct (demo_world _ demo_start ["p1"] (oc_pipeline _ "t" demo_ctx "hi" "hello"))
    as (w & Hr & Hc).
  unfold demo_queued. rewrite <- Hc.
  destruct (fresh_reachable (outbox_rel demo_settings) _ _ _ (outbox_client_in demo_settings) Hr) as [HR _].
  apply HR, empty_table_wf.
Qed.

(** The pipeline, its candidate, and the settlement after them. *)
Lemma turns_settle_once_witness :
  ∃ s, s ∈ memory_outbox demo_drained ∧ R.message_id s = "m1" ∧ R.job_kind s = "settlement".
Proof.
  destruct (demo_world _ demo_queued ["k1"] (oc_drain demo_settings "t" 10 "w1"))
    as (w & Hr & Hc).
  destruct (turns_settle_once demo_settings demo_queued w demo_queued_wf Hr) as [H1 _].
  assert (cur (st w) = demo_drained) as Hd by (unfold demo_drained; exact Hc).
  rewrite Hd in H1.
  destruct (H1 "m1") as (s & Hs & Hm & Hk & _).
  - apply (Exists_exists (λ r, R.message_id r = "m1" ∧ R.job_kind r = "pipeline")).
    vm_compute. left. split; reflexivity.
  - apply (Forall_forall (λ r, is_effect "m1" r → final r)).
    vm_compute. repeat constructor.
  - exists s. split; [exact Hs|split; [exact Hm|exact Hk]].
Defined.

Definition demo_claim : tx Db exn (option string) := _claim_next demo_settings "w1" 20 demo_queued.

Lemma outbox_refines_jobs_witness : ∃ x db', demo_claim = Commit x db' ∧ outbox_wf db'.
Proof.
  destruct demo_claim as [x db'| |] eqn:E; [|vm_compute in E; discriminate..].
  exists x, db'. split; [reflexivity|].
  exact (proj1 (outbox_refines_jobs demo_settings (Some "w1") _ (_claim_next demo_settings "w1") 20
    demo_queued x db' (otx_claim_next demo_settings "w1") E demo_queued_wf)).
Defined.
End demo.
