(* ===== verification/DurableRun.v ===== *)
(** * Durable runs of agents outside chats: [durable_run_binding] of
    [core/services/run_journal.py]

    An entry point that is not a chat turn (an automation, a batch item, an
    internal job) runs its body inside a binding: the binding makes sure the
    chat session exists, accepts and claims a run of its own, renews the lease
    from a heartbeat task, and settles the run by how the body ended.  The body
    is any program; an exception it raises is a tree, because exception groups,
    causes and contexts may hide the one that matters. *)

From S2P Require Import Prelude Db RunJournal Program.
Import ChatRun RunJournal.

Module DurableRun.

(** ** Raised exceptions *)

(** An exception with the members of its group, its cause and its context. *)
Inductive raised : Type :=
| Exc (e : exn) (nested : list raised) (cause context : option raised).

Definition leaf (e : exn) : raised := Exc e [] None None.
Definition exn_of (r : raised) : exn := match r with Exc e _ _ _ => e end.

(** The stack pops the context first, then the cause, then the members of the
    group from the last. *)
Fixpoint find_tool_outcome_unknown (r : raised) : option string :=
  match r with
  | Exc e nested cause context =>
      let within o := match o with Some x => find_tool_outcome_unknown x | None => None end in
      match e with
      | ToolOutcomeUnknown effect_id => Some effect_id
      | _ =>
          match within context with
          | Some u => Some u
          | None =>
              match within cause with
              | Some u => Some u
              | None =>
                  foldl (λ found x, match find_tool_outcome_unknown x with
                                    | Some u => Some u
                                    | None => found
                                    end) None nested
              end
          end
      end
  end.

(** [f"{type(exc).__name__}: {exc}"], and [str] of the unknown outcome. *)
Class ExcText := {
  failure_text : raised → string;
  unknown_text : string → string
}.

Record DurableRunBinding := mkBinding {
  bd_run_id : string;
  bd_owner : string;
  bd_chat_id : string
}.

Section binding.
Context {C V : Type} `{ExcText}.
Abbreviation program := (prog C V).

(** A method of the journal, as a program of one transaction. *)
Definition journal_tx {A} (f : Z → Db → result exn A * Db) : program A :=
  atomically (λ now db,
    match f now db with
    | (Ok a, db') => Commit a db'
    | (Err e, _) => Raise e
    end).

Definition ensure_session (chat_id user_id kind : string) (now : Z) (db : Db) : tx Db exn unit :=
  match chat_sessions db !! chat_id with
  | None =>
      Commit tt (db <| chat_sessions :=
        <[chat_id := ChatSession.mk chat_id user_id (kind +:+ " run") 0 (Some 1) now None None]>
          (chat_sessions db) |>)
  | Some session =>
      if bool_decide (ChatSession.user_id session = user_id) then Rollback tt
      else Raise (RunJournalError "durable run chat belongs to another user")
  end.

Definition run_exists (run_id : string) (_ : Z) (db : Db) : tx Db exn bool :=
  Rollback (negb (is_null (chat_runs db !! run_id))).

(** [accept], with the admission lock of deterministic identities. *)
Definition accept_binding (binding_run_id : option string) (run_id message_id chat_id user_id : string)
    (payload snapshot : dict) : program unit :=
  try ignore (journal_tx (λ now, accept now run_id message_id chat_id user_id payload (Some snapshot)))
  except (λ e,
    if is_exception e && negb (bool_decide (default "" binding_run_id = "")) then
      let! exists_ := atomically (run_exists run_id) in
      if (exists_ : bool) then Throw (RunAlreadyExists run_id) else Throw e
    else Throw e).

(** One round of the heartbeat task: [false] sets [lost] and cancels the
    worker. *)
Definition heartbeat_round (run_id owner : string) (lease_seconds : Z) : program bool :=
  try journal_tx (λ now, renew now run_id owner lease_seconds)
  except (λ e, if is_exception e then Ret false else Throw e).

(** The body: [None] when the block ends normally. *)
Definition bound_body (b : DurableRunBinding) (body : DurableRunBinding → program (option raised))
    : program (option raised) :=
  try
    let! o := body b in
    match o with
    | Some r => Ret (Some r)
    | None =>
        let! lost := is_set in
        Ret (if (lost : bool) then Some (leaf (RunLeaseLost (bd_run_id b))) else None)
    end
  except (λ e, Ret (Some (leaf e))).

Definition settle (b : DurableRunBinding) (status' : RunStatus) (reason : option string)
    : program unit :=
  ignore (journal_tx (λ now,
    complete now (bd_run_id b) (bd_owner b) status' None reason None None None)).

(** The [except] and [else] clauses. *)
Definition settle_outcome (kind : string) (b : DurableRunBinding) (o : option raised)
    : program unit :=
  match o with
  | None => settle b Completed None
  | Some r =>
      match exn_of r with
      | CancelledError =>
          let! lost := is_set in
          let! _ :=
            if (lost : bool) then Ret tt
            else settle b Cancelled (Some (kind +:+ " invocation cancelled")) in
          Throw CancelledError
      | e =>
          let! _ :=
            match find_tool_outcome_unknown r with
            | Some u =>
                ignore (journal_tx (λ now,
                  needs_attention now (bd_run_id b)
                    ("tool outcome pending policy recovery: " +:+ unknown_text u)
                    (Some (bd_owner b))))
            | None => settle b Failed (Some (String.substring 0 2000 (failure_text r)))
            end in
          Throw e
      end
  end.

Definition durable_run_binding (user_id : string) (chat_id : option string)
    (kind external_id : string) (request_payload recovery_snapshot : option dict)
    (lease_seconds : Z) (binding_run_id : option string)
    (body : DurableRunBinding → program (option raised)) : program unit :=
  let! fresh := if bool_decide (default "" chat_id = "") then uuid else Ret "" in
  let actual_chat_id :=
    opt_str_or chat_id ("internal_" +:+ String.substring 0 24 fresh) in
  let! _ := atomically (ensure_session actual_chat_id user_id kind) in
  let! fresh := if bool_decide (default "" binding_run_id = "") then uuid else Ret "" in
  let run_id := opt_str_or binding_run_id ("run_" +:+ fresh) in
  let! owner_id := uuid in
  let owner := kind +:+ ":" +:+ owner_id in
  let! message := uuid in
  let base := [("kind", JStr kind); ("external_id", JStr external_id)] in
  let! _ := accept_binding binding_run_id run_id ("msg_" +:+ message) actual_chat_id user_id
              (dict_update base (or_empty request_payload))
              (dict_update base (or_empty recovery_snapshot)) in
  let! claimed := journal_tx (λ now, claim now run_id owner lease_seconds) in
  if negb claimed then Throw (RunLeaseLost run_id)
  else
    let b := mkBinding run_id owner actual_chat_id in
    let! o := bound_body b body in
    settle_outcome kind b o.
End binding.
End DurableRun.
