(* ===== verification/DurableRunThms.v ===== *)
(** * Theorems about durable run bindings

    How a binding settles its run, stated for one execution without database
    faults and with an arbitrary body. *)

From S2P Require Import Prelude Db RunJournal RunJournalProps RunJournalThms Program DurableRun.
Import ChatRun RunJournal DurableRun.

(** ** Settling a run whose lease is held, and not writing when it is lost *)

(** Only the run [r] changed; it ended as [st] without a lease. *)
Definition settled_as (r : string) (st : RunStatus) (db db' : Db) : Prop :=
  ∃ row, chat_runs db' = <[r := row]> (chat_runs db) ∧ status row = st
    ∧ lease_owner row = None ∧ lease_expires_at row = None ∧ wf db'.

Lemma bumped_keeps row ph sf :
  run_id (bumped row ph sf) = run_id row ∧ status (bumped row ph sf) = status row
  ∧ lease_owner (bumped row ph sf) = lease_owner row
  ∧ lease_expires_at (bumped row ph sf) = lease_expires_at row.
Proof. by destruct row. Qed.

Lemma put_bumped_runs db op row ph sf :
  chat_runs (put_run (with_op db op) (bumped row ph sf))
  = <[run_id row := bumped row ph sf]> (chat_runs db).
Proof. destruct db, row. reflexivity. Qed.

Lemma put_put_runs db op row ph sf :
  chat_runs (put_run (with_op (put_run db row) op) (bumped row ph sf))
  = <[run_id row := bumped row ph sf]> (chat_runs db).
Proof. rewrite put_bumped_runs. destruct db. simpl. apply insert_insert_eq. Qed.

Lemma complete_settles now r o st reason db row :
  wf db → _locked_owned_run now db r o = Ok row → is_terminal st = true →
  ∃ db', complete now r o st None reason None None None db = (Ok true, db')
    ∧ settled_as r st db db'.
Proof.
  intros Hwf Hl Hst. pose proof (locked_keyed _ _ _ _ _ Hwf Hl) as Hid.
  pose proof Hl as [Hrow (Hlive & _)%holds_lease_true]%locked_owned_run_ok.
  unfold complete, run_tx. rewrite Hst, Hl. cbn [negb run_effect].
  match goal with |- context [put_run db ?x] => set (row1 := x) end.
  assert (Hev : run_evolves not_live row row1) by (subst row1; solve_evolves).
  assert (Hid1 : run_id row1 = r) by (subst row1; exact Hid).
  assert (Hr1 : status row1 = st ∧ lease_owner row1 = None ∧ lease_expires_at row1 = None
    ∧ operation_seq row1 = operation_seq row) by done.
  clearbody row1. destruct Hr1 as (Hs1 & Hl1 & Hx1 & Hq1).
  pose proof (lookup_own _ _ _ Hwf Hrow) as Hown.
  assert (Hown1 : chat_runs db !! run_id row1 = Some row) by (rewrite Hid1; exact Hrow).
  destruct (put_run_safe db row row1 Hown1 Hev Hq1 Hwf) as [Hwf1 _].
  assert (Hget : chat_runs (put_run db row1) !! r = Some row1)
    by (simpl; rewrite Hid1; apply lookup_insert_eq).
  rewrite Hget.
  match goal with |- context [_append_locked now _ row1 o ?ty ?ph ?sf ?pl ?v] =>
    destruct (append_locked_ok not_live now (put_run db row1) row1 row1 o ty ph sf pl v)
      as (E & _ & Hwf2 & _) end; [done|by rewrite Hid1|reflexivity|done|].
  rewrite E. eexists. split; [reflexivity|].
  match goal with |- context [bumped row1 ?ph ?sf] =>
    destruct (bumped_keeps row1 ph sf) as (_ & E1 & E2 & E3);
    exists (bumped row1 ph sf) end.
  rewrite put_put_runs, E1, E2, E3, Hid1. by split_and!.
Qed.

Lemma needs_attention_settles now r o reason db row :
  wf db → _locked_owned_run now db r o = Ok row →
  ∃ db', needs_attention now r reason (Some o) db = (Ok true, db')
    ∧ settled_as r NeedsAttention db db'.
Proof.
  intros Hwf Hl. pose proof (locked_keyed _ _ _ _ _ Hwf Hl) as Hid.
  pose proof Hl as [Hrow (Hlive & _)%holds_lease_true]%locked_owned_run_ok.
  pose proof (lookup_own _ _ _ Hwf Hrow) as Hown.
  pose proof (needs_attention_safe now r reason (Some o) db Hwf) as [Hwf2 _].
  unfold needs_attention, run_tx in *. rewrite Hl in *.
  match goal with |- context [_append_locked now db row o ?ty ?ph ?sf ?pl ?v] =>
    destruct (append_locked_ok not_live now db row row o ty ph sf pl v)
      as (E & _) end; [done|done|reflexivity|done|].
  rewrite E in *. eexists. split; [reflexivity|].
  eexists. split; [|split; [|split; [|split; [|exact Hwf2]]]].
  - simpl. rewrite Hid. apply insert_insert_eq.
  - reflexivity.
  - reflexivity.
  - reflexivity.
Qed.

(** ** One execution *)

Section run.
Context {C V : Type} `{ExcText} (now : Z) (answer : C → result exn V) (lost : bool).
Abbreviation exec := (run now answer lost).

Definition with_db (m : machine C) (db : Db) : machine C :=
  mkMachine db (m_calls m) (m_faults m) (m_ids m).

Lemma run_one_tx {B} (body : Z → Db → tx Db exn B) m :
  m_faults m = [] →
  exec (atomically body) m =
    match body now (m_db m) with
    | Commit b db' => (Ok b, with_db m db')
    | Rollback b => (Ok b, m)
    | Raise e => (Err e, m)
    end.
Proof using Type.
  intros Hf. rewrite run_atomically by done. destruct m as [db cs fs ids]. simpl in Hf. by subst fs.
Qed.

Lemma run_journal_tx {A} (f : Z → Db → result exn A * Db) m :
  m_faults m = [] →
  exec (journal_tx f) m =
    match f now (m_db m) with
    | (Ok a, db') => (Ok a, with_db m db')
    | (Err e, _) => (Err e, m)
    end.
Proof using Type.
  intros Hf. unfold journal_tx. rewrite run_one_tx by done.
  by destruct (f now (m_db m)) as [[a|e] db'].
Qed.

(** How the run of [b] ends when its body ended with [o]. *)
Definition final_status (o : option raised) : RunStatus :=
  match o with
  | None => Completed
  | Some r =>
      match exn_of r with
      | CancelledError => if lost then Running else Cancelled
      | _ => match find_tool_outcome_unknown r with
             | Some _ => NeedsAttention
             | None => Failed
             end
      end
  end.

Definition final_result (o : option raised) : result exn unit :=
  match o with None => Ok tt | Some r => Err (exn_of r) end.

(** The state after a settlement: settled if the lease was held, else as it
    was. *)
Definition settlement (b : DurableRunBinding) (st : RunStatus) (db db' : Db) : Prop :=
  match _locked_owned_run now db (bd_run_id b) (bd_owner b) with
  | Ok _ => settled_as (bd_run_id b) st db db'
  | Err _ => db' = db
  end.

Lemma run_settle b st reason m :
  m_faults m = [] → wf (m_db m) → is_terminal st = true →
  ∃ db', exec (settle b st reason) m = (Ok tt, with_db m db')
    ∧ settlement b st (m_db m) db'.
Proof using Type.
  intros Hf Hwf Hst. unfold settle, ignore, settlement. rewrite run_bind, run_journal_tx by done.
  destruct (_locked_owned_run now (m_db m) (bd_run_id b) (bd_owner b)) as [row|e] eqn:Hl.
  - destruct (complete_settles _ _ _ st reason _ _ Hwf Hl Hst) as (db' & -> & Hs).
    exists db'. by split.
  - exists (m_db m). unfold complete, run_tx. rewrite Hst, Hl. done.
Qed.

Lemma run_pause b reason m :
  m_faults m = [] → wf (m_db m) →
  ∃ db', exec (ignore (journal_tx (λ now,
             needs_attention now (bd_run_id b) reason (Some (bd_owner b))))) m
         = (Ok tt, with_db m db')
    ∧ settlement b NeedsAttention (m_db m) db'.
Proof using Type.
  intros Hf Hwf. unfold ignore, settlement. rewrite run_bind, run_journal_tx by done.
  destruct (_locked_owned_run now (m_db m) (bd_run_id b) (bd_owner b)) as [row|e] eqn:Hl.
  - destruct (needs_attention_settles _ _ _ reason _ _ Hwf Hl) as (db' & -> & Hs).
    exists db'. by split.
  - exists (m_db m). unfold needs_attention, run_tx. rewrite Hl. done.
Qed.

(** The handler of an exception that is not a cancellation. *)
Lemma run_outcome_raised b r m :
  m_faults m = [] → wf (m_db m) →
  ∃ db', exec (bind match find_tool_outcome_unknown r with
               | Some u => ignore (journal_tx (λ now, needs_attention now (bd_run_id b)
                   ("tool outcome pending policy recovery: " +:+ unknown_text u)
                   (Some (bd_owner b))))
               | None => settle b Failed (Some (String.substring 0 2000 (failure_text r)))
               end (λ _, Throw (exn_of r) : prog C V unit)) m = (Err (exn_of r), with_db m db')
    ∧ settlement b match find_tool_outcome_unknown r with
                   | Some _ => NeedsAttention | None => Failed end (m_db m) db'.
Proof using Type.
  intros Hf Hwf. rewrite run_bind. destruct (find_tool_outcome_unknown r) as [u|].
  - destruct (run_pause b ("tool outcome pending policy recovery: " +:+ unknown_text u) m Hf Hwf)
      as (db' & -> & Hs). by exists db'.
  - destruct (run_settle b Failed (Some (String.substring 0 2000 (failure_text r))) m Hf Hwf eq_refl)
      as (db' & -> & Hs). by exists db'.
Qed.

Lemma run_settle_outcome kind b o m :
  m_faults m = [] → wf (m_db m) →
  ∃ db', exec (settle_outcome kind b o) m = (final_result o, with_db m db')
    ∧ if bool_decide (final_status o = Running) then db' = m_db m
      else settlement b (final_status o) (m_db m) db'.
Proof using Type.
  intros Hf Hwf. destruct o as [r|]; cbn [settle_outcome final_result final_status].
  2: { destruct (run_settle b Completed None m Hf Hwf eq_refl) as (db' & -> & Hs).
    exists db'. by split. }
  destruct (run_outcome_raised b r m Hf Hwf) as (db1 & E1 & S1).
  destruct (exn_of r) eqn:Er;
    try (exists db1; split; [exact E1|]; destruct (find_tool_outcome_unknown r); exact S1).
  destruct (run_settle b Cancelled (Some (kind +:+ " invocation cancelled")) m Hf Hwf eq_refl)
    as (db' & E & Hs).
  rewrite run_bind. unfold is_set. cbn [run]. rewrite run_bind. revert E.
  destruct lost; intros E.
  - exists (m_db m). by destruct m.
  - rewrite E. by exists db'.
Qed.

(** ** The steps before the body *)

Lemma run_no_faults {A} (p : prog C V A) m : m_faults m = [] → m_faults (exec p m).2 = [].
Proof using Type.
  revert m. induction p as [a|e|B body k IH|k IH|c k IH|k IH]; simpl; intros m Hf; try done;
    try (by apply IH).
  destruct (run_body _ _ _) as [o db']. apply IH. simpl. by rewrite Hf.
Qed.

Lemma run_bound_body b body m :
  ∃ o, exec (bound_body b body) m = (Ok o, (exec (body b) m).2).
Proof using Type.
  unfold bound_body. rewrite run_catch, run_bind.
  destruct (exec (body b) m) as [[[r|]|e] m2]; simpl; eauto.
Qed.

Lemma ensure_session_db c u kind db :
  match ensure_session c u kind now db with
  | Commit _ db' => chat_runs db' = chat_runs db ∧ chat_run_operations db' = chat_run_operations db
  | Rollback _ => True
  | Raise e => e = RunJournalError "durable run chat belongs to another user"
      ∧ ∃ s, chat_sessions db !! c = Some s ∧ ChatSession.user_id s ≠ u
  end.
Proof using Type.
  unfold ensure_session. destruct (chat_sessions db !! c) as [s|]; [|done].
  case_bool_decide; [done|]. eauto.
Qed.

Lemma accept_cases r msg c u pl sn db :
  match chat_runs db !! r with
  | Some _ => accept now r msg c u pl sn db = (Err IntegrityError, db)
  | None => ∃ row, accept now r msg c u pl sn db = (Ok row, put_run db row)
      ∧ run_id row = r ∧ status row = Pending ∧ lease_owner row = None
  end.
Proof using Type.
  unfold accept, run_tx, accept_in_session, insert_run. cbn [slot_allowed ChatRun.writer_slot
    is_null orb negb ChatRun.run_id].
  destruct (chat_runs db !! r) as [x|]; [done|]. cbn [is_null negb].
  assert (Hs : ∀ row l, writer_slot row = None → existsb (slot_conflict row) l = false).
  { intros row l Hn. induction l as [|y l IH]; [done|]. simpl. unfold slot_conflict at 1.
    by rewrite Hn. }
  rewrite Hs by done. match goal with |- context [<[r := ?x]> _] => exists x end. by split_and!.
Qed.

Lemma claim_fresh r o secs db row :
  o ≠ "" → chat_runs db !! r = Some row → run_id row = r → status row = Pending →
  lease_owner row = None →
  ∃ db' row', claim now r o secs db = (Ok true, db')
    ∧ _locked_owned_run now db' r o = Ok row' ∧ status row' = Running.
Proof using Type.
  intros Ho Hrow Hid Hst Hl. unfold claim, run_tx. rewrite bool_decide_false by done.
  rewrite Hrow, Hst. unfold lease_free. rewrite Hl. cbn [is_null orb is_live andb].
  match goal with |- context [put_run db ?x] => set (row' := x); exists (put_run db row'), row' end.
  split; [reflexivity|]. unfold _locked_owned_run.
  assert (Hr : run_id row' = r ∧ status row' = Running ∧ lease_owner row' = Some o
    ∧ lease_expires_at row' = Some (lease_until now secs)) by done.
  clearbody row'. destruct Hr as (H1 & H2 & H3 & H4). simpl. rewrite H1, lookup_insert_eq.
  assert (Hh : _holds_lease now row' o = true).
  { apply holds_lease_true. rewrite H2, H3, H4. split; [done|]. split; [done|].
    eexists. split; [done|]. unfold lease_until, seconds. lia. }
  rewrite Hh. by split.
Qed.

Definition keeps_wf (body : DurableRunBinding → prog C V (option raised)) : Prop :=
  ∀ b m, m_faults m = [] → wf (m_db m) → wf (m_db (exec (body b) m).2).

(** The identity [id] was already accepted: nothing of the runs changes. *)
Definition refused (id : string) (deterministic : bool) (db : Db) (r : result exn unit)
    (db' : Db) : Prop :=
  is_Some (chat_runs db !! id) ∧ chat_runs db' = chat_runs db
  ∧ r = Err (if deterministic then RunAlreadyExists id else IntegrityError).

(** The body ran on a new run that the binding owned, and how it ended decides
    the result and the settlement. *)
Definition bound_run (body : DurableRunBinding → prog C V (option raised)) (db : Db)
    (r : result exn unit) (db' : Db) : Prop :=
  ∃ b m1 row o m2,
    chat_runs db !! bd_run_id b = None
    ∧ _locked_owned_run now (m_db m1) (bd_run_id b) (bd_owner b) = Ok row ∧ status row = Running
    ∧ exec (bound_body b body) m1 = (Ok o, m2)
    ∧ r = final_result o
    ∧ if bool_decide (final_status o = Running) then db' = m_db m2
      else settlement b (final_status o) (m_db m2) db'.

Lemma run_accept_binding bid r msg c u pl sn m :
  m_faults m = [] →
  match chat_runs (m_db m) !! r with
  | Some _ => exec (accept_binding bid r msg c u pl sn) m
      = (Err (if bool_decide (default "" bid = "") then IntegrityError else RunAlreadyExists r), m)
  | None => ∃ row, exec (accept_binding bid r msg c u pl sn) m
      = (Ok tt, with_db m (put_run (m_db m) row))
      ∧ m_db (with_db m (put_run (m_db m) row)) = (accept now r msg c u pl (Some sn) (m_db m)).2
      ∧ run_id row = r ∧ status row = Pending ∧ lease_owner row = None
  end.
Proof using Type.
  intros Hf. unfold accept_binding, ignore. rewrite run_catch, run_bind, run_journal_tx by done.
  pose proof (accept_cases r msg c u pl (Some sn) (m_db m)) as Ha.
  destruct (chat_runs (m_db m) !! r) as [x|] eqn:Hx.
  - rewrite Ha. cbn [is_exception andb]. case_bool_decide; cbn [negb]; [done|].
    rewrite run_bind, run_one_tx by done. unfold run_exists. by rewrite Hx.
  - destruct Ha as (row & -> & Hid & Hst & Hl). exists row. by split_and!.
Qed.

Lemma run_tail kind bid r o msg c u pl sn secs body m :
  wf (m_db m) → m_faults m = [] → o ≠ "" → keeps_wf body →
  let '(res, m') := exec (
    let! _ := accept_binding bid r msg c u pl sn in
    let! claimed := journal_tx (λ now, claim now r o secs) in
    if negb claimed then Throw (RunLeaseLost r)
    else let b := mkBinding r o c in
         let! out := bound_body b body in settle_outcome kind b out) m in
  refused r (negb (bool_decide (default "" bid = ""))) (m_db m) res (m_db m')
  ∨ bound_run body (m_db m) res (m_db m').
Proof using Type.
  intros Hwf Hf Ho Hbody. rewrite run_bind.
  pose proof (run_accept_binding bid r msg c u pl sn m Hf) as Ha.
  destruct (chat_runs (m_db m) !! r) as [x|] eqn:Hx.
  { rewrite Ha. left. split_and!; [by rewrite Hx|done|]. by case_bool_decide. }
  destruct Ha as (row & -> & Hdb & Hid & Hst & Hl). set (m1 := with_db m _) in *.
  assert (Hwf1 : wf (m_db m1)).
  { rewrite Hdb. by apply accept_safe. }
  rewrite run_bind, run_journal_tx by done.
  destruct (claim_fresh r o secs (m_db m1) row Ho) as (db2 & row2 & Hc & Hl2 & Hs2);
    [simpl; rewrite Hid; apply lookup_insert_eq|done|done|done|].
  assert (Hwf2 : wf db2).
  { replace db2 with (claim now r o secs (m_db m1)).2 by by rewrite Hc. by apply claim_safe. }
  rewrite Hc. cbn [negb]. set (b := mkBinding r o c). set (m2 := with_db m1 db2).
  cbv zeta. rewrite run_bind. destruct (run_bound_body b body m2) as [out Hout]. rewrite Hout.
  destruct (run_settle_outcome kind b out (exec (body b) m2).2) as (db' & E & Hs);
    [by apply run_no_faults|by apply Hbody|].
  rewrite E. right. exists b, m2, row2, out, (exec (body b) m2).2. by split_and!.
Qed.

(** From the drawing of the remaining identifiers on; [db0] has the runs of the
    state the program started in. *)
Lemma run_ids db0 kind bid r c u pl sn secs body m :
  chat_runs (m_db m) = chat_runs db0 → wf (m_db m) → m_faults m = [] → keeps_wf body →
  let '(res, m') := exec (
    let! owner_id := uuid in
    let! message := uuid in
    let! _ := accept_binding bid r ("msg_" +:+ message) c u pl sn in
    let! claimed := journal_tx (λ now, claim now r (kind +:+ ":" +:+ owner_id) secs) in
    if negb claimed then Throw (RunLeaseLost r)
    else let b := mkBinding r (kind +:+ ":" +:+ owner_id) c in
         let! out := bound_body b body in settle_outcome kind b out) m in
  (res = Err (RunJournalError "durable run chat belongs to another user") ∧ m_db m' = db0
   ∧ ∃ c s, chat_sessions db0 !! c = Some s ∧ ChatSession.user_id s ≠ u)
  ∨ (∃ id, refused id (negb (bool_decide (default "" bid = ""))) db0 res (m_db m'))
  ∨ bound_run body db0 res (m_db m').
Proof using Type.
  intros Hr Hwf Hf Hbody. rewrite run_bind. cbn [uuid run]. rewrite run_bind. cbn [uuid run].
  match goal with |- context [accept_binding bid r ?msg c u pl sn] =>
    match goal with |- context [claim _ r ?o secs] =>
      match goal with |- context [run _ _ _ _ ?x] =>
        pose proof (run_tail kind bid r o msg c u pl sn secs body x Hwf Hf) as Ht end end end.
  match type of Ht with _ → _ → ?G => assert (Ht' : G) end.
  { apply Ht; [|done]. destruct kind; done. }
  destruct (exec _ _) as [res m']. right. destruct Ht' as [(Hid & Hk & He)|Hb].
  - left. exists r. split_and!; [by rewrite <- Hr|by rewrite Hk|done].
  - right. destruct Hb as (b & m1 & row & o & m2 & Hn & Hrest).
    exists b, m1, row, o, m2. split; [by rewrite <- Hr|done].
Qed.

(** With a body that keeps the run tables well-formed, and whatever the
    heartbeat reports, a binding without database faults ends in one of three
    ways: the chat belongs to another user and nothing is written; the run
    identity exists already, no run is touched, and the caller gets
    [RunAlreadyExists] exactly for an identity it chose; or the body ran once, on
    a new run that the binding owned, and the run is settled by the body's end:
    completed, cancelled, failed, or paused for review when an unknown tool
    outcome is anywhere inside the exception, which is raised again.  When the
    lease was lost meanwhile nothing is written, and a body that ended normally
    still returns normally. *)
Theorem binding_settles_run user_id chat_id kind external_id request_payload recovery_snapshot
    lease_seconds binding_run_id body m :
  wf (m_db m) → m_faults m = [] → keeps_wf body →
  let '(r, m') := exec (durable_run_binding user_id chat_id kind external_id request_payload
    recovery_snapshot lease_seconds binding_run_id body) m in
  (r = Err (RunJournalError "durable run chat belongs to another user") ∧ m_db m' = m_db m
   ∧ ∃ c s, chat_sessions (m_db m) !! c = Some s ∧ ChatSession.user_id s ≠ user_id)
  ∨ (∃ id, refused id (negb (bool_decide (default "" binding_run_id = ""))) (m_db m) r (m_db m'))
  ∨ bound_run body (m_db m) r (m_db m').
Proof using Type.
  intros Hwf Hf Hbody. unfold durable_run_binding. rewrite run_bind.
  assert (Huuid : ∀ (c : bool) (m : machine C), m_faults m = [] → ∃ u m1,
    exec (if c then uuid else Ret "") m = (Ok u, m1) ∧ m_db m1 = m_db m ∧ m_faults m1 = []).
  { intros c m0 Hf0. destruct c; simpl; eauto 6. }
  destruct (Huuid (bool_decide (default "" chat_id = "")) m Hf) as (u1 & m1 & -> & D1 & F1).
  rewrite run_bind, run_one_tx by done.
  set (c := opt_str_or chat_id _). pose proof (ensure_session_db c user_id kind (m_db m1)) as He.
  destruct (ensure_session c user_id kind now (m_db m1)) as [[] db2|[]|e].
  3: { destruct He as (-> & s & Hs & Hu). left. rewrite D1 in Hs. split_and!; eauto. }
  all: match goal with |- context [exec (bind (if ?b then uuid else Ret "") _) ?x] =>
    assert (Hx : wf (m_db x) ∧ chat_runs (m_db x) = chat_runs (m_db m) ∧ m_faults x = []);
    [|destruct Hx as (Wx & Rx & Fx);
      destruct (Huuid b x Fx) as (u2 & m2 & E2 & D2 & F2); rewrite run_bind, E2] end.
  1: { simpl. destruct He as [Hr Ho]. rewrite D1 in Hr, Ho. split_and!; [|done|done].
       by apply (wf_same_runs (m_db m)). }
  2: { rewrite D1. by split_and!. }
  all: eapply run_ids; [by rewrite D2|by rewrite D2|done|done].
Qed.
End run.

(** ** A concrete binding *)

#[local] Instance demo_text : ExcText := {|
  failure_text _ := "RuntimeError: failed";
  unknown_text u := u
|}.

(** The body journals an operation, then a group of its tasks fails; the
    outcome of one tool call is unknown. *)
Definition demo_body (b : DurableRunBinding) : prog unit unit (option raised) :=
  let! _ := journal_tx (λ now, append_operation now (bd_run_id b) (bd_owner b)
              "agent_started" "pre_model" "replayable" None None) in
  Ret (Some (Exc (OtherError "ExceptionGroup")
         [leaf (ToolOutcomeUnknown "effect_1"); leaf (OtherError "timeout")] None None)).

Definition demo_machine : machine unit := mkMachine empty_db [] [] ["owner_1"; "m1"].
Definition demo_answer (_ : unit) : result exn unit := Ok tt.

Lemma demo_keeps_wf : keeps_wf 100 demo_answer false demo_body.
Proof.
  intros b m Hf Hwf. unfold demo_body. rewrite run_bind, run_journal_tx by done.
  destruct (append_operation_safe 100 (bd_run_id b) (bd_owner b) "agent_started" "pre_model"
    "replayable" None None (m_db m) Hwf) as [Hwf' _].
  destruct (append_operation _ _ _ _ _ _ _ _ _) as [[a|e] db']; simpl in *; done.
Qed.

Lemma binding_settles_run_witness :
  let '(r, m') := run 100 demo_answer false (durable_run_binding "u1" (Some "c1")
    "automation_prompt" "job_1" None None 300 (Some "run_1") demo_body) demo_machine in
  (status <$> chat_runs (m_db m') !! "run_1") = Some NeedsAttention
  ∧ r = Err (OtherError "ExceptionGroup")
  ∧ bound_run 100 demo_answer false demo_body empty_db r (m_db m').
Proof.
  pose proof (binding_settles_run 100 demo_answer false "u1" (Some "c1") "automation_prompt" "job_1"
    None None 300 (Some "run_1") demo_body demo_machine wf_empty eq_refl demo_keeps_wf) as T.
  destruct (run 100 demo_answer false _ demo_machine) as [r m'] eqn:E.
  assert (Er : r = Err (OtherError "ExceptionGroup")
    ∧ (status <$> chat_runs (m_db m') !! "run_1") = Some NeedsAttention).
  { vm_compute in E. injection E as <- <-. split; vm_compute; reflexivity. }
  destruct Er as [Er Est]. split; [exact Est|]. split; [exact Er|].
  destruct T as [(Hr & _)|[(id & (y & Hy) & _)|Hb]]; [|discriminate|exact Hb].
  rewrite Er in Hr. discriminate.
Defined.
