(* ===== verification/ContextIR.v ===== *)
(** * Context items and the budget assembler: [core/llm/context_ir.py]

    The model's context is a list of items, each a content value with its
    provenance, kind, budget and truncation policy.  [ContextAssembler] selects
    whole reasoning steps under a token budget, prunes old tool outputs, cuts
    the oldest steps, and reports what it did.  Texts are lists of code points,
    so that byte lengths are those of UTF-8. *)

From S2P Require Import Prelude Db PyString.
From stdpp Require Import pretty.

#[local] Open Scope Z_scope.

Module ContextIR.

(** ** JSON values *)

Inductive value : Type :=
| VNull
| VBool (b : bool)
| VInt (z : Z)
| VStr (t : text)
| VList (l : list value)
| VMap (d : list (string * value)).

Abbreviation vmap := (list (string * value)).

#[export] Instance value_eq_dec : EqDecision value.
Proof.
  refine (fix go (v w : value) : Decision (v = w) :=
    match v, w with
    | VNull, VNull => left eq_refl
    | VBool b, VBool c => cast_if (decide (b = c))
    | VInt a, VInt b => cast_if (decide (a = b))
    | VStr a, VStr b => cast_if (decide (a = b))
    | VList l, VList k =>
        cast_if (@list_eq_dec value go l k)
    | VMap d, VMap e =>
        cast_if (@list_eq_dec (string * value) (@prod_eq_dec string _ value go) d e)
    | _, _ => right _
    end); try congruence; clear go; abstract intuition congruence.
Defined.

Fixpoint vget (d : vmap) (k : string) : option value :=
  match d with
  | [] => None
  | (k', v) :: d' => if bool_decide (k' = k) then Some v else vget d' k
  end.

(** [{**d, k: v}] *)
Fixpoint vset (d : vmap) (k : string) (v : value) : vmap :=
  match d with
  | [] => [(k, v)]
  | (k', v') :: d' => if bool_decide (k' = k) then (k, v) :: d' else (k', v') :: vset d' k v
  end.

(** The entry is the string [s]. *)
Definition vis (v : option value) (s : string) : bool :=
  match v with Some (VStr t) => bool_decide (t = text_of s) | _ => false end.

(** ** Text *)

(** Bytes of a code point in UTF-8. *)
Definition utf8_width (c : Z) : Z :=
  if c <? 128 then 1 else if c <? 2048 then 2 else if c <? 65536 then 3 else 4.
Definition utf8_len (t : text) : Z := foldr (λ c n, utf8_width c + n) 0 t.

(** [t[:n]] and [t[-n:]] *)
Definition head_of (n : Z) (t : text) : text := take (Z.to_nat n) t.
Definition tail_of (n : Z) (t : text) : text := drop (length t - Z.to_nat n) t.

Fixpoint join_text (sep : text) (l : list text) : text :=
  match l with
  | [] => []
  | [t] => t
  | t :: l' => t ++ sep ++ join_text sep l'
  end.

Definition newline : text := [10].

(** [json.dumps] of a string, without [ensure_ascii]. *)
Definition dump_code (c : Z) : text :=
  if c =? 34 then [92; 34] else if c =? 92 then [92; 92]
  else if c =? 10 then [92; 110] else if c =? 13 then [92; 114]
  else if c =? 9 then [92; 116] else if c =? 8 then [92; 98] else if c =? 12 then [92; 102]
  else if c <? 32 then
    text_of "\u00" ++ [48 + c / 16; (if c mod 16 <? 10 then 48 else 87) + c mod 16]
  else [c].
Definition dump_text (t : text) : text := [34] ++ List.concat (map dump_code t) ++ [34].

(** [canonical_json]: keys sorted, no spaces. *)
Fixpoint canonical_json (v : value) : text :=
  match v with
  | VNull => text_of "null"
  | VBool b => text_of (if b then "true" else "false")
  | VInt z => text_of (pretty z)
  | VStr t => dump_text t
  | VList l => text_of "[" ++ join_text (text_of ",") (map canonical_json l) ++ text_of "]"
  | VMap d =>
      let items := map (λ kv, (kv.1, dump_text (text_of kv.1) ++ text_of ":" ++ canonical_json kv.2)) d in
      text_of "{" ++ join_text (text_of ",") (order_by key_leb items).*2 ++ text_of "}"
  end.

(** The digest, and [str] of a value that is not a string. *)
Class ContextHost := {
  sha256_text : text → string;
  str_of_value : value → text
}.

Definition stable_hash `{ContextHost} (v : value) : string := sha256_text (canonical_json v).

(** ** Token estimates *)

Definition IMAGE_TOKEN_RESERVE : Z := 1844.

Definition tokens_of_bytes (n : Z) : Z := Z.max 1 ((n + 3) / 4).
Definition text_tokens (t : text) : Z :=
  match t with [] => 0 | _ => tokens_of_bytes (utf8_len t) end.
Definition json_tokens (v : value) : Z := tokens_of_bytes (utf8_len (canonical_json v)).

(** A data block whose media type is an image. *)
Definition is_image (v : value) : bool :=
  match v with
  | VMap b =>
      vis (vget b "type") "data"
      && match vget b "source" with
         | Some (VMap s) =>
             match vget s "media_type" with
             | Some (VStr t) => bool_decide (take 6 t = text_of "image/")
             | _ => false
             end
         | _ => false
         end
  | _ => false
  end.

Definition output_blocks (d : vmap) : list value :=
  match vget d "output" with Some (VList l) => l | _ => [] end.
Definition _tool_result_images (v : value) : list value :=
  match v with
  | VMap d => if vis (vget d "type") "tool_result" then List.filter is_image (output_blocks d) else []
  | _ => []
  end.

Fixpoint image_token_reserve (v : value) : Z :=
  match v with
  | VList l => foldr (λ x n, image_token_reserve x + n) 0 l
  | VMap d =>
      let nested k := (fix find (d : vmap) : option Z :=
        match d with
        | [] => None
        | (k', v') :: d' =>
            if bool_decide (k' = k) then Some (image_token_reserve v') else find d'
        end) d in
      if is_image v then IMAGE_TOKEN_RESERVE
      else if vis (vget d "type") "tool_result" then
        match nested "output" with Some n => n | None => default 0 (nested "content") end
      else 0
  | _ => 0
  end.

Fixpoint estimate_context_tokens (v : value) : Z :=
  match v with
  | VNull => 0
  | VStr t => text_tokens t
  | VList l => foldr (λ x n, estimate_context_tokens x + n) 0 l
  | VMap d =>
      if vis (vget d "type") "data" then IMAGE_TOKEN_RESERVE
      else if bool_decide (_tool_result_images v ≠ []) then
        json_tokens (VMap (vset d "output" (VList [])))
        + (fix blocks (d : vmap) : Z :=
             match d with
             | [] => 0
             | (k, v') :: d' =>
                 if bool_decide (k = "output") then
                   match v' with
                   | VList l => foldr (λ x n, estimate_context_tokens x + n) 0 l
                   | _ => 0
                   end
                 else blocks d'
             end) d
      else json_tokens v
  | _ => json_tokens v
  end.

(** ** Truncation *)

(** ["\n[… omitted …]\n"] *)
Definition MARKER : text :=
  [10; 91; 8230] ++ text_of " omitted " ++ [8230; 93; 10].

(** What the loop of [_truncate_text] shrinks: the kept head and tail. *)
Inductive cut := TailCut (tail : Z) | HeadCut (head : Z) | MiddleCut (head tail : Z).

Definition cut_text (t : text) (c : cut) : text :=
  match c with
  | TailCut n => tail_of n t
  | HeadCut n => head_of n t
  | MiddleCut h n => head_of h t ++ MARKER ++ tail_of n t
  end.

(** One round of the loop, [None] for the [break]. *)
Definition shrink (c : cut) : option cut :=
  match c with
  | TailCut n => Some (TailCut (Z.max 1 (n - 1)))
  | HeadCut n => Some (HeadCut (Z.max 1 (n - 1)))
  | MiddleCut h n =>
      if (n <=? h) && (1 <? h) then Some (MiddleCut (h - 1) n)
      else if 1 <? n then Some (MiddleCut h (n - 1))
      else if 1 <? h then Some (MiddleCut (h - 1) n)
      else None
  end.

Definition cut_size (c : cut) : nat :=
  match c with
  | TailCut n | HeadCut n => Z.to_nat n
  | MiddleCut h n => Z.to_nat h + Z.to_nat n
  end.

Definition too_long (max_bytes : Z) (t : text) : bool :=
  (max_bytes <? utf8_len t) && (1 <? Z.of_nat (length t)).

Fixpoint shrink_loop (fuel : nat) (max_bytes : Z) (t : text) (c : cut) : text :=
  if too_long max_bytes (cut_text t c) then
    match fuel, shrink c with
    | S fuel', Some c' => shrink_loop fuel' max_bytes t c'
    | _, _ => cut_text t c
    end
  else cut_text t c.

(** [int(body * 0.6)] is [3 * body / 5]: the double nearest to [0.6] is below
    it by less than half a unit in the last place of the product. *)
Definition first_cut (max_chars : Z) (tail_only : bool) : cut :=
  if tail_only then TailCut max_chars
  else if max_chars <? 40 then HeadCut max_chars
  else
    let body := Z.max 2 (max_chars - Z.of_nat (length MARKER)) in
    let head := Z.max 1 (3 * body / 5) in
    MiddleCut head (Z.max 1 (body - head)).

Definition _truncate_text (t : text) (max_tokens : Z) (tail_only : bool) : text :=
  if bool_decide (t = []) || (max_tokens <=? 0) then []
  else
    let max_bytes := Z.max 4 (max_tokens * 4) in
    if utf8_len t <=? max_bytes then t
    else
      let c := first_cut max_bytes tail_only in
      shrink_loop (cut_size c) max_bytes t c.

Definition POLICY_NEVER : string := "never".
Definition POLICY_DROP : string := "drop".
Definition POLICY_HEAD_TAIL : string := "head_tail".
Definition POLICY_TAIL : string := "tail".
Definition VISIBILITY_MODEL : string := "model".
Definition VISIBILITY_MANIFEST_ONLY : string := "manifest_only".
Definition KIND_USER_INPUT : string := "user_input".
Definition KIND_ASSISTANT : string := "assistant_history".
Definition KIND_THINKING : string := "thinking".
Definition KIND_TOOL_CALL : string := "tool_call".
Definition KIND_TOOL_RESULT : string := "tool_result".
Definition TOOL_KINDS : list string := [KIND_TOOL_CALL; KIND_TOOL_RESULT].
Definition STEP_KINDS : list string :=
  [KIND_ASSISTANT; KIND_THINKING; KIND_TOOL_CALL; KIND_TOOL_RESULT].
Definition CONVERSATION_KINDS : list string := STEP_KINDS ++ [KIND_USER_INPUT].

Section host.
Context `{ContextHost}.

(** The text of one block of a tool output. *)
Definition block_text (v : value) : text :=
  match v with
  | VMap b =>
      match vget b "text" with
      | Some (VStr t) => t
      | Some VNull | None => canonical_json v
      | Some w => str_of_value w
      end
  | VStr t => t
  | _ => canonical_json v
  end.

Definition text_block (t : text) : value :=
  VMap [("type", VStr (text_of "text")); ("text", VStr t)].

(** Shorten the string under [key] so that the whole fits. *)
Definition truncate_key (d : vmap) (key : string) (t : text) (max_tokens : Z) (tail_only : bool)
    : value :=
  let overhead := estimate_context_tokens (VMap (vset d key (VStr []))) in
  VMap (vset d key (VStr (_truncate_text t (Z.max 1 (max_tokens - overhead)) tail_only))).

Definition truncate_output (d : vmap) (output : value) (max_tokens : Z) (tail_only : bool) : value :=
  match output with
  | VList l =>
      match _tool_result_images (VMap d) with
      | [] => truncate_key d "output" (join_text newline (map block_text l)) max_tokens tail_only
      | images =>
          let t := join_text newline (map block_text (List.filter (λ b, negb (is_image b)) l)) in
          let overhead :=
            estimate_context_tokens (VMap (vset d "output" (VList (text_block [] :: images)))) in
          VMap (vset d "output" (VList
            (text_block (_truncate_text t (Z.max 1 (max_tokens - overhead)) tail_only) :: images)))
      end
  | _ => truncate_key d "output" (canonical_json output) max_tokens tail_only
  end.

(** The first of the keys that holds something to shorten. *)
Definition truncate_result (d : vmap) (max_tokens : Z) (tail_only : bool) : value :=
  let other :=
    match vget d "content" with
    | Some (VStr t) => truncate_key d "content" t max_tokens tail_only
    | _ => match vget d "text" with
           | Some (VStr t) => truncate_key d "text" t max_tokens tail_only
           | _ => VMap d
           end
    end in
  match vget d "output" with
  | Some (VStr t) => truncate_key d "output" t max_tokens tail_only
  | Some (VList l) => truncate_output d (VList l) max_tokens tail_only
  | Some (VMap m) => truncate_output d (VMap m) max_tokens tail_only
  | _ => other
  end.

Definition _truncate_content (content : value) (max_tokens : Z) (policy : string) : value :=
  let tail_only := bool_decide (policy = POLICY_TAIL) in
  if max_tokens <=? 0 then VStr []
  else match content with
       | VStr t => VStr (_truncate_text t max_tokens tail_only)
       | VMap d => if vis (vget d "type") "tool_result" then truncate_result d max_tokens tail_only
                   else content
       | _ => content
       end.

Definition pruned_text (tokens : Z) : text :=
  text_of "[tool output pruned to fit the context budget: " ++ text_of (pretty tokens)
  ++ text_of " tokens omitted]".

Definition _prune_tool_output (content : value) (original_tokens : Z) : result exn value :=
  match content with
  | VMap d =>
      if vis (vget d "type") "tool_result" then
        let note := pruned_text original_tokens in
        match _tool_result_images content with
        | [] =>
            let key := List.find (λ k, bool_decide (is_Some (vget d k))) ["output"; "content"; "text"] in
            Ok (VMap (vset d (default "output" key) (VStr note)))
        | images => Ok (VMap (vset d "output" (VList (text_block note :: images))))
        end
      else Err (ValueError "only tool_result content can be pruned")
  | _ => Err (ValueError "only tool_result content can be pruned")
  end.

(** ** Items *)

Record ContextItem := mkItem {
  item_id : string;
  kind : string;
  origin : string;
  trust : string;
  visibility : string;
  priority : Z;
  token_budget : Z;
  truncation_policy : string;
  content_ref : string;
  content_hash : string;
  cache_class : string;
  created_seq : Z;
  token_estimate : Z;
  render_role : string;
  render_name : string;
  pair_id : string;
  message_group : string;
  unit_id : string;
  content : value;
  metadata : vmap
}.

#[global] Instance eta_item : Eta ContextItem := λ i,
  mkItem (item_id i) (kind i) (origin i) (trust i) (visibility i) (priority i) (token_budget i)
    (truncation_policy i) (content_ref i) (content_hash i) (cache_class i) (created_seq i)
    (token_estimate i) (render_role i) (render_name i) (pair_id i) (message_group i)
    (unit_id i) (content i) (metadata i).

Definition sha_ref (digest : string) : string := "sha256:" +:+ digest.

Definition create (item_id kind origin trust visibility : string) (priority token_budget : Z)
    (truncation_policy : string) (content : value) (cache_class : string) (created_seq : Z)
    (render_role pair_id message_group unit_id : string)
    (content_ref content_hash : option string) (token_estimate : option Z)
    (render_name : string) (metadata : vmap) : ContextItem :=
  let truncation_policy :=
    match content with
    | VMap d => if vis (vget d "type") "data" then POLICY_DROP else truncation_policy
    | _ => truncation_policy
    end in
  let computed_hash := stable_hash content in
  let supplied_hash := default "" content_hash in
  let external_reference :=
    match content with VNull => negb (bool_decide (supplied_hash = "")) | _ => false end in
  let digest := if external_reference then supplied_hash else computed_hash in
  let estimate :=
    if external_reference then Z.max 0 (default 0 token_estimate)
    else estimate_context_tokens content in
  let reference :=
    match content_ref with
    | Some r => if external_reference || bool_decide (supplied_hash = computed_hash)
                then r else sha_ref digest
    | None => sha_ref digest
    end in
  mkItem item_id kind origin trust visibility priority (Z.max 0 token_budget) truncation_policy
    reference digest cache_class created_seq estimate render_role render_name pair_id
    (str_or message_group ("item:" +:+ item_id)) (str_or unit_id ("item:" +:+ item_id))
    content metadata.

Definition with_content (item : ContextItem) (c : value) : ContextItem :=
  let digest := stable_hash c in
  item <| content := c |> <| content_hash := digest |> <| content_ref := sha_ref digest |>
       <| token_estimate := estimate_context_tokens c |>.

Definition vstr (s : string) : value := VStr (text_of s).

Definition to_manifest (i : ContextItem) : vmap :=
  [("item_id", vstr (item_id i)); ("kind", vstr (kind i)); ("origin", vstr (origin i));
   ("trust", vstr (trust i)); ("visibility", vstr (visibility i));
   ("priority", VInt (priority i)); ("token_budget", VInt (token_budget i));
   ("truncation_policy", vstr (truncation_policy i)); ("content_ref", vstr (content_ref i));
   ("content_hash", vstr (content_hash i)); ("cache_class", vstr (cache_class i));
   ("created_seq", VInt (created_seq i)); ("token_estimate", VInt (token_estimate i));
   ("render_role", vstr (render_role i));
   ("render_name_hash", vstr (stable_hash (vstr (render_name i))));
   ("pair_id", if bool_decide (pair_id i = "") then VNull else vstr (pair_id i));
   ("message_group", vstr (message_group i)); ("unit_id", vstr (unit_id i))].

Definition make_text_context_item (t : text) (item_id kind origin trust : string)
    (created_seq priority token_budget : Z)
    (truncation_policy render_role cache_class : string) : ContextItem :=
  create item_id kind origin trust VISIBILITY_MODEL priority token_budget truncation_policy
    (VStr t) cache_class created_seq render_role "" item_id "" None None None render_role [].

Definition session_context_metadata (item : ContextItem) : vmap :=
  List.filter (λ kv, negb (bool_decide (kv.1 ∈
    ["item_id"; "created_seq"; "message_group"; "unit_id"; "content_ref"; "content_hash";
     "token_estimate"; "render_name_hash"]))) (to_manifest item).

(** ** The assembler *)

(** What the manifest says of one item. *)
Record ItemRecord := mkRecord {
  action : string;
  reason : option string;
  original_tokens : Z;
  final_tokens : Z
}.

#[global] Instance eta_record : Eta ItemRecord := λ r,
  mkRecord (action r) (reason r) (original_tokens r) (final_tokens r).

Abbreviation Records := (gmap string ItemRecord).

(** [records[id].update(action=..., reason=..., final_tokens=0)] *)
Definition note_excluded (why : string) (item : ContextItem) : Records → Records :=
  alter (λ r, r <| action := "excluded" |> <| reason := Some why |> <| final_tokens := 0 |>)
    (item_id item).
Definition note_final (what : string) (tokens : Z) (item : ContextItem) : Records → Records :=
  alter (λ r, r <| action := what |> <| final_tokens := tokens |>) (item_id item).

Definition is_kind (l : list string) (item : ContextItem) : bool := bool_decide (kind item ∈ l).
Definition is_never (item : ContextItem) : bool :=
  bool_decide (truncation_policy item = POLICY_NEVER).
Definition is_manifest_only (item : ContextItem) : bool :=
  bool_decide (visibility item = VISIBILITY_MANIFEST_ONLY).
Definition truncatable (item : ContextItem) : bool :=
  bool_decide (truncation_policy item ∈ [POLICY_HEAD_TAIL; POLICY_TAIL]).

Definition _mandatory (item : ContextItem) : bool :=
  if is_manifest_only item then true
  else if is_kind STEP_KINDS item then false
  else is_never item.

Definition _tokens (item : ContextItem) : Z :=
  if is_manifest_only item then 0 else token_estimate item.
Definition unit_tokens (u : list ContextItem) : Z := foldr (λ i n, _tokens i + n) 0 u.
Definition units_tokens (us : list (list ContextItem)) : Z := foldr (λ u n, unit_tokens u + n) 0 us.

(** [_unit_key] and the order of the tuples it returns. *)
Definition max_of (f : ContextItem → Z) (u : list ContextItem) : Z :=
  default 0 (max_opt (map f u)).
Definition _unit_key (u : list ContextItem) : Z * Z * list string :=
  (- max_of priority u, - max_of created_seq u, order_by String.leb (map item_id u)).

Fixpoint strings_leb (a b : list string) : bool :=
  match a, b with
  | [], _ => true
  | _ :: _, [] => false
  | x :: a', y :: b' => if bool_decide (x = y) then strings_leb a' b' else String.leb x y
  end.
Definition unit_key_leb (u v : list ContextItem) : bool :=
  let '(p, s, ids) := _unit_key u in
  let '(p', s', ids') := _unit_key v in
  if p =? p' then (if s =? s' then strings_leb ids ids' else s <? s') else p <? p'.

(** *** Per-item caps *)

Definition capped_at (item : ContextItem) (target : Z) : ContextItem :=
  with_content item (_truncate_content (content item) target (truncation_policy item)).

(** The refit loop. *)
Fixpoint refit (fuel : nat) (item : ContextItem) (budget target : Z) : ContextItem :=
  let capped := capped_at item target in
  if (budget <? token_estimate capped) && (1 <? target) then
    match fuel with
    | S fuel' => refit fuel' item budget (Z.max 1 (target - (token_estimate capped - budget)))
    | O => capped
    end
  else capped.

Definition item_allowance (item : ContextItem) : Z :=
  token_budget item
  + foldr (λ b n, estimate_context_tokens b + n) 0 (_tool_result_images (content item)).

Definition _cap_item (item : ContextItem) (records : Records) : option ContextItem * Records :=
  let original := token_estimate item in
  let budget := item_allowance item in
  let out := <[item_id item := mkRecord "excluded" (Some "item_budget") original 0]> records in
  if is_manifest_only item || is_never item || (original <=? budget) then
    (Some item, <[item_id item := mkRecord "included" None original original]> records)
  else if truncatable item && (0 <? token_budget item) then
    let capped := refit (Z.to_nat budget) item budget budget in
    if token_estimate capped <=? budget then
      (Some capped,
       <[item_id item := mkRecord "truncated" None original (token_estimate capped)]> records)
    else (None, out)
  else (None, out).

(** The state of [assemble] while it partitions the items. *)
Record Stage := mkStage {
  records : Records;
  capped : list ContextItem;
  units : list (string * list ContextItem);
  excluded : list ContextItem
}.

#[global] Instance eta_stage : Eta Stage := λ s,
  mkStage (records s) (capped s) (units s) (excluded s).

Definition cap_step (s : Stage) (item : ContextItem) : Stage :=
  match _cap_item item (records s) with
  | (None, records') => s <| records := records' |> <| excluded := excluded s ++ [item] |>
  | (Some candidate, records') =>
      s <| records := records' |> <| capped := capped s ++ [candidate] |>
  end.

(** *** Grouping into units *)

Definition call_units (items : list ContextItem) : gmap string string * gset string :=
  foldl (λ '(units, ambiguous) item,
    if bool_decide (kind item = KIND_TOOL_CALL) && negb (bool_decide (pair_id item = "")) then
      (<[pair_id item := unit_id item]> units,
       if bool_decide (default (unit_id item) (units !! pair_id item) = unit_id item)
       then ambiguous else {[pair_id item]} ∪ ambiguous)
    else (units, ambiguous)) (∅, ∅) items.

(** [units.setdefault(unit_id, []).append(candidate)] *)
Fixpoint add_to_unit (us : list (string * list ContextItem)) (item : ContextItem)
    : list (string * list ContextItem) :=
  match us with
  | [] => [(unit_id item, [item])]
  | (k, u) :: us' =>
      if bool_decide (k = unit_id item) then (k, u ++ [item]) :: us'
      else (k, u) :: add_to_unit us' item
  end.

Definition group_step (calls : gmap string string) (ambiguous : gset string) (s : Stage)
    (candidate : ContextItem) : Stage :=
  if is_kind TOOL_KINDS candidate && bool_decide (pair_id candidate ∈ ambiguous) then
    s <| records := note_excluded "malformed_tool_pair" candidate (records s) |>
      <| excluded := excluded s ++ [candidate] |>
  else
    let candidate :=
      match calls !! pair_id candidate with
      | Some u => if bool_decide (kind candidate = KIND_TOOL_RESULT)
                  then candidate <| unit_id := u |> else candidate
      | None => candidate
      end in
    s <| units := add_to_unit (units s) candidate |>.

(** *** Classification *)

(** [arrival[id]] of an id of [ids]. *)
Fixpoint arrival (ids : list string) (id : string) : Z :=
  match ids with
  | [] => 0
  | x :: ids' => if bool_decide (x = id) then 0 else 1 + arrival ids' id
  end.
Definition unit_start (ids : list string) (u : list ContextItem) : Z :=
  match map (λ i, arrival ids (item_id i)) u with
  | [] => 0
  | x :: l => foldl Z.min x l
  end.
Definition start_leb (ids : list string) (u v : list ContextItem) : bool :=
  unit_start ids u <=? unit_start ids v.
Definition arrival_leb (ids : list string) (a b : ContextItem) : bool :=
  arrival ids (item_id a) <=? arrival ids (item_id b).

Definition is_request (item : ContextItem) : bool :=
  bool_decide (kind item = KIND_USER_INPUT) && is_never item
  && bool_decide (visibility item = VISIBILITY_MODEL).
Definition request_index (items : list ContextItem) : Z :=
  let ids := map item_id items in
  foldl (λ n item, if is_request item then arrival ids (item_id item) else n) (-1) items.

Definition of_kind (k : string) (u : list ContextItem) : list ContextItem :=
  List.filter (λ i, bool_decide (kind i = k)) u.
Definition _tool_pairs_balanced (u : list ContextItem) : bool :=
  let tools := List.filter (is_kind TOOL_KINDS) u in
  forallb (λ i, negb (bool_decide (pair_id i = ""))) tools
  && forallb (λ i,
       let pair := List.filter (λ j, bool_decide (pair_id j = pair_id i)) tools in
       let calls := length (of_kind KIND_TOOL_CALL pair) in
       (0 <? calls)%nat && (calls =? length (of_kind KIND_TOOL_RESULT pair))%nat) tools.

Record Plan := mkPlan {
  plan_records : Records;
  mandatory : list (list ContextItem);
  protected : list (list ContextItem);
  aside : list (list ContextItem);
  conversation : list (list ContextItem);
  plan_excluded : list ContextItem
}.

#[global] Instance eta_plan : Eta Plan := λ p,
  mkPlan (plan_records p) (mandatory p) (protected p) (aside p) (conversation p)
    (plan_excluded p).

Definition classify_step (ids : list string) (request : Z) (p : Plan) (u : list ContextItem)
    : Plan :=
  if existsb _mandatory u then p <| mandatory := mandatory p ++ [u] |>
  else if existsb (is_kind STEP_KINDS) u && (0 <=? request) && (request <? unit_start ids u)
  then p <| protected := protected p ++ [u] |>
  else if negb (_tool_pairs_balanced u) then
    p <| plan_records := foldl (λ r i, note_excluded "malformed_tool_pair" i r) (plan_records p) u |>
      <| plan_excluded := plan_excluded p ++ u |>
  else if forallb (is_kind CONVERSATION_KINDS) u
  then p <| conversation := conversation p ++ [u] |>
  else p <| aside := aside p ++ [u] |>.

Definition make_plan (items : list ContextItem) : Plan :=
  let ids := map item_id items in
  let s := foldl cap_step (mkStage ∅ [] [] []) items in
  let '(calls, ambiguous) := call_units (capped s) in
  let s := foldl (group_step calls ambiguous) s (capped s) in
  let p := foldl (classify_step ids (request_index items))
             (mkPlan (records s) [] [] [] [] (excluded s)) (units s).*2 in
  p <| mandatory := order_by (start_leb ids) (mandatory p) |>
    <| protected := order_by (start_leb ids) (protected p) |>
    <| conversation := order_by (start_leb ids) (conversation p) |>
    <| aside := order_by unit_key_leb (aside p) |>.

(** *** Selection *)

(** The running totals of the selection. *)
Record Selection := mkSelection {
  sel_records : Records;
  sel_included : list ContextItem;
  sel_excluded : list ContextItem;
  used : Z
}.

#[global] Instance eta_selection : Eta Selection := λ s,
  mkSelection (sel_records s) (sel_included s) (sel_excluded s) (used s).

Definition include_unit (s : Selection) (u : list ContextItem) : Selection :=
  s <| sel_included := sel_included s ++ u |> <| used := used s + unit_tokens u |>.

(** A unit of one truncatable item, cut to what remains. *)
Definition shrink_aside (u : list ContextItem) (remaining : Z) : option ContextItem :=
  match u with
  | [item] =>
      if (0 <? remaining) && truncatable item then
        let shrunk := capped_at item remaining in
        if (_tokens shrunk <? _tokens item) && (_tokens shrunk <=? remaining)
        then Some shrunk else None
      else None
  | _ => None
  end.

Definition exclude_all (why : string) (s : Selection) (u : list ContextItem) : Selection :=
  s <| sel_records := foldl (λ r i, note_excluded why i r) (sel_records s) u |>
    <| sel_excluded := sel_excluded s ++ u |>.

Definition aside_step (total_budget : Z) (s : Selection) (u : list ContextItem) : Selection :=
  let remaining := Z.max 0 (total_budget - used s) in
  if unit_tokens u <=? remaining then include_unit s u
  else match shrink_aside u remaining with
       | Some shrunk =>
           (include_unit s [shrunk])
             <| sel_records :=
                  note_final "truncated" (token_estimate shrunk) shrunk (sel_records s) |>
       | None => exclude_all "budget" s u
       end.

(** One prunable tool output; [None] leaves it as it is. *)
Definition pruned_item (item : ContextItem) : result exn (option ContextItem) :=
  if negb (bool_decide (kind item = KIND_TOOL_RESULT)) || is_never item then Ok None
  else with? c := _prune_tool_output (content item) (token_estimate item) in
       let pruned := with_content item c in
       Ok (if _tokens item <=? _tokens pruned then None else Some pruned).

(** The inner loop over a unit; [room] is what the history may take and
    [tokens] what it takes now. *)
Fixpoint prune_unit (room tokens : Z) (records : Records) (count : nat) (u : list ContextItem)
    : result exn (list ContextItem * Z * Records * nat) :=
  match u with
  | [] => Ok ([], tokens, records, count)
  | item :: u' =>
      if tokens <=? room then Ok (u, tokens, records, count)
      else
        with? o := pruned_item item in
        let '(item', tokens', records', count') :=
          match o with
          | Some pruned =>
              (pruned, tokens - (_tokens item - _tokens pruned),
               note_final "pruned" (token_estimate pruned) item records, S count)
          | None => (item, tokens, records, count)
          end in
        with? r := prune_unit room tokens' records' count' u' in
        let '(u'', tokens'', records'', count'') := r in
        Ok (item' :: u'', tokens'', records'', count'')
  end.

Fixpoint prune_history (room tokens : Z) (records : Records) (count : nat)
    (us : list (list ContextItem))
    : result exn (list (list ContextItem) * Z * Records * nat) :=
  match us with
  | [] => Ok ([], tokens, records, count)
  | u :: us' =>
      if tokens <=? room then Ok (us, tokens, records, count)
      else
        with? r := prune_unit room tokens records count u in
        let '(u', tokens', records', count') := r in
        with? r := prune_history room tokens' records' count' us' in
        let '(us'', tokens'', records'', count'') := r in
        Ok (u' :: us'', tokens'', records'', count'')
  end.

(** The [while conversation and ...] loop. *)
Fixpoint cut_history (room tokens : Z) (s : Selection) (cut : nat) (us : list (list ContextItem))
    : list (list ContextItem) * Selection * nat :=
  match us with
  | u :: us' =>
      if room <? tokens then
        cut_history room (tokens - unit_tokens u) (exclude_all "budget_cut" s u) (S cut) us'
      else (us, s, cut)
  | [] => (us, s, cut)
  end.

Record ContextAssembly := mkAssembly {
  included : list ContextItem;
  left_out : list ContextItem;
  _manifest : value;
  manifest_hash : string;
  used_tokens : Z;
  total_budget : Z;
  over_budget : bool;
  cut_units : nat;
  pruned_items : nat
}.

Definition record_entries (r : ItemRecord) : vmap :=
  ("action", vstr (action r))
  :: match reason r with Some why => [("reason", vstr why)] | None => [] end
  ++ [("original_tokens", VInt (original_tokens r)); ("final_tokens", VInt (final_tokens r))].

Definition vupdate (d1 d2 : vmap) : vmap := foldl (λ d kv, vset d kv.1 kv.2) d1 d2.

(** The manifest entry of an item: what was sent of it, or the original. *)
Definition manifest_entry (records : Records) (included : list ContextItem) (original : ContextItem)
    : value :=
  let final := default original
    (List.find (λ i, bool_decide (item_id i = item_id original)) (reverse included)) in
  VMap (vupdate (to_manifest final)
          (match records !! item_id original with Some r => record_entries r | None => [] end)).

Definition is_included (included : list ContextItem) (item : ContextItem) : bool :=
  bool_decide (item_id item ∈ map item_id included).

Definition CONTEXT_SCHEMA_VERSION : string := "harness.context.v2".

(** [{item.item_id: item for item in excluded}.values()] *)
Fixpoint by_id (acc l : list ContextItem) : list ContextItem :=
  match l with
  | [] => acc
  | i :: l' =>
      by_id (if bool_decide (item_id i ∈ map item_id acc)
             then map (λ j, if bool_decide (item_id j = item_id i) then i else j) acc
             else acc ++ [i]) l'
  end.

Definition budget_entries (details : list (string * Z)) : vmap :=
  match details with
  | [] => []
  | _ => [("budget_details", VMap (map (λ kv, (kv.1, VInt (Z.max 0 kv.2))) details))]
  end.

Definition finish (items : list ContextItem) (total : Z) (details : list (string * Z))
    (over : bool) (protected_units cut pruned : nat) (s : Selection) : ContextAssembly :=
  let ids := map item_id items in
  let inc := order_by (arrival_leb ids) (sel_included s) in
  let exc := order_by (arrival_leb ids) (by_id [] (sel_excluded s)) in
  let entries keep :=
    VList (map (manifest_entry (sel_records s) inc)
             (List.filter (λ i, Bool.eqb (is_included inc i) keep) items)) in
  let payload := VMap (
    [("schema_version", vstr CONTEXT_SCHEMA_VERSION); ("total_budget", VInt total);
     ("used_tokens", VInt (used s)); ("over_budget", VBool over);
     ("protected_units", VInt (Z.of_nat protected_units)); ("cut_units", VInt (Z.of_nat cut));
     ("pruned_items", VInt (Z.of_nat pruned)); ("included", entries true);
     ("excluded", entries false)] ++ budget_entries details) in
  mkAssembly inc exc payload (stable_hash payload) (used s) total over cut pruned.

(** Contents without lone surrogates, whose UTF-8 encoding raises, and without
    floats. *)
Definition assemble (total_budget : Z) (details : list (string * Z)) (items : list ContextItem)
    : result exn ContextAssembly :=
  let total := Z.max 0 total_budget in
  if negb (bool_decide (NoDup (map item_id items))) then
    Err (ValueError "context item_id values must be unique")
  else
    let p := make_plan items in
    let s := foldl include_unit (mkSelection (plan_records p) [] (plan_excluded p) 0)
               (mandatory p ++ protected p) in
    let over := total <? used s in
    let s := foldl (aside_step total) s (aside p) in
    let room := total - used s in
    with? r := prune_history room (units_tokens (conversation p)) (sel_records s) 0
                 (conversation p) in
    let '(history, tokens, records, pruned) := r in
    let '(kept, s, cut) := cut_history room tokens (s <| sel_records := records |>) 0 history in
    Ok (finish items total details over (length (protected p)) cut pruned
          (foldl include_unit s kept)).
End host.
End ContextIR.
