(* ===== verification/ContextIRProps.v ===== *)
(** * The budget assembler: lemmas

    Texts shrink to their byte bound and the loops that shrink them end; the
    stages of [assemble] keep every item exactly once; pruning and cutting the
    history agree with their reference definitions. *)

From S2P Require Import Prelude Db PyString ContextIR.
From stdpp Require Import pretty.

#[local] Open Scope Z_scope.

Module ContextIRProps.
Import ContextIR.

(** ** Objects *)

Lemma vget_vset_eq d k v : vget (vset d k v) k = Some v.
Proof.
  induction d as [|[k0 v0] d IH]; simpl; [by rewrite bool_decide_true|].
  case_bool_decide; simpl; [by rewrite bool_decide_true|]. by rewrite bool_decide_false.
Qed.

Lemma vget_vset_ne d k k' v : k ≠ k' → vget (vset d k v) k' = vget d k'.
Proof.
  intros Hne. induction d as [|[k0 v0] d IH]; simpl; [by rewrite bool_decide_false|].
  case_bool_decide; simpl; subst; [by rewrite bool_decide_false|]. by rewrite IH.
Qed.

Lemma vset_vset d k v w : vset (vset d k v) k w = vset d k w.
Proof.
  induction d as [|[k0 v0] d IH]; simpl; [by rewrite bool_decide_true|].
  case_bool_decide; simpl; [by rewrite bool_decide_true|].
  rewrite bool_decide_false by done. by rewrite IH.
Qed.

(** ** Byte lengths and estimates *)

Lemma utf8_width_bounds c : 1 ≤ utf8_width c ≤ 4.
Proof. unfold utf8_width. repeat case_match; lia. Qed.

Lemma utf8_len_app t u : utf8_len (t ++ u) = utf8_len t + utf8_len u.
Proof. unfold utf8_len. induction t; simpl in *; lia. Qed.

Lemma utf8_len_bounds t : Z.of_nat (length t) ≤ utf8_len t ≤ 4 * Z.of_nat (length t).
Proof.
  unfold utf8_len. induction t as [|c t IH]; simpl; [lia|].
  pose proof (utf8_width_bounds c). lia.
Qed.

Lemma tokens_of_bytes_pos n : 1 ≤ tokens_of_bytes n.
Proof. unfold tokens_of_bytes. lia. Qed.

Lemma text_tokens_nonneg t : 0 ≤ text_tokens t.
Proof.
  destruct t as [|c t]; [done|]. unfold text_tokens.
  pose proof (tokens_of_bytes_pos (utf8_len (c :: t))). lia.
Qed.

Lemma json_tokens_nonneg v : 0 ≤ json_tokens v.
Proof. pose proof (tokens_of_bytes_pos (utf8_len (canonical_json v))). unfold json_tokens. lia. Qed.

#[local] Hint Resolve text_tokens_nonneg json_tokens_nonneg : core.

Fixpoint estimate_nonneg (v : value) : 0 ≤ estimate_context_tokens v.
Proof.
  assert (Hlist : ∀ l : list value, 0 ≤ foldr (λ x n, estimate_context_tokens x + n) 0 l).
  { refine (fix go l := match l with [] => _ | x :: l' => _ end); simpl; [lia|].
    pose proof (estimate_nonneg x). pose proof (go l'). lia. }
  destruct v as [|b|z|t|l|d]; simpl; auto; [lia|].
  assert (Hb : 0 ≤ (fix blocks (d : vmap) : Z :=
             match d with
             | [] => 0
             | (k, v') :: d' =>
                 if bool_decide (k = "output") then
                   match v' with
                   | VList l => foldr (λ x n, estimate_context_tokens x + n) 0 l
                   | _ => 0
                   end
                 else blocks d'
             end) d).
  { clear Hlist. refine ((fix go d := match d with [] => _ | (k, v) :: d' => _ end) d); simpl; [lia|].
    case_bool_decide; [|apply go]. destruct v; try lia.
    refine ((fix gl l := match l with [] => _ | x :: l' => _ end) l); simpl; [lia|].
    pose proof (estimate_nonneg x). pose proof (gl l'). lia. }
  destruct (vis _ _); [unfold IMAGE_TOKEN_RESERVE; lia|].
  destruct (bool_decide _); [|apply (json_tokens_nonneg (VMap d))].
  pose proof (json_tokens_nonneg (VMap (vset d "output" (VList [])))). lia.
Qed.

Lemma text_tokens_le t n : 1 ≤ n → utf8_len t ≤ 4 * n → text_tokens t ≤ n.
Proof.
  intros Hn Ht. destruct t as [|c t]; [simpl; lia|]. unfold text_tokens, tokens_of_bytes.
  assert ((utf8_len (c :: t) + 3) / 4 < n + 1) by (apply Z.div_lt_upper_bound; lia). lia.
Qed.

(** ** The loop of [_truncate_text] *)

Lemma utf8_len_single t : (length t ≤ 1)%nat → utf8_len t ≤ 4.
Proof. pose proof (utf8_len_bounds t). lia. Qed.

Lemma head_of_length n t : 1 ≤ n → Z.of_nat (length (head_of n t)) ≤ n.
Proof. unfold head_of. rewrite length_take. lia. Qed.

Lemma tail_of_length n t : 1 ≤ n → Z.of_nat (length (tail_of n t)) ≤ n.
Proof. unfold tail_of. rewrite length_drop. lia. Qed.

Definition cut_ok (max_bytes : Z) (c : cut) : Prop :=
  match c with
  | TailCut n | HeadCut n => 1 ≤ n
  | MiddleCut h n => 1 ≤ h ∧ 1 ≤ n ∧ 40 ≤ max_bytes
  end.

Lemma utf8_len_MARKER : utf8_len MARKER = 19.
Proof. reflexivity. Qed.

(** While the text is too long the cut is not minimal, and it shrinks. *)
Lemma shrink_shrinks mb t c :
  4 ≤ mb → cut_ok mb c → too_long mb (cut_text t c) = true →
  ∃ c', shrink c = Some c' ∧ cut_ok mb c' ∧ (cut_size c' < cut_size c)%nat.
Proof.
  unfold too_long. intros Hmb Hok Hl. bool_simpl. destruct c as [n|n|h n]; cbn [cut_text cut_ok shrink] in *.
  - pose proof (tail_of_length n t Hok). eexists. split; [done|]. simpl. lia.
  - pose proof (head_of_length n t Hok). eexists. split; [done|]. simpl. lia.
  - destruct Hok as (Hh & Hn & H40).
    destruct ((n <=? h) && (1 <? h)) eqn:E1; bool_simpl;
      [eexists; split; [done|]; simpl; lia|].
    destruct (1 <? n) eqn:E2; bool_simpl; [eexists; split; [done|]; simpl; lia|].
    destruct (1 <? h) eqn:E3; bool_simpl; [eexists; split; [done|]; simpl; lia|].
    exfalso. assert (h = 1 ∧ n = 1) as [-> ->] by lia.
    rewrite !utf8_len_app, utf8_len_MARKER in H.
    pose proof (utf8_len_bounds (head_of 1 t)). pose proof (utf8_len_bounds (tail_of 1 t)).
    pose proof (head_of_length 1 t ltac:(done)). pose proof (tail_of_length 1 t ltac:(done)). lia.
Qed.

Lemma not_too_long mb t : 4 ≤ mb → too_long mb t = false → utf8_len t ≤ mb.
Proof.
  unfold too_long. intros Hmb H. apply andb_false_iff in H as [H|H]; bool_simpl; [done|].
  pose proof (utf8_len_single t ltac:(lia)). lia.
Qed.

Lemma shrink_loop_bound mb t : 4 ≤ mb → ∀ fuel c,
  cut_ok mb c → (cut_size c ≤ fuel)%nat → utf8_len (shrink_loop fuel mb t c) ≤ mb.
Proof.
  intros Hmb. induction fuel as [|fuel IH]; intros c Hok Hf; simpl;
    (destruct (too_long mb (cut_text t c)) eqn:E; [|by apply not_too_long]);
    destruct (shrink_shrinks mb t c Hmb Hok E) as (c' & Hc & Hok' & Hlt); [lia|].
  rewrite Hc. apply IH; [done|lia].
Qed.

(** The fuel given is enough: more changes nothing. *)
Lemma shrink_loop_fuel mb t : 4 ≤ mb → ∀ f1 f2 c,
  cut_ok mb c → (cut_size c ≤ f1)%nat → (cut_size c ≤ f2)%nat →
  shrink_loop f1 mb t c = shrink_loop f2 mb t c.
Proof.
  intros Hmb. induction f1 as [|f1 IH]; intros [|f2] c Hok H1 H2; simpl; [done|..];
    (destruct (too_long mb (cut_text t c)) eqn:E; [|done]);
    destruct (shrink_shrinks mb t c Hmb Hok E) as (c' & Hc & Hok' & Hlt); [lia|lia|].
  rewrite Hc. apply IH; [done|lia|lia].
Qed.

Lemma first_cut_ok mb b : 4 ≤ mb → cut_ok mb (first_cut mb b).
Proof.
  intros H. unfold first_cut. destruct b; simpl; [lia|].
  destruct (mb <? 40) eqn:E; bool_simpl; simpl; lia.
Qed.

Lemma truncate_text_bound t n b : utf8_len (_truncate_text t n b) ≤ Z.max 4 (n * 4).
Proof.
  unfold _truncate_text. case_match; [simpl; lia|].
  destruct (utf8_len t <=? Z.max 4 (n * 4)) eqn:E; [by apply Z.leb_le in E|].
  apply shrink_loop_bound; [lia|apply first_cut_ok; lia|lia].
Qed.

Lemma truncate_text_tokens t n b : 1 ≤ n → text_tokens (_truncate_text t n b) ≤ n.
Proof.
  intros Hn. apply text_tokens_le; [done|]. pose proof (truncate_text_bound t n b). lia.
Qed.

Abbreviation ids_of := (map item_id).

Section host.
Context `{ContextHost}.

(** ** The refit loop of [_cap_item] *)

Lemma refit_ends item budget : ∀ fuel target,
  1 ≤ target → (Z.to_nat target ≤ fuel)%nat →
  ∃ target', 1 ≤ target' ≤ target ∧ refit fuel item budget target = capped_at item target'
    ∧ (token_estimate (capped_at item target') ≤ budget ∨ target' = 1).
Proof.
  induction fuel as [|fuel IH]; intros target Ht Hf; [lia|]. cbn [refit].
  destruct (_ && _) eqn:E.
  - bool_simpl.
    destruct (IH (Z.max 1 (target - (token_estimate (capped_at item target) - budget))))
      as (t' & Ht' & Heq & Hend); [lia|lia|].
    exists t'. split; [lia|]. by split.
  - exists target. split; [lia|]. split; [done|].
    apply andb_false_iff in E as [E|E]; bool_simpl; [by left|right; lia].
Qed.

Lemma refit_fuel item budget : ∀ f1 f2 target,
  1 ≤ target → (Z.to_nat target ≤ f1)%nat → (Z.to_nat target ≤ f2)%nat →
  refit f1 item budget target = refit f2 item budget target.
Proof.
  induction f1 as [|f1 IH]; intros [|f2] target Ht H1 H2; [lia|lia|lia|]. cbn [refit].
  destruct (_ && _) eqn:E; [|done]. bool_simpl. apply IH; lia.
Qed.

Lemma allowance_ge item : token_budget item ≤ item_allowance item.
Proof.
  unfold item_allowance. induction (_tool_result_images (content item)) as [|v l IH]; simpl; [lia|].
  pose proof (estimate_nonneg v). lia.
Qed.

(** ** Every item stays in exactly one place *)

(** What a cap or a prune leaves as it is. *)
Definition same_head (a b : ContextItem) : Prop :=
  item_id a = item_id b ∧ kind a = kind b ∧ pair_id a = pair_id b
  ∧ truncation_policy a = truncation_policy b ∧ visibility a = visibility b.

Lemma with_content_head item c : same_head (with_content item c) item.
Proof. by destruct item. Qed.

Lemma refit_head item budget fuel target : same_head (refit fuel item budget target) item.
Proof.
  revert target. induction fuel as [|fuel IH]; intros target; cbn [refit];
    destruct (_ && _); try apply with_content_head. apply IH.
Qed.

Lemma cap_item_head item r c r' : _cap_item item r = (Some c, r') → same_head c item.
Proof.
  unfold _cap_item. cbn zeta. intros E.
  destruct (_ || _); [by simplify_eq|].
  destruct (_ && _); [|done]. destruct (_ <=? _); [|done]. simplify_eq. apply refit_head.
Qed.

Lemma cap_fold_perm items s :
  let s' := foldl cap_step s items in
  ids_of (capped s') ++ ids_of (excluded s') ≡ₚ
    ids_of (capped s) ++ ids_of (excluded s) ++ ids_of items ∧ units s' = units s.
Proof.
  revert s. induction items as [|item items IH]; intros s; cbn [foldl].
  { simpl. split; [solve_Permutation|done]. }
  cbn zeta. destruct (IH (cap_step s item)) as [-> ->].
  unfold cap_step. destruct (_cap_item item (records s)) as [[c|] r] eqn:E; simpl.
  - apply cap_item_head in E as [Hid _]. rewrite map_app. simpl. rewrite Hid.
    split; [solve_Permutation|done].
  - rewrite map_app. simpl. split; [solve_Permutation|done].
Qed.

Lemma add_to_unit_perm us item :
  ids_of (mjoin (add_to_unit us item).*2) ≡ₚ ids_of (mjoin us.*2) ++ [item_id item].
Proof.
  induction us as [|[k u] us IH]; simpl; [done|].
  case_bool_decide; simpl; rewrite ?map_app; simpl; [solve_Permutation|].
  rewrite IH. solve_Permutation.
Qed.

Lemma group_fold_perm calls amb items s :
  let s' := foldl (group_step calls amb) s items in
  ids_of (mjoin (units s').*2) ++ ids_of (excluded s') ≡ₚ
    ids_of (mjoin (units s).*2) ++ ids_of (excluded s) ++ ids_of items.
Proof.
  revert s. induction items as [|item items IH]; intros s; cbn [foldl].
  { simpl. solve_Permutation. }
  cbn zeta. rewrite IH. unfold group_step.
  destruct (_ && _); simpl; [rewrite map_app; simpl; solve_Permutation|].
  rewrite add_to_unit_perm.
  assert (Hid : item_id match calls !! pair_id item with
              | Some u => if bool_decide (kind item = KIND_TOOL_RESULT)
                          then item <| unit_id := u |> else item
              | None => item end = item_id item) by (repeat case_match; done).
  rewrite Hid. solve_Permutation.
Qed.

Definition plan_ids (p : Plan) : list string :=
  ids_of (mjoin (mandatory p)) ++ ids_of (mjoin (protected p)) ++ ids_of (mjoin (aside p))
  ++ ids_of (mjoin (conversation p)) ++ ids_of (plan_excluded p).

Lemma mjoin_snoc {A} (us : list (list A)) u : mjoin (us ++ [u]) = mjoin us ++ u.
Proof. rewrite join_app. simpl. by rewrite app_nil_r. Qed.

Lemma classify_fold_perm ids n us p :
  plan_ids (foldl (classify_step ids n) p us) ≡ₚ plan_ids p ++ ids_of (mjoin us).
Proof.
  revert p. induction us as [|u us IH]; intros p; cbn [foldl].
  { simpl. solve_Permutation. }
  rewrite IH. unfold classify_step, plan_ids.
  repeat case_match; simpl; rewrite ?mjoin_snoc, !map_app; solve_Permutation.
Qed.

Lemma mjoin_perm {A} (l k : list (list A)) : l ≡ₚ k → mjoin l ≡ₚ mjoin k.
Proof. intros E. by rewrite E. Qed.

Lemma make_plan_perm items : plan_ids (make_plan items) ≡ₚ ids_of items.
Proof.
  unfold make_plan. cbn zeta.
  pose proof (cap_fold_perm items (mkStage ∅ [] [] [])) as [Hcap Hunits]. simpl in Hcap, Hunits.
  set (s := foldl cap_step _ items) in *.
  destruct (call_units (capped s)) as [calls amb].
  pose proof (group_fold_perm calls amb (capped s) s) as Hgroup. cbn zeta in Hgroup.
  set (s' := foldl (group_step calls amb) s (capped s)) in *.
  set (p := foldl (classify_step _ _) _ _).
  assert (Hp : plan_ids p ≡ₚ ids_of items).
  { unfold p. rewrite classify_fold_perm. unfold plan_ids; simpl.
    rewrite Permutation_app_comm, Hgroup, Hunits. simpl.
    rewrite Permutation_app_comm, Hcap. done. }
  rewrite <- Hp. unfold plan_ids. simpl. by rewrite !order_by_perm.
Qed.

(** What holds of the items and survives caps holds of the planned units. *)
Section plan_forall.
Context (P : ContextItem → Prop).
Hypothesis P_cap : ∀ i r c r', _cap_item i r = (Some c, r') → P i → P c.
Hypothesis P_unit : ∀ i u, P i → P (i <| unit_id := u |>).

Lemma cap_fold_forall items s :
  Forall P items → Forall P (capped s) → Forall P (capped (foldl cap_step s items)).
Proof using P_cap.
  intros Hi. revert s. induction Hi as [|i items Hi _ IH]; intros s Hs; [done|].
  cbn [foldl]. apply IH. unfold cap_step.
  destruct (_cap_item i (records s)) as [[c|] r] eqn:E; simpl; [|done].
  apply Forall_app. split; [done|]. constructor; [by eapply P_cap|constructor].
Qed.

Lemma add_to_unit_forall us i :
  P i → Forall (Forall P) us.*2 → Forall (Forall P) (add_to_unit us i).*2.
Proof using Type.
  intros Hi. induction us as [|[k u] us IH]; simpl; intros Hus; [by repeat constructor|].
  apply Forall_cons in Hus as [Hu Hus].
  case_bool_decide; simpl; constructor; auto. apply Forall_app. by repeat constructor.
Qed.

Lemma group_fold_forall calls amb items s :
  Forall P items → Forall (Forall P) (units s).*2 →
  Forall (Forall P) (units (foldl (group_step calls amb) s items)).*2.
Proof using P_unit.
  intros Hi. revert s. induction Hi as [|i items Hi _ IH]; intros s Hs; [done|].
  cbn [foldl]. apply IH. unfold group_step. destruct (_ && _); simpl; [done|].
  apply add_to_unit_forall; [|done]. repeat case_match; auto.
Qed.

Definition plan_all (Q : list ContextItem → Prop) (p : Plan) : Prop :=
  Forall Q (mandatory p) ∧ Forall Q (protected p) ∧ Forall Q (aside p)
  ∧ Forall Q (conversation p).

Lemma classify_fold_all Q ids n us p :
  Forall Q us → plan_all Q p → plan_all Q (foldl (classify_step ids n) p us).
Proof using Type.
  intros Hus. revert p. induction Hus as [|u us Hu _ IH]; intros p Hp; [done|].
  cbn [foldl]. apply IH. destruct Hp as (H1 & H2 & H3 & H4). unfold classify_step, plan_all.
  repeat case_match; simpl; repeat split; try done; (apply Forall_app; by repeat constructor).
Qed.

Lemma order_by_forall {A} leb (Q : A → Prop) l : Forall Q l → Forall Q (order_by leb l).
Proof using Type. by rewrite order_by_perm. Qed.

Lemma make_plan_all items : Forall P items → plan_all (Forall P) (make_plan items).
Proof using P_cap P_unit.
  intros Hi. unfold make_plan. cbn zeta.
  pose proof (cap_fold_forall items (mkStage ∅ [] [] []) Hi ltac:(constructor)) as Hcap.
  pose proof (cap_fold_perm items (mkStage ∅ [] [] [])) as [_ Hunits].
  set (s := foldl cap_step _ items) in *. simpl in Hunits.
  destruct (call_units (capped s)) as [calls amb].
  pose proof (group_fold_forall calls amb (capped s) s Hcap
    ltac:(rewrite Hunits; constructor)) as Hgroup.
  set (s' := foldl (group_step calls amb) s (capped s)) in *.
  set (p := foldl (classify_step _ _) _ _).
  assert (plan_all (Forall P) p) as (H1 & H2 & H3 & H4).
  { apply classify_fold_all; [done|]. repeat split; constructor. }
  repeat split; by apply order_by_forall.
Qed.
End plan_forall.

(** The history holds complete steps only. *)
Definition history_unit (u : list ContextItem) : Prop :=
  existsb _mandatory u = false ∧ _tool_pairs_balanced u = true
  ∧ forallb (is_kind CONVERSATION_KINDS) u = true.

Lemma classify_fold_history ids n us p :
  Forall history_unit (conversation p) →
  Forall history_unit (conversation (foldl (classify_step ids n) p us)).
Proof.
  revert p. induction us as [|u us IH]; intros p Hp; [done|]. cbn [foldl]. apply IH.
  unfold classify_step.
  destruct (existsb _mandatory u) eqn:E1; [done|]. destruct (_ && _); [done|].
  destruct (negb _) eqn:E2; [done|]. destruct (forallb _ u) eqn:E3; [|done].
  simpl. apply Forall_app. split; [done|]. repeat constructor; [done|by apply negb_false_iff|done].
Qed.

Lemma make_plan_history items : Forall history_unit (conversation (make_plan items)).
Proof.
  unfold make_plan. cbn zeta. destruct (call_units _) as [calls amb]. simpl.
  apply order_by_forall, classify_fold_history. constructor.
Qed.

(** ** The history: reference definitions *)

(** The least [k] below [n] with [fits k], or [n]. *)
Fixpoint first_fit (fits : nat → bool) (n : nat) : nat :=
  match n with
  | O => O
  | S n' => if fits O then O else S (first_fit (λ k, fits (S k)) n')
  end.

Definition prune_one (item : ContextItem) : ContextItem :=
  match pruned_item item with Ok (Some pruned) => pruned | _ => item end.
Definition pruned_upto (k : nat) (h : list ContextItem) : list ContextItem :=
  map prune_one (take k h) ++ drop k h.

(** Prune the fewest oldest outputs that make the history fit, else all. *)
Definition prunings (room : Z) (us : list (list ContextItem)) : nat :=
  first_fit (λ k, unit_tokens (pruned_upto k (mjoin us)) <=? room) (length (mjoin us)).
Definition pruned_history (room : Z) (us : list (list ContextItem)) : list (list ContextItem) :=
  reshape (length <$> us) (pruned_upto (prunings room us) (mjoin us)).

(** Cut the fewest oldest steps that make the pruned history fit, else all. *)
Definition cuts (room : Z) (us : list (list ContextItem)) : nat :=
  first_fit (λ k, units_tokens (drop k us) <=? room) (length us).
Definition kept_history (room : Z) (us : list (list ContextItem)) : list (list ContextItem) :=
  let us := pruned_history room us in drop (cuts room us) us.

Lemma first_fit_ext f g n : (∀ k, f k = g k) → first_fit f n = first_fit g n.
Proof.
  revert f g. induction n as [|n IH]; intros f g E; simpl; [done|]. rewrite E.
  destruct (g 0%nat); [done|]. f_equal. by apply IH.
Qed.

Lemma first_fit_le f n : (first_fit f n ≤ n)%nat.
Proof.
  revert f. induction n as [|n IH]; intros f; simpl; [done|].
  destruct (f 0%nat); [lia|]. specialize (IH (λ k, f (S k))). lia.
Qed.

Lemma first_fit_before f n k : (k < first_fit f n)%nat → f k = false.
Proof.
  revert f k. induction n as [|n IH]; intros f k; simpl; [lia|].
  destruct (f 0%nat) eqn:E; [lia|]. destruct k as [|k]; [done|]. intros Hk.
  apply (IH (λ k, f (S k))). lia.
Qed.

Lemma first_fit_at f n : first_fit f n = n ∨ f (first_fit f n) = true.
Proof.
  revert f. induction n as [|n IH]; intros f; simpl; [by left|].
  destruct (f 0%nat) eqn:E; [by right|].
  destruct (IH (λ k, f (S k))) as [->|Hf]; [by left|by right].
Qed.

(** ** The pruning loops *)

Lemma unit_tokens_app u v : unit_tokens (u ++ v) = unit_tokens u + unit_tokens v.
Proof. unfold unit_tokens. induction u; simpl in *; lia. Qed.

Lemma unit_tokens_cons i u : unit_tokens (i :: u) = _tokens i + unit_tokens u.
Proof. done. Qed.

Lemma units_tokens_join us : units_tokens us = unit_tokens (mjoin us).
Proof.
  induction us as [|u us IH]; simpl; [done|]. rewrite unit_tokens_app. unfold units_tokens in *.
  lia.
Qed.

Lemma prune_unit_app room u v tokens r c :
  prune_unit room tokens r c (u ++ v) =
    match prune_unit room tokens r c u with
    | Ok (u', tokens', r', c') =>
        match prune_unit room tokens' r' c' v with
        | Ok (v', tokens'', r'', c'') => Ok (u' ++ v', tokens'', r'', c'')
        | Err e => Err e
        end
    | Err e => Err e
    end.
Proof.
  revert tokens r c. induction u as [|i u IH]; intros tokens r c; simpl.
  { destruct (prune_unit room tokens r c v) as [[[[v' t'] r'] c']|e]; done. }
  destruct (tokens <=? room) eqn:E.
  { assert (Hv : prune_unit room tokens r c v = Ok (v, tokens, r, c)).
    { destruct v; simpl; [done|]. by rewrite E. }
    by rewrite Hv. }
  destruct (pruned_item i) as [o|e]; [|done].
  destruct (match o with Some _ => _ | None => _ end) as [[[i' t'] r'] c'].
  rewrite IH. destruct (prune_unit room t' r' c' u) as [[[[u' t1] r1] c1]|e]; [|done].
  by destruct (prune_unit room t1 r1 c1 v) as [[[[v' t2] r2] c2]|e].
Qed.

Lemma prune_unit_length room u tokens r c u' t' r' c' :
  prune_unit room tokens r c u = Ok (u', t', r', c') → length u' = length u.
Proof.
  revert tokens r c u' t' r' c'. induction u as [|i u IH]; intros tokens r c u' t' r' c'; simpl.
  { by intros [= <- _ _ _]. }
  destruct (tokens <=? room); [by intros [= <- _ _ _]|].
  destruct (pruned_item i) as [o|e]; [|done].
  destruct (match o with Some _ => _ | None => _ end) as [[[i' t1] r1] c1].
  destruct (prune_unit room t1 r1 c1 u) as [[[[u1 t2] r2] c2]|e] eqn:E; [|done].
  intros [= <- _ _ _]. simpl. f_equal. by eapply IH.
Qed.

Lemma sum_lengths {A} (us : list (list A)) : sum_list (length <$> us) = length (mjoin us).
Proof.
  induction us as [|u us IH]; simpl; [done|]. rewrite length_app. f_equal. exact IH.
Qed.

Lemma reshape_join {A} (us : list (list A)) : reshape (length <$> us) (mjoin us) = us.
Proof.
  induction us as [|u us IH]; simpl; [done|].
  rewrite take_app_length, drop_app_length. f_equal. exact IH.
Qed.

Lemma prune_history_join room us tokens r c :
  prune_history room tokens r c us =
    match prune_unit room tokens r c (mjoin us) with
    | Ok (h, t', r', c') => Ok (reshape (length <$> us) h, t', r', c')
    | Err e => Err e
    end.
Proof.
  revert tokens r c. induction us as [|u us IH]; intros tokens r c; [done|]. simpl.
  destruct (tokens <=? room) eqn:E.
  { assert (Hall : ∀ v, prune_unit room tokens r c v = Ok (v, tokens, r, c)).
    { intros [|i v]; simpl; [done|]. by rewrite E. }
    rewrite (Hall (u ++ mjoin us)). do 4 f_equal. symmetry. exact (reshape_join (u :: us)). }
  rewrite prune_unit_app.
  destruct (prune_unit room tokens r c u) as [[[[u' t'] r'] c']|e] eqn:Eu; [|done].
  rewrite IH. destruct (prune_unit room t' r' c' (mjoin us)) as [[[[h t1] r1] c1]|e]; [|done].
  apply prune_unit_length in Eu. simpl.
  by rewrite <- Eu, take_app_length, drop_app_length.
Qed.

Lemma pruned_upto_O h : pruned_upto 0 h = h.
Proof. done. Qed.

Lemma pruned_upto_S k i h : pruned_upto (S k) (i :: h) = prune_one i :: pruned_upto k h.
Proof. done. Qed.

Lemma prune_unit_spec room h tokens r c h' t' r' c' :
  prune_unit room tokens r c h = Ok (h', t', r', c') →
  h' = pruned_upto (first_fit
         (λ k, tokens - unit_tokens h + unit_tokens (pruned_upto k h) <=? room) (length h)) h
  ∧ t' = tokens - unit_tokens h + unit_tokens h'.
Proof.
  revert tokens r c h' t' r' c'. induction h as [|i h IH]; intros tokens r c h' t' r' c'.
  { simpl. intros [= <- <- _ _]. split; [done|simpl; lia]. }
  cbn [prune_unit length first_fit]. rewrite pruned_upto_O.
  replace (tokens - unit_tokens (i :: h) + unit_tokens (i :: h)) with tokens by lia.
  destruct (tokens <=? room); [intros [= <- <- _ _]; split; [done|lia]|].
  destruct (pruned_item i) as [o|e] eqn:Ei; [|done].
  destruct (match o with Some _ => _ | None => _ end) as [[[i' t1] r1] c1] eqn:Eo.
  destruct (prune_unit room t1 r1 c1 h) as [[[[h1 t2] r2] c2]|e] eqn:Eh; [|done].
  intros [= <- <- _ _]. apply IH in Eh as [-> Ht2].
  assert (i' = prune_one i ∧ t1 = tokens - (_tokens i - _tokens (prune_one i))) as [-> ->].
  { unfold prune_one. rewrite Ei. destruct o; simplify_eq; split; try done; lia. }
  split.
  - rewrite pruned_upto_S. f_equal. f_equal. apply first_fit_ext. intros k.
    f_equal. rewrite pruned_upto_S, !unit_tokens_cons. lia.
  - rewrite !unit_tokens_cons. lia.
Qed.

Lemma prune_history_spec room us r us' t' r' c' :
  prune_history room (units_tokens us) r 0 us = Ok (us', t', r', c') →
  us' = pruned_history room us ∧ t' = units_tokens us'.
Proof.
  rewrite prune_history_join, units_tokens_join.
  destruct (prune_unit room _ r 0 (mjoin us)) as [[[[h t1] r1] c1]|e] eqn:E; [|done].
  intros [= <- <- _ _]. pose proof (prune_unit_length _ _ _ _ _ _ _ _ _ E) as Hlen.
  apply prune_unit_spec in E as [-> ->].
  assert (Heq : pruned_upto (first_fit (λ k, unit_tokens (mjoin us) - unit_tokens (mjoin us)
       + unit_tokens (pruned_upto k (mjoin us)) <=? room) (length (mjoin us))) (mjoin us)
     = pruned_upto (prunings room us) (mjoin us)).
  { f_equal. unfold prunings. apply first_fit_ext. intros k. f_equal. lia. }
  rewrite Heq in *. split; [done|]. rewrite units_tokens_join, join_reshape.
  - lia.
  - rewrite Hlen. apply sum_lengths.
Qed.

Lemma cut_history_spec room s c us :
  ∃ s', cut_history room (units_tokens us) s c us
        = (drop (cuts room us) us, s', (c + cuts room us)%nat)
  ∧ sel_included s' = sel_included s ∧ used s' = used s
  ∧ sel_excluded s' = sel_excluded s ++ mjoin (take (cuts room us) us).
Proof.
  revert s c. induction us as [|u us IH]; intros s c; cbn [cut_history].
  { exists s. simpl. by rewrite app_nil_r, Nat.add_0_r. }
  unfold cuts. cbn [first_fit length drop].
  rewrite Z.ltb_antisym. destruct (units_tokens (u :: us) <=? room); simpl.
  { exists s. rewrite app_nil_r, Nat.add_0_r. done. }
  replace (unit_tokens u + units_tokens us - unit_tokens u) with (units_tokens us) by lia.
  destruct (IH (exclude_all "budget_cut" s u) (S c)) as (s' & Hs & Hi & Hu & He).
  exists s'. unfold units_tokens in Hs at 1 |- *. rewrite Hs. unfold cuts in *.
  split; [by rewrite Nat.add_succ_r|]. split; [done|]. split; [done|]. rewrite He. simpl.
  by rewrite <- (assoc_L (++)).
Qed.

(** ** The rest of the selection *)

Lemma include_fold us s :
  let s' := foldl include_unit s us in
  sel_included s' = sel_included s ++ mjoin us ∧ sel_excluded s' = sel_excluded s
  ∧ sel_records s' = sel_records s ∧ used s' = used s + unit_tokens (mjoin us).
Proof.
  cbn zeta. revert s. induction us as [|u us IH]; intros s; cbn [foldl].
  { simpl. rewrite app_nil_r. repeat split; lia. }
  destruct (IH (include_unit s u)) as (-> & -> & -> & ->). simpl.
  rewrite unit_tokens_app, <- (assoc_L (++)). repeat split; lia.
Qed.

(** An item of the selection stands for an item of [us]: itself, or cut to fit. *)
Definition stands_for (us : list (list ContextItem)) (i : ContextItem) : Prop :=
  ∃ u, u ∈ us ∧ (i ∈ u ∨ ∃ j n, u = [j] ∧ i = capped_at j n ∧ truncatable j = true).

Lemma shrink_aside_Some u room i :
  shrink_aside u room = Some i →
  0 < room ∧ _tokens i ≤ room ∧ ∃ j n, u = [j] ∧ i = capped_at j n ∧ truncatable j = true.
Proof.
  unfold shrink_aside. destruct u as [|j [|]]; [done| |done].
  cbn zeta. intros Hi.
  destruct ((0 <? room) && _) eqn:E in Hi; [|done].
  destruct ((_ <? _) && _) eqn:E2 in Hi; [|done]. injection Hi as <-.
  apply andb_true_iff in E as [H1%Z.ltb_lt H2]. apply andb_true_iff in E2 as [_ H3%Z.leb_le].
  split; [done|]. split; [done|]. by exists j, room.
Qed.

(** What the aside units add to a selection. *)
Record aside_result (total : Z) (us : list (list ContextItem)) (s s' : Selection)
    (added : list ContextItem) : Prop := {
  ar_included : sel_included s' = sel_included s ++ added;
  ar_used : used s' = used s + unit_tokens added;
  ar_ids : ids_of added ++ ids_of (sel_excluded s')
           ≡ₚ ids_of (sel_excluded s) ++ ids_of (mjoin us);
  ar_from : Forall (stands_for us) added;
  ar_fits : used s ≤ total → used s' ≤ total;
  ar_over : total < used s → Forall (Forall (λ i, 0 ≤ _tokens i)) us → unit_tokens added = 0
}.

Lemma unit_tokens_nonneg u : Forall (λ i, 0 ≤ _tokens i) u → 0 ≤ unit_tokens u.
Proof. induction 1 as [|i u Hi _ IH]; [done|]. rewrite unit_tokens_cons. lia. Qed.

Lemma aside_step_result total s u :
  ∃ added, aside_result total [u] s (aside_step total s u) added.
Proof.
  unfold aside_step. cbn zeta.
  destruct (unit_tokens u <=? _) eqn:E; [|destruct (shrink_aside u _) as [i|] eqn:Ei].
  - exists u. apply Z.leb_le in E. split; simpl; rewrite ?app_nil_r; try done; try lia.
    + solve_Permutation.
    + apply Forall_forall. intros i Hi. exists u. split; [left|by left].
    + intros Ho Hn. apply Forall_cons in Hn as [Hn _]. pose proof (unit_tokens_nonneg u Hn). lia.
  - apply shrink_aside_Some in Ei as (Hr & Hfit & j & n & -> & -> & Ht).
    exists [capped_at j n]. split; simpl; try done; try lia.
    + solve_Permutation.
    + constructor; [|constructor]. exists [j]. split; [left|]. right. by exists j, n.
  - exists []. split; simpl; rewrite ?app_nil_r; try done; try lia.
    by rewrite map_app.
Qed.

Lemma stands_for_mono us vs i : us ⊆ vs → stands_for us i → stands_for vs i.
Proof. intros Hs (u & Hu & Hi). exists u. split; [by apply Hs|done]. Qed.

Lemma aside_fold_result total us s :
  ∃ added, aside_result total us s (foldl (aside_step total) s us) added.
Proof.
  revert s. induction us as [|u us IH]; intros s; cbn [foldl].
  { exists []. split; simpl; rewrite ?app_nil_r; try done; try lia. }
  destruct (aside_step_result total s u) as [a1 R1].
  destruct (IH (aside_step total s u)) as [a2 R2].
  set (s1 := aside_step total s u) in *. set (s2 := foldl (aside_step total) s1 us) in *.
  exists (a1 ++ a2). split.
  - by rewrite (ar_included _ _ _ _ _ R2), (ar_included _ _ _ _ _ R1), (assoc_L (++)).
  - rewrite (ar_used _ _ _ _ _ R2), (ar_used _ _ _ _ _ R1), unit_tokens_app. lia.
  - rewrite map_app, <- (assoc_L (++)), (ar_ids _ _ _ _ _ R2), (assoc_L (++)), (ar_ids _ _ _ _ _ R1).
    simpl. rewrite app_nil_r, map_app. solve_Permutation.
  - apply Forall_app. split.
    + eapply Forall_impl; [apply (ar_from _ _ _ _ _ R1)|]. intros i. apply stands_for_mono.
      set_solver.
    + eapply Forall_impl; [apply (ar_from _ _ _ _ _ R2)|]. intros i. apply stands_for_mono.
      set_solver.
  - intros Hs. apply (ar_fits _ _ _ _ _ R2), (ar_fits _ _ _ _ _ R1), Hs.
  - intros Ho Hn. apply Forall_cons in Hn as [Hu Hn].
    pose proof (ar_over _ _ _ _ _ R1 Ho ltac:(by repeat constructor)) as E1.
    pose proof (ar_used _ _ _ _ _ R1) as U1.
    rewrite unit_tokens_app, (ar_over _ _ _ _ _ R2 ltac:(lia) Hn). lia.
Qed.

(** ** Pruning keeps the shape of the history *)

Lemma prune_one_head i : same_head (prune_one i) i.
Proof.
  unfold prune_one, pruned_item. destruct (_ || _); [done|].
  destruct (_prune_tool_output _ _); [|done]. destruct (_ <=? _); [done|apply with_content_head].
Qed.

Lemma pruned_upto_head k h : Forall2 same_head (pruned_upto k h) h.
Proof.
  revert k. induction h as [|i h IH]; intros [|k].
  - constructor.
  - constructor.
  - rewrite pruned_upto_O. constructor; [done|]. apply (IH 0%nat).
  - rewrite pruned_upto_S. constructor; [apply prune_one_head|apply IH].
Qed.

Lemma Forall2_reshape {A B} (R : A → B → Prop) us h :
  Forall2 R h (mjoin us) → Forall2 (Forall2 R) (reshape (length <$> us) h) us.
Proof.
  revert h. induction us as [|u us IH]; intros h Hh; simpl; [constructor|].
  apply Forall2_app_inv_r in Hh as (h1 & h2 & H1 & H2 & ->).
  pose proof (Forall2_length _ _ _ H1) as <-.
  rewrite take_app_length, drop_app_length. constructor; [done|]. by apply IH.
Qed.

Lemma pruned_history_head room us : Forall2 (Forall2 same_head) (pruned_history room us) us.
Proof. apply Forall2_reshape, pruned_upto_head. Qed.

Lemma same_head_ids u v : Forall2 same_head u v → ids_of u = ids_of v.
Proof. induction 1 as [|i j u v [Hid _] _ IH]; simpl; congruence. Qed.

Lemma mjoin_ids us vs : Forall2 (Forall2 same_head) us vs → ids_of (mjoin us) = ids_of (mjoin vs).
Proof.
  induction 1 as [|u v us vs Hu _ IH]; simpl; [done|].
  rewrite !map_app, (same_head_ids u v Hu). f_equal. exact IH.
Qed.

Lemma filter_head (p : ContextItem → bool) u v :
  (∀ a b, same_head a b → p a = p b) → Forall2 same_head u v →
  Forall2 same_head (List.filter p u) (List.filter p v).
Proof.
  intros Hp. induction 1 as [|a b u v Hab _ IH]; simpl; [constructor|].
  rewrite (Hp a b Hab). destruct (p b); [by constructor|done].
Qed.

Lemma forallb_head (p q : ContextItem → bool) u v :
  (∀ a b, same_head a b → p a = q b) → Forall2 same_head u v → forallb p u = forallb q v.
Proof.
  intros Hp. induction 1 as [|a b u v Hab _ IH]; simpl; [done|]. by rewrite (Hp a b Hab), IH.
Qed.

Lemma of_kind_head k u v :
  Forall2 same_head u v → length (of_kind k u) = length (of_kind k v).
Proof.
  intros Huv. eapply Forall2_length, filter_head; [|exact Huv]. by intros ?? (_ & -> & _).
Qed.

Lemma balanced_head u v :
  Forall2 same_head u v → _tool_pairs_balanced u = _tool_pairs_balanced v.
Proof.
  intros Huv. unfold _tool_pairs_balanced. cbn zeta.
  assert (Ht : Forall2 same_head (List.filter (is_kind TOOL_KINDS) u)
                 (List.filter (is_kind TOOL_KINDS) v)).
  { apply filter_head; [|done]. unfold is_kind. by intros a b (_ & -> & _). }
  f_equal; apply forallb_head; try done; [by intros a b (_ & _ & -> & _)|].
  intros a b (_ & _ & Hab & _). rewrite Hab.
  assert (Hp : Forall2 same_head
    (List.filter (λ j, bool_decide (pair_id j = pair_id b)) (List.filter (is_kind TOOL_KINDS) u))
    (List.filter (λ j, bool_decide (pair_id j = pair_id b)) (List.filter (is_kind TOOL_KINDS) v))).
  { apply filter_head; [|done]. by intros ?? (_ & _ & -> & _). }
  by rewrite !(of_kind_head _ _ _ Hp).
Qed.

Lemma kept_history_balanced room us :
  Forall history_unit us →
  Forall (λ u, _tool_pairs_balanced u = true) (kept_history room us).
Proof.
  intros Hus. unfold kept_history. apply Forall_drop.
  pose proof (pruned_history_head room us) as Hh.
  induction Hh as [|u v us' vs Huv _ IH]; [constructor|].
  apply Forall_cons in Hus as [(_ & Hb & _) Hus].
  constructor; [by rewrite (balanced_head u v Huv)|by apply IH].
Qed.

(** ** The order of arrival *)

Lemma arrival_nonneg ids x : 0 ≤ arrival ids x.
Proof. induction ids as [|y ids IH]; simpl; [lia|]. case_bool_decide; lia. Qed.

Lemma arrival_inj ids x y : x ∈ ids → y ∈ ids → arrival ids x = arrival ids y → x = y.
Proof.
  induction ids as [|z ids IH]; intros Hx Hy; [by apply not_elem_of_nil in Hx|]. simpl.
  pose proof (arrival_nonneg ids x). pose proof (arrival_nonneg ids y).
  apply elem_of_cons in Hx as [->|Hx], Hy as [->|Hy]; repeat case_bool_decide; subst; try done;
    try lia. intros E. apply IH; [done|done|lia].
Qed.

Lemma arrival_sorted ids : NoDup ids → StronglySorted (λ x y, arrival ids x ≤ arrival ids y) ids.
Proof.
  induction 1 as [|x ids Hx Hnd IH]; [constructor|]. constructor.
  - clear Hnd. assert (Hsub : ∀ l, l ⊆ ids →
      StronglySorted (λ y z, arrival ids y ≤ arrival ids z) l →
      StronglySorted (λ y z, arrival (x :: ids) y ≤ arrival (x :: ids) z) l).
    { intros l Hsub. induction 1 as [|y l Hl IHl Hy]; [constructor|]. constructor.
      - apply IHl. set_solver.
      - rewrite Forall_forall in Hy |- *. intros z Hz. specialize (Hy z Hz). simpl.
        assert (y ∈ ids ∧ z ∈ ids) as [Hyi Hzi] by set_solver.
        rewrite !bool_decide_false by congruence. lia. }
    by apply Hsub.
  - apply Forall_forall. intros y Hy. simpl. rewrite bool_decide_true by done.
    case_bool_decide; [lia|]. pose proof (arrival_nonneg ids y). lia.
Qed.

Lemma StronglySorted_filter {A} (R : A → A → Prop) (P : A → Prop) `{∀ x, Decision (P x)} l :
  StronglySorted R l → StronglySorted R (filter P l).
Proof.
  induction 1 as [|x l Hl IH Hx]; [constructor|]. rewrite filter_cons.
  case_decide; [|done]. constructor; [done|]. rewrite Forall_forall in Hx |- *.
  intros y [_ Hy]%list_elem_of_filter. by apply Hx.
Qed.

Lemma StronglySorted_impl {A} (R S : A → A → Prop) l :
  (∀ x y, R x y → S x y) → StronglySorted R l → StronglySorted S l.
Proof.
  intros HRS. induction 1 as [|x l Hl IH Hx]; constructor; [done|].
  eapply Forall_impl; [exact Hx|]. apply HRS.
Qed.

Lemma StronglySorted_map {A B} (f : A → B) (R : B → B → Prop) l :
  StronglySorted (λ x y, R (f x) (f y)) l → StronglySorted R (map f l).
Proof.
  induction 1 as [|x l Hl IH Hx]; simpl; constructor; [done|].
  by apply Forall_map.
Qed.

(** Sorting by arrival yields the ids in the order they arrived in. *)
Lemma arrival_order ids l :
  NoDup ids → NoDup (ids_of l) → ids_of l ⊆ ids →
  ids_of (order_by (arrival_leb ids) l) = filter (λ x, x ∈ ids_of l) ids.
Proof.
  intros Hids Hl Hsub.
  assert (Hperm : ids_of (order_by (arrival_leb ids) l) ≡ₚ ids_of l) by by rewrite order_by_perm.
  eapply (StronglySorted_unique_strong (λ x y, arrival ids x ≤ arrival ids y)).
  - intros x y Hx Hy H1 H2. rewrite Hperm in Hx. apply list_elem_of_filter in Hy as [_ Hy].
    apply (arrival_inj ids); [by apply Hsub|done|lia].
  - apply StronglySorted_map.
    eapply StronglySorted_impl; [|apply order_by_sorted].
    + intros a b Hab. by apply Z.leb_le.
    + intros a b. unfold arrival_leb. rewrite !Z.leb_le. lia.
    + intros a b c. unfold arrival_leb. rewrite !Z.leb_le. lia.
  - by apply StronglySorted_filter, arrival_sorted.
  - rewrite Hperm. apply NoDup_Permutation; [done|by apply NoDup_filter|].
    intros x. rewrite list_elem_of_filter. split; [|naive_solver]. intros Hx. split; [done|].
    by apply Hsub.
Qed.

Lemma by_id_app acc l : NoDup (ids_of (acc ++ l)) → by_id acc l = acc ++ l.
Proof.
  revert acc. induction l as [|i l IH]; intros acc Hnd; simpl; [by rewrite app_nil_r|].
  rewrite bool_decide_false.
  - rewrite IH; rewrite <- (assoc_L (++)); done.
  - rewrite map_app in Hnd. apply NoDup_app in Hnd as (_ & Hd & _). intros Hi.
    apply (Hd _ Hi). simpl. left.
Qed.
End host.
End ContextIRProps.
