(* ===== verification/ContextIRPlan.v ===== *)
(** * The budget assembler: what must be sent

    A description of the mandatory and protected units of [make_plan] that does
    not mention its loops: which items survive the caps and the grouping, and
    which of them belong to a unit that is sent whatever the budget. *)

From S2P Require Import Prelude Db PyString ContextIR ContextIRProps.

#[local] Open Scope Z_scope.

Module ContextIRPlan.
Import ContextIR ContextIRProps.

Section host.
Context `{ContextHost}.

(** ** The description *)

(** An item that only the manifest shows, or that may not be cut and is no part
    of a model step. *)
Definition fixed_item (i : ContextItem) : Prop :=
  visibility i = VISIBILITY_MANIFEST_ONLY
  ∨ kind i ∉ STEP_KINDS ∧ truncation_policy i = POLICY_NEVER.

(** A tool result moves to the unit of the call it answers. *)
Definition relinked (calls : gmap string string) (c : ContextItem) : ContextItem :=
  match calls !! pair_id c with
  | Some u => if bool_decide (kind c = KIND_TOOL_RESULT) then c <| unit_id := u |> else c
  | None => c
  end.

Definition is_ambiguous (ambiguous : gset string) (c : ContextItem) : bool :=
  is_kind TOOL_KINDS c && bool_decide (pair_id c ∈ ambiguous).

(** What the caps leave of the items, without the calls and results whose pair
    is claimed by two units. *)
Definition survivors (items : list ContextItem) : list ContextItem :=
  let cs := omap (λ i, (_cap_item i ∅).1) items in
  let '(calls, ambiguous) := call_units cs in
  map (relinked calls) (List.filter (λ c, negb (is_ambiguous ambiguous c)) cs).

(** The unit of [i] holds a fixed item, or it is a step and all of it arrived
    after the request that opened the turn in progress. *)
Definition needed (items : list ContextItem) (i : ContextItem) : Prop :=
  let mate j := j ∈ survivors items ∧ unit_id j = unit_id i in
  (∃ j, mate j ∧ fixed_item j)
  ∨ (∃ j, mate j ∧ kind j ∈ STEP_KINDS) ∧ 0 ≤ request_index items
    ∧ ∀ j, mate j → request_index items < arrival (map item_id items) (item_id j).

(** ** The caps *)

Lemma mandatory_fixed i : _mandatory i = true ↔ fixed_item i.
Proof.
  unfold _mandatory, fixed_item, is_manifest_only, is_kind, is_never.
  repeat case_bool_decide; naive_solver.
Qed.

Lemma cap_item_records i r : (_cap_item i r).1 = (_cap_item i ∅).1.
Proof. unfold _cap_item. cbn zeta. by repeat case_match. Qed.

Lemma cap_fixed i : fixed_item i → (_cap_item i ∅).1 = Some i.
Proof.
  intros Hf. assert (is_manifest_only i || is_never i = true) as Hb.
  { unfold is_manifest_only, is_never. destruct Hf as [->|[_ ->]]; [done|apply orb_true_r]. }
  unfold _cap_item. by rewrite Hb.
Qed.

Lemma cap_fold_capped items s :
  capped (foldl cap_step s items) = capped s ++ omap (λ i, (_cap_item i ∅).1) items.
Proof.
  revert s. induction items as [|i items IH]; intros s; cbn [foldl]; [by rewrite app_nil_r|].
  rewrite IH. unfold cap_step. cbn [omap list_omap]. rewrite <- (cap_item_records i (records s)).
  destruct (_cap_item i (records s)) as [[c|] r]; simpl; [by rewrite <- app_assoc|done].
Qed.

(** ** The grouping *)

(** The units partition the list by [unit_id], in its order. *)
Definition grouped (l : list ContextItem) (us : list (string * list ContextItem)) : Prop :=
  NoDup us.*1
  ∧ (∀ k u, (k, u) ∈ us → u ≠ [] ∧ u = List.filter (λ i, bool_decide (unit_id i = k)) l)
  ∧ ∀ i, i ∈ l → unit_id i ∈ us.*1.

Lemma add_to_unit_keys us i k : k ∈ (add_to_unit us i).*1 ↔ k ∈ us.*1 ∨ k = unit_id i.
Proof.
  induction us as [|[k' u] us IH]; simpl; [set_solver|].
  case_bool_decide as Hk; simpl; rewrite !elem_of_cons; [naive_solver|]. rewrite IH. naive_solver.
Qed.

Lemma add_to_unit_nodup us i : NoDup us.*1 → NoDup (add_to_unit us i).*1.
Proof.
  induction us as [|[k' u] us IH]; simpl; intros Hn; [repeat constructor; set_solver|].
  apply NoDup_cons in Hn as [Hn Hus]. case_bool_decide as Hk; simpl; constructor; auto.
  rewrite add_to_unit_keys. naive_solver.
Qed.

Lemma add_to_unit_elem us i k u :
  NoDup us.*1 → (k, u) ∈ add_to_unit us i →
  k ≠ unit_id i ∧ (k, u) ∈ us
  ∨ k = unit_id i ∧ ∃ u0, u = u0 ++ [i] ∧ ((k, u0) ∈ us ∨ u0 = [] ∧ k ∉ us.*1).
Proof.
  induction us as [|[k' u'] us IH]; simpl; intros Hn.
  { rewrite list_elem_of_singleton. intros [= -> ->]. right. split; [done|]. exists [].
    split; [done|]. right. split; [done|]. apply not_elem_of_nil. }
  apply NoDup_cons in Hn as [Hn Hus]. case_bool_decide as Hk; rewrite elem_of_cons.
  - intros [[= -> ->]|Hin].
    + right. split; [done|]. exists u'. split; [done|]. left. left.
    + left. split; [|by right]. intros ->. apply Hn. rewrite Hk.
      by apply (list_elem_of_fmap_2 fst us (unit_id i, u)).
  - intros [[= -> ->]|Hin]; [left; split; [done|left]|].
    destruct (IH Hus Hin) as [[H1 H2]|(H1 & u0 & H2 & H3)]; [left; split; [done|by right]|].
    right. split; [done|]. exists u0. split; [done|]. destruct H3 as [H3|[H3 H4]]; [left; by right|].
    right. split; [done|]. rewrite elem_of_cons. naive_solver.
Qed.

Lemma filter_snoc {A} (p : A → bool) l x :
  List.filter p (l ++ [x]) = List.filter p l ++ if p x then [x] else [].
Proof. rewrite List.filter_app. simpl. by destruct (p x). Qed.

Lemma add_to_unit_grouped l us i : grouped l us → grouped (l ++ [i]) (add_to_unit us i).
Proof.
  intros (Hnd & Hu & Hk). split; [by apply add_to_unit_nodup|]. split.
  - intros k u Hin. rewrite filter_snoc.
    destruct (add_to_unit_elem us i k u Hnd Hin) as [[Hne Hin']|(-> & u0 & -> & H0)].
    + rewrite (bool_decide_false (unit_id i = k)) by congruence. rewrite app_nil_r. by apply Hu.
    + rewrite bool_decide_true by done. split; [by destruct u0|].
      f_equal. destruct H0 as [H0|[-> H0]]; [by apply Hu|]. symmetry. apply filter_all_false.
      intros x Hx. apply bool_decide_eq_false_2. intros E. apply H0. rewrite <- E. by apply Hk.
  - intros j. rewrite elem_of_app, list_elem_of_singleton, add_to_unit_keys.
    intros [Hj| ->]; [left; by apply Hk|by right].
Qed.

Lemma group_fold_grouped calls amb cs l s :
  grouped l (units s) →
  grouped (l ++ map (relinked calls) (List.filter (λ c, negb (is_ambiguous amb c)) cs))
    (units (foldl (group_step calls amb) s cs)).
Proof.
  revert l s. induction cs as [|c cs IH]; intros l s Hg; cbn [foldl]; [by rewrite app_nil_r|].
  simpl. unfold group_step at 2. fold (is_ambiguous amb c). destruct (is_ambiguous amb c); simpl.
  - by apply IH.
  - rewrite cons_middle, app_assoc. apply IH. simpl. by apply add_to_unit_grouped.
Qed.

(** ** The classes *)

Definition is_live (ids : list string) (request : Z) (u : list ContextItem) : bool :=
  existsb (is_kind STEP_KINDS) u && (0 <=? request) && (request <? unit_start ids u).

Lemma classify_fold_must ids n us p :
  let p' := foldl (classify_step ids n) p us in
  mandatory p' = mandatory p ++ List.filter (existsb _mandatory) us
  ∧ protected p' = protected p
      ++ List.filter (λ u, negb (existsb _mandatory u) && is_live ids n u) us.
Proof.
  revert p. induction us as [|u us IH]; intros p; cbn [foldl]; [by rewrite !app_nil_r|].
  cbn zeta. destruct (IH (classify_step ids n p u)) as [-> ->]. unfold classify_step. simpl.
  fold (is_live ids n u). destruct (existsb _mandatory u); simpl; [by rewrite <- app_assoc|].
  destruct (is_live ids n u); simpl; [by rewrite <- app_assoc|].
  destruct (negb _); [done|]. by destruct (forallb _ u).
Qed.

Lemma foldl_min_lt n l : ∀ x, n < foldl Z.min x l ↔ n < x ∧ ∀ y, y ∈ l → n < y.
Proof.
  induction l as [|y l IH]; intros x; cbn [foldl].
  { split; [|tauto]. intros Hx. split; [done|]. by intros y ?%not_elem_of_nil. }
  rewrite IH. split.
  - intros [Hm Hl]. split; [lia|]. intros z [->|Hz]%elem_of_cons; [lia|auto].
  - intros [Hx Hl]. pose proof (Hl y ltac:(left)). split; [lia|]. intros z Hz. apply Hl. by right.
Qed.

Lemma unit_start_lt ids n u :
  u ≠ [] → n < unit_start ids u ↔ ∀ j, j ∈ u → n < arrival ids (item_id j).
Proof.
  destruct u as [|i u]; [done|]. intros _. unfold unit_start. simpl. rewrite foldl_min_lt. split.
  - intros [Hi Hu] j [->|Hj]%elem_of_cons; [done|]. apply Hu.
    by apply (list_elem_of_fmap_2 (λ i, arrival ids (item_id i))).
  - intros Hu. split; [apply Hu; left|]. intros y Hy. apply (list_elem_of_fmap _ u) in Hy as (j & -> & Hj).
    apply Hu. by right.
Qed.

Lemma existsb_witness {A} (p : A → bool) (l : list A) : existsb p l = true ↔ ∃ x, x ∈ l ∧ p x = true.
Proof. rewrite existsb_exists. by setoid_rewrite list_elem_of_In. Qed.

Lemma elem_of_join_filter (p : list ContextItem → bool) us i :
  i ∈ mjoin (List.filter p us) ↔ ∃ u, u ∈ us ∧ p u = true ∧ i ∈ u.
Proof.
  rewrite list_elem_of_join. setoid_rewrite list_elem_of_In.
  setoid_rewrite filter_In. setoid_rewrite <- list_elem_of_In. naive_solver.
Qed.

(** The mandatory and protected units of the plan are those of the description. *)
Lemma plan_must_spec items i :
  i ∈ mjoin (mandatory (make_plan items)) ++ mjoin (protected (make_plan items)) ↔
  i ∈ survivors items ∧ needed items i.
Proof.
  unfold make_plan, survivors, needed. cbn zeta.
  pose proof (cap_fold_capped items (mkStage ∅ [] [] [])) as Hcap. simpl in Hcap.
  pose proof (cap_fold_perm items (mkStage ∅ [] [] [])) as [_ Hunits]. simpl in Hunits.
  unfold survivors. rewrite <- Hcap. set (s := foldl cap_step _ items) in *.
  destruct (call_units (capped s)) as [calls amb].
  set (l := map (relinked calls) _).
  assert (grouped l (units (foldl (group_step calls amb) s (capped s)))) as (_ & Hu & Hk).
  { apply (group_fold_grouped calls amb (capped s) [] s). rewrite Hunits.
    split; [constructor|]. split; [|by intros ? ?%not_elem_of_nil].
    by intros k u ?%not_elem_of_nil. }
  set (us := units (foldl _ s (capped s))) in *. clearbody us.
  set (ids := map item_id items). set (n := request_index items).
  set (p0 := mkPlan _ _ _ _ _ _).
  destruct (classify_fold_must ids n us.*2 p0) as [Em Ep]. simpl.
  rewrite (mjoin_perm _ _ (order_by_perm (start_leb ids) _)), Em.
  rewrite (mjoin_perm _ _ (order_by_perm (start_leb ids) (protected _))), Ep. simpl.
  rewrite elem_of_app, !elem_of_join_filter.
  assert (Hmate : ∀ u, u ∈ us.*2 → i ∈ u →
    u ≠ [] ∧ ∀ j, j ∈ u ↔ j ∈ l ∧ unit_id j = unit_id i).
  { intros u ([k u'] & -> & Hin)%list_elem_of_fmap Hi. simpl in *. destruct (Hu k u' Hin) as [Hne ->].
    split; [done|]. intros j. rewrite !list_elem_of_In, !filter_In, !bool_decide_eq_true in *.
    rewrite <- !list_elem_of_In in *. naive_solver. }
  assert (Hmand : ∀ u, u ∈ us.*2 → i ∈ u → (existsb _mandatory u = true ↔
    ∃ j, (j ∈ l ∧ unit_id j = unit_id i) ∧ fixed_item j)).
  { intros u Hin Hi. destruct (Hmate u Hin Hi) as [_ Hj]. rewrite existsb_witness.
    setoid_rewrite mandatory_fixed. by setoid_rewrite Hj. }
  assert (Hlive : ∀ u, u ∈ us.*2 → i ∈ u → (is_live ids n u = true ↔
    (∃ j, (j ∈ l ∧ unit_id j = unit_id i) ∧ kind j ∈ STEP_KINDS) ∧ 0 ≤ n
    ∧ ∀ j, j ∈ l ∧ unit_id j = unit_id i → n < arrival ids (item_id j))).
  { intros u Hin Hi. destruct (Hmate u Hin Hi) as [Hne Hj]. unfold is_live.
    rewrite !andb_true_iff, existsb_witness, Z.leb_le, Z.ltb_lt, unit_start_lt by done.
    unfold is_kind. setoid_rewrite bool_decide_eq_true. setoid_rewrite Hj. tauto. }
  split.
  - intros [(u & Hin & Hp & Hi)|(u & Hin & [_ Hp]%andb_true_iff & Hi)].
    + split; [by apply (Hmate u Hin Hi)|]. left. by apply (Hmand u).
    + split; [by apply (Hmate u Hin Hi)|]. right. by apply (Hlive u).
  - intros [Hi Hneed]. pose proof (Hk i Hi) as ([k u] & Ek & Hin)%list_elem_of_fmap. simpl in Ek.
    assert (Hin' : u ∈ us.*2) by by apply (list_elem_of_fmap_2 snd us (k, u)).
    assert (Hiu : i ∈ u).
    { destruct (Hu k u Hin) as [_ ->]. apply list_elem_of_In, filter_In.
      split; [by apply list_elem_of_In|by apply bool_decide_eq_true]. }
    destruct (existsb _mandatory u) eqn:E; [left; by exists u|].
    right. exists u. split; [done|]. rewrite E. split; [|done]. simpl. apply (Hlive u Hin' Hiu).
    destruct Hneed as [Hf|Hf]; [|done]. apply (Hmand u Hin' Hiu) in Hf. congruence.
Qed.

(** A fixed item that is no call or result survives as it is. *)
Lemma fixed_survives items i :
  i ∈ items → fixed_item i → kind i ∉ TOOL_KINDS → i ∈ survivors items ∧ needed items i.
Proof.
  intros Hi Hf Hk. assert (i ∈ survivors items) as Hs; [|split; [done|left; by exists i]].
  unfold survivors. set (cs := omap _ items).
  assert (i ∈ cs) as Hc by (apply list_elem_of_omap; exists i; by rewrite cap_fixed).
  destruct (call_units cs) as [calls amb].
  assert (relinked calls i = i) as E.
  { unfold relinked. destruct (calls !! _); [|done]. rewrite bool_decide_false; [done|].
    intros Ek. apply Hk. rewrite Ek. right. left. }
  rewrite <- E. apply list_elem_of_fmap_2, list_elem_of_In, filter_In.
  split; [by apply list_elem_of_In|]. unfold is_ambiguous, is_kind.
  by rewrite (bool_decide_false (kind i ∈ TOOL_KINDS)).
Qed.
End host.
End ContextIRPlan.
