(* ===== verification/ContextIRThms.v ===== *)
(** * The budget assembler: theorems

    What [assemble] sends and leaves out, how it fits the history into the
    budget, and that the loops that cap one item end with an item that fits. *)

From S2P Require Import Prelude Db PyString ContextIR ContextIRProps ContextIRPlan.

#[local] Open Scope Z_scope.

Module ContextIRThms.
Import ContextIR ContextIRProps ContextIRPlan.

Section host.
Context `{ContextHost}.

(** ** When the pruning can fail *)






(** An item the cap leaves alone. *)
Definition whole (item : ContextItem) : bool :=
  is_manifest_only item || is_never item || (token_estimate item <=? item_allowance item).

(** What a successful cap returns. *)
Lemma cap_item_result item r c r' :
  _cap_item item r = (Some c, r') →
  if whole item then c = item
  else truncatable item = true ∧ 0 < token_budget item
       ∧ token_estimate c ≤ item_allowance item
       ∧ ∃ n, 1 ≤ n ≤ item_allowance item ∧ c = capped_at item n.
Proof.
  unfold _cap_item. cbn zeta. intros E. fold (whole item) in E.
  destruct (whole item); [by simplify_eq|].
  destruct (truncatable item && _) eqn:E2 in E; [|done].
  destruct (_ <=? _) eqn:E3 in E; [|done].
  injection E as <- _. apply Z.leb_le in E3.
  apply andb_true_iff in E2 as [E1 E2%Z.ltb_lt]. pose proof (allowance_ge item).
  destruct (refit_ends item (item_allowance item) (Z.to_nat (item_allowance item))
    (item_allowance item)) as (n & Hn & Heq & _); [lia|lia|]. split_and!; [done..|]. by exists n.
Qed.





(** ** The parts of an assembly *)

Definition plan_must (p : Plan) : list ContextItem := mjoin (mandatory p) ++ mjoin (protected p).

(** What the mandatory and protected units and the side material leave. *)
Definition history_room (total : Z) (p : Plan) (asides : list ContextItem) : Z :=
  total - unit_tokens (plan_must p) - unit_tokens asides.

Record assembled (total : Z) (items : list ContextItem) (a : ContextAssembly)
    (asides rejected : list ContextItem) : Prop := {
  as_nodup : NoDup (ids_of items);
  as_from : Forall (stands_for (aside (make_plan items))) asides;
  as_included : included a = order_by (arrival_leb (ids_of items))
    (plan_must (make_plan items) ++ asides
     ++ mjoin (kept_history (history_room total (make_plan items) asides)
                 (conversation (make_plan items))));
  as_left : left_out a = order_by (arrival_leb (ids_of items)) (by_id [] rejected);
  as_ids : ids_of (plan_must (make_plan items) ++ asides
     ++ mjoin (kept_history (history_room total (make_plan items) asides)
                 (conversation (make_plan items)))) ++ ids_of rejected ≡ₚ ids_of items;
  as_used : used_tokens a = unit_tokens (plan_must (make_plan items) ++ asides
     ++ mjoin (kept_history (history_room total (make_plan items) asides)
                 (conversation (make_plan items))));
  as_over : over_budget a = (total <? unit_tokens (plan_must (make_plan items)));
  as_cut : cut_units a =
    let room := history_room total (make_plan items) asides in
    cuts room (pruned_history room (conversation (make_plan items)));
  as_fits : unit_tokens (plan_must (make_plan items)) ≤ total →
    unit_tokens (plan_must (make_plan items) ++ asides) ≤ total;
  as_no_room : total < unit_tokens (plan_must (make_plan items)) →
    Forall (Forall (λ i, 0 ≤ _tokens i)) (aside (make_plan items)) → unit_tokens asides = 0
}.

Lemma assemble_parts total details items a :
  assemble total details items = Ok a →
  ∃ asides rejected, assembled (Z.max 0 total) items a asides rejected.
Proof.
  unfold assemble. cbn zeta. case_bool_decide as Hnd; simpl; [|done].
  pose proof (make_plan_perm items) as Hperm. set (p := make_plan items) in *.
  set (tot := Z.max 0 total).
  pose proof (include_fold (mandatory p ++ protected p)
    (mkSelection (plan_records p) [] (plan_excluded p) 0)) as (Hi & He & _ & Hu).
  set (s1 := foldl include_unit _ _) in *. rewrite join_app in Hi, Hu. simpl in Hi, He, Hu.
  fold (plan_must p) in Hi, Hu.
  destruct (aside_fold_result tot (aside p) s1) as [asides R].
  set (s2 := foldl (aside_step tot) s1 (aside p)) in *.
  assert (Hroom : tot - used s2 = history_room tot p asides).
  { rewrite (ar_used _ _ _ _ _ R), Hu. unfold history_room. lia. }
  rewrite Hroom. set (room := history_room tot p asides) in *.
  destruct (prune_history _ _ _ _ _) as [[[[h t] recs] pr]|e] eqn:Ep; [|done].
  apply prune_history_spec in Ep as [-> ->].
  destruct (cut_history_spec room (s2 <| sel_records := recs |>) 0
    (pruned_history room (conversation p))) as (s3 & -> & Hi3 & Hu3 & He3).
  pose proof (include_fold (drop (cuts room (pruned_history room (conversation p)))
    (pruned_history room (conversation p))) s3) as (Hi4 & He4 & _ & Hu4).
  set (s4 := foldl include_unit s3 _) in *. intros [= <-].
  change (sel_included (s2 <| sel_records := recs |>)) with (sel_included s2) in Hi3.
  change (sel_excluded (s2 <| sel_records := recs |>)) with (sel_excluded s2) in He3.
  change (used (s2 <| sel_records := recs |>)) with (used s2) in Hu3.
  rewrite Hi3, (ar_included _ _ _ _ _ R), Hi, <- (assoc_L (++)) in Hi4.
  rewrite Hu3, (ar_used _ _ _ _ _ R), Hu in Hu4. rewrite He3 in He4.
  exists asides, (sel_excluded s4). split; try done.
  - apply (ar_from _ _ _ _ _ R).
  - simpl. by rewrite Hi4.
  - rewrite <- Hperm. unfold plan_ids. rewrite He4.
    rewrite <- (mjoin_ids _ _ (pruned_history_head room (conversation p))).
    unfold kept_history.
    rewrite <- (take_drop (cuts room (pruned_history room (conversation p)))
      (pruned_history room (conversation p))) at 3.
    rewrite join_app, !map_app. pose proof (ar_ids _ _ _ _ _ R) as Hids. rewrite He in Hids.
    rewrite <- !(assoc_L (++)).
    assert (Hr : ids_of (mjoin (aside p)) ++ ids_of (plan_excluded p)
      ≡ₚ ids_of asides ++ ids_of (sel_excluded s2)) by (rewrite Hids; solve_Permutation).
    unfold plan_must. rewrite map_app, <- (assoc_L (++)). do 2 apply Permutation_app_head.
    trans (ids_of (mjoin (take (cuts room (pruned_history room (conversation p)))
        (pruned_history room (conversation p))))
      ++ ids_of (mjoin (drop (cuts room (pruned_history room (conversation p)))
        (pruned_history room (conversation p))))
      ++ (ids_of asides ++ ids_of (sel_excluded s2))); [solve_Permutation|].
    rewrite <- Hr. solve_Permutation.
  - simpl. rewrite Hu4. fold p. fold room. unfold kept_history. rewrite !unit_tokens_app. lia.
  - simpl. rewrite Hu. done.
  - intros Hm. pose proof (ar_fits _ _ _ _ _ R) as Hf. rewrite (ar_used _ _ _ _ _ R), Hu in Hf.
    fold p in Hm |- *. rewrite unit_tokens_app. lia.
  - intros Hm. apply (ar_over _ _ _ _ _ R). rewrite Hu. fold p in Hm. lia.
Qed.

(** Estimates are never negative: [create] and [with_content] see to it. *)
Definition sized (i : ContextItem) : Prop := 0 ≤ token_estimate i.

Lemma create_sized item_id kind origin trust visibility priority token_budget policy content
    cache_class created_seq role pair group unit ref hash estimate name metadata :
  sized (create item_id kind origin trust visibility priority token_budget policy content
           cache_class created_seq role pair group unit ref hash estimate name metadata).
Proof.
  unfold sized, create. cbn [token_estimate].
  destruct (match content with VNull => _ | _ => _ end); [lia|apply estimate_nonneg].
Qed.







(** ** The room the history fits in *)







(** ** What is sent and what is left out *)


(** ** The history is the longest affordable tail *)

Lemma prunings_all_if_cut room us :
  (0 < cuts room (pruned_history room us))%nat → prunings room us = length (mjoin us).
Proof.
  intros Hc. unfold prunings.
  destruct (first_fit_at (λ k, unit_tokens (pruned_upto k (mjoin us)) <=? room)
    (length (mjoin us))) as [|Hf]; [done|].
  fold (prunings room us) in Hf. exfalso.
  assert (Hd : (units_tokens (drop 0 (pruned_history room us)) <=? room) = true).
  { rewrite drop_0, units_tokens_join. unfold pruned_history. rewrite join_reshape; [done|].
    rewrite (Forall2_length _ _ _ (pruned_upto_head _ _)). apply sum_lengths. }
  rewrite (first_fit_before (λ k, units_tokens (drop k (pruned_history room us)) <=? room)
    (length (pruned_history room us)) 0 Hc) in Hd. done.
Qed.

(** C28: The loops of [assemble] compute the reference selection of the
    history.  What is sent is the mandatory and protected units, side material
    (each a side unit's item, whole or cut), and of the conversation the longest
    tail of whole steps that fits the remaining room once the fewest oldest tool
    outputs that suffice are pruned: no shorter cut fits, a step is cut only
    after every output was pruned, and each step kept holds a result for each
    of its tool calls. *)
Theorem history_is_longest_tail total details items a :
  assemble total details items = Ok a →
  let p := make_plan items in
  ∃ asides, Forall (stands_for (aside p)) asides ∧
    let room := history_room (Z.max 0 total) p asides in
    let pruned := pruned_history room (conversation p) in
    included a ≡ₚ plan_must p ++ asides ++ mjoin (kept_history room (conversation p))
    ∧ kept_history room (conversation p) = drop (cut_units a) pruned
    ∧ (∀ j, (j < cut_units a)%nat → room < units_tokens (drop j pruned))
    ∧ (cut_units a = length pruned ∨ units_tokens (drop (cut_units a) pruned) ≤ room)
    ∧ (∀ k, (k < prunings room (conversation p))%nat →
         room < unit_tokens (pruned_upto k (mjoin (conversation p))))
    ∧ ((0 < cut_units a)%nat →
         prunings room (conversation p) = length (mjoin (conversation p)))
    ∧ Forall (λ u, _tool_pairs_balanced u = true) (kept_history room (conversation p)).
Proof.
  intros E p. destruct (assemble_parts _ _ _ _ E) as (asides & rejected & A).
  destruct A as [_ Hfrom Hinc _ _ _ _ Hcut _ _]. fold p in Hfrom, Hinc, Hcut.
  exists asides. split; [done|]. cbn zeta in *.
  set (room := history_room _ p asides) in *. set (h := pruned_history room _) in *.
  rewrite Hcut. split; [rewrite Hinc; apply order_by_perm|]. split; [done|].
  split. { intros j Hj. by apply Z.leb_gt, (first_fit_before _ _ _ Hj). }
  split.
  { destruct (first_fit_at (λ k, units_tokens (drop k h) <=? room) (length h)) as [Hl|Hl];
      [by left|right; by apply Z.leb_le]. }
  split. { intros k Hk. by apply Z.leb_gt, (first_fit_before _ _ _ Hk). }
  split; [apply prunings_all_if_cut|]. apply kept_history_balanced, make_plan_history.
Qed.

(** ** Caps *)

Lemma capped_text item t n :
  content item = VStr t → 1 ≤ n → token_estimate (capped_at item n) ≤ n.
Proof.
  intros Hc Hn. unfold capped_at. rewrite Hc. unfold _truncate_content.
  rewrite (proj2 (Z.leb_gt n 0)) by lia. simpl. by apply truncate_text_tokens.
Qed.

(** C40: The cap of an item ends: the loops that shrink a text and refit a block
    reach their result with the fuel they get (more changes nothing), and a
    shortened text takes at most four bytes a token.  An item that only the
    manifest shows, that may not be cut, or that is within its allowance comes back
    whole; every other comes back shortened to fit its allowance or not at all.
    With a truncating policy and a budget it is dropped only if not even its
    smallest slice fits, a plain text never; without them (policy [drop], or no
    budget) it is dropped without a try. *)
Theorem cap_item_ends item records :
  (∀ t mb tail_only fuel, 4 ≤ mb →
     let c := first_cut mb tail_only in
     (cut_size c ≤ fuel)%nat →
     shrink_loop fuel mb t c = shrink_loop (cut_size c) mb t c
     ∧ utf8_len (shrink_loop fuel mb t c) ≤ mb)
  ∧ (∀ fuel, 0 < token_budget item → (Z.to_nat (item_allowance item) ≤ fuel)%nat →
       refit fuel item (item_allowance item) (item_allowance item)
       = refit (Z.to_nat (item_allowance item)) item (item_allowance item) (item_allowance item))
  ∧ match (_cap_item item records).1 with
    | Some c =>
        same_head c item
        ∧ (if whole item then c = item
           else truncatable item = true ∧ 0 < token_budget item
             ∧ token_estimate c ≤ item_allowance item
             ∧ ∃ n, 1 ≤ n ≤ item_allowance item ∧ c = capped_at item n)
    | None =>
        whole item = false
        ∧ (truncatable item = true → 0 < token_budget item →
           item_allowance item < token_estimate (capped_at item 1)
           ∧ ∀ t, content item ≠ VStr t)
    end.
Proof.
  pose proof (allowance_ge item) as Ha. split; [|split].
  - intros t mb b fuel Hmb c Hf. pose proof (first_cut_ok mb b Hmb) as Hok. split.
    + by apply shrink_loop_fuel.
    + by apply shrink_loop_bound.
  - intros fuel Hb Hf. apply refit_fuel; lia.
  - destruct (_cap_item item records) as [[c|] r] eqn:E; simpl.
    { split; [by eapply cap_item_head|by eapply cap_item_result]. }
    revert E. unfold _cap_item. cbn zeta. intros E. fold (whole item) in E.
    destruct (whole item); [done|]. split; [done|]. intros Ht Hb. rewrite Ht, (proj2 (Z.ltb_lt 0 _) Hb) in E. simpl in E.
    destruct (refit_ends item (item_allowance item) (Z.to_nat (item_allowance item))
      (item_allowance item)) as (n & Hn & Heq & Hend); [lia|lia|].
    rewrite Heq in E. destruct (_ <=? _) eqn:E2 in E; [done|]. apply Z.leb_gt in E2.
    destruct Hend as [Hend| ->]; [lia|]. split; [done|].
    intros t Hc. pose proof (capped_text item t 1 Hc). lia.
Qed.

End host.

(** ** A concrete assembly *)

#[local] Instance demo_host : ContextHost := {|
  sha256_text t := pretty.pretty (Z.of_nat (length t));
  str_of_value v := canonical_json v
|}.

Definition demo_text (n : nat) : value := VStr (replicate n 97).
Definition demo_block (ty key : string) (n : nat) : value :=
  VMap [("type", vstr ty); (key, demo_text n)].
Definition demo_item (id kind : string) (policy : string) (c : value) (pair unit : string)
    : ContextItem :=
  create id kind "chat" "trusted" VISIBILITY_MODEL 500 400 policy c "dynamic" 1 "user" pair ""
    unit None None None "" [].

Definition demo_items : list ContextItem :=
  [demo_item "rules" "system_rule" POLICY_NEVER (demo_text 80) "" "";
   demo_item "old" KIND_USER_INPUT POLICY_HEAD_TAIL (demo_text 200) "" "";
   demo_item "call1" KIND_TOOL_CALL POLICY_DROP (demo_block "tool_call" "input" 40) "p1" "step1";
   demo_item "result1" KIND_TOOL_RESULT POLICY_HEAD_TAIL (demo_block "tool_result" "output" 800)
     "p1" "elsewhere";
   demo_item "memory" "memory" POLICY_HEAD_TAIL (demo_text 400) "" "";
   demo_item "call2" KIND_TOOL_CALL POLICY_DROP (demo_block "tool_call" "input" 40) "p2" "step2";
   demo_item "result2" KIND_TOOL_RESULT POLICY_HEAD_TAIL (demo_block "tool_result" "output" 800)
     "p2" "step2";
   demo_item "request" KIND_USER_INPUT POLICY_NEVER (demo_text 120) "" "";
   demo_item "live" KIND_ASSISTANT POLICY_DROP (demo_text 120) "" ""].



(** Two steps are cut, and only after both outputs were pruned. *)
Lemma history_is_longest_tail_witness :
  ∃ a, assemble 250 [] demo_items = Ok a ∧ cut_units a = 2%nat ∧ pruned_items a = 2%nat
    ∧ let p := make_plan demo_items in
      ∃ asides, Forall (stands_for (aside p)) asides
        ∧ included a ≡ₚ plan_must p ++ asides
            ++ mjoin (kept_history (history_room 250 p asides) (conversation p)).
Proof.
  destruct (assemble 250 [] demo_items) as [a|e] eqn:E; [|vm_compute in E; discriminate].
  destruct (history_is_longest_tail 250 [] demo_items a E) as (asides & Hfrom & Hinc & _).
  exists a. split; [reflexivity|].
  split; [vm_compute in E; injection E as <-; reflexivity|].
  split; [vm_compute in E; injection E as <-; reflexivity|].
  exists asides. split; [exact Hfrom|exact Hinc].
Defined.

(** A long text over its allowance of 400 tokens is shortened to fit it. *)
Definition demo_long : ContextItem :=
  demo_item "long" "memory" POLICY_HEAD_TAIL (demo_text 2000) "" "".

Lemma cap_item_ends_witness :
  token_estimate demo_long = 500
  ∧ ∃ c, (_cap_item demo_long ∅).1 = Some c ∧ same_head c demo_long ∧ token_estimate c ≤ 400.
Proof.
  split; [reflexivity|].
  destruct (cap_item_ends demo_long ∅) as (_ & _ & Hc).
  destruct ((_cap_item demo_long ∅).1) as [c|] eqn:E.
  - exists c. split; [reflexivity|]. destruct Hc as [Hh _]. split; [exact Hh|].
    vm_compute in E. injection E as <-. vm_compute. discriminate.
  - destruct Hc as [_ Hc]. destruct (Hc eq_refl eq_refl) as [_ Hc'].
    destruct (Hc' _ eq_refl).
Defined.
End ContextIRThms.
