(* ===== verification/BinaryFiles.v ===== *)
(** * Files as text: [core/agent_skills/binary_files.py]

    A package keeps its files as strings: UTF-8 text as it is, anything else as
    base64 behind a marker.  Text is a list of code points, bytes are integers
    below 256.  UTF-8 and base64 are those of Python: strict decoding of UTF-8,
    the lenient decoder of [base64.b64decode]. *)

From S2P Require Import Prelude PyDict.
From Stdlib Require Import Ascii String.

Abbreviation bytes := (list Z) (only parsing).

Definition byte_ok (b : Z) : Prop := 0 ≤ b < 256.

(** The Unicode tables behind [str.lower], [str.upper] and
    [unicodedata.normalize("NFC", s).casefold()]. *)
Class UnicodeText := {
  lower_text : text → text;
  upper_text : text → text;
  nfc_casefold : text → text;
}.

Module BinaryFiles.

(** ** UTF-8 *)

Definition surrogate (c : Z) : bool := (55296 <=? c) && (c <=? 57343).
Definition code_point (c : Z) : bool := (0 <=? c) && (c <? 1114112) && negb (surrogate c).

Definition tail_byte (n : Z) : Z := 128 + n mod 64.

(** [None] is the [UnicodeEncodeError] on a surrogate. *)
Definition encode_char (c : Z) : option bytes :=
  if c <? 128 then Some [c]
  else if c <? 2048 then Some [192 + c / 64; tail_byte c]
  else if surrogate c then None
  else if c <? 65536 then Some [224 + c / 4096; tail_byte (c / 64); tail_byte c]
  else Some [240 + c / 262144; tail_byte (c / 4096); tail_byte (c / 64); tail_byte c].

Fixpoint utf8_encode (t : text) : option bytes :=
  match t with
  | [] => Some []
  | c :: t' =>
      match encode_char c, utf8_encode t' with
      | Some b, Some bs => Some (b ++ bs)
      | _, _ => None
      end
  end.

Definition is_tail (b : Z) : bool := (128 <=? b) && (b <? 192).
Definition cons_char (c : Z) (t : option text) : option text :=
  match t with Some t' => Some (c :: t') | None => None end.

(** [raw.decode("utf-8")]: [None] is the [UnicodeDecodeError] on a stray or
    missing continuation byte, an overlong form, a surrogate, or a code point
    that does not exist. *)
Fixpoint utf8_decode (bs : bytes) : option text :=
  match bs with
  | [] => Some []
  | b :: r =>
      if b <? 128 then cons_char b (utf8_decode r)
      else match r with
      | b1 :: r1 =>
          if negb (is_tail b1) then None
          else if (194 <=? b) && (b <? 224) then
            cons_char ((b - 192) * 64 + (b1 - 128)) (utf8_decode r1)
          else match r1 with
          | b2 :: r2 =>
              if negb (is_tail b2) then None
              else if (224 <=? b) && (b <? 240) then
                let c := (b - 224) * 4096 + (b1 - 128) * 64 + (b2 - 128) in
                if (2048 <=? c) && negb (surrogate c)
                then cons_char c (utf8_decode r2) else None
              else match r2 with
              | b3 :: r3 =>
                  let c := (b - 240) * 262144 + (b1 - 128) * 4096 + (b2 - 128) * 64
                           + (b3 - 128) in
                  if is_tail b3 && (240 <=? b) && (65536 <=? c) && (c <? 1114112)
                  then cons_char c (utf8_decode r3) else None
              | [] => None
              end
          | [] => None
          end
      | [] => None
      end
  end.

(** ** base64 *)

Definition b64_alphabet : text :=
  text_of "ABCDEFGHIJKLMNOPQRSTUVWXYZabcdefghijklmnopqrstuvwxyz0123456789+/".
Definition b64_pad : Z := 61.

Definition b64_char (n : Z) : Z := nth (Z.to_nat n) b64_alphabet 0.
Fixpoint index_from (i : Z) (c : Z) (l : text) : option Z :=
  match l with
  | [] => None
  | x :: l' => if x =? c then Some i else index_from (i + 1) c l'
  end.
Definition b64_value (c : Z) : option Z := index_from 0 c b64_alphabet.

(** [base64.b64encode(raw)] *)
Fixpoint b64encode (bs : bytes) : text :=
  match bs with
  | [] => []
  | [a] => [b64_char (a / 4); b64_char (a mod 4 * 16); b64_pad; b64_pad]
  | [a; b] =>
      [b64_char (a / 4); b64_char (a mod 4 * 16 + b / 16); b64_char (b mod 16 * 4); b64_pad]
  | a :: b :: c :: r =>
      b64_char (a / 4) :: b64_char (a mod 4 * 16 + b / 16)
        :: b64_char (b mod 16 * 4 + c / 64) :: b64_char (c mod 64) :: b64encode r
  end.

(** The decoder keeps the position in the quad, the bits left of the last
    character and the padding seen; characters outside the alphabet are
    skipped, and padding that completes a quad ends the input. *)
Fixpoint b64_from (quad left pads : Z) (s : text) : option bytes :=
  match s with
  | [] => if quad =? 0 then Some [] else None
  | c :: s' =>
      if c =? b64_pad then
        if 2 <=? quad then
          if 4 <=? quad + (pads + 1) then Some [] else b64_from quad left (pads + 1) s'
        else b64_from quad left pads s'
      else match b64_value c with
      | None => b64_from quad left pads s'
      | Some v =>
          if quad =? 0 then b64_from 1 v 0 s'
          else if quad =? 1 then cons_char (left * 4 + v / 16) (b64_from 2 (v mod 16) 0 s')
          else if quad =? 2 then cons_char (left * 16 + v / 4) (b64_from 3 (v mod 4) 0 s')
          else cons_char (left * 64 + v) (b64_from 0 0 0 s')
      end
  end.

(** [base64.b64decode(s)]: [None] is the [ValueError] on a character that is not
    ASCII or on wrong padding. *)
Definition b64decode (s : text) : option bytes :=
  if forallb (λ c, c <? 128) s then b64_from 0 0 0 s else None.

(** ** Marked values *)

Definition BINARY_MARKER : text := text_of "__JX_BINARY_BASE64__:".
Definition MAX_SINGLE_FILE : Z := 100 * 1024 * 1024.
Definition MAX_TOTAL : Z := 150 * 1024 * 1024.
Definition BINARY_EXTENSIONS : list text := map text_of
  [".png"; ".jpg"; ".jpeg"; ".gif"; ".bmp"; ".ico"; ".webp"; ".tiff"; ".tif";
   ".pdf"; ".zip"; ".tar"; ".gz"; ".tgz"; ".bz2"; ".xz"; ".7z"; ".rar";
   ".woff"; ".woff2"; ".ttf"; ".otf"; ".eot";
   ".mp3"; ".wav"; ".flac"; ".ogg"; ".mp4"; ".mov"; ".avi"; ".webm"; ".mkv";
   ".pptx"; ".docx"; ".xlsx"; ".doc"; ".xls"; ".ppt";
   ".pyc"; ".pyo"; ".so"; ".dll"; ".dylib"; ".bin"; ".exe"; ".o"; ".a"; ".class"]%string.
Definition JUNK_BASENAMES : list text := map text_of [".DS_Store"; "Thumbs.db"]%string.

(** [s.startswith(p)] *)
Fixpoint text_prefix (p s : text) : bool :=
  match p, s with
  | [], _ => true
  | x :: p', y :: s' => (x =? y) && text_prefix p' s'
  | _ :: _, [] => false
  end.

Definition encode_binary (raw : bytes) : text := BINARY_MARKER ++ b64encode raw.
Definition is_binary_value (value : text) : bool := text_prefix BINARY_MARKER value.
Definition decode_binary (value : text) : option bytes :=
  b64decode (drop (List.length BINARY_MARKER) value).

(** What a stored value stands for:
    [decode_binary(value) if is_binary_value(value) else value.encode("utf-8")] *)
Definition member_bytes (value : text) : option bytes :=
  if is_binary_value value then decode_binary value else utf8_encode value.

(** [os.path.splitext(p)[1]]: from the last dot of the last component on, unless
    only dots come before it. *)
Definition dot : Z := 46.
Definition sep : Z := 47.

Fixpoint last_component (p : text) : text :=
  match p with
  | [] => []
  | c :: p' => if existsb (Z.eqb sep) p' then last_component p' else if c =? sep then p' else p
  end.
Fixpoint strip_dots (p : text) : text :=
  match p with c :: p' => if c =? dot then strip_dots p' else p | [] => [] end.
Fixpoint from_last_dot (p : text) : text :=
  match p with
  | [] => []
  | c :: p' => if existsb (Z.eqb dot) p' then from_last_dot p' else if c =? dot then p else []
  end.
Definition splitext_ext (p : text) : text := from_last_dot (strip_dots (last_component p)).

Section uploads.
Context `{UnicodeText}.

Definition binary_extension (filename : text) : bool :=
  bool_decide (lower_text (splitext_ext filename) ∈ BINARY_EXTENSIONS).

Definition encode_upload (filename : text) (raw : bytes) : text :=
  if binary_extension filename then encode_binary raw
  else match utf8_decode raw with
       | Some t => t
       | None => encode_binary raw
       end.

(** A regular file under the packed root: its base name, its path below the
    root and its bytes. *)
Record disk_file := { file_name : text; file_rel : text; file_raw : bytes }.

(** One turn of the loop of [pack_directory] over the files in the order
    [sorted(root.rglob)] gives them. *)
Definition pack_step (skip : list text) (acc : pydict text text * Z) (p : disk_file) :
    pydict text text * Z :=
  let '(extra, total) := acc in
  if bool_decide (file_name p ∈ skip ++ JUNK_BASENAMES) then acc
  else if MAX_SINGLE_FILE <? Z.of_nat (List.length (file_raw p)) then acc
  else
    let stored := encode_upload (file_rel p) (file_raw p) in
    match utf8_encode stored with
    | None => acc  (* never: see [upload_encodes] *)
    | Some data =>
        let stored_size := Z.of_nat (List.length data) in
        if MAX_TOTAL <? total + stored_size then acc
        else (dput extra (file_rel p) stored, total + stored_size)
    end.
Definition pack_directory (skip : list text) (files : list disk_file) : pydict text text :=
  (foldl (pack_step skip) ([], 0) files).1.

End uploads.

(** ** Lemmas on the codecs *)

#[local] Ltac div_lia := Z.to_euclidean_division_equations; lia.

Lemma encode_char_3 c :
  2048 ≤ c < 65536 → surrogate c = false →
  encode_char c = Some [224 + c / 4096; tail_byte (c / 64); tail_byte c].
Proof.
  intros Hc Hs. unfold encode_char. rewrite Hs.
  rewrite (proj2 (Z.ltb_ge c 128)), (proj2 (Z.ltb_ge c 2048)), (proj2 (Z.ltb_lt c 65536)) by lia.
  done.
Qed.

Lemma encode_char_4 c :
  65536 ≤ c →
  encode_char c =
  Some [240 + c / 262144; tail_byte (c / 4096); tail_byte (c / 64); tail_byte c].
Proof.
  intros Hc. unfold encode_char, surrogate.
  rewrite (proj2 (Z.ltb_ge c 128)), (proj2 (Z.ltb_ge c 2048)), (proj2 (Z.ltb_ge c 65536)),
    (proj2 (Z.leb_gt c 57343)) by lia.
  by rewrite andb_false_r.
Qed.

Lemma cons_char_Some c t u : cons_char c t = Some u → ∃ v, t = Some v ∧ u = c :: v.
Proof. destruct t; intros [= <-]. eauto. Qed.

Lemma utf8_encode_cons c t b bs :
  encode_char c = Some b → utf8_encode t = Some bs → utf8_encode (c :: t) = Some (b ++ bs).
Proof. intros E1 E2. cbn. by rewrite E1, E2. Qed.

(** Decoding loses nothing: the text encodes to the bytes it was read from. *)
Lemma utf8_decode_encode bs t : utf8_decode bs = Some t → utf8_encode t = Some bs.
Proof.
  revert t. induction bs as [bs IH] using (well_founded_induction_type
    (Wf_nat.well_founded_ltof _ (@List.length Z))).
  assert (Hrec : ∀ pre r, bs = pre ++ r → pre ≠ [] → ∀ t, utf8_decode r = Some t →
    utf8_encode t = Some r).
  { intros pre r -> Hpre t. apply IH. unfold Wf_nat.ltof. rewrite length_app.
    destruct pre; [done|cbn; lia]. }
  intros t. destruct bs as [|b r]; cbn [utf8_decode]; [by intros [= <-]|].
  destruct (b <? 128) eqn:Eb.
  { intros (v & E & ->)%cons_char_Some. apply (utf8_encode_cons _ _ [b]).
    - unfold encode_char. by rewrite Eb.
    - by apply (Hrec [b]). }
  destruct r as [|b1 r1]; [done|]. destruct (negb (is_tail b1)) eqn:E1; [done|].
  unfold is_tail in *. destruct ((194 <=? b) && (b <? 224)) eqn:E2.
  { intros (v & E & ->)%cons_char_Some. bool_simpl.
    apply (utf8_encode_cons _ _ [b; b1]); [|by apply (Hrec [b; b1])].
    unfold encode_char, tail_byte. rewrite (proj2 (Z.ltb_ge _ 128)), (proj2 (Z.ltb_lt _ 2048)) by lia.
    f_equal. repeat f_equal; div_lia. }
  destruct r1 as [|b2 r2]; [done|]. destruct (negb ((128 <=? b2) && _)) eqn:E3; [done|].
  destruct ((224 <=? b) && (b <? 240)) eqn:E4.
  { destruct (2048 <=? _) eqn:E5; cbn [andb]; [|done].
    destruct (surrogate _) eqn:E6; cbn [negb]; [done|].
    intros (v & E & ->)%cons_char_Some. bool_simpl.
    apply (utf8_encode_cons _ _ [b; b1; b2]); [|by apply (Hrec [b; b1; b2])].
    rewrite encode_char_3 by (done || lia). unfold tail_byte. repeat f_equal; div_lia. }
  destruct r2 as [|b3 r3]; [done|].
  destruct (_ && _ && _ && _) eqn:E5; [|done].
  intros (v & E & ->)%cons_char_Some. bool_simpl.
  apply (utf8_encode_cons _ _ [b; b1; b2; b3]); [|by apply (Hrec [b; b1; b2; b3])].
  rewrite encode_char_4 by lia. unfold tail_byte. repeat f_equal; div_lia.
Qed.

Lemma b64_char_value n : 0 ≤ n < 64 → b64_value (b64_char n) = Some n ∧ b64_char n ≠ b64_pad
                                      ∧ b64_char n < 128.
Proof.
  intros Hn. assert (Hall : forallb (λ k, let n := Z.of_nat k in
    bool_decide (b64_value (b64_char n) = Some n) && negb (b64_char n =? b64_pad)
      && (b64_char n <? 128)) (seq 0 64) = true) by (vm_compute; reflexivity).
  rewrite forallb_forall in Hall. specialize (Hall (Z.to_nat n)).
  rewrite Z2Nat.id in Hall by lia. cbn zeta in Hall.
  assert (Hin : In (Z.to_nat n) (seq 0 64)) by (apply in_seq; lia).
  specialize (Hall Hin). bool_simpl. done.
Qed.

Lemma b64_step quad left pads n s :
  0 ≤ n < 64 →
  b64_from quad left pads (b64_char n :: s) =
  (if quad =? 0 then b64_from 1 n 0 s
   else if quad =? 1 then cons_char (left * 4 + n / 16) (b64_from 2 (n mod 16) 0 s)
   else if quad =? 2 then cons_char (left * 16 + n / 4) (b64_from 3 (n mod 4) 0 s)
   else cons_char (left * 64 + n) (b64_from 0 0 0 s)).
Proof.
  intros Hn. destruct (b64_char_value n Hn) as (Hv & Hp & _). cbn [b64_from].
  by rewrite (proj2 (Z.eqb_neq _ _) Hp), Hv.
Qed.

(** Induction on the quads of an encoding. *)
Lemma bytes_quad_ind (P : bytes → Prop) :
  P [] → (∀ a, P [a]) → (∀ a b, P [a; b]) → (∀ a b c r, P r → P (a :: b :: c :: r)) →
  ∀ bs, P bs.
Proof.
  intros P0 P1 P2 P3. fix go 1. intros [|a [|b [|c r]]]; [done|apply P1|apply P2|].
  apply P3, go.
Qed.

Lemma b64_from_encode bs : Forall byte_ok bs → b64_from 0 0 0 (b64encode bs) = Some bs.
Proof.
  induction bs as [|a|a b|a b c r IH] using bytes_quad_ind; intros Hok; cbn [b64encode];
    rewrite ?Forall_cons in Hok; unfold byte_ok in Hok; [done|..];
    destruct_and?; repeat (rewrite b64_step by div_lia; cbn [Z.eqb Pos.eqb]).
  - change (cons_char (a / 4 * 4 + a mod 4 * 16 / 16) (Some []) = Some [a]).
    cbn [cons_char]. do 2 f_equal. div_lia.
  - change (4 <=? 3 + (0 + 1)) with true. cbn [cons_char].
    assert (∀ x y : Z, x = a → y = b → Some [x; y] = Some [a; b]) as Heq by (intros; by subst).
    apply Heq; div_lia.
  - rewrite IH by done. cbn [cons_char].
    assert (∀ x y z : Z, x = a → y = b → z = c → Some (x :: y :: z :: r) = Some (a :: b :: c :: r))
      as Heq by (intros; by subst).
    apply Heq; div_lia.
Qed.

Lemma b64encode_ascii bs : Forall byte_ok bs → forallb (λ c, c <? 128) (b64encode bs) = true.
Proof.
  induction bs as [|a|a b|a b c r IH] using bytes_quad_ind; intros Hok; cbn [b64encode forallb];
    rewrite ?Forall_cons in Hok; unfold byte_ok in Hok; [done|..]; destruct_and?;
    rewrite ?IH by done;
    repeat (rewrite (proj2 (Z.ltb_lt (b64_char _) 128))
      by (apply b64_char_value; div_lia)); done.
Qed.

Lemma text_prefix_app p s : text_prefix p (p ++ s) = true.
Proof. induction p; cbn; [done|]. by rewrite Z.eqb_refl. Qed.

Lemma member_bytes_binary raw :
  Forall byte_ok raw → member_bytes (encode_binary raw) = Some raw.
Proof.
  intros Hok. unfold member_bytes, is_binary_value, encode_binary, decode_binary, b64decode.
  rewrite text_prefix_app, drop_app_length, b64encode_ascii by done.
  by apply b64_from_encode.
Qed.

(** An ASCII prefix is seen in the text exactly when it is in the bytes. *)
Lemma decode_prefix p bs t :
  Forall (λ c, c < 128) p → utf8_decode bs = Some t → text_prefix p t = text_prefix p bs.
Proof.
  revert bs t. induction p as [|x p IH]; intros bs t Hp E; [done|].
  apply Forall_cons in Hp as [Hx Hp].
  destruct bs as [|b r]; [by injection E as <-|].
  destruct (b <? 128) eqn:Eb.
  - cbn [utf8_decode] in E. rewrite Eb in E. apply cons_char_Some in E as (v & E & ->).
    cbn [text_prefix]. by rewrite (IH r v).
  - apply utf8_decode_encode in E as Eb'. destruct t as [|c t']; [done|].
    cbn [text_prefix]. bool_simpl. rewrite (proj2 (Z.eqb_neq x b)) by lia.
    rewrite (proj2 (Z.eqb_neq x c)); [done|]. intros <-. cbn [utf8_encode] in Eb'.
    unfold encode_char in Eb'. rewrite (proj2 (Z.ltb_lt x 128)) in Eb' by done.
    destruct (utf8_encode t'); simplify_eq/=. lia.
Qed.

Lemma marker_ascii : Forall (λ c, c < 128) BINARY_MARKER.
Proof. vm_compute. repeat constructor. Qed.

Lemma ascii_encodes l : Forall (λ c, c < 128) l → is_Some (utf8_encode l).
Proof.
  intros Hl. induction Hl as [|c l Hc _ [bs IH]]; [by eexists|]. cbn.
  unfold encode_char. rewrite (proj2 (Z.ltb_lt c 128)) by done. rewrite IH. by eexists.
Qed.

Lemma upload_encodes `{UnicodeText} name raw :
  Forall byte_ok raw → is_Some (utf8_encode (encode_upload name raw)).
Proof.
  intros Hok. assert (Hb : is_Some (utf8_encode (encode_binary raw))).
  { apply ascii_encodes, Forall_app. split; [apply marker_ascii|].
    pose proof (b64encode_ascii raw Hok) as Ha. rewrite forallb_forall in Ha.
    apply Forall_forall. intros c Hc. by apply Z.ltb_lt, Ha, list_elem_of_In. }
  unfold encode_upload. destruct (binary_extension name); [done|].
  destruct (utf8_decode raw) eqn:E; [|done]. apply utf8_decode_encode in E as ->. by eexists.
Qed.

(** ** Theorems *)

(** a file stored by [encode_upload] reads back as the bytes that were
    uploaded, whatever its name and contents, unless its contents start with the
    marker of binary values. *)
Theorem upload_roundtrip `{UnicodeText} name raw :
  Forall byte_ok raw → text_prefix BINARY_MARKER raw = false →
  member_bytes (encode_upload name raw) = Some raw.
Proof.
  intros Hok Hm. unfold encode_upload.
  destruct (binary_extension name); [by apply member_bytes_binary|].
  destruct (utf8_decode raw) as [t|] eqn:E; [|by apply member_bytes_binary].
  unfold member_bytes, is_binary_value. rewrite (decode_prefix _ raw) by (done || apply marker_ascii).
  rewrite Hm. by apply utf8_decode_encode.
Qed.

#[local] Instance plain_unicode : UnicodeText := {
  lower_text := id; upper_text := id; nfc_casefold := id }.

Lemma upload_roundtrip_witness :
  member_bytes (encode_upload (text_of "a.txt") [226; 130; 172; 255]) = Some [226; 130; 172; 255].
Proof.
  apply (upload_roundtrip (text_of "a.txt") [226; 130; 172; 255]); [|reflexivity].
  unfold byte_ok. repeat constructor; lia.
Defined.

(** A text file that does start with the marker reads back as other bytes. *)
Theorem marked_text_altered `{UnicodeText} name :
  binary_extension name = false →
  let raw := BINARY_MARKER ++ text_of "aGk=" in
  member_bytes (encode_upload name raw) = Some (text_of "hi").
Proof.
  intros He raw. unfold encode_upload. rewrite He. vm_compute. reflexivity.
Qed.

Lemma marked_text_altered_witness :
  member_bytes (encode_upload (text_of "a.txt") (BINARY_MARKER ++ text_of "aGk=")) =
  Some (text_of "hi").
Proof. apply (marked_text_altered (text_of "a.txt")). reflexivity. Defined.

(** The size a package of stored values takes. *)
Definition stored_size (value : text) : Z :=
  match utf8_encode value with Some data => Z.of_nat (List.length data) | None => 0 end.
Definition total_size (extra : pydict text text) : Z :=
  foldr (λ kv n, stored_size kv.2 + n) 0 extra.

(** What the loop of [pack_directory] keeps: every entry is an uploaded file
    that is neither skipped nor too large, and all together stay in the limit. *)
Definition packed_from `{UnicodeText} (skip : list text) (files : list disk_file)
    (extra : pydict text text) : Prop :=
  ∀ rel v, (rel, v) ∈ extra → ∃ p, p ∈ files ∧ file_rel p = rel ∧
    v = encode_upload rel (file_raw p) ∧ file_name p ∉ skip ++ JUNK_BASENAMES ∧
    Z.of_nat (List.length (file_raw p)) ≤ MAX_SINGLE_FILE.

Lemma stored_size_nonneg v : 0 ≤ stored_size v.
Proof. unfold stored_size. case_match; lia. Qed.

Lemma total_size_dput extra k v :
  total_size (dput extra k v) ≤ total_size extra + stored_size v.
Proof.
  assert (Hc : ∀ k v e, total_size ((k, v) :: e) = stored_size v + total_size e) by done.
  induction extra as [|[k' v'] e IH]; cbn [dput]; [rewrite Hc; cbn; lia|].
  pose proof (stored_size_nonneg v'). case_bool_decide; rewrite !Hc; lia.
Qed.

Lemma elem_of_dput {K V} `{EqDecision K} (d : pydict K V) k v x :
  x ∈ dput d k v → x = (k, v) ∨ x ∈ d.
Proof.
  induction d as [|[k' v'] d IH]; cbn; [rewrite list_elem_of_singleton; auto|].
  case_bool_decide; subst; rewrite !elem_of_cons; naive_solver.
Qed.

Lemma pack_step_inv `{UnicodeText} skip files p extra total :
  p ∈ files → packed_from skip files extra → total_size extra ≤ total ≤ MAX_TOTAL →
  let '(extra', total') := pack_step skip (extra, total) p in
  packed_from skip files extra' ∧ total_size extra' ≤ total' ≤ MAX_TOTAL.
Proof.
  intros Hp Hf Ht. unfold pack_step. case_bool_decide as Hskip; [done|].
  destruct (MAX_SINGLE_FILE <? _) eqn:Es; [done|].
  destruct (utf8_encode _) as [data|] eqn:Ed; [|done].
  destruct (MAX_TOTAL <? _) eqn:Em; [done|]. bool_simpl. split.
  - intros rel v [?|Hin]%elem_of_dput; simplify_eq; [|by apply Hf].
    exists p. by split_and!.
  - pose proof (total_size_dput extra (file_rel p) (encode_upload (file_rel p) (file_raw p))) as Hd.
    unfold stored_size in Hd. rewrite Ed in Hd. lia.
Qed.

(** Packing a directory keeps only files that are there, each as an upload of it
    would be stored, leaves out the skipped and the large ones, and never
    exceeds the limit on the whole. *)
Theorem pack_directory_bounded `{UnicodeText} skip files :
  packed_from skip files (pack_directory skip files) ∧
  total_size (pack_directory skip files) ≤ MAX_TOTAL.
Proof.
  unfold pack_directory.
  assert (Hgen : ∀ l extra total, (∀ p, p ∈ l → p ∈ files) →
    packed_from skip files extra → total_size extra ≤ total ≤ MAX_TOTAL →
    let r := foldl (pack_step skip) (extra, total) l in
    packed_from skip files r.1 ∧ total_size r.1 ≤ r.2 ≤ MAX_TOTAL).
  { induction l as [|p l IH]; intros extra total Hl Hf Ht; [done|]. cbn [foldl].
    pose proof (pack_step_inv skip files p extra total) as Hs.
    destruct (pack_step skip (extra, total) p) as [extra' total'].
    destruct Hs as [Hf' Ht']; [apply Hl; left|done|done|].
    apply IH; [|done|done]. intros q Hq. apply Hl. by right. }
  destruct (Hgen files [] 0) as [H1 H2]; [done| |unfold MAX_TOTAL; cbn; lia|].
  - intros rel v Hin. by apply not_elem_of_nil in Hin.
  - split; [done|]. cbn zeta in H2. lia.
Qed.

End BinaryFiles.
