(* ===== verification/PackageFiles.v ===== *)
(** * Package files: [core/capabilities/archive.py]

    Which member names a package may have, the collision check over all of them,
    the inspection of a zip directory and the writing of files below a fresh
    directory.  A zip is the list of its members' headers; the file system keeps
    one node per name up to what it takes for the same name. *)

From S2P Require Import Prelude PyDict BinaryFiles.
From Stdlib Require Import Ascii String.

Module PackageFiles.
Import BinaryFiles.

Definition MAX_MEMBERS : Z := 5000.
Definition MAX_DEPTH : Z := 24.
Definition MAX_TOTAL_BYTES : Z := 512 * 1024 * 1024.
Definition MAX_MEMBER_BYTES : Z := 128 * 1024 * 1024.

(** [IntegrityFailed] by its cause; [NotEncodable] is the [UnicodeEncodeError]
    of a name or a file with a surrogate. *)
Inductive package_error : Type :=
| EmptyName
| AbsoluteName (name : text)
| TooDeep (name : text)
| RelativePart (name : text)
| NonportableName (name : text)
| ReservedName (name : text)
| NameTooLong (name : text)
| CaseCollision (name spelled : text)
| FileIsParent (name : text)
| DuplicateName (name : text)
| TooManyMembers
| SpecialFile (name : text)
| ReparsePoint (name : text)
| EncryptedMember (name : text)
| MemberTooLarge (name : text)
| TotalTooLarge
| EmptyArchive
| WrongCount
| NotEncodable.

(** ** Strings *)

(** [s.split("/")] and ["/".join(l)] *)
Fixpoint split_sep (s : text) : list text :=
  match s with
  | [] => [[]]
  | c :: s' =>
      if c =? sep then [] :: split_sep s'
      else match split_sep s' with
           | w :: ws => (c :: w) :: ws
           | [] => [[c]]
           end
  end.
Fixpoint join_sep (l : list text) : text :=
  match l with
  | [] => []
  | [w] => w
  | w :: l' => w ++ sep :: join_sep l'
  end.

Definition text_mem (c : Z) (s : text) : bool := existsb (Z.eqb c) s.

(** [part.split(".")[0]] *)
Fixpoint before_dot (s : text) : text :=
  match s with
  | [] => []
  | c :: s' => if c =? dot then [] else c :: before_dot s'
  end.

(** [len(part.encode("utf-16-le"))] *)
Fixpoint utf16_len (s : text) : option Z :=
  match s with
  | [] => Some 0
  | c :: s' =>
      if surrogate c then None
      else match utf16_len s' with
           | Some n => Some (n + if c <? 65536 then 2 else 4)
           | None => None
           end
  end.

Definition WINDOWS_RESERVED : list text := map text_of
  ["CON"; "PRN"; "AUX"; "NUL";
   "COM1"; "COM2"; "COM3"; "COM4"; "COM5"; "COM6"; "COM7"; "COM8"; "COM9";
   "LPT1"; "LPT2"; "LPT3"; "LPT4"; "LPT5"; "LPT6"; "LPT7"; "LPT8"; "LPT9"]%string.

(** [< > : double quote | ? *] *)
Definition forbidden_chars : text := [60; 62; 58; 34; 124; 63; 42].

Definition ends_badly (part : text) : bool :=
  match last part with Some c => (c =? dot) || (c =? 32) | None => false end.

Section names.
Context `{UnicodeText}.

(** ** [_normalize_member] *)

Definition check_part (name part : text) : option package_error :=
  if bool_decide (part = []) || bool_decide (part = [dot]) || bool_decide (part = [dot; dot])
  then Some (RelativePart name)
  else if ends_badly part || existsb (λ c, (c <? 32) || text_mem c forbidden_chars) part
  then Some (NonportableName name)
  else if bool_decide (upper_text (before_dot part) ∈ WINDOWS_RESERVED)
  then Some (ReservedName name)
  else match utf16_len part with
       | None => Some NotEncodable
       | Some n => if 510 <? n then Some (NameTooLong name) else None
       end.

(** The first error of a loop over the parts. *)
Fixpoint check_parts (name : text) (parts : list text) : option package_error :=
  match parts with
  | [] => None
  | p :: ps => match check_part name p with Some e => Some e | None => check_parts name ps end
  end.

Definition starts_with_sep (name : text) : bool :=
  match name with c :: _ => c =? sep | [] => false end.

Definition normalize_member (name : text) : result package_error text :=
  if bool_decide (name = []) then Err EmptyName
  else if starts_with_sep name || text_mem 92 name then Err (AbsoluteName name)
  else
    let parts := split_sep name in
    if MAX_DEPTH <? Z.of_nat (List.length parts) then Err (TooDeep name)
    else match check_parts name parts with
         | Some e => Err e
         | None => Ok (join_sep parts)
         end.

(** ** [_validate_names] *)

(** The prefixes of a name by whole components, each with whether it is the
    name itself. *)
Fixpoint prefixes_from (done_parts parts : list text) : list (text * bool) :=
  match parts with
  | [] => []
  | p :: ps =>
      (join_sep (done_parts ++ [p]), bool_decide (ps = [])) :: prefixes_from (done_parts ++ [p]) ps
  end.
Definition prefixes (name : text) : list (text * bool) := prefixes_from [] (split_sep name).

Record seen := { spellings : pydict text text; files : list text; directories : list text }.

Definition nothing_seen : seen := {| spellings := []; files := []; directories := [] |}.

(** The spelling that a folded prefix was seen with must be this one. *)
Definition check_spelling (name : text) (s : seen) (prefix : text) : result package_error unit :=
  match dget (spellings s) (nfc_casefold prefix) with
  | Some spelled =>
      if bool_decide (spelled ≠ prefix) then Err (CaseCollision name spelled) else Ok tt
  | None => Ok tt
  end.

(** One turn of the inner loop. *)
Definition check_prefix (name : text) (s : seen) (p : text * bool) : result package_error seen :=
  let '(prefix, is_name) := p in
  let folded := nfc_casefold prefix in
  with? _ := check_spelling name s prefix in
  let spellings' := dput (spellings s) folded prefix in
  if negb is_name then
    if bool_decide (folded ∈ files s) then Err (FileIsParent name)
    else Ok {| spellings := spellings'; files := files s;
               directories := folded :: directories s |}
  else
    if bool_decide (folded ∈ files s) || bool_decide (folded ∈ directories s)
    then Err (DuplicateName name)
    else Ok {| spellings := spellings'; files := folded :: files s;
               directories := directories s |}.

Fixpoint check_prefixes (name : text) (s : seen) (ps : list (text * bool)) :
    result package_error seen :=
  match ps with
  | [] => Ok s
  | p :: ps' => with? s' := check_prefix name s p in check_prefixes name s' ps'
  end.

Fixpoint validate_from (s : seen) (names : list text) : result package_error seen :=
  match names with
  | [] => Ok s
  | n :: ns => with? s' := check_prefixes n s (prefixes n) in validate_from s' ns
  end.

Definition validate_names (names : list text) : result package_error unit :=
  with? _ := validate_from nothing_seen names in Ok tt.

(** ** [inspect_zip] *)

Record zip_info := {
  filename : text;
  external_attr : Z;
  create_system : Z;
  flag_bits : Z;
  file_size : Z;
}.
Record archive_entry := { relative_path : text; size : Z }.

Definition S_IFMT (mode : Z) : Z := Z.land mode 61440.
Definition S_IFREG : Z := 32768.
Definition S_IFDIR : Z := 16384.

Definition is_dir (info : zip_info) : bool :=
  match last (filename info) with Some c => c =? sep | None => false end.
Fixpoint rstrip_sep (s : text) : text :=
  match s with
  | [] => []
  | c :: s' => match rstrip_sep s' with
               | [] => if c =? sep then [] else [c]
               | r => c :: r
               end
  end.

(** One turn of the loop over the members: the entry it adds, if any. *)
Definition inspect_member (total : Z) (info : zip_info) :
    result package_error (option (text * Z) * Z) :=
  let mode := Z.land (Z.shiftr (external_attr info) 16) 65535 in
  let file_type := S_IFMT mode in
  if negb ((file_type =? 0) || (file_type =? S_IFREG) || (file_type =? S_IFDIR))
  then Err (SpecialFile (filename info))
  else if (create_system info =? 0) && negb (Z.land (external_attr info) 1024 =? 0)
  then Err (ReparsePoint (filename info))
  else if negb (Z.land (flag_bits info) 1 =? 0) then Err (EncryptedMember (filename info))
  else
    let name := if is_dir info then rstrip_sep (filename info) else filename info in
    with? norm := normalize_member name in
    if is_dir info then Ok (None, total)
    else if MAX_MEMBER_BYTES <? file_size info then Err (MemberTooLarge (filename info))
    else
      let total' := total + file_size info in
      if MAX_TOTAL_BYTES <? total' then Err TotalTooLarge
      else Ok (Some (norm, file_size info), total').

Fixpoint inspect_members (total : Z) (infos : list zip_info) :
    result package_error (list (text * Z)) :=
  match infos with
  | [] => Ok []
  | i :: is' =>
      with? (o, total') := inspect_member total i in
      with? rest := inspect_members total' is' in
      Ok (option_list o ++ rest)
  end.

Definition first_part (name : text) : text :=
  match split_sep name with p :: _ => p | [] => [] end.

(** The single root directory all members share, or the empty string. *)
Definition common_root (normalized : list (text * Z)) : text :=
  match fromkeys (map (λ n, first_part n.1) normalized) with
  | [root] => if forallb (λ n, text_mem sep n.1) normalized then root else []
  | _ => []
  end.

Definition inspect_zip (infos : list zip_info) : result package_error (list archive_entry * text) :=
  if MAX_MEMBERS <? Z.of_nat (List.length infos) then Err TooManyMembers
  else
    with? normalized := inspect_members 0 infos in
    if bool_decide (normalized = []) then Err EmptyArchive
    else
      let strip := common_root normalized in
      let entries := map (λ n,
        {| relative_path := if bool_decide (strip = []) then n.1
                            else drop (List.length strip + 1) n.1;
           size := n.2 |}) normalized in
      with? _ := validate_names (map relative_path entries) in
      Ok (entries, strip).

(** ** [write_files] *)

Inductive body : Type := Raw (data : bytes) | Utf8 (t : text).
Definition body_bytes (b : body) : option bytes :=
  match b with Raw data => Some data | Utf8 t => utf8_encode t end.

Fixpoint prepare_from (total : Z) (items : pydict text body) :
    result package_error (list (text * bytes)) :=
  match items with
  | [] => Ok []
  | (rel, b) :: items' =>
      with? norm := normalize_member rel in
      match body_bytes b with
      | None => Err NotEncodable
      | Some data =>
          let total' := total + Z.of_nat (List.length data) in
          if (MAX_MEMBER_BYTES <? Z.of_nat (List.length data)) || (MAX_TOTAL_BYTES <? total')
          then Err TotalTooLarge
          else with? rest := prepare_from total' items' in Ok ((norm, data) :: rest)
      end
  end.

Definition prepare_files (items : pydict text body) : result package_error (list (text * bytes)) :=
  if bool_decide (items = []) || (MAX_MEMBERS <? Z.of_nat (List.length items))
  then Err WrongCount
  else
    with? prepared := prepare_from 0 items in
    with? _ := validate_names prepared.*1 in
    Ok prepared.

End names.

(** The file system the files go to: which names it takes for the same, by giving
    them the same key, and which it can create at all (it refuses, for one, what is
    too long for it). *)
Record file_system := { same_name : text → text; admits : text → bool }.

(** The directory: one node per key. *)
Inductive node : Type := Folder | Contents (data : bytes).
Abbreviation tree := (pydict text node).

Section disk.
Context (fs : file_system).

(** [mkdir(exist_ok=True)] of one directory and [write_bytes].  An [OSError] leaves
    the tree as it is: the name is refused, or taken by the other kind of node. *)
Definition make_folder (t : tree) (p : text) : result tree tree :=
  if negb (admits fs p) then Err t
  else match dget t (same_name fs p) with
       | Some (Contents _) => Err t
       | Some Folder => Ok t
       | None => Ok (dput t (same_name fs p) Folder)
       end.
Definition write_bytes (t : tree) (p : text) (data : bytes) : result tree tree :=
  if negb (admits fs p) then Err t
  else match dget t (same_name fs p) with
       | Some Folder => Err t
       | _ => Ok (dput t (same_name fs p) (Contents data))
       end.

(** [target.parent.mkdir(parents=True)] makes the prefixes from the top down. *)
Fixpoint write_below (t : tree) (ps : list (text * bool)) (data : bytes) : result tree tree :=
  match ps with
  | [] => Ok t
  | (p, is_name) :: ps' =>
      with? t' := if is_name then write_bytes t p data else make_folder t p in
      write_below t' ps' data
  end.
Fixpoint write_prepared (t : tree) (prepared : list (text * bytes)) : result tree tree :=
  match prepared with
  | [] => Ok t
  | (name, data) :: rest =>
      with? t' := write_below t (prefixes name) data in
      write_prepared t' rest
  end.
End disk.

(** What was written before an [OSError] stays. *)
Inductive write_error : Type := Refused (e : package_error) | OsError (left : tree).

(** [write_files] into a directory that did not exist before. *)
Definition write_files `{UnicodeText} (fs : file_system) (items : pydict text body) :
    result write_error (list text * tree) :=
  match prepare_files items with
  | Err e => Err (Refused e)
  | Ok prepared =>
      match write_prepared fs [] prepared with
      | Ok t => Ok (prepared.*1, t)
      | Err t => Err (OsError t)
      end
  end.

End PackageFiles.
