(* ===== verification/PackageFilesThms.v ===== *)
(** * Package files: theorems

    Which names pass, that the collision check is the pairwise condition on the
    folders and files the names stand for, and that files that pass can be
    written and read back on a file system that folds case. *)

From S2P Require Import Prelude PyDict BinaryFiles PackageFiles.
From Stdlib Require Import Ascii String.

Import BinaryFiles PackageFiles.

(** ** Splitting and joining *)

Lemma split_sep_ne s : split_sep s ≠ [].
Proof. destruct s as [|c s]; cbn; [done|]. destruct (c =? sep); [done|]. by destruct (split_sep s). Qed.

Lemma join_split s : join_sep (split_sep s) = s.
Proof.
  induction s as [|c s IH]; [done|]. cbn [split_sep].
  pose proof (split_sep_ne s) as Hne. destruct (c =? sep) eqn:Ec.
  - apply Z.eqb_eq in Ec as ->. destruct (split_sep s) as [|w ws] eqn:E; [done|].
    change (join_sep ([] :: w :: ws)) with (sep :: join_sep (w :: ws)). by rewrite IH.
  - destruct (split_sep s) as [|w [|w' ws]]; [done|..]; cbn in *; congruence.
Qed.

Lemma split_cons s w ws :
  split_sep s = w :: ws → ws ≠ [] → split_sep (drop (List.length w + 1) s) = ws
                                     ∧ s = w ++ sep :: drop (List.length w + 1) s.
Proof.
  revert w. induction s as [|c s IH]; intros w; cbn [split_sep]; [by intros [= <- <-]|].
  destruct (c =? sep) eqn:Ec.
  - intros [= <- <-] _. cbn. apply Z.eqb_eq in Ec as ->. by rewrite drop_0.
  - pose proof (split_sep_ne s). destruct (split_sep s) as [|w0 ws0]; [done|].
    intros [= <- <-] Hne. destruct (IH w0 eq_refl Hne) as [H1 H2]. split; [done|].
    cbn. by f_equal.
Qed.

Lemma split_no_sep s w : split_sep s = [w] → text_mem sep s = false.
Proof.
  revert w. induction s as [|c s IH]; intros w; cbn [split_sep]; [done|].
  pose proof (split_sep_ne s). unfold text_mem. cbn [existsb].
  destruct (c =? sep) eqn:Ec; [intros [= <- E]; congruence|].
  rewrite Z.eqb_sym, Ec. cbn [orb].
  destruct (split_sep s) as [|w0 ws0]; [done|]. intros [= <- ->]. by eapply IH.
Qed.

(** ** Portable names *)

Section names.
Context `{UnicodeText}.

(** A component every platform takes. *)
Definition portable_part (part : text) : Prop :=
  part ∉ [[]; [dot]; [dot; dot]] ∧ ends_badly part = false ∧
  (∀ c, c ∈ part → 32 ≤ c ∧ c ∉ forbidden_chars) ∧
  upper_text (before_dot part) ∉ WINDOWS_RESERVED ∧
  ∃ n, utf16_len part = Some n ∧ n ≤ 510.

Definition portable_name (name : text) : Prop :=
  starts_with_sep name = false ∧ 92 ∉ name ∧
  Z.of_nat (List.length (split_sep name)) ≤ MAX_DEPTH ∧
  Forall portable_part (split_sep name).

Lemma text_mem_true c s : text_mem c s = true ↔ c ∈ s.
Proof.
  unfold text_mem. rewrite existsb_exists, list_elem_of_In. split.
  - intros (x & Hx & ->%Z.eqb_eq). done.
  - intros Hin. exists c. by rewrite Z.eqb_refl.
Qed.

Lemma text_mem_false c s : text_mem c s = false ↔ c ∉ s.
Proof. rewrite <- text_mem_true. by destruct (text_mem c s). Qed.

Lemma check_part_ok name part : check_part name part = None ↔ portable_part part.
Proof.
  unfold check_part, portable_part. rewrite !not_elem_of_cons.
  assert (Hc : existsb (λ c, (c <? 32) || text_mem c forbidden_chars) part = false ↔
    ∀ c, c ∈ part → 32 ≤ c ∧ c ∉ forbidden_chars).
  { rewrite <- not_true_iff_false, existsb_exists. split.
    - intros Hn c Hin. apply list_elem_of_In in Hin.
      split; [apply Z.nlt_ge; intros ?%Z.ltb_lt|rewrite <- text_mem_true; intros ?];
        apply Hn; exists c; split; auto using orb_true_intro.
    - intros Ha (c & Hin%list_elem_of_In & Hc). destruct (Ha c Hin) as [Hge Hf].
      rewrite <- text_mem_true in Hf. apply orb_true_iff in Hc as [Hlt|?]; [bool_simpl; lia|done]. }
  rewrite <- Hc. pose proof (not_elem_of_nil part).
  destruct (decide (part = [])) as [E1|E1].
  { rewrite (bool_decide_true _ E1). cbn [orb]. split; [done|]. by intros [[? _] _]. }
  destruct (decide (part = [dot])) as [E2|E2].
  { rewrite (bool_decide_true _ E2), orb_true_r. split; [done|]. by intros [(_ & ? & _) _]. }
  destruct (decide (part = [dot; dot])) as [E3|E3].
  { rewrite (bool_decide_true _ E3), orb_true_r. split; [done|]. by intros [(_ & _ & ? & _) _]. }
  rewrite !bool_decide_false by done. cbn [orb].
  destruct (ends_badly part); cbn [orb]; [by split; [|intros (_ & ? & _)]|].
  destruct (existsb _ part); [by split; [|intros (_ & _ & ? & _)]|].
  case_bool_decide; [by split; [|intros (_ & _ & _ & ? & _)]|].
  destruct (utf16_len part) as [n|]; [|by split; [|intros (_ & _ & _ & _ & ? & ? & _)]].
  destruct (510 <? n) eqn:En; bool_simpl; split; try done.
  - intros (_ & _ & _ & _ & ? & [= <-] & ?). lia.
  - intros _. split_and!; try done. by exists n.
Qed.

Lemma check_parts_ok name parts : check_parts name parts = None ↔ Forall portable_part parts.
Proof.
  induction parts as [|p ps IH]; cbn; [done|]. rewrite Forall_cons, <- IH, <- (check_part_ok name).
  by destruct (check_part name p); naive_solver.
Qed.

(** The check returns the name unchanged, or refuses it. *)
Lemma normalize_member_ok name m : normalize_member name = Ok m ↔ m = name ∧ portable_name name.
Proof.
  unfold normalize_member, portable_name.
  case_bool_decide as E0.
  { split; [done|]. intros (_ & _ & _ & _ & Hp). subst. cbn in Hp.
    apply Forall_cons in Hp as [[Hp _] _]. destruct Hp. left. }
  destruct (starts_with_sep name); cbn [orb]; [naive_solver|].
  destruct (text_mem 92 name) eqn:E1.
  { apply text_mem_true in E1. naive_solver. }
  apply text_mem_false in E1. destruct (MAX_DEPTH <? _) eqn:E2; bool_simpl.
  { split; [done|]. intros (_ & _ & _ & ? & _). lia. }
  rewrite <- (check_parts_ok name), join_split. destruct (check_parts name _); naive_solver.
Qed.

End names.

(** ** Collisions *)

(** The folders and files a list of names stands for, in order; [true] marks a
    file. *)
Definition occurrences (names : list text) : list (text * bool) := flat_map prefixes names.

Section collisions.
Context `{UnicodeText}.

(** Two occurrences may share their folded spelling only as one folder. *)
Definition compatible (e1 e2 : text * bool) : Prop :=
  nfc_casefold e1.1 = nfc_casefold e2.1 → e1.1 = e2.1 ∧ e1.2 = false ∧ e2.2 = false.

Definition collision_free (names : list text) : Prop :=
  ForallOrdPairs compatible (occurrences names).

(** What one turn of the loop asks of the state, and the state it leaves. *)
Definition passes (s : seen) (e : text * bool) : Prop :=
  (∀ q, dget (spellings s) (nfc_casefold e.1) = Some q → q = e.1) ∧
  nfc_casefold e.1 ∉ files s ∧ (e.2 = true → nfc_casefold e.1 ∉ directories s).
Definition noted (s : seen) (e : text * bool) : seen :=
  let folded := nfc_casefold e.1 in
  {| spellings := dput (spellings s) folded e.1;
     files := if e.2 then folded :: files s else files s;
     directories := if e.2 then directories s else folded :: directories s |}.

Lemma check_spelling_ok name s p :
  check_spelling name s p = Ok tt ↔ ∀ q, dget (spellings s) (nfc_casefold p) = Some q → q = p.
Proof.
  unfold check_spelling. destruct (dget (spellings s) (nfc_casefold p)) as [q|]; [|naive_solver].
  case_bool_decide; [|naive_solver]. split; [done|]. intros Hq. by destruct (Hq q).
Qed.

Lemma check_prefix_ok name s e s' :
  check_prefix name s e = Ok s' ↔ passes s e ∧ s' = noted s e.
Proof.
  destruct e as [p b]. unfold check_prefix, passes, noted. cbn [fst snd].
  rewrite <- (check_spelling_ok name).
  destruct (check_spelling name s p) as [[]|e]; [|split; [done|by intros [[? _] _]]].
  destruct b; cbn [negb]; repeat case_bool_decide; cbn [orb];
    (split; [try done; intros [= <-]|intros [(? & ? & ?) ->]]); try done; naive_solver.
Qed.

(** The state after the occurrences [past], the latest first. *)
Definition tracks (s : seen) (past : list (text * bool)) : Prop :=
  (∀ f q, dget (spellings s) f = Some q ↔ ∃ b, (q, b) ∈ past ∧ f = nfc_casefold q) ∧
  (∀ f, f ∈ files s ↔ ∃ q, (q, true) ∈ past ∧ f = nfc_casefold q) ∧
  (∀ f, f ∈ directories s ↔ ∃ q, (q, false) ∈ past ∧ f = nfc_casefold q).

Lemma tracks_passes s past e :
  tracks s past → passes s e ↔ Forall (λ e', compatible e' e) past.
Proof.
  intros (Hs & Hf & Hd). unfold passes, compatible. rewrite Forall_forall. split.
  - intros (H1 & H2 & H3) [q b] Hin Heq. cbn [fst snd] in *.
    assert (Hq : q = e.1) by (apply H1, Hs; eauto).
    assert (b = false) as ->.
    { destruct b; [|done]. destruct H2. apply Hf. eauto. }
    split_and!; [done..|]. destruct (e.2); [|done]. destruct H3; [done|]. apply Hd. eauto.
  - intros Ha. split_and!.
    + intros q (b & Hin & Heq)%Hs. by apply (Ha (q, b) Hin).
    + intros (q & Hin & Heq)%Hf. by destruct (Ha (q, true) Hin) as (_ & ? & _).
    + intros He (q & Hin & Heq)%Hd. destruct (Ha (q, false) Hin) as (_ & _ & ?); cbn in *; congruence.
Qed.

Lemma tracks_noted s past e :
  tracks s past → Forall (λ e', compatible e' e) past → tracks (noted s e) (e :: past).
Proof.
  intros (Hs & Hf & Hd) Hc. destruct e as [p b]. unfold noted. cbn [fst snd].
  rewrite Forall_forall in Hc. split_and!; cbn.
  - intros f q. rewrite dget_dput. case_bool_decide as E; [subst f; split|].
    + intros [= <-]. exists b. split; [left|done].
    + intros (b' & Hin & Heq). apply elem_of_cons in Hin as [?|Hin]; [by simplify_eq|].
      destruct (Hc (q, b') Hin) as [Hq _]; [done|]. by f_equal.
    + rewrite Hs. split; intros (b' & Hin & Heq); exists b'; (split; [|done]); [by right|].
      apply elem_of_cons in Hin as [?|?]; [by simplify_eq|done].
  - intros f. destruct b; rewrite ?elem_of_cons, Hf; setoid_rewrite elem_of_cons; naive_solver.
  - intros f. destruct b; rewrite ?elem_of_cons, Hd; setoid_rewrite elem_of_cons; naive_solver.
Qed.

(** The checks of a whole sequence of occurrences. *)
Fixpoint check_all (s : seen) (es : list (text * bool)) (s' : seen) : Prop :=
  match es with
  | [] => s' = s
  | e :: es' => passes s e ∧ check_all (noted s e) es' s'
  end.

Lemma check_all_app s es1 es2 s' :
  check_all s (es1 ++ es2) s' ↔ ∃ s1, check_all s es1 s1 ∧ check_all s1 es2 s'.
Proof. revert s. induction es1 as [|e es1 IH]; intros s; cbn; [|rewrite IH]; naive_solver. Qed.

Lemma check_prefixes_ok name s ps s' : check_prefixes name s ps = Ok s' ↔ check_all s ps s'.
Proof.
  revert s. induction ps as [|p ps IH]; intros s; cbn; [naive_solver|].
  rewrite <- IH. destruct (check_prefix name s p) as [s1|e] eqn:E.
  - apply check_prefix_ok in E as [Hp ->]. naive_solver.
  - split; [done|]. intros [Hp _].
    assert (check_prefix name s p = Ok (noted s p)) by by apply check_prefix_ok. congruence.
Qed.

Lemma validate_from_ok s names s' :
  validate_from s names = Ok s' ↔ check_all s (occurrences names) s'.
Proof.
  revert s. induction names as [|n ns IH]; intros s; cbn [validate_from]; [cbn; naive_solver|].
  change (occurrences (n :: ns)) with (prefixes n ++ occurrences ns).
  rewrite check_all_app. setoid_rewrite <- IH. setoid_rewrite <- (check_prefixes_ok n).
  destruct (check_prefixes n s (prefixes n)); naive_solver.
Qed.

Lemma check_all_compatible s past es :
  tracks s past →
  (∃ s', check_all s es s') ↔
  Forall (λ e, Forall (λ e', compatible e' e) past) es ∧ ForallOrdPairs compatible es.
Proof.
  revert s past. induction es as [|e es IH]; intros s past Ht; cbn.
  { split; [intros _; split; [done|constructor]|by eauto]. }
  rewrite Forall_cons, <- (tracks_passes s past e Ht). split.
  - intros (s' & Hp & Hall). assert (Hc := proj1 (tracks_passes s past e Ht) Hp).
    destruct (proj1 (IH _ _ (tracks_noted s past e Ht Hc)) (ex_intro _ _ Hall)) as [Ha Ho].
    split; [split; [done|]|constructor; [|done]];
      (eapply Forall_impl; [exact Ha|]); intros e' He'; by apply Forall_cons in He' as [??].
  - intros ((Hp & Ha) & Ho). assert (Hc := proj1 (tracks_passes s past e Ht) Hp).
    inversion_clear Ho as [|?? He Ho'].
    destruct (proj2 (IH _ _ (tracks_noted s past e Ht Hc))) as [s' Hs']; [|by exists s'].
    split; [|done]. rewrite Forall_forall in Ha |- *. rewrite List.Forall_forall in He.
    intros e' Hin. constructor; [apply He; by apply list_elem_of_In|by apply Ha].
Qed.

Lemma validate_names_ok names : validate_names names = Ok tt ↔ collision_free names.
Proof.
  unfold validate_names, collision_free.
  assert (Ht : tracks nothing_seen []).
  { split_and!; cbn; [intros f q|intros f..];
      (split; [intros Hn; by first [done|apply not_elem_of_nil in Hn]
              |intros (? & Hn & _); by apply not_elem_of_nil in Hn]). }
  assert (Hc := check_all_compatible _ _ (occurrences names) Ht).
  setoid_rewrite <- validate_from_ok in Hc.
  assert (Hnil : Forall (λ e, Forall (λ e', compatible e' e) []) (occurrences names)).
  { apply Forall_forall. constructor. }
  destruct (validate_from nothing_seen names) as [s'|e]; [|split; [done|]].
  - split; [|done]. intros _. apply Hc. by exists s'.
  - intros Ho. destruct Hc as [_ Hc]. by destruct Hc as [? ?].
Qed.

End collisions.

(** ** Writing *)

Lemma prefixes_from_name acc parts :
  parts ≠ [] → (join_sep (acc ++ parts), true) ∈ prefixes_from acc parts.
Proof.
  revert acc. induction parts as [|p ps IH]; intros acc Hne; [done|]. cbn.
  destruct ps as [|p' ps]; [rewrite bool_decide_true by done; left|].
  right. specialize (IH (acc ++ [p])). rewrite <- app_assoc in IH. by apply IH.
Qed.

Lemma prefixes_from_file acc parts q :
  (q, true) ∈ prefixes_from acc parts → q = join_sep (acc ++ parts).
Proof.
  revert acc. induction parts as [|p ps IH]; intros acc; cbn; [by intros ?%not_elem_of_nil|].
  intros [Heq|Hin]%elem_of_cons.
  - injection Heq as -> Hb. symmetry in Hb. apply bool_decide_eq_true in Hb as ->. done.
  - apply IH in Hin. by rewrite <- app_assoc in Hin.
Qed.

Lemma prefixes_file name q : (q, true) ∈ prefixes name ↔ q = name.
Proof.
  unfold prefixes. split.
  - intros Hin%prefixes_from_file. by rewrite app_nil_l, join_split in Hin.
  - intros ->. rewrite <- (join_split name) at 1. apply (prefixes_from_name []), split_sep_ne.
Qed.

Definition is_contents (n : node) : bool := match n with Contents _ => true | Folder => false end.

(** The node each prefix of a prepared file becomes, in order. *)
Definition node_of (data : bytes) (e : text * bool) : text * node :=
  (e.1, if e.2 then Contents data else Folder).
Definition nodes_of (prepared : list (text * bytes)) : list (text * node) :=
  flat_map (λ f, map (node_of f.2) (prefixes f.1)) prepared.

Lemma nodes_of_occurrences prepared :
  map (λ w, (w.1, is_contents w.2)) (nodes_of prepared) = occurrences prepared.*1.
Proof.
  unfold nodes_of, occurrences. induction prepared as [|[n d] l IH]; cbn; [done|].
  rewrite map_app, IH, map_map. f_equal. rewrite <- (map_id (prefixes n)) at 2.
  apply map_ext. by intros [p []].
Qed.

Lemma elem_of_nodes_of prepared p n :
  (p, n) ∈ nodes_of prepared ↔
  ∃ name data b, (name, data) ∈ prepared ∧ (p, b) ∈ prefixes name ∧
                 n = if b : bool then Contents data else Folder.
Proof.
  unfold nodes_of. rewrite list_elem_of_In, in_flat_map. split.
  - intros ([name data] & Hin & ([q b] & Heq & Hq)%in_map_iff). injection Heq as <- <-.
    exists name, data, b. rewrite !list_elem_of_In. done.
  - intros (name & data & b & Hin%list_elem_of_In & Hq%list_elem_of_In & ->).
    exists (name, data). split; [done|]. apply in_map_iff. by exists (p, b).
Qed.

Section disk.
Context (fs : file_system).
Abbreviation same := (same_name fs).

Definition write_node (t : tree) (w : text * node) : result tree tree :=
  match w.2 with Contents d => write_bytes fs t w.1 d | Folder => make_folder fs t w.1 end.
Fixpoint write_nodes (t : tree) (ws : list (text * node)) : result tree tree :=
  match ws with
  | [] => Ok t
  | w :: ws' => match write_node t w with Ok t' => write_nodes t' ws' | Err t' => Err t' end
  end.

Lemma write_nodes_app t ws1 ws2 :
  write_nodes t (ws1 ++ ws2) =
  match write_nodes t ws1 with Ok t' => write_nodes t' ws2 | Err t' => Err t' end.
Proof. revert t. induction ws1 as [|w ws IH]; intros t; cbn; [done|]. destruct (write_node t w); auto. Qed.

Lemma write_prepared_nodes t prepared :
  write_prepared fs t prepared = write_nodes t (nodes_of prepared).
Proof.
  assert (Hb : ∀ ps d t, write_below fs t ps d = write_nodes t (map (node_of d) ps)).
  { induction ps as [|[p b] ps IH]; intros d t0; cbn; [done|].
    unfold write_node, node_of. cbn. destruct b; case_match; auto. }
  revert t. induction prepared as [|[n d] l IH]; intros t; [done|].
  cbn [write_prepared]. change (nodes_of ((n, d) :: l)) with (map (node_of d) (prefixes n) ++ nodes_of l).
  rewrite write_nodes_app, <- Hb. case_match; auto.
Qed.

(** Two writes do not get in each other's way. *)
Definition apart (w1 w2 : text * node) : Prop :=
  same w1.1 = same w2.1 → w1.1 = w2.1 ∧ w1.2 = Folder ∧ w2.2 = Folder.

(** The tree holds the writes so far, and nothing else. *)
Definition holds_writes (t : tree) (past : list (text * node)) : Prop :=
  (∀ p n, (p, n) ∈ past → dget t (same p) = Some n) ∧
  (∀ k n, dget t k = Some n → ∃ p, (p, n) ∈ past ∧ same p = k).

Lemma write_node_refused t w : admits fs w.1 = false → write_node t w = Err t.
Proof. intros E. unfold write_node, write_bytes, make_folder. rewrite E. by destruct w.2. Qed.

Lemma write_node_holds t past w :
  holds_writes t past → Forall (λ w', apart w' w) past → admits fs w.1 = true →
  ∃ t', write_node t w = Ok t' ∧ holds_writes t' (w :: past).
Proof.
  intros [H1 H2] Ha Hadm. rewrite Forall_forall in Ha. destruct w as [p n]. cbn in Hadm.
  assert (Hold : ∀ n', dget t (same p) = Some n' → (p, n') ∈ past ∧ n' = Folder ∧ n = Folder).
  { intros n' (q & Hq & Heq)%H2. destruct (Ha _ Hq Heq) as (Hqp & Hn' & Hn). cbn in *. by subst. }
  unfold write_node, write_bytes, make_folder. cbn [fst snd]. rewrite Hadm. cbn [negb].
  assert (Hnew : dget t (same p) = None → holds_writes (dput t (same p) n) ((p, n) :: past)).
  { intros Hnone. split.
    - intros q m [?|Hin]%elem_of_cons; simplify_eq; [apply dget_dput_eq|].
      rewrite dget_dput_ne; [by apply H1|]. intros Heq. apply H1 in Hin. congruence.
    - intros k m. rewrite dget_dput. case_bool_decide as Hk.
      + intros [= <-]. exists p. split; [left|done].
      + intros (q & Hq & Heq)%H2. exists q. split; [by right|done]. }
  destruct (dget t (same p)) as [n'|] eqn:E.
  - destruct (Hold n') as (Hin & -> & ->); [done|]. exists t. split; [done|]. split.
    + intros q m [?|Hq]%elem_of_cons; simplify_eq; auto.
    + intros k m (q & Hq & Heq)%H2. exists q. split; [by right|done].
  - destruct n; eexists; (split; [done|]); by apply Hnew.
Qed.

(** Every write is done, or those before the first name that is refused. *)
Lemma write_nodes_holds t past ws :
  holds_writes t past → Forall (λ w, Forall (λ w', apart w' w) past) ws →
  ForallOrdPairs apart ws →
  if forallb (λ w, admits fs w.1) ws
  then ∃ t', write_nodes t ws = Ok t' ∧ holds_writes t' (rev ws ++ past)
  else ∃ t' ws1, write_nodes t ws = Err t' ∧ ws1 ⊆ ws ∧ holds_writes t' (rev ws1 ++ past).
Proof.
  revert t past. induction ws as [|w ws IH]; intros t past Ht Hp Ho; cbn; [by eauto|].
  apply Forall_cons in Hp as [Hw Hp]. inversion_clear Ho as [|?? Hw' Ho'].
  destruct (admits fs w.1) eqn:Hadm; cbn [andb].
  2: { exists t, []. rewrite write_node_refused by done. split_and!; [done|set_solver|done]. }
  destruct (write_node_holds t past w) as (t1 & -> & Ht1); [done..|].
  assert (Hnext : Forall (λ w2, Forall (λ w', apart w' w2) (w :: past)) ws).
  { rewrite Forall_forall in Hp |- *. rewrite List.Forall_forall in Hw'. intros w2 Hin.
    constructor; [by apply Hw', list_elem_of_In|by apply Hp]. }
  specialize (IH t1 (w :: past) Ht1 Hnext Ho'). destruct (forallb _ ws).
  - destruct IH as (t2 & -> & Ht2). exists t2. split; [done|]. by rewrite <- app_assoc.
  - destruct IH as (t2 & ws1 & -> & Hsub & Ht2). exists t2, (w :: ws1).
    split_and!; [done|set_solver|]. cbn. by rewrite <- app_assoc.
Qed.

End disk.

Section writing.
Context `{UnicodeText}.

Lemma prepare_from_ok total items prepared :
  prepare_from total items = Ok prepared →
  Forall2 (λ it pr, pr.1 = it.1 ∧ portable_name it.1 ∧ body_bytes it.2 = Some pr.2) items prepared.
Proof.
  revert total prepared. induction items as [|[rel b] items IH]; intros total prepared; cbn.
  { intros [= <-]. constructor. }
  destruct (normalize_member rel) as [norm|e] eqn:En; [|done].
  apply normalize_member_ok in En as [-> Hp].
  destruct (body_bytes b) as [data|] eqn:Eb; [|done].
  destruct (_ || _); [done|]. destruct (prepare_from _ items) as [rest|e] eqn:Er; [|done].
  intros [= <-]. constructor; [done|]. by eapply IH.
Qed.

Lemma prepare_files_ok items prepared :
  prepare_files items = Ok prepared →
  collision_free prepared.*1 ∧
  Forall2 (λ it pr, pr.1 = it.1 ∧ portable_name it.1 ∧ body_bytes it.2 = Some pr.2) items prepared.
Proof.
  unfold prepare_files. destruct (_ || _); [done|].
  destruct (prepare_from 0 items) as [pr|e] eqn:E; [|done].
  destruct (validate_names pr.*1) as [[]|e] eqn:Ev; [|done].
  intros [= <-]. split; [by apply validate_names_ok|by eapply prepare_from_ok].
Qed.

Lemma ForallOrdPairs_map {A B} (f : A → B) (R : B → B → Prop) (R' : A → A → Prop) l :
  (∀ x y, R (f x) (f y) → R' x y) → ForallOrdPairs R (map f l) → ForallOrdPairs R' l.
Proof.
  intros Himp. induction l as [|x l IH]; cbn; intros Ho; [constructor|].
  inversion_clear Ho as [|?? Hx Ho']. constructor; [|by apply IH].
  rewrite List.Forall_forall in Hx |- *. intros y Hy. by apply Himp, Hx, in_map.
Qed.

Lemma write_prepared_holds fs prepared :
  (∀ a b, same_name fs a = same_name fs b → nfc_casefold a = nfc_casefold b) →
  collision_free prepared.*1 →
  if forallb (λ w, admits fs w.1) (nodes_of prepared)
  then ∃ t, write_prepared fs [] prepared = Ok t ∧ holds_writes fs t (rev (nodes_of prepared))
  else ∃ t ws, write_prepared fs [] prepared = Err t ∧ ws ⊆ nodes_of prepared ∧ holds_writes fs t (rev ws).
Proof.
  intros Hs Hc. rewrite write_prepared_nodes.
  assert (Ho : ForallOrdPairs (apart fs) (nodes_of prepared)).
  { unfold collision_free in Hc. rewrite <- nodes_of_occurrences in Hc.
    eapply ForallOrdPairs_map; [|exact Hc].
    intros [p n] [q m] Hcomp Heq. destruct (Hcomp (Hs _ _ Heq)) as (? & Hn & Hm). cbn in *.
    split_and!; [done|by destruct n|by destruct m]. }
  assert (Hempty : holds_writes fs [] []) by (by split; [intros ?? ?%not_elem_of_nil|]).
  assert (Hnone : Forall (λ w, Forall (λ w', apart fs w' w) []) (nodes_of prepared)).
  { apply Forall_forall. constructor. }
  pose proof (write_nodes_holds fs [] [] _ Hempty Hnone Ho) as Hw. destruct (forallb _ _).
  - destruct Hw as (t & E & Hh). rewrite app_nil_r in Hh. by exists t.
  - destruct Hw as (t & ws & E & Hsub & Hh). rewrite app_nil_r in Hh. by exists t, ws.
Qed.

End writing.

(** ** Theorems *)

Lemma prepared_names `{UnicodeText} items prepared :
  Forall2 (λ it pr, pr.1 = it.1 ∧ portable_name it.1 ∧ body_bytes it.2 = Some pr.2) items prepared →
  prepared.*1 = items.*1.
Proof. induction 1 as [|it pr its prs (He & _) _ IH]; cbn; [done|]. by rewrite He, IH. Qed.

(** The file system can create every file of the package and every directory on
    the way to one. *)
Definition names_admitted (fs : file_system) (names : list text) : bool :=
  forallb (λ n, forallb (λ p, admits fs p.1) (prefixes n)) names.

Lemma nodes_admitted fs prepared :
  forallb (λ w, admits fs w.1) (nodes_of prepared) = names_admitted fs prepared.*1.
Proof.
  assert (Hp : ∀ d ps, forallb (λ w, admits fs w.1) (map (node_of d) ps) = forallb (λ p, admits fs p.1) ps).
  { intros d ps. induction ps as [|[p b] ps IH]; [done|]. cbn. by rewrite IH. }
  unfold names_admitted, nodes_of. induction prepared as [|[n d] l IH]; [done|].
  cbn [flat_map fmap list_fmap forallb fst snd]. by rewrite forallb_app, Hp, IH.
Qed.

(** Every file in the tree is a file of the package, with its bytes. *)
Definition only_items (fs : file_system) (items : pydict text body) (t : tree) : Prop :=
  ∀ key data, dget t key = Some (Contents data) →
    ∃ name b, (name, b) ∈ items ∧ body_bytes b = Some data ∧ same_name fs name = key.

Lemma holds_only_items `{UnicodeText} fs items prepared ws t :
  Forall2 (λ it pr, pr.1 = it.1 ∧ portable_name it.1 ∧ body_bytes it.2 = Some pr.2) items prepared →
  ws ⊆ nodes_of prepared → holds_writes fs t (rev ws) → only_items fs items t.
Proof.
  intros Hf Hsub [_ H2] key data (p & Hin & Hk)%H2.
  rewrite list_elem_of_In, <- in_rev, <- list_elem_of_In in Hin. apply Hsub, elem_of_nodes_of in Hin.
  destruct Hin as (name & d & [] & Hin & Hp & [= <-]). apply prefixes_file in Hp as ->.
  destruct (list_elem_of_lookup_1 _ _ Hin) as [i Hi].
  destruct (Forall2_lookup_r _ _ _ _ _ Hf Hi) as ([n b] & Hi' & Hn & _ & Hd). cbn in *.
  exists n, b. subst n. split_and!; [by eapply list_elem_of_lookup_2|done|done].
Qed.

(** C20: writing a package refuses it before anything is written, or, on a file
    system that can create its names and takes for the same name at most what case
    folding does, ends with every file readable under its name with the bytes
    given, and with no other file.  If the file system cannot create one of the
    names, writing fails with an [OSError] and leaves some of the files, each with
    its bytes, and no other file: names are checked against the limits of UTF-16
    file systems only (see [long_name_leaves_half_a_package]). *)
Theorem written_package_reads_back `{UnicodeText} fs items :
  (∀ a b, same_name fs a = same_name fs b → nfc_casefold a = nfc_casefold b) →
  match prepare_files items with
  | Err e => write_files fs items = Err (Refused e)
  | Ok _ =>
      if names_admitted fs items.*1
      then ∃ t, write_files fs items = Ok (items.*1, t) ∧ only_items fs items t ∧
             ∀ name b data, (name, b) ∈ items → body_bytes b = Some data →
               dget t (same_name fs name) = Some (Contents data)
      else ∃ t, write_files fs items = Err (OsError t) ∧ only_items fs items t
  end.
Proof.
  intros Hs. unfold write_files.
  destruct (prepare_files items) as [prepared|e] eqn:E; [|done].
  apply prepare_files_ok in E as [Hc Hf].
  pose proof (write_prepared_holds fs prepared Hs Hc) as Hw.
  rewrite nodes_admitted, (prepared_names _ _ Hf) in Hw. destruct (names_admitted fs items.*1).
  - destruct Hw as (t & -> & Hh). exists t. rewrite (prepared_names _ _ Hf). split_and!; [done| |].
    + eapply holds_only_items; [exact Hf| |exact Hh]. done.
    + destruct Hh as [H1 _]. intros name b data Hin Hb. apply H1.
      rewrite list_elem_of_In, <- in_rev, <- list_elem_of_In, elem_of_nodes_of.
      destruct (list_elem_of_lookup_1 _ _ Hin) as [i Hi].
      destruct (Forall2_lookup_l _ _ _ _ _ Hf Hi) as ([n d] & Hi' & Hn & _ & Hd). cbn in *.
      exists name, data, true. split_and!; [|by apply prefixes_file|done].
      simplify_eq. by eapply list_elem_of_lookup_2.
  - destruct Hw as (t & ws & -> & Hsub & Hh). exists t. split; [done|]. by eapply holds_only_items.
Qed.

#[local] Instance ascii_unicode : UnicodeText := {
  lower_text := map (λ c, if (65 <=? c) && (c <=? 90) then c + 32 else c);
  upper_text := map (λ c, if (97 <=? c) && (c <=? 122) then c - 32 else c);
  nfc_casefold := map (λ c, if (65 <=? c) && (c <=? 90) then c + 32 else c);
}.

Definition sample_items : pydict text body :=
  [(text_of "SKILL.md", Utf8 (text_of "hello")); (text_of "lib/a.bin", Raw [0; 255]);
   (text_of "lib/b.py", Utf8 [])].

Definition folding_disk : file_system := {| same_name := nfc_casefold; admits := λ _, true |}.

Lemma written_package_reads_back_witness :
  ∃ t, write_files folding_disk sample_items = Ok (sample_items.*1, t) ∧
       dget t (text_of "lib/a.bin") = Some (Contents [0; 255]).
Proof.
  destruct (written_package_reads_back folding_disk sample_items (λ a b E, E)) as (t & E & _ & H).
  exists t. split; [exact E|]. apply (H (text_of "lib/a.bin") (Raw [0; 255])); [|reflexivity].
  right. left.
Defined.

(** A file name of 200 Chinese characters passes the check, which allows 510 bytes
    of UTF-16; a file system that takes names of at most 255 bytes of UTF-8
    refuses it, and the files before it are left behind. *)
Definition bytes_disk : file_system :=
  {| same_name := λ n, n;
     admits := λ p, match utf8_encode (last_component p) with
                    | Some b => Z.of_nat (List.length b) <=? 255
                    | None => false
                    end |}.
Definition long_items : pydict text body :=
  [(text_of "SKILL.md", Utf8 (text_of "hello")); (replicate 200 20013, Utf8 [])].

Theorem long_name_leaves_half_a_package :
  is_ok (prepare_files long_items) = true ∧
  write_files bytes_disk long_items = Err (OsError [(text_of "SKILL.md", Contents (text_of "hello"))]).
Proof. split; vm_compute; reflexivity. Qed.

(** *** Zip directories *)

Section zip.
Context `{UnicodeText}.

Definition member_names (infos : list zip_info) : list text :=
  map filename (List.filter (λ i, negb (is_dir i)) infos).
Definition sum_sizes (l : list (text * Z)) : Z := foldr (λ n s, n.2 + s) 0 l.

(** No link, device or reparse point, and not encrypted. *)
Definition plain_member (i : zip_info) : bool :=
  let file_type := S_IFMT (Z.land (Z.shiftr (external_attr i) 16) 65535) in
  ((file_type =? 0) || (file_type =? S_IFREG) || (file_type =? S_IFDIR)) &&
  negb ((create_system i =? 0) && negb (Z.land (external_attr i) 1024 =? 0)) &&
  (Z.land (flag_bits i) 1 =? 0).

Lemma inspect_member_ok total i o total' :
  inspect_member total i = Ok (o, total') →
  plain_member i = true ∧
  if is_dir i then o = None ∧ total' = total
  else o = Some (filename i, file_size i) ∧ portable_name (filename i) ∧
       file_size i ≤ MAX_MEMBER_BYTES ∧ total' = total + file_size i ∧ total' ≤ MAX_TOTAL_BYTES.
Proof.
  unfold inspect_member, plain_member.
  destruct (_ || _ || _); cbn [negb andb]; [|done].
  destruct ((create_system i =? 0) && _); cbn [negb andb]; [done|].
  destruct (Z.land (flag_bits i) 1 =? 0); cbn [negb]; [|done].
  destruct (is_dir i); destruct (normalize_member _) as [norm|e] eqn:En; try done.
  { by intros [= <- <-]. }
  apply normalize_member_ok in En as [-> Hp].
  destruct (MAX_MEMBER_BYTES <? _) eqn:E1; [done|].
  destruct (MAX_TOTAL_BYTES <? _) eqn:E2; [done|]. bool_simpl.
  intros [= <- <-]. by split_and!.
Qed.

Lemma inspect_members_ok infos total l :
  inspect_members total infos = Ok l →
  l.*1 = member_names infos ∧ Forall (λ i, plain_member i = true) infos ∧
  Forall (λ n, portable_name n.1 ∧ n.2 ≤ MAX_MEMBER_BYTES) l ∧
  (l ≠ [] → Forall (λ i, 0 ≤ file_size i) infos → total + sum_sizes l ≤ MAX_TOTAL_BYTES).
Proof.
  revert total l. induction infos as [|i infos IH]; intros total l; cbn [inspect_members].
  { intros [= <-]. by split_and!. }
  destruct (inspect_member total i) as [[o total']|e] eqn:Ei; [|done].
  destruct (inspect_members total' infos) as [rest|e] eqn:Er; [|done]. intros [= <-].
  destruct (IH _ _ Er) as (Hn & Hm & Hp & Hs).
  apply inspect_member_ok in Ei as [Hi Ei]. unfold member_names. cbn [List.filter].
  destruct (is_dir i); cbn [negb].
  - destruct Ei as [-> ->]. cbn. split_and!; [done|by constructor|done|].
    intros Hne Hpos. apply Forall_cons in Hpos as [_ Hpos]. auto.
  - destruct Ei as (-> & Hport & Hle & -> & Htot). cbn. split_and!.
    + f_equal. done.
    + by constructor.
    + by constructor.
    + intros _ Hpos. apply Forall_cons in Hpos as [_ Hpos].
      destruct rest as [|r rest]; [cbn; lia|]. cbn in *. specialize (Hs ltac:(done) Hpos). lia.
Qed.

Lemma portable_tail name w ws :
  portable_name name → split_sep name = w :: ws → ws ≠ [] →
  portable_name (drop (List.length w + 1) name).
Proof.
  intros (Hs & Hb & Hd & Hp) E Hne. destruct (split_cons _ _ _ E Hne) as [E' Hname].
  unfold portable_name. rewrite E in Hd, Hp. rewrite E'.
  apply Forall_cons in Hp as [_ Hp]. split_and!; [| |cbn in Hd; lia|done].
  - set (rest := drop _ _) in *. destruct rest as [|c rest]; [done|]. cbn in *.
    destruct (c =? sep) eqn:Ec; [|done]. subst ws. apply Forall_cons in Hp as [[Hp _] _].
    destruct Hp. left.
  - intros Hin. apply Hb. rewrite Hname. apply elem_of_app. right. by right.
Qed.

(** The root that is stripped is the first component of every member, and each
    has more components. *)
Lemma common_root_spec l n :
  common_root l ≠ [] → n ∈ l → ∃ ws, split_sep n.1 = common_root l :: ws ∧ ws ≠ [].
Proof.
  unfold common_root. intros Hne Hin.
  destruct (fromkeys _) as [|root [|]] eqn:Ek; [done| |done].
  destruct (forallb _ l) eqn:Ef; [|done].
  assert (Hroot : first_part n.1 = root).
  { apply (list_elem_of_fmap_2 (λ n, first_part n.1)) in Hin.
    apply (elem_of_fromkeys (map (λ n, first_part n.1) l)) in Hin. rewrite Ek in Hin.
    by apply list_elem_of_singleton in Hin. }
  rewrite forallb_forall in Ef. specialize (Ef n (proj1 (list_elem_of_In _ _) Hin)).
  unfold first_part in Hroot. destruct (split_sep n.1) as [|w ws] eqn:E; [done|].
  exists ws. split; [by subst|]. intros ->. apply split_no_sep in E. congruence.
Qed.

Lemma sum_entries (f : text * Z → text) l :
  foldr (λ e s, size e + s) 0 (map (λ n, {| relative_path := f n; size := n.2 |}) l) = sum_sizes l.
Proof. induction l as [|n l IH]; cbn; [done|]. by rewrite IH. Qed.

(** C21: a zip that passes inspection has only plain members within the limits,
    and its entries are the files of the zip in order, below the common root
    that is stripped, all with portable names that do not collide. *)
Theorem inspected_zip_safe infos entries strip :
  Forall (λ i, 0 ≤ file_size i) infos → inspect_zip infos = Ok (entries, strip) →
  Forall (λ i, plain_member i = true) infos ∧ entries ≠ [] ∧
  map (λ e, (if bool_decide (strip = []) then relative_path e
             else strip ++ sep :: relative_path e)) entries = member_names infos ∧
  Forall (λ e, portable_name (relative_path e) ∧ size e ≤ MAX_MEMBER_BYTES) entries ∧
  collision_free (map relative_path entries) ∧
  foldr (λ e s, size e + s) 0 entries ≤ MAX_TOTAL_BYTES.
Proof.
  intros Hpos. unfold inspect_zip. destruct (MAX_MEMBERS <? _); [done|].
  destruct (inspect_members 0 infos) as [l|e] eqn:El; [|done].
  destruct (inspect_members_ok _ _ _ El) as (Hn & Hm & Hp & Hs).
  case_bool_decide as Hne; [done|]. specialize (Hs Hne Hpos).
  destruct (validate_names _) as [[]|e] eqn:Ev; [|done]. intros [= <- <-].
  assert (Hroot := common_root_spec l). set (root := common_root l) in *.
  split_and!; [done|by destruct l| | |by apply validate_names_ok|].
  - rewrite <- Hn, map_map. apply map_ext_in. intros n Hin%list_elem_of_In. cbn.
    case_bool_decide as Hr; [done|]. destruct (Hroot n Hr Hin) as (ws & E & Hws).
    by destruct (split_cons _ _ _ E Hws) as [_ <-].
  - apply Forall_forall. intros e (n & -> & Hin)%list_elem_of_fmap.
    rewrite Forall_forall in Hp. destruct (Hp n Hin) as [Hport Hle]. split; [|done]. cbn.
    case_bool_decide as Hr; [done|]. destruct (Hroot n Hr Hin) as (ws & E & Hws).
    by eapply portable_tail.
  - etrans; [apply Z.eq_le_incl, sum_entries|lia].
Qed.

End zip.

Definition sample_zip : list zip_info :=
  map (λ ns, {| filename := text_of ns.1; external_attr := 0; create_system := 3;
                flag_bits := 0; file_size := ns.2 |})
    [("pkg/"%string, 0); ("pkg/SKILL.md"%string, 5); ("pkg/lib/a.py"%string, 7)].

Lemma inspected_zip_safe_witness :
  Forall (λ i, plain_member i = true) sample_zip ∧
  collision_free [text_of "SKILL.md"; text_of "lib/a.py"].
Proof.
  destruct (inspected_zip_safe sample_zip
    [{| relative_path := text_of "SKILL.md"; size := 5 |};
     {| relative_path := text_of "lib/a.py"; size := 7 |}] (text_of "pkg")) as (H1 & _ & _ & _ & H2 & _).
  - repeat constructor; cbn; lia.
  - vm_compute. reflexivity.
  - split; [exact H1|exact H2].
Defined.
