(* ===== verification/FileMerge.v ===== *)
(** * Merging two copies of a package: [core/capabilities/change_merge.py]

    A package exists on the device and in the cloud; the last version both had
    in common, where there is one, is the base.  [plan] compares them file by
    file, [resolve] applies the user's choices to what [plan] leaves open. *)

From S2P Require Import Prelude PyDict BinaryFiles PackageFiles.
From Stdlib Require Import Ascii String.

Module FileMerge.
Import BinaryFiles PackageFiles.

(** The files of a package by path, in the order of the dict. *)
Abbreviation files := (pydict text text).

(** [ValueError] and [IntegrityFailed] by their cause. *)
Inductive merge_error : Type :=
| InvalidCollection
| BadName (e : package_error)
| UndecodableFile (name : text)
| FileTooLarge (name : text)
| CollectionTooLarge
| UnknownChoice
| UnresolvedConflict (path : text)
| ManualNeedsText (path : text)
| AlternateExists (path : text)
| DeletedTwice (path : text)
| InvalidResolution (path : text).

(** A choice of the user for one path: what its JSON object holds. *)
Record choice := {
  choice_side : option text;
  choice_content : option text;     (* [None] also for a value that is no string *)
  choice_alternate : option text;
}.
Abbreviation choices_t := (pydict text (option choice)).

(** ** [validate_files] *)

Section validate.
Context `{UnicodeText}.

Fixpoint validate_members (size : Z) (fs : files) : result merge_error (list text) :=
  match fs with
  | [] => Ok []
  | (name, value) :: fs' =>
      match normalize_member name with
      | Err e => Err (BadName e)
      | Ok norm =>
          match member_bytes value with
          | None => Err (UndecodableFile name)
          | Some data =>
              let member_size := Z.of_nat (List.length data) in
              let size' := size + member_size in
              if MAX_MEMBER_BYTES <? member_size then Err (FileTooLarge name)
              else if MAX_TOTAL_BYTES <? size' then Err CollectionTooLarge
              else with? names := validate_members size' fs' in Ok (norm :: names)
          end
      end
  end.

Definition validate_files (fs : files) : result merge_error files :=
  if MAX_MEMBERS <? Z.of_nat (List.length fs) then Err InvalidCollection
  else
    with? names := validate_members 0 fs in
    match validate_names names with
    | Ok _ => Ok fs
    | Err e => Err (BadName e)
    end.

(** ** [plan] *)

Inductive row_side : Type := Same | FromCloud | FromLocal | Conflict.

Record change := {
  row_path : text;
  row_side_of : row_side;
  row_conflict : bool;
  row_base : option text;
  row_local : option text;
  row_cloud : option text;
  row_binary : bool;
}.

Definition base_get (base : option files) (path : text) : option text :=
  match base with Some b => dget b path | None => None end.
Definition base_keys (base : option files) : list text :=
  match base with Some b => b.*1 | None => [] end.

(** Every path of the three versions, once, in order. *)
Definition all_paths (base : option files) (local cloud : files) : list text :=
  order_by text_leb (fromkeys (base_keys base ++ local.*1 ++ cloud.*1)).

(** What is selected at a path, from which side, and whether it is a conflict. *)
Definition select (known_base : bool) (before here there : option text) :
    option text * row_side * bool :=
  if bool_decide (here = there) then (here, Same, false)
  else if known_base && bool_decide (here = before) then (there, FromCloud, false)
  else if known_base && bool_decide (there = before) then (here, FromLocal, false)
  else (None, Conflict, true).

Definition has_base (base : option files) : bool :=
  match base with Some _ => true | None => false end.
Definition any_binary (here there : option text) : bool :=
  existsb is_binary_value (option_list here ++ option_list there).

(** One turn of the loop. *)
Definition plan_step (base : option files) (local cloud : files)
    (acc : list change * files) (path : text) : list change * files :=
  let '(changes, merged) := acc in
  let before := base_get base path in
  let here := dget local path in
  let there := dget cloud path in
  let '(selected, side, conflict) := select (has_base base) before here there in
  let merged' := match selected with Some v => dput merged path v | None => merged end in
  let changed := negb (bool_decide (here = there)) ||
                 (has_base base && negb (bool_decide (before = here))) in
  let changes' :=
    if changed then
      changes ++ [{| row_path := path; row_side_of := side; row_conflict := conflict;
                     row_base := before; row_local := here; row_cloud := there;
                     row_binary := any_binary here there |}]
    else changes in
  (changes', merged').

Definition plan (base : option files) (local cloud : files) :
    result merge_error (list change * files) :=
  with? _ := validate_files local in
  with? _ := validate_files cloud in
  Ok (foldl (plan_step base local cloud) ([], []) (all_paths base local cloud)).

(** ** [resolve] *)

Definition side_is (c : choice) (s : string) : bool :=
  bool_decide (choice_side c = Some (text_of s)).
Definition text_or_empty (t : option text) : text :=
  match t with Some t => t | None => [] end.

Definition chosen (choices : choices_t) (path : text) : option choice :=
  match dget choices path with Some c => c | None => None end.

(** [files[path] = value], or [files.pop(path, None)] for no value. *)
Definition put_value (fs : files) (path : text) (value : option text) : files :=
  match value with Some v => dput fs path v | None => dpop fs path end.

(** One turn of the loop over the rows. *)
Definition resolve_row (local cloud : files) (choices : choices_t) (fs : files) (row : change) :
    result merge_error files :=
  let path := row_path row in
  match chosen choices path with
  | None => if row_conflict row then Err (UnresolvedConflict path) else Ok fs
  | Some c =>
      if side_is c "local" then Ok (put_value fs path (row_local row))
      else if side_is c "cloud" then Ok (put_value fs path (row_cloud row))
      else if side_is c "manual" && negb (row_binary row) then
        match choice_content c with
        | None => Err (ManualNeedsText path)
        | Some v => Ok (put_value fs path (Some v))
        end
      else if side_is c "both" then
        match normalize_member (text_or_empty (choice_alternate c)) with
        | Err e => Err (BadName e)
        | Ok alternate =>
            if bool_decide (alternate ∈ local.*1 ++ cloud.*1 ++ fs.*1 ++ [path])
            then Err (AlternateExists path)
            else match row_local row, row_cloud row with
                 | Some l, Some r => Ok (put_value (dput fs alternate l) path (Some r))
                 | _, _ => Err (DeletedTwice path)
                 end
        end
      else Err (InvalidResolution path)
  end.

Fixpoint resolve_rows (local cloud : files) (choices : choices_t) (fs : files)
    (rows : list change) : result merge_error files :=
  match rows with
  | [] => Ok fs
  | row :: rows' =>
      with? fs' := resolve_row local cloud choices fs row in
      resolve_rows local cloud choices fs' rows'
  end.

Definition resolve (base : option files) (local cloud : files) (choices : choices_t) :
    result merge_error files :=
  with? (changes, merged) := plan base local cloud in
  if negb (forallb (λ p, bool_decide (p ∈ map row_path changes)) choices.*1)
  then Err UnknownChoice
  else
    with? fs := resolve_rows local cloud choices merged changes in
    validate_files fs.

(** What [_apply_local] hands to the archive: binary values decoded. *)
Definition decoded_body (value : text) : option body :=
  if is_binary_value value
  then match decode_binary value with Some data => Some (Raw data) | None => None end
  else Some (Utf8 value).
Fixpoint decoded (fs : files) : option (pydict text body) :=
  match fs with
  | [] => Some []
  | (name, value) :: fs' =>
      match decoded_body value, decoded fs' with
      | Some b, Some bs => Some ((name, b) :: bs)
      | _, _ => None
      end
  end.

End validate.
End FileMerge.
