(* ===== verification/FileMergeThms.v ===== *)
(** * Merging two copies of a package: theorems

    What a merge keeps of either side, when it refuses, that it does not depend
    on which side is called local, and that its result can be installed. *)

From S2P Require Import Prelude PyDict BinaryFiles PackageFiles PackageFilesThms FileMerge.
From Stdlib Require Import Ascii String.

Import BinaryFiles PackageFiles FileMerge.

(** ** The plan, path by path *)

Section plans.
Context `{UnicodeText}.
Implicit Types (base : option files) (local cloud : files) (path : text).

Definition selected_at base local cloud path : option text :=
  (select (has_base base) (base_get base path) (dget local path) (dget cloud path)).1.1.
Definition clash base local cloud path : bool :=
  (select (has_base base) (base_get base path) (dget local path) (dget cloud path)).2.
Definition row_at base local cloud path : option change :=
  let before := base_get base path in
  let here := dget local path in
  let there := dget cloud path in
  let '(_, side, conflict) := select (has_base base) before here there in
  if negb (bool_decide (here = there)) || (has_base base && negb (bool_decide (before = here)))
  then Some {| row_path := path; row_side_of := side; row_conflict := conflict;
               row_base := before; row_local := here; row_cloud := there;
               row_binary := any_binary here there |}
  else None.

Lemma plan_step_eq base local cloud changes merged path :
  plan_step base local cloud (changes, merged) path =
  (changes ++ option_list (row_at base local cloud path),
   match selected_at base local cloud path with
   | Some v => dput merged path v
   | None => merged
   end).
Proof.
  unfold plan_step, row_at, selected_at. destruct (select _ _ _ _) as [[sel side] conf].
  cbn [fst]. destruct (negb _ || _); [done|]. by rewrite app_nil_r.
Qed.

Lemma plan_fold base local cloud paths changes merged :
  NoDup paths → NoDup merged.*1 →
  let r := foldl (plan_step base local cloud) (changes, merged) paths in
  r.1 = changes ++ omap (row_at base local cloud) paths ∧ NoDup r.2.*1 ∧
  ∀ p, dget r.2 p = if bool_decide (p ∈ paths)
                    then match selected_at base local cloud p with
                         | Some v => Some v | None => dget merged p end
                    else dget merged p.
Proof.
  revert changes merged. induction paths as [|q paths IH]; intros changes merged Hnd Hm; cbn [foldl].
  { split_and!; [by rewrite app_nil_r|done|done]. }
  apply NoDup_cons in Hnd as [Hq Hnd]. rewrite plan_step_eq.
  destruct (IH (changes ++ option_list (row_at base local cloud q))
    (match selected_at base local cloud q with Some v => dput merged q v | None => merged end))
    as (H1 & H2 & H3); [done|case_match; [by apply dput_NoDup|done]|].
  split_and!; [|done|].
  - rewrite H1, <- app_assoc. f_equal. cbn. by destruct (row_at base local cloud q).
  - intros p. rewrite H3. destruct (decide (p = q)) as [->|Hne].
    + rewrite (bool_decide_false (q ∈ paths)), (bool_decide_true (q ∈ q :: paths)) by (done || left).
      case_match; [apply dget_dput_eq|done].
    + assert (Heq : bool_decide (p ∈ q :: paths) = bool_decide (p ∈ paths)).
      { apply bool_decide_ext. rewrite elem_of_cons. naive_solver. }
      rewrite Heq. destruct (selected_at base local cloud q); [|done].
      by rewrite !dget_dput_ne.
Qed.

Lemma all_paths_NoDup base local cloud : NoDup (all_paths base local cloud).
Proof. unfold all_paths. rewrite order_by_perm. apply fromkeys_NoDup. Qed.

Lemma elem_of_all_paths base local cloud p :
  p ∈ all_paths base local cloud ↔ p ∈ base_keys base ∨ p ∈ local.*1 ∨ p ∈ cloud.*1.
Proof. unfold all_paths. by rewrite order_by_perm, elem_of_fromkeys, !elem_of_app. Qed.

Lemma base_get_None base p : p ∉ base_keys base → base_get base p = None.
Proof. destruct base as [b|]; [|done]. apply dget_None. Qed.

(** A path that no version has is nowhere in the plan. *)
Lemma absent_path base local cloud p :
  p ∉ all_paths base local cloud →
  selected_at base local cloud p = None ∧ row_at base local cloud p = None.
Proof.
  rewrite elem_of_all_paths. intros Hp.
  unfold selected_at, row_at. rewrite (base_get_None base) by naive_solver.
  rewrite !(proj2 (dget_None _ p)) by naive_solver.
  unfold select. rewrite !bool_decide_true by done. cbn. by rewrite andb_false_r.
Qed.

Lemma plan_ok base local cloud rows merged :
  plan base local cloud = Ok (rows, merged) →
  validate_files local = Ok local ∧ validate_files cloud = Ok cloud ∧
  rows = omap (row_at base local cloud) (all_paths base local cloud) ∧ NoDup merged.*1 ∧
  ∀ p, dget merged p = selected_at base local cloud p.
Proof.
  unfold plan.
  assert (Hv : ∀ fs r, validate_files fs = Ok r → r = fs).
  { intros fs r. unfold validate_files. repeat case_match; congruence. }
  destruct (validate_files local) as [l|] eqn:El; [|done].
  destruct (validate_files cloud) as [c|] eqn:Ec; [|done].
  apply Hv in El as ?. apply Hv in Ec as ?. subst l c.
  destruct (plan_fold base local cloud (all_paths base local cloud) [] []) as (H1 & H2 & H3);
    [apply all_paths_NoDup|constructor|].
  destruct (foldl _ _ _) as [ch mg]. cbn [fst snd] in *. intros [= <- <-].
  split_and!; [done..|]. intros p. rewrite H3. case_bool_decide as Hp.
  - by destruct (selected_at base local cloud p).
  - by apply absent_path in Hp as [-> _].
Qed.

Lemma row_at_fields base local cloud p row :
  row_at base local cloud p = Some row →
  row_path row = p ∧ row_conflict row = clash base local cloud p ∧
  row_local row = dget local p ∧ row_cloud row = dget cloud p.
Proof.
  unfold row_at, clash. destruct (select _ _ _ _) as [[sel side] conf].
  destruct (negb _ || _); [|done]. by intros [= <-].
Qed.

Lemma rows_paths_NoDup base local cloud :
  NoDup (map row_path (omap (row_at base local cloud) (all_paths base local cloud))).
Proof.
  pose proof (all_paths_NoDup base local cloud) as Hnd. revert Hnd.
  generalize (all_paths base local cloud). intros l.
  induction l as [|p l IH]; intros Hnd; cbn; [constructor|].
  apply NoDup_cons in Hnd as [Hp Hnd]. destruct (row_at base local cloud p) as [row|] eqn:E; [|auto].
  cbn. apply NoDup_cons. split; [|auto]. apply row_at_fields in E as [-> _].
  intros (row' & Heq & Hin)%list_elem_of_fmap. apply list_elem_of_omap in Hin as (q & Hq & E').
  apply row_at_fields in E' as [Hrow _]. congruence.
Qed.

Lemma row_at_None base local cloud p :
  row_at base local cloud p = None → clash base local cloud p = false.
Proof.
  unfold row_at, clash, select. case_bool_decide; cbn [negb orb]; [done|].
  repeat case_match; done.
Qed.

End plans.

(** ** The choices, row by row *)

Section choices.
Context `{UnicodeText}.
Implicit Types (local cloud fs : files) (choices : choices_t).

Definition is_alternate (c : choice) (a : text) : Prop :=
  choice_alternate c = Some a ∨ choice_alternate c = None ∧ a = [].

(** The ways a row is applied without an error. *)
Inductive applied local cloud fs (row : change) : option choice → files → Prop :=
| applied_none : row_conflict row = false → applied local cloud fs row None fs
| applied_local c :
    side_is c "local" = true →
    applied local cloud fs row (Some c) (put_value fs (row_path row) (row_local row))
| applied_cloud c :
    side_is c "cloud" = true →
    applied local cloud fs row (Some c) (put_value fs (row_path row) (row_cloud row))
| applied_manual c v :
    side_is c "manual" = true → choice_content c = Some v →
    applied local cloud fs row (Some c) (put_value fs (row_path row) (Some v))
| applied_both c a l r :
    side_is c "both" = true → is_alternate c a → portable_name a →
    a ∉ local.*1 ++ cloud.*1 ++ fs.*1 ++ [row_path row] →
    row_local row = Some l → row_cloud row = Some r →
    applied local cloud fs row (Some c) (put_value (dput fs a l) (row_path row) (Some r)).

Lemma resolve_row_applied local cloud choices fs row fs' :
  resolve_row local cloud choices fs row = Ok fs' →
  applied local cloud fs row (chosen choices (row_path row)) fs'.
Proof.
  unfold resolve_row. destruct (chosen choices (row_path row)) as [c|] eqn:Ec.
  2: { destruct (row_conflict row) eqn:?; [done|]. intros [= <-]. by constructor. }
  destruct (side_is c "local") eqn:?; [intros [= <-]; by constructor|].
  destruct (side_is c "cloud") eqn:?; [intros [= <-]; by constructor|].
  destruct (side_is c "manual" && _) eqn:Em.
  { apply andb_true_iff in Em as [? _]. destruct (choice_content c) eqn:?; [|done].
    intros [= <-]. by constructor. }
  destruct (side_is c "both") eqn:?; [|done].
  destruct (normalize_member _) as [a|e] eqn:En; [|done].
  apply normalize_member_ok in En as [-> Hp]. case_bool_decide as Hin; [done|].
  destruct (row_local row) eqn:?, (row_cloud row) eqn:?; try done. intros [= <-].
  econstructor; try done. unfold is_alternate, text_or_empty.
  destruct (choice_alternate c); auto.
Qed.

Lemma put_value_eq fs p v : NoDup fs.*1 → dget (put_value fs p v) p = v.
Proof. intros. destruct v; cbn; [apply dget_dput_eq|by apply dget_dpop_eq]. Qed.

Lemma put_value_ne fs p q v : p ≠ q → dget (put_value fs p v) q = dget fs q.
Proof. intros. destruct v; cbn; [by apply dget_dput_ne|by apply dget_dpop_ne]. Qed.

Lemma put_value_NoDup fs p v : NoDup fs.*1 → NoDup (put_value fs p v).*1.
Proof. intros. destruct v; cbn; [by apply dput_NoDup|by apply dpop_NoDup]. Qed.

Lemma applied_NoDup local cloud fs row c fs' :
  applied local cloud fs row c fs' → NoDup fs.*1 → NoDup fs'.*1.
Proof. destruct 1; intros; [done|..]; apply put_value_NoDup; [done..|]. by apply dput_NoDup. Qed.

(** A choice asks for a copy of its path to be kept under [q]. *)
Definition asks_for (c : option choice) (q : text) : Prop :=
  match c with Some c => side_is c "both" = true ∧ is_alternate c q | None => False end.
Definition alternate_of choices (q : text) : Prop := ∃ p, asks_for (chosen choices p) q.

(** Another path keeps its value when a package has it, or the merge holds it, or
    no choice asks for a copy under it. *)
Lemma applied_frame local cloud fs row c fs' q :
  applied local cloud fs row c fs' → row_path row ≠ q →
  q ∈ local.*1 ++ cloud.*1 ∨ q ∈ fs.*1 ∨ ¬ asks_for c q → dget fs' q = dget fs q.
Proof.
  destruct 1 as [| | | |c a l r Hs Ha Hp Hn Hl Hr]; intros Hne Hq; rewrite ?put_value_ne by done; [done..|].
  rewrite dget_dput_ne; [done|]. intros ->. unfold asks_for in Hq. rewrite !elem_of_app in *. tauto.
Qed.

Lemma dget_elem_key {K V} `{EqDecision K} (d : pydict K V) k : k ∈ d.*1 ↔ is_Some (dget d k).
Proof.
  rewrite <- not_eq_None_Some, dget_None. destruct (decide (k ∈ d.*1)); tauto.
Qed.

Lemma resolve_rows_frame local cloud choices fs rows fs' q :
  resolve_rows local cloud choices fs rows = Ok fs' → q ∉ map row_path rows →
  q ∈ local.*1 ++ cloud.*1 ∨ q ∈ fs.*1 ∨ ¬ alternate_of choices q → dget fs' q = dget fs q.
Proof.
  revert fs. induction rows as [|row rows IH]; intros fs; cbn; [by intros [= <-]|].
  destruct (resolve_row local cloud choices fs row) as [fs1|e] eqn:E; [|done].
  apply resolve_row_applied in E. intros Hr Hq Hin. apply not_elem_of_cons in Hq as [Hne Hq].
  assert (Hfr : dget fs1 q = dget fs q).
  { eapply applied_frame; [exact E|by apply not_eq_sym|].
    destruct Hin as [?|[?|Hn]]; [by left|by right; left|right; right]. intros Ha. apply Hn. by eexists. }
  rewrite (IH fs1 Hr Hq); [done|]. rewrite !dget_elem_key in *. by rewrite Hfr.
Qed.

Lemma resolve_rows_NoDup local cloud choices fs rows fs' :
  resolve_rows local cloud choices fs rows = Ok fs' → NoDup fs.*1 → NoDup fs'.*1.
Proof.
  revert fs. induction rows as [|row rows IH]; intros fs; cbn; [by intros [= <-]|].
  destruct (resolve_row local cloud choices fs row) as [fs1|e] eqn:E; [|done].
  intros Hr Hnd. apply (IH fs1 Hr). by eapply applied_NoDup; [apply resolve_row_applied|].
Qed.

(** The turn of one row, in the run of the whole loop: the files before and
    after it, and that no later turn touches its path or what it kept aside. *)
Lemma resolve_rows_turn local cloud choices fs rows fs' row :
  resolve_rows local cloud choices fs rows = Ok fs' → NoDup fs.*1 →
  NoDup (map row_path rows) → row ∈ rows →
  ∃ fs1 fs2, applied local cloud fs1 row (chosen choices (row_path row)) fs2 ∧ NoDup fs1.*1 ∧
    (row_path row ∈ local.*1 ++ cloud.*1 ∨ ¬ alternate_of choices (row_path row) →
     dget fs1 (row_path row) = dget fs (row_path row)) ∧
    ∀ q, q ∉ map row_path rows ∨ q = row_path row →
         q ∈ local.*1 ++ cloud.*1 ∨ q ∈ fs2.*1 ∨ ¬ alternate_of choices q → dget fs' q = dget fs2 q.
Proof.
  revert fs. induction rows as [|r rows IH]; intros fs; cbn; [by intros _ _ _ ?%not_elem_of_nil|].
  destruct (resolve_row local cloud choices fs r) as [fs1|e] eqn:E; [|done].
  apply resolve_row_applied in E. intros Hr Hnd Hrows Hin.
  apply NoDup_cons in Hrows as [Hr0 Hrows].
  apply elem_of_cons in Hin as [->|Hin].
  - exists fs, fs1. split_and!; [done..|]. intros q Hq Hor.
    eapply resolve_rows_frame; [done| |done]. destruct Hq as [Hq| ->]; [|done].
    intros Hq'. apply Hq. by right.
  - assert (Hne : row_path r ≠ row_path row).
    { intros Heq. apply Hr0. rewrite Heq. by apply list_elem_of_fmap_2. }
    destruct (IH fs1 Hr) as (fs2 & fs3 & Ha & Hn2 & Hb & Hc); [by eapply applied_NoDup|done..|].
    exists fs2, fs3. split_and!; [done..| |].
    + intros Hp. rewrite Hb by done. eapply applied_frame; [done..|].
      destruct Hp as [?|Hn]; [by left|right; right]. intros Ha'. apply Hn. by eexists.
    + intros q Hq. apply Hc. destruct Hq as [Hq|]; [left|by right]. intros ?. apply Hq. by right.
Qed.

End choices.

(** ** Theorems *)

Section merging.
Context `{UnicodeText}.
Implicit Types (base : option files) (local cloud fs : files) (choices : choices_t).

(** A side edited a path when it differs from the base there; without a base
    nothing is known to be unedited. *)
Definition edited base (side : files) (p : text) : Prop :=
  match base with None => True | Some b => dget side p ≠ dget b p end.


Lemma resolve_ok base local cloud choices fs :
  resolve base local cloud choices = Ok fs →
  ∃ rows merged, plan base local cloud = Ok (rows, merged) ∧
    (∀ p, p ∈ choices.*1 → p ∈ map row_path rows) ∧
    resolve_rows local cloud choices merged rows = Ok fs ∧ validate_files fs = Ok fs.
Proof.
  unfold resolve. destruct (plan base local cloud) as [[rows merged]|e]; [|done].
  destruct (forallb _ _) eqn:Ef; cbn [negb]; [|done].
  destruct (resolve_rows _ _ _ _ _) as [fs'|e] eqn:Er; [|done].
  intros Hv. assert (fs' = fs) as ->.
  { revert Hv. unfold validate_files. repeat case_match; congruence. }
  exists rows, merged. split_and!; [done| |done|done].
  intros p Hp%list_elem_of_In. rewrite forallb_forall in Ef. by apply Ef, bool_decide_eq_true in Hp.
Qed.

Lemma chosen_key choices p c : chosen choices p = Some c → p ∈ choices.*1.
Proof.
  unfold chosen. rewrite dget_elem_key. destruct (dget choices p) as [o|]; [|done]. by eexists.
Qed.

Lemma planned_row base local cloud p :
  p ∈ map row_path (omap (row_at base local cloud) (all_paths base local cloud)) ↔
  is_Some (row_at base local cloud p).
Proof.
  split.
  - intros (row & -> & Hin)%list_elem_of_fmap. apply list_elem_of_omap in Hin as (q & _ & E).
    apply row_at_fields in E as E'. destruct E' as [-> _]. by eexists.
  - intros [row E]. apply row_at_fields in E as E'. destruct E' as [Hp _]. rewrite <- Hp.
    apply list_elem_of_fmap_2, list_elem_of_omap. exists p. split; [|done].
    destruct (decide (p ∈ all_paths base local cloud)) as [|Hn]; [done|].
    apply absent_path in Hn as [_ Hn]. congruence.
Qed.

(** How the merge treats the row of one path. *)
Lemma resolve_turn base local cloud choices fs p row :
  resolve base local cloud choices = Ok fs → row_at base local cloud p = Some row →
  ∃ fs1 fs2, applied local cloud fs1 row (chosen choices p) fs2 ∧ NoDup fs1.*1 ∧
    (p ∈ local.*1 ++ cloud.*1 ∨ ¬ alternate_of choices p → dget fs1 p = selected_at base local cloud p) ∧
    ∀ q, ¬ is_Some (row_at base local cloud q) ∨ q = p →
         q ∈ local.*1 ++ cloud.*1 ∨ q ∈ fs2.*1 ∨ ¬ alternate_of choices q → dget fs q = dget fs2 q.
Proof.
  intros (rows & merged & Hplan & Hk & Hr & _)%resolve_ok Hrow.
  apply plan_ok in Hplan as (_ & _ & -> & Hnd & Hsel).
  apply row_at_fields in Hrow as Hf. destruct Hf as (Hp & _).
  destruct (resolve_rows_turn _ _ _ _ _ _ row Hr Hnd) as (fs1 & fs2 & Ha & Hn1 & Hb & Hc);
    [apply rows_paths_NoDup| |].
  { apply list_elem_of_omap. exists p. split; [|done].
    destruct (decide (p ∈ all_paths base local cloud)) as [|Hn]; [done|].
    apply absent_path in Hn as [_ Hn]. congruence. }
  rewrite Hp in *. exists fs1, fs2. split_and!; [done..| |].
  - intros Hin. by rewrite Hb, Hsel.
  - intros q Hq. apply Hc. rewrite planned_row. tauto.
Qed.

Lemma side_is_unique c s s' : side_is c s = true → side_is c s' = true → text_of s = text_of s'.
Proof. unfold side_is. rewrite !bool_decide_eq_true. congruence. Qed.


End merging.

Section symmetric.
Context `{UnicodeText}.
Implicit Types (base : option files) (local cloud fs : files).

(** The same row seen from the other side. *)
Definition swap_side (s : row_side) : row_side :=
  match s with FromCloud => FromLocal | FromLocal => FromCloud | s => s end.
Definition swap_row (r : change) : change :=
  {| row_path := row_path r; row_side_of := swap_side (row_side_of r);
     row_conflict := row_conflict r; row_base := row_base r; row_local := row_cloud r;
     row_cloud := row_local r; row_binary := row_binary r |}.

Lemma all_paths_swap base local cloud : all_paths base local cloud = all_paths base cloud local.
Proof.
  unfold all_paths. apply order_by_unique;
    eauto using text_leb_total, text_leb_trans, text_leb_antisym.
  apply NoDup_Permutation; [apply fromkeys_NoDup..|].
  intros p. rewrite !elem_of_fromkeys, !elem_of_app. tauto.
Qed.

Lemma select_swap known before here there :
  select known before there here =
  (let '(sel, side, conf) := select known before here there in (sel, swap_side side, conf)).
Proof.
  unfold select. destruct (decide (here = there)) as [->|Hne].
  { by rewrite !bool_decide_true by done. }
  rewrite (bool_decide_false (there = here)), (bool_decide_false (here = there)) by done.
  destruct known; cbn [andb]; [|done]. repeat case_bool_decide; first [done|congruence].
Qed.

Lemma any_binary_swap here there : any_binary there here = any_binary here there.
Proof. unfold any_binary. rewrite !existsb_app. apply orb_comm. Qed.

Lemma selected_at_swap base local cloud p :
  selected_at base cloud local p = selected_at base local cloud p.
Proof. unfold selected_at. rewrite select_swap. by destruct (select _ _ _ _) as [[? ?] ?]. Qed.

Lemma row_at_swap base local cloud p :
  row_at base cloud local p = swap_row <$> row_at base local cloud p.
Proof.
  unfold row_at. rewrite select_swap, any_binary_swap.
  destruct (decide (dget local p = dget cloud p)) as [E|E].
  - rewrite E. unfold select. rewrite !bool_decide_true by done. cbn [negb orb].
    by destruct (has_base base && _).
  - destruct (select _ _ (dget local p) _) as [[sel side] conf].
    rewrite (bool_decide_false (dget cloud p = dget local p)) by congruence.
    by rewrite (bool_decide_false (dget local p = dget cloud p)).
Qed.

(** a comparison does not depend on which copy is called the local one: the
    merged files are the same, and the rows are the same with the sides
    exchanged. *)
Theorem plan_symmetric base local cloud rows merged :
  plan base local cloud = Ok (rows, merged) →
  plan base cloud local = Ok (map swap_row rows, merged).
Proof.
  unfold plan. destruct (validate_files local); [|done]. destruct (validate_files cloud); [|done].
  rewrite <- all_paths_swap. intros [= E]. f_equal.
  assert (Hgen : ∀ paths ch mg,
    foldl (plan_step base cloud local) (map swap_row ch, mg) paths =
    (let r := foldl (plan_step base local cloud) (ch, mg) paths in (map swap_row r.1, r.2))).
  { induction paths as [|p paths IH]; intros ch mg; [done|]. cbn [foldl].
    rewrite !plan_step_eq, selected_at_swap, row_at_swap, <- IH. f_equal. f_equal.
    rewrite map_app. f_equal. by destruct (row_at base local cloud p). }
  rewrite (Hgen _ [] []). cbn zeta. by rewrite E.
Qed.

End symmetric.

Section outcomes.
Context `{UnicodeText}.
Implicit Types (base : option files) (local cloud fs : files) (choices : choices_t).

(** Both sides edited the path, and not to the same value. *)
Definition edited_apart base local cloud p : Prop :=
  edited base local p ∧ edited base cloud p ∧ dget local p ≠ dget cloud p.

Lemma clash_edited_apart base local cloud p :
  clash base local cloud p = true ↔ edited_apart base local cloud p.
Proof.
  unfold clash, edited_apart, edited, select. destruct base as [b|]; cbn [has_base base_get andb];
    repeat case_bool_decide; cbn [snd]; naive_solver.
Qed.

Lemma resolve_rows_unchosen local cloud fs rows :
  (Forall (λ r, row_conflict r = false) rows ∧ resolve_rows local cloud [] fs rows = Ok fs) ∨
  ∃ r, r ∈ rows ∧ row_conflict r = true ∧
       resolve_rows local cloud [] fs rows = Err (UnresolvedConflict (row_path r)).
Proof.
  induction rows as [|r rows IH]; [by left|].
  cbn [resolve_rows]. unfold resolve_row, chosen. cbn [dget].
  destruct (row_conflict r) eqn:Er.
  - right. exists r. split_and!; [left|done|done].
  - destruct IH as [[Hall ->]|(r' & Hin & Hc & ->)].
    + left. split; [by constructor|done].
    + right. exists r'. split_and!; [by right|done|done].
Qed.

(** without choices, a merge of two valid packages either finds no path that
    both sides edited differently and returns the merged files, if they are
    valid together, or refuses the whole merge with such a path. *)
Theorem automatic_merge_outcome base local cloud :
  validate_files local = Ok local → validate_files cloud = Ok cloud →
  (∀ p, ¬ edited_apart base local cloud p) ∧
    (∃ merged, resolve base local cloud [] = validate_files merged ∧
               ∀ p, dget merged p = selected_at base local cloud p) ∨
  ∃ p, edited_apart base local cloud p ∧
       resolve base local cloud [] = Err (UnresolvedConflict p).
Proof.
  intros Hl Hc. unfold resolve.
  destruct (plan base local cloud) as [[rows merged]|e] eqn:Ep.
  2: { unfold plan in Ep. by rewrite Hl, Hc in Ep. }
  apply plan_ok in Ep as (_ & _ & -> & _ & Hsel). cbn [fmap list_fmap forallb negb map].
  change (forallb _ (([] : choices_t).*1)) with true. cbn [negb].
  destruct (resolve_rows_unchosen local cloud merged
    (omap (row_at base local cloud) (all_paths base local cloud))) as [[Hall ->]|(r & Hin & Hr & ->)].
  - left. split; [|by exists merged]. intros p Hp%clash_edited_apart.
    destruct (row_at base local cloud p) as [row|] eqn:E.
    + apply row_at_fields in E as E'. destruct E' as (_ & Hcf & _).
      rewrite Forall_forall in Hall.
      assert (Hin : row ∈ omap (row_at base local cloud) (all_paths base local cloud)).
      { apply list_elem_of_omap. exists p. split; [|done].
        destruct (decide (p ∈ all_paths base local cloud)) as [|Hn]; [done|].
        apply absent_path in Hn as [_ Hn]. congruence. }
      specialize (Hall _ Hin). congruence.
    + apply row_at_None in E. congruence.
  - right. exists (row_path r). split; [|done].
    apply list_elem_of_omap in Hin as (p & _ & E). apply row_at_fields in E as (-> & Hcf & _).
    apply clash_edited_apart. congruence.
Qed.

(** a choice to keep both copies of a file keeps the cloud's under its path
    and the device's under the alternate path, which is a portable name no
    package has, unless the base has a file there. *)
Theorem both_copies_kept base local cloud choices fs p c :
  resolve base local cloud choices = Ok fs →
  chosen choices p = Some c → side_is c "both" = true →
  ∃ a, is_alternate c a ∧ portable_name a ∧ a ∉ local.*1 ++ cloud.*1 ++ [p] ∧
       is_Some (dget local p) ∧ is_Some (dget cloud p) ∧ dget fs p = dget cloud p ∧
       (a ∉ base_keys base → dget fs a = dget local p).
Proof.
  intros Hres Hch Hside.
  assert (Hrow : is_Some (row_at base local cloud p)).
  { pose proof (resolve_ok _ _ _ _ _ Hres) as (rows & merged & Hplan & Hk & _).
    apply plan_ok in Hplan as (_ & _ & -> & _). by eapply planned_row, Hk, chosen_key. }
  destruct Hrow as [row Hrow].
  destruct (resolve_turn _ _ _ _ _ _ _ Hres Hrow) as (fs1 & fs2 & Ha & Hnd & _ & Hfin).
  apply row_at_fields in Hrow as E. destruct E as (Hp & _ & Hl & Hr). rewrite Hch in Ha.
  inversion Ha as [|c' Hs|c' Hs|c' v Hs|c' a l r Hs Halt Hport Hn Hrl Hrr]; subst c';
    try (pose proof (side_is_unique _ _ _ Hs Hside) as Hd; discriminate Hd).
  rewrite Hp in *. rewrite !elem_of_app, list_elem_of_singleton in Hn.
  assert (Hpl : is_Some (dget local p)) by (rewrite <- Hl, Hrl; by eexists).
  assert (Hpr : is_Some (dget cloud p)) by (rewrite <- Hr, Hrr; by eexists).
  exists a. split_and!; [done|done| |done|done| |].
  - rewrite !elem_of_app, list_elem_of_singleton. tauto.
  - subst fs2. rewrite Hfin; [|by right|left; apply elem_of_app; left; by apply dget_elem_key].
    rewrite put_value_eq by (by apply dput_NoDup). congruence.
  - intros Hb. subst fs2.
    assert (Ha2 : dget (put_value (dput fs1 a l) p (Some r)) a = Some l).
    { rewrite put_value_ne by (intros ->; tauto). apply dget_dput_eq. }
    rewrite Hfin, Ha2; [congruence|left|right; left; apply dget_elem_key; by eexists].
    destruct (absent_path base local cloud a) as [_ ->]; [|by intros [? ?]].
    rewrite elem_of_all_paths. tauto.
Qed.

(** *** Installing a merge *)

Lemma decoded_body_bytes v data :
  member_bytes v = Some data → ∃ b, decoded_body v = Some b ∧ body_bytes b = Some data.
Proof.
  unfold member_bytes, decoded_body. destruct (is_binary_value v); intros E; [rewrite E|];
    eexists; done.
Qed.

Lemma validated_decodes size fs names :
  validate_members size fs = Ok names →
  ∃ items prepared, decoded fs = Some items ∧ prepare_from size items = Ok prepared ∧
                    prepared.*1 = names ∧ List.length items = List.length fs.
Proof.
  revert size names. induction fs as [|[n v] fs IH]; intros size names; cbn.
  { intros [= <-]. by exists [], []. }
  destruct (normalize_member n) as [norm|] eqn:En; [|done].
  destruct (member_bytes v) as [data|] eqn:Ev; [|done].
  apply decoded_body_bytes in Ev as (b & -> & Hb).
  destruct (MAX_MEMBER_BYTES <? _) eqn:E1; [done|]. destruct (MAX_TOTAL_BYTES <? _) eqn:E2; [done|].
  destruct (validate_members _ fs) as [ns|] eqn:Er; [|done]. intros [= <-].
  destruct (IH _ _ Er) as (items & prepared & -> & Hp & <- & Hlen).
  exists ((n, b) :: items), ((norm, data) :: prepared). cbn.
  rewrite En, Hb, E1, E2, Hp. cbn. by rewrite Hlen.
Qed.

(** the files a merge returns, decoded, are taken by the archive: writing
    them is never refused, unless the merge removed every file. *)
Theorem merge_can_be_installed base local cloud choices fs :
  resolve base local cloud choices = Ok fs → fs ≠ [] →
  ∃ items, decoded fs = Some items ∧ is_ok (prepare_files items) = true.
Proof.
  intros (_ & _ & _ & _ & _ & Hv)%resolve_ok Hne. revert Hv. unfold validate_files.
  destruct (MAX_MEMBERS <? _) eqn:Em; [done|].
  destruct (validate_members 0 fs) as [names|] eqn:En; [|done].
  destruct (validate_names names) as [[]|] eqn:Ev; [|done]. intros _.
  destruct (validated_decodes _ _ _ En) as (items & prepared & -> & Hp & Hn & Hlen).
  exists items. split; [done|]. unfold prepare_files.
  rewrite bool_decide_false by (intros ->; by destruct fs). rewrite Hlen, Em. cbn [orb].
  by rewrite Hp, Hn, Ev.
Qed.

End outcomes.

(** ** Witnesses *)

#[local] Existing Instance ascii_unicode.

Definition sample_base : option files :=
  Some [(text_of "SKILL.md", text_of "old"); (text_of "lib.py", text_of "1");
        (text_of "z", text_of "gone")].
Definition sample_local : files :=
  [(text_of "SKILL.md", text_of "device"); (text_of "lib.py", text_of "1")].
Definition sample_cloud : files :=
  [(text_of "lib.py", text_of "2"); (text_of "SKILL.md", text_of "cloud")].
Definition keep_both (alternate : string) : option choice :=
  Some {| choice_side := Some (text_of "both"); choice_content := None;
          choice_alternate := Some (text_of alternate) |}.
Definition sample_choices : choices_t := [(text_of "SKILL.md", keep_both "mine.md")].
Definition sample_merge : files :=
  [(text_of "SKILL.md", text_of "cloud"); (text_of "lib.py", text_of "2");
   (text_of "mine.md", text_of "device")].

Lemma sample_resolved :
  resolve sample_base sample_local sample_cloud sample_choices =
  Ok [(text_of "lib.py", text_of "2"); (text_of "mine.md", text_of "device");
      (text_of "SKILL.md", text_of "cloud")].
Proof. vm_compute. reflexivity. Qed.


Lemma plan_symmetric_witness :
  ∃ rows merged, plan sample_base sample_local sample_cloud = Ok (rows, merged) ∧
    plan sample_base sample_cloud sample_local = Ok (map swap_row rows, merged).
Proof.
  destruct (plan sample_base sample_local sample_cloud) as [[rows merged]|e] eqn:E;
    [|vm_compute in E; discriminate].
  exists rows, merged. split; [reflexivity|]. exact (plan_symmetric _ _ _ _ _ E).
Defined.

Lemma automatic_merge_outcome_witness :
  (∀ p, ¬ edited_apart sample_base sample_local sample_cloud p) ∧
    (∃ merged, resolve sample_base sample_local sample_cloud [] = validate_files merged ∧
       ∀ p, dget merged p = selected_at sample_base sample_local sample_cloud p) ∨
  ∃ p, edited_apart sample_base sample_local sample_cloud p ∧
       resolve sample_base sample_local sample_cloud [] = Err (UnresolvedConflict p).
Proof. apply automatic_merge_outcome; vm_compute; reflexivity. Defined.

Lemma both_copies_kept_witness :
  ∃ a, dget sample_merge (text_of "SKILL.md") = dget sample_cloud (text_of "SKILL.md") ∧
       is_alternate {| choice_side := Some (text_of "both"); choice_content := None;
                       choice_alternate := Some (text_of "mine.md") |} a.
Proof.
  destruct (both_copies_kept _ _ _ _ _ (text_of "SKILL.md") _ sample_resolved eq_refl eq_refl)
    as (a & Ha & _ & _ & _ & _ & Hp & _).
  exists a. split; [exact Hp|exact Ha].
Defined.

Lemma merge_can_be_installed_witness :
  ∃ items, decoded [(text_of "lib.py", text_of "2"); (text_of "mine.md", text_of "device");
                    (text_of "SKILL.md", text_of "cloud")] = Some items ∧
           is_ok (prepare_files items) = true.
Proof.
  apply (merge_can_be_installed _ _ _ _ _ sample_resolved). discriminate.
Defined.

(** The alternate path may be one that both sides deleted since the base; a
    choice for that path, made in the same request, then removes the copy that
    was to be kept. *)
Theorem kept_copy_lost :
  resolve sample_base sample_local sample_cloud
    [(text_of "SKILL.md", keep_both "z");
     (text_of "z", Some {| choice_side := Some (text_of "local"); choice_content := None;
                           choice_alternate := None |})] =
  Ok [(text_of "lib.py", text_of "2"); (text_of "SKILL.md", text_of "cloud")].
Proof. vm_compute. reflexivity. Qed.
