(* ===== verification/Resolver.v ===== *)
(** * Which candidate a runtime name points to: [core/capabilities/resolver.py]

    Several installed capabilities may answer to one name.  The resolver groups
    the candidates by name and chooses one, finds a conflict, or finds nothing
    that can be used. *)

From S2P Require Import Prelude PyDict.
From Stdlib Require Import Ascii String.

Module Resolver.

Definition LOCAL_PROFILE : text := text_of "local".
Definition BUILTIN_PROFILE : text := text_of "builtin".

(** [ResourceRef] of [ref.py]. *)
Record resource_ref := { issuer : text; namespace : text; ref_kind : text; ref_id : text }.
#[export] Instance resource_ref_eq_dec : EqDecision resource_ref.
Proof. solve_decision. Defined.

Record candidate := {
  install_id : text;
  runtime_name : text;
  kind : text;
  profile : text;
  source : text;
  path : option text;
  content_hash : option text;
  revision : option text;
  ref : option resource_ref;
  usable : bool;
  account_level : bool;
  state : text;
  display_name : text;
  description : text;
  version : text;
}.
#[export] Instance candidate_eq_dec : EqDecision candidate.
Proof. solve_decision. Defined.

Inductive reason : Type :=
| NoUsableCandidate | Preference | PreferredNotReady | PreferredMissing
| RequestedNotReady | RequestedUnique | RequestedIdentical | RequestedConflict
| AccountUnique | AccountIdentical | AccountConflict
| GlobalUnique | GlobalIdentical | GlobalConflict.

Record resolution := {
  chosen : pydict text candidate;
  shadowed : pydict text (list candidate);
  conflicts : pydict text (list candidate);
  unusable : pydict text (list candidate);
  reasons : pydict text reason;
}.
#[export] Instance resolution_eta : Eta resolution := λ r,
  {| chosen := chosen r; shadowed := shadowed r; conflicts := conflicts r;
     unusable := unusable r; reasons := reasons r |}.
Definition empty_resolution : resolution :=
  {| chosen := []; shadowed := []; conflicts := []; unusable := []; reasons := [] |}.

(** [_PROFILE_RANK.get(c.profile, 1)] *)
Definition profile_rank (p : text) : Z :=
  if bool_decide (p = LOCAL_PROFILE) then 0 else if bool_decide (p = BUILTIN_PROFILE) then 2 else 1.

Definition rank (c : candidate) : Z * Z * text :=
  (if account_level c then 0 else 1, profile_rank (profile c), install_id c).
(** Tuples compare lexicographically. *)
Definition rank_leb (c d : candidate) : bool :=
  let '(a1, b1, i1) := rank c in
  let '(a2, b2, i2) := rank d in
  (a1 <? a2) || (a1 =? a2) && ((b1 <? b2) || (b1 =? b2) && text_leb i1 i2).

(** One hash for all, and it is known. *)
Definition identical (cands : list candidate) : bool :=
  match fromkeys (map content_hash cands) with
  | [Some _] => true
  | _ => false
  end.

Definition pick (name : text) (group : list candidate) (res : resolution) (winner : candidate)
    (why : reason) : resolution :=
  let losers := List.filter (λ c, negb (bool_decide (install_id c = install_id winner))) group in
  let res1 := res <| chosen := dput (chosen res) name winner |> in
  let res2 := match losers with
              | [] => res1
              | _ => res1 <| shadowed := dput (shadowed res1) name losers |>
              end in
  res2 <| reasons := dput (reasons res2) name why |>.

Definition mark_unusable (name : text) (group : list candidate) (res : resolution) (why : reason) :
    resolution :=
  res <| unusable := dput (unusable res) name group |> <| reasons := dput (reasons res) name why |>.
Definition mark_conflict (name : text) (group : list candidate) (res : resolution) (why : reason) :
    resolution :=
  res <| conflicts := dput (conflicts res) name group |> <| reasons := dput (reasons res) name why |>.

Definition is_usable (c : candidate) : bool := usable c && negb (is_null (path c)).
Definition in_list (l : list candidate) (c : candidate) : bool := bool_decide (c ∈ l).

(** [preferences.get(name)], an empty preference being none. *)
Definition preference_of (preferences : pydict text text) (name : text) : option text :=
  match dget preferences name with
  | Some [] | None => None
  | Some p => Some p
  end.

(** How a turn of the loop ends: by [_pick], as unusable, or as a conflict. *)
Inductive verdict : Type :=
| Pick (winner : candidate) (why : reason)
| Unusable (why : reason)
| Conflicting (why : reason).

(** The block the loop has three times: the only candidate of a level, the first
    by rank of identical ones, or a conflict. *)
Definition settle (level : list candidate) (only same differ : reason) : verdict :=
  match level with
  | [c] => Pick c only
  | _ => match identical level, order_by rank_leb level with
         | true, c :: _ => Pick c same
         | _, _ => Conflicting differ
         end
  end.

(** One turn of the loop over the groups, up to what it records. *)
Definition decide_name (preferences : pydict text text) (requested : list text)
    (name : text) (group : list candidate) : verdict :=
  let usables := List.filter is_usable group in
  if bool_decide (usables = []) then Unusable NoUsableCandidate
  else match preference_of preferences name with
  | Some pref =>
      match List.filter (λ c, bool_decide (install_id c = pref)) group with
      | m :: _ => if in_list usables m then Pick m Preference else Unusable PreferredNotReady
      | [] => Unusable PreferredMissing
      end
  | None =>
      let is_requested := λ c, bool_decide (install_id c ∈ requested) in
      if existsb (λ c, negb (in_list usables c)) (List.filter is_requested group)
      then Unusable RequestedNotReady
      else
        let asked := List.filter is_requested usables in
        let account := List.filter account_level usables in
        if negb (bool_decide (asked = []))
        then settle asked RequestedUnique RequestedIdentical RequestedConflict
        else if negb (bool_decide (account = []))
        then settle account AccountUnique AccountIdentical AccountConflict
        else settle usables GlobalUnique GlobalIdentical GlobalConflict
  end.

Definition record_verdict (res : resolution) (name : text) (group : list candidate)
    (v : verdict) : resolution :=
  match v with
  | Pick winner why => pick name group res winner why
  | Unusable why => mark_unusable name group res why
  | Conflicting why => mark_conflict name group res why
  end.
Definition resolve_group (preferences : pydict text text) (requested : list text)
    (res : resolution) (g : text * list candidate) : resolution :=
  record_verdict res g.1 g.2 (decide_name preferences requested g.1 g.2).

(** [groups.setdefault(c.runtime_name, []).append(c)] for every candidate;
    [Err] is the [ValueError] on one of another kind. *)
Fixpoint group_candidates (want : text) (groups : pydict text (list candidate))
    (cands : list candidate) : result text (pydict text (list candidate)) :=
  match cands with
  | [] => Ok groups
  | c :: cs =>
      if negb (bool_decide (kind c = want)) then Err (install_id c)
      else
        let name := runtime_name c in
        let old := match dget groups name with Some g => g | None => [] end in
        group_candidates want (dput groups name (old ++ [c])) cs
  end.

Definition resolve (want : text) (cands : list candidate) (preferences : pydict text text)
    (requested : list text) : result text resolution :=
  with? groups := group_candidates want [] cands in
  Ok (foldl (resolve_group preferences requested) empty_resolution
        (order_by (λ a b, text_leb a.1 b.1) groups)).

(** [chosen_ids] *)
Definition chosen_ids (res : resolution) : list text := map (λ kv, install_id kv.2) (chosen res).

End Resolver.
