(* ===== verification/ResolverThms.v ===== *)
(** * The resolver: theorems

    What a resolution records for a name, when a candidate may be chosen, and
    that the order of the candidates does not matter. *)

From S2P Require Import Prelude PyDict Resolver.
From Stdlib Require Import Ascii String.

Import Resolver.

(** The candidates of one name. *)
Definition group_of (cands : list candidate) (name : text) : list candidate :=
  List.filter (λ c, bool_decide (runtime_name c = name)) cands.

Lemma elem_of_filter_bool {A} (f : A → bool) l x : x ∈ List.filter f l ↔ x ∈ l ∧ f x = true.
Proof. by rewrite !list_elem_of_In, filter_In. Qed.

Lemma elem_of_group cands name c : c ∈ group_of cands name ↔ c ∈ cands ∧ runtime_name c = name.
Proof. unfold group_of. by rewrite elem_of_filter_bool, bool_decide_eq_true. Qed.

(** ** Grouping *)

Lemma group_candidates_ok want groups cands groups' :
  NoDup groups.*1 → group_candidates want groups cands = Ok groups' →
  NoDup groups'.*1 ∧ Forall (λ c, kind c = want) cands ∧
  ∀ name, dget groups' name =
    match dget groups name, group_of cands name with
    | Some g, l => Some (g ++ l)
    | None, [] => None
    | None, l => Some l
    end.
Proof.
  revert groups. induction cands as [|c cs IH]; intros groups Hnd; cbn [group_candidates].
  { intros [= <-]. split_and!; [done..|]. intros name. cbn.
    destruct (dget groups name); [by rewrite app_nil_r|done]. }
  case_bool_decide as Hk; cbn [negb]; [|done]. intros Hg.
  destruct (IH _ (dput_NoDup _ _ _ Hnd) Hg) as (H1 & H2 & H3).
  split_and!; [done|by constructor|]. intros name. rewrite H3, dget_dput.
  unfold group_of. cbn [List.filter].
  destruct (decide (runtime_name c = name)) as [<-|Hne]; [|by rewrite !bool_decide_false].
  rewrite !bool_decide_true by done. destruct (dget groups (runtime_name c)); [|done].
  by rewrite <- app_assoc.
Qed.

Lemma group_candidates_fails want groups cands :
  (∀ groups', group_candidates want groups cands ≠ Ok groups') ↔ ∃ c, c ∈ cands ∧ kind c ≠ want.
Proof.
  revert groups. induction cands as [|c cs IH]; intros groups; cbn [group_candidates].
  - split; [intros Hf; by destruct (Hf groups)|by intros (? & ?%not_elem_of_nil & _)].
  - case_bool_decide as Hk; cbn [negb].
    + rewrite IH. setoid_rewrite elem_of_cons. naive_solver.
    + split; [intros _; exists c; split; [left|done]|done].
Qed.

(** ** What is recorded *)

(** The four entries a verdict leaves for its name. *)
Definition entries (res : resolution) (name : text) :
    option candidate * option (list candidate) * option (list candidate) * option reason :=
  (dget (chosen res) name, dget (conflicts res) name, dget (unusable res) name,
   dget (reasons res) name).
Definition verdict_entries (group : list candidate) (v : verdict) :
    option candidate * option (list candidate) * option (list candidate) * option reason :=
  match v with
  | Pick c why => (Some c, None, None, Some why)
  | Conflicting why => (None, Some group, None, Some why)
  | Unusable why => (None, None, Some group, Some why)
  end.

Lemma pick_fields name group res c why :
  chosen (pick name group res c why) = dput (chosen res) name c ∧
  conflicts (pick name group res c why) = conflicts res ∧
  unusable (pick name group res c why) = unusable res ∧
  reasons (pick name group res c why) = dput (reasons res) name why.
Proof. unfold pick. by destruct (List.filter _ group). Qed.

Lemma record_entries res name group v name' :
  entries res name = (None, None, None, None) →
  entries (record_verdict res name group v) name' =
  if bool_decide (name = name') then verdict_entries group v else entries res name'.
Proof.
  unfold entries. intros [= H1 H2 H3 H4]. destruct v as [c why|why|why]; cbn [record_verdict].
  1: destruct (pick_fields name group res c why) as (-> & -> & -> & ->).
  all: cbn; rewrite !dget_dput; case_bool_decide; subst; by rewrite ?H1, ?H2, ?H3.
Qed.

Lemma resolve_groups_entries preferences requested groups res name :
  NoDup groups.*1 → (∀ n, n ∈ groups.*1 → entries res n = (None, None, None, None)) →
  entries (foldl (resolve_group preferences requested) res groups) name =
  match dget groups name with
  | Some g => verdict_entries g (decide_name preferences requested name g)
  | None => entries res name
  end.
Proof.
  revert res. induction groups as [|[n g] gs IH]; intros res Hnd Hempty; [done|].
  apply NoDup_cons in Hnd as [Hn Hnd]; cbn [fst] in Hn. cbn [foldl dget].
  assert (Hres : ∀ n', entries (resolve_group preferences requested res (n, g)) n' =
    if bool_decide (n = n') then verdict_entries g (decide_name preferences requested n g)
    else entries res n').
  { intros n'. apply record_entries, Hempty. left. }
  rewrite IH; [|done|].
  - case_bool_decide as Heq; [subst n|].
    + apply dget_None in Hn as ->. by rewrite Hres, bool_decide_true.
    + destruct (dget gs name); [done|]. by rewrite Hres, bool_decide_false.
  - intros n' Hn'. rewrite Hres, bool_decide_false by (intros ->; done).
    apply Hempty. by right.
Qed.

Lemma dget_perm {K V} `{EqDecision K} (d d' : pydict K V) k :
  NoDup d.*1 → d ≡ₚ d' → dget d k = dget d' k.
Proof.
  intros Hnd Hp. assert (Hnd' : NoDup d'.*1) by (by rewrite <- Hp).
  destruct (dget d k) as [v|] eqn:E.
  - apply dget_elem in E. rewrite Hp in E. by apply (elem_dget d') in E as ->.
  - apply dget_None in E. symmetry. apply dget_None. by rewrite <- Hp.
Qed.

(** The entries of a name are the verdict on its candidates. *)
Lemma resolve_entries want cands preferences requested res name :
  resolve want cands preferences requested = Ok res →
  entries res name =
  match group_of cands name with
  | [] => (None, None, None, None)
  | g => verdict_entries g (decide_name preferences requested name g)
  end.
Proof.
  unfold resolve. destruct (group_candidates want [] cands) as [groups|] eqn:E; [|done].
  intros [= <-]. apply group_candidates_ok in E as (Hnd & _ & Hg); [|constructor].
  rewrite resolve_groups_entries; [|by rewrite order_by_perm|done].
  rewrite <- (dget_perm groups) by (done || by rewrite order_by_perm).
  rewrite Hg. cbn [dget]. by destruct (group_of cands name).
Qed.

(** ** One level *)

Definition ids (l : list candidate) : list text := map install_id l.

Lemma ids_filter f l : NoDup (ids l) → NoDup (ids (List.filter f l)).
Proof.
  unfold ids. induction l as [|x l IH]; cbn; [done|]. intros [Hx Hnd]%NoDup_cons.
  destruct (f x); [|auto]. cbn. apply NoDup_cons. split; [|auto].
  intros (y & E & Hy)%list_elem_of_fmap. apply Hx. rewrite E.
  apply elem_of_filter_bool in Hy as [Hy _]. by apply list_elem_of_fmap_2.
Qed.

Definition same_content (c d : candidate) : Prop :=
  ∃ h, content_hash c = Some h ∧ content_hash d = Some h.

Lemma identical_true l : identical l = true → ∀ c d, c ∈ l → d ∈ l → same_content c d.
Proof.
  unfold identical. intros Hi c d Hc Hd.
  destruct (fromkeys (map content_hash l)) as [|[h|] [|]] eqn:E; try done.
  assert (Hh : ∀ e, e ∈ l → content_hash e = Some h).
  { intros e He. apply (list_elem_of_fmap_2 content_hash) in He.
    apply (elem_of_fromkeys (map content_hash l)) in He. rewrite E in He.
    by apply list_elem_of_singleton in He. }
  exists h. auto.
Qed.

Lemma identical_false l :
  identical l = false → l ≠ [] → ∃ c d, c ∈ l ∧ d ∈ l ∧ ¬ same_content c d.
Proof.
  unfold identical. intros Hi Hne.
  assert (Hk : ∀ h, h ∈ fromkeys (map content_hash l) → ∃ c, c ∈ l ∧ content_hash c = h).
  { intros h. rewrite elem_of_fromkeys. intros (c & -> & Hc)%list_elem_of_fmap. by exists c. }
  pose proof (fromkeys_NoDup (map content_hash l)) as Hnd.
  destruct (fromkeys (map content_hash l)) as [|h1 [|h2 hs]] eqn:E.
  - destruct l as [|c l]; [done|]. discriminate E.
  - destruct h1; [done|]. destruct (Hk None) as (c & Hc & Hn); [left|].
    exists c, c. split_and!; [done..|]. intros (h & Hh & _). congruence.
  - destruct (Hk h1) as (c & Hc & H1); [left|]. destruct (Hk h2) as (d & Hd & H2); [right; left|].
    apply NoDup_cons in Hnd as [Hn _]. exists c, d. split_and!; [done..|].
    intros (h & Ha & Hb). apply Hn. replace h1 with h2 by congruence. left.
Qed.

Lemma order_by_nil {A} (leb : A → A → bool) l : order_by leb l = [] → l = [].
Proof. intros E. apply Permutation_nil. by rewrite <- (order_by_perm leb l), E. Qed.

Lemma settle_level_cases l only same differ :
  l ≠ [] →
  (∃ c why, settle l only same differ = Pick c why ∧ c ∈ l ∧
            ∀ d, d ∈ l → d = c ∨ same_content c d) ∨
  (settle l only same differ = Conflicting differ ∧
   ∃ c d, c ∈ l ∧ d ∈ l ∧ ¬ same_content c d).
Proof.
  intros Hne. unfold settle. destruct l as [|c [|c' l']]; [done| |].
  { left. exists c, only. split_and!; [done|left|]. intros d Hd%list_elem_of_singleton. by left. }
  set (l := c :: c' :: l') in *. destruct (identical l) eqn:Ei.
  - destruct (order_by rank_leb l) as [|w rest] eqn:Eo; [by apply order_by_nil in Eo|].
    assert (Hw : w ∈ l) by (rewrite <- (order_by_perm rank_leb l), Eo; left).
    left. exists w, same. split_and!; [done..|]. intros d Hd. right. by eapply identical_true.
  - right. split; [done|by apply identical_false].
Qed.

(** ** Precedence *)

(** Requested candidates come first, then those of the account, then the rest. *)
Definition level (requested : list text) (c : candidate) : Z :=
  if bool_decide (install_id c ∈ requested) then 0 else if account_level c then 1 else 2.

(** The usable candidates of a group at its best level. *)
Definition rivals (requested : list text) (group : list candidate) (c : candidate) : Prop :=
  c ∈ group ∧ is_usable c = true ∧
  ∀ d, d ∈ group → is_usable d = true → level requested c ≤ level requested d.

Definition requests_ready (requested : list text) (group : list candidate) : Prop :=
  ∀ c, c ∈ group → install_id c ∈ requested → is_usable c = true.

Lemma requests_ready_dec requested group :
  existsb (λ c, negb (in_list (List.filter is_usable group) c))
    (List.filter (λ c, bool_decide (install_id c ∈ requested)) group) = false ↔
  requests_ready requested group.
Proof.
  rewrite <- not_true_iff_false, existsb_exists. unfold requests_ready, in_list. split.
  - intros Hn c Hc Hr. destruct (is_usable c) eqn:Eu; [done|]. destruct Hn. exists c. split.
    + apply filter_In. by rewrite <- list_elem_of_In, bool_decide_eq_true.
    + rewrite bool_decide_false; [done|]. rewrite elem_of_filter_bool. intros [_ ?]. congruence.
  - intros Ha (c & Hc & Hn). apply filter_In in Hc as [Hc Hr]. bool_simpl. apply Hn.
    apply list_elem_of_In in Hc. rewrite elem_of_filter_bool. split; [done|by apply Ha].
Qed.

(** The list a level is settled on holds exactly the rivals. *)
Lemma decide_without_preference preferences requested name group :
  preference_of preferences name = None → requests_ready requested group →
  (∃ c, c ∈ group ∧ is_usable c = true) →
  ∃ l only same differ, decide_name preferences requested name group = settle l only same differ ∧
    l ≠ [] ∧ (NoDup (ids group) → NoDup (ids l)) ∧ ∀ c, c ∈ l ↔ rivals requested group c.
Proof.
  intros Hp Hr (u & Hu & Huu). unfold decide_name. rewrite Hp.
  assert (Hus : u ∈ List.filter is_usable group) by by apply elem_of_filter_bool.
  rewrite bool_decide_false by (intros E; rewrite E in Hus; by apply not_elem_of_nil in Hus).
  apply requests_ready_dec in Hr. rewrite Hr. clear Hr.
  set (usables := List.filter is_usable group) in *.
  set (asked := List.filter (λ c, bool_decide (install_id c ∈ requested)) usables).
  set (account := List.filter account_level usables).
  assert (Hask : ∀ c, c ∈ asked ↔ (c ∈ group ∧ is_usable c = true) ∧ install_id c ∈ requested).
  { intros c. unfold asked, usables. by rewrite !elem_of_filter_bool, bool_decide_eq_true. }
  assert (Hacc : ∀ c, c ∈ account ↔ (c ∈ group ∧ is_usable c = true) ∧ account_level c = true).
  { intros c. unfold account, usables. by rewrite !elem_of_filter_bool. }
  assert (Husb : ∀ c, c ∈ usables ↔ c ∈ group ∧ is_usable c = true).
  { intros c. unfold usables. by rewrite !elem_of_filter_bool. }
  assert (Hnd : NoDup (ids group) → NoDup (ids usables) ∧ NoDup (ids asked) ∧ NoDup (ids account)).
  { intros Hg. split_and!; [|apply ids_filter|apply ids_filter]; by apply ids_filter. }
  clearbody usables asked account. unfold rivals, level.
  case_bool_decide as Ea; cbn [negb].
  2: { eexists _, _, _, _. split; [done|]. split; [done|]. split; [intros ?%Hnd; tauto|].
       intros c. rewrite Hask. split.
       - intros [[Hg Hu'] Hr]. split_and!; [done..|]. intros d _ _.
         rewrite bool_decide_true by done. repeat case_match; lia.
       - intros (Hg & Hu' & Hle). split; [done|].
         destruct asked as [|a asked]; [done|].
         destruct (proj1 (Hask a)) as [[Hag Hau] Har]; [left|].
         specialize (Hle a Hag Hau). rewrite (bool_decide_true (install_id a ∈ _)) in Hle by done.
         case_bool_decide; [done|]. destruct (account_level c); lia. }
  assert (Hnr : ∀ c, c ∈ group → is_usable c = true → install_id c ∉ requested).
  { intros c Hc Hcu Hcr. apply (not_elem_of_nil c). rewrite <- Ea. by apply Hask. }
  case_bool_decide as Eb; cbn [negb].
  2: { eexists _, _, _, _. split; [done|]. split; [done|]. split; [intros ?%Hnd; tauto|].
       intros c. rewrite Hacc. split.
       - intros [[Hg Hu'] Hr]. split_and!; [done..|]. intros d Hd Hdu.
         rewrite !bool_decide_false, Hr by auto. case_match; lia.
       - intros (Hg & Hu' & Hle). split; [done|].
         destruct account as [|a account]; [done|].
         destruct (proj1 (Hacc a)) as [[Hag Hau] Har]; [left|].
         specialize (Hle a Hag Hau). rewrite !bool_decide_false, Har in Hle by auto.
         destruct (account_level c); [done|lia]. }
  eexists _, _, _, _. split; [done|]. split; [intros E; rewrite E in Hus; by apply not_elem_of_nil in Hus|].
  split; [intros ?%Hnd; tauto|]. intros c. rewrite Husb. split; [|naive_solver]. intros [Hg Hcu]. split_and!; [done..|].
  intros d Hd Hdu. rewrite !bool_decide_false by auto.
  destruct (account_level d) eqn:Ed; [|case_match; lia].
  exfalso. apply (not_elem_of_nil d). rewrite <- Eb. by apply Hacc.
Qed.

(** ** Order of the candidates *)

Lemma filter_perm {A} (f : A → bool) l l' : l ≡ₚ l' → List.filter f l ≡ₚ List.filter f l'.
Proof.
  induction 1 as [|x l l' _ IH|x y l|l1 l2 l3 _ IH1 _ IH2]; cbn; [done|..].
  - destruct (f x); [by constructor|done].
  - destruct (f x), (f y); try done. apply Permutation_swap.
  - by etrans.
Qed.

Lemma existsb_perm {A} (f : A → bool) l l' : l ≡ₚ l' → existsb f l = existsb f l'.
Proof.
  intros Hp. apply eq_true_iff_eq. rewrite !existsb_exists.
  setoid_rewrite <- list_elem_of_In. by setoid_rewrite Hp.
Qed.

Lemma nil_perm {A} `{EqDecision A} (l l' : list A) : l ≡ₚ l' → bool_decide (l = []) = bool_decide (l' = []).
Proof.
  intros Hp. apply bool_decide_ext. split; intros ->; [by apply Permutation_nil|].
  by apply Permutation_nil_r in Hp.
Qed.

Lemma rank_leb_rank c d :
  rank_leb c d = true ↔
  let '(a1, b1, i1) := rank c in let '(a2, b2, i2) := rank d in
  a1 < a2 ∨ a1 = a2 ∧ (b1 < b2 ∨ b1 = b2 ∧ text_leb i1 i2 = true).
Proof.
  unfold rank_leb. destruct (rank c) as [[a1 b1] i1], (rank d) as [[a2 b2] i2].
  by rewrite !orb_true_iff, !andb_true_iff, !orb_true_iff, !andb_true_iff, !Z.ltb_lt, !Z.eqb_eq.
Qed.

Lemma rank_leb_total c d : rank_leb c d = true ∨ rank_leb d c = true.
Proof.
  rewrite !rank_leb_rank. destruct (rank c) as [[a1 b1] i1], (rank d) as [[a2 b2] i2].
  pose proof (text_leb_total i1 i2).
  destruct (Z.lt_trichotomy a1 a2) as [?|[->|?]], (Z.lt_trichotomy b1 b2) as [?|[->|?]]; tauto.
Qed.

Lemma rank_leb_trans c d e : rank_leb c d = true → rank_leb d e = true → rank_leb c e = true.
Proof.
  rewrite !rank_leb_rank.
  destruct (rank c) as [[a1 b1] i1], (rank d) as [[a2 b2] i2], (rank e) as [[a3 b3] i3].
  pose proof (text_leb_trans i1 i2 i3). intuition (subst; lia || auto).
Qed.

Lemma rank_leb_antisym c d : rank_leb c d = true → rank_leb d c = true → install_id c = install_id d.
Proof.
  rewrite !rank_leb_rank. unfold rank.
  intros [?|[? [?|[? ?]]]] [?|[? [?|[? ?]]]]; try lia. by apply text_leb_antisym.
Qed.

Lemma order_by_rank_perm l l' :
  NoDup (ids l) → l ≡ₚ l' → order_by rank_leb l = order_by rank_leb l'.
Proof.
  intros Hnd Hp. apply (StronglySorted_unique_strong (λ a b, rank_leb a b = true)).
  - intros a b Ha Hb Hab Hba. rewrite order_by_perm in Ha, Hb. rewrite <- Hp in Hb.
    eapply (NoDup_fmap_elem install_id); [exact Hnd|done|done|by apply rank_leb_antisym].
  - apply order_by_sorted; eauto using rank_leb_total, rank_leb_trans.
  - apply order_by_sorted; eauto using rank_leb_total, rank_leb_trans.
  - by rewrite !order_by_perm.
Qed.

Lemma identical_perm l l' : l ≡ₚ l' → identical l = identical l'.
Proof.
  assert (Hone : ∀ l l', l ≡ₚ l' → identical l = true → identical l' = true).
  { clear. intros l l' Hp Hi. destruct (identical l') eqn:Ei; [done|].
    destruct (identical_false l' Ei) as (c & d & Hc & Hd & Hn).
    - intros ->. apply Permutation_nil_r in Hp as ->. done.
    - rewrite <- Hp in Hc, Hd. by destruct Hn; eapply identical_true. }
  intros Hp. apply eq_true_iff_eq. split; by apply Hone.
Qed.

Lemma settle_perm l l' only same differ :
  NoDup (ids l) → l ≡ₚ l' → settle l only same differ = settle l' only same differ.
Proof.
  intros Hnd Hp. unfold settle. rewrite <- (identical_perm l l'), <- (order_by_rank_perm l l') by done.
  destruct l as [|c [|c2 l]].
  - by apply Permutation_nil in Hp as ->.
  - by apply Permutation_length_1_inv in Hp as ->.
  - pose proof (Permutation_length Hp) as Hlen. by destruct l' as [|c' [|c2' l']].
Qed.

Lemma same_id_perm pref group group' :
  NoDup (ids group) → group ≡ₚ group' →
  List.filter (λ c, bool_decide (install_id c = pref)) group =
  List.filter (λ c, bool_decide (install_id c = pref)) group'.
Proof.
  intros Hnd Hp. assert (Hf := filter_perm (λ c, bool_decide (install_id c = pref)) _ _ Hp).
  destruct (List.filter _ group) as [|c [|d l]] eqn:E.
  - by apply Permutation_nil in Hf as ->.
  - by apply Permutation_length_1_inv in Hf as ->.
  - exfalso. assert (Hc : c ∈ c :: d :: l) by left. assert (Hd : d ∈ c :: d :: l) by (right; left).
    rewrite <- E in Hc, Hd. apply elem_of_filter_bool in Hc as [_ Hc], Hd as [_ Hd]. bool_simpl.
    pose proof (ids_filter (λ c, bool_decide (install_id c = pref)) _ Hnd) as Hn. rewrite E in Hn.
    cbn in Hn. apply NoDup_cons in Hn as [Hn _]. apply Hn. rewrite Hc, Hd. left.
Qed.

Lemma decide_name_perm preferences requested name group group' :
  NoDup (ids group) → group ≡ₚ group' →
  decide_name preferences requested name group = decide_name preferences requested name group'.
Proof.
  intros Hnd Hp. unfold decide_name.
  assert (Hu := filter_perm is_usable _ _ Hp). rewrite (nil_perm _ _ Hu).
  assert (Hin : ∀ c, in_list (List.filter is_usable group) c = in_list (List.filter is_usable group') c).
  { intros c. apply bool_decide_ext. by rewrite Hu. }
  case_bool_decide; [done|]. destruct (preference_of preferences name) as [pref|].
  { rewrite (same_id_perm pref _ _ Hnd Hp). case_match; [done|]. by rewrite Hin. }
  set (req := λ c, bool_decide (install_id c ∈ requested)).
  rewrite (existsb_perm _ _ _ (filter_perm req _ _ Hp)).
  assert (Hex : ∀ k, existsb (λ c, negb (in_list (List.filter is_usable group) c)) k =
                     existsb (λ c, negb (in_list (List.filter is_usable group') c)) k).
  { induction k as [|x k IH]; cbn; [done|]. by rewrite Hin, IH. }
  rewrite Hex, (nil_perm _ _ (filter_perm req _ _ Hu)),
    (nil_perm _ _ (filter_perm account_level _ _ Hu)).
  repeat case_match; try done; apply settle_perm; auto using ids_filter, filter_perm.
Qed.

(** ** Theorems *)

Lemma resolve_kinds want cands preferences requested res :
  resolve want cands preferences requested = Ok res → Forall (λ c, kind c = want) cands.
Proof.
  unfold resolve. destruct (group_candidates want [] cands) as [groups|] eqn:E; [|done].
  intros _. by apply group_candidates_ok in E as (_ & ? & _); [|constructor].
Qed.

Lemma chosen_verdict want cands preferences requested res name c :
  resolve want cands preferences requested = Ok res → dget (chosen res) name = Some c →
  ∃ why, decide_name preferences requested name (group_of cands name) = Pick c why.
Proof.
  intros Hres Hc. apply (resolve_entries _ _ _ _ _ name) in Hres. unfold entries in Hres.
  rewrite Hc in Hres. destruct (group_of cands name) as [|c0 g]; [done|].
  destruct (decide_name _ _ _ _) as [c' why|why|why]; simplify_eq/=. by exists why.
Qed.

(** What justifies a choice. *)
Definition justified (preferences : pydict text text) (requested : list text) (name : text)
    (group : list candidate) (c : candidate) : Prop :=
  match preference_of preferences name with
  | Some pref => install_id c = pref
  | None => requests_ready requested group ∧ rivals requested group c ∧
            ∀ d, rivals requested group d → d = c ∨ same_content c d
  end.

Lemma preferred_pick preferences requested name group pref c why :
  preference_of preferences name = Some pref →
  decide_name preferences requested name group = Pick c why →
  c ∈ group ∧ is_usable c = true ∧ install_id c = pref.
Proof.
  intros Ep. unfold decide_name. rewrite Ep. case_bool_decide; [done|].
  destruct (List.filter (λ c, bool_decide (install_id c = pref)) group) as [|m l] eqn:Em; [done|].
  unfold in_list. case_bool_decide as Hin; [|done]. intros [= -> <-].
  apply elem_of_filter_bool in Hin as [Hin Hu].
  assert (Hcm : c ∈ c :: l) by left. rewrite <- Em in Hcm.
  apply elem_of_filter_bool in Hcm as [_ Hid]. by bool_simpl.
Qed.

Lemma decide_pick preferences requested name group c why :
  decide_name preferences requested name group = Pick c why →
  c ∈ group ∧ is_usable c = true ∧ justified preferences requested name group c.
Proof.
  intros Hd. unfold justified. destruct (preference_of preferences name) as [pref|] eqn:Ep.
  { by eapply preferred_pick. }
  assert (Hd' := Hd). unfold decide_name in Hd. rewrite Ep in Hd. case_bool_decide as Eu; [done|].
  destruct (existsb _ _) eqn:Er in Hd; [done|]. apply requests_ready_dec in Er. clear Hd.
  assert (Hex : ∃ u, u ∈ group ∧ is_usable u = true).
  { destruct (List.filter is_usable group) as [|u l] eqn:El; [done|].
    exists u. apply elem_of_filter_bool. rewrite El. left. }
  destruct (decide_without_preference preferences requested name group Ep Er Hex)
    as (l & o & s & f & Hl & Hne & _ & Hriv). rewrite Hl in Hd'.
  destruct (settle_level_cases l o s f Hne) as [(w & why' & Hs & Hin & Hall)|[Hs _]];
    rewrite Hs in Hd'; [|done].
  injection Hd' as -> ->. apply Hriv in Hin as Hc. split_and!; [apply Hc..|done|done|].
  intros d Hdr. apply Hall. by apply Hriv.
Qed.

(** C22: a name resolves to a candidate of that name and kind that can be used:
    the one the user prefers, or, without a preference, one no other usable
    candidate of the best level differs from, while nothing that was requested
    is unready. *)
Theorem chosen_is_unambiguous want cands preferences requested res name c :
  resolve want cands preferences requested = Ok res → dget (chosen res) name = Some c →
  c ∈ cands ∧ runtime_name c = name ∧ kind c = want ∧ is_usable c = true ∧
  justified preferences requested name (group_of cands name) c.
Proof.
  intros Hres Hc. pose proof (resolve_kinds _ _ _ _ _ Hres) as Hk. rewrite Forall_forall in Hk.
  destruct (chosen_verdict _ _ _ _ _ _ _ Hres Hc) as [why Hd].
  apply decide_pick in Hd as (Hin & Hu & Hj). apply elem_of_group in Hin as [Hin Hn]. auto.
Qed.

Lemma differing_pair l c d :
  NoDup (ids l) → (∀ x, l ≠ [x]) → c ∈ l → d ∈ l → ¬ same_content c d →
  ∃ c d, c ≠ d ∧ c ∈ l ∧ d ∈ l ∧ ¬ same_content c d.
Proof.
  intros Hnd Hlen Hc Hd Hn. destruct (decide (c = d)) as [->|Hcd]; [|by exists c, d].
  assert (Hoth : ∃ e, e ∈ l ∧ e ≠ d).
  { destruct l as [|x [|y l]]; [by apply not_elem_of_nil in Hd|by destruct (Hlen x)|].
    destruct (decide (x = d)) as [->|]; [|exists x; split; [left|done]].
    exists y. split; [right; left|]. intros ->. apply NoDup_cons in Hnd as [Hnd _].
    apply Hnd. left. }
  destruct Hoth as (e & He & Hed). exists e, d. split_and!; [done..|].
  intros (h & H1 & H2). apply Hn. by exists h.
Qed.

(** a name without a preference whose requests are ready is a conflict
    exactly when two usable candidates of its best level differ; otherwise it is
    resolved. *)
Theorem conflict_exactly_when_ambiguous want cands preferences requested res name :
  resolve want cands preferences requested = Ok res → NoDup (ids cands) →
  preference_of preferences name = None →
  requests_ready requested (group_of cands name) →
  (∃ c, c ∈ group_of cands name ∧ is_usable c = true) →
  (is_Some (dget (conflicts res) name) ↔
   ∃ c d, c ≠ d ∧ rivals requested (group_of cands name) c ∧
          rivals requested (group_of cands name) d ∧ ¬ same_content c d) ∧
  (dget (conflicts res) name = None ↔ is_Some (dget (chosen res) name)).
Proof.
  intros Hres Hnd Hp Hr Hex. apply (resolve_entries _ _ _ _ _ name) in Hres. unfold entries in Hres.
  assert (Hg : group_of cands name ≠ []).
  { destruct Hex as (u & Hu & _). intros E. rewrite E in Hu. by apply not_elem_of_nil in Hu. }
  destruct (decide_without_preference preferences requested name _ Hp Hr Hex)
    as (l & o & s & f & Hl & Hne & Hndl & Hriv).
  assert (Hres' : (dget (chosen res) name, dget (conflicts res) name, dget (unusable res) name,
    dget (reasons res) name) =
    verdict_entries (group_of cands name) (settle l o s f)).
  { rewrite <- Hl, Hres. by destruct (group_of cands name). }
  clear Hres. destruct (settle_level_cases l o s f Hne) as [(w & why & Hs & Hin & Hall)|(Hs & c & d & Hc & Hd & Hn)].
  - rewrite Hs in Hres'. injection Hres' as -> -> _ _. split; [split; [by intros [? ?]|]|by split; eauto].
    intros (c & d & Hcd & Hc%Hriv & Hd%Hriv & Hn).
    destruct (Hall c Hc) as [->|(h & H1 & H2)]; [by destruct (Hall d Hd) as [->|?]|].
    destruct Hn. destruct (Hall d Hd) as [->|(h' & H1' & H2')]; exists h; split; congruence.
  - assert (Hlen : ∀ x, l ≠ [x]) by (intros x ->; discriminate Hs).
    destruct (differing_pair l c d) as (c' & d' & ? & ?%Hriv & ?%Hriv & ?);
      [by apply Hndl, ids_filter|done..|].
    rewrite Hs in Hres'. injection Hres' as -> -> _ _.
    split; [|split; [done|by intros [? ?]]]. split; [intros _|by eauto].
    by exists c', d'.
Qed.

(** every name of a candidate is either resolved, or a conflict, or unusable,
    with all its candidates and a reason; no other name has an entry. *)
Theorem every_name_settled_once want cands preferences requested res name :
  resolve want cands preferences requested = Ok res →
  match group_of cands name with
  | [] => entries res name = (None, None, None, None)
  | group => ∃ why,
      (∃ c, c ∈ group ∧ entries res name = (Some c, None, None, Some why)) ∨
      entries res name = (None, Some group, None, Some why) ∨
      entries res name = (None, None, Some group, Some why)
  end.
Proof.
  intros Hres. rewrite (resolve_entries _ _ _ _ _ _ Hres).
  destruct (group_of cands name) as [|c0 g] eqn:Eg; [done|]. rewrite <- Eg. cbn zeta.
  destruct (decide_name preferences requested name (group_of cands name))
    as [c why|why|why] eqn:E; exists why; [left|auto..].
  exists c. split; [|done]. by eapply decide_pick.
Qed.

(** Two resolutions that agree on a name up to the order of its candidates. *)
Definition agree_on (res res' : resolution) (name : text) : Prop :=
  dget (chosen res') name = dget (chosen res) name ∧
  dget (reasons res') name = dget (reasons res) name ∧
  option_Forall2 Permutation (dget (conflicts res) name) (dget (conflicts res') name) ∧
  option_Forall2 Permutation (dget (unusable res) name) (dget (unusable res') name).

Lemma verdicts_agree res res' name g g' v :
  entries res name = verdict_entries g v → entries res' name = verdict_entries g' v →
  g ≡ₚ g' → agree_on res res' name.
Proof.
  unfold entries, agree_on. intros E E' Hp.
  destruct v; injection E as -> -> -> ->; injection E' as -> -> -> ->; by repeat constructor.
Qed.

(** the order in which the candidates are listed decides nothing. *)
Theorem resolution_order_independent want cands cands' preferences requested res :
  resolve want cands preferences requested = Ok res →
  NoDup (ids cands) → cands ≡ₚ cands' →
  ∃ res', resolve want cands' preferences requested = Ok res' ∧
    ∀ name, agree_on res res' name.
Proof.
  intros Hres Hnd Hp.
  assert (Hres' : ∃ res', resolve want cands' preferences requested = Ok res').
  { pose proof (resolve_kinds _ _ _ _ _ Hres) as Hk. rewrite Hp in Hk. unfold resolve.
    destruct (group_candidates want [] cands') as [groups|e] eqn:E; [by eexists|].
    assert (Hf : ∀ g, group_candidates want [] cands' ≠ Ok g) by (intros g; by rewrite E).
    apply group_candidates_fails in Hf as (c & Hc & Hne).
    rewrite Forall_forall in Hk. by destruct Hne; apply Hk. }
  destruct Hres' as [res' Hres']. exists res'. split; [done|]. intros name.
  assert (Hg : group_of cands name ≡ₚ group_of cands' name) by by apply filter_perm.
  pose proof (resolve_entries _ _ _ _ _ name Hres) as E.
  pose proof (resolve_entries _ _ _ _ _ name Hres') as E'.
  assert (Hd : decide_name preferences requested name (group_of cands name) =
               decide_name preferences requested name (group_of cands' name))
    by (apply decide_name_perm; [by apply ids_filter|done]).
  destruct (group_of cands name) as [|c g] eqn:Eg.
  { apply Permutation_nil in Hg. rewrite Hg in E'. unfold entries in E, E'.
    injection E as H1 H2 H3 H4. injection E' as H1' H2' H3' H4'.
    unfold agree_on. rewrite H1, H2, H3, H4, H1', H2', H3', H4'. by repeat constructor. }
  destruct (group_of cands' name) as [|c' g'] eqn:Eg'.
  { by apply Permutation_nil_r in Hg. }
  cbn zeta in E, E', Hd. rewrite <- Hd in E'. by eapply verdicts_agree.
Qed.

(** ** Witnesses *)

Definition sample (id prof hash : string) (acc ok : bool) : candidate := {|
  install_id := text_of id; runtime_name := text_of "pdf"; kind := text_of "skill";
  profile := text_of prof; source := text_of "cloud"; path := Some (text_of id);
  content_hash := Some (text_of hash); revision := None; ref := None; usable := ok;
  account_level := acc; state := text_of "ready"; display_name := []; description := [];
  version := [] |}.
Definition sample_candidates : list candidate :=
  [sample "a" "local" "h1" false true; sample "b" "p_1" "h2" true true;
   sample "c" "p_1" "h2" true true].

(** Two account copies with the same content: the first by identity is taken. *)
Lemma sample_resolution :
  resolve (text_of "skill") sample_candidates [] [] =
  Ok {| chosen := [(text_of "pdf", sample "b" "p_1" "h2" true true)];
        shadowed := [(text_of "pdf", [sample "a" "local" "h1" false true;
                                      sample "c" "p_1" "h2" true true])];
        conflicts := []; unusable := []; reasons := [(text_of "pdf", AccountIdentical)] |}.
Proof. vm_compute. reflexivity. Qed.

Lemma chosen_is_unambiguous_witness :
  justified [] [] (text_of "pdf") (group_of sample_candidates (text_of "pdf"))
    (sample "b" "p_1" "h2" true true).
Proof.
  destruct (chosen_is_unambiguous _ _ _ _ _ (text_of "pdf") (sample "b" "p_1" "h2" true true)
    sample_resolution) as (_ & _ & _ & _ & Hj); [vm_compute; reflexivity|exact Hj].
Defined.

Lemma every_name_settled_once_witness :
  ∃ why c, c ∈ group_of sample_candidates (text_of "pdf") ∧ why = AccountIdentical.
Proof.
  destruct (every_name_settled_once _ _ _ _ _ (text_of "pdf") sample_resolution)
    as (why & [(c & Hc & E)|[E|E]]); [|discriminate E|discriminate E].
  exists why, c. split; [exact Hc|]. injection E as _ <-. reflexivity.
Defined.

Definition sample_clash : list candidate :=
  [sample "a" "local" "h1" false true; sample "b" "p_1" "h2" true true;
   sample "c" "p_1" "h3" true true].

Lemma conflict_exactly_when_ambiguous_witness :
  ∃ res, resolve (text_of "skill") sample_clash [] [] = Ok res ∧
    is_Some (dget (conflicts res) (text_of "pdf")) ∧
    ∃ c d, c ≠ d ∧ rivals [] (group_of sample_clash (text_of "pdf")) c ∧
           rivals [] (group_of sample_clash (text_of "pdf")) d ∧ ¬ same_content c d.
Proof.
  destruct (resolve (text_of "skill") sample_clash [] []) as [res|e] eqn:E;
    [|vm_compute in E; discriminate].
  exists res. split; [reflexivity|].
  assert (Hc : is_Some (dget (conflicts res) (text_of "pdf"))).
  { vm_compute in E. injection E as <-. vm_compute. by eexists. }
  split; [exact Hc|].
  apply (conflict_exactly_when_ambiguous _ _ _ _ _ (text_of "pdf") E).
  - apply (bool_decide_unpack _). vm_compute. exact I.
  - reflexivity.
  - intros c _ Hin. by apply not_elem_of_nil in Hin.
  - exists (sample "a" "local" "h1" false true). split; [|reflexivity].
    apply (bool_decide_unpack _). vm_compute. exact I.
  - exact Hc.
Defined.

Lemma resolution_order_independent_witness :
  ∃ res', resolve (text_of "skill") (rev sample_candidates) [] [] = Ok res' ∧
    dget (chosen res') (text_of "pdf") = Some (sample "b" "p_1" "h2" true true).
Proof.
  destruct (resolution_order_independent _ _ (rev sample_candidates) _ _ _ sample_resolution)
    as (res' & Hr & Ha).
  - apply (bool_decide_unpack _). vm_compute. exact I.
  - apply Permutation_rev.
  - exists res'. split; [exact Hr|]. destruct (Ha (text_of "pdf")) as [Hc _]. exact Hc.
Defined.
