(* ===== verification/Jobs.v ===== *)
(** * Batch jobs: [core/services/job_service.py] and [core/db/models/job.py]

    A job runs a script over a ledger of work items.  A service method reads the
    rows it needs through the session and commits the columns it changed; it is a
    [work]: a function of the clock and the tables that returns its value and its
    writes.  Run at once it is a transaction; between the reads and the commit of
    one method other methods may commit. *)

From S2P Require Import Prelude PyString PyDict.
From Stdlib Require Import Ascii String.

(** The messages written into [error_message]. *)
Class JobWording := {
  nothing_produced : Z → Z → Z → text;   (* total, failed, pending *)
  wall_clock_exceeded : text;
  silent_too_long : text;
  cancelled_by_user : text;
  lost_contact : Z → text;               (* minutes *)
  service_restarted : text;
  runner_gone : text → text;             (* the tail of its log *)
  no_evidence : text;
  not_parsed : text;
}.

Module Jobs.

(** ** Tables *)

Inductive job_status : Type :=
| Pending | Running | Paused | Completed | Failed | Cancelled | Interrupted.
#[export] Instance job_status_eq_dec : EqDecision job_status.
Proof. solve_decision. Defined.

(** [JOB_TERMINAL_STATUSES] and [JOB_LIVE_STATUSES] *)
Definition is_terminal (s : job_status) : bool :=
  match s with Completed | Failed | Cancelled => true | _ => false end.
Definition is_live (s : job_status) : bool :=
  match s with Pending | Running => true | _ => false end.

Inductive item_status : Type := IPending | IRunning | IDone | INotFound | IFailed | INeedsReview.
#[export] Instance item_status_eq_dec : EqDecision item_status.
Proof. solve_decision. Defined.

(** The check constraint on [job_items.status]. *)
Definition item_status_of (s : string) : option item_status :=
  if bool_decide (s = "pending") then Some IPending
  else if bool_decide (s = "running") then Some IRunning
  else if bool_decide (s = "done") then Some IDone
  else if bool_decide (s = "not_found") then Some INotFound
  else if bool_decide (s = "failed") then Some IFailed
  else if bool_decide (s = "needs_review") then Some INeedsReview
  else None.

Record usage_t := { u_calls : Z; u_tokens : Z; u_seconds : Z }.

(** [extra_data]: the keys the runtime keeps there. *)
Record meta_t := {
  m_token : option string;
  m_start_params : dict;
  m_woken_at : bool;
  m_last_settled : option Z;
}.
#[export] Instance meta_eta : Eta meta_t := λ m,
  {| m_token := m_token m; m_start_params := m_start_params m; m_woken_at := m_woken_at m;
     m_last_settled := m_last_settled m |}.

Record job := {
  job_id : string;
  user_id : string;
  chat_id : option string;
  name : text;
  status : job_status;
  script_path : text;
  script_text : text;
  sandbox_session_id : option string;
  budget : pydict string Z;
  usage : usage_t;
  extra_data : meta_t;
  error_message : option text;
  created_at : Z;
  started_at : option Z;
  completed_at : option Z;
  updated_at : Z;
}.
#[export] Instance job_eta : Eta job := λ j,
  {| job_id := job_id j; user_id := user_id j; chat_id := chat_id j; name := name j;
     status := status j; script_path := script_path j; script_text := script_text j;
     sandbox_session_id := sandbox_session_id j; budget := budget j; usage := usage j;
     extra_data := extra_data j; error_message := error_message j; created_at := created_at j;
     started_at := started_at j; completed_at := completed_at j; updated_at := updated_at j |}.

Record job_item := {
  item_job : string;
  item_key : string;
  item_status_is : item_status;
  payload : json;
  item_result : option json;
  item_review : option dict;
  attempts : Z;
  item_error : option text;
  item_updated : Z;
}.
#[export] Instance job_item_eta : Eta job_item := λ i,
  {| item_job := item_job i; item_key := item_key i; item_status_is := item_status_is i;
     payload := payload i; item_result := item_result i; item_review := item_review i;
     attempts := attempts i; item_error := item_error i; item_updated := item_updated i |}.

Record job_call := {
  call_job : string;
  call_item : option string;
  call_seq : Z;
  call_ok : bool;
  call_error : option text;
}.

Record JobDb := { jobs : list job; items : list job_item; calls : list job_call }.
#[export] Instance JobDb_eta : Eta JobDb := λ d,
  {| jobs := jobs d; items := items d; calls := calls d |}.

(** ** Units of work *)

(** The columns an UPDATE sets; [None] leaves a column alone. *)
Record job_patch := {
  set_status : option job_status;
  set_started : option Z;
  set_completed : option (option Z);
  set_error : option (option text);
  set_usage : option usage_t;
  set_meta : option meta_t;
}.
#[export] Instance job_patch_eta : Eta job_patch := λ p,
  {| set_status := set_status p; set_started := set_started p;
     set_completed := set_completed p; set_error := set_error p; set_usage := set_usage p;
     set_meta := set_meta p |}.
Definition no_change : job_patch :=
  {| set_status := None; set_started := None; set_completed := None; set_error := None;
     set_usage := None; set_meta := None |}.

Record item_patch := {
  set_item_status : option string;
  set_result : option json;
  set_review : option dict;
  set_item_error : option text;
  set_attempts : option Z;
}.

Inductive write : Type :=
| InsertJob (j : job)
| UpdateJob (id : string) (p : job_patch)
| InsertItem (i : job_item)
| UpdateItem (id key : string) (p : item_patch)
| InsertCall (c : job_call).

Definition or_keep {A} (o : option A) (old : A) : A :=
  match o with Some v => v | None => old end.

(** [onupdate] sets [updated_at] with every UPDATE of the row. *)
Definition patch_job (now : Z) (p : job_patch) (j : job) : job :=
  {| job_id := job_id j; user_id := user_id j; chat_id := chat_id j; name := name j;
     status := or_keep (set_status p) (status j);
     script_path := script_path j; script_text := script_text j;
     sandbox_session_id := sandbox_session_id j; budget := budget j;
     usage := or_keep (set_usage p) (usage j);
     extra_data := or_keep (set_meta p) (extra_data j);
     error_message := or_keep (set_error p) (error_message j);
     created_at := created_at j;
     started_at := match set_started p with Some t => Some t | None => started_at j end;
     completed_at := or_keep (set_completed p) (completed_at j);
     updated_at := now |}.

Definition is_job (id : string) (j : job) : bool := bool_decide (job_id j = id).
Definition is_item (id key : string) (i : job_item) : bool :=
  bool_decide (item_job i = id) && bool_decide (item_key i = key).

Definition patch_item (now : Z) (p : item_patch) (i : job_item) : option job_item :=
  match (match set_item_status p with
         | None => Some (item_status_is i)
         | Some s => item_status_of s
         end) with
  | None => None
  | Some st =>
      Some {| item_job := item_job i; item_key := item_key i; item_status_is := st;
              payload := payload i;
              item_result := match set_result p with Some r => Some r | None => item_result i end;
              item_review := match set_review p with Some r => Some r | None => item_review i end;
              attempts := or_keep (set_attempts p) (attempts i);
              item_error := match set_item_error p with Some e => Some e | None => item_error i end;
              item_updated := now |}
  end.

(** One statement of a commit; [None] is the [IntegrityError] of a primary key
    or of a check constraint. *)
Definition apply_write (now : Z) (d : JobDb) (w : write) : option JobDb :=
  match w with
  | InsertJob j => if existsb (is_job (job_id j)) (jobs d) then None
                   else Some (d <| jobs := jobs d ++ [j] |>)
  | UpdateJob id p => Some (d <| jobs := update_where (is_job id) (patch_job now p) (jobs d) |>)
  | InsertItem i => if existsb (is_item (item_job i) (item_key i)) (items d) then None
                    else Some (d <| items := items d ++ [i] |>)
  | UpdateItem id key p =>
      match mapM (λ i, if is_item id key i then patch_item now p i else Some i) (items d) with
      | Some l => Some (d <| items := l |>)
      | None => None
      end
  | InsertCall c => Some (d <| calls := calls d ++ [c] |>)
  end.
Definition flush (now : Z) (ws : list write) (d : JobDb) : option JobDb :=
  foldl (λ o w, match o with Some d => apply_write now d w | None => None end) (Some d) ws.

(** A method: its value and its writes, from what it reads. *)
Definition work (A : Type) : Type := Z → JobDb → A * list write.

(** Reads and commit at one instant. *)
Definition run_work {A} (w : work A) (now : Z) (d : JobDb) : result unit A * JobDb :=
  let '(a, ws) := w now d in
  match flush now ws d with
  | Some d' => (Ok a, d')
  | None => (Err tt, d)
  end.

(** ** Life cycle *)

Definition DEFAULT_BUDGET : pydict string Z :=
  [("max_calls"%string, 5000); ("max_tokens"%string, 20000000); ("max_seconds"%string, 7200);
   ("concurrency"%string, 8)].
Definition budget_get (b : pydict string Z) (k : string) (default : Z) : Z :=
  match dget b k with Some v => v | None => default end.

(** [merged[k] = int(v)] for every positive number. *)
Definition merge_budget (requested : dict) : pydict string Z :=
  foldl (λ b kv, match kv.2 with
                 | JInt v => if 0 <? v then dput b kv.1 v else b
                 | JBool true => dput b kv.1 1
                 | _ => b
                 end) DEFAULT_BUDGET requested.
Definition clamp_concurrency (b : pydict string Z) : pydict string Z :=
  dput b "concurrency" (Z.max 1 (Z.min (budget_get b "concurrency" 8) 16)).

Definition find_job (d : JobDb) (id : string) : option job := List.find (is_job id) (jobs d).

(** [create]; the identifier and the token are drawn by the caller. *)
Definition create (new_id token user : string) (chat : option string) (nm path body : text)
    (session : option string) (requested start_params : dict) : work job := λ now d,
  let j := {|
    job_id := new_id; user_id := user;
    chat_id := match chat with Some EmptyString => None | c => c end;
    name := take 255 nm; status := Pending; script_path := path; script_text := body;
    sandbox_session_id := session; budget := clamp_concurrency (merge_budget requested);
    usage := {| u_calls := 0; u_tokens := 0; u_seconds := 0 |};
    extra_data := {| m_token := Some token; m_start_params := start_params;
                     m_woken_at := false; m_last_settled := None |};
    error_message := None; created_at := now; started_at := None; completed_at := None;
    updated_at := now |} in
  (j, [InsertJob j]).

(** [_same]: [hmac.compare_digest] of two strings raises [TypeError] unless both
    are ASCII. *)
Definition ascii_only (s : string) : bool :=
  forallb (λ c, (N_of_ascii c <? 128)%N) (list_ascii_of_string s).
Definition _same (a b : string) : result unit bool :=
  if ascii_only a && ascii_only b then Ok (bool_decide (a = b)) else Err tt.

Definition verify_token (d : JobDb) (id token : string) : result unit (option job) :=
  match find_job d id with
  | None => Ok None
  | Some j =>
      if is_terminal (status j) then Ok None
      else
        let stored := opt_str_or (m_token (extra_data j)) "" in
        if bool_decide (stored = "") then Ok None
        else match _same stored token with
             | Ok same => Ok (if same then Some j else None)
             | Err e => Err e
             end
  end.

Definition mark_running (id : string) : work unit := λ now d,
  match find_job d id with
  | None => (tt, [])
  | Some j =>
      match status j with
      | Pending | Interrupted | Paused =>
          (tt, [UpdateJob id (no_change <| set_status := Some Running |>
                  <| set_started := Some (or_keep (started_at j) now) |>)])
      | _ => (tt, [])
      end
  end.

(** ** The ledger *)

Record stats_t := {
  total : Z; st_done : Z; st_pending : Z; st_failed : Z; st_not_found : Z;
  st_needs_review : Z; st_running : Z; settled : Z; remaining : Z;
}.
Definition count_status (d : JobDb) (id : string) (s : item_status) : Z :=
  Z.of_nat (List.length (List.filter
    (λ i, bool_decide (item_job i = id) && bool_decide (item_status_is i = s)) (items d))).
Definition stats (d : JobDb) (id : string) : stats_t :=
  let c := count_status d id in
  let total := c IPending + c IRunning + c IDone + c INotFound + c IFailed + c INeedsReview in
  let settled := c IDone + c INotFound in
  {| total := total; st_done := c IDone; st_pending := c IPending; st_failed := c IFailed;
     st_not_found := c INotFound; st_needs_review := c INeedsReview; st_running := c IRunning;
     settled := settled; remaining := total - settled |}.

(** [(error or "")[:4000] or None] *)
Definition clip_error (e : option text) : option text :=
  match e with
  | None | Some [] => None
  | Some t => Some (take 4000 t)
  end.

Definition finish `{JobWording} (id : string) (wanted : job_status) (error : option text) :
    work unit := λ now d,
  match find_job d id with
  | None => (tt, [])
  | Some j =>
      if is_terminal (status j) then (tt, [])
      else
        let st := stats d id in
        let produced := st_done st + st_not_found st + st_needs_review st in
        let failed_for_nothing :=
          bool_decide (wanted = Completed) && (0 <? total st) && (produced =? 0) in
        let status' := if failed_for_nothing then Failed else wanted in
        let error' := if failed_for_nothing then
                        match error with
                        | Some (_ :: _) => error
                        | _ => Some (nothing_produced (total st) (st_failed st) (st_pending st))
                        end
                      else error in
        (tt, [UpdateJob id (no_change <| set_status := Some status' |>
                <| set_error := Some (clip_error error') |>
                <| set_completed := Some (Some now) |>
                <| set_meta := Some ((extra_data j) <| m_token := None |>) |>)])
  end.

Definition set_wake_on_finish (id : string) (value : bool) : work unit := λ now d,
  match find_job d id with
  | None => (tt, [])
  | Some j =>
      let params := m_start_params (extra_data j) in
      let current := match dict_get params "wake_on_finish" with
                     | Some v => truthy v | None => false end in
      if Bool.eqb current value then (tt, [])
      else (tt, [UpdateJob id (no_change <| set_meta := Some ((extra_data j)
                   <| m_start_params := dict_set params "wake_on_finish" (JBool value) |>) |>)])
  end.

Definition rotate_token (id token : string) : work (option string) := λ now d,
  match find_job d id with
  | None => (None, [])
  | Some j => (Some token, [UpdateJob id (no_change
                 <| set_meta := Some ((extra_data j) <| m_token := Some token |>) |>)])
  end.

(** One entry of the list a script seeds: its key, as [str(key or "")], and its
    payload, [{}] for none. *)
Record seed_item := { seed_key : string; seed_payload : json }.
Definition clip_key (k : string) : string := String.substring 0 128 k.
Definition key_of (it : seed_item) : string := clip_key (strip (seed_key it)).

Fixpoint seed_new (now : Z) (id : string) (existing : list string) (l : list seed_item) :
    list write :=
  match l with
  | [] => []
  | it :: l' =>
      let key := key_of it in
      if bool_decide (key = "") || bool_decide (key ∈ existing) then seed_new now id existing l'
      else InsertItem {| item_job := id; item_key := key; item_status_is := IPending;
                         payload := seed_payload it; item_result := None; item_review := None;
                         attempts := 0; item_error := None; item_updated := now |}
             :: seed_new now id (key :: existing) l'
  end.
(** The value is the pair created, skipped. *)
Definition seed (id : string) (l : list seed_item) : work (Z * Z) := λ now d,
  let existing := map item_key (List.filter (λ i, bool_decide (item_job i = id)) (items d)) in
  let ws := seed_new now id existing l in
  let created := Z.of_nat (List.length ws) in
  ((created, Z.of_nat (List.length l) - created), ws).

Definition pending_items (d : JobDb) (id : string) (st : string) (limit : option Z) :
    list job_item :=
  let rows := order_by (λ a b, String.leb (item_key a) (item_key b))
    (List.filter (λ i, bool_decide (item_job i = id) &&
                       bool_decide (item_status_of st = Some (item_status_is i))) (items d)) in
  match limit with
  | Some n => if n =? 0 then rows else take (Z.to_nat n) rows
  | None => rows
  end.

Record item_update := {
  new_status : option string;
  new_result : option json;
  new_review : option dict;
  new_error : option text;
  bump_attempts : bool;
}.

Definition update_item (id key : string) (u : item_update) : work bool := λ now d,
  let k := clip_key key in
  match List.find (is_item id k) (items d) with
  | None => (false, [])
  | Some row =>
      (true, [UpdateItem id k {|
        set_item_status := match new_status u with Some EmptyString => None | s => s end;
        set_result := new_result u;
        set_review := match new_review u with
                      | Some r => Some (dict_update (or_empty (item_review row)) r)
                      | None => None
                      end;
        set_item_error := match new_error u with Some e => Some (take 4000 e) | None => None end;
        set_attempts := if bump_attempts u then Some (attempts row + 1) else None |}])
  end.

(** ** Budget, usage, audit *)

Record budget_left_t := { calls_left : Z; tokens_left : Z; seconds_left : Z; concurrency : Z }.

(** [dict(DEFAULT_BUDGET).update(job.budget)] *)
Definition budget_of (j : job) (k : string) : Z :=
  budget_get (budget j) k (budget_get DEFAULT_BUDGET k 0).

Definition budget_left_of (now : Z) (j : job) : budget_left_t :=
  let started := or_keep (started_at j) (created_at j) in
  let elapsed := Z.quot (now - started) 1000000 in
  {| calls_left := Z.max 0 (budget_of j "max_calls" - u_calls (usage j));
     tokens_left := Z.max 0 (budget_of j "max_tokens" - u_tokens (usage j));
     seconds_left := Z.max 0 (budget_of j "max_seconds" - elapsed);
     concurrency := budget_of j "concurrency" |}.
Definition budget_left (d : JobDb) (now : Z) (id : string) : budget_left_t :=
  match find_job d id with
  | None => {| calls_left := 0; tokens_left := 0; seconds_left := 0; concurrency := 8 |}
  | Some j => budget_left_of now j
  end.

Definition add_usage (id : string) (n tokens : Z) : work unit := λ now d,
  match find_job d id with
  | None => (tt, [])
  | Some j => (tt, [UpdateJob id (no_change <| set_usage := Some
                 {| u_calls := u_calls (usage j) + n; u_tokens := u_tokens (usage j) + tokens;
                    u_seconds := u_seconds (usage j) |} |>)])
  end.

Definition record_call (id : string) (key : option string) (ok : bool) (error : option text) :
    work unit := λ now d,
  let seq := Z.of_nat (List.length (List.filter (λ c, bool_decide (call_job c = id)) (calls d))) in
  (tt, [InsertCall {| call_job := id;
                      call_item := match key with Some EmptyString => None | k => k end;
                      call_seq := seq + 1; call_ok := ok; call_error := clip_error error |}]).

End Jobs.
