(* ===== verification/JobRuntime.v ===== *)
(** * Running batch jobs: [api/routes/v1/internal_jobs.py],
    [orchestration/job_runtime.py] and [orchestration/job_wakeup.py]

    The callbacks a script makes from its sandbox, the driver that watches a job,
    cancelling, resuming, the reaper of jobs nobody drives, and waking the
    conversation.  A handler is a program of service methods, each committed on
    its own, and of requests to the outside: a sub-agent, the sandbox, the queue
    of the conversation. *)

From S2P Require Import Prelude PyString PyDict Jobs.
From Stdlib Require Import Ascii String.

(** Structured output against a JSON schema, and [json.loads] of an object. *)
Class JobHost := {
  parse_schema : dict → string → option json;
  json_loads : text → option dict;
}.

Module JobRuntime.
Import Jobs.

(** ** Programs *)

(** One run of a sub-agent: an exception, with whether a tool outcome is unknown
    in it, or its text, with whether the tools failed. *)
Inductive agent_run : Type :=
| AgentRaised (outcome_unknown : bool)
| AgentText (t : string) (infra_failure : bool).

(** What the outside is asked for. *)
Inductive event : Type :=
| AgentCall (job : string) (tools : list string)
| KillRunner (job : string)
| Launch (job token : string)
| Enqueue (chat job : string) (finished : bool)   (* a follow-up run of the chat *)
| Progress (chat : string)
| UiProgress (chat job : string) (total settled : Z)
| Keepalive (session : string).

(** The result of the liveness command: [None] when it could not be run. *)
Abbreviation probe := (option (Z * text)).

Inductive jprog (A : Type) : Type :=
| JRet (a : A)
| JRead (B : Type) (f : Z → JobDb → B) (k : B → jprog A)
| JWork (B : Type) (w : work B) (k : result unit B → jprog A)
| JAsk (job : string) (tools : list string) (k : agent_run → jprog A)
| JProbe (job : string) (k : probe → jprog A)
| JEmit (e : event) (k : jprog A).
Arguments JRet {A} a.
Arguments JRead {A B} f k.
Arguments JWork {A B} w k.
Arguments JAsk {A} job tools k.
Arguments JProbe {A} job k.
Arguments JEmit {A} e k.

Fixpoint jbind {A B} (p : jprog A) (f : A → jprog B) : jprog B :=
  match p with
  | JRet a => f a
  | JRead g k => JRead g (λ r, jbind (k r) f)
  | JWork w k => JWork w (λ r, jbind (k r) f)
  | JAsk j ts k => JAsk j ts (λ r, jbind (k r) f)
  | JProbe j k => JProbe j (λ r, jbind (k r) f)
  | JEmit e k => JEmit e (jbind k f)
  end.

(** A method whose failure to commit ends the handler with [err]. *)
Definition must {A B} (w : work B) (err : A) (k : B → jprog A) : jprog A :=
  JWork w (λ r, match r with Ok b => k b | Err _ => JRet err end).
(** [try: ... except Exception: log] around a method. *)
Definition tried {A B} (w : work B) (k : jprog A) : jprog A := JWork w (λ _, k).
(** Running a program alone at one clock reading, with the answers of the
    sub-agents and of the sandbox. *)
Record outside := { agents : list agent_run; probes : list probe; log : list event }.
#[export] Instance outside_eta : Eta outside := λ o,
  {| agents := agents o; probes := probes o; log := log o |}.

Fixpoint run {A} (now : Z) (p : jprog A) (o : outside) (d : JobDb) : A * outside * JobDb :=
  match p with
  | JRet a => (a, o, d)
  | JRead f k => run now (k (f now d)) o d
  | JWork w k => let '(r, d') := run_work w now d in run now (k r) o d'
  | JAsk j ts k =>
      run now (k (hd (AgentRaised false) (agents o)))
        {| agents := tl (agents o); probes := probes o; log := log o ++ [AgentCall j ts] |} d
  | JProbe j k =>
      run now (k (hd None (probes o)))
        {| agents := agents o; probes := tl (probes o); log := log o |} d
  | JEmit e k => run now k (o <| log := log o ++ [e] |>) d
  end.

(** ** Callbacks of the script *)

Inductive response : Type :=
| Data (j : json)
| ServerError                 (* 500: a commit failed, or the token is not ASCII *)
| MissingToken                (* 401 *)
| TokenRefused                (* 403 *)
| CallsExhausted              (* 429 *)
| TimeExhausted               (* 429 *)
| BadRequest                  (* 400 *)
| OutcomeUnknown              (* 409 *)
| ToolsUnavailable            (* 503 *)
| NoValidResult.              (* 422 *)

(** What [_auth] hands to an endpoint. *)
Record ctx_t := { ctx_chat : option string; ctx_allowed : list string }.

Definition strings_of (v : option json) : list string :=
  match v with
  | Some (JList l) => omap (λ x, match x with JStr s => Some s | _ => None end) l
  | _ => []
  end.
Definition ctx_of (j : job) : ctx_t :=
  {| ctx_chat := chat_id j;
     ctx_allowed := strings_of (dict_get (m_start_params (extra_data j)) "allowed_tools") |}.

(** [_auth] *)
Definition auth {A} (id : string) (token : option string) (fail : response → A)
    (k : ctx_t → jprog A) : jprog A :=
  match token with
  | None | Some EmptyString => JRet (fail MissingToken)
  | Some t =>
      JRead (λ _ d, verify_token d id t)
        (λ r, match r with
              | Ok (Some j) => k (ctx_of j)
              | Ok None => JRet (fail TokenRefused)
              | Err _ => JRet (fail ServerError)
              end)
  end.

Record agent_body := {
  b_schema : option dict;
  b_tools : list string;
  b_max_attempts : Z;
  b_item_key : option string;
}.

(** The tools the script declares, cut down to those of the conversation. *)
Definition granted_tools (declared allowed : list string) : list string :=
  match allowed with
  | [] => []
  | _ => List.filter (λ t, bool_decide (t ∈ allowed)) declared
  end.

Definition has_key (key : option string) : option string :=
  match key with Some EmptyString => None | k => k end.

Section callbacks.
Context `{JobWording, JobHost}.

Inductive agent_result : Type :=
| Got (v : json)
| Nothing (infra_failed : bool)
| Unknown.

(** The loop over the attempts. *)
Fixpoint agent_attempts (n : nat) (id : string) (tools : list string) (schema : option dict)
    (infra : bool) (k : agent_result → jprog response) : jprog response :=
  match n with
  | O => k (Nothing infra)
  | S n' =>
      JAsk id tools (λ r,
        match r with
        | AgentRaised true => k Unknown
        | AgentRaised false => agent_attempts n' id tools schema true k
        | AgentText t true => agent_attempts n' id tools schema true k
        | AgentText t false =>
            match schema with
            | None => k (Got (JStr t))
            | Some s =>
                match parse_schema s t with
                | None | Some JNull => agent_attempts n' id tools schema false k
                | Some v => k (Got v)
                end
            end
        end)
  end.

(** [result if isinstance(result, dict) else {"text": result}] *)
Definition as_dict (v : json) : json :=
  match v with JDict _ => v | _ => JDict [("text"%string, v)] end.

Definition mark (st : string) (result : option json) (error : option text) (bump : bool) :
    item_update :=
  {| new_status := Some st; new_result := result; new_review := None; new_error := error;
     bump_attempts := bump |}.

(** The item the callback names is updated, errors being logged only. *)
Definition mark_item {A} (id : string) (key : option string) (u : item_update) (k : jprog A) :
    jprog A :=
  match has_key key with Some key => tried (update_item id key u) k | None => k end.

(** Booking the outcome of the attempts. *)
Definition settle_agent (id : string) (key : option string) (res : agent_result) : jprog response :=
  match res with
  | Unknown => JRet OutcomeUnknown
  | Got v =>
      must (add_usage id 1 0) ServerError (λ _,
      must (record_call id key true None) ServerError (λ _,
      mark_item id key (mark "done" (Some (as_dict v)) None false) (JRet (Data v))))
  | Nothing infra =>
      let reason := if infra then no_evidence else not_parsed in
      must (add_usage id 1 0) ServerError (λ _,
      must (record_call id key false (Some reason)) ServerError (λ _,
      mark_item id key (mark "failed" None (Some reason) false)
        (JRet (if infra then ToolsUnavailable else NoValidResult))))
  end.

(** [POST /{job_id}/agent].  The semaphores between the check of the budget and the
    attempts only hold a handler up: they take no part in the check or the booking,
    so what they cause is that other handlers run in between. *)
Definition job_agent (id : string) (token : option string) (b : agent_body) : jprog response :=
  auth id token (λ r, r) (λ ctx,
  JRead (λ now d, budget_left d now id) (λ left,
  if calls_left left <=? 0 then JRet CallsExhausted
  else if seconds_left left <=? 0 then JRet TimeExhausted
  else
    let tools := granted_tools (b_tools b) (ctx_allowed ctx) in
    let schema := match b_schema b with Some [] => None | s => s end in
    let n := Z.max 1 (Z.min (if b_max_attempts b =? 0 then 2 else b_max_attempts b) 4) in
    mark_item id (b_item_key b) (mark "running" None None true)
      (agent_attempts (Z.to_nat n) id tools schema false
         (settle_agent id (b_item_key b))))).

Inductive ledger_op : Type :=
| OpSeed (l : list seed_item)
| OpPending (st : option string) (limit : option Z)
| OpUpdate (key : option string) (u : item_update)
| OpStats
| OpBudget
| OpOther.

Definition stats_json (s : stats_t) (progressed : bool) : json :=
  JDict [("total"%string, JInt (total s)); ("done"%string, JInt (st_done s));
         ("settled"%string, JInt (settled s)); ("remaining"%string, JInt (remaining s));
         ("progressed"%string, JBool progressed)].
Definition item_json (i : job_item) : json :=
  JDict [("key"%string, JStr (item_key i)); ("payload"%string, payload i);
         ("attempts"%string, JInt (attempts i))].

(** The [stats] operation also stores the count it returned. *)
Definition stats_op (id : string) : work (stats_t * bool) := λ now d,
  match find_job d id with
  | None => ((stats d id, false), [])
  | Some j =>
      let st := stats d id in
      let prev := or_keep (m_last_settled (extra_data j)) (-1) in
      ((st, negb (settled st =? prev)),
       [UpdateJob id (no_change
          <| set_meta := Some ((extra_data j) <| m_last_settled := Some (settled st) |>) |>)])
  end.

(** [POST /{job_id}/ledger] *)
Definition job_ledger (id : string) (token : option string) (op : ledger_op) : jprog response :=
  auth id token (λ r, r) (λ _,
  match op with
  | OpSeed l => must (seed id l) ServerError (λ cs,
      JRet (Data (JDict [("created"%string, JInt cs.1); ("skipped"%string, JInt cs.2)])))
  | OpPending st limit =>
      JRead (λ _ d, pending_items d id (match st with None | Some EmptyString => "pending"%string | Some s => s end) limit)
        (λ rows, JRet (Data (JList (map item_json rows))))
  | OpUpdate key u =>
      match has_key key with
      | None => JRet BadRequest
      | Some k => must (update_item id k u) ServerError (λ ok,
          JRet (Data (JDict [("ok"%string, JBool ok); ("known_key"%string, JBool ok)])))
      end
  | OpStats => must (stats_op id) ServerError (λ s, JRet (Data (stats_json s.1 s.2)))
  | OpBudget => JRead (λ now d, budget_left d now id)
      (λ l, JRet (Data (JDict [("calls_left"%string, JInt (calls_left l));
                               ("tokens_left"%string, JInt (tokens_left l));
                               ("seconds_left"%string, JInt (seconds_left l))])))
  | OpOther => JRet BadRequest
  end).

Definition data_ok : json := JDict [("ok"%string, JBool true)].

(** [POST /{job_id}/log]: [lifecycle] and [message] as the body has them. *)
Definition job_log (id : string) (token : option string) (lifecycle : option string)
    (error : option text) (message : option string) : jprog response :=
  auth id token (λ r, r) (λ ctx,
  match lifecycle with
  | Some (String _ _ as l) =>
      if bool_decide (l = "running"%string) then
        must (mark_running id) ServerError (λ _, JRet (Data data_ok))
      else if bool_decide (l = "completed"%string) then
        must (finish id Completed error) ServerError (λ _, JRet (Data data_ok))
      else if bool_decide (l = "failed"%string) then
        must (finish id Failed error) ServerError (λ _, JRet (Data data_ok))
      else JRet (Data data_ok)
  | _ =>
      if bool_decide (strip (opt_str_or message "") = "") then JRet (Data data_ok)
      else match ctx_chat ctx with
           | Some c => JEmit (Progress c) (JRet (Data data_ok))
           | None => JRet (Data data_ok)
           end
  end).

End callbacks.
(** ** Waking the conversation *)

Definition start_flag (j : job) (k : string) : bool :=
  match dict_get (m_start_params (extra_data j)) k with Some v => truthy v | None => false end.

(** The block of [wake_on_job_finish]: the chat to wake, marked as woken. *)
Definition claim_wake (id : string) : work (option string) := λ now d,
  match find_job d id with
  | None => (None, [])
  | Some j =>
      match has_key (chat_id j) with
      | None => (None, [])
      | Some chat =>
          if negb (is_terminal (status j)) then (None, [])
          else if m_woken_at (extra_data j) then (None, [])
          else if negb (start_flag j "wake_on_finish") then (None, [])
          else (Some chat, [UpdateJob id (no_change
                 <| set_meta := Some ((extra_data j) <| m_woken_at := true |>) |>)])
      end
  end.

(** [_maybe_wake]: exceptions are logged only. *)
Definition wake_on_job_finish {A} (id : string) (k : jprog A) : jprog A :=
  JWork (claim_wake id) (λ r,
    match r with Ok (Some chat) => JEmit (Enqueue chat id true) k | _ => k end).

Definition progress_chat (id : string) (d : JobDb) : option string :=
  match find_job d id with
  | None => None
  | Some j =>
      match has_key (chat_id j) with
      | None => None
      | Some chat => if bool_decide (status j = Running) && start_flag j "wake_on_finish"
                     then Some chat else None
      end
  end.
(** [wake_on_job_progress]; [busy chat] says that the chat has an active run. *)
Definition wake_on_job_progress {A} (busy : string → bool) (id : string) (k : jprog A) : jprog A :=
  JRead (λ _ d, progress_chat id d) (λ o,
    match o with
    | Some chat => if busy chat then k else JEmit (Enqueue chat id false) k
    | None => k
    end).

(** ** Cancelling, resuming, reaping *)

Section control.
Context `{JobWording, JobHost}.

Definition owned (d : JobDb) (id user : string) : option job :=
  match find_job d id with
  | Some j => if bool_decide (user_id j = user) then Some j else None
  | None => None
  end.

Definition cancel_job (id user : string) : jprog bool :=
  JRead (λ _ d, owned d id user) (λ o,
  match o with
  | None => JRet false
  | Some j =>
      must (finish id Cancelled (Some cancelled_by_user)) false (λ _,
      match has_key (sandbox_session_id j) with
      | Some _ => JEmit (KillRunner id) (JRet true)
      | None => JRet true
      end)
  end).

(** The first commit of [resume_job]. *)
Definition reopen (id : string) : work unit := λ now d,
  match find_job d id with
  | None => (tt, [])
  | Some j => (tt, [UpdateJob id (no_change <| set_status := Some Pending |>
                 <| set_completed := Some None |> <| set_error := Some None |>
                 <| set_meta := Some ((extra_data j) <| m_woken_at := false |>) |>)])
  end.

(** [active]: the jobs this process drives; [token]: the one that is drawn. *)
Definition resume_job (active : list string) (id user token : string) : jprog bool :=
  JRead (λ _ d, owned d id user) (λ o,
  match o with
  | None => JRet false
  | Some j =>
      if bool_decide (status j = Running) && bool_decide (id ∈ active) then JRet false
      else
        must (reopen id) false (λ _,
        must (rotate_token id token) false (λ t,
        JEmit (Launch id (opt_str_or t "")) (JRet true)))
  end).

Definition ORPHAN_PENDING_GRACE : Z := seconds 300.
Definition SILENT_TIMEOUT : Z := seconds 900.

Definition interrupt_patch (j : job) (message : text) : write :=
  UpdateJob (job_id j) (no_change <| set_status := Some Interrupted |>
    <| set_error := Some (Some message) |>
    <| set_meta := Some ((extra_data j) <| m_token := None |>) |>).

(** A live job that no driver here follows and whose row was not touched for
    the time its status allows. *)
Definition orphaned (active : list string) (now : Z) (j : job) : bool :=
  is_live (status j) && negb (bool_decide (job_id j ∈ active)) &&
  let quiet := now - updated_at j in
  let limit := if bool_decide (status j = Pending) then ORPHAN_PENDING_GRACE else SILENT_TIMEOUT in
  (limit <=? quiet).

Definition reap_rows (active : list string) : work (list string) := λ now d,
  let lost := List.filter (orphaned active now) (jobs d) in
  (map job_id lost,
   map (λ j, interrupt_patch j (lost_contact ((now - updated_at j) / seconds 60))) lost).

Fixpoint wake_all {A} (ids : list string) (k : jprog A) : jprog A :=
  match ids with
  | [] => k
  | id :: ids' => wake_on_job_finish id (wake_all ids' k)
  end.
Definition reap_orphan_jobs (active : list string) : jprog Z :=
  must (reap_rows active) 0 (λ ids, wake_all ids (JRet (Z.of_nat (List.length ids)))).

(** At start-up every live job is an orphan. *)
Definition interrupt_live : work Z := λ now d,
  let rows := List.filter (λ j, is_live (status j)) (jobs d) in
  (Z.of_nat (List.length rows), map (λ j, interrupt_patch j service_restarted) rows).
Definition resume_running_jobs : jprog Z := must interrupt_live 0 (λ n, JRet n).

(** ** The driver *)

Record drive_state := {
  started : Z;
  last_progress : Z;
  last_ui : Z;
  last_ui_seen : Z * Z;
  last_keepalive : Z;
  last_liveness : Z;
  last_wake : Z;
  last_wake_settled : Z;
  last_heartbeat : Z;
  last_heartbeat_ts : Z;
}.
#[export] Instance drive_state_eta : Eta drive_state := λ s,
  {| started := started s; last_progress := last_progress s; last_ui := last_ui s;
     last_ui_seen := last_ui_seen s; last_keepalive := last_keepalive s;
     last_liveness := last_liveness s; last_wake := last_wake s;
     last_wake_settled := last_wake_settled s; last_heartbeat := last_heartbeat s;
     last_heartbeat_ts := last_heartbeat_ts s |}.

(** The state [drive] starts from, at a reading of the monotonic clock. *)
Definition drive_init (t : Z) : drive_state :=
  {| started := t; last_progress := 0; last_ui := 0; last_ui_seen := (-1, -1);
     last_keepalive := 0; last_liveness := t; last_wake := t; last_wake_settled := -1;
     last_heartbeat := -1; last_heartbeat_ts := t |}.

Inductive drive_end : Type :=
| NoJob
| Ended (s : job_status)
| WallClock
| SilentJob
| RunnerGone (s : job_status).

(** Line breaks of Python strings. *)
Definition line_break (c : Z) : bool :=
  existsb (Z.eqb c) [133; 8232; 8233] || (10 <=? c) && (c <=? 13) || (28 <=? c) && (c <=? 30).
Fixpoint lines_of (line : text) (t : text) : list text :=
  match t with
  | [] => [rev line]
  | c :: t' => if line_break c then rev line :: lines_of [] t' else lines_of (c :: line) t'
  end.
Fixpoint starts_with (p t : text) : bool :=
  match p, t with
  | [], _ => true
  | x :: p', y :: t' => (x =? y) && starts_with p' t'
  | _, [] => false
  end.
Fixpoint has_infix (p t : text) : bool :=
  starts_with p t || match t with [] => false | _ :: t' => has_infix p t' end.

Definition terminal_of (s : string) : option job_status :=
  if bool_decide (s = "completed"%string) then Some Completed
  else if bool_decide (s = "failed"%string) then Some Failed
  else if bool_decide (s = "cancelled"%string) then Some Cancelled
  else None.
Definition str_field (d : dict) (k : string) : string :=
  match dict_get d k with Some (JStr s) => s | _ => ""%string end.

(** [_final_from_marker] *)
Fixpoint final_from_lines (ls : list text) : job_status * text :=
  match ls with
  | [] => (Failed, [])
  | l :: ls' =>
      let line := strip_text l in
      if negb (starts_with (text_of "{") line) ||
         negb (has_infix ([34] ++ text_of "status" ++ [34]) line)
      then final_from_lines ls'
      else match json_loads line with
           | None => final_from_lines ls'
           | Some data =>
               match terminal_of (str_field data "status") with
               | Some s => (s, text_of (str_field data "error"))
               | None => final_from_lines ls'
               end
           end
  end.
Definition final_from_marker (t : text) : job_status * text := final_from_lines (lines_of [] t).

(** [_runner_liveness]: alive, and otherwise the tail of the output. *)
Definition runner_liveness (r : probe) : option text :=
  match r with
  | None => None
  | Some (code, out) =>
      if code =? 9 then None
      else if starts_with (text_of "ALIVE") (skip_spaces out) then None
      else Some (drop (List.length out - 1200) out)
  end.

Definition PROGRESS_EVERY : Z := seconds 5.
Definition UI_PROGRESS_EVERY : Z := seconds 15.
Definition PROGRESS_WAKE_EVERY : Z := 300.

(** What one pass reads in its session. *)
Definition wake_every_of (j : job) : Z :=
  seconds (match dict_get (m_start_params (extra_data j)) "progress_wake_sec" with
           | Some (JInt n) => n
           | _ => PROGRESS_WAKE_EVERY
           end).
Definition heartbeat_of (j : job) (st : stats_t) : Z := u_calls (usage j) + settled st.

Definition emit_if {A} (b : bool) (chat : option string) (e : string → event) (k : jprog A) :
    jprog A :=
  match chat with
  | Some c => if b then JEmit (e c) k else k
  | None => k
  end.

(** One pass of the loop of [drive]: [t] is the reading of the clock inside the
    session, [t'] the one after it.  The value is how the driver ends, or the
    state of the next pass. *)
Definition drive_pass (busy : string → bool) (chat : option string) (id : string) (t t' : Z)
    (s : drive_state) : jprog (drive_end + drive_state) :=
  JRead (λ _ d, match find_job d id with Some j => Some (j, stats d id) | None => None end) (λ o,
  match o with
  | None => JRet (inl NoJob)
  | Some (j, st) =>
    if is_terminal (status j) then wake_on_job_finish id (JRet (inl (Ended (status j))))
    else
    let elapsed := t - started s in
    if seconds (budget_get (budget j) "max_seconds" 7200) <? elapsed then
      must (finish id Failed (Some wall_clock_exceeded)) (inl WallClock) (λ _, JRet (inl WallClock))
    else
    let heartbeat := heartbeat_of j st in
    let beat := negb (heartbeat =? last_heartbeat s) in
    if negb beat && (SILENT_TIMEOUT <? t - last_heartbeat_ts s) && (seconds 120 <? elapsed) then
      must (finish id Failed (Some silent_too_long)) (inl SilentJob) (λ _,
      wake_on_job_finish id (JRet (inl SilentJob)))
    else
    let s1 := if beat then s <| last_heartbeat := heartbeat |> <| last_heartbeat_ts := t |> else s in
    let progress := PROGRESS_EVERY <=? t' - last_progress s1 in
    let s2 := if progress then s1 <| last_progress := t' |> else s1 in
    let seen := (total st, settled st) in
    let ui := (UI_PROGRESS_EVERY <=? t' - last_ui s2) && negb (bool_decide (seen = last_ui_seen s2)) in
    let s3 := if ui then s2 <| last_ui := t' |> <| last_ui_seen := seen |> else s2 in
    let session := has_key (sandbox_session_id j) in
    let touch := negb (is_null session) && (seconds 60 <=? t' - last_keepalive s3) in
    let s4 := if touch then s3 <| last_keepalive := t' |> else s3 in
    let check := negb (is_null session) && (seconds 90 <=? t' - last_liveness s4) &&
                 (seconds 60 <=? t' - started s4) in
    let s5 := if check then s4 <| last_liveness := t' |> else s4 in
    let every := wake_every_of j in
    let wake := (0 <? every) && (every <=? t' - last_wake s5) in
    let s6 := if wake then s5 <| last_wake := t' |> <| last_wake_settled := settled st |> else s5 in
    let rest : jprog (drive_end + drive_state) :=
      if wake then wake_on_job_progress busy id (JRet (inr s6)) else JRet (inr s6) in
    emit_if progress (has_key chat) Progress
    (emit_if ui (has_key chat) (λ c, UiProgress c id (total st) (settled st))
    (emit_if touch session Keepalive
    (if check then
       JProbe id (λ r,
         match runner_liveness r with
         | None => rest
         | Some tail =>
             let '(final, err) := final_from_marker tail in
             must (finish id final (Some (match err with [] => runner_gone (drop (List.length tail - 600) tail)
                                                  | _ => err end)))
               (inl (RunnerGone final)) (λ _,
             wake_on_job_finish id (JRet (inl (RunnerGone final))))
         end)
     else rest)))
  end).

(** The loop: one pass for every pair of readings of the monotonic clock. *)
Fixpoint drive (busy : string → bool) (chat : option string) (id : string)
    (clock : list (Z * Z)) (s : drive_state) : jprog (option drive_end) :=
  match clock with
  | [] => JRet None
  | (t, t') :: clock' =>
      jbind (drive_pass busy chat id t t' s) (λ r,
        match r with
        | inl e => JRet (Some e)
        | inr s' => drive busy chat id clock' s'
        end)
  end.

(** [start_job]: the identifier and the token are drawn by the caller. *)
Definition start_job (new_id token user : string) (chat : option string) (nm path body : text)
    (session : string) (requested start_params : dict) (interpreter : string) :
    jprog (option string) :=
  must (create new_id token user chat nm path body (Some session) requested
          (dict_set start_params "interpreter" (JStr interpreter))) None (λ j,
  JEmit (Launch (job_id j) token) (JRet (Some (job_id j)))).

End control.
End JobRuntime.
