(* ===== verification/JobsProps.v ===== *)
(** * Batch jobs: lemmas

    What one statement and one commit change, which writes the methods make, how
    a method run at once acts on one job, and what histories of them keep. *)

From S2P Require Import Prelude PyString PyDict Jobs JobRuntime.
From Stdlib Require Import Ascii String.

Import Jobs JobRuntime.

(** ** Commits *)

Lemma flush_cons now w ws d :
  flush now (w :: ws) d =
  match apply_write now d w with Some d' => flush now ws d' | None => None end.
Proof.
  unfold flush. cbn [foldl]. destruct (apply_write now d w) as [d'|]; [done|].
  induction ws as [|w' ws IH]; [done|]. exact IH.
Qed.

Lemma flush_nil now d : flush now [] d = Some d.
Proof. done. Qed.

Definition item_id (i : job_item) : string * string := (item_job i, item_key i).

Lemma is_item_true id key i : is_item id key i = true ↔ item_id i = (id, key).
Proof.
  unfold is_item, item_id. rewrite andb_true_iff, !bool_decide_eq_true. naive_solver.
Qed.

Lemma is_job_true id j : is_job id j = true ↔ job_id j = id.
Proof. apply bool_decide_eq_true. Qed.

Lemma patch_item_keeps now p i i' :
  patch_item now p i = Some i' → item_id i' = item_id i ∧ payload i' = payload i.
Proof. unfold patch_item. intros E. by split_matches E. Qed.

(** The writes that touch the item of a key. *)
Definition touches (k : string * string) (w : write) : Prop :=
  match w with UpdateItem id key _ => (id, key) = k | _ => False end.

(** [d'] extends [d]: the same rows in the same order, new ones at the end, no
    item with another payload, an item as it was unless [updated] holds of it. *)
Record extends (updated : string * string → Prop) (d d' : JobDb) : Prop := {
  ext_jobs : map job_id (jobs d) `prefix_of` map job_id (jobs d');
  ext_calls : calls d `prefix_of` calls d';
  ext_items : ∃ old new, items d' = old ++ new ∧
    Forall2 (λ i i', item_id i' = item_id i ∧ payload i' = payload i ∧
                     (¬ updated (item_id i) → i' = i)) (items d) old;
}.

Definition keyed (d : JobDb) : Prop :=
  NoDup (map job_id (jobs d)) ∧ NoDup (map item_id (items d)).

Lemma extends_refl (P : string * string → Prop) d : extends P d d.
Proof.
  split; [done..|]. exists (items d), []. rewrite app_nil_r. split; [done|].
  apply Forall2_same_length_lookup_2; [done|]. intros n x y Hx Hy. by simplify_eq.
Qed.

Lemma extends_trans (P : string * string → Prop) d1 d2 d3 : extends P d1 d2 → extends P d2 d3 → extends P d1 d3.
Proof.
  intros [Hj1 Hc1 (o1 & n1 & E1 & F1)] [Hj2 Hc2 (o2 & n2 & E2 & F2)].
  split; [by etrans..|]. rewrite E1 in F2. apply Forall2_app_inv_l in F2 as (a & b & Fa & Fb & ->).
  exists a, (b ++ n2). rewrite app_assoc. split; [done|].
  clear -F1 Fa. revert a Fa. induction F1 as [|i i1 l l1 (H1 & H2 & H3) _ IH]; intros a Fa.
  - by apply Forall2_nil_inv_l in Fa as ->.
  - apply Forall2_cons_inv_l in Fa as (i2 & a' & (G1 & G2 & G3) & Fa & ->).
    constructor; [|by apply IH]. split_and!; [congruence..|]. intros Hn.
    rewrite G3 by (by rewrite H1). auto.
Qed.

Lemma extends_weaken (P Q : string * string → Prop) d d' :
  (∀ k, P k → Q k) → extends P d d' → extends Q d d'.
Proof.
  intros HPQ [Hj Hc (o & n & E & F)]. split; [done..|]. exists o, n. split; [done|].
  eapply Forall2_impl; [exact F|]. cbn. intros i i' (H1 & H2 & H3). split_and!; auto.
Qed.

Lemma Forall2_refl_items (R : job_item → job_item → Prop) l : (∀ i, R i i) → Forall2 R l l.
Proof. intros HR. induction l; constructor; auto. Qed.

Lemma update_where_ids now id p l :
  map job_id (update_where (is_job id) (patch_job now p) l) = map job_id l.
Proof. unfold update_where. rewrite map_map. apply map_ext. intros j. by destruct (is_job id j). Qed.

Lemma mapM_items_Forall2 now id key p l l' :
  mapM (λ i, if is_item id key i then patch_item now p i else Some i) l = Some l' →
  Forall2 (λ i i', item_id i' = item_id i ∧ payload i' = payload i ∧
                   (item_id i ≠ (id, key) → i' = i)) l l'.
Proof.
  intros E. apply mapM_Some_1 in E. eapply Forall2_impl; [exact E|]. cbn. intros i i' Hi.
  destruct (is_item id key i) eqn:Ei.
  - apply is_item_true in Ei. apply patch_item_keeps in Hi as [? ?]. by split_and!.
  - by injection Hi as <-.
Qed.

Lemma Forall2_item_ids (R : job_item → job_item → Prop) l l' :
  (∀ i i', R i i' → item_id i' = item_id i) → Forall2 R l l' → map item_id l' = map item_id l.
Proof. intros HR. induction 1 as [|i i' l l' Hi _ IH]; cbn; [done|]. by rewrite (HR _ _ Hi), IH. Qed.

Lemma existsb_not_in {A B} (f : A → bool) (g : A → B) l x :
  existsb f l = false → (∀ y, g y = x → f y = true) → ∀ z, z ∈ map g l → z ≠ x.
Proof.
  intros He Hf z Hz ->. apply list_elem_of_fmap in Hz as (y & -> & Hy).
  assert (existsb f l = true); [|congruence]. apply existsb_exists. exists y.
  split; [by apply list_elem_of_In|by apply Hf].
Qed.

Lemma apply_write_extends now d w d' :
  apply_write now d w = Some d' → keyed d →
  keyed d' ∧ extends (λ k, touches k w) d d'.
Proof.
  intros E [Hj Hi]. destruct w as [j|id p|i|id key p|c]; cbn in E.
  - destruct (existsb _ _) eqn:Ex; [done|]. injection E as <-. split.
    + split; [|done]. cbn. rewrite map_app. apply NoDup_snoc; [done|].
      eapply existsb_not_in; [exact Ex|]. intros y Hy. by apply is_job_true.
    + split; cbn; [rewrite map_app; by apply prefix_app_r|done|]. exists (items d), [].
      rewrite app_nil_r. split; [done|]. by apply Forall2_refl_items.
  - assert (Hids : map job_id (jobs d') = map job_id (jobs d)).
    { injection E as <-. apply update_where_ids. }
    assert (Hit : items d' = items d ∧ calls d' = calls d) by by injection E as <-.
    destruct Hit as [Hit Hca]. split; [split; [by rewrite Hids|by rewrite Hit]|].
    split; [by rewrite Hids|by rewrite Hca|]. exists (items d), [].
    rewrite app_nil_r. split; [done|]. by apply Forall2_refl_items.
  - destruct (existsb _ _) eqn:Ex; [done|]. injection E as <-. split.
    + split; [done|]. cbn. rewrite map_app. apply NoDup_snoc; [done|].
      eapply existsb_not_in; [exact Ex|]. intros y Hy. apply is_item_true. done.
    + split; cbn; [done..|]. exists (items d), [i]. split; [done|]. by apply Forall2_refl_items.
  - destruct (mapM _ _) as [l|] eqn:Em; [|done]. injection E as <-.
    apply mapM_items_Forall2 in Em. split.
    + split; [done|]. cbn. erewrite Forall2_item_ids; [done| |exact Em]. by intros ?? (? & _).
    + split; cbn; [done..|]. exists l, []. rewrite app_nil_r. split; [done|].
      eapply Forall2_impl; [exact Em|]. cbn. intros i i' (? & ? & Hn). split_and!; [done..|].
      intros Ht. apply Hn. intros Heq. by apply Ht.
  - injection E as <-. split; [done|]. split; cbn; [done|by apply prefix_app_r|].
    exists (items d), []. rewrite app_nil_r. split; [done|]. by apply Forall2_refl_items.
Qed.

Lemma flush_extends now ws d d' :
  flush now ws d = Some d' → keyed d →
  keyed d' ∧ extends (λ k, Exists (touches k) ws) d d'.
Proof.
  revert d. induction ws as [|w ws IH]; intros d.
  - intros [= <-] Hk. split; [done|]. apply extends_refl.
  - rewrite flush_cons. destruct (apply_write now d w) as [d1|] eqn:E; [|done].
    intros Hf Hk. destruct (apply_write_extends _ _ _ _ E Hk) as [Hk1 He1].
    destruct (IH _ Hf Hk1) as [Hk2 He2]. split; [done|].
    eapply extends_trans; [eapply extends_weaken; [|exact He1]|eapply extends_weaken; [|exact He2]];
      intros k Hx; [by apply Exists_cons_hd|by apply Exists_cons_tl].
Qed.

(** ** The writes of the methods *)

(** The writes of a method, from the clock and the tables it read. *)
Definition writes_of {A} (w : work A) : Z → JobDb → list write := λ now d, (w now d).2.

(** The units of work of the service and of the runtime; [reopen], the first
    commit of a resume, is kept apart. *)
Inductive method `{JobWording} : (Z → JobDb → list write) → Prop :=
| m_create id tok u c n p b s rq sp : method (writes_of (create id tok u c n p b s rq sp))
| m_mark_running id : method (writes_of (mark_running id))
| m_finish id st e : is_terminal st = true → method (writes_of (finish id st e))
| m_set_wake id v : method (writes_of (set_wake_on_finish id v))
| m_rotate id tok : method (writes_of (rotate_token id tok))
| m_seed id l : method (writes_of (seed id l))
| m_update id key u : method (writes_of (update_item id key u))
| m_usage id n t : method (writes_of (add_usage id n t))
| m_call id key ok e : method (writes_of (record_call id key ok e))
| m_stats id : method (writes_of (stats_op id))
| m_claim_wake id : method (writes_of (claim_wake id))
| m_reap active : method (writes_of (reap_rows active))
| m_restart : method (writes_of interrupt_live).

(** A commit of a method that read tables [d0], at [now0], of any age. *)
Definition stale_commit `{JobWording} (d d' : JobDb) : Prop :=
  ∃ m now0 d0 now, (method m ∨ ∃ id, m = writes_of (reopen id)) ∧
    flush now (m now0 d0) d = Some d'.
(** Such a commit that does not update the item [k]. *)
Definition sparing_commit `{JobWording} (k : string * string) (d d' : JobDb) : Prop :=
  ∃ m now0 d0 now, (method m ∨ ∃ id, m = writes_of (reopen id)) ∧
    ¬ Exists (touches k) (m now0 d0) ∧ flush now (m now0 d0) d = Some d'.
(** A method run at once, no job being reopened. *)
Definition at_once `{JobWording} (d d' : JobDb) : Prop :=
  ∃ m now, method m ∧ d' = or_keep (flush now (m now d) d) d.

(** Seeding inserts; it updates nothing. *)
Lemma seed_new_inserts now id existing l w :
  w ∈ seed_new now id existing l →
  ∃ i, w = InsertItem i ∧ item_job i = id ∧ item_status_is i = IPending ∧ attempts i = 0 ∧
       item_key i ∉ existing ∧ item_key i ≠ ""%string.
Proof.
  revert existing. induction l as [|it l IH]; intros existing; cbn [seed_new].
  { by intros ?%not_elem_of_nil. }
  destruct (decide (key_of it = ""%string)) as [E1|E1];
    [rewrite (bool_decide_true _ E1); apply IH|rewrite (bool_decide_false _ E1); cbn [orb]].
  destruct (decide (key_of it ∈ existing)) as [E2|E2];
    [rewrite (bool_decide_true _ E2); apply IH|rewrite (bool_decide_false _ E2)].
  intros [->|Hin]%elem_of_cons.
  - eexists. split_and!; done.
  - destruct (IH _ Hin) as (i & ? & ? & ? & ? & Hn & ?). exists i. split_and!; try done.
    intros Hi. apply Hn. by right.
Qed.

Lemma seed_spares id l now d k : ¬ Exists (touches k) (seed id l now d).2.
Proof.
  intros (w & Hin & Ht)%Exists_exists. cbn in Hin.
  by apply seed_new_inserts in Hin as (i & -> & _).
Qed.

(** What seeding inserts: for each key that is named and not there, a pending item
    with the payload of the first entry of that key. *)
Definition first_named (l : list seed_item) (i : job_item) : Prop :=
  ∃ n it, l !! n = Some it ∧ key_of it = item_key i ∧ payload i = seed_payload it ∧
    ∀ m it', (m < n)%nat → l !! m = Some it' → key_of it' ≠ item_key i.

Lemma first_named_later it l i :
  key_of it ≠ item_key i → first_named l i → first_named (it :: l) i.
Proof.
  intros Hne (n & it0 & Hn & Hk & Hp & Hf). exists (S n), it0. split_and!; [done..|].
  intros [|m] it' Hm Hit'; [by injection Hit' as <-|]. apply (Hf m); [lia|done].
Qed.

Lemma seed_new_spec now id existing l :
  ∃ new, seed_new now id existing l = map InsertItem new ∧ NoDup (map item_key new) ∧
    (∀ i, i ∈ new → item_job i = id ∧ item_status_is i = IPending ∧ attempts i = 0 ∧
       item_key i ≠ ""%string ∧ item_key i ∉ existing ∧ first_named l i) ∧
    (∀ it, it ∈ l → key_of it ≠ ""%string → key_of it ∈ existing ∨ key_of it ∈ map item_key new).
Proof.
  revert existing. induction l as [|it l IH]; intros existing; cbn [seed_new].
  { exists []. split_and!; [done|constructor|by intros ? ?%not_elem_of_nil..]. }
  destruct (bool_decide (key_of it = ""%string) || bool_decide (key_of it ∈ existing)) eqn:Hskip.
  - destruct (IH existing) as (new & -> & Hnd & Hnew & Hall). exists new. split_and!; [done..| |].
    + intros i Hi. destruct (Hnew i Hi) as (H1 & H2 & H3 & H4 & H5 & H6). split_and!; [done..|].
      apply first_named_later; [|done]. intros E. apply orb_true_iff in Hskip as [Hs|Hs]; bool_simpl; congruence.
    + intros it0 [->|Hin]%elem_of_cons Hne; [|by apply Hall].
      apply orb_true_iff in Hskip as [Hs|Hs]; bool_simpl; [done|by left].
  - apply orb_false_iff in Hskip as [Hs1 Hs2]. bool_simpl.
    destruct (IH (key_of it :: existing)) as (new & -> & Hnd & Hnew & Hall).
    eexists (_ :: new). split; [reflexivity|]. cbn. split_and!.
    + apply NoDup_cons. split; [|done]. intros (i & Hk & Hi)%list_elem_of_fmap.
      destruct (Hnew i Hi) as (_ & _ & _ & _ & Hn & _). apply Hn. rewrite <- Hk. left.
    + intros i [->|Hi]%elem_of_cons.
      * cbn. split_and!; try done. exists 0%nat, it. split_and!; [done..|lia].
      * destruct (Hnew i Hi) as (H1 & H2 & H3 & H4 & H5 & H6).
        apply not_elem_of_cons in H5 as [H5 H5']. split_and!; [done..|]. by apply first_named_later.
    + intros it0 [->|Hin]%elem_of_cons Hne; [right; left|].
      destruct (Hall it0 Hin Hne) as [[->|?]%elem_of_cons|?]; [right; left|by left|right; by right].
Qed.

(** A list whose keys are all there adds nothing. *)
Lemma seed_new_known now id existing l :
  (∀ it, it ∈ l → key_of it = ""%string ∨ key_of it ∈ existing) → seed_new now id existing l = [].
Proof.
  induction l as [|it l IH]; intros Hl; [done|]. cbn [seed_new].
  destruct (Hl it ltac:(left)) as [E|E]; rewrite (bool_decide_true _ E), ?orb_true_r;
    apply IH; intros it' Hin; apply Hl; by right.
Qed.

(** Inserting fresh items always commits. *)
Lemma flush_inserts now d l :
  NoDup (map item_id l) → (∀ i, i ∈ l → item_id i ∉ map item_id (items d)) →
  flush now (map InsertItem l) d = Some (d <| items := items d ++ l |>).
Proof.
  revert d. induction l as [|i l IH]; intros d Hnd Hf.
  { unfold flush. cbn. rewrite app_nil_r. by destruct d. }
  apply NoDup_cons in Hnd as [Hi Hnd]. cbn [map]. rewrite flush_cons. cbn [apply_write].
  destruct (existsb _ _) eqn:Ex.
  { apply existsb_exists in Ex as (i' & Hin & Ei). apply is_item_true in Ei.
    exfalso. apply (Hf i); [left|]. change (item_id i) with (item_job i, item_key i).
    rewrite <- Ei. apply list_elem_of_fmap_2. by apply list_elem_of_In. }
  rewrite IH; [|done|].
  - cbn. by rewrite <- app_assoc.
  - intros i' Hin. change (items (d <| items := items d ++ [i] |>)) with (items d ++ [i]).
    rewrite map_app, elem_of_app. intros [Hin'|Heq]; [by apply (Hf i'); [right|]|].
    apply list_elem_of_singleton in Heq.
    apply Hi. rewrite <- Heq. by apply list_elem_of_fmap_2.
Qed.

(** ** One job *)

Lemma find_job_id d id j : find_job d id = Some j → job_id j = id ∧ j ∈ jobs d.
Proof.
  unfold find_job. intros E. apply List.find_some in E as [Hin Hj].
  split; [by apply is_job_true|by apply list_elem_of_In].
Qed.

Lemma find_update now id p l id' :
  List.find (is_job id') (update_where (is_job id) (patch_job now p) l) =
  match List.find (is_job id') l with
  | Some j => Some (if is_job id j then patch_job now p j else j)
  | None => None
  end.
Proof.
  induction l as [|j l IH]; [done|]. cbn [update_where map List.find].
  assert (Hj : is_job id' (if is_job id j then patch_job now p j else j) = is_job id' j)
    by by destruct (is_job id j).
  rewrite Hj. by destruct (is_job id' j).
Qed.

(** The tables after an UPDATE of one job. *)
Definition updated (now : Z) (id : string) (p : job_patch) (d : JobDb) : JobDb :=
  d <| jobs := update_where (is_job id) (patch_job now p) (jobs d) |>.

Lemma find_updated now id p d id' :
  find_job (updated now id p d) id' =
  match find_job d id' with
  | Some j => Some (if is_job id j then patch_job now p j else j)
  | None => None
  end.
Proof. apply find_update. Qed.

Lemma find_updated_eq now id p d j :
  find_job d id = Some j → find_job (updated now id p d) id = Some (patch_job now p j).
Proof.
  intros E. rewrite find_updated, E. apply find_job_id in E as [E _].
  by rewrite (proj2 (is_job_true id j) E).
Qed.

Lemma run_update {A} (w : work A) now d a id p :
  w now d = (a, [UpdateJob id p]) → run_work w now d = (Ok a, updated now id p d).
Proof. intros E. unfold run_work. by rewrite E. Qed.

Lemma run_nothing {A} (w : work A) now d a : w now d = (a, []) → run_work w now d = (Ok a, d).
Proof. intros E. unfold run_work. by rewrite E. Qed.

(** ** What commits do to one job *)

Definition effect (now : Z) (j : job) (w : write) : job :=
  match w with
  | UpdateJob id p => if is_job id j then patch_job now p j else j
  | _ => j
  end.

Lemma effect_id now j w : job_id (effect now j w) = job_id j.
Proof. destruct w; cbn; [done| |done..]. by destruct (is_job _ _). Qed.

Lemma apply_write_job now d w d' id j :
  apply_write now d w = Some d' → find_job d id = Some j →
  find_job d' id = Some (effect now j w).
Proof.
  intros E Hj. destruct w as [j0|id0 p|i|id0 key p|c]; cbn in E.
  - destruct (existsb _ _); [done|]. injection E as <-. revert Hj. unfold find_job. cbn.
    induction (jobs d) as [|j1 l IH]; [done|]. cbn. by destruct (is_job id j1).
  - injection E as <-.
    change (find_job (updated now id0 p d) id = Some (effect now j (UpdateJob id0 p))).
    rewrite find_updated. by rewrite Hj.
  - destruct (existsb _ _); [done|]. by injection E as <-.
  - destruct (mapM _ _); [|done]. by injection E as <-.
  - by injection E as <-.
Qed.

Lemma flush_job now ws d d' id j :
  flush now ws d = Some d' → find_job d id = Some j →
  find_job d' id = Some (foldl (effect now) j ws).
Proof.
  revert d j. induction ws as [|w ws IH]; intros d j; [by intros [= <-]|].
  rewrite flush_cons. destruct (apply_write now d w) as [d1|] eqn:E; [|done].
  intros Hf Hj. eapply IH; [done|]. by eapply apply_write_job.
Qed.

(** The columns no commit changes. *)
Definition same_job (j j' : job) : Prop :=
  job_id j' = job_id j ∧ user_id j' = user_id j ∧ chat_id j' = chat_id j ∧
  budget j' = budget j ∧ created_at j' = created_at j.

Lemma effects_same now j ws : same_job j (foldl (effect now) j ws).
Proof.
  revert j. induction ws as [|w ws IH]; intros j; [done|]. cbn [foldl].
  destruct (IH (effect now j w)) as (H1 & H2 & H3 & H4 & H5).
  assert (Hs : same_job j (effect now j w)).
  { destruct w; cbn; try done. by destruct (is_job _ _). }
  destruct Hs as (G1 & G2 & G3 & G4 & G5). split_and!; congruence.
Qed.

(** [j'] has the verdict of [j], and still knows that its chat was woken. *)
Definition settled_as (j j' : job) : Prop :=
  job_id j' = job_id j ∧ status j' = status j ∧ error_message j' = error_message j ∧
  completed_at j' = completed_at j ∧
  (m_woken_at (extra_data j) = true → m_woken_at (extra_data j') = true).

(** Writes that leave the verdict of [j] alone. *)
Definition spares (j : job) (w : write) : Prop :=
  match w with
  | UpdateJob id p =>
      id = job_id j →
      set_status p = None ∧ set_completed p = None ∧ set_error p = None ∧
      ∀ m, set_meta p = Some m → m_woken_at (extra_data j) = true → m_woken_at m = true
  | _ => True
  end.

Lemma effects_settled now j ws : Forall (spares j) ws → settled_as j (foldl (effect now) j ws).
Proof.
  intros Hs. cut (∀ j', settled_as j j' → settled_as j (foldl (effect now) j' ws)).
  { intros Hc. by apply Hc. }
  induction Hs as [|w ws Hw _ IH]; intros j' Hj'; [done|]. apply IH. clear IH.
  destruct Hj' as (H1 & H2 & H3 & H4 & H5). destruct w as [|id p| | |]; cbn; try done.
  destruct (is_job id j') eqn:Ei; [|done]. apply is_job_true in Ei.
  destruct Hw as (E1 & E2 & E3 & Em); [congruence|].
  unfold settled_as, patch_job. cbn. rewrite E1, E2, E3. cbn. split_and!; try done.
  intros Hwk. destruct (set_meta p) as [m|]; cbn; auto.
Qed.

Lemma reap_writes `{JobWording} active now d w :
  w ∈ (reap_rows active now d).2 →
  ∃ j m, j ∈ jobs d ∧ orphaned active now j = true ∧ w = interrupt_patch j m.
Proof.
  cbn. intros (j & -> & Hin)%list_elem_of_fmap. apply list_elem_of_In, List.filter_In in Hin as [Hin Ho].
  exists j. eexists. split_and!; [by apply list_elem_of_In|done..].
Qed.

Lemma restart_writes `{JobWording} now d w :
  w ∈ (interrupt_live now d).2 →
  ∃ j m, j ∈ jobs d ∧ is_live (status j) = true ∧ w = interrupt_patch j m.
Proof.
  cbn. intros (j & -> & Hin)%list_elem_of_fmap. apply list_elem_of_In, List.filter_In in Hin as [Hin Ho].
  exists j. eexists. split_and!; [by apply list_elem_of_In|done..].
Qed.

Lemma find_job_unique d id j j0 :
  keyed d → find_job d id = Some j → j0 ∈ jobs d → job_id j0 = id → j0 = j.
Proof.
  intros [Hnd _] Hj Hin He. apply find_job_id in Hj as [Hi Hin'].
  apply list_elem_of_lookup in Hin as [a Ha], Hin' as [b Hb].
  assert (a = b); [|congruence]. eapply (NoDup_lookup (map job_id (jobs d))); [done| |].
  - apply list_lookup_fmap_Some. exists j0. by split; [symmetry; exact He|].
  - apply list_lookup_fmap_Some. exists j. by split; [symmetry; exact Hi|].
Qed.

Lemma seeds_spare now id existing l j : Forall (spares j) (seed_new now id existing l).
Proof.
  apply Forall_forall. intros w Hw. by apply seed_new_inserts in Hw as (i & -> & _).
Qed.

Lemma spares_one j id p : 
  (id = job_id j →
   set_status p = None ∧ set_completed p = None ∧ set_error p = None ∧
   ∀ m, set_meta p = Some m → m_woken_at (extra_data j) = true → m_woken_at m = true) →
  Forall (spares j) [UpdateJob id p].
Proof. intros H. by constructor. Qed.

(** The job a write is about is [j] itself or another one. *)
Ltac about_job E Hj Hid :=
  match goal with
  | |- context [find_job ?d ?id0] =>
      destruct (find_job d id0) as [?|] eqn:E; [|by constructor];
      repeat case_match; try (by constructor);
      try (apply spares_one; intros ->; rewrite Hid, Hj in E; injection E as <-)
  end.

(** No method decides a finished job again. *)
Lemma method_spares `{JobWording} m now d id j :
  method m → keyed d → find_job d id = Some j → is_terminal (status j) = true →
  Forall (spares j) (m now d).
Proof.
  intros Hm Hk Hj Ht. pose proof (find_job_id _ _ _ Hj) as [Hid _].
  assert (Hlive : ∀ j0 msg, j0 ∈ jobs d → is_live (status j0) = true →
            spares j (interrupt_patch j0 msg)).
  { intros j0 msg Hin Hl He. rewrite Hid in He.
    rewrite (find_job_unique _ _ _ _ Hk Hj Hin He) in Hl. by destruct (status j). }
  destruct Hm; unfold writes_of;
    unfold create, mark_running, finish, set_wake_on_finish, rotate_token, seed, update_item,
      add_usage, record_call, stats_op, claim_wake; cbn [snd];
    try (by repeat constructor); try (about_job E Hj Hid; cbn; try congruence; try done).
  all: try (by split_and!; [done..|intros ? [= <-]]).
  all: try by match goal with E : status ?x = _ |- _ => rewrite E in Ht end.
  - apply seeds_spare.
  - by destruct (List.find _ _); repeat constructor.
  - apply Forall_forall. intros w (j0 & msg & Hin & Ho & ->)%reap_writes.
    apply Hlive; [done|]. unfold orphaned in Ho. by destruct (is_live (status j0)).
  - apply Forall_forall. intros w (j0 & msg & Hin & Ho & ->)%restart_writes. by apply Hlive.
Qed.

(** ** Histories of commits *)

Lemma stale_commit_extends `{JobWording} d d' :
  stale_commit d d' → keyed d → keyed d' ∧ extends (λ _, True) d d'.
Proof.
  intros (m & now0 & d0 & now & _ & Hf) Hk.
  destruct (flush_extends _ _ _ _ Hf Hk) as [Hk' He]. split; [done|].
  by eapply extends_weaken; [|exact He].
Qed.

Lemma extends_item (P : string * string → Prop) d d' i :
  extends P d d' → i ∈ items d →
  ∃ i', i' ∈ items d' ∧ item_id i' = item_id i ∧ payload i' = payload i ∧
        (¬ P (item_id i) → i' = i).
Proof.
  intros [_ _ (old & new & E & F)] Hin. apply list_elem_of_lookup in Hin as [n Hn].
  destruct (Forall2_lookup_l _ _ _ _ _ F Hn) as (i' & Hi' & H1 & H2 & H3).
  exists i'. split; [|done]. rewrite E. apply elem_of_app. left. by eapply list_elem_of_lookup_2.
Qed.

Lemma at_once_keyed `{JobWording} d d' : at_once d d' → keyed d → keyed d'.
Proof.
  intros (m & now & _ & ->) Hk. destruct (flush now (m now d) d) as [d1|] eqn:E; [|done].
  by apply (flush_extends _ _ _ _ E).
Qed.

Lemma at_once_job `{JobWording} d d' id j :
  at_once d d' → keyed d → find_job d id = Some j →
  ∃ j', find_job d' id = Some j' ∧ same_job j j' ∧
        (is_terminal (status j) = true → settled_as j j').
Proof.
  intros (m & now & Hm & ->) Hk Hj. destruct (flush now (m now d) d) as [d1|] eqn:E.
  - cbn. eexists. split; [by eapply flush_job|]. split; [apply effects_same|].
    intros Ht. apply effects_settled. by eapply method_spares.
  - cbn. exists j. by split_and!.
Qed.

Lemma same_job_trans j1 j2 j3 : same_job j1 j2 → same_job j2 j3 → same_job j1 j3.
Proof.
  intros (H1 & H2 & H3 & H4 & H5) (G1 & G2 & G3 & G4 & G5). split_and!; congruence.
Qed.
Lemma settled_as_trans j1 j2 j3 : settled_as j1 j2 → settled_as j2 j3 → settled_as j1 j3.
Proof.
  intros (H1 & H2 & H3 & H4 & H5) (G1 & G2 & G3 & G4 & G5).
  split_and!; [congruence..|auto].
Qed.

(** A history of methods keeps the job, and its verdict once it has one. *)
Lemma history_job `{JobWording} d d' id j :
  rtc at_once d d' → keyed d → find_job d id = Some j →
  keyed d' ∧ ∃ j', find_job d' id = Some j' ∧ same_job j j' ∧
                   (is_terminal (status j) = true → settled_as j j').
Proof.
  intros Hs. revert j. induction Hs as [d|d d1 d' Hs _ IH]; intros j Hk Hj.
  { split; [done|]. exists j. by split_and!. }
  destruct (at_once_job _ _ _ _ Hs Hk Hj) as (j1 & Hj1 & Hs1 & Ht1).
  destruct (IH j1) as (Hk' & j2 & Hj2 & Hs2 & Ht2); [by eapply at_once_keyed|done|].
  split; [done|]. exists j2. split; [done|]. split; [by eapply same_job_trans|].
  intros Ht. pose proof (Ht1 Ht) as Hset. eapply settled_as_trans; [exact Hset|].
  apply Ht2. destruct Hset as (_ & -> & _). done.
Qed.

(** ** The end of a job *)

(** The items of a job. *)
Definition items_of (d : JobDb) (id : string) : list job_item :=
  List.filter (λ i, bool_decide (item_job i = id)) (items d).

(** Nothing came out of a ledger that is not empty. *)
Definition no_result (d : JobDb) (id : string) : Prop :=
  items_of d id ≠ [] ∧
  ∀ i, i ∈ items d → item_job i = id → item_status_is i ∉ [IDone; INotFound; INeedsReview].

Lemma count_status_zero d id s :
  count_status d id s = 0 ↔ ∀ i, i ∈ items d → item_job i = id → item_status_is i ≠ s.
Proof.
  unfold count_status. split.
  - intros Hz i Hin Hi Hs.
    destruct (List.filter _ _) as [|x l] eqn:E; [|cbn in Hz; lia].
    assert (Hin' : In i []); [|done]. rewrite <- E. apply List.filter_In.
    split; [by apply list_elem_of_In|]. by rewrite !bool_decide_true.
  - intros Hn. destruct (List.filter _ _) as [|x l] eqn:E; [done|].
    assert (Hx : In x (x :: l)) by by left. rewrite <- E in Hx.
    apply List.filter_In in Hx as [Hin [Hj Hs]%andb_prop].
    apply bool_decide_eq_true in Hj, Hs. exfalso. by eapply Hn; [apply list_elem_of_In| |].
Qed.

Lemma count_nonneg d id s : 0 <= count_status d id s.
Proof. unfold count_status. lia. Qed.

Lemma total_items d id : total (stats d id) = Z.of_nat (List.length (items_of d id)).
Proof.
  unfold stats, count_status, items_of. cbn. induction (items d) as [|i l IH]; [done|].
  cbn [List.filter]. destruct (bool_decide (item_job i = id)); [|exact IH].
  cbn [andb]. destruct (item_status_is i);
    repeat match goal with
      | |- context [bool_decide (?a = ?b :> item_status)] =>
          let v := eval vm_compute in (bool_decide (a = b)) in
          change (bool_decide (a = b)) with v
      end; cbn [List.length]; lia.
Qed.

Definition produced (d : JobDb) (id : string) : Z :=
  st_done (stats d id) + st_not_found (stats d id) + st_needs_review (stats d id).

Lemma no_result_spec d id :
  (0 <? total (stats d id)) && (produced d id =? 0) = true ↔ no_result d id.
Proof.
  rewrite andb_true_iff, Z.ltb_lt, Z.eqb_eq, total_items. unfold produced, no_result, stats. cbn.
  pose proof (count_nonneg d id IDone). pose proof (count_nonneg d id INotFound).
  pose proof (count_nonneg d id INeedsReview).
  split; intros [Ht Hp]; (split; [by destruct (items_of d id); cbn in *|]).
  - intros i Hin Hi Hs. rewrite !elem_of_cons in Hs.
    assert (Hz : count_status d id IDone = 0 ∧ count_status d id INotFound = 0 ∧
                 count_status d id INeedsReview = 0) by lia.
    rewrite !count_status_zero in Hz. destruct Hz as (Hd & Hf & Hr).
    destruct Hs as [Hs|[Hs|[Hs|Hs]]]; [by eapply Hd|by eapply Hf|by eapply Hr|by apply not_elem_of_nil in Hs].
  - assert (Hz : ∀ s, s ∈ [IDone; INotFound; INeedsReview] → count_status d id s = 0).
    { intros s Hs. apply count_status_zero. intros i Hin Hi <-. by apply (Hp i). }
    rewrite !Hz; [done|set_solver..].
Qed.

(** The job as [finish] leaves it. *)
Definition finished_job `{JobWording} (d : JobDb) (wanted : job_status) (e : option text)
    (now : Z) (j : job) : job :=
  let st := stats d (job_id j) in
  let nothing := bool_decide (wanted = Completed) && (0 <? total st) && (produced d (job_id j) =? 0) in
  patch_job now (no_change <| set_status := Some (if nothing then Failed else wanted) |>
    <| set_error := Some (clip_error
         (if nothing then match e with
                          | Some (_ :: _) => e
                          | _ => Some (nothing_produced (total st) (st_failed st) (st_pending st))
                          end
          else e)) |>
    <| set_completed := Some (Some now) |>
    <| set_meta := Some ((extra_data j) <| m_token := None |>) |>) j.

Lemma run_finish `{JobWording} id wanted e now d j :
  find_job d id = Some j → is_terminal (status j) = false →
  ∃ d', run_work (finish id wanted e) now d = (Ok tt, d') ∧
    find_job d' id = Some (finished_job d wanted e now j) ∧
    (∀ id', id' ≠ id → find_job d' id' = find_job d id') ∧ items d' = items d.
Proof.
  intros Hj Ht. pose proof (find_job_id _ _ _ Hj) as [Hid _].
  eexists. split.
  { apply run_update. unfold finish. rewrite Hj, Ht. reflexivity. }
  split; [|split; [|done]].
  - rewrite (find_updated_eq _ _ _ _ _ Hj). unfold finished_job. by rewrite Hid.
  - intros id' Hn. rewrite find_updated. destruct (find_job d id') as [j'|] eqn:E; [|done].
    apply find_job_id in E as [E _]. destruct (is_job id j') eqn:Ei; [|done].
    apply is_job_true in Ei. congruence.
Qed.

Lemma finish_terminal `{JobWording} id wanted e now d j :
  find_job d id = Some j → is_terminal wanted = true →
  ∃ d' j', run_work (finish id wanted e) now d = (Ok tt, d') ∧ find_job d' id = Some j' ∧
           is_terminal (status j') = true.
Proof.
  intros Hj Hw. destruct (is_terminal (status j)) eqn:Ht.
  - exists d, j. split; [|done]. apply run_nothing. unfold finish. by rewrite Hj, Ht.
  - destruct (run_finish id wanted e now d j Hj Ht) as (d' & Hr & Hj' & _).
    exists d'. eexists. split; [done|]. split; [done|]. cbn. by case_match.
Qed.

(** ** Tokens *)

Lemma verify_token_spec d id t j :
  verify_token d id t = Ok (Some j) ↔
  find_job d id = Some j ∧ is_terminal (status j) = false ∧
  m_token (extra_data j) = Some t ∧ t ≠ ""%string ∧ ascii_only t = true.
Proof.
  unfold verify_token. destruct (find_job d id) as [j0|] eqn:E; [|naive_solver].
  destruct (is_terminal (status j0)) eqn:Ht; [split; [done|intros ([= ->] & ? & _); congruence]|].
  unfold opt_str_or. destruct (m_token (extra_data j0)) as [s|] eqn:Em; cbn.
  - destruct (decide (s = ""%string)) as [->|Hn].
    { rewrite bool_decide_true by done. cbn. split; [done|].
      intros ([= <-] & _ & Ht' & Hne & _). congruence. }
    unfold str_or, _same. rewrite !(bool_decide_false (s = ""%string)) by done.
    destruct (decide (s = t)) as [<-|Hd].
    + rewrite bool_decide_true by done. destruct (ascii_only s); cbn; [|naive_solver].
      split; [intros [= <-]; done|]. by intros ([= <-] & _).
    + rewrite bool_decide_false by done. destruct (_ && _); (split; [done|]);
        intros ([= <-] & _ & Ht' & _); congruence.
  - split; [done|]. intros ([= <-] & _ & Ht' & _). congruence.
Qed.
