(* ===== verification/JobRuntimeProps.v ===== *)
(** * Running batch jobs: lemmas

    What a handler or a driver can come to among the methods of others, the ends
    of a driver, what calling a sub-agent books, and what reaping does. *)

From S2P Require Import Prelude PyString PyDict Jobs JobRuntime JobsProps.
From Stdlib Require Import Ascii String.

Import Jobs JobRuntime.

(** ** A program among the methods of others *)

(** [p] started in [d] can end with [a] in [d'], histories of methods being run
    between its reads, its commits and its requests. *)
Fixpoint outcome `{JobWording} {A} (p : jprog A) (d : JobDb) (a : A) (d' : JobDb) : Prop :=
  match p with
  | JRet a0 => a = a0 ∧ rtc at_once d d'
  | JRead f k => ∃ now d1, rtc at_once d d1 ∧ outcome (k (f now d1)) d1 a d'
  | JWork w k => ∃ now d1, rtc at_once d d1 ∧
      outcome (k (run_work w now d1).1) (run_work w now d1).2 a d'
  | JAsk _ _ k => ∃ r, outcome (k r) d a d'
  | JProbe _ k => ∃ r, outcome (k r) d a d'
  | JEmit _ k => outcome k d a d'
  end.

Lemma outcome_bind `{JobWording} {A B} (p : jprog A) (f : A → jprog B) d b d' :
  outcome (jbind p f) d b d' →
  ∃ a d1, outcome p d a d1 ∧ outcome (f a) d1 b d'.
Proof.
  revert d. induction p as [a|B' g k IH|B' w k IH|j ts k IH|j k IH|e k IH]; intros d; cbn.
  - intros Ho. by exists a, d.
  - intros (now & d1 & Hs & Ho). destruct (IH _ _ Ho) as (a & d2 & Ha & Hb).
    exists a, d2. split; [by exists now, d1|done].
  - intros (now & d1 & Hs & Ho). destruct (IH _ _ Ho) as (a & d2 & Ha & Hb).
    exists a, d2. split; [by exists now, d1|done].
  - intros (r & Ho). destruct (IH _ _ Ho) as (a & d2 & Ha & Hb).
    exists a, d2. split; [by exists r|done].
  - intros (r & Ho). destruct (IH _ _ Ho) as (a & d2 & Ha & Hb).
    exists a, d2. split; [by exists r|done].
  - intros Ho. apply (IH _ Ho).
Qed.

Lemma run_work_at_once `{JobWording} {A} (w : work A) now d :
  method (writes_of w) → at_once d (run_work w now d).2.
Proof.
  intros Hm. exists (writes_of w), now. split; [done|]. unfold run_work, writes_of.
  destruct (w now d) as [a ws]. cbn [snd]. by destruct (flush now ws d).
Qed.

(** Run alone, a program has an outcome. *)
Lemma run_outcome `{JobWording} {A} now (p : jprog A) o d a o' d' :
  run now p o d = (a, o', d') → outcome p d a d'.
Proof.
  revert o d. induction p as [a0|B' g k IH|B' w k IH|j ts k IH|j k IH|e k IH]; intros o d; cbn.
  - by intros [= <- <- <-].
  - intros E. exists now, d. split; [done|]. by eapply IH.
  - intros E. exists now, d. split; [done|].
    destruct (run_work w now d) as [r d1]. by eapply IH.
  - intros E. eexists. by eapply IH.
  - intros E. eexists. by eapply IH.
  - intros E. by eapply IH.
Qed.

(** The calls booked for a job. *)
Definition calls_used (d : JobDb) (id : string) : Z :=
  match find_job d id with Some j => u_calls (usage j) | None => 0 end.

(** An outcome with what the program asked of the outside, in order, and how many
    calls its own commits booked for the job [id]. *)
Fixpoint traced `{JobWording} {A} (id : string) (p : jprog A) (d : JobDb) (a : A)
    (evs : list event) (n : Z) (d' : JobDb) : Prop :=
  match p with
  | JRet a0 => a = a0 ∧ evs = [] ∧ n = 0 ∧ rtc at_once d d'
  | JRead f k => ∃ now d1, rtc at_once d d1 ∧ traced id (k (f now d1)) d1 a evs n d'
  | JWork w k => ∃ now d1 n1, rtc at_once d d1 ∧
      n = calls_used (run_work w now d1).2 id - calls_used d1 id + n1 ∧
      traced id (k (run_work w now d1).1) (run_work w now d1).2 a evs n1 d'
  | JAsk job ts k => ∃ r evs1, evs = AgentCall job ts :: evs1 ∧ traced id (k r) d a evs1 n d'
  | JProbe _ k => ∃ r, traced id (k r) d a evs n d'
  | JEmit e k => ∃ evs1, evs = e :: evs1 ∧ traced id k d a evs1 n d'
  end.

(** ** The driver *)

Lemma outcome_emit_if `{JobWording} {A} b chat e (k : jprog A) d a d' :
  outcome (emit_if b chat e k) d a d' → outcome k d a d'.
Proof. unfold emit_if. destruct chat as [c|]; [|done]. by destruct b. Qed.

Lemma outcome_wake `{JobWording} {A} id (k : jprog A) d a d' :
  outcome (wake_on_job_finish id k) d a d' → ∃ d1, rtc at_once d d1 ∧ outcome k d1 a d'.
Proof.
  intros (now & d1 & Hs & Ho). exists (run_work (claim_wake id) now d1).2. split.
  - eapply rtc_r; [exact Hs|]. apply run_work_at_once. constructor.
  - by destruct (run_work (claim_wake id) now d1).1 as [[c|]|].
Qed.

Lemma outcome_progress `{JobWording} {A} busy id (k : jprog A) d a d' :
  outcome (wake_on_job_progress busy id k) d a d' → ∃ d1, rtc at_once d d1 ∧ outcome k d1 a d'.
Proof.
  intros (now & d1 & Hs & Ho). exists d1. split; [done|].
  destruct (progress_chat id d1) as [c|]; [|done]. by destruct (busy c).
Qed.

Lemma outcome_ret `{JobWording} {A} (x a : A) d d' :
  outcome (JRet x) d a d' → a = x ∧ rtc at_once d d'.
Proof. done. Qed.

(** A job that is over, in tables that only methods change, stays over. *)
Definition over (d : JobDb) (id : string) : Prop :=
  keyed d ∧ ∃ j, find_job d id = Some j ∧ is_terminal (status j) = true.

Lemma over_history `{JobWording} d d' id : rtc at_once d d' → over d id → over d' id.
Proof.
  intros Hs (Hk & j & Hj & Ht). destruct (history_job _ _ _ _ Hs Hk Hj) as (Hk' & j' & Hj' & _ & Hset).
  split; [done|]. exists j'. split; [done|]. by destruct (Hset Ht) as (_ & -> & _).
Qed.

(** The finish of a driver puts the job over, whatever happens before and after. *)
Lemma outcome_finish `{JobWording} {A} id wanted e (err : A) k d a d' j :
  keyed d → find_job d id = Some j → is_terminal wanted = true →
  outcome (must (finish id wanted e) err k) d a d' →
  ∃ d1, over d1 id ∧ outcome (k tt) d1 a d'.
Proof.
  intros Hk Hj Hw (now & d1 & Hs & Ho).
  destruct (history_job _ _ _ _ Hs Hk Hj) as (Hk1 & j1 & Hj1 & _).
  destruct (finish_terminal id wanted e now d1 j1 Hj1 Hw) as (d2 & j2 & E & Hj2 & Ht2).
  rewrite E in Ho. exists d2. split; [|exact Ho]. split; [|by exists j2].
  eapply at_once_keyed; [|exact Hk1].
  replace d2 with (run_work (finish id wanted e) now d1).2 by by rewrite E.
  apply run_work_at_once. by constructor.
Qed.

Lemma final_terminal `{JobHost} t : is_terminal (final_from_marker t).1 = true.
Proof.
  unfold final_from_marker. induction (lines_of [] t) as [|l ls IH]; [done|].
  cbn [final_from_lines]. destruct (_ || _); [done|]. destruct (json_loads _) as [m|]; [|done].
  destruct (terminal_of _) as [s|] eqn:E; [|done]. cbn. unfold terminal_of in E.
  repeat case_match; by simplify_eq.
Qed.

(** What a pass of the driver may come to. *)
Definition pass_ends `{JobWording} (id : string) (t max_seconds : Z) (s : drive_state) (d : JobDb)
    (r : drive_end + drive_state) (d' : JobDb) : Prop :=
  match r with
  | inl e => e ≠ NoJob ∧ over d' id
  | inr s' => started s' = started s ∧ t - started s <= max_seconds ∧ rtc at_once d d'
  end.

Lemma drive_pass_ends `{JobWording, JobHost} busy chat id t t' s d r d' j :
  keyed d → find_job d id = Some j →
  outcome (drive_pass busy chat id t t' s) d r d' →
  pass_ends id t (seconds (budget_get (budget j) "max_seconds" 7200)) s d r d'.
Proof.
  intros Hk Hj (now & d1 & Hs & Ho).
  destruct (history_job _ _ _ _ Hs Hk Hj) as (Hk1 & j1 & Hj1 & Hsame & _).
  rewrite Hj1 in Ho. destruct Hsame as (_ & _ & _ & <- & _).
  destruct (is_terminal (status j1)) eqn:Ht.
  { apply outcome_wake in Ho as (d2 & Hs2 & [-> Hs3]%outcome_ret). split; [done|].
    eapply over_history; [exact Hs3|]. eapply over_history; [exact Hs2|].
    split; [done|]. by exists j1. }
  cbv zeta in Ho.
  destruct (Z.ltb_spec (seconds (budget_get (budget j1) "max_seconds" 7200)) (t - started s)) as [Hlt|Hle].
  { eapply outcome_finish in Ho as (d2 & Hov & [-> Hs3]%outcome_ret); [|done..].
    split; [done|]. by eapply over_history. }
  destruct (negb _ && _ && _).
  { eapply outcome_finish in Ho as (d2 & Hov & Ho); [|done..].
    apply outcome_wake in Ho as (d3 & Hs2 & [-> Hs3]%outcome_ret). split; [done|].
    eapply over_history; [exact Hs3|]. by eapply over_history; [exact Hs2|]. }
  repeat apply outcome_emit_if in Ho.
  assert (Hrest : ∀ d2 (wake : bool) s',
    started s' = started s → rtc at_once d1 d2 →
    outcome (if wake then wake_on_job_progress busy id (JRet (inr s')) else JRet (inr s')) d2 r d' →
    pass_ends id t (seconds (budget_get (budget j1) "max_seconds" 7200)) s d r d').
  { intros d2 wake s' Hst Hs2 Hr.
    assert (Hx : r = inr s' ∧ rtc at_once d2 d').
    { destruct wake; [|by destruct Hr].
      apply outcome_progress in Hr as (d3 & Hs3 & [-> Hs4]%outcome_ret). split; [done|by etrans]. }
    destruct Hx as [-> Hs3]. split_and!; [done..|]. etrans; [exact Hs|]. by etrans. }
  revert Ho. case_match.
  - intros (pr & Ho). destruct (runner_liveness pr) as [tail|].
    + pose proof (final_terminal tail) as Hfin. destruct (final_from_marker tail) as [final err].
      eapply outcome_finish in Ho as (d2 & Hov & Ho); [|done..].
      apply outcome_wake in Ho as (d3 & Hs2 & [-> Hs3]%outcome_ret). split; [done|].
      eapply over_history; [exact Hs3|]. by eapply over_history; [exact Hs2|].
    + eapply Hrest; [|done|exact Ho]. by repeat case_match.
  - intros Ho. eapply Hrest; [|done|exact Ho]. by repeat case_match.
Qed.

(** A pass past the time of the job ends the driver; no pass does otherwise than
    end it or go on, and the job of a driver that ended is over. *)
Lemma drive_over `{JobWording, JobHost} busy chat id clock s d r d' j :
  keyed d → find_job d id = Some j →
  outcome (drive busy chat id clock s) d r d' →
  (∃ t t', (t, t') ∈ clock ∧
     seconds (budget_get (budget j) "max_seconds" 7200) < t - started s) →
  ∃ e, r = Some e ∧ e ≠ NoJob ∧ over d' id.
Proof.
  revert s d j. induction clock as [|[t t'] clock IH]; intros s d j Hk Hj Ho (t0 & t0' & Hin & Hlt).
  { by apply not_elem_of_nil in Hin. }
  cbn [drive] in Ho. apply outcome_bind in Ho as (x & d1 & Hp & Ho).
  eapply drive_pass_ends in Hp; [|exact Hk|exact Hj]. destruct x as [e|s'].
  - destruct Hp as [He Hov]. apply outcome_ret in Ho as [-> Hs]. exists e.
    split_and!; [done..|]. by eapply over_history.
  - destruct Hp as (Hst & Hle & Hs).
    destruct (history_job _ _ _ _ Hs Hk Hj) as (Hk1 & j1 & Hj1 & (_ & _ & _ & Hb & _) & _).
    eapply (IH s' d1 j1); [done|done|exact Ho|].
    apply elem_of_cons in Hin as [[= -> ->]|Hin]; [lia|].
    exists t0, t0'. split; [done|]. by rewrite Hb, Hst.
Qed.

(** ** Calling a sub-agent *)

Definition asks (n : nat) (id : string) (tools : list string) : list event :=
  replicate n (AgentCall id tools).

(** The attempts ask at most [n] times and hand one result over. *)
Lemma run_attempts `{JobWording, JobHost} now id tools schema k n infra o d :
  ∃ m res o1, (m <= n)%nat ∧ log o1 = log o ++ asks m id tools ∧
    run now (agent_attempts n id tools schema infra k) o d = run now (k res) o1 d.
Proof.
  revert infra o. induction n as [|n IH]; intros infra o.
  { exists 0%nat, (Nothing infra), o. split; [done|]. cbn. by rewrite app_nil_r. }
  cbn [agent_attempts run].
  set (o1 := {| agents := _; probes := _; log := _ |}).
  assert (Hretry : ∀ infra', ∃ m res o2, (m <= S n)%nat ∧ log o2 = log o ++ asks m id tools ∧
    run now (agent_attempts n id tools schema infra' k) o1 d = run now (k res) o2 d).
  { intros infra'. destruct (IH infra' o1) as (m & res & o2 & Hm & Hl & E).
    exists (S m), res, o2. split; [lia|]. split; [|exact E]. rewrite Hl. cbn. by rewrite <- app_assoc. }
  assert (Hdone : ∀ res, ∃ m res' o2, (m <= S n)%nat ∧ log o2 = log o ++ asks m id tools ∧
    run now (k res) o1 d = run now (k res') o2 d).
  { intros res. exists 1%nat, res, o1. split_and!; [lia|done..]. }
  repeat case_match; auto.
Qed.

(** A method that leaves the jobs alone. *)
Lemma run_update_item id key u now d :
  jobs (run_work (update_item id key u) now d).2 = jobs d.
Proof.
  unfold run_work, update_item. destruct (List.find _ _) as [row|]; [|done].
  rewrite flush_cons. cbn [apply_write]. by destruct (mapM _ _).
Qed.

Lemma run_mark_item {A} now id key u (k : jprog A) o d :
  ∃ d1, jobs d1 = jobs d ∧ run now (mark_item id key u k) o d = run now k o d1.
Proof.
  unfold mark_item. destruct (has_key key) as [s|]; [|by exists d].
  exists (run_work (update_item id s u) now d).2. split; [apply run_update_item|].
  cbn. by destruct (run_work _ _ _).
Qed.

(** [d'] has the job [id] of [d] with up to [n] calls more. *)
Definition spent (id : string) (n : Z) (d d' : JobDb) : Prop :=
  ∀ j, find_job d id = Some j → ∃ j', find_job d' id = Some j' ∧ same_job j j' ∧
    u_calls (usage j) <= u_calls (usage j') <= u_calls (usage j) + n.

Lemma spent_same id d d' : jobs d' = jobs d → spent id 0 d d'.
Proof. intros E j Hj. exists j. unfold find_job in *. rewrite E. split_and!; [done..|lia|lia]. Qed.

Lemma spent_trans id n1 n2 d1 d2 d3 : spent id n1 d1 d2 → spent id n2 d2 d3 → spent id (n1 + n2) d1 d3.
Proof.
  intros H1 H2 j Hj. destruct (H1 j Hj) as (j2 & Hj2 & Hs2 & Hc2).
  destruct (H2 j2 Hj2) as (j3 & Hj3 & Hs3 & Hc3). exists j3. split; [done|].
  split; [by eapply same_job_trans|lia].
Qed.

Lemma run_add_usage id t now d :
  ∃ d1, run_work (add_usage id 1 t) now d = (Ok tt, d1) ∧ spent id 1 d d1.
Proof.
  unfold run_work, add_usage. destruct (find_job d id) as [j|] eqn:Hj.
  - eexists. split; [reflexivity|]. intros j' Hj'. rewrite Hj in Hj'. injection Hj' as <-.
    eexists. split; [exact (find_updated_eq _ _ _ _ _ Hj)|]. split; [done|]. cbn. lia.
  - exists d. split; [done|]. intros j Hj'. congruence.
Qed.

Lemma run_record_call id key ok e now d :
  ∃ d1, run_work (record_call id key ok e) now d = (Ok tt, d1) ∧ jobs d1 = jobs d.
Proof. by eexists. Qed.

(** One call is booked at most. *)
Lemma run_settle_agent `{JobWording, JobHost} id key res now o d r o' d' :
  run now (settle_agent id key res) o d = (r, o', d') → o' = o ∧ spent id 1 d d'.
Proof.
  assert (Hbook : ∀ ok e st rs re (a : response),
    run now (must (add_usage id 1 0) ServerError (λ _,
             must (record_call id key ok e) ServerError (λ _,
             mark_item id key (mark st rs re false) (JRet a)))) o d = (r, o', d') →
    o' = o ∧ spent id 1 d d').
  { intros ok e st rs re a. unfold must. cbn [run].
    destruct (run_add_usage id 0 now d) as (d1 & -> & Hs1). cbn [run].
    destruct (run_record_call id key ok e now d1) as (d2 & -> & Hj2). cbn [run].
    destruct (run_mark_item now id key (mark st rs re false) (JRet a) o d2) as (d3 & Hj3 & ->).
    intros [= <- <- <-]. split; [done|].
    replace 1 with (1 + (0 + 0)) by lia. eapply spent_trans; [exact Hs1|].
    eapply spent_trans; by apply spent_same. }
  destruct res as [v|[] |]; cbn [settle_agent]; [apply Hbook..|].
  intros [= <- <- <-]. split; [done|]. intros j Hj. exists j. split_and!; [done..|lia|lia].
Qed.

Lemma granted_incl declared allowed t :
  t ∈ granted_tools declared allowed → t ∈ declared ∧ t ∈ allowed.
Proof.
  unfold granted_tools. destruct allowed as [|a l]; [by intros ?%not_elem_of_nil|].
  intros Hin. apply list_elem_of_In, List.filter_In in Hin as [Hin Hb].
  apply bool_decide_eq_true in Hb. by split; [apply list_elem_of_In|].
Qed.

(** Either nothing happens or the job has calls and seconds left. *)
Lemma run_job_agent `{JobWording, JobHost} now id token b o d r o' d' :
  run now (job_agent id token b) o d = (r, o', d') →
  (o' = o ∧ d' = d) ∨
  ∃ t j m, token = Some t ∧ verify_token d id t = Ok (Some j) ∧ (m <= 4)%nat ∧
    0 < calls_left (budget_left_of now j) ∧ 0 < seconds_left (budget_left_of now j) ∧
    log o' = log o ++ asks m id (granted_tools (b_tools b) (ctx_allowed (ctx_of j))) ∧
    spent id 1 d d'.
Proof.
  unfold job_agent, auth. destruct token as [[|a s]|]; try (intros [= _ <- <-]; by left).
  cbn [run]. destruct (verify_token d id (String a s)) as [[j|]|] eqn:Hv;
    [|intros [= _ <- <-]; by left..].
  pose proof (proj1 (verify_token_spec _ _ _ _) Hv) as (Hj & _).
  cbn [run]. unfold budget_left. rewrite Hj.
  destruct (Z.leb_spec (calls_left (budget_left_of now j)) 0); [intros [= _ <- <-]; by left|].
  destruct (Z.leb_spec (seconds_left (budget_left_of now j)) 0); [intros [= _ <- <-]; by left|].
  cbv zeta.
  match goal with |- run now (mark_item _ _ _ ?k) _ _ = _ → _ =>
    destruct (run_mark_item now id (b_item_key b) (mark "running" None None true) k o d)
      as (d1 & Hjobs & ->) end.
  match goal with |- run now (agent_attempts ?n _ ?ts ?sc _ ?k) _ _ = _ → _ =>
    destruct (run_attempts now id ts sc k n false o d1) as (m & res & o1 & Hm & Hl & ->) end.
  intros Hr. apply run_settle_agent in Hr as [-> Hs]. right. exists (String a s), j, m.
  split_and!; try done; [lia|]. intros j0 Hj0.
  apply Hs. unfold find_job in *. by rewrite Hjobs.
Qed.

(** *** Among the methods of others *)

Lemma calls_used_jobs d d' id : jobs d' = jobs d → calls_used d' id = calls_used d id.
Proof. intros E. unfold calls_used, find_job. by rewrite E. Qed.

Lemma traced_mark_item `{JobWording} {A} id key u (k : jprog A) d a evs n d' :
  traced id (mark_item id key u k) d a evs n d' →
  ∃ d1, traced id k d1 a evs n d'.
Proof.
  unfold mark_item. destruct (has_key key) as [s|]; [|by exists d].
  intros (now & d1 & n1 & _ & -> & Ht). eexists. rewrite (calls_used_jobs d1) by apply run_update_item.
  by rewrite Z.sub_diag.
Qed.

Lemma traced_attempts `{JobWording, JobHost} id tools schema k n infra d a evs c d' :
  traced id (agent_attempts n id tools schema infra k) d a evs c d' →
  ∃ m res evs1, (m <= n)%nat ∧ ((0 < n)%nat → (0 < m)%nat) ∧ evs = asks m id tools ++ evs1 ∧
    traced id (k res) d a evs1 c d'.
Proof.
  revert infra evs. induction n as [|n IH]; intros infra evs; cbn [agent_attempts].
  { intros Ht. exists 0%nat, (Nothing infra), evs. split_and!; [lia|lia|done..]. }
  intros (r & evs1 & -> & Ht).
  assert (Hretry : ∀ infra', traced id (agent_attempts n id tools schema infra' k) d a evs1 c d' →
    ∃ m res evs2, (m <= S n)%nat ∧ ((0 < S n)%nat → (0 < m)%nat) ∧
      AgentCall id tools :: evs1 = asks m id tools ++ evs2 ∧ traced id (k res) d a evs2 c d').
  { intros infra' Ht'. destruct (IH _ _ Ht') as (m & res & evs2 & Hm & _ & -> & Hk).
    exists (S m), res, evs2. split_and!; [lia|lia|done..]. }
  assert (Hdone : ∀ res, traced id (k res) d a evs1 c d' →
    ∃ m res evs2, (m <= S n)%nat ∧ ((0 < S n)%nat → (0 < m)%nat) ∧
      AgentCall id tools :: evs1 = asks m id tools ++ evs2 ∧ traced id (k res) d a evs2 c d').
  { intros res Hk. exists 1%nat, res, evs1. split_and!; [lia|lia|done..]. }
  repeat case_match; eauto.
Qed.

Lemma add_usage_calls id t now d :
  0 <= calls_used (run_work (add_usage id 1 t) now d).2 id - calls_used d id <= 1.
Proof.
  unfold calls_used. destruct (find_job d id) as [j|] eqn:Hj.
  - destruct (run_add_usage id t now d) as (d1 & -> & Hs). destruct (Hs j Hj) as (j' & E & _ & ?).
    cbn [snd]. rewrite E. lia.
  - assert (E : add_usage id 1 t now d = (tt, [])) by (unfold add_usage; by rewrite Hj).
    rewrite (run_nothing _ _ _ _ E). cbn [snd]. rewrite Hj. lia.
Qed.

Lemma traced_settle `{JobWording, JobHost} id key res d a evs n d' :
  traced id (settle_agent id key res) d a evs n d' → evs = [] ∧ 0 <= n <= 1.
Proof.
  assert (Hbook : ∀ ok e st rs re (x : response),
    traced id (must (add_usage id 1 0) ServerError (λ _,
             must (record_call id key ok e) ServerError (λ _,
             mark_item id key (mark st rs re false) (JRet x)))) d a evs n d' → evs = [] ∧ 0 <= n <= 1).
  { intros ok e st rs re x (now & d1 & n1 & _ & -> & Ht). pose proof (add_usage_calls id 0 now d1) as Hb.
    destruct (run_add_usage id 0 now d1) as (d2 & E & _). rewrite E in Ht, Hb |- *. cbn [fst snd] in *.
    destruct Ht as (now2 & d3 & n2 & _ & -> & Ht).
    destruct (run_record_call id key ok e now2 d3) as (d4 & E4 & Hj4). rewrite E4 in Ht |- *. cbn [fst snd] in *.
    apply traced_mark_item in Ht as (d5 & -> & -> & -> & _).
    rewrite (calls_used_jobs d3 d4) by done. split; [done|lia]. }
  destruct res as [v|[] |]; cbn [settle_agent]; [apply Hbook..|].
  intros (-> & -> & -> & _). split; [done|lia].
Qed.

(** Either nothing is asked for and nothing booked, or the check was passed. *)
Lemma traced_job_agent `{JobWording, JobHost} id token b d r evs n d' :
  traced id (job_agent id token b) d r evs n d' →
  (evs = [] ∧ n = 0) ∨
  ∃ t d1 j1 now d2 j2 m, token = Some t ∧ rtc at_once d d1 ∧ verify_token d1 id t = Ok (Some j1) ∧
    rtc at_once d1 d2 ∧ find_job d2 id = Some j2 ∧
    0 < calls_left (budget_left_of now j2) ∧ 0 < seconds_left (budget_left_of now j2) ∧
    evs = asks m id (granted_tools (b_tools b) (ctx_allowed (ctx_of j1))) ∧ (0 < m <= 4)%nat ∧
    0 <= n <= 1.
Proof.
  unfold job_agent, auth. destruct token as [[|a s]|]; try (intros (_ & -> & -> & _); by left).
  intros (now1 & d1 & Hs1 & Ht).
  destruct (verify_token d1 id (String a s)) as [[j1|]|] eqn:Hv; try (destruct Ht as (_ & -> & -> & _); by left).
  destruct Ht as (now & d2 & Hs2 & Ht). cbv beta in Ht.
  destruct (Z.leb_spec (calls_left (budget_left d2 now id)) 0) as [|Hc]; [destruct Ht as (_ & -> & -> & _); by left|].
  destruct (Z.leb_spec (seconds_left (budget_left d2 now id)) 0) as [|Hsec]; [destruct Ht as (_ & -> & -> & _); by left|].
  cbv zeta in Ht. unfold budget_left in Hc, Hsec.
  destruct (find_job d2 id) as [j2|] eqn:Hj2; [|cbn in Hc; lia].
  apply traced_mark_item in Ht as (d3 & Ht).
  apply traced_attempts in Ht as (m & res & evs1 & Hm & Hpos & -> & Ht).
  apply traced_settle in Ht as [-> Hn]. right.
  exists (String a s), d1, j1, now, d2, j2, m. rewrite app_nil_r. split_and!; try done; lia.
Qed.

(** ** Reaping *)

(** The job as the reaper leaves it. *)
Definition interrupted_from (j j' : job) : Prop :=
  same_job j j' ∧ status j' = Interrupted ∧ m_token (extra_data j') = None ∧
  usage j' = usage j ∧ started_at j' = started_at j.

Section interrupts.
Context (now : Z) (msg : job → text) (j : job).

Lemma effect_interrupt_other j0 x :
  job_id x = job_id j → job_id j0 ≠ job_id j → effect now x (interrupt_patch j0 (msg j0)) = x.
Proof.
  intros Hx Hn. cbn. destruct (is_job (job_id j0) x) eqn:E; [|done].
  apply is_job_true in E. congruence.
Qed.

Lemma effect_interrupt_self x :
  x = j ∨ interrupted_from j x → interrupted_from j (effect now x (interrupt_patch j (msg j))).
Proof.
  intros Hx. assert (Hid : job_id x = job_id j) by by destruct Hx as [->|((? & _) & _)].
  cbn. rewrite (proj2 (is_job_true (job_id j) x) Hid).
  destruct Hx as [->|((H1 & H2 & H3 & H4 & H5) & H6 & H7 & H8 & H9)]; by split_and!.
Qed.

(** Only the patch of [j] itself counts, and it counts once. *)
Lemma interrupts_effect l x :
  (∀ j0, j0 ∈ l → job_id j0 = job_id j → j0 = j) → x = j ∨ interrupted_from j x →
  let x' := foldl (effect now) x (map (λ j0, interrupt_patch j0 (msg j0)) l) in
  (j ∉ l → x' = x) ∧ (j ∈ l ∨ interrupted_from j x → interrupted_from j x').
Proof.
  revert x. induction l as [|j0 l IH]; intros x Hu Hx; cbn [map foldl].
  { split; [done|]. by intros [?%not_elem_of_nil|?]. }
  assert (Hu' : ∀ j1, j1 ∈ l → job_id j1 = job_id j → j1 = j) by (intros; apply Hu; [by right|done]).
  assert (Hid : job_id x = job_id j) by by destruct Hx as [->|((? & _) & _)].
  destruct (decide (job_id j0 = job_id j)) as [E|Hn].
  - assert (j0 = j) as -> by (apply Hu; [left|done]).
    pose proof (effect_interrupt_self x Hx) as Hself.
    destruct (IH _ Hu' (or_intror Hself)) as [_ Hi].
    split; [intros Hnin; exfalso; apply Hnin; left|]. intros _. apply Hi. by right.
  - rewrite effect_interrupt_other by done. destruct (IH x Hu' Hx) as [Hout Hi]. split.
    + intros Hnin. apply Hout. intros Hin. apply Hnin. by right.
    + intros [[->|Hin]%elem_of_cons|Hint]; [done|apply Hi; by left|apply Hi; by right].
Qed.
End interrupts.

Lemma flush_updates now ws d :
  Forall (λ w, match w with UpdateJob _ _ => True | _ => False end) ws →
  ∃ d', flush now ws d = Some d' ∧ items d' = items d ∧ calls d' = calls d.
Proof.
  intros Hw. revert d. induction Hw as [|w ws Hw _ IH]; intros d; [by exists d|].
  rewrite flush_cons. destruct w; cbn [apply_write]; try done.
  destruct (IH (d <| jobs := update_where (is_job id) (patch_job now p) (jobs d) |>)) as (d' & E & Hi & Hc).
  by exists d'.
Qed.

Lemma run_reap `{JobWording} active now d :
  keyed d →
  ∃ d', run_work (reap_rows active) now d =
          (Ok (map job_id (List.filter (orphaned active now) (jobs d))), d') ∧
    items d' = items d ∧ calls d' = calls d ∧
    ∀ id j, find_job d id = Some j → ∃ j', find_job d' id = Some j' ∧
      (orphaned active now j = false → j' = j) ∧
      (orphaned active now j = true → interrupted_from j j').
Proof.
  intros Hk. unfold run_work, reap_rows.
  destruct (flush_updates now (map (λ j, interrupt_patch j (lost_contact ((now - updated_at j) / seconds 60)))
              (List.filter (orphaned active now) (jobs d))) d) as (d' & E & Hi & Hc).
  { apply Forall_forall. by intros w (j & -> & _)%list_elem_of_fmap. }
  exists d'. rewrite E. split_and!; [done..|]. intros id j Hj.
  pose proof (flush_job _ _ _ _ _ _ E Hj) as Hj'. eexists. split; [exact Hj'|].
  pose proof (find_job_id _ _ _ Hj) as [Hid Hin].
  destruct (interrupts_effect now (λ j, lost_contact ((now - updated_at j) / seconds 60)) j
              (List.filter (orphaned active now) (jobs d)) j) as [Hout Hint].
  - intros j0 Hin0 He. apply list_elem_of_In, List.filter_In in Hin0 as [Hin0 _].
    eapply find_job_unique; [exact Hk|exact Hj|by apply list_elem_of_In|congruence].
  - by left.
  - split.
    + intros Ho. apply Hout. intros [_ Ht]%list_elem_of_In%List.filter_In. congruence.
    + intros Ho. apply Hint. left. apply list_elem_of_In, List.filter_In.
      split; [by apply list_elem_of_In|done].
Qed.

(** A job that is not over wakes nobody. *)
Lemma run_wake_none {A} now id (k : jprog A) o d :
  (∀ j, find_job d id = Some j → is_terminal (status j) = false) →
  run now (wake_on_job_finish id k) o d = run now k o d.
Proof.
  intros Hn. unfold wake_on_job_finish. cbn [run].
  assert (E : claim_wake id now d = (None, [])).
  { unfold claim_wake. destruct (find_job d id) as [j|]; [|done].
    destruct (has_key _); [|done]. by rewrite (Hn j eq_refl). }
  by rewrite (run_nothing _ _ _ _ E).
Qed.

Lemma run_wake_all_none {A} now ids (k : jprog A) o d :
  (∀ id j, id ∈ ids → find_job d id = Some j → is_terminal (status j) = false) →
  run now (wake_all ids k) o d = run now k o d.
Proof.
  induction ids as [|id ids IH]; intros Hn; [done|]. cbn [wake_all].
  rewrite run_wake_none by (intros; eapply Hn; [left|done]).
  apply IH. intros id' j Hin. apply Hn. by right.
Qed.
