(* ===== verification/JobsThms.v ===== *)
(** * Batch jobs: what holds of the ledger, of the verdict, of the callbacks and
    of the driver

    The ledger and the audit under commits of any age; a verdict once given; who
    may call back and what a call books; the end of every driver; resuming and
    reaping.  The witnesses run on one small pair of tables. *)

From S2P Require Import Prelude PyString PyDict Jobs JobRuntime JobsProps JobRuntimeProps.
From Stdlib Require Import Ascii String.

Import Jobs JobRuntime.

(** ** Tables for the witnesses *)

#[local] Instance plain_wording : JobWording := {|
  nothing_produced := λ _ _ _, text_of "nothing produced";
  wall_clock_exceeded := text_of "out of time";
  silent_too_long := text_of "silent";
  cancelled_by_user := text_of "cancelled";
  lost_contact := λ _, text_of "lost";
  service_restarted := text_of "restarted";
  runner_gone := λ t, t;
  no_evidence := text_of "no evidence";
  not_parsed := text_of "not parsed" |}.
#[local] Instance plain_host : JobHost := {|
  parse_schema := λ _ s, Some (JStr s);
  json_loads := λ _, None |}.

Definition sample_job (s : job_status) : job := {|
  job_id := "j1"; user_id := "u"; chat_id := Some "c"%string; name := text_of "job"; status := s;
  script_path := []; script_text := []; sandbox_session_id := Some "s"%string;
  budget := [("max_calls"%string, 3); ("max_seconds"%string, 60)];
  usage := {| u_calls := 1; u_tokens := 0; u_seconds := 0 |};
  extra_data := {| m_token := Some "t"%string;
    m_start_params := [("allowed_tools"%string, JList [JStr "search"]);
                       ("wake_on_finish"%string, JBool true)];
    m_woken_at := false; m_last_settled := None |};
  error_message := None; created_at := 0; started_at := Some 0; completed_at := None;
  updated_at := 0 |}.
Definition sample_item (k : string) (s : item_status) : job_item := {|
  item_job := "j1"; item_key := k; item_status_is := s; payload := JNull; item_result := None;
  item_review := None; attempts := 0; item_error := None; item_updated := 0 |}.
Definition sample (s : job_status) : JobDb := {|
  jobs := [sample_job s]; items := [sample_item "a" IDone; sample_item "b" IPending]; calls := [] |}.
Definition quiet : outside := {| agents := []; probes := []; log := [] |}.

Lemma sample_keyed s : keyed (sample s).
Proof.
  split; cbn; [apply NoDup_singleton|]. apply NoDup_cons. split; [|apply NoDup_singleton].
  intros H%list_elem_of_singleton. discriminate H.
Qed.

(** ** The ledger *)

(** The keys of the ledger of a job. *)
Definition ledger_keys (d : JobDb) (id : string) : list string := map item_key (items_of d id).

Lemma elem_of_ledger_keys d id k : k ∈ ledger_keys d id ↔ (id, k) ∈ map item_id (items d).
Proof.
  unfold ledger_keys, items_of. rewrite !list_elem_of_fmap. split.
  - intros (i & -> & Hin). apply list_elem_of_In, List.filter_In in Hin as [Hin Hb]. bool_simpl.
    exists i. subst id. split; [done|by apply list_elem_of_In].
  - intros (i & [= -> ->] & Hin). exists i. split; [done|]. apply list_elem_of_In, List.filter_In.
    split; [by apply list_elem_of_In|by apply bool_decide_eq_true].
Qed.

Lemma seed_writes id l now d : (seed id l now d).2 = seed_new now id (ledger_keys d id) l.
Proof. done. Qed.

Lemma stale_history d d' `{JobWording} :
  keyed d → rtc stale_commit d d' → keyed d' ∧ extends (λ _, True) d d'.
Proof.
  intros Hk Hs. induction Hs as [d|d d1 d' Hs _ IH]; [split; [done|apply extends_refl]|].
  destruct (stale_commit_extends _ _ Hs Hk) as [Hk1 He1]. destruct (IH Hk1) as (Hk' & He).
  split; [done|by eapply extends_trans].
Qed.

(** An item stays as it is under commits that do not update it. *)
Lemma spared_item `{JobWording} d d' i :
  keyed d → i ∈ items d → rtc (sparing_commit (item_id i)) d d' → i ∈ items d'.
Proof.
  intros Hk Hin. induction 1 as [|d d1 d' Hs _ IH]; [done|].
  destruct Hs as (m & now0 & d0 & now & _ & Hn & Hf).
  destruct (flush_extends _ _ _ _ Hf Hk) as [Hk1 He].
  destruct (extends_item _ _ _ _ He Hin) as (i1 & Hin1 & _ & _ & Heq).
  rewrite (Heq Hn) in Hin1. by apply IH.
Qed.

(** C15: a ledger can be seeded again.  Seeding commits; it leaves jobs, audit and
    the items that are there as they are, and adds behind them one pending item,
    never tried, for every key the list names that the ledger does not have, with
    the payload of the first entry of that key; it answers how many it added and
    how many entries it passed over.  Whatever methods then commit, in any order
    and from readings of any age, no item disappears or changes its payload, an
    item that no commit updates stays exactly as it is, and seeding the same list
    again adds nothing and changes nothing. *)
Theorem seeding_resumes `{JobWording} id l now d :
  keyed d →
  ∃ new d1,
    run_work (seed id l) now d
      = (Ok (Z.of_nat (List.length new), Z.of_nat (List.length l) - Z.of_nat (List.length new)), d1) ∧
    d1 = d <| items := items d ++ new |> ∧ keyed d1 ∧
    (∀ i, i ∈ new → item_job i = id ∧ item_status_is i = IPending ∧ attempts i = 0 ∧
       item_key i ≠ ""%string ∧ item_key i ∉ ledger_keys d id ∧ first_named l i) ∧
    (∀ it, it ∈ l → key_of it ≠ ""%string → key_of it ∈ ledger_keys d1 id) ∧
    ∀ d2, rtc stale_commit d1 d2 →
      (∀ now2, run_work (seed id l) now2 d2 = (Ok (0, Z.of_nat (List.length l)), d2)) ∧
      ∀ i, i ∈ items d1 → ∃ i', i' ∈ items d2 ∧ item_id i' = item_id i ∧ payload i' = payload i ∧
        (rtc (sparing_commit (item_id i)) d1 d2 → i ∈ items d2).
Proof.
  intros Hk. destruct (seed_new_spec now id (ledger_keys d id) l) as (new & Ew & Hnd & Hnew & Hall).
  assert (Hids : map item_id new = map (pair id) (map item_key new)).
  { rewrite map_map. apply map_ext_in. intros i Hi. apply list_elem_of_In, Hnew in Hi as [Hi _].
    unfold item_id. by rewrite Hi. }
  assert (Hflush : flush now (map InsertItem new) d = Some (d <| items := items d ++ new |>)).
  { apply flush_inserts.
    - rewrite Hids. apply NoDup_fmap_2; [|done]. by intros ? ? [= ->].
    - intros i Hi. destruct (Hnew i Hi) as (<- & _ & _ & _ & Hn & _).
      intros Hin. apply Hn. by apply elem_of_ledger_keys. }
  assert (Hk1 : keyed (d <| items := items d ++ new |>)) by by eapply flush_extends.
  exists new. eexists. split_and!; [| reflexivity |done|done| |].
  - unfold run_work, seed. fold (items_of d id). fold (ledger_keys d id). rewrite Ew, Hflush, length_map. done.
  - intros it Hin Hne. apply elem_of_ledger_keys. change (items (d <| items := items d ++ new |>)) with (items d ++ new).
    rewrite map_app, elem_of_app, Hids. destruct (Hall it Hin Hne) as [Ho|Hn].
    + left. by apply elem_of_ledger_keys.
    + right. by apply list_elem_of_fmap_2.
  - intros d2 Hs. destruct (stale_history _ _ Hk1 Hs) as [Hk2 He]. split.
    + intros now2.
      assert (E : seed id l now2 d2 = ((0, Z.of_nat (List.length l)), [])); [|by apply run_nothing].
      unfold seed. fold (items_of d2 id). fold (ledger_keys d2 id). rewrite seed_new_known; [cbn; by rewrite Z.sub_0_r|].
      intros it Hin. destruct (decide (key_of it = ""%string)) as [|Hne]; [by left|right].
      apply elem_of_ledger_keys. assert (Hin1 : (id, key_of it) ∈ map item_id (items d ++ new)).
      { rewrite map_app, elem_of_app, Hids. destruct (Hall it Hin Hne) as [Ho|Hn].
        - left. by apply elem_of_ledger_keys.
        - right. by apply list_elem_of_fmap_2. }
      apply list_elem_of_fmap in Hin1 as (i & Ei & Hi).
      destruct (extends_item _ _ _ _ He Hi) as (i' & Hi' & Ei' & _). rewrite Ei, <- Ei'.
      by apply list_elem_of_fmap_2.
    + intros i Hi. destruct (extends_item _ _ _ _ He Hi) as (i' & Hi' & Ei' & Hp & _).
      exists i'. split_and!; [done..|]. by apply spared_item.
Qed.

Definition late_list : list seed_item :=
  [{| seed_key := "a"; seed_payload := JBool true |}; {| seed_key := " z "; seed_payload := JNull |};
   {| seed_key := "z"; seed_payload := JBool true |}].

Definition late_seed : JobDb := (run_work (seed "j1" late_list) 9 (sample Running)).2.

Lemma seeding_resumes_witness :
  ∃ d1, run_work (seed "j1" late_list) 9 (sample Running) = (Ok (1, 2), d1) ∧
    ledger_keys d1 "j1" = ["a"; "b"; "z"]%string ∧
    run_work (seed "j1" late_list) 11 d1 = (Ok (0, 3), d1).
Proof.
  destruct (seeding_resumes "j1" late_list 9 (sample Running) (sample_keyed Running))
    as (new & d1 & Hr & _ & _ & _ & _ & Hrest).
  assert (E : run_work (seed "j1" late_list) 9 (sample Running) = (Ok (1, 2), late_seed))
    by (vm_compute; reflexivity).
  rewrite E in Hr. injection Hr as _ _ <-. exists late_seed. split; [exact E|].
  split; [vm_compute; reflexivity|]. exact (proj1 (Hrest late_seed (rtc_refl _ _)) 11).
Defined.

(** ** The verdict *)

(** C34: [finish] on a job that is over changes nothing.  On one that is not, it
    sets the time, destroys the token, so that no callback is accepted any more,
    touches neither the ledger nor another job, and gives the verdict asked for,
    except that a job completes only if its ledger is empty or some item was
    settled or came up for review: otherwise it has failed. *)
Theorem finish_verdict `{JobWording} id wanted e now d j :
  find_job d id = Some j →
  ∃ d', run_work (finish id wanted e) now d = (Ok tt, d') ∧ items d' = items d ∧
    (is_terminal (status j) = true → d' = d) ∧
    (is_terminal (status j) = false → ∃ j', find_job d' id = Some j' ∧ same_job j j' ∧
       completed_at j' = Some now ∧
       (status j' = Completed ↔ wanted = Completed ∧ ¬ no_result d id) ∧
       (status j' ≠ Completed → status j' = if decide (wanted = Completed) then Failed else wanted) ∧
       (∀ t, verify_token d' id t = Ok None) ∧
       (∀ id', id' ≠ id → find_job d' id' = find_job d id')).
Proof.
  intros Hj. destruct (is_terminal (status j)) eqn:Ht.
  { exists d. split_and!; [|done..]. apply run_nothing. unfold finish. by rewrite Hj, Ht. }
  destruct (run_finish id wanted e now d j Hj Ht) as (d' & Hr & Hj' & Hother & Hit).
  exists d'. split_and!; [done..|]. intros _. pose proof (find_job_id _ _ _ Hj) as [Hid _].
  pose proof (no_result_spec d id) as Hspec.
  assert (Hst : status (finished_job d wanted e now j) =
    if bool_decide (wanted = Completed) && ((0 <? total (stats d id)) && (produced d id =? 0))
    then Failed else wanted).
  { unfold finished_job. rewrite Hid, andb_assoc. done. }
  eexists. split; [exact Hj'|]. split; [done|]. split; [done|]. rewrite Hst.
  split_and!; [| | |done].
  - destruct (decide (wanted = Completed)) as [->|Hn].
    + rewrite bool_decide_true by done. cbn [andb].
      destruct (_ && _) eqn:E; split.
      * done.
      * intros [_ Hnr]. exfalso. by apply Hnr, Hspec.
      * intros _. split; [done|]. rewrite <- Hspec. congruence.
      * done.
    + rewrite bool_decide_false by done. cbn. naive_solver.
  - destruct (decide (wanted = Completed)) as [->|Hn].
    + rewrite bool_decide_true by done. cbn [andb]. by destruct (_ && _).
    + by rewrite bool_decide_false.
  - intros t. unfold verify_token. rewrite Hj'.
    change (m_token (extra_data (finished_job d wanted e now j))) with (@None string).
    by destruct (is_terminal (status (finished_job d wanted e now j))).
Qed.

Lemma finish_verdict_witness :
  status (default (sample_job Pending)
    (find_job (run_work (finish "j1" Completed None) 7 (sample Running)).2 "j1")) = Completed.
Proof.
  destruct (finish_verdict "j1" Completed None 7 (sample Running) (sample_job Running)
              (eq_refl _)) as (d' & Hr & _ & _ & Hf).
  rewrite Hr. cbn [snd]. destruct (Hf eq_refl) as (j' & -> & _ & _ & [_ Hc] & _). cbn.
  apply Hc. split; [reflexivity|]. intros [_ Hn].
  apply (Hn (sample_item "a" IDone)); [cbn; left|reflexivity|left].
Defined.

(** C16: a verdict is final.  No history of methods that each read and commit in
    one piece, none of them reopening a job ([at_once]), changes the status, the
    message or the end time of a job that is over, and none of its tokens is
    accepted; once the conversation was woken for it, it is not woken for it
    again.  (A method that commits what it read earlier can reopen the job: see
    [stale_start_reopens_finished_job].) *)
Theorem verdict_is_final `{JobWording} d d' id j :
  keyed d → find_job d id = Some j → is_terminal (status j) = true → rtc at_once d d' →
  (∃ j', find_job d' id = Some j' ∧ status j' = status j ∧ error_message j' = error_message j ∧
         completed_at j' = completed_at j) ∧
  (∀ t, verify_token d' id t = Ok None) ∧
  (∀ now chat d1 now', (claim_wake id now d).1 = Some chat →
     flush now (claim_wake id now d).2 d = Some d1 → rtc at_once d1 d' →
     claim_wake id now' d' = (None, [])).
Proof.
  intros Hk Hj Ht Hs. destruct (history_job _ _ _ _ Hs Hk Hj) as (Hk' & j' & Hj' & _ & Hset).
  destruct (Hset Ht) as (_ & Hst & He & Hc & _). split_and!.
  - by exists j'.
  - intros t. unfold verify_token. by rewrite Hj', Hst, Ht.
  - intros now chat d1 now' Hcl Hf Hs1. clear j' Hj' Hset Hst He Hc.
    pose proof (flush_job _ _ _ _ _ _ Hf Hj) as Hj1.
    assert (Hk1 : keyed d1) by (eapply flush_extends; eauto).
    destruct (history_job _ _ _ _ Hs1 Hk1 Hj1) as (_ & j' & Hj' & (_ & _ & Hchat & _) & Hset).
    pose proof (find_job_id _ _ _ Hj) as [Hid _].
    unfold claim_wake in Hcl, Hj1, Hset, Hchat. rewrite Hj in Hcl, Hj1, Hset, Hchat.
    destruct (has_key (chat_id j)) as [c|] eqn:Ech; [|done]. rewrite Ht in Hcl, Hj1, Hset, Hchat.
    cbn [negb] in *. destruct (m_woken_at _); [done|]. destruct (start_flag _ _); [|done].
    cbn [negb snd foldl effect] in *. rewrite (proj2 (is_job_true id j) Hid) in *.
    destruct (Hset Ht) as (_ & Hst & _ & _ & Hw). unfold claim_wake. rewrite Hj', Hst, Hchat.
    change (chat_id (patch_job _ _ j)) with (chat_id j). rewrite Ech.
    change (status (patch_job _ _ j)) with (status j). rewrite Ht. by rewrite (Hw eq_refl).
Qed.

Lemma verdict_is_final_witness :
  verify_token (run_work (rotate_token "j1" "t2") 9 (sample Failed)).2 "j1" "t2" = Ok None.
Proof.
  destruct (verdict_is_final (sample Failed) (run_work (rotate_token "j1" "t2") 9 (sample Failed)).2
              "j1" (sample_job Failed)) as (_ & Hv & _).
  - apply sample_keyed.
  - reflexivity.
  - reflexivity.
  - apply rtc_once. apply run_work_at_once. apply m_rotate.
  - apply Hv.
Defined.

(** ** The callbacks *)

(** Why a callback is refused, if it is: no token, not the token of a job that is
    not over, or a token that cannot be compared with the one of the job. *)
Definition refusal (d : JobDb) (id : string) (token : option string) : option response :=
  match has_key token with
  | None => Some MissingToken
  | Some t =>
      match find_job d id with
      | Some j =>
          if is_terminal (status j) then Some TokenRefused
          else match has_key (m_token (extra_data j)) with
               | None => Some TokenRefused
               | Some stored =>
                   if negb (ascii_only stored && ascii_only t) then Some ServerError
                   else if bool_decide (stored = t) then None else Some TokenRefused
               end
      | None => Some TokenRefused
      end
  end.

Lemma auth_refused `{JobWording, JobHost} id token d now o k r :
  refusal d id token = Some r → run now (auth id token (λ r, r) k) o d = (r, o, d).
Proof.
  unfold refusal, auth. destruct token as [[|a s]|]; try (by intros [= <-]). cbn [has_key].
  cbn [run]. unfold verify_token, _same. destruct (find_job d id) as [j|]; [|by intros [= <-]].
  destruct (is_terminal (status j)); [by intros [= <-]|].
  destruct (m_token (extra_data j)) as [[|a' s']|]; try (by intros [= <-]).
  cbn [has_key opt_str_or]. unfold str_or. rewrite !(bool_decide_false (String a' s' = ""%string)) by done.
  destruct (_ && _); cbn [negb]; [|by intros [= <-]].
  destruct (bool_decide _); [done|by intros [= <-]].
Qed.

(** C35: a script reaches the tables only with the token of a job that is not
    over.  Otherwise each of the three callbacks asks for nothing, changes nothing
    and answers 401 or 403, except that a token that is not ASCII is answered with
    a 500 when the job is not over; and whatever is not refused so is accepted by
    the check of the token. *)
Theorem callback_refused `{JobWording, JobHost} now id token o d :
  match refusal d id token with
  | Some r =>
      (∀ b, run now (job_agent id token b) o d = (r, o, d)) ∧
      (∀ op, run now (job_ledger id token op) o d = (r, o, d)) ∧
      (∀ lifecycle e message, run now (job_log id token lifecycle e message) o d = (r, o, d)) ∧
      (r = MissingToken ∨ r = TokenRefused ∨
       r = ServerError ∧ ∃ j t stored, find_job d id = Some j ∧ is_terminal (status j) = false ∧
         token = Some t ∧ m_token (extra_data j) = Some stored ∧
         ascii_only stored && ascii_only t = false)
  | None => ∃ j t, token = Some t ∧ find_job d id = Some j ∧ is_terminal (status j) = false ∧
      m_token (extra_data j) = Some t ∧ verify_token d id t = Ok (Some j)
  end.
Proof.
  destruct (refusal d id token) as [r|] eqn:Hr.
  - split_and!; [intros; by apply auth_refused..|]. revert Hr. unfold refusal.
    destruct token as [[|a s]|]; cbn [has_key]; try (intros [= <-]; by left).
    destruct (find_job d id) as [j|] eqn:Hj; [|intros [= <-]; auto].
    destruct (is_terminal (status j)) eqn:Ht; [intros [= <-]; auto|].
    destruct (m_token (extra_data j)) as [[|a' s']|] eqn:Hm; cbn [has_key]; try (intros [= <-]; auto).
    destruct (_ && _) eqn:Ha; cbn [negb].
    + destruct (bool_decide _); [done|intros [= <-]; auto].
    + intros [= <-]. right; right. split; [done|]. by eexists j, _, _.
  - revert Hr. unfold refusal. destruct token as [[|a s]|]; try done. cbn [has_key].
    destruct (find_job d id) as [j|] eqn:Hj; [|done].
    destruct (is_terminal (status j)) eqn:Ht; [done|].
    destruct (m_token (extra_data j)) as [[|a' s']|] eqn:Hm; try done. cbn [has_key].
    destruct (_ && _) eqn:Ha; [|done]. apply andb_true_iff in Ha as [_ Ha]. cbn [negb].
    case_bool_decide as E; [|done]. intros _. exists j, (String a s). split_and!; [done..|by rewrite E in Hm|].
    apply verify_token_spec. split_and!; [done..|by rewrite E in Hm|done|done].
Qed.

Lemma callback_refused_witness :
  run 5 (job_log "j1" (Some "t") (Some "running") None None) quiet (sample Cancelled)
  = (TokenRefused, quiet, sample Cancelled).
Proof.
  exact (proj1 (proj2 (proj2 (callback_refused 5 "j1" (Some "t"%string) quiet (sample Cancelled))))
           (Some "running"%string) None None).
Defined.

(** C18: calling a sub-agent.  Among any methods that others run between its reads,
    its commits and its requests, a callback asks at most four times; it asks only
    after it has found the token to be the job's and then, in one reading, calls
    and seconds left in the budget of the job; every tool it grants was declared
    by the script and is one of the conversation's; and it books at most one call,
    none if it asked for nothing.  Callbacks that run one after the other therefore
    keep the calls booked within [max_calls].  (Callbacks that overlap need not:
    see [overlapping_callbacks_exceed_budget].) *)
Theorem agent_call_bounded `{JobWording, JobHost} id token b :
  (∀ d r evs n d', traced id (job_agent id token b) d r evs n d' →
     ∃ m tools, (m <= 4)%nat ∧ evs = asks m id tools ∧ 0 <= n <= 1 ∧ (m = 0%nat → n = 0) ∧
     ((0 < m)%nat → ∃ t d1 j1 now d2 j2, token = Some t ∧
        rtc at_once d d1 ∧ verify_token d1 id t = Ok (Some j1) ∧
        rtc at_once d1 d2 ∧ find_job d2 id = Some j2 ∧
        u_calls (usage j2) < budget_of j2 "max_calls" ∧
        Z.quot (now - or_keep (started_at j2) (created_at j2)) 1000000 < budget_of j2 "max_seconds" ∧
        ∀ tool, tool ∈ tools → tool ∈ b_tools b ∧ tool ∈ ctx_allowed (ctx_of j1))) ∧
  (∀ now o d r o' d' j, run now (job_agent id token b) o d = (r, o', d') → find_job d id = Some j →
     ∃ j', find_job d' id = Some j' ∧ same_job j j' ∧
       u_calls (usage j) <= u_calls (usage j') <= Z.max (u_calls (usage j)) (budget_of j "max_calls")).
Proof.
  split.
  - intros d r evs n d' [[-> ->]|(t & d1 & j1 & now & d2 & j2 & m & Ht & Hs1 & Hv & Hs2 & Hj2 & Hc & Hsec & -> & Hm & Hn)]%traced_job_agent.
    { exists 0%nat, []. split_and!; [lia|done|lia|lia|done|lia]. }
    eexists m, _. split_and!; [lia|reflexivity|lia|lia|lia|]. intros _.
    unfold budget_left_of in Hc, Hsec. cbn in Hc, Hsec.
    exists t, d1, j1, now, d2, j2. split_and!; [done..|lia|lia|]. intros tool. apply granted_incl.
  - intros now o d r o' d' j Hr Hj.
    destruct (run_job_agent _ _ _ _ _ _ _ _ _ Hr) as [[-> ->]|(t & j' & m & Ht & Hv & Hm & Hc & Hsec & Hl & Hs)].
    { exists j. split_and!; [done..|lia|lia]. }
    apply verify_token_spec in Hv as (Hj' & _). rewrite Hj in Hj'. injection Hj' as <-.
    unfold budget_left_of in Hc. cbn in Hc. destruct (Hs j Hj) as (j' & Hj' & Hsame & Hb).
    exists j'. split_and!; [done..|lia|lia].
Qed.

Definition sample_call : agent_body := {|
  b_schema := None; b_tools := ["search"%string; "shell"%string]; b_max_attempts := 9;
  b_item_key := Some "b"%string |}.

Definition one_left : JobDb :=
  (sample Running) <| jobs := [(sample_job Running) <| usage := {| u_calls := 2; u_tokens := 0; u_seconds := 0 |} |>] |>.
Definition after_call : JobDb :=
  (run 5 (job_agent "j1" (Some "t"%string) sample_call) {| agents := [AgentText "ok" false]; probes := []; log := [] |}
     one_left).2.

Lemma agent_call_bounded_witness :
  calls_used one_left "j1" = 2 ∧
  ∃ j', find_job after_call "j1" = Some j' ∧ u_calls (usage j') <= 3.
Proof.
  split; [vm_compute; reflexivity|].
  destruct (agent_call_bounded "j1" (Some "t"%string) sample_call) as [_ Halone].
  destruct (run 5 (job_agent "j1" (Some "t"%string) sample_call)
     {| agents := [AgentText "ok" false]; probes := []; log := [] |} one_left) as [[r o'] d'] eqn:E.
  destruct (Halone _ _ _ _ _ _ _ E eq_refl) as (j' & Hj' & _ & _ & Hle).
  exists j'. unfold after_call. rewrite E. split; [exact Hj'|exact Hle].
Defined.

(** ** The driver *)

(** C17: no driver watches a job for ever.  While others run methods between its
    reads and its commits, each in one piece and none of them reopening or resuming
    a job ([at_once]), a driver of an existing job that is given the clock to go on
    until the time of the job is used up comes to an end, and when it ends the job
    is over; some end is always reached. *)
Theorem drive_ends `{JobWording, JobHost} busy chat id clock t0 d j :
  keyed d → find_job d id = Some j →
  (∃ t t', (t, t') ∈ clock ∧ seconds (budget_get (budget j) "max_seconds" 7200) < t - t0) →
  (∃ r d', outcome (drive busy chat id clock (drive_init t0)) d r d') ∧
  ∀ r d', outcome (drive busy chat id clock (drive_init t0)) d r d' →
    ∃ e, r = Some e ∧ e ≠ NoJob ∧
      keyed d' ∧ ∃ j', find_job d' id = Some j' ∧ is_terminal (status j') = true.
Proof.
  intros Hk Hj Hclock. split; [|intros r d' Ho; by eapply drive_over].
  set (p := drive busy chat id clock (drive_init t0)).
  destruct (run 0 p {| agents := []; probes := []; log := [] |} d) as [[r o'] d'] eqn:E.
  exists r, d'. by eapply run_outcome.
Qed.

Lemma drive_ends_witness :
  ∃ r d', outcome (drive (λ _, false) (Some "c"%string) "j1"
            [(seconds 5, seconds 5); (seconds 61, seconds 61)] (drive_init 0)) (sample Running) r d'.
Proof.
  apply (drive_ends (λ _, false) (Some "c"%string) "j1"
           [(seconds 5, seconds 5); (seconds 61, seconds 61)] 0 (sample Running) (sample_job Running)).
  - apply sample_keyed.
  - reflexivity.
  - exists (seconds 61), (seconds 61). split; [right; left|reflexivity].
Defined.

(** ** Resuming and reaping *)

(** resuming.  The owner of a job nobody drives gets it back as pending, with
    a fresh token that is the only one accepted, no verdict and the right to be
    woken again; the ledger, the calls booked and the time it was first started
    are those it had, so that a job that has no time left by then is refused
    every sub-agent. *)
Theorem resume_reopens `{JobWording, JobHost} now active id user token o d j :
  find_job d id = Some j → user_id j = user → token ≠ ""%string → ascii_only token = true →
  ¬ (status j = Running ∧ id ∈ active) →
  ∃ d' j', run now (resume_job active id user token) o d = (true, o <| log := log o ++ [Launch id token] |>, d') ∧
    items d' = items d ∧ find_job d' id = Some j' ∧ same_job j j' ∧ status j' = Pending ∧
    error_message j' = None ∧ completed_at j' = None ∧ m_woken_at (extra_data j') = false ∧
    usage j' = usage j ∧ started_at j' = started_at j ∧
    (∀ t, (∃ j3, verify_token d' id t = Ok (Some j3)) ↔ t = token) ∧
    (∀ s b later, started_at j = Some s → budget_of j "max_seconds" <= Z.quot (later - s) 1000000 →
       (run later (job_agent id (Some token) b) o d').1.1 ∈ [CallsExhausted; TimeExhausted]).
Proof.
  intros Hj Hu Htok Hasc Hfree.
  set (p1 := no_change <| set_status := Some Pending |> <| set_completed := Some None |>
               <| set_error := Some None |> <| set_meta := Some ((extra_data j) <| m_woken_at := false |>) |>).
  set (j1 := patch_job now p1 j).
  set (p2 := no_change <| set_meta := Some ((extra_data j1) <| m_token := Some token |>) |>).
  set (j2 := patch_job now p2 j1).
  set (d1 := updated now id p1 d). set (d2 := updated now id p2 d1).
  assert (Hj1 : find_job d1 id = Some j1) by by apply find_updated_eq.
  assert (Hj2 : find_job d2 id = Some j2) by by apply find_updated_eq.
  assert (Hv : ∀ t, (∃ j3, verify_token d2 id t = Ok (Some j3)) ↔ t = token).
  { intros t. split.
    - intros [j3 Hv]. apply verify_token_spec in Hv as (Hj3 & _ & Hm & _).
      rewrite Hj2 in Hj3. injection Hj3 as <-. by injection Hm as <-.
    - intros ->. exists j2. by apply verify_token_spec. }
  exists d2, j2. split_and!; try done.
  - unfold resume_job. cbn [run]. unfold owned. rewrite Hj, bool_decide_true by done.
    assert (Hb : bool_decide (status j = Running) && bool_decide (id ∈ active) = false).
    { apply andb_false_iff. destruct (decide (status j = Running)) as [Hr|Hr].
      - right. apply bool_decide_eq_false. tauto.
      - left. by apply bool_decide_eq_false. }
    rewrite Hb. unfold must. cbn [run].
    assert (E1 : run_work (reopen id) now d = (Ok tt, d1)).
    { apply run_update. unfold reopen. by rewrite Hj. }
    rewrite E1. cbn [run].
    assert (E2 : run_work (rotate_token id token) now d1 = (Ok (Some token), d2)).
    { apply run_update. unfold rotate_token. by rewrite Hj1. }
    rewrite E2. cbn [run opt_str_or]. unfold str_or. by rewrite bool_decide_false.
  - intros s b later Hs Hlate. unfold job_agent, auth. destruct token as [|a token]; [done|].
    cbn [run]. destruct (proj2 (Hv (String a token)) eq_refl) as [j3 E]. rewrite E.
    apply verify_token_spec in E as (E & _). rewrite Hj2 in E. injection E as <-. cbn [run].
    unfold budget_left. rewrite Hj2. destruct (_ <=? 0); [set_solver|].
    assert (Hsec : seconds_left (budget_left_of later j2) <= 0).
    { unfold budget_left_of. cbn [seconds_left]. change (started_at j2) with (started_at j).
      rewrite Hs. cbn [or_keep]. change (budget_of j2 "max_seconds") with (budget_of j "max_seconds"). lia. }
    apply Z.leb_le in Hsec. rewrite Hsec. set_solver.
Qed.

Lemma resume_reopens_witness :
  ∃ d', run 9 (resume_job [] "j1" "u" "t2") quiet (sample Interrupted)
        = (true, {| agents := []; probes := []; log := [Launch "j1" "t2"] |}, d').
Proof.
  destruct (resume_reopens 9 [] "j1" "u" "t2" quiet (sample Interrupted) (sample_job Interrupted))
    as (d' & _ & Hr & _).
  - reflexivity.
  - reflexivity.
  - discriminate.
  - reflexivity.
  - intros [Hs _]. discriminate Hs.
  - exists d'. exact Hr.
Defined.

(** A live job without a driver in this process, of whose script nothing was
    heard for five minutes if it has not started, for fifteen if it has. *)
Definition unattended (active : list string) (now : Z) (j : job) : Prop :=
  job_id j ∉ active ∧
  (status j = Pending ∧ seconds 300 <= now - updated_at j ∨
   status j = Running ∧ seconds 900 <= now - updated_at j).

Lemma orphaned_spec active now j : orphaned active now j = true ↔ unattended active now j.
Proof.
  unfold orphaned, unattended. rewrite !andb_true_iff, negb_true_iff, bool_decide_eq_false, Z.leb_le.
  change ORPHAN_PENDING_GRACE with (seconds 300). change SILENT_TIMEOUT with (seconds 900).
  destruct (status j); cbn [is_live]; rewrite ?bool_decide_true, ?bool_decide_false by done;
    naive_solver.
Qed.

(** reaping.  Exactly the live jobs that no driver of the process follows and
    whose row nothing touched for the time their status allows are interrupted,
    and lose their token; every other job, the ledger and the audit are left as
    they are.  Nobody is woken for them: the wake-up the reaper asks for each is
    for jobs that are over, and an interrupted job is not. *)
Theorem reap_exact `{JobWording, JobHost} now active o d n o' d' :
  keyed d → run now (reap_orphan_jobs active) o d = (n, o', d') →
  o' = o ∧ items d' = items d ∧ calls d' = calls d ∧
  n = Z.of_nat (List.length (List.filter (orphaned active now) (jobs d))) ∧
  ∀ id j, find_job d id = Some j → ∃ j', find_job d' id = Some j' ∧
    (unattended active now j →
       same_job j j' ∧ status j' = Interrupted ∧ m_token (extra_data j') = None ∧
       usage j' = usage j ∧ started_at j' = started_at j) ∧
    (¬ unattended active now j → j' = j).
Proof.
  intros Hk. destruct (run_reap active now d Hk) as (d1 & E & Hi & Hc & Hjobs).
  unfold reap_orphan_jobs, must. cbn [run]. rewrite E. rewrite run_wake_all_none.
  - cbn [run]. rewrite length_map. intros [= <- <- <-]. split_and!; try done.
    intros id j Hj. destruct (Hjobs id j Hj) as (j' & Hj' & Hf & Ht). exists j'.
    rewrite <- orphaned_spec. split_and!; [done|exact Ht|].
    intros Hn. apply Hf. by apply not_true_is_false.
  - intros id j' Hin Hj'. apply list_elem_of_fmap in Hin as (j & -> & Hin).
    apply list_elem_of_In, List.filter_In in Hin as [Hin Ho].
    destruct (find_job d (job_id j)) as [j0|] eqn:Hj.
    + assert (j = j0) as <- by by eapply find_job_unique; [| |apply list_elem_of_In|].
      destruct (Hjobs _ _ Hj) as (j1 & Hj1 & _ & Ht). rewrite Hj' in Hj1. injection Hj1 as <-.
      destruct (Ht Ho) as (_ & -> & _). done.
    + exfalso. unfold find_job in Hj. pose proof (List.find_none _ _ Hj _ Hin) as Hn.
      assert (is_job (job_id j) j = true) by by apply is_job_true. congruence.
Qed.

Lemma reap_exact_witness :
  ∃ n o' d', run (seconds 1000) (reap_orphan_jobs []) quiet (sample Running) = (n, o', d') ∧ n = 1 ∧ o' = quiet.
Proof.
  destruct (run (seconds 1000) (reap_orphan_jobs []) quiet (sample Running)) as [[n o'] d'] eqn:E.
  destruct (reap_exact _ _ _ _ _ _ _ (sample_keyed Running) E) as (-> & _ & _ & -> & _).
  eexists _, _, _. split; [reflexivity|]. split; reflexivity.
Defined.

(** ** What the modelling showed *)

(** A start report computed from a reading before the verdict, and committed
    after it, sets a completed job running again, without a token. *)
Theorem stale_start_reopens_finished_job :
  let d1 := (run_work (finish "j1" Completed None) 7 (sample Pending)).2 in
  ∃ d2, flush 8 (writes_of (mark_running "j1") 6 (sample Pending)) d1 = Some d2 ∧
    map status (jobs d1) = [Completed] ∧ map status (jobs d2) = [Running] ∧
    map completed_at (jobs d2) = [Some 7] ∧ ∀ t, verify_token d2 "j1" t = Ok None.
Proof. eexists. split_and!; [reflexivity..|]. intros t. reflexivity. Qed.

(** Two callbacks of a job with one call left both pass the check of the budget
    before either books its call: the second books a call beyond [max_calls]. *)
Definition plain_call : agent_body :=
  {| b_schema := None; b_tools := []; b_max_attempts := 1; b_item_key := None |}.
Definition both_booked : JobDb :=
  let booked d := (run_work (record_call "j1" None true None) 5 (run_work (add_usage "j1" 1 0) 5 d).2).2 in
  booked (booked one_left).

Theorem overlapping_callbacks_exceed_budget :
  calls_used one_left "j1" = 2 ∧
  option_map (λ j, budget_of j "max_calls") (find_job one_left "j1") = Some 3 ∧
  traced "j1" (job_agent "j1" (Some "t"%string) plain_call)
    one_left (Data (JStr "ok")) [AgentCall "j1" []] 1 both_booked ∧
  calls_used both_booked "j1" = 4.
Proof.
  split_and!; [vm_compute; reflexivity..| |vm_compute; reflexivity].
  exists 5, one_left. split; [reflexivity|]. cbv beta.
  replace (verify_token one_left "j1" "t") with (Ok (Some ((sample_job Running) <| usage := {| u_calls := 2; u_tokens := 0; u_seconds := 0 |} |>)) : result unit (option job))
    by (vm_compute; reflexivity).
  exists 5, one_left. split; [reflexivity|]. cbv beta.
  replace (calls_left (budget_left one_left 5 "j1") <=? 0) with false by (vm_compute; reflexivity).
  replace (seconds_left (budget_left one_left 5 "j1") <=? 0) with false by (vm_compute; reflexivity).
  exists (AgentText "ok" false), []. split; [reflexivity|].
  eexists 5, _, 0. split; [|split].
  { eapply rtc_l; [apply (run_work_at_once (add_usage "j1" 1 0) 5); constructor|].
    apply rtc_once. apply (run_work_at_once (record_call "j1" None true None) 5). constructor. }
  { vm_compute. reflexivity. }
  eexists 5, _, 0. split; [reflexivity|]. split; [vm_compute; reflexivity|].
  split_and!; reflexivity.
Qed.

(** A driver that stops a job for its time wakes nobody; the pass that sees any
    other end wakes the conversation. *)
Theorem wall_clock_end_wakes_nobody :
  let pass st := run 5 (drive_pass (λ _, false) (Some "c"%string) "j1" (seconds 2000) (seconds 2000)
                          (drive_init 0)) quiet (sample st) in
  (pass Running).1.1 = inl WallClock ∧ log (pass Running).1.2 = [] ∧
  map status (jobs (pass Running).2) = [Failed] ∧
  log (pass Failed).1.2 = [Enqueue "c" "j1" true].
Proof. cbv zeta. split_and!; vm_compute; reflexivity. Qed.

(** A job whose script has just booked an item is interrupted for silence: the
    ledger callbacks leave the row of the job alone. *)
Theorem ledger_callback_is_no_sign_of_life :
  let d1 := (run (seconds 899) (job_ledger "j1" (Some "t"%string)
               (OpUpdate (Some "b"%string) (mark "done" (Some JNull) None false)))
               quiet (sample Running)).2 in
  map item_status_is (items d1) = [IDone; IDone] ∧
  map status (jobs (run (seconds 901) (reap_orphan_jobs []) quiet d1).2) = [Interrupted].
Proof. cbv zeta. split; vm_compute; reflexivity. Qed.
