(* ===== verification/ModelSteps.v ===== *)
(** * The record of a turn, step by step: [core/llm/model_steps.py]

    A turn is recorded as a list of steps, one per model response and one per
    tool result.  From it the history the model sees is rebuilt: results are put
    where their calls need them, missing ones are marked as unknown.  Blocks,
    steps and rows are JSON objects, as in [ContextIR]. *)

From S2P Require Import Prelude PyDict ContextIR.
From stdpp Require Import pretty.

#[local] Open Scope Z_scope.

(** [tool_media_store.store], [None] when the write fails, and
    [tool_media_store.media_type_of]. *)
Class MediaStore := {
  store_media : list (string * ContextIR.value) → option (list (string * ContextIR.value));
  media_type_of : list (string * ContextIR.value) → text;
}.

Module ModelSteps.
Import ContextIR.

Abbreviation block := vmap (only parsing).

Definition STEP_SCHEMA : text := text_of "harness.steps.v1".
Definition STEP_ASSISTANT : string := "assistant".
Definition STEP_TOOL_RESULT : string := "tool_result".
Definition STATE_INTERRUPTED : text := text_of "interrupted".
Definition _CANCELLED_TURN_MARKER : text :=
  [91; 26412; 36718; 22238; 31572; 34987; 29992; 25143; 20013; 26029; 93].
Definition _INTERRUPTED_RESULT : text :=
  text_of "[tool call was interrupted before it returned a result]".
Definition _MISSING_RESULT : text :=
  text_of "[tool result was not recorded; execution outcome is unknown (possibly interrupted)]".
Definition _LEGACY_TOOL_DIGEST_HEADER : text :=
  [91; 21382; 21490; 24037; 20855; 35843; 29992; 25688; 35201; 32; 8212; 32; 21407; 22987; 27493;
   39588; 39034; 24207; 26410; 34987; 35760; 24405; 65292; 20197; 19979; 25353; 35843; 29992; 21015;
   34920; 27719; 24635; 93].
Definition media_not_persisted (media_type : text) : text :=
  text_of "[" ++ media_type ++ text_of " media could not be saved into the replay record; it is not available in this history. Do not guess what it contained.]".

(** ** Objects *)

Definition truthy (v : value) : bool :=
  match v with
  | VNull => false
  | VBool b => b
  | VInt z => negb (z =? 0)
  | VStr t => negb (bool_decide (t = []))
  | VList l => match l with [] => false | _ => true end
  | VMap d => match d with [] => false | _ => true end
  end.

Fixpoint vpop (d : vmap) (k : string) : vmap :=
  match d with
  | [] => []
  | (k', v) :: d' => if bool_decide (k' = k) then d' else (k', v) :: vpop d' k
  end.

Definition maps_of (l : list value) : list vmap :=
  omap (λ v, match v with VMap b => Some b | _ => None end) l.
Definition blocks_value (bs : list vmap) : value := VList (map VMap bs).

(** [step.get("blocks") or []], the mappings of it. *)
Definition step_blocks (s : vmap) : list vmap :=
  match vget s "blocks" with Some (VList l) => maps_of l | _ => [] end.
Definition kind_is (s : vmap) (k : string) : bool := vis (vget s "kind") k.
Definition type_is (b : vmap) (k : string) : bool := vis (vget b "type") k.
Definition with_blocks (s : vmap) (bs : list vmap) : vmap := vset s "blocks" (blocks_value bs).

Section steps.
Context `{ContextHost}.

(** [str(v)] and [str(v or "")] of an entry. *)
Definition str_of (v : value) : text := match v with VStr t => t | _ => str_of_value v end.
Definition str_or_empty (v : option value) : text :=
  match v with Some v => if truthy v then str_of v else [] | None => [] end.
Definition block_id (b : vmap) : text := str_or_empty (vget b "id").

(** ** Recording *)

Definition _persistable_block (v : value) : option vmap :=
  match v with
  | VMap data =>
      let block_type := str_or_empty (vget data "type") in
      if bool_decide (block_type = []) then None
      else if bool_decide (block_type = text_of "text") || bool_decide (block_type = text_of "thinking")
      then Some (vpop data "id")
      else if bool_decide (block_type = text_of "tool_call")
      then Some (map (λ k, (k, default VNull (vget data k))) ["type"; "id"; "name"; "input"]%string)
      else Some data
  | _ => None
  end.

(** One item of a list of output blocks; [None] is the [ValueError]. *)
Definition persistable_item `{MediaStore} (v : value) : option vmap :=
  match v with
  | VStr t => Some [("type"%string, VStr (text_of "text")); ("text"%string, VStr t)]
  | VMap data =>
      let block_type := str_or_empty (vget data "type") in
      if bool_decide (block_type = text_of "text")
      then Some [("type"%string, VStr (text_of "text"));
                 ("text"%string, VStr (str_or_empty (vget data "text")))]
      else if bool_decide (block_type = text_of "data")
      then match store_media data with
           | Some stored => Some stored
           | None => Some [("type"%string, VStr (text_of "text"));
                           ("text"%string, VStr (media_not_persisted (media_type_of data)))]
           end
      else None
  | _ => None
  end.
Definition _persistable_output `{MediaStore} (output : value) : option value :=
  match output with
  | VStr _ | VNull => Some output
  | VList l => match mapM persistable_item l with
               | Some bs => Some (blocks_value bs)
               | None => None
               end
  | _ => None
  end.

Definition record_assistant_step (blocks : list value) (provider model protocol : text) :
    option vmap :=
  match mapM _persistable_block blocks with
  | Some bs => Some [("schema"%string, VStr STEP_SCHEMA); ("kind"%string, VStr (text_of STEP_ASSISTANT));
                     ("provider"%string, VStr provider); ("model"%string, VStr model);
                     ("protocol"%string, VStr protocol); ("blocks"%string, blocks_value bs)]
  | None => None
  end.

(** [str(data.get("state") or "success")] *)
Definition state_or (v : option value) (default : text) : text :=
  match str_or_empty v with [] => default | t => t end.

Definition result_step (b : vmap) : vmap :=
  [("schema"%string, VStr STEP_SCHEMA); ("kind"%string, VStr (text_of STEP_TOOL_RESULT));
   ("blocks"%string, blocks_value [b])].
Definition result_block (id name : text) (output : value) (state : text) : vmap :=
  [("type"%string, VStr (text_of "tool_result")); ("id"%string, VStr id); ("name"%string, VStr name);
   ("output"%string, output); ("state"%string, VStr state)].

Definition record_tool_result_step `{MediaStore} (v : value) : option vmap :=
  match v with
  | VMap data =>
      if negb (bool_decide (str_or_empty (vget data "type") = text_of "tool_result")) then None
      else match _persistable_output (default VNull (vget data "output")) with
           | Some out => Some (result_step (result_block (str_or_empty (vget data "id"))
                           (str_or_empty (vget data "name")) out
                           (state_or (vget data "state") (text_of "success"))))
           | None => None
           end
  | _ => None
  end.

(** ** [_ordered_result_steps] *)

(** The old record of an interruption is one of an unknown outcome. *)
Definition unknown_outcome (b : vmap) : vmap :=
  if bool_decide (vget b "state" = Some (VStr STATE_INTERRUPTED)) &&
     bool_decide (vget b "output" = Some (VStr _INTERRUPTED_RESULT))
  then vset b "output" (VStr _MISSING_RESULT) else b.

(** The last result recorded for every identifier. *)
Definition recorded_results (steps : list vmap) : pydict text vmap :=
  map (λ kv, (kv.1, unknown_outcome kv.2))
    (foldl (λ d b, if type_is b "tool_result" then dput d (block_id b) b else d) []
       (List.concat (map step_blocks steps))).

Record order_state := { o_out : list vmap; o_pending : pydict text vmap; o_moved : list text }.

Section ordering.
Context (results : pydict text vmap) (state missing_output : text).

Definition placeholder (call_id : text) (call : vmap) : vmap :=
  result_block call_id (str_or_empty (vget call "name")) (VStr missing_output) state.
(** The result a pending call is closed with. *)
Definition closing_result (c : text * vmap) : vmap :=
  match dget results c.1 with Some r => r | None => placeholder c.1 c.2 end.

(** [flush] *)
Definition flush_calls (s : order_state) : order_state :=
  {| o_out := o_out s ++ map (λ c, result_step (closing_result c)) (o_pending s);
     o_pending := [];
     o_moved := omap (λ c, match dget results c.1 with Some _ => Some c.1 | None => None end)
                  (o_pending s) ++ o_moved s |}.

Definition calls_of (bs : list vmap) : list vmap := List.filter (λ b, type_is b "tool_call") bs.
Definition add_calls (pending : pydict text vmap) (bs : list vmap) : pydict text vmap :=
  foldl (λ d b, dput d (block_id b) b) pending (calls_of bs).
Definition answer_calls (pending : pydict text vmap) (bs : list vmap) : pydict text vmap :=
  foldl (λ d b, dpop d (block_id b)) pending bs.

(** One turn of the loop over the steps. *)
Definition order_step (s : order_state) (original : vmap) : order_state :=
  let blocks := step_blocks original in
  if kind_is original STEP_ASSISTANT then
    let s1 := flush_calls s in
    {| o_out := o_out s1 ++ [with_blocks original blocks];
       o_pending := add_calls (o_pending s1) blocks; o_moved := o_moved s1 |}
  else if kind_is original STEP_TOOL_RESULT then
    let blocks' := map (λ b, default b (dget results (block_id b)))
      (List.filter (λ b, negb (bool_decide (block_id b ∈ o_moved s))) blocks) in
    let s1 := {| o_out := o_out s; o_pending := answer_calls (o_pending s) blocks';
                 o_moved := o_moved s |} in
    match blocks' with
    | [] => s1
    | _ => {| o_out := o_out s1 ++ [with_blocks original blocks']; o_pending := o_pending s1;
              o_moved := o_moved s1 |}
    end
  else {| o_out := o_out s ++ [with_blocks original blocks]; o_pending := o_pending s;
          o_moved := o_moved s |}.

Definition order_from (s : order_state) (steps : list vmap) : order_state :=
  flush_calls (foldl order_step s steps).
End ordering.

Definition _ordered_result_steps (steps : list vmap) (state missing_output : text) : list vmap :=
  o_out (order_from (recorded_results steps) state missing_output
           {| o_out := []; o_pending := []; o_moved := [] |} steps).

(** What the caller's list holds afterwards. *)
Definition close_dangling_calls (steps : list vmap) : list vmap :=
  _ordered_result_steps steps STATE_INTERRUPTED _MISSING_RESULT.

(** ** [replace_final_text] *)

Definition text_block (t : text) : vmap :=
  [("type"%string, VStr (text_of "text")); ("text"%string, VStr t)].

(** The blocks before the first call, and the others. *)
Fixpoint split_at_call (bs : list vmap) : list vmap * list vmap :=
  match bs with
  | [] => ([], [])
  | b :: bs' => if type_is b "tool_call" then ([], bs)
                else let '(l, r) := split_at_call bs' in (b :: l, r)
  end.
Definition replace_text (t : text) (s : vmap) : vmap :=
  let kept := List.filter (λ b, negb (type_is b "text")) (step_blocks s) in
  let '(l, r) := split_at_call kept in
  with_blocks s (l ++ (match t with [] => [] | _ => [text_block t] end) ++ r).

(** The last assistant step of the list is the first of [rev steps]. *)
Fixpoint replace_first (t : text) (rsteps : list vmap) : option (list vmap) :=
  match rsteps with
  | [] => None
  | s :: rest => if kind_is s STEP_ASSISTANT then Some (replace_text t s :: rest)
                 else match replace_first t rest with
                      | Some rest' => Some (s :: rest')
                      | None => None
                      end
  end.
Definition text_step (t : text) : vmap :=
  [("schema"%string, VStr STEP_SCHEMA); ("kind"%string, VStr (text_of STEP_ASSISTANT));
   ("provider"%string, VStr []); ("model"%string, VStr []); ("protocol"%string, VStr []);
   ("blocks"%string, blocks_value [text_block t])].
Definition replace_final_text (steps : list vmap) (t : text) : list vmap :=
  match replace_first t (rev steps) with
  | Some rsteps => rev rsteps
  | None => match t with [] => steps | _ => steps ++ [text_step t] end
  end.

(** ** Replaying *)

(** A row of the history: a role and its blocks. *)
Definition mk_row (role : string) (bs : list vmap) : vmap :=
  [("role"%string, VStr (text_of role)); ("content"%string, blocks_value bs)].
Definition role_is (r : vmap) (k : string) : bool := vis (vget r "role") k.
Definition row_blocks (r : vmap) : list vmap :=
  match vget r "content" with Some (VList l) => maps_of l | _ => [] end.

(** [_append_cancel_marker] *)
Definition _append_cancel_marker (bs : list vmap) : list vmap :=
  match last bs with
  | Some b =>
      if type_is b "text" then
        let t := str_or_empty (vget b "text") in
        removelast bs ++ [vset b "text" (VStr (match t with
                                                | [] => _CANCELLED_TURN_MARKER
                                                | _ => t ++ [10; 10] ++ _CANCELLED_TURN_MARKER
                                                end))]
      else bs ++ [text_block _CANCELLED_TURN_MARKER]
  | None => [text_block _CANCELLED_TURN_MARKER]
  end.
(** The turn the user stopped: the marker goes into the last assistant row. *)
Definition mark_cancelled (rows : list vmap) : list vmap :=
  match last rows with
  | Some r =>
      if role_is r "assistant"
      then removelast rows ++ [mk_row "assistant" (_append_cancel_marker (row_blocks r))]
      else rows ++ [mk_row "assistant" (_append_cancel_marker [])]
  | None => [mk_row "assistant" (_append_cancel_marker [])]
  end.

Definition stamp (k : string) (s b : vmap) : vmap :=
  match vget s k with Some v => if truthy v then vset b k (VStr (str_of v)) else b | None => b end.
Definition _thinking_with_origin (b s : vmap) : vmap :=
  stamp "protocol" s (stamp "model" s (stamp "provider" s b)).
Definition assistant_content (s : vmap) : list vmap :=
  map (λ b, if type_is b "thinking" then _thinking_with_origin b s else b) (step_blocks s).

(** One turn of the loop over the ordered steps; [None] is the [ValueError] on an
    unknown kind. *)
Definition replay_step (rows : list vmap) (s : vmap) : option (list vmap) :=
  if kind_is s STEP_ASSISTANT then Some (rows ++ [mk_row "assistant" (assistant_content s)])
  else if kind_is s STEP_TOOL_RESULT then
    match last rows with
    | Some r => if role_is r "tool"
                then Some (removelast rows ++ [mk_row "tool" (row_blocks r ++ step_blocks s)])
                else Some (rows ++ [mk_row "tool" (step_blocks s)])
    | None => Some (rows ++ [mk_row "tool" (step_blocks s)])
    end
  else None.
Fixpoint replay_from (rows : list vmap) (steps : list vmap) : option (list vmap) :=
  match steps with
  | [] => Some rows
  | s :: steps' => match replay_step rows s with
                   | Some rows' => replay_from rows' steps'
                   | None => None
                   end
  end.
Definition replay_rows (steps : list vmap) (cancelled : bool) : option (list vmap) :=
  match replay_from [] (_ordered_result_steps steps STATE_INTERRUPTED _MISSING_RESULT) with
  | Some rows => Some (if cancelled then mark_cancelled rows else rows)
  | None => None
  end.

End steps.
End ModelSteps.
