(* ===== verification/ModelStepsProps.v ===== *)
(** * The record of a turn: lemmas

    A checker of the protocol, which response is answered when, that the closing
    pass establishes; what the pass keeps of the record; the rows a well-paired
    record is replayed to. *)

From S2P Require Import Prelude PyDict ContextIR ContextIRProps ModelSteps.
From stdpp Require Import pretty.

#[local] Open Scope Z_scope.

Import ContextIR ContextIRProps ModelSteps.

(** ** Steps *)

Lemma maps_of_VMap bs : maps_of (map VMap bs) = bs.
Proof. induction bs as [|b bs IH]; [done|]. cbn. by f_equal. Qed.

Lemma step_blocks_with s bs : step_blocks (with_blocks s bs) = bs.
Proof. unfold step_blocks, with_blocks. rewrite vget_vset_eq. apply maps_of_VMap. Qed.

Lemma kind_is_with s bs k : kind_is (with_blocks s bs) k = kind_is s k.
Proof. unfold kind_is, with_blocks. by rewrite vget_vset_ne. Qed.

Lemma with_blocks_twice s bs bs' : with_blocks (with_blocks s bs) bs' = with_blocks s bs'.
Proof. apply vset_vset. Qed.

Lemma vis_unique v s s' : vis v s = true → vis v s' = true → text_of s = text_of s'.
Proof. destruct v as [[]|]; try done. cbn. rewrite !bool_decide_eq_true. congruence. Qed.

Lemma assistant_not_result s : kind_is s STEP_ASSISTANT = true → kind_is s STEP_TOOL_RESULT = false.
Proof.
  intros H1. destruct (kind_is s STEP_TOOL_RESULT) eqn:H2; [|done].
  pose proof (vis_unique _ _ _ H1 H2) as E. discriminate E.
Qed.

Section steps.
Context `{ContextHost}.

Lemma block_id_result id name out st : block_id (result_block id name out st) = id.
Proof. unfold block_id. cbn. destruct id; [done|]. by rewrite bool_decide_false. Qed.

Lemma type_result id name out st : type_is (result_block id name out st) "tool_result" = true.
Proof. reflexivity. Qed.

Lemma unknown_outcome_keeps b k :
  k ≠ "output" → vget (unknown_outcome b) k = vget b k.
Proof. intros Hk. unfold unknown_outcome. destruct (_ && _); [|done]. by rewrite vget_vset_ne. Qed.

Lemma block_id_unknown b : block_id (unknown_outcome b) = block_id b.
Proof. unfold block_id. by rewrite unknown_outcome_keeps. Qed.

Lemma type_unknown b k : type_is (unknown_outcome b) k = type_is b k.
Proof. unfold type_is. by rewrite unknown_outcome_keeps. Qed.

(** ** Recorded results *)

(** Every tool result in the blocks of a record. *)
Definition result_blocks (steps : list vmap) : list vmap :=
  List.filter (λ b, type_is b "tool_result") (List.concat (map step_blocks steps)).

(** [b] is the last of the list with its identifier. *)
Definition last_of_id (l : list vmap) (b : vmap) : Prop :=
  ∃ l1 l2, l = l1 ++ b :: l2 ∧ ∀ x, x ∈ l2 → block_id x ≠ block_id b.

Lemma last_of_id_in l b : last_of_id l b → b ∈ l.
Proof. intros (l1 & l2 & -> & _). apply elem_of_app. right. left. Qed.

Lemma last_of_id_cons l b x : last_of_id l b → last_of_id (x :: l) b.
Proof. intros (l1 & l2 & -> & Hl). by exists (x :: l1), l2. Qed.

Lemma fold_results (bs : list vmap) d k r :
  dget (foldl (λ d b, if type_is b "tool_result" then dput d (block_id b) b else d) d bs) k = Some r →
  let l := List.filter (λ b, type_is b "tool_result") bs in
  (dget d k = Some r ∧ ∀ x, x ∈ l → block_id x ≠ k) ∨ (last_of_id l r ∧ block_id r = k).
Proof.
  revert d. induction bs as [|b bs IH]; intros d; cbn [foldl List.filter].
  { intros Hd. left. split; [done|]. by intros x ?%not_elem_of_nil. }
  intros [[Hd Hl]|[Hin Hk]]%IH; destruct (type_is b "tool_result"); [|by left| |by right].
  - rewrite dget_dput in Hd. case_bool_decide as E.
    + injection Hd as <-. right. split; [|done]. exists [], (List.filter (λ b, type_is b "tool_result") bs).
      split; [done|]. intros x Hx. rewrite E. by apply Hl.
    + left. split; [done|]. intros x [->|Hx]%elem_of_cons; [done|by apply Hl].
  - right. split; [by apply last_of_id_cons|done].
Qed.

Lemma dget_map (f : vmap → vmap) (d : pydict text vmap) k :
  dget (map (λ kv, (kv.1, f kv.2)) d) k = f <$> dget d k.
Proof.
  induction d as [|[k0 v0] d IH]; [done|]. cbn. by case_bool_decide.
Qed.

Lemma recorded_result steps k r :
  dget (recorded_results steps) k = Some r →
  block_id r = k ∧ type_is r "tool_result" = true ∧
  ∃ b, last_of_id (result_blocks steps) b ∧ r = unknown_outcome b.
Proof.
  unfold recorded_results. rewrite dget_map.
  destruct (dget _ k) as [b|] eqn:E; [|done]. intros [= <-].
  apply fold_results in E as [[E _]|[Hin Hk]]; [done|].
  rewrite block_id_unknown, type_unknown. split_and!; [done| |by exists b].
  by apply last_of_id_in, list_elem_of_In, List.filter_In in Hin as [_ ?].
Qed.

(** ** The protocol *)

Definition call_ids (s : vmap) : list text :=
  if kind_is s STEP_ASSISTANT then map block_id (calls_of (step_blocks s)) else [].
Definition answers (bs : list vmap) : list text :=
  map block_id (List.filter (λ b, type_is b "tool_result") bs).
Definition result_ids (s : vmap) : list text :=
  if kind_is s STEP_TOOL_RESULT then answers (step_blocks s) else [].

Definition without (ids l : list text) : list text :=
  List.filter (λ k, negb (bool_decide (k ∈ ids))) l.

(** Which calls are open after some steps, [open] being so before; [None] when a
    response comes while a call is open. *)
Fixpoint scan (open : list text) (l : list vmap) : option (list text) :=
  match l with
  | [] => Some open
  | s :: l' =>
      if kind_is s STEP_ASSISTANT then
        match open with [] => scan (call_ids s) l' | _ => None end
      else scan (without (result_ids s) open) l'
  end.

Lemma scan_app open l1 l2 :
  scan open (l1 ++ l2) = match scan open l1 with Some o => scan o l2 | None => None end.
Proof.
  revert open. induction l1 as [|s l1 IH]; intros open; [done|]. cbn [app scan].
  destruct (kind_is s STEP_ASSISTANT); [|apply IH]. destruct open; [apply IH|done].
Qed.

Lemma elem_of_without ids l k : k ∈ without ids l ↔ k ∈ l ∧ k ∉ ids.
Proof.
  unfold without. rewrite list_elem_of_In, List.filter_In, <- list_elem_of_In, negb_true_iff,
    bool_decide_eq_false. done.
Qed.

(** The steps before the next response. *)
Fixpoint before_next (l : list vmap) : list vmap :=
  match l with
  | [] => []
  | s :: l' => if kind_is s STEP_ASSISTANT then [] else s :: before_next l'
  end.

Lemma scan_answered open l k :
  scan open l = Some [] → k ∈ open → ∃ s, s ∈ before_next l ∧ k ∈ result_ids s.
Proof.
  revert open. induction l as [|s l IH]; intros open; cbn [scan before_next].
  { intros [= ->] Hk. by apply not_elem_of_nil in Hk. }
  destruct (kind_is s STEP_ASSISTANT) eqn:Ek.
  { destruct open; [|done]. intros _ Hk. by apply not_elem_of_nil in Hk. }
  intros Hs Hk. destruct (decide (k ∈ result_ids s)) as [Hin|Hn]; [exists s; split; [left|done]|].
  destruct (IH _ Hs) as (s' & Hs' & Hk'); [by apply elem_of_without|].
  exists s'. split; [by right|done].
Qed.

(** A well-paired record: every call of a response is answered before the next. *)
Lemma scan_paired l pre s post k :
  scan [] l = Some [] → l = pre ++ s :: post → k ∈ call_ids s →
  ∃ s', s' ∈ before_next post ∧ k ∈ result_ids s'.
Proof.
  intros Hs -> Hk. rewrite scan_app in Hs. destruct (scan [] pre) as [o|]; [|done].
  cbn [scan] in Hs. unfold call_ids in Hk. destruct (kind_is s STEP_ASSISTANT) eqn:Ek.
  - destruct o; [|done]. eapply scan_answered; [exact Hs|]. unfold call_ids. by rewrite Ek.
  - by apply not_elem_of_nil in Hk.
Qed.

(** ** The closing pass *)

(** Steps as the recorder writes them. *)
Definition result_step_ok (s : vmap) : Prop :=
  kind_is s STEP_TOOL_RESULT = true →
  Forall (λ b, type_is b "tool_result" = true) (step_blocks s).

Lemma answers_all bs :
  Forall (λ b, type_is b "tool_result" = true) bs → answers bs = map block_id bs.
Proof. intros Hall. unfold answers. induction Hall as [|b bs Hb _ IH]; [done|]. cbn. rewrite Hb. cbn. by f_equal. Qed.

Lemma step_blocks_result b : step_blocks (result_step b) = [b].
Proof. reflexivity. Qed.

Lemma kind_result b k : kind_is (result_step b) k = bool_decide (text_of STEP_TOOL_RESULT = text_of k).
Proof. reflexivity. Qed.

Section pass.
Context (results : pydict text vmap) (state missing : text).
Hypothesis Hres : ∀ k r, dget results k = Some r → block_id r = k ∧ type_is r "tool_result" = true.

Lemma closing_id c : block_id (closing_result results state missing c) = c.1.
Proof.
  unfold closing_result. destruct (dget results c.1) as [r|] eqn:E; [by apply Hres in E as [? _]|].
  apply block_id_result.
Qed.
Lemma closing_type c : type_is (closing_result results state missing c) "tool_result" = true.
Proof.
  unfold closing_result. destruct (dget results c.1) as [r|] eqn:E; [by apply Hres in E as [_ ?]|].
  apply type_result.
Qed.

Lemma result_ids_closing c : result_ids (result_step (closing_result results state missing c)) = [c.1].
Proof.
  unfold result_ids. rewrite kind_result, bool_decide_true, step_blocks_result by done.
  unfold answers. cbn [List.filter]. rewrite closing_type. cbn. by rewrite closing_id.
Qed.

Lemma scan_closing open pending :
  (∀ k, k ∈ open → k ∈ pending.*1) →
  scan open (map (λ c, result_step (closing_result results state missing c)) pending) = Some [].
Proof.
  revert open. induction pending as [|c pending IH]; intros open Ho; cbn [map scan].
  - destruct open as [|k open]; [done|]. assert (Hk : k ∈ k :: open) by left.
    by apply Ho, not_elem_of_nil in Hk.
  - rewrite kind_result, bool_decide_false by done. rewrite result_ids_closing. apply IH.
    intros k [Hk Hn]%elem_of_without. apply Ho in Hk. cbn in Hk.
    apply elem_of_cons in Hk as [->|Hk]; [|done]. exfalso. apply Hn. by left.
Qed.

Definition covered (s : order_state) : Prop :=
  ∃ open, scan [] (o_out s) = Some open ∧ ∀ k, k ∈ open → k ∈ (o_pending s).*1.

Lemma flush_scanned s :
  covered s → scan [] (o_out (flush_calls results state missing s)) = Some [].
Proof.
  intros (open & Hs & Ho). unfold flush_calls. cbn [o_out]. rewrite scan_app, Hs. by apply scan_closing.
Qed.

Lemma add_calls_keys pending bs k :
  k ∈ (add_calls pending bs).*1 ↔ k ∈ pending.*1 ∨ k ∈ map block_id (calls_of bs).
Proof.
  unfold add_calls. generalize (calls_of bs) as l. intros l. revert pending.
  induction l as [|b l IH]; intros pending; cbn [foldl map].
  - split; [by left|intros [?|?%not_elem_of_nil]; done].
  - rewrite IH, dput_keys, elem_of_cons. tauto.
Qed.

Lemma dpop_keys (d : pydict text vmap) k x : x ≠ k → x ∈ d.*1 → x ∈ (dpop d k).*1.
Proof.
  intros Hn. induction d as [|[k0 v0] d IH]; [done|]. cbn. intros [->|Hx]%elem_of_cons.
  - rewrite bool_decide_false by done. cbn. left.
  - destruct (bool_decide _); cbn; [done|]. right. by apply IH.
Qed.

Lemma answer_calls_keys pending bs k :
  k ∈ pending.*1 → k ∉ map block_id bs → k ∈ (answer_calls pending bs).*1.
Proof.
  unfold answer_calls. revert pending. induction bs as [|b bs IH]; intros pending Hk Hn; [done|].
  cbn [foldl]. cbn in Hn. apply not_elem_of_cons in Hn as [Hne Hn]. apply IH; [|done].
  by apply dpop_keys.
Qed.

Lemma order_step_covered s original :
  result_step_ok original → covered s → covered (order_step results state missing s original).
Proof.
  intros Hok Hc. pose proof (flush_scanned s Hc) as Hf. destruct Hc as (open & Hs & Ho).
  unfold order_step. destruct (kind_is original STEP_ASSISTANT) eqn:Ea.
  - eexists. cbn [o_out o_pending]. rewrite scan_app, Hf. cbn [scan].
    rewrite kind_is_with, Ea. split; [done|]. unfold call_ids. rewrite kind_is_with, Ea, step_blocks_with.
    intros k Hk. apply add_calls_keys. by right.
  - destruct (kind_is original STEP_TOOL_RESULT) eqn:Er.
    + specialize (Hok Er).
      set (bs := map _ (List.filter _ (step_blocks original))).
      assert (Hbs : Forall (λ b, type_is b "tool_result" = true) bs).
      { subst bs. apply Forall_forall. intros b (b0 & -> & Hin)%list_elem_of_fmap.
        apply list_elem_of_In, List.filter_In in Hin as [Hin _]. rewrite Forall_forall in Hok.
        destruct (dget results (block_id b0)) as [r|] eqn:E; [by apply Hres in E as [_ ?]|].
        by apply Hok, list_elem_of_In. }
      destruct bs as [|b bs'] eqn:Eb; [by exists open|]. rewrite <- Eb in *.
      eexists. cbn [o_out o_pending]. rewrite scan_app, Hs. cbn [scan].
      rewrite kind_is_with, Ea. split; [done|].
      unfold result_ids. rewrite kind_is_with, Er, step_blocks_with, answers_all by done.
      intros k [Hk Hn]%elem_of_without. apply answer_calls_keys; auto.
    + eexists. cbn [o_out o_pending]. rewrite scan_app, Hs. cbn [scan]. rewrite kind_is_with, Ea.
      split; [done|]. intros k [Hk _]%elem_of_without. auto.
Qed.

Lemma fold_covered steps s :
  Forall result_step_ok steps → covered s → covered (foldl (order_step results state missing) s steps).
Proof.
  intros Hok. revert s. induction Hok as [|x l Hx _ IH]; intros s Hc; [done|].
  cbn [foldl]. by apply IH, order_step_covered.
Qed.
End pass.

Lemma results_ok steps k r :
  dget (recorded_results steps) k = Some r → block_id r = k ∧ type_is r "tool_result" = true.
Proof. intros (? & ? & _)%recorded_result. done. Qed.

Lemma ordered_paired steps state missing :
  Forall result_step_ok steps → scan [] (_ordered_result_steps steps state missing) = Some [].
Proof.
  intros Hok. unfold _ordered_result_steps, order_from.
  apply flush_scanned; [apply results_ok|]. apply fold_covered; [apply results_ok|done|].
  exists []. split; [done|]. by intros k ?%not_elem_of_nil.
Qed.

(** ** Rows *)

Lemma role_mk r bs k : role_is (mk_row r bs) k = bool_decide (text_of r = text_of k).
Proof. reflexivity. Qed.
Lemma row_blocks_mk r bs : row_blocks (mk_row r bs) = bs.
Proof. apply maps_of_VMap. Qed.

Definition row_calls (r : vmap) : list text :=
  if role_is r "assistant" then map block_id (calls_of (row_blocks r)) else [].
Definition row_results (r : vmap) : list text :=
  if role_is r "tool" then answers (row_blocks r) else [].

Lemma row_calls_tool bs : row_calls (mk_row "tool" bs) = [].
Proof. reflexivity. Qed.
Lemma row_results_tool bs : row_results (mk_row "tool" bs) = answers bs.
Proof. unfold row_results. rewrite role_mk, row_blocks_mk. reflexivity. Qed.
Lemma row_calls_assistant bs : row_calls (mk_row "assistant" bs) = map block_id (calls_of bs).
Proof. unfold row_calls. rewrite role_mk, row_blocks_mk. reflexivity. Qed.

(** Every call is answered in the very next row. *)
Fixpoint closed_rows (rows : list vmap) : Prop :=
  match rows with
  | [] => True
  | r :: rest =>
      (∀ k, k ∈ row_calls r → ∃ r' rest', rest = r' :: rest' ∧ k ∈ row_results r') ∧
      closed_rows rest
  end.

Lemma closed_app rows rows' : closed_rows rows → closed_rows rows' → closed_rows (rows ++ rows').
Proof.
  induction rows as [|r rows IH]; intros Hc Hc'; [done|]. destruct Hc as [Hr Hc].
  split; [|by apply IH]. intros k Hk. destruct (Hr k Hk) as (r' & rest' & -> & Hin).
  by eexists _, _.
Qed.

Lemma closed_tool bs : closed_rows [mk_row "tool" bs].
Proof. split; [|done]. rewrite row_calls_tool. by intros k ?%not_elem_of_nil. Qed.

Lemma answers_app bs bs' : answers (bs ++ bs') = answers bs ++ answers bs'.
Proof. unfold answers. by rewrite List.filter_app, map_app. Qed.

(** A last row of results may grow. *)
Lemma closed_extend rows r bs :
  role_is r "tool" = true → closed_rows (rows ++ [r]) →
  closed_rows (rows ++ [mk_row "tool" (row_blocks r ++ bs)]).
Proof.
  intros Hr. induction rows as [|r0 rows IH]; cbn [app].
  - intros _. apply closed_tool.
  - intros [H0 Hc]. split; [|by apply IH]. intros k Hk.
    destruct (H0 k Hk) as (r' & rest' & E & Hin). destruct rows as [|r1 rows]; cbn [app] in *.
    + injection E as <- <-. eexists _, _. split; [reflexivity|].
      rewrite row_results_tool, answers_app. apply elem_of_app. left.
      unfold row_results in Hin. by rewrite Hr in Hin.
    + injection E as <- <-. by eexists _, _.
Qed.

(** Rows built from a prefix of a record in which the calls [open] are open. *)
Definition rows_open (open : list text) (rows : list vmap) : Prop :=
  closed_rows rows ∧ open = [] ∨
  ∃ rows0 a, closed_rows rows0 ∧ role_is a "assistant" = true ∧
    (rows = rows0 ++ [a] ∧ (∀ k, k ∈ row_calls a → k ∈ open) ∨
     ∃ t, role_is t "tool" = true ∧ rows = rows0 ++ [a; t] ∧
          ∀ k, k ∈ row_calls a → k ∈ open ∨ k ∈ row_results t).

Lemma row_calls_not_assistant r : role_is r "tool" = true → row_calls r = [].
Proof.
  intros Ht. unfold row_calls. destruct (role_is r "assistant") eqn:Ea; [|done].
  pose proof (vis_unique _ _ _ Ht Ea) as E. discriminate E.
Qed.

Lemma rows_open_closed rows : rows_open [] rows → closed_rows rows.
Proof.
  intros [[Hc _]|(rows0 & a & Hc & Ha & [[-> Hk]|(t & Ht & -> & Hk)])]; [done|..].
  - apply closed_app; [done|]. split; [|done]. by intros k ?%Hk%not_elem_of_nil.
  - apply closed_app; [done|]. split; [|split; [|done]].
    + intros k [Hn%not_elem_of_nil|Hin]%Hk; [done|]. by eexists _, _.
    + rewrite row_calls_not_assistant by done. by intros k ?%not_elem_of_nil.
Qed.

Lemma calls_of_thinking s bs :
  map block_id (calls_of (map (λ b, if type_is b "thinking" then _thinking_with_origin b s else b) bs))
  = map block_id (calls_of bs).
Proof.
  assert (Hst : ∀ k b k', k ≠ k' → vget (stamp k s b) k' = vget b k').
  { intros k b k' Hn. unfold stamp. repeat case_match; try done. by rewrite vget_vset_ne. }
  assert (Hty : ∀ b k, type_is (_thinking_with_origin b s) k = type_is b k).
  { intros b k. unfold type_is, _thinking_with_origin. by rewrite !Hst. }
  induction bs as [|b bs IH]; [done|]. cbn [map]. unfold calls_of in *. cbn [List.filter].
  destruct (type_is b "thinking") eqn:Et.
  - rewrite Hty. destruct (type_is b "tool_call") eqn:Ec; [|done].
    pose proof (vis_unique _ _ _ Et Ec) as E. discriminate E.
  - destruct (type_is b "tool_call"); cbn [map]; [by f_equal|done].
Qed.

Lemma last_snoc_rows (rows : list vmap) r : last (rows ++ [r]) = Some r.
Proof. apply last_snoc. Qed.
Lemma removelast_snoc (rows : list vmap) r : removelast (rows ++ [r]) = rows.
Proof. apply List.removelast_last. Qed.

Lemma replay_step_open open rows s rows' open' :
  rows_open open rows → scan open [s] = Some open' → replay_step rows s = Some rows' →
  rows_open open' rows'.
Proof.
  intros Hr Hs. unfold replay_step. cbn [scan] in Hs.
  destruct (kind_is s STEP_ASSISTANT) eqn:Ea.
  { destruct open; [|done]. injection Hs as <-. intros [= <-]. right.
    exists rows, (mk_row "assistant" (assistant_content s)). split; [by apply rows_open_closed|].
    split; [done|]. left. split; [done|]. rewrite row_calls_assistant.
    unfold assistant_content. rewrite calls_of_thinking. unfold call_ids. by rewrite Ea. }
  destruct (kind_is s STEP_TOOL_RESULT) eqn:Er; [|done].
  injection Hs as <-. unfold result_ids. rewrite Er.
  destruct Hr as [[Hc ->]|(rows0 & a & Hc & Ha & [[-> Hk]|(t & Ht & -> & Hk)])].
  - intros Hrows. left. split; [|done]. destruct (last rows) as [r|] eqn:El.
    + destruct (role_is r "tool") eqn:Et; injection Hrows as <-.
      * apply last_Some in El as [rows1 ->]. rewrite removelast_snoc. by apply closed_extend.
      * apply closed_app; [done|apply closed_tool].
    + injection Hrows as <-. apply closed_app; [done|apply closed_tool].
  - rewrite last_snoc. assert (Hnt : role_is a "tool" = false).
    { destruct (role_is a "tool") eqn:Et; [|done]. pose proof (vis_unique _ _ _ Ha Et) as E. discriminate E. }
    rewrite Hnt. intros [= <-]. right. exists rows0, a. split_and!; [done..|]. right.
    exists (mk_row "tool" (step_blocks s)). split; [done|]. rewrite <- app_assoc. split; [done|].
    rewrite row_results_tool. intros k Hin.
    destruct (decide (k ∈ answers (step_blocks s))); [by right|left].
    apply elem_of_without. auto.
  - change (rows0 ++ [a; t]) with (rows0 ++ ([a] ++ [t])). rewrite app_assoc, last_snoc, Ht, removelast_snoc.
    intros [= <-]. right. exists rows0, a. split_and!; [done..|]. right.
    exists (mk_row "tool" (row_blocks t ++ step_blocks s)). split; [done|].
    rewrite <- app_assoc. split; [done|]. rewrite row_results_tool, answers_app.
    intros k Hin. rewrite elem_of_app, elem_of_without. destruct (Hk k Hin) as [Ho|Ht'].
    + destruct (decide (k ∈ answers (step_blocks s))); auto.
    + right. left. unfold row_results in Ht'. by rewrite Ht in Ht'.
Qed.

Lemma replay_from_open steps open rows rows' open' :
  rows_open open rows → scan open steps = Some open' → replay_from rows steps = Some rows' →
  rows_open open' rows'.
Proof.
  revert open rows. induction steps as [|s steps IH]; intros open rows Hr Hs.
  { injection Hs as <-. by intros [= <-]. }
  change (s :: steps) with ([s] ++ steps) in Hs. rewrite scan_app in Hs.
  destruct (scan open [s]) as [o1|] eqn:E1; [|done]. cbn [replay_from].
  destruct (replay_step rows s) as [rows1|] eqn:E2; [|done].
  intros Hf. eapply IH; [|exact Hs|exact Hf]. by eapply replay_step_open.
Qed.

Lemma calls_of_app bs bs' : calls_of (bs ++ bs') = calls_of bs ++ calls_of bs'.
Proof. apply List.filter_app. Qed.

Lemma calls_of_cancel bs :
  ∀ b, b ∈ calls_of (_append_cancel_marker bs) → b ∈ calls_of bs.
Proof.
  intros b. unfold _append_cancel_marker. destruct (last bs) as [b0|] eqn:El; [|by intros ?%not_elem_of_nil].
  apply last_Some in El as [bs0 ->]. destruct (type_is b0 "text") eqn:Et.
  - rewrite removelast_snoc, !calls_of_app. rewrite !elem_of_app. intros [?|Hin]; [by left|].
    exfalso. revert Hin. unfold calls_of. cbn [List.filter].
    assert (Hty : type_is (vset b0 "text" (VStr (match str_or_empty (vget b0 "text") with
                    | [] => _CANCELLED_TURN_MARKER
                    | _ => str_or_empty (vget b0 "text") ++ [10; 10] ++ _CANCELLED_TURN_MARKER end)))
                    "tool_call" = false).
    { unfold type_is. rewrite vget_vset_ne by done.
      destruct (vis (vget b0 "type") "tool_call") eqn:Ec; [|done].
      pose proof (vis_unique _ _ _ Et Ec) as E. discriminate E. }
    rewrite Hty. apply not_elem_of_nil.
  - rewrite calls_of_app, elem_of_app. intros [?|Hin]; [done|]. by apply not_elem_of_nil in Hin.
Qed.

Lemma closed_cancelled rows : closed_rows rows → closed_rows (mark_cancelled rows).
Proof.
  intros Hc. unfold mark_cancelled.
  assert (Hnew : ∀ bs, (∀ k, k ∉ map block_id (calls_of bs)) → closed_rows [mk_row "assistant" bs]).
  { intros bs Hn. split; [|done]. rewrite row_calls_assistant. by intros k ?%Hn. }
  destruct (last rows) as [r|] eqn:El; [|apply Hnew; by intros k ?%not_elem_of_nil].
  destruct (role_is r "assistant") eqn:Ea.
  - apply last_Some in El as [rows0 ->]. rewrite removelast_snoc.
    assert (Hsplit : closed_rows rows0 ∧ ∀ k, k ∉ row_calls r).
    { clear -Hc Ea. induction rows0 as [|r0 rows0 IH]; cbn [app] in Hc.
      - destruct Hc as [Hr _]. split; [done|]. intros k (? & ? & E & _)%Hr. discriminate E.
      - destruct Hc as [H0 Hc]. destruct (IH Hc) as [Hc0 Hr]. split; [|done].
        split; [|done]. intros k Hk. destruct (H0 k Hk) as (r' & rest' & E & Hin).
        destruct rows0 as [|r1 rows0]; cbn [app] in E; injection E as <- <-; [|by eexists _, _].
        exfalso. unfold row_results in Hin. destruct (role_is r "tool") eqn:Et.
        + pose proof (vis_unique _ _ _ Ea Et) as E. discriminate E.
        + by apply not_elem_of_nil in Hin. }
    destruct Hsplit as [Hc0 Hr]. apply closed_app; [done|]. apply Hnew.
    intros k (b & -> & Hin)%list_elem_of_fmap. apply calls_of_cancel in Hin.
    apply (Hr (block_id b)). unfold row_calls. rewrite Ea. by apply list_elem_of_fmap_2.
  - apply closed_app; [done|]. apply Hnew. by intros k ?%not_elem_of_nil.
Qed.

Lemma closed_nth rows i r k :
  closed_rows rows → rows !! i = Some r → k ∈ row_calls r →
  ∃ r', rows !! S i = Some r' ∧ k ∈ row_results r'.
Proof.
  revert i. induction rows as [|r0 rows IH]; intros i Hc Hi Hk; [done|]. destruct Hc as [H0 Hc].
  destruct i as [|i]; cbn in Hi.
  - injection Hi as ->. destruct (H0 k Hk) as (r' & rest' & -> & Hin). by exists r'.
  - by apply (IH i).
Qed.

Lemma replay_closed steps cancelled rows :
  Forall result_step_ok steps → replay_rows steps cancelled = Some rows → closed_rows rows.
Proof.
  intros Hok. unfold replay_rows. destruct (replay_from _ _) as [rows0|] eqn:E; [|done].
  intros [= <-].
  assert (Hc : closed_rows rows0).
  { eapply rows_open_closed, replay_from_open; [|by apply ordered_paired|exact E]. by left. }
  destruct cancelled; [by apply closed_cancelled|done].
Qed.

End steps.
