(* ===== verification/ModelStepsThms.v ===== *)
(** * The record of a turn: what closing it gives

    Closing a record keeps what was recorded, adds only answers marked as
    unknown, and does nothing to a record that is closed. *)

From S2P Require Import Prelude PyDict ContextIR ContextIRProps ModelSteps ModelStepsProps.
From stdpp Require Import pretty.

#[local] Open Scope Z_scope.

Import ContextIR ContextIRProps ModelSteps.

Section steps.
Context `{ContextHost}.

(** ** What the pass keeps *)

Definition results_in (l : list vmap) : list vmap :=
  List.concat (map (λ s, if kind_is s STEP_TOOL_RESULT then step_blocks s else []) l).
Definition all_calls (l : list vmap) : list vmap :=
  List.concat (map (λ s, if kind_is s STEP_ASSISTANT then calls_of (step_blocks s) else []) l).
Definition responses (l : list vmap) : list vmap := List.filter (λ s, kind_is s STEP_ASSISTANT) l.
Definition plain_step (s : vmap) : vmap := with_blocks s (step_blocks s).

Lemma results_in_app l l' : results_in (l ++ l') = results_in l ++ results_in l'.
Proof. unfold results_in. by rewrite map_app, List.concat_app. Qed.
Lemma all_calls_app l l' : all_calls (l ++ l') = all_calls l ++ all_calls l'.
Proof. unfold all_calls. by rewrite map_app, List.concat_app. Qed.
Lemma responses_app l l' : responses (l ++ l') = responses l ++ responses l'.
Proof. apply List.filter_app. Qed.

Lemma results_in_one s :
  results_in [s] = if kind_is s STEP_TOOL_RESULT then step_blocks s else [].
Proof. unfold results_in. cbn. apply app_nil_r. Qed.
Lemma all_calls_one s :
  all_calls [s] = if kind_is s STEP_ASSISTANT then calls_of (step_blocks s) else [].
Proof. unfold all_calls. cbn. apply app_nil_r. Qed.

Lemma elem_of_results_in l b :
  b ∈ results_in l ↔ ∃ s, s ∈ l ∧ kind_is s STEP_TOOL_RESULT = true ∧ b ∈ step_blocks s.
Proof.
  induction l as [|s l IH].
  { split; [by intros ?%not_elem_of_nil|by intros (s & ?%not_elem_of_nil & _)]. }
  change (s :: l) with ([s] ++ l). rewrite results_in_app, elem_of_app, IH, results_in_one.
  setoid_rewrite elem_of_app. setoid_rewrite list_elem_of_singleton. split.
  - intros [Hb|(s' & ? & ? & ?)]; [|exists s'; auto].
    destruct (kind_is s STEP_TOOL_RESULT) eqn:E; [exists s; auto|by apply not_elem_of_nil in Hb].
  - intros (s' & [->|Hin] & Hk & Hb); [left; by rewrite Hk|right; by exists s'].
Qed.

Section pass.
Context (results : pydict text vmap) (state missing : text).
Hypothesis Hres : ∀ k r, dget results k = Some r → block_id r = k ∧ type_is r "tool_result" = true.

(** An answer is the recorded one, or that of a call none is recorded for. *)
Definition genuine (calls : list vmap) (b : vmap) : Prop :=
  dget results (block_id b) = Some b ∨
  dget results (block_id b) = None ∧
  ∃ c, c ∈ calls ∧ block_id c = block_id b ∧ b = placeholder state missing (block_id c) c.

Record kept (P : list vmap) (s : order_state) : Prop := {
  k_responses : responses (o_out s) = map plain_step (responses P);
  k_pending : ∀ c, c ∈ o_pending s → block_id c.2 = c.1 ∧ c.2 ∈ all_calls P;
  k_genuine : ∀ b, b ∈ results_in (o_out s) → genuine (all_calls P) b;
  k_moved : ∀ k, k ∈ o_moved s → ∃ r, dget results k = Some r ∧ r ∈ results_in (o_out s);
  k_recorded : ∀ b, b ∈ results_in P → ∃ r, dget results (block_id b) = Some r ∧
                                          r ∈ results_in (o_out s);
  k_plain : ∀ x, x ∈ o_out s → plain_step x = x ∧
              (kind_is x STEP_TOOL_RESULT = true → step_blocks x ≠ []);
  k_others : ∀ x, x ∈ o_out s → kind_is x STEP_TOOL_RESULT = true ∨
               ∃ y, y ∈ P ∧ kind_is y STEP_TOOL_RESULT = false ∧ x = plain_step y;
}.

(** What the output already had stays the output of a longer record. *)
Lemma others_mono (P : list vmap) x (out : list vmap) :
  (∀ y, y ∈ out → kind_is y STEP_TOOL_RESULT = true ∨
     ∃ z, z ∈ P ∧ kind_is z STEP_TOOL_RESULT = false ∧ y = plain_step z) →
  ∀ y, y ∈ out → kind_is y STEP_TOOL_RESULT = true ∨
     ∃ z, z ∈ P ++ [x] ∧ kind_is z STEP_TOOL_RESULT = false ∧ y = plain_step z.
Proof.
  intros Hs y [?|(z & Hz & ? & ?)]%Hs; [by left|right]. exists z.
  split_and!; [apply elem_of_app; by left|done..].
Qed.

Lemma genuine_mono calls calls' b : (∀ c, c ∈ calls → c ∈ calls') → genuine calls b → genuine calls' b.
Proof. intros Hs [?|(Hn & c & Hc & E1 & E2)]; [by left|right]. split; [done|]. exists c. auto. Qed.

Lemma results_of_closing pending :
  results_in (map (λ c, result_step (closing_result results state missing c)) pending) =
  map (closing_result results state missing) pending.
Proof.
  induction pending as [|c l IH]; [done|]. cbn [map].
  change (result_step ?x :: ?y) with ([result_step x] ++ y).
  rewrite results_in_app, IH, results_in_one, kind_result, bool_decide_true by done. done.
Qed.

Lemma responses_of_closing pending :
  responses (map (λ c, result_step (closing_result results state missing c)) pending) = [].
Proof. induction pending as [|c l IH]; [done|]. exact IH. Qed.

Lemma plain_with s bs : plain_step (with_blocks s bs) = with_blocks s bs.
Proof. unfold plain_step. by rewrite step_blocks_with, with_blocks_twice. Qed.

Lemma flush_kept P s : kept P s → kept P (flush_calls results state missing s).
Proof.
  intros [H1 H2 H3 H4 H5 H6 H7]. unfold flush_calls. split; cbn [o_out o_pending o_moved].
  - by rewrite responses_app, responses_of_closing, app_nil_r.
  - by intros c ?%not_elem_of_nil.
  - intros b. rewrite results_in_app, results_of_closing, elem_of_app. intros [Hb|Hb]; [auto|].
    apply list_elem_of_fmap in Hb as (c & -> & Hc). destruct (H2 c Hc) as [Hid Hin].
    unfold genuine. rewrite closing_id by done. unfold closing_result.
    destruct (dget results c.1) as [r|] eqn:E; [by left|right]. split; [done|].
    exists c.2. by rewrite Hid.
  - intros k. rewrite results_in_app, results_of_closing, elem_of_app. intros [Hk|Hk].
    + apply list_elem_of_omap in Hk as (c & Hc & E).
      destruct (dget results c.1) as [r|] eqn:Er; [|done]. injection E as <-.
      exists r. split; [done|]. apply elem_of_app. right.
      replace r with (closing_result results state missing c) by (unfold closing_result; by rewrite Er).
      by apply list_elem_of_fmap_2.
    + destruct (H4 k Hk) as (r & Hr & Hin). exists r. split; [done|]. apply elem_of_app. by left.
  - intros b Hb. destruct (H5 b Hb) as (r & Hr & Hin). exists r. split; [done|].
    rewrite results_in_app. apply elem_of_app. by left.
  - intros x [Hx|Hx]%elem_of_app; [auto|]. apply list_elem_of_fmap in Hx as (c & -> & _). by split.
  - intros x [Hx|Hx]%elem_of_app; [auto|]. apply list_elem_of_fmap in Hx as (c & -> & _). by left.
Qed.

Lemma add_calls_elem pending bs c :
  c ∈ add_calls pending bs → c ∈ pending ∨ (block_id c.2 = c.1 ∧ c.2 ∈ calls_of bs).
Proof.
  unfold add_calls. generalize (calls_of bs) as l. intros l. revert pending.
  induction l as [|b l IH]; intros pending; cbn [foldl]; [by left|].
  intros [Hin|[Hid Hin]]%IH; [|right; split; [done|by right]].
  assert (Hd : c ∈ pending ∨ c = (block_id b, b)).
  { clear -Hin. induction pending as [|[k0 v0] d IHd]; cbn in Hin.
    - apply list_elem_of_singleton in Hin. by right.
    - case_bool_decide as E.
      + apply elem_of_cons in Hin as [->|Hin]; [right; by rewrite E|left; by right].
      + apply elem_of_cons in Hin as [->|Hin]; [left; left|].
        destruct (IHd Hin); [left; by right|by right]. }
  destruct Hd as [?| ->]; [by left|]. right. split; [done|left].
Qed.

Lemma answer_calls_elem pending bs c : c ∈ answer_calls pending bs → c ∈ pending.
Proof.
  unfold answer_calls. revert pending. induction bs as [|b bs IH]; intros pending; [done|].
  cbn [foldl]. intros Hc%IH. by eapply dpop_sub.
Qed.

Lemma order_step_kept P s x :
  (kind_is x STEP_TOOL_RESULT = true → ∀ b, b ∈ step_blocks x → is_Some (dget results (block_id b))) →
  kept P s → kept (P ++ [x]) (order_step results state missing s x).
Proof.
  intros Hx Hs. unfold order_step. destruct (kind_is x STEP_ASSISTANT) eqn:Ea.
  { pose proof (assistant_not_result _ Ea) as Er.
    destruct (flush_kept _ _ Hs) as [H1 H2 H3 H4 H5 H6 H7].
    split; cbn [o_out o_pending o_moved].
    - rewrite !responses_app, H1, map_app. unfold responses at 2 4. cbn [List.filter].
      by rewrite kind_is_with, Ea.
    - intros c Hc. rewrite all_calls_app, all_calls_one, Ea.
      apply add_calls_elem in Hc as [Hc|[Hid Hin]].
      + cbn in Hc. by apply not_elem_of_nil in Hc.
      + split; [done|]. apply elem_of_app. by right.
    - intros b. rewrite results_in_app, results_in_one, kind_is_with, Er, app_nil_r. intros Hb.
      eapply genuine_mono; [|by apply H3]. intros c Hc. rewrite all_calls_app. apply elem_of_app. by left.
    - intros k Hk. destruct (H4 k Hk) as (r & Hr & Hin). exists r. split; [done|].
      rewrite results_in_app. apply elem_of_app. by left.
    - intros b. rewrite results_in_app, results_in_one, Er, app_nil_r. intros Hb.
      destruct (H5 b Hb) as (r & Hr & Hin). exists r. split; [done|].
      rewrite results_in_app. apply elem_of_app. by left.
    - intros y [Hy| ->%list_elem_of_singleton]%elem_of_app; [auto|]. split; [apply plain_with|].
      rewrite kind_is_with, Er. done.
    - intros y [Hy| ->%list_elem_of_singleton]%elem_of_app; [by eapply others_mono|right].
      exists x. split_and!; [apply elem_of_app; right; left|done..]. }
  destruct Hs as [H1 H2 H3 H4 H5 H6 H7]. destruct (kind_is x STEP_TOOL_RESULT) eqn:Er.
  - specialize (Hx eq_refl).
    set (bs := map _ (List.filter _ (step_blocks x))).
    assert (Hbs : ∀ b, b ∈ bs → dget results (block_id b) = Some b).
    { intros b (b0 & -> & Hin)%list_elem_of_fmap.
      apply list_elem_of_In, List.filter_In in Hin as [Hin _].
      destruct (Hx b0) as [r Hr]; [by apply list_elem_of_In|]. rewrite Hr. cbn.
      by destruct (Hres _ _ Hr) as [-> _]. }
    assert (Hall : ∀ b, b ∈ step_blocks x → ∃ r, dget results (block_id b) = Some r ∧
              (r ∈ bs ∨ r ∈ results_in (o_out s))).
    { intros b Hb. destruct (decide (block_id b ∈ o_moved s)) as [Hm|Hm].
      - destruct (H4 _ Hm) as (r & Hr & Hin). exists r. auto.
      - destruct (Hx b Hb) as [r Hr]. exists r. split; [done|]. left.
        apply list_elem_of_fmap. exists b. rewrite Hr. split; [done|].
        apply list_elem_of_In, List.filter_In. split; [by apply list_elem_of_In|].
        by rewrite bool_decide_false. }
    assert (Hgen : kept (P ++ [x]) {| o_out := o_out s ++ match bs with [] => [] | _ => [with_blocks x bs] end;
              o_pending := answer_calls (o_pending s) bs; o_moved := o_moved s |}).
    { assert (Hri : results_in (o_out s ++ match bs with [] => [] | _ => [with_blocks x bs] end) =
                    results_in (o_out s) ++ bs).
      { rewrite results_in_app. destruct bs as [|b bs'] eqn:E; [done|].
        by rewrite results_in_one, kind_is_with, Er, step_blocks_with. }
      assert (Hc : all_calls (P ++ [x]) = all_calls P).
      { by rewrite all_calls_app, all_calls_one, Ea, app_nil_r. }
      split; cbn [o_out o_pending o_moved]; rewrite ?Hri, ?Hc.
      - rewrite !responses_app, H1, map_app. unfold responses at 2 4. cbn [List.filter]. rewrite Ea.
        destruct bs; cbn [List.filter]; [done|]. by rewrite kind_is_with, Ea.
      - intros c Hin%answer_calls_elem. auto.
      - intros b [Hb|Hb]%elem_of_app; [auto|]. left. auto.
      - intros k Hk. destruct (H4 k Hk) as (r & Hr & Hin). exists r. split; [done|].
        apply elem_of_app. by left.
      - intros b. rewrite results_in_app, results_in_one, Er. intros [Hb|Hb]%elem_of_app.
        + destruct (H5 b Hb) as (r & Hr & Hin). exists r. split; [done|]. apply elem_of_app. by left.
        + destruct (Hall b Hb) as (r & Hr & Hin). exists r. split; [done|]. apply elem_of_app. tauto.
      - intros y [Hy|Hy]%elem_of_app; [auto|].
        destruct bs as [|b bs'] eqn:E; [by apply not_elem_of_nil in Hy|].
        apply list_elem_of_singleton in Hy as ->. split; [apply plain_with|].
        by rewrite step_blocks_with.
      - intros y [Hy|Hy]%elem_of_app; [by eapply others_mono|].
        destruct bs as [|b bs'] eqn:E; [by apply not_elem_of_nil in Hy|].
        apply list_elem_of_singleton in Hy as ->. left. by rewrite kind_is_with. }
    destruct bs as [|b bs'] eqn:E; [|exact Hgen].
    by rewrite app_nil_r in Hgen.
  - assert (Hri : results_in (o_out s ++ [with_blocks x (step_blocks x)]) = results_in (o_out s)).
    { by rewrite results_in_app, results_in_one, kind_is_with, Er, app_nil_r. }
    assert (Hrp : results_in (P ++ [x]) = results_in P).
    { by rewrite results_in_app, results_in_one, Er, app_nil_r. }
    assert (Hc : all_calls (P ++ [x]) = all_calls P).
    { by rewrite all_calls_app, all_calls_one, Ea, app_nil_r. }
    split; cbn [o_out o_pending o_moved]; rewrite ?Hri, ?Hrp, ?Hc; try done.
    + rewrite !responses_app, H1, map_app. unfold responses at 2 4. cbn [List.filter].
      by rewrite kind_is_with, Ea.
    + intros y [Hy| ->%list_elem_of_singleton]%elem_of_app; [auto|]. split; [apply plain_with|].
      by rewrite kind_is_with, Er.
    + intros y [Hy| ->%list_elem_of_singleton]%elem_of_app; [by eapply others_mono|right].
      exists x. split_and!; [apply elem_of_app; right; left|done..].
Qed.

Lemma fold_kept steps P s :
  (∀ x, x ∈ steps → kind_is x STEP_TOOL_RESULT = true →
        ∀ b, b ∈ step_blocks x → is_Some (dget results (block_id b))) →
  kept P s → kept (P ++ steps) (foldl (order_step results state missing) s steps).
Proof.
  revert P s. induction steps as [|x steps IH]; intros P s Hx Hs; [by rewrite app_nil_r|].
  cbn [foldl]. replace (P ++ x :: steps) with ((P ++ [x]) ++ steps) by by rewrite <- app_assoc.
  apply IH; [intros y Hy; apply Hx; by right|]. apply order_step_kept; [|done].
  apply Hx. left.
Qed.
End pass.

Lemma recorded_is_some steps b :
  b ∈ result_blocks steps → is_Some (dget (recorded_results steps) (block_id b)).
Proof.
  unfold recorded_results, result_blocks. rewrite dget_map.
  generalize (List.concat (map step_blocks steps)) as bs. intros bs Hin. apply fmap_is_Some.
  assert (Hgen : ∀ d, is_Some (dget d (block_id b)) ∨ b ∈ List.filter (λ b, type_is b "tool_result") bs →
    is_Some (dget (foldl (λ d b, if type_is b "tool_result" then dput d (block_id b) b else d) d bs) (block_id b))).
  { clear Hin. induction bs as [|b0 bs IH]; intros d; cbn [foldl List.filter].
    - intros [?|?%not_elem_of_nil]; done.
    - intros Hor. apply IH. destruct (type_is b0 "tool_result").
      + rewrite dget_dput. case_bool_decide as E; [left; by eexists|].
        destruct Hor as [?|[<-|?]%elem_of_cons]; [by left|done|by right].
      + done. }
  apply Hgen. by right.
Qed.

Lemma result_blocks_in steps x b :
  x ∈ steps → b ∈ step_blocks x → type_is b "tool_result" = true → b ∈ result_blocks steps.
Proof.
  intros Hx Hb Ht. apply list_elem_of_In, List.filter_In. split; [|done].
  apply List.in_concat. exists (step_blocks x).
  split; [apply in_map|]; by apply list_elem_of_In.
Qed.

Lemma ordered_kept steps state missing :
  Forall result_step_ok steps →
  ∃ s, _ordered_result_steps steps state missing = o_out s ∧
       kept (recorded_results steps) state missing steps s.
Proof.
  intros Hok. eexists. split; [reflexivity|]. unfold order_from. apply flush_kept; [apply results_ok|].
  apply (fold_kept _ _ _ (results_ok steps) steps []).
  - intros x Hx Hr b Hb. apply recorded_is_some. rewrite Forall_forall in Hok.
    specialize (Hok x Hx Hr). rewrite Forall_forall in Hok. exact (result_blocks_in _ _ _ Hx Hb (Hok b Hb)).
  - split; cbn; try done; by intros ? ?%not_elem_of_nil.
Qed.

(** ** A closed record *)

Lemma answer_calls_only pending bs k :
  NoDup pending.*1 → k ∈ (answer_calls pending bs).*1 →
  k ∈ pending.*1 ∧ k ∉ map block_id bs.
Proof.
  unfold answer_calls. revert pending. induction bs as [|b bs IH]; intros pending Hnd Hk.
  { split; [done|apply not_elem_of_nil]. }
  cbn [foldl] in Hk. apply IH in Hk as [Hk Hn]; [|by apply dpop_NoDup]. split.
  - apply list_elem_of_fmap in Hk as (c & -> & Hc). apply list_elem_of_fmap_2. by eapply dpop_sub.
  - cbn. apply not_elem_of_cons. split; [|done]. intros ->.
    apply list_elem_of_fmap in Hk as (c & E & Hc).
    assert (Hd : dget (dpop pending (block_id b)) (block_id b) = Some c.2).
    { apply elem_dget; [by apply dpop_NoDup|].
      replace (block_id b, c.2) with c; [done|]. rewrite E. by destruct c. }
    rewrite dget_dpop_eq in Hd; done.
Qed.

Lemma answer_calls_NoDup pending bs : NoDup pending.*1 → NoDup (answer_calls pending bs).*1.
Proof.
  unfold answer_calls. revert pending. induction bs as [|b bs IH]; intros pending Hnd; [done|].
  cbn [foldl]. by apply IH, dpop_NoDup.
Qed.

Lemma add_calls_NoDup pending bs : NoDup pending.*1 → NoDup (add_calls pending bs).*1.
Proof.
  unfold add_calls. generalize (calls_of bs) as l. intros l. revert pending.
  induction l as [|b l IH]; intros pending Hnd; [done|]. cbn [foldl]. by apply IH, dput_NoDup.
Qed.

Section closed.
Context (results : pydict text vmap) (state missing : text).

(** The pass over the rest of a closed record, its results being the recorded
    ones, only copies. *)
Lemma fold_closed Q P open pending :
  scan [] P = Some open → NoDup pending.*1 → (∀ k, k ∈ pending.*1 → k ∈ open) →
  is_Some (scan open Q) →
  (∀ x, x ∈ Q → plain_step x = x ∧ (kind_is x STEP_TOOL_RESULT = true → step_blocks x ≠ [])) →
  (∀ b, b ∈ results_in Q → dget results (block_id b) = Some b) →
  ∃ pending', foldl (order_step results state missing)
      {| o_out := P; o_pending := pending; o_moved := [] |} Q =
    {| o_out := P ++ Q; o_pending := pending'; o_moved := [] |} ∧
    ∀ k o, scan open Q = Some o → k ∈ pending'.*1 → k ∈ o.
Proof.
  revert P open pending. induction Q as [|x Q IH]; intros P open pending HP Hnd Hsub HQ Hplain Hres.
  { exists pending. rewrite app_nil_r. split; [done|]. intros k o [= <-]. apply Hsub. }
  assert (Hplain' : ∀ y, y ∈ Q → plain_step y = y ∧ (kind_is y STEP_TOOL_RESULT = true → step_blocks y ≠ []))
    by (intros y Hy; apply Hplain; by right).
  assert (Hres' : ∀ b, b ∈ results_in Q → dget results (block_id b) = Some b).
  { intros b Hb. apply Hres. change (x :: Q) with ([x] ++ Q). rewrite results_in_app.
    apply elem_of_app. by right. }
  destruct (Hplain x) as [Hx Hne]; [left|]. unfold plain_step in Hx.
  replace (P ++ x :: Q) with ((P ++ [x]) ++ Q) by by rewrite <- app_assoc.
  cbn [foldl scan] in *. unfold order_step at 2.
  destruct (kind_is x STEP_ASSISTANT) eqn:Ea.
  - destruct open as [|k0 open]; [|by destruct HQ]. assert (pending = []) as ->.
    { destruct pending as [|[k v] l]; [done|]. exfalso.
      apply (not_elem_of_nil k), Hsub. left. }
    unfold flush_calls. cbn [o_out o_pending o_moved map omap list_omap app]. rewrite app_nil_r, Hx.
    apply (IH _ (call_ids x)); try done.
    + rewrite scan_app, HP. cbn [scan]. by rewrite Ea.
    + apply add_calls_NoDup. constructor.
    + intros k [Hk|Hk]%add_calls_keys; [by apply not_elem_of_nil in Hk|].
      unfold call_ids. by rewrite Ea.
  - destruct (kind_is x STEP_TOOL_RESULT) eqn:Er.
    + cbn [o_moved]. replace (List.filter _ (step_blocks x)) with (step_blocks x).
      2:{ symmetry. clear. induction (step_blocks x) as [|b l IHl]; [done|]. cbn [List.filter].
          rewrite bool_decide_false by apply not_elem_of_nil. cbn. by f_equal. }
      replace (map _ (step_blocks x)) with (step_blocks x).
      2:{ assert (Hb : ∀ b, b ∈ step_blocks x → dget results (block_id b) = Some b).
          { intros b Hb. apply Hres. apply elem_of_results_in. exists x. split_and!; [left|done|done]. }
          clear -Hb. induction (step_blocks x) as [|b l IHl]; [done|]. cbn [map].
          rewrite (Hb b) by left. cbn. f_equal. apply IHl. intros b' Hb'. apply Hb. by right. }
      specialize (Hne eq_refl). destruct (step_blocks x) as [|b0 bs0] eqn:Eb; [done|].
      rewrite <- Eb in *. cbn [o_out o_pending]. rewrite Hx.
      apply (IH _ (without (result_ids x) open)); try done.
      * rewrite scan_app, HP. cbn [scan]. by rewrite Ea.
      * by apply answer_calls_NoDup.
      * intros k [Hk Hn]%answer_calls_only; [|done]. apply elem_of_without. split; [auto|].
        unfold result_ids. rewrite Er. intros Hin. apply Hn. unfold answers in Hin.
        apply list_elem_of_fmap in Hin as (b & -> & Hin). apply list_elem_of_fmap_2.
        apply list_elem_of_In, List.filter_In in Hin as [Hin _]. by apply list_elem_of_In.
    + cbn [o_out o_pending o_moved]. rewrite Hx. apply (IH _ (without (result_ids x) open)); try done.
      * rewrite scan_app, HP. cbn [scan]. by rewrite Ea.
      * intros k Hk. apply elem_of_without. split; [auto|]. unfold result_ids. rewrite Er.
        apply not_elem_of_nil.
Qed.
End closed.

Lemma closed_fixed O state missing :
  scan [] O = Some [] →
  (∀ x, x ∈ O → plain_step x = x ∧ (kind_is x STEP_TOOL_RESULT = true → step_blocks x ≠ [])) →
  (∀ b, b ∈ results_in O → dget (recorded_results O) (block_id b) = Some b) →
  _ordered_result_steps O state missing = O.
Proof.
  intros Hs Hplain Hres. unfold _ordered_result_steps, order_from.
  destruct (fold_closed (recorded_results O) state missing O [] [] []) as (pending & -> & Hp);
    [done|constructor|by intros k ?%not_elem_of_nil|by eexists|done|done|].
  assert (pending = []) as ->.
  { destruct pending as [|[k v] l]; [done|]. exfalso. apply (not_elem_of_nil k).
    apply (Hp _ _ Hs). left. }
  cbn. apply app_nil_r.
Qed.

Lemma unknown_outcome_twice b : unknown_outcome (unknown_outcome b) = unknown_outcome b.
Proof.
  unfold unknown_outcome at 2 3. destruct (_ && _) eqn:E; [|unfold unknown_outcome; by rewrite E].
  unfold unknown_outcome. rewrite vget_vset_eq, (bool_decide_false (Some (VStr _MISSING_RESULT) = _)) by done.
  by rewrite andb_false_r.
Qed.

Lemma unknown_outcome_placeholder st k c :
  unknown_outcome (placeholder st _MISSING_RESULT k c) = placeholder st _MISSING_RESULT k c.
Proof.
  unfold unknown_outcome. change (vget (placeholder st _MISSING_RESULT k c) "output") with (Some (VStr _MISSING_RESULT)).
  by rewrite (bool_decide_false (Some (VStr _MISSING_RESULT) = _)), andb_false_r.
Qed.

Lemma same_id_same l (b b' : vmap) :
  NoDup (map block_id l) → b ∈ l → b' ∈ l → block_id b = block_id b' → b = b'.
Proof.
  intros Hnd Hb Hb' E. apply list_elem_of_lookup in Hb as [i Hi], Hb' as [i' Hi'].
  assert (i = i'); [|congruence]. eapply (NoDup_lookup (map block_id l)); [done| |].
  - apply list_lookup_fmap_Some. exists b. by split; [symmetry; exact E|].
  - apply list_lookup_fmap_Some. by exists b'.
Qed.

(** Steps other than results hold no results. *)
Definition other_step_ok (s : vmap) : Prop :=
  kind_is s STEP_TOOL_RESULT = false → Forall (λ b, type_is b "tool_result" = false) (step_blocks s).

(** ** Theorems *)

(** C31: closing a record changes no response and loses no result: the responses
    stay as they are and in order; for every recorded result, the last one
    recorded under its identifier is there; and every result that is there is the
    last one recorded under its identifier, or an explicit unknown outcome of a
    call none was recorded for.  (The old wording of an interruption is replaced
    by that of an unknown outcome.) *)
Theorem closing_keeps_record steps :
  Forall result_step_ok steps →
  let out := close_dangling_calls steps in
  responses out = map plain_step (responses steps) ∧
  (∀ b, b ∈ results_in steps → ∃ b', last_of_id (result_blocks steps) b' ∧
     block_id b' = block_id b ∧ unknown_outcome b' ∈ results_in out) ∧
  (∀ b, b ∈ results_in out →
     (∃ b', last_of_id (result_blocks steps) b' ∧ b = unknown_outcome b') ∨
     (∀ b', b' ∈ result_blocks steps → block_id b' ≠ block_id b) ∧
     ∃ c, c ∈ all_calls steps ∧
       b = result_block (block_id c) (str_or_empty (vget c "name")) (VStr _MISSING_RESULT) STATE_INTERRUPTED).
Proof.
  intros Hok. cbv zeta. unfold close_dangling_calls.
  destruct (ordered_kept steps STATE_INTERRUPTED _MISSING_RESULT Hok) as (s & -> & [H1 _ H3 _ H5 _ _]).
  split_and!; [exact H1| |].
  - intros b Hb. destruct (H5 b Hb) as (r & Hr & Hin).
    apply recorded_result in Hr as (Hid & _ & b' & Hb' & ->). exists b'.
    rewrite block_id_unknown in Hid. done.
  - intros b [Hg|(Hn & c & Hc & _ & ->)]%H3.
    + left. by apply recorded_result in Hg as (_ & _ & ?).
    + right. split; [|by exists c]. intros b' [r Hr]%recorded_is_some E. congruence.
Qed.

(** C32: closing is done once: closing a closed record, with calls that have
    identifiers of their own, gives the same record. *)
Theorem closing_idempotent steps :
  Forall result_step_ok steps → Forall other_step_ok steps → NoDup (map block_id (all_calls steps)) →
  close_dangling_calls (close_dangling_calls steps) = close_dangling_calls steps.
Proof.
  intros Hok Hother Hnd. unfold close_dangling_calls.
  pose proof (ordered_paired steps STATE_INTERRUPTED _MISSING_RESULT Hok) as Hp.
  destruct (ordered_kept steps STATE_INTERRUPTED _MISSING_RESULT Hok) as (s & Es & [_ _ H3 _ _ H6 H7]).
  rewrite Es in *. set (out := o_out s) in *. apply closed_fixed; [exact Hp|exact H6|].
  assert (Htype : ∀ b, b ∈ results_in out → type_is b "tool_result" = true).
  { intros b [Hg|(_ & c & _ & _ & ->)]%H3; [by apply results_ok in Hg as [_ ?]|apply type_result]. }
  assert (Hin : ∀ b, b ∈ result_blocks out → b ∈ results_in out).
  { intros b Hb. apply list_elem_of_In, List.filter_In in Hb as [Hb Ht].
    apply List.in_concat in Hb as (bs & Hbs & Hb). apply in_map_iff in Hbs as (x & <- & Hx).
    apply list_elem_of_In in Hx, Hb. destruct (H7 x Hx) as [Hk|(y & Hy & Hk & ->)].
    - apply elem_of_results_in. by exists x.
    - exfalso. unfold plain_step in Hb. rewrite step_blocks_with in Hb.
      rewrite Forall_forall in Hother. specialize (Hother y Hy Hk).
      rewrite Forall_forall in Hother. specialize (Hother b Hb). cbn in Hother. congruence. }
  assert (Hsame : ∀ b b', b ∈ results_in out → b' ∈ results_in out → block_id b = block_id b' → b = b').
  { intros b b' Hb Hb' E.
    destruct (H3 b Hb) as [Hg|(Hn & c & Hc & Ec & Eb)], (H3 b' Hb') as [Hg'|(Hn' & c' & Hc' & Ec' & Eb')].
    - rewrite E, Hg' in Hg. by injection Hg.
    - rewrite E, Hn' in Hg. discriminate Hg.
    - rewrite <- E, Hn in Hg'. discriminate Hg'.
    - rewrite Eb, Eb', (same_id_same _ c c' Hnd Hc Hc'); [done|]. by rewrite Ec, Ec'. }
  intros b Hb. destruct (recorded_is_some out b) as [r Hr].
  { apply elem_of_results_in in Hb as Hb'. destruct Hb' as (x & Hx & _ & Hbx).
    eapply result_blocks_in; eauto. }
  rewrite Hr. apply recorded_result in Hr as (Hid & _ & b' & Hb' & ->). rewrite block_id_unknown in Hid.
  apply last_of_id_in in Hb'. f_equal. rewrite (Hsame b' b) by auto. apply H3 in Hb as [Hg|(_ & c & _ & _ & ->)].
  - apply recorded_result in Hg as (_ & _ & b0 & _ & ->). apply unknown_outcome_twice.
  - apply unknown_outcome_placeholder.
Qed.

End steps.

(** ** Witnesses *)

#[export] Instance plain_host : ContextHost := {
  sha256_text := λ _, ""%string; str_of_value := λ _, [] }.

Definition sample_call (id : string) : vmap :=
  [("type"%string, VStr (text_of "tool_call")); ("id"%string, VStr (text_of id));
   ("name"%string, VStr (text_of "search"))].
Definition sample_response (bs : list vmap) : vmap :=
  [("kind"%string, VStr (text_of STEP_ASSISTANT)); ("blocks"%string, blocks_value bs)].

(** Two responses with a call each; the first result comes late, the second not
    at all. *)
Definition sample_record : list vmap :=
  [sample_response [sample_call "a"]; sample_response [sample_call "b"];
   result_step (result_block (text_of "a") (text_of "search") (VStr (text_of "found")) (text_of "success"))].

Lemma sample_results_ok : Forall result_step_ok sample_record.
Proof.
  apply Forall_forall. intros s Hs E.
  repeat (apply elem_of_cons in Hs as [->|Hs]; [first [discriminate E|repeat constructor]|]).
  by apply not_elem_of_nil in Hs.
Qed.
Lemma sample_others_ok : Forall other_step_ok sample_record.
Proof.
  apply Forall_forall. intros s Hs E.
  repeat (apply elem_of_cons in Hs as [->|Hs]; [first [discriminate E|repeat constructor]|]).
  by apply not_elem_of_nil in Hs.
Qed.

Lemma closing_keeps_record_witness :
  responses (close_dangling_calls sample_record) = map plain_step (responses sample_record).
Proof. exact (proj1 (closing_keeps_record sample_record sample_results_ok)). Defined.

Lemma closing_idempotent_witness :
  close_dangling_calls (close_dangling_calls sample_record) = close_dangling_calls sample_record.
Proof.
  apply (closing_idempotent sample_record sample_results_ok sample_others_ok).
  apply (bool_decide_unpack _). vm_compute. exact I.
Defined.
