(* ===== verification/HistoryRows.v ===== *)
(** * Rows of the history: the other records of [core/llm/model_steps.py]

    A turn without a step record is replayed from the order its pieces were shown
    in, or as a digest; and the rows of a live conversation are split into one
    row per step. *)

From S2P Require Import Prelude PyDict ContextIR ModelSteps.
From stdpp Require Import pretty.

#[local] Open Scope Z_scope.

Module HistoryRows.
Import ContextIR ModelSteps.

(** [json.dumps(v, ensure_ascii=False)] *)
Fixpoint json_text (v : value) : text :=
  match v with
  | VNull => text_of "null"
  | VBool b => text_of (if b then "true" else "false")
  | VInt z => text_of (pretty z)
  | VStr t => dump_text t
  | VList l => text_of "[" ++ join_text (text_of ", ") (map json_text l) ++ text_of "]"
  | VMap d =>
      text_of "{" ++ join_text (text_of ", ")
        (map (λ kv, dump_text (text_of kv.1) ++ text_of ": " ++ json_text kv.2) d) ++ text_of "}"
  end.

Section rows.
Context `{ContextHost}.

(** [str(e.get(k1) or e.get(k2) or default)] *)
Fixpoint first_str (e : vmap) (ks : list string) (default : text) : text :=
  match ks with
  | [] => default
  | k :: ks' => match vget e k with
                | Some v => if truthy v then str_of v else first_str e ks' default
                | None => first_str e ks' default
                end
  end.

(** [entry.get(k1) if k1 in entry else entry.get(k2)] *)
Definition either_key (e : vmap) (k1 k2 : string) : value :=
  match vget e k1 with Some v => v | None => default VNull (vget e k2) end.

Definition entry_id (e : vmap) (index : Z) : text :=
  first_str e ["tool_id"; "id"]%string (text_of "hist_" ++ text_of (pretty (index + 1))).
Definition entry_name (e : vmap) : text :=
  first_str e ["tool_name"; "name"]%string (text_of "unknown_tool").

Definition _tool_call_block (e : vmap) (index : Z) : vmap :=
  let input := match either_key e "tool_args" "input" with
               | VStr t => t
               | VMap d => json_text (VMap d)
               | VList l => json_text (VList l)
               | _ => json_text (VMap [])
               end in
  [("type"%string, VStr (text_of "tool_call")); ("id"%string, VStr (entry_id e index));
   ("name"%string, VStr (entry_name e)); ("input"%string, VStr input)].

Definition succeeded (status : text) : bool :=
  bool_decide (status = text_of "success") || bool_decide (status = text_of "ok").
Definition _tool_result_block (e : vmap) (index : Z) : vmap :=
  let output := match either_key e "result" "output" with
                | VStr t => t
                | VNull => []
                | v => json_text v
                end in
  let status := first_str e ["status"%string]
    (match vget e "result" with Some _ => text_of "success" | None => STATE_INTERRUPTED end) in
  let output' := if succeeded status then output
                 else text_of "[status=" ++ status ++ text_of "]" ++ newline ++ output in
  result_block (entry_id e index) (entry_name e) (VStr output')
    (if succeeded status then text_of "success" else status).

(** ** [rows_from_segments] *)

(** [int(segment.get("index", -1))] of a recorded number; [None] is the error on
    anything else. *)
Definition seg_index (s : vmap) : option Z :=
  match vget s "index" with
  | None => Some (-1)
  | Some (VInt z) => Some z
  | Some (VBool b) => Some (if b then 1 else 0)
  | Some _ => None
  end.
Definition nth_entry (l : list vmap) (i : Z) : option vmap :=
  if i <? 0 then None else l !! Z.to_nat i.

Record seg_state := { g_rows : list vmap; g_current : list vmap; g_pending : list (Z * vmap) }.

(** [close_step] *)
Definition close_step (s : seg_state) : seg_state :=
  {| g_rows := g_rows s
       ++ match g_current s with [] => [] | _ => [mk_row "assistant" (g_current s)] end
       ++ match g_pending s with
          | [] => []
          | _ => [mk_row "tool" (map (λ p, _tool_result_block p.2 p.1) (g_pending s))]
          end;
     g_current := []; g_pending := [] |}.

Definition thinking_block (t : text) : vmap :=
  [("type"%string, VStr (text_of "thinking")); ("thinking"%string, VStr t)].

(** A piece that the model wrote after the calls of a step begins the next. *)
Definition next_step (s : seg_state) : seg_state :=
  match g_pending s with [] => s | _ => close_step s end.
Definition push (s : seg_state) (b : vmap) : seg_state :=
  {| g_rows := g_rows s; g_current := g_current s ++ [b]; g_pending := g_pending s |}.

(** One turn of the loop; [None] is the [ValueError] on an unknown type. *)
Definition segment_step (thinking tool_calls : list vmap) (s : seg_state) (seg : vmap) :
    option seg_state :=
  let seg_type := str_or_empty (vget seg "type") in
  if bool_decide (seg_type = text_of "thinking") then
    let s1 := next_step s in
    match seg_index seg with
    | None => None
    | Some index =>
        Some (match nth_entry thinking index with
              | Some e => match vget e "content" with
                          | Some v => if truthy v then push s1 (thinking_block (str_of v)) else s1
                          | None => s1
                          end
              | None => s1
              end)
    end
  else if bool_decide (seg_type = text_of "text") then
    let s1 := next_step s in
    Some (match str_or_empty (vget seg "text") with
          | [] => s1
          | t => push s1 (text_block t)
          end)
  else if bool_decide (seg_type = text_of "tool") then
    match seg_index seg with
    | None => None
    | Some index =>
        Some (match nth_entry tool_calls index with
              | Some e => {| g_rows := g_rows s;
                             g_current := g_current s ++ [_tool_call_block e index];
                             g_pending := g_pending s ++ [(index, e)] |}
              | None => s
              end)
    end
  else None.

Fixpoint segments_from (thinking tool_calls : list vmap) (s : seg_state) (segs : list vmap) :
    option seg_state :=
  match segs with
  | [] => Some s
  | seg :: segs' =>
      match segment_step thinking tool_calls s seg with
      | Some s' => segments_from thinking tool_calls s' segs'
      | None => None
      end
  end.
Definition rows_from_segments (thinking tool_calls segments : list vmap) (cancelled : bool) :
    option (list vmap) :=
  match segments_from thinking tool_calls {| g_rows := []; g_current := []; g_pending := [] |} segments with
  | Some s => let rows := g_rows (close_step s) in
              Some (if cancelled then mark_cancelled rows else rows)
  | None => None
  end.

(** ** [legacy_digest_rows] *)

Definition digest_line (index : Z) (e : vmap) : text :=
  let call := _tool_call_block e index in
  let result := _tool_result_block e index in
  text_of "- " ++ str_or_empty (vget call "name") ++ text_of "(" ++ str_or_empty (vget call "input")
    ++ text_of ")" ++ [32; 8594; 32] ++ str_or_empty (vget result "output").
Definition legacy_digest_rows (content : text) (thinking tool_calls : list vmap) (cancelled : bool) :
    list vmap :=
  let thoughts := omap (λ e, match vget e "content" with
                             | Some v => if truthy v then Some (thinking_block (str_of v)) else None
                             | None => None
                             end) thinking in
  let body := match strip_text content with [] => [] | t => [text_block t] end in
  let digest := match tool_calls with
                | [] => []
                | _ => [text_block (join_text newline (_LEGACY_TOOL_DIGEST_HEADER ::
                          imap (λ i e, digest_line (Z.of_nat i) e) tool_calls))]
                end in
  let blocks := thoughts ++ body ++ digest in
  [mk_row "assistant" (if cancelled then _append_cancel_marker blocks else blocks)].

(** The most faithful record there is of one stored answer. *)
Definition assistant_row_replay (content : text) (model_steps thinking tool_calls segments : list vmap)
    (cancelled : bool) : option (list vmap) :=
  match model_steps, segments with
  | _ :: _, _ => replay_rows model_steps cancelled
  | [], _ :: _ => rows_from_segments thinking tool_calls segments cancelled
  | [], [] => Some (legacy_digest_rows content thinking tool_calls cancelled)
  end.

(** ** [explode_history_rows] *)

(** The step being collected: its blocks and the results that answer it. *)
Record split_state := { x_out : list vmap; x_current : list vmap; x_results : list vmap }.

Definition emit_row (role : string) (bs : list vmap) : list vmap :=
  match bs with [] => [] | _ => [mk_row role bs] end.
Definition split_step (s : split_state) (b : vmap) : split_state :=
  if type_is b "tool_result"
  then {| x_out := x_out s; x_current := x_current s; x_results := x_results s ++ [b] |}
  else match x_results s with
       | [] => {| x_out := x_out s; x_current := x_current s ++ [b]; x_results := [] |}
       | _ => {| x_out := x_out s ++ [mk_row "assistant" (x_current s); mk_row "tool" (x_results s)];
                 x_current := [b]; x_results := [] |}
       end.
Definition split_blocks (bs : list vmap) : list vmap :=
  let s := foldl split_step {| x_out := []; x_current := []; x_results := [] |} bs in
  x_out s ++ emit_row "assistant" (x_current s) ++ emit_row "tool" (x_results s).

Definition is_list (v : option value) : bool := match v with Some (VList _) => true | _ => false end.
(** [str(row.get("role") or "user") == "assistant"] *)
Definition row_role (r : vmap) : text := state_or (vget r "role") (text_of "user").

Definition explode_row (r : vmap) : list vmap :=
  if negb (bool_decide (row_role r = text_of "assistant")) || negb (is_list (vget r "content"))
  then [r]
  else if existsb (λ b, type_is b "tool_result") (row_blocks r)
  then split_blocks (row_blocks r) else [r].
Definition explode_history_rows (history : list vmap) : list vmap :=
  List.concat (map explode_row history).

End rows.
End HistoryRows.
