(* ===== verification/HistoryRowsThms.v ===== *)
(** * Rows of the history: what replaying and splitting them gives

    Whatever record there is of an answer, every call of a replayed row is
    answered in the next one; splitting rows into steps loses no block, leaves no
    result in a response, and is done once. *)

From S2P Require Import Prelude PyDict ContextIR ContextIRProps ModelSteps ModelStepsProps.
From S2P Require Import ModelStepsThms HistoryRows.
From stdpp Require Import pretty.

#[local] Open Scope Z_scope.

Import ContextIR ContextIRProps ModelSteps HistoryRows.

Section rows.
Context `{ContextHost}.

(** ** Rows from the order of the pieces *)

Lemma block_id_entry id rest :
  block_id (("type"%string, VStr (text_of "tool_call")) :: ("id"%string, VStr id) :: rest) = id.
Proof. unfold block_id. cbn. destruct id; [done|]. by rewrite bool_decide_false. Qed.

Lemma call_id_entry e i : block_id (_tool_call_block e i) = entry_id e i.
Proof. apply block_id_entry. Qed.
Lemma result_id_entry e i : block_id (_tool_result_block e i) = entry_id e i.
Proof. apply block_id_result. Qed.

Definition pending_ids (p : list (Z * vmap)) : list text := map (λ q, entry_id q.2 q.1) p.

(** The rows so far are closed, and every call of the step is pending. *)
Definition seg_inv (s : seg_state) : Prop :=
  closed_rows (g_rows s) ∧
  ∀ k, k ∈ map block_id (calls_of (g_current s)) → k ∈ pending_ids (g_pending s).

Lemma pending_results p :
  answers (map (λ q, _tool_result_block q.2 q.1) p) = pending_ids p.
Proof.
  rewrite answers_all.
  - unfold pending_ids. rewrite map_map. apply map_ext. intros q. apply result_id_entry.
  - apply Forall_forall. by intros b (q & -> & _)%list_elem_of_fmap.
Qed.

Lemma closed_emit current pending :
  (∀ k, k ∈ map block_id (calls_of current) → k ∈ pending_ids pending) →
  closed_rows
    (match current with [] => [] | _ => [mk_row "assistant" current] end
     ++ match pending with
        | [] => []
        | _ => [mk_row "tool" (map (λ p, _tool_result_block p.2 p.1) pending)]
        end).
Proof.
  intros Hk. set (res := match pending with [] => _ | _ => _ end).
  assert (Hres : closed_rows res) by (subst res; destruct pending; [done|apply closed_tool]).
  destruct current as [|b bs]; [done|]. split; [|done].
  intros k. rewrite row_calls_assistant. intros Hin%Hk. subst res.
  destruct pending as [|p ps]; [by apply not_elem_of_nil in Hin|].
  eexists _, []. split; [reflexivity|]. by rewrite row_results_tool, pending_results.
Qed.

Lemma close_step_inv s : seg_inv s → seg_inv (close_step s).
Proof.
  intros [Hc Hk]. split.
  - cbn [g_rows close_step]. apply closed_app; [done|]. by apply closed_emit.
  - by intros k ?%not_elem_of_nil.
Qed.
Lemma next_step_inv s : seg_inv s → seg_inv (next_step s).
Proof. intros Hs. unfold next_step. destruct (g_pending s); [done|by apply close_step_inv]. Qed.

Lemma push_inv s b : type_is b "tool_call" = false → seg_inv s → seg_inv (push s b).
Proof.
  intros Hb [Hc Hk]. split; [done|]. cbn [g_current g_pending push].
  intros k. rewrite calls_of_app. unfold calls_of at 2. cbn [List.filter].
  rewrite Hb, app_nil_r. apply Hk.
Qed.

Lemma segment_step_inv thinking tool_calls s seg s' :
  seg_inv s → segment_step thinking tool_calls s seg = Some s' → seg_inv s'.
Proof.
  intros Hs. unfold segment_step. cbv zeta.
  destruct (bool_decide _).
  { destruct (seg_index seg); [|done]. intros [= <-].
    repeat case_match; auto using next_step_inv, push_inv. }
  destruct (bool_decide _).
  { intros [= <-]. destruct (str_or_empty _); auto using next_step_inv, push_inv. }
  destruct (bool_decide _); [|done].
  destruct (seg_index seg) as [i|]; [|done]. intros [= <-].
  destruct (nth_entry tool_calls i) as [e|]; [|done]. destruct Hs as [Hc Hk].
  split; [done|]. cbn [g_current g_pending]. intros k.
  rewrite calls_of_app, map_app, elem_of_app. unfold pending_ids. rewrite map_app, elem_of_app.
  intros [?|Hin]; [left; by apply Hk|right].
  change (k ∈ [block_id (_tool_call_block e i)]) in Hin.
  change (k ∈ [entry_id e i]). by rewrite <- call_id_entry.
Qed.

Lemma segments_from_inv thinking tool_calls segs s s' :
  seg_inv s → segments_from thinking tool_calls s segs = Some s' → seg_inv s'.
Proof.
  revert s. induction segs as [|seg segs IH]; intros s Hs; cbn; [by intros [= <-]|].
  destruct (segment_step _ _ s seg) as [s1|] eqn:E; [|done].
  apply IH. by eapply segment_step_inv.
Qed.

Lemma segments_closed thinking tool_calls segs cancelled rows :
  rows_from_segments thinking tool_calls segs cancelled = Some rows → closed_rows rows.
Proof.
  unfold rows_from_segments. destruct (segments_from _ _ _ _) as [s|] eqn:E; [|done].
  intros [= <-]. assert (Hc : closed_rows (g_rows (close_step s))).
  { apply close_step_inv. eapply segments_from_inv; [|exact E]. split; [done|].
    by intros k ?%not_elem_of_nil. }
  destruct cancelled; [by apply closed_cancelled|done].
Qed.

(** ** The digest *)

Lemma legacy_closed content thinking tool_calls cancelled :
  closed_rows (legacy_digest_rows content thinking tool_calls cancelled).
Proof.
  split; [|done]. intros k. rewrite row_calls_assistant. intros (b & -> & Hb)%list_elem_of_fmap.
  exfalso. match type of Hb with context [if _ then _append_cancel_marker ?l else _] => set (bs := l) in * end.
  assert (Hn : ∀ b, b ∈ calls_of bs → False).
  { intros c [Hc Ht]%list_elem_of_In%List.filter_In. apply list_elem_of_In in Hc.
    subst bs. rewrite !elem_of_app in Hc. destruct Hc as [Hc|[Hc|Hc]].
    - apply list_elem_of_omap in Hc as (e & _ & E).
      destruct (vget e "content") as [v|]; [|done]. destruct (truthy v); [|done].
      injection E as <-. discriminate Ht.
    - destruct (strip_text content); [by apply not_elem_of_nil in Hc|].
      apply list_elem_of_singleton in Hc as ->. discriminate Ht.
    - destruct tool_calls; [by apply not_elem_of_nil in Hc|].
      apply list_elem_of_singleton in Hc as ->. discriminate Ht. }
  destruct cancelled; [apply calls_of_cancel in Hb|]; by apply Hn in Hb.
Qed.

(** ** Splitting rows *)

Lemma explode_row_kept r :
  row_role r ≠ text_of "assistant" ∨ is_list (vget r "content") = false ∨
  existsb (λ b, type_is b "tool_result") (row_blocks r) = false → explode_row r = [r].
Proof.
  unfold explode_row. intros [Hr|[Hl|Hn]].
  - by rewrite bool_decide_false.
  - by rewrite Hl, orb_true_r.
  - rewrite Hn. by destruct (_ || _).
Qed.

(** A row of a split step. *)
Definition step_row (r : vmap) : Prop :=
  (∃ bs, r = mk_row "assistant" bs ∧ Forall (λ b, type_is b "tool_result" = false) bs) ∨
  (∃ bs, r = mk_row "tool" bs ∧ Forall (λ b, type_is b "tool_result" = true) bs).

Record split_ok (done : list vmap) (s : split_state) : Prop := {
  so_blocks : List.concat (map row_blocks (x_out s)) ++ x_current s ++ x_results s = done;
  so_rows : Forall step_row (x_out s);
  so_current : Forall (λ b, type_is b "tool_result" = false) (x_current s);
  so_results : Forall (λ b, type_is b "tool_result" = true) (x_results s);
}.

Lemma split_step_ok done s b : split_ok done s → split_ok (done ++ [b]) (split_step s b).
Proof.
  intros [Hb Hr Hc Hs]. unfold split_step. destruct (type_is b "tool_result") eqn:Et.
  { split; cbn; [|done..|apply Forall_app; split; [done|by constructor]].
    by rewrite <- Hb, <- !app_assoc. }
  destruct (x_results s) as [|r rs] eqn:Es.
  { split; cbn; [|done|apply Forall_app; split; [done|by constructor]|constructor].
    by rewrite <- Hb, !app_nil_r, <- app_assoc. }
  split; cbn -[mk_row row_blocks]; [|apply Forall_app; split; [done|]|by constructor|constructor].
  - rewrite map_app, concat_app. cbn -[mk_row row_blocks]. rewrite !row_blocks_mk, <- Hb, app_nil_r.
    by rewrite <- !app_assoc.
  - constructor; [left; by eexists|constructor; [right; by eexists|constructor]].
Qed.

Lemma split_fold_ok bs done s :
  split_ok done s → split_ok (done ++ bs) (foldl split_step s bs).
Proof.
  revert done s. induction bs as [|b bs IH]; intros done s Hs; cbn [foldl]; [by rewrite app_nil_r|].
  change (b :: bs) with ([b] ++ bs). rewrite app_assoc. by apply IH, split_step_ok.
Qed.

Lemma emit_blocks role bs : List.concat (map row_blocks (emit_row role bs)) = bs.
Proof.
  destruct bs as [|b bs]; [done|]. cbn [emit_row map List.concat]. by rewrite row_blocks_mk, app_nil_r.
Qed.

Lemma emit_rows role bs : step_row (mk_row role bs) → Forall step_row (emit_row role bs).
Proof. intros Hs. destruct bs as [|b bs]; [apply Forall_nil_2|]. apply Forall_cons. by split; [|apply Forall_nil_2]. Qed.

Lemma split_blocks_ok bs :
  List.concat (map row_blocks (split_blocks bs)) = bs ∧ Forall step_row (split_blocks bs).
Proof.
  assert (H0 : split_ok [] {| x_out := []; x_current := []; x_results := [] |}) by (split; constructor).
  apply (split_fold_ok bs) in H0 as [Hb Hr Hc Hs]. unfold split_blocks. cbv zeta. split.
  - rewrite !map_app, !concat_app, !emit_blocks. exact Hb.
  - rewrite !Forall_app. split_and!; [done|apply emit_rows; left|apply emit_rows; right]; by eexists.
Qed.

Lemma explode_row_blocks r :
  List.concat (map row_blocks (explode_row r)) = row_blocks r.
Proof.
  unfold explode_row. destruct (_ || _); [by cbn; rewrite app_nil_r|].
  destruct (existsb _ _); [apply split_blocks_ok|by cbn; rewrite app_nil_r].
Qed.

Lemma step_row_once r : step_row r → explode_row r = [r].
Proof.
  intros [(bs & -> & Hbs)|(bs & -> & _)]; apply explode_row_kept.
  - right. right. rewrite row_blocks_mk. induction Hbs as [|b bs Hb _ IH]; [done|]. cbn. by rewrite Hb.
  - by left.
Qed.

Lemma explode_row_once r r' : r' ∈ explode_row r → explode_row r' = [r'].
Proof.
  unfold explode_row at 1.
  destruct (negb (bool_decide (row_role r = text_of "assistant")) || negb (is_list (vget r "content"))) eqn:E1.
  { intros ->%list_elem_of_singleton. apply orb_true_iff in E1 as [E|E]; apply negb_true_iff in E;
      apply explode_row_kept; [left; by apply bool_decide_eq_false in E|by right; left]. }
  destruct (existsb _ _) eqn:E2.
  - intros Hin. apply step_row_once. destruct (split_blocks_ok (row_blocks r)) as [_ Hf].
    rewrite Forall_forall in Hf. by apply Hf.
  - intros ->%list_elem_of_singleton. apply explode_row_kept. by right; right.
Qed.

Lemma explode_rows_once rows :
  (∀ r, r ∈ rows → explode_row r = [r]) → explode_history_rows rows = rows.
Proof.
  unfold explode_history_rows. induction rows as [|r rows IH]; intros Hall; [done|].
  cbn. rewrite Hall by left. cbn. f_equal. apply IH. intros r' Hr'. apply Hall. by right.
Qed.

Lemma elem_of_exploded history r' :
  r' ∈ explode_history_rows history ↔ ∃ r, r ∈ history ∧ r' ∈ explode_row r.
Proof.
  unfold explode_history_rows. rewrite list_elem_of_In, in_concat. split.
  - intros (l & Hl & Hin). apply in_map_iff in Hl as (r & <- & Hr). exists r. by rewrite !list_elem_of_In.
  - intros (r & Hr & Hin). exists (explode_row r). rewrite list_elem_of_In in Hr, Hin. split; [by apply in_map|done].
Qed.

Lemma exploded_once history r : r ∈ explode_history_rows history → explode_row r = [r].
Proof. intros (r0 & _ & Hr)%elem_of_exploded. by eapply explode_row_once. Qed.

(** ** Theorems *)

(** C12: a stored answer is replayed in rows that keep the protocol of the
    providers, whichever record there is of it - the steps, the order its pieces
    were shown in, or neither: a call of a response is answered by a result with
    its identifier in the very next row, whatever results the record lacks, has
    late or has twice, and whether or not the user stopped the turn. *)
Theorem replay_answers_every_call content model_steps thinking tool_calls segments cancelled rows i r k :
  Forall result_step_ok model_steps →
  assistant_row_replay content model_steps thinking tool_calls segments cancelled = Some rows →
  rows !! i = Some r → k ∈ row_calls r →
  ∃ r', rows !! S i = Some r' ∧ k ∈ row_results r'.
Proof.
  intros Hok Hr. apply closed_nth. unfold assistant_row_replay in Hr.
  destruct model_steps as [|s steps]; [destruct segments as [|seg segs]|].
  - injection Hr as <-. apply legacy_closed.
  - by eapply segments_closed.
  - by eapply replay_closed.
Qed.

(** splitting a live history into steps keeps every block, in order; no
    response of the result holds a result of a call; and a split history is
    split no further. *)
Theorem explode_separates_steps history :
  let rows := explode_history_rows history in
  List.concat (map row_blocks rows) = List.concat (map row_blocks history) ∧
  (∀ r, r ∈ rows → row_role r = text_of "assistant" → is_list (vget r "content") = true →
        ∀ b, b ∈ row_blocks r → type_is b "tool_result" = false) ∧
  explode_history_rows rows = rows.
Proof.
  cbv zeta. split_and!.
  - unfold explode_history_rows. induction history as [|r l IH]; [done|].
    cbn. by rewrite map_app, concat_app, explode_row_blocks, IH.
  - intros r Hr Hrole Hlist b Hb. apply exploded_once in Hr. revert Hr. unfold explode_row.
    rewrite bool_decide_true, Hlist by done. cbn [negb orb].
    destruct (existsb _ _) eqn:E.
    + intros Hs. destruct (split_blocks_ok (row_blocks r)) as [_ Hf]. rewrite Hs in Hf.
      apply Forall_inv in Hf as [(bs & -> & Hbs)|(bs & -> & Hbs)].
      * rewrite row_blocks_mk in Hb. rewrite Forall_forall in Hbs. by apply Hbs.
      * discriminate Hrole.
    + intros _. destruct (type_is b "tool_result") eqn:Et; [|done]. exfalso.
      assert (existsb (λ b, type_is b "tool_result") (row_blocks r) = true) by
        (apply existsb_exists; exists b; by rewrite <- list_elem_of_In).
      congruence.
  - apply explode_rows_once. apply exploded_once.
Qed.

End rows.

(** ** Witnesses *)

Lemma replay_answers_every_call_witness :
  ∃ rows, assistant_row_replay [] sample_record [] [] [] true = Some rows ∧
    ∃ r', rows !! 3%nat = Some r' ∧ text_of "b" ∈ row_results r'.
Proof.
  destruct (assistant_row_replay [] sample_record [] [] [] true) as [rows|] eqn:E;
    [|vm_compute in E; discriminate E].
  exists rows. split; [reflexivity|].
  destruct (rows !! 2%nat) as [r|] eqn:Er.
  - apply (replay_answers_every_call [] sample_record [] [] [] true rows 2 r (text_of "b")
             sample_results_ok E Er).
    vm_compute in E. injection E as <-. injection Er as <-. apply list_elem_of_In. vm_compute. by left.
  - vm_compute in E. injection E as <-. discriminate Er.
Defined.
