(* ===== verification/Compaction.v ===== *)
(** * Compacting a history: [core/llm/compaction.py]

    Token estimates and the middle truncation of a text, the text a summary
    model reads of a message, and the choice of what is summarized and what is
    kept: whole steps only.  Messages are JSON values, as in [ContextIR]. *)

From S2P Require Import Prelude PyDict ContextIR ModelSteps HistoryRows.
From stdpp Require Import pretty.

#[local] Open Scope Z_scope.

Module Compaction.
Import ContextIR ModelSteps HistoryRows.

Definition APPROX_BYTES_PER_TOKEN : Z := 4.
Definition COMPACT_KEEP_RECENT_TOKENS : Z := 20000.
Definition SESSION_CONTEXT_META_KEY : string := "_context_item".
Definition KIND_COMPACTION : string := "compaction_summary".
Definition SUMMARY_PREFIX : text := text_of "Another language model started to solve this problem and produced a summary of its thinking process. You also have access to the state of the tools that were used by that language model. Use this to build on the work that has already been done and avoid duplicating work. Here is the summary produced by the other language model, use the information in this summary to assist with your own analysis:".

(** ** Token estimates and middle truncation *)

Definition approx_token_count (t : text) : Z :=
  (utf8_len t + APPROX_BYTES_PER_TOKEN - 1) / APPROX_BYTES_PER_TOKEN.
Definition approx_bytes_for_tokens (tokens : Z) : Z := tokens * APPROX_BYTES_PER_TOKEN.
Definition approx_tokens_from_byte_count (nbytes : Z) : Z :=
  if nbytes <=? 0 then 0 else (nbytes + APPROX_BYTES_PER_TOKEN - 1) / APPROX_BYTES_PER_TOKEN.

Definition ellipsis : text := [8230].
Definition _format_truncation_marker (use_tokens : bool) (removed_count : Z) : text :=
  ellipsis ++ text_of (pretty removed_count)
    ++ text_of (if use_tokens then " tokens truncated" else " chars truncated") ++ ellipsis.
Definition _removed_units (use_tokens : bool) (removed_bytes removed_chars : Z) : Z :=
  if use_tokens then approx_tokens_from_byte_count removed_bytes else removed_chars.
Definition _split_budget (budget : Z) : Z * Z := let head := budget / 2 in (head, budget - head).

(** [b[:n].decode("utf-8", errors="ignore")] of the bytes of a text: the
    characters that end within the first [n] bytes. *)
Fixpoint bytes_before (n : Z) (t : text) : text :=
  match t with
  | [] => []
  | c :: t' => if utf8_width c <=? n then c :: bytes_before (n - utf8_width c) t' else []
  end.
(** [b[n:].decode("utf-8", errors="ignore")]: those that begin after them. *)
Fixpoint bytes_after (n : Z) (t : text) : text :=
  match t with
  | [] => []
  | c :: t' => if n <=? 0 then t else bytes_after (n - utf8_width c) t'
  end.

(** The variables of the loop of [_split_string]. *)
Record split_pos := mkPos {
  prefix_end : Z;
  suffix_start : Z;
  removed_chars : Z;
  suffix_started : bool;
  idx : Z;
}.
Definition split_char (beginning_bytes tail_start_target : Z) (p : split_pos) (ch : Z) : split_pos :=
  let char_end := idx p + utf8_width ch in
  if char_end <=? beginning_bytes
  then mkPos char_end (suffix_start p) (removed_chars p) (suffix_started p) char_end
  else if tail_start_target <=? idx p then
    if suffix_started p then mkPos (prefix_end p) (suffix_start p) (removed_chars p) true char_end
    else mkPos (prefix_end p) (idx p) (removed_chars p) true char_end
  else mkPos (prefix_end p) (suffix_start p) (removed_chars p + 1) (suffix_started p) char_end.

Definition _split_string (s : text) (beginning_bytes end_bytes : Z) : Z * text * text :=
  match s with
  | [] => (0, [], [])
  | _ =>
      let total := utf8_len s in
      let tail_start_target := if total >? end_bytes then total - end_bytes else 0 in
      let p := foldl (split_char beginning_bytes tail_start_target) (mkPos 0 total 0 false 0) s in
      let start := if suffix_start p <? prefix_end p then prefix_end p else suffix_start p in
      (removed_chars p, bytes_before (prefix_end p) s, bytes_after start s)
  end.

Definition _truncate_with_byte_estimate (s : text) (max_bytes : Z) (use_tokens : bool) : text :=
  match s with
  | [] => []
  | _ =>
      let total_chars := Z.of_nat (length s) in
      let total_bytes := utf8_len s in
      if max_bytes =? 0
      then _format_truncation_marker use_tokens (_removed_units use_tokens total_bytes total_chars)
      else if total_bytes <=? max_bytes then s
      else
        let '(left_budget, right_budget) := _split_budget max_bytes in
        let '(removed, before, after) := _split_string s left_budget right_budget in
        before ++ _format_truncation_marker use_tokens
                  (_removed_units use_tokens (total_bytes - max_bytes) removed) ++ after
  end.

Definition truncate_middle_with_token_budget (s : text) (max_tokens : Z) : text * option Z :=
  match s with
  | [] => ([], None)
  | _ =>
      if (0 <? max_tokens) && (utf8_len s <=? approx_bytes_for_tokens max_tokens) then (s, None)
      else
        let truncated := _truncate_with_byte_estimate s (approx_bytes_for_tokens max_tokens) true in
        (truncated, if bool_decide (truncated = s) then None else Some (approx_token_count s))
  end.
Definition truncate_text_tokens (content : text) (max_tokens : Z) : text :=
  (truncate_middle_with_token_budget content max_tokens).1.

Section messages.
Context `{ContextHost}.

(** ** The text of a message *)

(** [btype in (None, "text", "input_text", "output_text")] *)
Definition is_text_type (v : option value) : bool :=
  match v with
  | None | Some VNull => true
  | _ => vis v "text" || vis v "input_text" || vis v "output_text"
  end.
(** [str(d.get(k1) or d.get(k2) or "")] *)
Definition text_or_output (d : vmap) : text := first_str d ["text"; "output"]%string [].

Definition message_piece (v : value) : option text :=
  match v with
  | VStr [] => None
  | VStr t => Some t
  | VMap d => match text_or_output d with
              | [] => None
              | t => if is_text_type (vget d "type") then Some t else None
              end
  | _ => None
  end.
Definition _message_text (content : option value) : text :=
  match content with
  | None | Some VNull => []
  | Some (VStr t) => t
  | Some (VList l) => join_text newline (omap message_piece l)
  | Some v => str_of_value v
  end.

Definition image_label (d : vmap) : text :=
  text_of "[image: " ++ first_str d ["name"%string] (text_of "image attachment") ++ text_of "]".
(** One block of an output; [None] is the error on a list of images, which has
    no name to ask for. *)
Definition output_piece (item : value) : option text :=
  if negb (image_token_reserve item =? 0) then
    match item with VMap d => Some (image_label d) | _ => None end
  else
    match item with
    | VMap d => match vget d "text" with
                | None | Some VNull => Some (str_of_value item)
                | Some v => Some (str_of v)
                end
    | VStr t => Some t
    | _ => Some (str_of_value item)
    end.
Definition _tool_output_text (output : value) : option text :=
  match output with
  | VStr t => Some t
  | VList l => match mapM output_piece l with
               | Some parts => Some (join_text newline parts)
               | None => None
               end
  | VNull => Some []
  | v => Some (str_of_value v)
  end.

(** [item.get("name") or "unknown_tool"] *)
Definition entry_label (d : vmap) : text := first_str d ["name"%string] (text_of "unknown_tool").

(** What one item of a message adds: nothing, or a piece. *)
Definition summary_piece (item : value) : option (option text) :=
  match item with
  | VStr [] => Some None
  | VStr t => Some (Some t)
  | VMap d =>
      let btype := vget d "type" in
      if is_text_type btype then
        Some (match text_or_output d with [] => None | t => Some t end)
      else if negb (image_token_reserve item =? 0) && vis btype "data" then
        Some (Some (image_label d))
      else if vis btype "thinking" then
        Some (match str_or_empty (vget d "thinking") with
              | [] => None
              | t => Some (text_of "[thinking]" ++ newline ++ t)
              end)
      else if vis btype "tool_call" || vis btype "tool_use" then
        Some (Some (text_of "[tool_call " ++ entry_label d ++ text_of "] arguments: "
                      ++ str_or_empty (vget d "input")))
      else if vis btype "tool_result" then
        let out := match vget d "output" with
                   | Some VNull | None => default (VStr []) (vget d "content")
                   | Some v => v
                   end in
        match _tool_output_text out with
        | Some t => Some (Some (text_of "[tool_result " ++ entry_label d ++ text_of "]"
                                  ++ newline ++ t))
        | None => None
        end
      else Some None
  | _ => Some None
  end.

Definition render_content_for_summary (content : option value) : option text :=
  match content with
  | None | Some VNull => Some []
  | Some (VStr t) => Some t
  | Some (VList l) => match mapM summary_piece l with
                      | Some pieces => Some (join_text newline (omap id pieces))
                      | None => None
                      end
  | Some v => Some (str_of_value v)
  end.

Definition summary_head : text := SUMMARY_PREFIX ++ newline.
Definition is_summary_message (t : text) : bool :=
  bool_decide (take (length summary_head) t = summary_head).
Definition _is_summary_row (row : vmap) : bool :=
  match vget row SESSION_CONTEXT_META_KEY with
  | Some (VMap meta) => vis (vget meta "kind") KIND_COMPACTION
  | _ => false
  end
  || role_is row "user" && is_summary_message (_message_text (vget row "content")).

(** ** What is summarized and what is kept *)

Definition estimate_content_tokens (content : option value) : option Z :=
  match render_content_for_summary content with
  | Some t => Some (approx_token_count t + match content with
                                           | Some v => image_token_reserve v
                                           | None => 0
                                           end)
  | None => None
  end.
Definition _row_tokens (row : vmap) : option Z := estimate_content_tokens (vget row "content").

(** [_tool_call_ids]: the calls of a row and the results in it. *)
Definition is_call (b : vmap) : bool := type_is b "tool_call" || type_is b "tool_use".
Definition _tool_call_ids (row : vmap) : list text * list text :=
  let bs := row_blocks row in
  (map block_id (List.filter is_call bs),
   map block_id (List.filter (λ b, negb (is_call b) && type_is b "tool_result") bs)).

(** The calls that are still open after one more row. *)
Definition pending_step (pending : gset text) (row : vmap) : gset text :=
  let '(calls, results) := _tool_call_ids row in
  (pending ∪ list_to_set calls) ∖ list_to_set results.
Fixpoint balanced_from (pending : gset text) (rows : list vmap) : list bool :=
  bool_decide (pending = ∅) ::
  match rows with
  | [] => []
  | row :: rows' => balanced_from (pending_step pending row) rows'
  end.
Definition balanced_before (rows : list vmap) : list bool := balanced_from ∅ rows.

(** [tokens_from[i]]: the tokens of the rows from [i] on. *)
Fixpoint tokens_from (tokens : list Z) : list Z :=
  match tokens with
  | [] => [0]
  | n :: tokens' => match tokens_from tokens' with
                    | (m :: _) as l => (m + n) :: l
                    | [] => []
                    end
  end.

(** The row may begin what is kept. *)
Definition may_begin (row : vmap) : bool :=
  let role := row_role row in
  negb (bool_decide (role = text_of "tool"))
  && negb ((bool_decide (role = text_of "user") || bool_decide (role = text_of "human"))
           && _is_summary_row row).

(** The loop over the indices. *)
Fixpoint find_cut (index : nat) (rows : list vmap) (balanced : list bool) (sums : list Z)
    (budget : Z) : nat :=
  match rows, balanced, sums with
  | row :: rows', ok :: balanced', n :: sums' =>
      if may_begin row && ok && (n <=? budget) then index
      else find_cut (S index) rows' balanced' sums' budget
  | _, _, _ => index
  end.

Definition split_history_for_compaction (history : list vmap) (keep_recent_tokens : Z) :
    option (list vmap * list vmap) :=
  let rows := explode_history_rows history in
  match rows with
  | [] => Some ([], [])
  | _ =>
      let budget := Z.max 0 keep_recent_tokens in
      match mapM _row_tokens rows with
      | Some tokens =>
          let cut := find_cut 0 rows (balanced_before rows) (tokens_from tokens) budget in
          Some (take cut rows, drop cut rows)
      | None => None
      end
  end.

(** ** Building the compacted history *)

Definition format_summary_text (summary_suffix : text) : text :=
  SUMMARY_PREFIX ++ newline ++ summary_suffix.
Definition summary_item (summary : text) : ContextItem :=
  make_text_context_item summary "compaction:summary" KIND_COMPACTION "harness:compaction" "system"
    0 850 20000 POLICY_HEAD_TAIL "user" "checkpoint".
Definition build_compacted_history (summary_text : text) (recent : list vmap) : list vmap :=
  let summary := match summary_text with [] => text_of "(no summary available)" | t => t end in
  [("role"%string, VStr (text_of "user")); ("content"%string, VStr summary);
   (SESSION_CONTEXT_META_KEY, VMap (to_manifest (summary_item summary)))] :: recent.

(** [_summarize_without_checkpoint], [summarize] being the request to the model. *)
Definition _summarize_without_checkpoint (summarize : list vmap → option text) (keep : Z)
    (history : list vmap) : option (list vmap) :=
  match split_history_for_compaction history keep with
  | Some ([], _) | None => None
  | Some (older, recent) =>
      match summarize older with
      | None | Some [] => None
      | Some summary => Some (build_compacted_history (format_summary_text summary) recent)
      end
  end.

End messages.
End Compaction.
