(* ===== verification/CompactionProps.v ===== *)
(** * Compacting a history: lemmas

    What the loop of [_split_string] has split so far, the calls that are open
    before a row, the sums of tokens, the first index the loop of
    [split_history_for_compaction] takes. *)

From S2P Require Import Prelude PyDict ContextIR ContextIRProps ModelSteps HistoryRows Compaction.
From stdpp Require Import pretty.

#[local] Open Scope Z_scope.

Import ContextIR ContextIRProps ModelSteps HistoryRows Compaction.

(** ** Bytes of texts *)

Lemma utf8_width_pos c : 0 < utf8_width c.
Proof. unfold utf8_width. repeat case_match; lia. Qed.

Lemma utf8_len_nonneg t : 0 <= utf8_len t.
Proof. induction t as [|c t IH]; cbn; [lia|]. pose proof (utf8_width_pos c). unfold utf8_len in IH. lia. Qed.

Lemma utf8_len_cons c t : utf8_len (c :: t) = utf8_width c + utf8_len t.
Proof. reflexivity. Qed.

Lemma bytes_before_app a b : bytes_before (utf8_len a) (a ++ b) = a.
Proof.
  induction a as [|c a IH].
  - destruct b as [|c b]; [done|]. cbn. pose proof (utf8_width_pos c).
    destruct (Z.leb_spec (utf8_width c) 0); [lia|done].
  - cbn [app bytes_before]. rewrite utf8_len_cons. pose proof (utf8_len_nonneg a).
    destruct (Z.leb_spec (utf8_width c) (utf8_width c + utf8_len a)); [|lia].
    f_equal. by replace (utf8_width c + utf8_len a - utf8_width c) with (utf8_len a) by lia.
Qed.

Lemma bytes_after_app a b : bytes_after (utf8_len a) (a ++ b) = b.
Proof.
  induction a as [|c a IH]; [by destruct b|].
  cbn [app bytes_after]. rewrite utf8_len_cons. pose proof (utf8_len_nonneg a). pose proof (utf8_width_pos c).
  destruct (Z.leb_spec (utf8_width c + utf8_len a) 0); [lia|].
  by replace (utf8_width c + utf8_len a - utf8_width c) with (utf8_len a) by lia.
Qed.

(** ** [_split_string] *)

Section splitting.
Context (head tail_start total : Z) (Hhead : 0 <= head) (Htail : 0 <= tail_start).

(** The text read so far is a head, a middle that is cut out, and a tail, and no
    character of the middle could have been kept. *)
Record split_inv (pre : text) (p : split_pos) (a m z : text) : Prop := {
  si_text : pre = a ++ m ++ z;
  si_idx : idx p = utf8_len pre;
  si_head : prefix_end p = utf8_len a;
  si_fits : utf8_len a <= head;
  si_full : m ++ z ≠ [] → head < utf8_len pre;
  si_removed : removed_chars p = Z.of_nat (length m);
  si_first : ∀ c m', m = c :: m' → head < utf8_len a + utf8_width c;
  si_last : ∀ c m', m = m' ++ [c] → utf8_len a + utf8_len m' < tail_start;
  si_start : match z with
             | [] => suffix_started p = false ∧ suffix_start p = total
             | _ => suffix_started p = true ∧ suffix_start p = utf8_len (a ++ m) ∧
                    tail_start <= utf8_len (a ++ m)
             end;
}.

Lemma split_char_inv pre p a m z ch :
  split_inv pre p a m z →
  ∃ a' m' z', split_inv (pre ++ [ch]) (split_char head tail_start p ch) a' m' z'.
Proof.
  intros [Ht Hi Hh Hf Hfull Hr Hfirst Hlast Hst]. unfold split_char.
  assert (Hone : utf8_len (pre ++ [ch]) = utf8_len pre + utf8_width ch)
    by (rewrite utf8_len_app; cbn; lia).
  pose proof (utf8_width_pos ch) as Hw.
  destruct (Z.leb_spec (idx p + utf8_width ch) head) as [Hle|Hgt].
  { destruct (m ++ z) as [|x l] eqn:Emz; [|exfalso; assert (head < utf8_len pre) by (by apply Hfull); lia].
    apply app_eq_nil in Emz as [-> ->]. rewrite app_nil_r in Ht. subst a.
    exists (pre ++ [ch]), [], []. destruct Hst as [Hst1 Hst2].
    split; cbn -[utf8_len]; rewrite ?app_nil_r; [done|lia|lia|lia|done|done|done|by intros c [|? ?]|done]. }
  destruct (Z.leb_spec tail_start (idx p)) as [Hts|Hts].
  - assert (Hstart : suffix_started p = true ∧ z ≠ [] ∨ suffix_started p = false ∧ z = []).
    { destruct z; [right|left]; by destruct Hst. }
    exists a, m, (z ++ [ch]). destruct Hstart as [[Es Hz]|[Es ->]]; rewrite Es;
      (split; cbn -[utf8_len]; [by rewrite Ht, <- !app_assoc|lia|done|done|intros _; lia|done|done|done|]).
    + destruct z as [|x z]; [done|]. cbn [app]. destruct Hst as (_ & Hs1 & Hs2). done.
    + cbn [app]. split_and!; [done|..].
      * rewrite Hi, Ht. by rewrite !app_nil_r.
      * rewrite Ht, !app_nil_r in Hi. lia.
  - destruct z as [|x z].
    2:{ exfalso. destruct Hst as (_ & _ & Hs). rewrite Ht in Hi. rewrite app_assoc, utf8_len_app in Hi.
        pose proof (utf8_len_nonneg (x :: z)). lia. }
    rewrite app_nil_r in Ht. exists a, (m ++ [ch]), []. split; cbn -[utf8_len].
    + by rewrite Ht, app_nil_r, <- app_assoc.
    + lia.
    + done.
    + done.
    + intros _. lia.
    + rewrite length_app. cbn. lia.
    + intros c m'. destruct m as [|c0 m0]; cbn [app].
      * intros [= <- <-]. rewrite Ht, app_nil_r in Hi. lia.
      * intros [= <- _]. by eapply Hfirst.
    + intros c m' [-> _]%app_inj_tail. rewrite Ht, utf8_len_app in Hi. lia.
    + exact Hst.
Qed.

Lemma split_fold_inv rest pre p a m z :
  split_inv pre p a m z →
  ∃ a' m' z', split_inv (pre ++ rest) (foldl (split_char head tail_start) p rest) a' m' z'.
Proof.
  revert pre p a m z. induction rest as [|c rest IH]; intros pre p a m z Hi; cbn [foldl].
  { rewrite app_nil_r. by exists a, m, z. }
  apply (split_char_inv _ _ _ _ _ c) in Hi as (a' & m' & z' & Hi).
  change (c :: rest) with ([c] ++ rest). rewrite app_assoc. by eapply IH.
Qed.

Lemma split_start_inv : split_inv [] (mkPos 0 total 0 false 0) [] [] [].
Proof. by split; cbn; try lia; try done; intros c [|? ?]. Qed.
End splitting.

(** The head and the tail are the longest ones that fit. *)
Lemma split_string_parts s hb eb :
  0 <= hb → 0 <= eb → s ≠ [] →
  ∃ a m z, s = a ++ m ++ z ∧ _split_string s hb eb = (Z.of_nat (length m), a, z) ∧
    utf8_len a <= hb ∧ utf8_len z <= eb ∧
    (∀ c m', m = c :: m' → hb < utf8_len (a ++ [c])) ∧
    (∀ c m', m = m' ++ [c] → eb < utf8_len (c :: z)).
Proof.
  intros Hh He Hs. unfold _split_string. destruct s as [|c0 s0] eqn:Es; [done|]. rewrite <- Es in *.
  clear Es Hs. cbv zeta. set (ts := if utf8_len s >? eb then utf8_len s - eb else 0).
  pose proof (utf8_len_nonneg s) as Hn.
  assert (Hts : 0 <= ts) by (subst ts; destruct (Z.gtb_spec (utf8_len s) eb); lia).
  edestruct (split_fold_inv hb ts (utf8_len s)) with (rest := s) as (a & m & z & [Ht Hi Hpe Hf Hfull Hr Hfirst Hlast Hst]);
    [done..|by apply split_start_inv|].
  cbn [app] in *. set (p := foldl _ _ _) in *. exists a, m, z.
  assert (Hz : utf8_len z <= eb ∧ bytes_after (if suffix_start p <? prefix_end p
                                   then prefix_end p else suffix_start p) s = z).
  { pose proof (utf8_len_nonneg a). pose proof (utf8_len_nonneg m). destruct z as [|x z].
    - destruct Hst as [_ ->]. rewrite Hpe. rewrite app_nil_r in Ht.
      assert (utf8_len s = utf8_len a + utf8_len m) by (rewrite Ht; apply utf8_len_app).
      destruct (Z.ltb_spec (utf8_len s) (utf8_len a)); [lia|]. split; [cbn; lia|].
      rewrite <- (app_nil_r s) at 2. apply bytes_after_app.
    - destruct Hst as (_ & -> & Hge). rewrite Hpe, utf8_len_app in *.
      destruct (Z.ltb_spec (utf8_len a + utf8_len m) (utf8_len a)); [lia|].
      rewrite <- utf8_len_app. split.
      + assert (utf8_len s = utf8_len a + utf8_len m + utf8_len (x :: z))
          by (rewrite Ht, !utf8_len_app; lia).
        subst ts. destruct (Z.gtb_spec (utf8_len s) eb); lia.
      + rewrite Ht, app_assoc at 1. apply bytes_after_app. }
  destruct Hz as [Hz1 Hz2]. rewrite Hz2, Hr, Hpe. split_and!; [done| |done|done|..].
  - rewrite Ht. by rewrite bytes_before_app.
  - intros c m' E. rewrite utf8_len_app. cbn. specialize (Hfirst c m' E). lia.
  - intros c m' E. specialize (Hlast c m' E). subst m.
    assert (utf8_len s = utf8_len a + (utf8_len m' + utf8_width c) + utf8_len z)
      by (rewrite Ht, !utf8_len_app; cbn; lia).
    rewrite utf8_len_cons. pose proof (utf8_len_nonneg a). pose proof (utf8_len_nonneg m').
    subst ts. destruct (Z.gtb_spec (utf8_len s) eb); lia.
Qed.

(** ** Calls and results *)

Section rows.
Context `{ContextHost}.

Definition calls_in (row : vmap) : list text := (_tool_call_ids row).1.
Definition results_of (row : vmap) : list text := (_tool_call_ids row).2.

(** Every call is answered in its row or in a later one. *)
Definition answered (rows : list vmap) : Prop :=
  ∀ pre r post k, rows = pre ++ r :: post → k ∈ calls_in r →
  ∃ r', r' ∈ r :: post ∧ k ∈ results_of r'.
(** Every result belongs to a call of its row or an earlier one. *)
Definition issued (rows : list vmap) : Prop :=
  ∀ pre r post k, rows = pre ++ r :: post → k ∈ results_of r →
  ∃ r', r' ∈ pre ++ [r] ∧ k ∈ calls_in r'.
(** No call is answered twice. *)
Definition answered_once (rows : list vmap) : Prop := NoDup (List.concat (map results_of rows)).
Definition paired (rows : list vmap) : Prop := answered rows ∧ issued rows ∧ answered_once rows.

Lemma elem_of_pending_step P row k :
  k ∈ pending_step P row ↔ (k ∈ P ∨ k ∈ calls_in row) ∧ k ∉ results_of row.
Proof.
  unfold pending_step, calls_in, results_of. destruct (_tool_call_ids row) as [cs rs]. set_solver.
Qed.

(** A call is open after some rows when nothing from its row on answers it. *)
Lemma pending_fold rows P k :
  k ∈ foldl pending_step P rows ↔
    (k ∈ P ∧ ∀ r, r ∈ rows → k ∉ results_of r) ∨
    ∃ pre r post, rows = pre ++ r :: post ∧ k ∈ calls_in r ∧ ∀ r', r' ∈ r :: post → k ∉ results_of r'.
Proof.
  revert P. induction rows as [|row rows IH]; intros P; cbn [foldl].
  { split; [intros Hk; left; split; [done|by intros r ?%not_elem_of_nil]|].
    intros [[? _]|(pre & r & post & E & _)]; [done|by destruct pre]. }
  rewrite IH, elem_of_pending_step. split.
  - intros [[[[Hk|Hk] Hn] Hr]|(pre & r & post & -> & Hk & Hr)].
    + left. split; [done|]. intros r [->|?]%elem_of_cons; auto.
    + right. exists [], row, rows. split_and!; [done|done|]. intros r' [->|?]%elem_of_cons; auto.
    + right. exists (row :: pre), r, post. done.
  - intros [[Hk Hr]|(pre & r & post & E & Hk & Hr)].
    + left. split; [|intros r ?; apply Hr; by right]. split; [by left|]. apply Hr. by left.
    + destruct pre as [|r0 pre]; cbn [app] in E; injection E as -> ->.
      * left. split; [split; [by right|apply Hr; by left]|]. intros r' ?. apply Hr. by right.
      * right. by exists pre, r, post.
Qed.

Lemma pending_answered rows : foldl pending_step ∅ rows = ∅ ↔ answered rows.
Proof.
  split.
  - intros He pre r post k E Hk.
    destruct (decide (Exists (λ r', k ∈ results_of r') (r :: post))) as [Hex|Hno].
    { by apply Exists_exists in Hex. }
    exfalso. assert (Hin : k ∈ foldl pending_step ∅ rows); [|rewrite He in Hin; set_solver].
    apply pending_fold. right. exists pre, r, post. split_and!; [done..|].
    intros r' Hr' Hk'. apply Hno, Exists_exists. by exists r'.
  - intros Ha. apply set_eq. intros k. split; [|set_solver].
    intros [[Hk _]|(pre & r & post & E & Hk & Hr)]%pending_fold; [set_solver|].
    destruct (Ha _ _ _ _ E Hk) as (r' & Hin & Hk'). by destruct (Hr r' Hin).
Qed.

Lemma balanced_lookup rows P i :
  (i < length rows)%nat →
  balanced_from P rows !! i = Some (bool_decide (foldl pending_step P (take i rows) = ∅)).
Proof.
  revert P i. induction rows as [|row rows IH]; intros P i Hi; cbn in Hi; [lia|].
  destruct i as [|i]; [done|]. cbn [balanced_from take foldl]. cbn. apply IH. lia.
Qed.

Definition total_tokens (l : list Z) : Z := foldr Z.add 0 l.

Lemma tokens_from_lookup l i :
  (i <= length l)%nat → tokens_from l !! i = Some (total_tokens (drop i l)).
Proof.
  revert i. induction l as [|n l IH]; intros i Hi; cbn in Hi.
  { assert (i = 0%nat) as -> by lia. done. }
  pose proof (IH 0%nat ltac:(lia)) as H0. rewrite drop_0 in H0.
  cbn [tokens_from]. destruct (tokens_from l) as [|m l'] eqn:E; [done|]. cbn in H0. injection H0 as ->.
  destruct i as [|i]; cbn.
  - f_equal. unfold total_tokens. lia.
  - apply (IH i). lia.
Qed.

(** ** The first index the loop takes *)

Definition takes (rows : list vmap) (balanced : list bool) (sums : list Z) (budget : Z) (i : nat) : Prop :=
  ∃ row n, rows !! i = Some row ∧ balanced !! i = Some true ∧ sums !! i = Some n ∧
    may_begin row = true ∧ n <= budget.

Lemma find_cut_first rows balanced sums budget i0 :
  (length rows <= length balanced)%nat → (length rows <= length sums)%nat →
  ∃ c, find_cut i0 rows balanced sums budget = (i0 + c)%nat ∧ (c <= length rows)%nat ∧
    (c = length rows ∨ takes rows balanced sums budget c) ∧
    ∀ i, (i < c)%nat → ¬ takes rows balanced sums budget i.
Proof.
  revert balanced sums i0. induction rows as [|row rows IH]; intros balanced sums i0 Hb Hs.
  { exists 0%nat. split_and!; [cbn; lia|cbn; lia|by left|intros; lia]. }
  destruct balanced as [|ok balanced]; [cbn in Hb; lia|]. destruct sums as [|n sums]; [cbn in Hs; lia|].
  cbn [find_cut]. destruct (may_begin row && ok && (n <=? budget)) eqn:E.
  - apply andb_true_iff in E as [[E1 ->]%andb_true_iff E2%Z.leb_le].
    exists 0%nat. split_and!; [lia|lia| |intros; lia]. right. by exists row, n.
  - cbn in Hb, Hs. destruct (IH balanced sums (S i0) ltac:(lia) ltac:(lia)) as (c & -> & Hc & Ht & Hn).
    exists (S c). split_and!; [lia|cbn; lia| |].
    + destruct Ht as [->|Ht]; [by left|by right].
    + intros [|i] Hi; [|apply Hn; lia]. intros (r & n' & [= <-] & [= ->] & [= <-] & E1 & E2).
      rewrite E1 in E. cbn in E. apply Z.leb_gt in E. lia.
Qed.

Lemma balanced_length P rows : length (balanced_from P rows) = S (length rows).
Proof. revert P. induction rows as [|row rows IH]; intros P; [done|]. cbn. by rewrite IH. Qed.
Lemma tokens_from_length l : length (tokens_from l) = S (length l).
Proof.
  induction l as [|n l IH]; [done|]. cbn. destruct (tokens_from l) as [|m l']; [done|].
  cbn in *. lia.
Qed.

Lemma mapM_tokens rows tokens i :
  mapM _row_tokens rows = Some tokens → mapM _row_tokens (drop i rows) = Some (drop i tokens).
Proof.
  revert i tokens. induction rows as [|r rows IH]; intros i tokens E.
  { injection E as <-. by rewrite !drop_nil. }
  destruct i as [|i]; [done|]. cbn in E. apply bind_Some in E as (n & En & E).
  apply bind_Some in E as (ns & Ens & E). injection E as <-. cbn. by apply IH.
Qed.

(** What may be kept: the rows from here on begin a step or a turn, every call
    before them is answered before them, and they fit. *)
Definition begins_step (row : vmap) : Prop :=
  row_role row ≠ text_of "tool" ∧
  (row_role row = text_of "user" ∨ row_role row = text_of "human" → _is_summary_row row = false).
Definition legal_tail (keep : Z) (older recent : list vmap) : Prop :=
  ∃ row rest tokens, recent = row :: rest ∧ begins_step row ∧ answered older ∧
    mapM _row_tokens recent = Some tokens ∧ total_tokens tokens <= Z.max 0 keep.

Lemma may_begin_true row : may_begin row = true ↔ begins_step row.
Proof.
  unfold may_begin, begins_step. rewrite andb_true_iff, !negb_true_iff, bool_decide_eq_false, andb_false_iff,
    orb_false_iff, !bool_decide_eq_false.
  destruct (_is_summary_row row); [|tauto].
  destruct (decide (row_role row = text_of "user")); destruct (decide (row_role row = text_of "human"));
    split; intros [? Hs]; (split; [done|]); first [naive_solver|tauto].
Qed.

Lemma takes_legal rows tokens keep i :
  mapM _row_tokens rows = Some tokens → (i < length rows)%nat →
  takes rows (balanced_before rows) (tokens_from tokens) (Z.max 0 keep) i ↔
  legal_tail keep (take i rows) (drop i rows).
Proof.
  intros Et Hi. pose proof (Forall2_length _ _ _ (mapM_Some_1 _ _ _ Et)) as Hlen.
  unfold takes, legal_tail, balanced_before. rewrite balanced_lookup, tokens_from_lookup by lia. split.
  - intros (row & n & Hr & Hb & [= <-] & Hm & Hn). injection Hb as Hb%bool_decide_eq_true.
    exists row, (drop (S i) rows), (drop i tokens). split_and!; [by apply drop_S|by apply may_begin_true| |by apply mapM_tokens|done].
    by apply pending_answered.
  - intros (row & rest & ts & Hd & Hm & Ha & Hts & Hn).
    rewrite (mapM_tokens _ _ i Et) in Hts. injection Hts as <-.
    exists row, (total_tokens (drop i tokens)). split_and!; [|f_equal|done|by apply may_begin_true|done].
    + by rewrite <- (Nat.add_0_r i), <- lookup_drop, Hd.
    + by apply bool_decide_eq_true, pending_answered.
Qed.

(** ** Cutting a well-paired history *)

Lemma concat_results rows rows' :
  List.concat (map results_of (rows ++ rows')) =
  List.concat (map results_of rows) ++ List.concat (map results_of rows').
Proof. by rewrite map_app, concat_app. Qed.

Lemma elem_of_results rows k :
  k ∈ List.concat (map results_of rows) ↔ ∃ r, r ∈ rows ∧ k ∈ results_of r.
Proof.
  rewrite list_elem_of_In, in_concat. split.
  - intros (l & (r & <- & Hr)%in_map_iff & Hk). exists r. split; by apply list_elem_of_In.
  - intros (r & Hr & Hk). exists (results_of r).
    split; [by apply in_map, list_elem_of_In|by apply list_elem_of_In].
Qed.

Lemma paired_app older recent :
  paired (older ++ recent) → answered older → paired older ∧ paired recent.
Proof.
  intros (Ha & Hi & Ho) Holder. unfold answered_once in Ho. rewrite concat_results in Ho.
  apply NoDup_app in Ho as (Ho1 & Hdis & Ho2).
  split; (split; [|split; [|done]]); [done|..].
  - intros pre r post k -> Hk. eapply (Hi pre r (post ++ recent)); [by rewrite <- app_assoc|done].
  - intros pre r post k -> Hk. eapply (Ha (older ++ pre) r post); [by rewrite <- app_assoc|done].
  - intros pre r post k -> Hk.
    destruct (Hi (older ++ pre) r post k) as (r' & Hr' & Hk'); [by rewrite <- app_assoc|done|].
    rewrite <- app_assoc, elem_of_app in Hr'. destruct Hr' as [Hr'|Hr']; [|by exists r'].
    exfalso. apply list_elem_of_split in Hr' as (o1 & o2 & ->).
    destruct (Holder o1 r' o2 k eq_refl Hk') as (r2 & Hr2 & Hk2).
    apply (Hdis k); apply elem_of_results.
    + exists r2. split; [|done]. apply elem_of_app. by right.
    + exists r. split; [|done]. apply elem_of_app. right. by left.
Qed.

End rows.
