(* ===== verification/CompactionThms.v ===== *)
(** * Compacting a history: what is kept

    A truncated text keeps the longest ends that fit; a history is cut where no
    call is open, at the earliest such place that fits; a well-paired history is
    cut into well-paired ones; and a summary is always summarized again. *)

From S2P Require Import Prelude PyDict ContextIR ContextIRProps ModelSteps HistoryRows.
From S2P Require Import ModelStepsThms HistoryRowsThms Compaction CompactionProps.
From stdpp Require Import pretty.

#[local] Open Scope Z_scope.

Import ContextIR ContextIRProps ModelSteps HistoryRows Compaction.

(** C33: a text that fits the budget is returned as it is.  One that does not is
    a head, a marker with the number of tokens over the budget, and a tail: each
    end is the longest one that fits half of the bytes, so that no character
    next to the marker could have stayed; and its size before is reported. *)
Theorem truncation_keeps_ends s max_tokens :
  0 <= max_tokens →
  let '(out, original) := truncate_middle_with_token_budget s max_tokens in
  if utf8_len s <=? 4 * max_tokens then out = s ∧ original = None else
  ∃ a m z, s = a ++ m ++ z ∧
    out = a ++ _format_truncation_marker true ((utf8_len s - 4 * max_tokens + 3) / 4) ++ z ∧
    utf8_len a <= 2 * max_tokens ∧ utf8_len z <= 2 * max_tokens ∧
    (∀ c m', m = c :: m' → 2 * max_tokens < utf8_len (a ++ [c])) ∧
    (∀ c m', m = m' ++ [c] → 2 * max_tokens < utf8_len (c :: z)) ∧
    original = (if bool_decide (out = s) then None else Some (approx_token_count s)).
Proof.
  intros Hm. unfold truncate_middle_with_token_budget. destruct s as [|c0 s0] eqn:Es.
  { cbn [utf8_len foldr]. by destruct (Z.leb_spec 0 (4 * max_tokens)); [|lia]. }
  rewrite <- Es. assert (Hne : s ≠ []) by (by rewrite Es). assert (Hpos : 0 < utf8_len s).
  { rewrite Es, utf8_len_cons. pose proof (utf8_width_pos c0). pose proof (utf8_len_nonneg s0). lia. }
  unfold approx_bytes_for_tokens, APPROX_BYTES_PER_TOKEN.
  destruct (Z.leb_spec (utf8_len s) (4 * max_tokens)) as [Hle|Hgt].
  { destruct (Z.ltb_spec 0 max_tokens); [|lia]. destruct (Z.leb_spec (utf8_len s) (max_tokens * 4)); [done|lia]. }
  destruct (Z.leb_spec (utf8_len s) (max_tokens * 4)); [lia|]. rewrite andb_false_r.
  cbv zeta iota. unfold _truncate_with_byte_estimate. rewrite Es. rewrite <- Es. cbv zeta.
  unfold _removed_units, approx_tokens_from_byte_count, APPROX_BYTES_PER_TOKEN.
  destruct (Z.eqb_spec (max_tokens * 4) 0) as [E0|En0].
  - assert (max_tokens = 0) as -> by lia. destruct (Z.leb_spec (utf8_len s) 0); [lia|].
    exists [], s, []. rewrite !app_nil_r. cbn [app].
    replace (utf8_len s - 4 * 0 + 3) with (utf8_len s + 4 - 1) by lia.
    split_and!; [done|done|done|done| | |done]; intros c m' _; cbn; pose proof (utf8_width_pos c); lia.
  - destruct (Z.leb_spec (utf8_len s) (max_tokens * 4)); [lia|].
    unfold _split_budget. replace (max_tokens * 4 / 2) with (2 * max_tokens)
      by (replace (max_tokens * 4) with (2 * max_tokens * 2) by lia; by rewrite Z.div_mul).
    replace (max_tokens * 4 - 2 * max_tokens) with (2 * max_tokens) by lia.
    destruct (split_string_parts s (2 * max_tokens) (2 * max_tokens)) as (a & m & z & Ht & -> & Ha & Hz & Hf & Hl);
      [lia|lia|done|].
    destruct (Z.leb_spec (utf8_len s - max_tokens * 4) 0); [lia|].
    replace (utf8_len s - max_tokens * 4 + 4 - 1) with (utf8_len s - 4 * max_tokens + 3) by lia.
    exists a, m, z. done.
Qed.

Section rows.
Context `{ContextHost}.

Lemma split_cut history keep older recent :
  split_history_for_compaction history keep = Some (older, recent) →
  let rows := explode_history_rows history in
  ∃ tokens c, mapM _row_tokens rows = Some tokens ∧ (c <= length rows)%nat ∧
    older = take c rows ∧ recent = drop c rows ∧
    (c = length rows ∨ takes rows (balanced_before rows) (tokens_from tokens) (Z.max 0 keep) c) ∧
    ∀ i, (i < c)%nat → ¬ takes rows (balanced_before rows) (tokens_from tokens) (Z.max 0 keep) i.
Proof.
  unfold split_history_for_compaction. cbv zeta.
  set (rows := explode_history_rows history). destruct rows as [|r l] eqn:E.
  { intros [= <- <-]. exists [], 0%nat. split_and!; [done|done|done|done|by left|intros; lia]. }
  rewrite <- E. destruct (mapM _row_tokens rows) as [tokens|] eqn:Et; [|done]. intros [= <- <-].
  pose proof (Forall2_length _ _ _ (mapM_Some_1 _ _ _ Et)) as Hlen.
  destruct (find_cut_first rows (balanced_before rows) (tokens_from tokens) (Z.max 0 keep) 0)
    as (c & -> & Hc & Ht & Hn);
    [unfold balanced_before; rewrite balanced_length; lia|rewrite tokens_from_length; lia|].
  exists tokens, c. done.
Qed.

(** C14: the rows of a history are cut in two and none is lost: what is kept
    begins a turn or a step - never a result, never a summary - and fits the
    budget, every call of what is summarized has its result there, and no longer
    tail has these properties.  When nothing is kept, no tail has them. *)
Theorem compaction_keeps_longest_tail history keep older recent :
  split_history_for_compaction history keep = Some (older, recent) →
  older ++ recent = explode_history_rows history ∧
  (recent = [] ∨ legal_tail keep older recent) ∧
  ∀ pre mid, older = pre ++ mid → mid ≠ [] → ¬ legal_tail keep pre (mid ++ recent).
Proof.
  intros (tokens & c & Et & Hc & -> & -> & Ht & Hn)%split_cut.
  set (rows := explode_history_rows history) in *. split_and!.
  - apply take_drop.
  - destruct Ht as [->|Ht]; [left; apply drop_all|].
    destruct (decide (c < length rows)%nat).
    + right. by apply (takes_legal rows tokens).
    + left. apply drop_ge. lia.
  - intros pre mid E Hmid Hl.
    assert (Hlen : (length pre < c)%nat).
    { apply (f_equal length) in E. rewrite length_take, length_app in E.
      destruct mid; [done|]. cbn in E. lia. }
    apply (Hn (length pre) Hlen), (takes_legal rows tokens); [done|lia|].
    assert (Ep : rows = pre ++ (mid ++ drop c rows)) by (rewrite app_assoc, <- E; symmetry; apply take_drop).
    rewrite Ep at 1 2. by rewrite take_app_length, drop_app_length.
Qed.

(** C30: cutting never separates a call from its result: of a history in which
    every call is answered, once, and every result has its call, both what is
    summarized and what is kept are again such histories. *)
Theorem compaction_keeps_pairing history keep older recent :
  paired (explode_history_rows history) →
  split_history_for_compaction history keep = Some (older, recent) → paired older ∧ paired recent.
Proof.
  intros Hp (tokens & c & Et & Hc & -> & -> & Ht & _)%split_cut.
  set (rows := explode_history_rows history) in *. destruct (decide (c = length rows)) as [->|Hne].
  - rewrite take_ge, drop_all by lia. split; [done|].
    split; [|split; [|constructor]]; by intros [|? ?] r post k E.
  - destruct Ht as [|Ht]; [done|]. apply (takes_legal rows tokens) in Ht; [|done|lia].
    destruct Ht as (_ & _ & _ & _ & _ & Ha & _). apply paired_app; [by rewrite take_drop|done].
Qed.

Lemma summary_may_not_begin summary_text recent :
  ∃ row, build_compacted_history summary_text recent = row :: recent ∧
    may_begin row = false ∧ explode_row row = [row].
Proof.
  unfold build_compacted_history. cbv zeta. eexists. split; [reflexivity|]. split; [reflexivity|].
  apply explode_row_kept. by right; left.
Qed.

(** summaries do not pile up: when a compacted history is compacted again,
    its summary is the first row of what is summarized, so that the new summary
    takes its place. *)
Theorem summary_is_summarized_again summary_text recent keep older recent' :
  split_history_for_compaction (build_compacted_history summary_text recent) keep = Some (older, recent') →
  ∃ rest, older = take 1 (build_compacted_history summary_text recent) ++ rest ∧
    rest ++ recent' = explode_history_rows recent.
Proof.
  destruct (summary_may_not_begin summary_text recent) as (row & -> & Hb & He).
  intros (tokens & c & Et & Hc & -> & -> & Ht & _)%split_cut.
  assert (Er : explode_history_rows (row :: recent) = row :: explode_history_rows recent)
    by (unfold explode_history_rows; cbn; by rewrite He).
  rewrite Er in *. destruct c as [|c].
  - exfalso. destruct Ht as [E|(r & n & [= <-] & _ & _ & E & _)]; [discriminate E|congruence].
  - exists (take c (explode_history_rows recent)). split; [done|]. exact (take_drop c (explode_history_rows recent)).
Qed.

End rows.

(** ** Witnesses *)

Lemma truncation_keeps_ends_witness :
  let s := text_of "abcdefghijklmnopqrstuvwxyz" in
  let '(out, original) := truncate_middle_with_token_budget s 2 in
  if utf8_len s <=? 4 * 2 then out = s ∧ original = None else
  ∃ a m z, s = a ++ m ++ z ∧
    out = a ++ _format_truncation_marker true ((utf8_len s - 4 * 2 + 3) / 4) ++ z ∧
    utf8_len a <= 2 * 2 ∧ utf8_len z <= 2 * 2 ∧
    (∀ c m', m = c :: m' → 2 * 2 < utf8_len (a ++ [c])) ∧
    (∀ c m', m = m' ++ [c] → 2 * 2 < utf8_len (c :: z)) ∧
    original = (if bool_decide (out = s) then None else Some (approx_token_count s)).
Proof. apply (truncation_keeps_ends (text_of "abcdefghijklmnopqrstuvwxyz") 2). lia. Defined.

Definition user_row (t : string) : vmap :=
  [("role"%string, VStr (text_of "user")); ("content"%string, VStr (text_of t))].
(** A question, and an answer whose one row holds a call, its result and a text. *)
Definition sample_history : list vmap :=
  [user_row "find the report of last week and read it";
   mk_row "assistant" [sample_call "a"; result_block (text_of "a") (text_of "search")
                         (VStr (text_of "found")) (text_of "success");
                       text_block (text_of "here it is")];
   user_row "thanks"].

Lemma compaction_keeps_longest_tail_witness :
  ∃ older recent, split_history_for_compaction sample_history 6 = Some (older, recent) ∧
    length recent = 2%nat ∧ older ++ recent = explode_history_rows sample_history.
Proof.
  destruct (split_history_for_compaction sample_history 6) as [[older recent]|] eqn:E;
    [|vm_compute in E; discriminate E].
  exists older, recent. split; [reflexivity|]. split; [|exact (proj1 (compaction_keeps_longest_tail _ _ _ _ E))].
  vm_compute in E. injection E as <- <-. reflexivity.
Defined.

(** Pairing, as a test on a concrete history. *)
Fixpoint answered_b `{ContextHost} (rows : list vmap) : bool :=
  match rows with
  | [] => true
  | r :: rows' =>
      forallb (λ k, existsb (λ r', bool_decide (k ∈ results_of r')) rows) (calls_in r) && answered_b rows'
  end.
Fixpoint issued_b `{ContextHost} (before rows : list vmap) : bool :=
  match rows with
  | [] => true
  | r :: rows' =>
      forallb (λ k, existsb (λ r', bool_decide (k ∈ calls_in r')) (before ++ [r])) (results_of r)
      && issued_b (before ++ [r]) rows'
  end.

Lemma answered_b_ok `{ContextHost} rows : answered_b rows = true → answered rows.
Proof.
  induction rows as [|r0 rows IH]; intros Hb pre r post k E Hk; [by destruct pre|].
  cbn [answered_b] in Hb. apply andb_true_iff in Hb as [H1 H2]. destruct pre as [|r1 pre]; injection E as <- ->.
  - rewrite forallb_forall in H1. apply list_elem_of_In in Hk. apply H1, existsb_exists in Hk as (r' & Hr' & Hk).
    exists r'. split; [by apply list_elem_of_In|by apply bool_decide_eq_true in Hk].
  - by eapply IH.
Qed.
Lemma issued_b_ok `{ContextHost} before rows :
  issued_b before rows = true →
  ∀ pre r post k, rows = pre ++ r :: post → k ∈ results_of r →
  ∃ r', r' ∈ (before ++ pre) ++ [r] ∧ k ∈ calls_in r'.
Proof.
  revert before. induction rows as [|r0 rows IH]; intros before Hb pre r post k E Hk; [by destruct pre|].
  cbn [issued_b] in Hb. apply andb_true_iff in Hb as [H1 H2]. destruct pre as [|r1 pre]; injection E as <- ->.
  - rewrite forallb_forall in H1. apply list_elem_of_In in Hk. apply H1, existsb_exists in Hk as (r' & Hr' & Hk).
    exists r'. rewrite app_nil_r. split; [by apply list_elem_of_In|by apply bool_decide_eq_true in Hk].
  - destruct (IH _ H2 pre r post k eq_refl Hk) as (r' & Hr' & Hk'). exists r'.
    by rewrite <- (app_assoc before) in Hr'.
Qed.

Lemma sample_paired : paired (explode_history_rows sample_history).
Proof.
  split; [apply answered_b_ok; reflexivity|]. split.
  - intros pre r post k E Hk. apply (issued_b_ok [] (explode_history_rows sample_history)) with (post := post); [reflexivity|done..].
  - apply (bool_decide_unpack _). vm_compute. exact I.
Qed.

Lemma compaction_keeps_pairing_witness :
  ∃ older recent, split_history_for_compaction sample_history 6 = Some (older, recent) ∧
    paired older ∧ paired recent.
Proof.
  destruct (split_history_for_compaction sample_history 6) as [[older recent]|] eqn:E;
    [|vm_compute in E; discriminate E].
  exists older, recent. split; [reflexivity|].
  exact (compaction_keeps_pairing _ _ _ _ sample_paired E).
Defined.

Lemma summary_is_summarized_again_witness :
  let history := build_compacted_history (text_of "so far") sample_history in
  ∃ older recent, split_history_for_compaction history 10000 = Some (older, recent) ∧
    ∃ rest, older = take 1 history ++ rest ∧ rest ++ recent = explode_history_rows sample_history.
Proof.
  cbv zeta. destruct (split_history_for_compaction (build_compacted_history (text_of "so far") sample_history) 10000)
    as [[older recent]|] eqn:E; [|vm_compute in E; discriminate E].
  exists older, recent. split; [reflexivity|].
  exact (summary_is_summarized_again _ _ _ _ _ E).
Defined.
