(* ===== verification/Lineage.v ===== *)
(** * Compaction checkpoints of a chat: [core/services/chat_service.py]

    A summarizer takes a lease with an exact watermark of the messages it has
    read, works without the database, and publishes its summary by a
    compare-and-set of the lineage; rewriting the history invalidates it.  The
    table [chat_compaction_states] stands beside the tables of [Db]; every
    method is one transaction.  Also here: which rows
    [core/services/compaction_service.py] replays beside a checkpoint. *)

From S2P Require Import Prelude Db RunJournal PyString Program ChatSequencer QueuedHandoff.

#[local] Open Scope Z_scope.

(** [chat_compaction_states], the lineage of a chat and the lease of its writer. *)
Module ChatCompactionState.
Record t := mk {
  chat_id : string;
  active_checkpoint_id : option string;
  checkpoint_version : Z;
  covered_seq : Z;
  lease_owner : option string;
  lease_expires_at : option Z;
  updated_at : Z
}.
#[global] Instance eta_row : Eta t := λ r,
  mk (chat_id r) (active_checkpoint_id r) (checkpoint_version r) (covered_seq r)
     (lease_owner r) (lease_expires_at r) (updated_at r).
End ChatCompactionState.

Record CDb := mkCDb {
  base : Db;
  compaction_states : gmap string ChatCompactionState.t
}.
#[export] Instance eta_cdb : Eta CDb := λ d, mkCDb (base d) (compaction_states d).

Module Lineage.
Module M := ChatMessage.
Module St := ChatCompactionState.

Definition COMPACTION_CHECKPOINT_KIND : string := "compaction_summary".

Definition put_state (cdb : CDb) (chat_id : string) (s : St.t) : CDb :=
  cdb <| compaction_states := <[chat_id := s]> (compaction_states cdb) |>.

(** The foreign key [active_checkpoint_id], [ON DELETE SET NULL]. *)
Definition drop_references (cdb : CDb) : CDb :=
  cdb <| compaction_states :=
    (λ s, match St.active_checkpoint_id s with
          | Some id => match ChatSequencer.get_message (base cdb) id with
                       | Some _ => s
                       | None => s <| St.active_checkpoint_id := None |>
                       end
          | None => s
          end) <$> compaction_states cdb |>.
(** A change of the other tables. *)
Definition with_base (cdb : CDb) (db : Db) : CDb := drop_references (cdb <| base := db |>).

(** [if column:] of a string column. *)
Definition set_str (o : option string) : bool :=
  match o with Some s => negb (bool_decide (s = "")) | None => false end.

(** [int(s)] of a string: a sign, digits, single underscores between them. *)
Fixpoint digits_of (acc : Z) (need : bool) (s : string) : option Z :=
  match s with
  | EmptyString => if need then None else Some acc
  | String c s' =>
      let n := Z.of_N (Ascii.N_of_ascii c) in
      if (48 <=? n) && (n <=? 57) then digits_of (acc * 10 + (n - 48)) false s'
      else if (n =? 95) && negb need then digits_of acc true s'
      else None
  end.
Definition int_of_str (s : string) : option Z :=
  match PyString.strip s with
  | EmptyString => None
  | (String c s') as t =>
      let n := Z.of_N (Ascii.N_of_ascii c) in
      if n =? 45 then Z.opp <$> digits_of 0 true s'
      else if n =? 43 then digits_of 0 true s'
      else digits_of 0 true t
  end.
Definition int_of (v : json) : result exn Z :=
  match v with
  | JInt z => Ok z
  | JBool b => Ok (if b then 1 else 0)
  | JStr s => match int_of_str s with Some z => Ok z | None => Err (ValueError "invalid literal for int()") end
  | _ => Err (OtherError "TypeError")
  end.

(** An entry that is there and not [None]. *)
Definition entry (d : dict) (k : string) : option json :=
  match dict_get d k with Some JNull | None => None | Some v => Some v end.

Definition is_checkpoint (m : M.t) : bool :=
  bool_decide (M.role m = "system") &&
  json_is (dict_get (M.extra_data m) "kind") COMPACTION_CHECKPOINT_KIND.

Definition seq_leb (a b : M.t) : bool := M.chat_seq a <=? M.chat_seq b.
(** [ORDER BY chat_seq DESC, message_id DESC] *)
Definition newest_first (a b : M.t) : bool :=
  (M.chat_seq b <? M.chat_seq a)
  || ((M.chat_seq a =? M.chat_seq b) && String.leb (M.message_id b) (M.message_id a)).

Definition chat_rows (db : Db) (chat_id : string) : list M.t :=
  List.filter (ChatSequencer.in_chat chat_id) (chat_messages db).

(** ** Reading the lineage *)

Definition _latest_compaction_checkpoint_fallback (db : Db) (chat_id : string) : option M.t :=
  List.find (λ m, json_is (dict_get (M.extra_data m) "kind") COMPACTION_CHECKPOINT_KIND)
    (take 20 (order_by newest_first
       (List.filter (λ m, bool_decide (M.role m = "system")) (chat_rows db chat_id)))).

(** [extra.get("covered_seq")], else [extra.get("covers_up_to_chat_seq")] *)
Definition watermark (extra : dict) : option json :=
  match entry extra "covered_seq" with
  | Some v => Some v
  | None => entry extra "covers_up_to_chat_seq"
  end.
Definition _checkpoint_covered_seq (checkpoint : option M.t) : result exn Z :=
  match checkpoint with
  | Some c => match watermark (M.extra_data c) with
              | Some v => with? n := int_of v in Ok (Z.max 0 n)
              | None => Ok 0
              end
  | None => Ok 0
  end.

Definition has_covered_seq (m : M.t) : bool := negb (is_null (entry (M.extra_data m) "covered_seq")).
Definition get_latest_compaction_checkpoint (cdb : CDb) (chat_id : string) : option M.t :=
  let found :=
    match compaction_states cdb !! chat_id with
    | Some s => if set_str (St.active_checkpoint_id s)
                then match St.active_checkpoint_id s with
                     | Some id => ChatSequencer.get_message (base cdb) id
                     | None => None
                     end
                else None
    | None => _latest_compaction_checkpoint_fallback (base cdb) chat_id
    end in
  match found with Some m => if has_covered_seq m then Some m else None | None => None end.

(** ** Preparing it *)

(** [chat_seq] is not null, so no row is left to number. *)
Definition _ensure_message_sequences (now : Z) (db : Db) (chat_id : string) : Db :=
  match chat_sessions db !! chat_id with
  | Some s =>
      let next := Z.max (default 1 (ChatSession.next_message_seq s)) (max_next_seq db chat_id) in
      if bool_decide (ChatSession.next_message_seq s = Some next) then db
      else db <| chat_sessions :=
        <[chat_id := s <| ChatSession.next_message_seq := Some next |>
                       <| ChatSession.updated_at := now |>]> (chat_sessions db) |>
  | None => db
  end.

(** A new row, with the foreign key and the checks of the table. *)
Definition insert_state (cdb : CDb) (s : St.t) : result exn CDb :=
  if is_null (chat_sessions (base cdb) !! St.chat_id s)
     || (St.checkpoint_version s <? 0) || (St.covered_seq s <? 0)
  then Err IntegrityError else Ok (put_state cdb (St.chat_id s) s).

Definition _ensure_compaction_state (now : Z) (cdb : CDb) (chat_id : string)
    : result exn (St.t * CDb) :=
  match compaction_states cdb !! chat_id with
  | Some s => Ok (s, cdb)
  | None =>
      let checkpoint := _latest_compaction_checkpoint_fallback (base cdb) chat_id in
      let fresh := St.mk chat_id None 0 0 None None now in
      let exact := match checkpoint with Some c => negb (is_null (watermark (M.extra_data c))) | None => false end in
      with? state :=
        match checkpoint with
        | Some c =>
            if exact then
              with? version := match dict_get (M.extra_data c) "checkpoint_version" with
                               | Some v => if truthy v then int_of v else Ok 1
                               | None => Ok 1
                               end in
              with? covered := _checkpoint_covered_seq checkpoint in
              Ok (St.mk chat_id (Some (M.message_id c)) version covered None None now)
            else Ok fresh
        | None => Ok fresh
        end in
      with? cdb' := insert_state cdb state in
      Ok (state, cdb')
  end.

(** ** Taking a snapshot *)

Record CompactionSourceRow := mkSource {
  sr_message_id : string;
  sr_chat_seq : Z;
  sr_role : string;
  sr_content : text;
  sr_extra_data : dict
}.
Record CompactionSnapshot := mkSnapshot {
  sn_chat_id : string;
  sn_owner : string;
  base_checkpoint_id : option string;
  base_checkpoint_version : Z;
  base_covered_seq : Z;
  sn_covered_seq : Z;
  sn_source_hash : string;
  sn_replacement_history : list dict;
  source_rows : list CompactionSourceRow
}.
Definition source_row (m : M.t) : CompactionSourceRow :=
  mkSource (M.message_id m) (M.chat_seq m) (M.role m) (M.content m) (M.extra_data m).

(** [dict(item) for item in (extra.get("replacement_history") or [])] *)
Fixpoint dicts_of (l : list json) : result exn (list dict) :=
  match l with
  | [] => Ok []
  | JDict d :: l' => with? ds := dicts_of l' in Ok (d :: ds)
  | _ => Err (OtherError "TypeError")
  end.
Definition replacement_of (extra : dict) : result exn (list dict) :=
  match dict_get extra "replacement_history" with
  | Some v => if truthy v then
                match v with JList l => dicts_of l | _ => Err (OtherError "TypeError") end
              else Ok []
  | None => Ok []
  end.

(** The rows after a watermark, oldest first. *)
Definition rows_after (db : Db) (chat_id : string) (covered : Z) : list M.t :=
  order_by seq_leb (List.filter (λ m, covered <? M.chat_seq m) (chat_rows db chat_id)).

Section snapshots.
(** The digest of a base version, a base watermark, a watermark and rows. *)
Context (source_digest : Z → Z → Z → list CompactionSourceRow → string).

Definition lease_busy (s : St.t) (now : Z) : bool :=
  set_str (St.lease_owner s) && (now <? default now (St.lease_expires_at s)).
(** The condition of the update that takes the lease. *)
Definition lease_free (s : St.t) (owner : string) (now : Z) : bool :=
  is_null (St.lease_owner s) || sql_le (St.lease_expires_at s) now || sql_eq (St.lease_owner s) owner.

Definition acquire_compaction_snapshot (chat_id owner : string) (lease_seconds now : Z) (cdb : CDb)
    : tx CDb exn (option CompactionSnapshot) :=
  let cdb1 := cdb <| base := _ensure_message_sequences now (base cdb) chat_id |> in
  let? (state, cdb2) := _ensure_compaction_state now cdb1 chat_id in
  if lease_busy state now then Rollback None else
  let checkpoint :=
    if set_str (St.active_checkpoint_id state)
    then match St.active_checkpoint_id state with
         | Some id => ChatSequencer.get_message (base cdb2) id
         | None => None
         end
    else None in
  let? replacement := match checkpoint with
                      | Some c => replacement_of (M.extra_data c)
                      | None => Ok []
                      end in
  let source_models := List.filter (λ m, negb (is_checkpoint m))
                         (rows_after (base cdb2) chat_id (St.covered_seq state)) in
  match max_opt (M.chat_seq <$> source_models) with
  | None => Rollback None
  | Some covered =>
      let rows := map source_row source_models in
      if lease_free state owner now then
        Commit
          (Some (mkSnapshot chat_id owner (M.message_id <$> checkpoint) (St.checkpoint_version state)
                   (St.covered_seq state) covered
                   (source_digest (St.checkpoint_version state) (St.covered_seq state) covered rows)
                   replacement rows))
          (put_state cdb2 chat_id
             (state <| St.lease_owner := Some owner |>
                    <| St.lease_expires_at := Some (now + seconds (Z.max 1 lease_seconds)) |>
                    <| St.updated_at := now |>))
      else Rollback None
  end.
End snapshots.

Definition release_compaction_lease (chat_id owner : string) (now : Z) (cdb : CDb) : tx CDb exn bool :=
  match compaction_states cdb !! chat_id with
  | Some s =>
      if sql_eq (St.lease_owner s) owner
      then Commit true (put_state cdb chat_id (s <| St.lease_owner := None |> <| St.lease_expires_at := None |>
                                         <| St.updated_at := now |>))
      else Commit false cdb
  | None => Commit false cdb
  end.

(** ** Publishing *)

Definition CAS_CONFLICT : exn := RuntimeError "checkpoint base or lease changed".

Definition checkpoint_extra (snapshot : CompactionSnapshot) (replacement_history : list dict)
    (manifest : dict) : dict :=
  let rows := source_rows snapshot in
  let manifest' :=
    dict_update manifest
      [("source_message_ids", JList (map (λ r, JStr (sr_message_id r)) rows));
       ("source_message_seqs", JList (map (λ r, JInt (sr_chat_seq r)) rows));
       ("source_count", JInt (Z.of_nat (length rows)));
       ("replacement_count", JInt (Z.of_nat (length replacement_history)))] in
  [("kind", JStr COMPACTION_CHECKPOINT_KIND);
   ("replacement_history", JList (map JDict replacement_history));
   ("covered_seq", JInt (sn_covered_seq snapshot));
   ("covers_up_to_chat_seq", JInt (sn_covered_seq snapshot));
   ("covers_up_to_message_id", match last rows with Some r => JStr (sr_message_id r) | None => JNull end);
   ("source_hash", JStr (sn_source_hash snapshot));
   ("base_checkpoint_version", JInt (base_checkpoint_version snapshot));
   ("checkpoint_version", JInt (base_checkpoint_version snapshot + 1));
   ("replacement_manifest", JDict manifest');
   ("active", JBool true);
   ("notice_pending", JBool true)].

(** [previous.extra_data = {**previous.extra_data, "active": False}] *)
Definition set_extra (f : dict → dict) (message_id : string) (db : Db) : Db :=
  db <| chat_messages :=
    update_where (λ m, bool_decide (M.message_id m = message_id))
      (λ m, m <| M.extra_data := f (M.extra_data m) |>) (chat_messages db) |>.
Definition retire (extra : dict) : dict := dict_set extra "active" (JBool false).

(** The condition of the update that publishes. *)
Definition may_publish (snapshot : CompactionSnapshot) (owner : string) (s : St.t) : bool :=
  (St.checkpoint_version s =? base_checkpoint_version snapshot)
  && (St.covered_seq s =? base_covered_seq snapshot) && sql_eq (St.lease_owner s) owner.

(** [message_id] is drawn from [uuid4]. *)
Definition commit_compaction_checkpoint (message_id : string) (snapshot : CompactionSnapshot)
    (owner : string) (summary_text : text) (replacement_history : list dict)
    (replacement_manifest : dict) (now : Z) (cdb : CDb) : tx CDb exn string :=
  if negb (bool_decide (owner = sn_owner snapshot)) then Raise (RuntimeError "snapshot owner mismatch")
  else
    let? db1 := MessageStore.create now (base cdb) message_id (sn_chat_id snapshot) None "system"
                  summary_text None
                  (checkpoint_extra snapshot replacement_history replacement_manifest) in
    match compaction_states cdb !! sn_chat_id snapshot with
    | Some s =>
        if may_publish snapshot owner s then
          let db2 := match base_checkpoint_id snapshot with
                     | Some id => if bool_decide (id = "") then db1 else set_extra retire id db1
                     | None => db1
                     end in
          Commit message_id
            (put_state (cdb <| base := db2 |>) (sn_chat_id snapshot)
               (s <| St.active_checkpoint_id := Some message_id |>
                  <| St.checkpoint_version := base_checkpoint_version snapshot + 1 |>
                  <| St.covered_seq := sn_covered_seq snapshot |>
                  <| St.lease_owner := None |> <| St.lease_expires_at := None |>
                  <| St.updated_at := now |>))
        else Raise CAS_CONFLICT
    | None => Raise CAS_CONFLICT
    end.

(** ** Rewriting the history *)

Definition silence (extra : dict) : dict :=
  dict_set (dict_set extra "active" (JBool false)) "notice_pending" (JBool false).
Definition _invalidate_compaction_lineage_for_rewrite (now : Z) (cdb : CDb) (chat_id : string)
    (rewritten_seq : Z) : result exn (bool * CDb) :=
  with? (state, cdb1) := _ensure_compaction_state now cdb chat_id in
  let affects_checkpoint :=
    set_str (St.active_checkpoint_id state) && (rewritten_seq <=? St.covered_seq state) in
  let affects_snapshot := set_str (St.lease_owner state) in
  if negb affects_checkpoint && negb affects_snapshot then Ok (false, cdb1)
  else
    let cdb2 :=
      put_state cdb1 chat_id
        (state <| St.active_checkpoint_id := None |>
               <| St.checkpoint_version := St.checkpoint_version state + 1 |>
               <| St.covered_seq := 0 |> <| St.lease_owner := None |>
               <| St.lease_expires_at := None |> <| St.updated_at := now |>) in
    Ok (true,
        cdb2 <| base := (base cdb2) <| chat_messages :=
          update_where (λ m, ChatSequencer.in_chat chat_id m && is_checkpoint m)
            (λ m, m <| M.extra_data := silence (M.extra_data m) |>) (chat_messages (base cdb2)) |> |>).

Definition delete_messages_from (chat_id message_id : string) (now : Z) (cdb : CDb) : tx CDb exn nat :=
  let cdb1 := cdb <| base := _ensure_message_sequences now (base cdb) chat_id |> in
  match List.find (λ m, bool_decide (M.message_id m = message_id)) (chat_rows (base cdb1) chat_id) with
  | None => Rollback 0%nat
  | Some target =>
      let? (_, cdb2) := _invalidate_compaction_lineage_for_rewrite now cdb1 chat_id (M.chat_seq target) in
      let '(deleted, db3) := ChatSequencer.delete_tail (base cdb2) chat_id (M.chat_seq target) in
      let cdb3 := with_base cdb2 db3 in
      let db4 :=
        match MessageStore.live_session (base cdb3) chat_id with
        | Some s =>
            MessageStore.put_session (base cdb3) chat_id
              (s <| ChatSession.message_count := Z.of_nat (length (chat_rows (base cdb3) chat_id)) |>
                 <| ChatSession.updated_at := now |>)
        | None => base cdb3
        end in
      Commit deleted (cdb3 <| base := db4 |>)
  end.

(** ** [core/services/compaction_service.py]: what is replayed *)

Definition _live_run_ids (db : Db) (rows : list M.t) : list json :=
  let run_ids := omap (λ m, match Inflight.marker (JDict (M.extra_data m)) with
                            | Some mk => dict_get mk "run_id"
                            | None => None
                            end) rows in
  List.filter (λ v, match v with
                    | JStr id => match chat_runs db !! id with
                                 | Some r => is_live (ChatRun.status r)
                                 | None => false
                                 end
                    | _ => false
                    end) run_ids.
(** The rows [_normalize_rows] does not skip. *)
Definition replayed_row (live : list json) (m : M.t) : bool :=
  negb (is_checkpoint m)
  && match Inflight.marker (JDict (M.extra_data m)) with
     | Some mk => match dict_get mk "run_id" with
                  | Some (JStr id) => negb (json_in (Some (JStr id)) (omap (λ v, match v with JStr s => Some s | _ => None end) live))
                  | _ => true
                  end
     | None => true
     end.
Definition replayed_rows (db : Db) (rows : list M.t) : list M.t :=
  List.filter (replayed_row (_live_run_ids db rows)) rows.

(** [list(extra.get("replacement_history") or [])] *)
Definition stored_history (extra : dict) : result exn (list json) :=
  match dict_get extra "replacement_history" with
  | Some v => if truthy v then
                match v with
                | JList l => Ok l
                | JDict d => Ok (map JStr (dict_keys d))
                | JStr s => Ok (map (λ c, JStr (String c EmptyString)) (String.list_ascii_of_string s))
                | _ => Err (OtherError "TypeError")
                end
              else Ok []
  | None => Ok []
  end.

(** What [_load_history] loads: the stored history of the checkpoint, and the
    rows after it that [_normalize_rows] does not skip.  What [_normalize_rows]
    makes of such a row (an assistant row becomes [HistoryRows.assistant_row_replay]
    of its record, another its role and text) is not part of this definition: the
    columns of the record are not in the table of the model. *)
Definition _load_history_rows (enabled : bool) (cdb : CDb) (chat_id : string) : result exn (list json * list M.t) :=
  match (if enabled then get_latest_compaction_checkpoint cdb chat_id else None) with
  | None => Ok ([], replayed_rows (base cdb) (rows_after (base cdb) chat_id 0))
  | Some c =>
      with? replacement := stored_history (M.extra_data c) in
      with? covered := _checkpoint_covered_seq (Some c) in
      Ok (replacement, replayed_rows (base cdb) (rows_after (base cdb) chat_id covered))
  end.

End Lineage.
