(* ===== verification/LineageProps.v ===== *)
(** * Compaction checkpoints of a chat: lemmas

    What a method does to the row of the lineage, and to the messages. *)

From S2P Require Import Prelude Db RunJournal PyString Program ChatSequencer QueuedHandoff Lineage.
From S2P Require Import ChatSequencerProps.

#[local] Open Scope Z_scope.

Import Lineage.

(** ** Steps of other parties *)

(** One transaction of any caller; [Base] is a change of the other tables. *)
Inductive op :=
| Acquire (digest : Z → Z → Z → list CompactionSourceRow → string) (chat_id owner : string) (lease_seconds : Z)
| Release (chat_id owner : string)
| Publish (message_id : string) (snapshot : CompactionSnapshot) (owner : string) (summary : text)
    (replacement : list dict) (manifest : dict)
| Delete (chat_id message_id : string)
| Base (f : Db → Db).

Definition apply (o : Z * op) (cdb : CDb) : CDb :=
  let now := o.1 in
  match o.2 with
  | Acquire digest chat_id owner lease =>
      (run_tx (acquire_compaction_snapshot digest chat_id owner lease now) cdb).2
  | Release chat_id owner => (run_tx (release_compaction_lease chat_id owner now) cdb).2
  | Publish id snap owner summary repl manifest =>
      (run_tx (commit_compaction_checkpoint id snap owner summary repl manifest now) cdb).2
  | Delete chat_id id => (run_tx (delete_messages_from chat_id id now) cdb).2
  | Base f => with_base cdb (f (base cdb))
  end.
Definition apply_all (os : list (Z * op)) (cdb : CDb) : CDb := foldl (λ c o, apply o c) cdb os.

(** Who takes the lease in a step. *)
Definition taken_by (o : op) : option string :=
  match o with Acquire _ _ owner _ => Some owner | _ => None end.

(** ** Rows of the lineage *)

(** What a step does to a lease: keep it, drop it, or take it. *)
Definition lease_step (o : op) (l l' : option string) : Prop :=
  l' = l ∨ l' = None ∨ ∃ owner, taken_by o = Some owner ∧ l' = Some owner.

Definition row_step (o : op) (s s' : St.t) : Prop :=
  St.checkpoint_version s <= St.checkpoint_version s' ∧
  lease_step o (St.lease_owner s) (St.lease_owner s').
Definition states_step (o : op) (m m' : gmap string St.t) : Prop :=
  ∀ chat, match m !! chat, m' !! chat with
          | Some s, Some s' => row_step o s s'
          | Some _, None => False
          | None, Some s' => lease_step o None (St.lease_owner s')
          | None, None => True
          end.

Lemma lease_step_trans o l1 l2 l3 : lease_step o l1 l2 → lease_step o l2 l3 → lease_step o l1 l3.
Proof. intros H1 [->|[->|H2]]; [done|right; by left|right; by right]. Qed.

Lemma states_step_refl o m : states_step o m m.
Proof. intros chat. destruct (m !! chat); [split; [lia|by left]|done]. Qed.

Lemma states_step_trans o m1 m2 m3 : states_step o m1 m2 → states_step o m2 m3 → states_step o m1 m3.
Proof.
  intros H1 H2 chat. specialize (H1 chat). specialize (H2 chat). unfold row_step in *.
  destruct (m1 !! chat) as [s1|], (m2 !! chat) as [s2|], (m3 !! chat) as [s3|]; try done.
  - destruct H1 as [? H1], H2 as [? H2]. split; [lia|by eapply lease_step_trans].
  - destruct H2 as [_ H2]. by eapply lease_step_trans.
Qed.

(** A row is replaced by one of at least its version. *)
Lemma states_step_put o m chat s s' :
  m !! chat = Some s → row_step o s s' → states_step o m (<[chat := s']> m).
Proof.
  intros Hs Hr c. destruct (decide (c = chat)) as [->|Hne].
  - by rewrite Hs, lookup_insert_eq.
  - rewrite lookup_insert_ne by done. apply states_step_refl.
Qed.

Lemma states_step_drop o cdb :
  states_step o (compaction_states cdb) (compaction_states (drop_references cdb)).
Proof.
  intros c. unfold drop_references. cbn [compaction_states]. unfold over. cbn.
  rewrite lookup_fmap. destruct (compaction_states cdb !! c) as [s|]; [|done].
  cbn. repeat case_match; (split; [cbn; lia|by left]).
Qed.

Lemma ensure_state o now cdb chat s cdb' :
  _ensure_compaction_state now cdb chat = Ok (s, cdb') →
  compaction_states cdb' !! chat = Some s ∧ base cdb' = base cdb ∧
  states_step o (compaction_states cdb) (compaction_states cdb').
Proof.
  unfold _ensure_compaction_state. destruct (compaction_states cdb !! chat) as [s0|] eqn:E.
  { intros [= <- <-]. split_and!; [done|done|apply states_step_refl]. }
  match goal with |- (match ?x with _ => _ end) = _ → _ => destruct x as [st|e] eqn:Est; [|done] end.
  assert (Hst : St.chat_id st = chat ∧ St.lease_owner st = None).
  { revert Est. repeat case_match; intros [= <-]; done. }
  destruct Hst as [Hid Hl]. unfold insert_state. destruct (_ || _); [done|]. intros [= <- <-].
  cbn. rewrite Hid. split_and!; [apply lookup_insert_eq|done|].
  intros c. destruct (decide (c = chat)) as [->|Hne].
  - rewrite E, lookup_insert_eq. by left.
  - rewrite lookup_insert_ne by done. apply states_step_refl.
Qed.

(** ** The steps *)

Lemma acquire_spec digest chat owner lease now cdb snap cdb' :
  acquire_compaction_snapshot digest chat owner lease now cdb = Commit (Some snap) cdb' →
  ∃ s cdb2 checkpoint,
    _ensure_compaction_state now (cdb <| base := _ensure_message_sequences now (base cdb) chat |>) chat
      = Ok (s, cdb2) ∧
    lease_busy s now = false ∧ lease_free s owner now = true ∧
    checkpoint = (if set_str (St.active_checkpoint_id s)
                  then match St.active_checkpoint_id s with
                       | Some id => ChatSequencer.get_message (base cdb2) id
                       | None => None
                       end
                  else None) ∧
    (match checkpoint with Some c => replacement_of (M.extra_data c) | None => Ok [] end)
      = Ok (sn_replacement_history snap) ∧
    sn_chat_id snap = chat ∧ sn_owner snap = owner ∧
    base_checkpoint_id snap = M.message_id <$> checkpoint ∧
    base_checkpoint_version snap = St.checkpoint_version s ∧
    base_covered_seq snap = St.covered_seq s ∧
    source_rows snap = map source_row (List.filter (λ m, negb (is_checkpoint m))
                         (rows_after (base cdb2) chat (St.covered_seq s))) ∧
    max_opt (sr_chat_seq <$> source_rows snap) = Some (sn_covered_seq snap) ∧
    cdb' = put_state cdb2 chat
             (s <| St.lease_owner := Some owner |>
                <| St.lease_expires_at := Some (now + seconds (Z.max 1 lease)) |>
                <| St.updated_at := now |>).
Proof.
  unfold acquire_compaction_snapshot. cbv zeta.
  destruct (_ensure_compaction_state _ _ _) as [[s cdb2]|e] eqn:Es; [|done].
  destruct (lease_busy s now) eqn:Eb; [done|].
  set (checkpoint := if set_str _ then _ else _).
  destruct (match checkpoint with Some c => _ | None => _ end) as [repl|e] eqn:Er; [|done].
  set (source := List.filter _ _).
  destruct (max_opt (M.chat_seq <$> source)) as [covered|] eqn:Em; [|done].
  destruct (lease_free s owner now) eqn:Ef; [|done]. intros [= <- <-].
  exists s, cdb2, checkpoint. cbn. split_and!; try done.
  rewrite <- Em. f_equal. clear. induction source as [|m l IH]; [done|]. cbn. by f_equal.
Qed.

Lemma acquire_other digest chat owner lease now cdb a cdb' :
  acquire_compaction_snapshot digest chat owner lease now cdb = Commit a cdb' → ∃ snap, a = Some snap.
Proof.
  unfold acquire_compaction_snapshot. cbv zeta. repeat case_match; intros Hc; try discriminate Hc;
    injection Hc as <- _; eauto.
Qed.

(** Publishing. *)
Lemma commit_spec id snap owner summary repl manifest now cdb a cdb' :
  commit_compaction_checkpoint id snap owner summary repl manifest now cdb = Commit a cdb' →
  ∃ db1 s,
    a = id ∧ owner = sn_owner snap ∧
    MessageStore.create now (base cdb) id (sn_chat_id snap) None "system" summary None
      (checkpoint_extra snap repl manifest) = Ok db1 ∧
    compaction_states cdb !! sn_chat_id snap = Some s ∧ may_publish snap owner s = true ∧
    cdb' = put_state (cdb <| base := match base_checkpoint_id snap with
                                     | Some i => if bool_decide (i = "") then db1 else set_extra retire i db1
                                     | None => db1
                                     end |>) (sn_chat_id snap)
             (s <| St.active_checkpoint_id := Some id |>
                <| St.checkpoint_version := base_checkpoint_version snap + 1 |>
                <| St.covered_seq := sn_covered_seq snap |>
                <| St.lease_owner := None |> <| St.lease_expires_at := None |>
                <| St.updated_at := now |>).
Proof.
  unfold commit_compaction_checkpoint. destruct (bool_decide (owner = sn_owner snap)) eqn:Eo; [|done].
  apply bool_decide_eq_true in Eo. cbn [negb].
  destruct (MessageStore.create _ _ _ _ _ _ _ _ _) as [db1|e] eqn:Ec; [|done].
  destruct (compaction_states cdb !! sn_chat_id snap) as [s|] eqn:Es; [|done].
  destruct (may_publish snap owner s) eqn:Em; [|done]. intros [= <- <-].
  exists db1, s. done.
Qed.

Lemma may_publish_true snap owner s :
  may_publish snap owner s = true ↔
  St.checkpoint_version s = base_checkpoint_version snap ∧ St.covered_seq s = base_covered_seq snap ∧
  St.lease_owner s = Some owner.
Proof.
  unfold may_publish, sql_eq. rewrite !andb_true_iff, !Z.eqb_eq.
  destruct (St.lease_owner s) as [o|].
  - rewrite bool_decide_eq_true. split; [intros [[? ?] ->]|intros (? & ? & [= ->])]; done.
  - split; [intros [_ ?]|intros (_ & _ & ?)]; done.
Qed.

Lemma invalidate_spec now cdb chat seq b cdb' :
  _invalidate_compaction_lineage_for_rewrite now cdb chat seq = Ok (b, cdb') →
  ∃ s cdb1 s', _ensure_compaction_state now cdb chat = Ok (s, cdb1) ∧
    compaction_states cdb' = <[chat := s']> (compaction_states cdb1) ∧
    (s' = s ∧ base cdb' = base cdb1 ∧ set_str (St.lease_owner s) = false ∨
     St.checkpoint_version s' = St.checkpoint_version s + 1 ∧ St.lease_owner s' = None ∧
     base cdb' = (base cdb1) <| chat_messages :=
       update_where (λ m, ChatSequencer.in_chat chat m && is_checkpoint m)
         (λ m, m <| M.extra_data := silence (M.extra_data m) |>) (chat_messages (base cdb1)) |>).
Proof.
  unfold _invalidate_compaction_lineage_for_rewrite.
  destruct (_ensure_compaction_state now cdb chat) as [[s cdb1]|e] eqn:Es; [|done]. cbv zeta.
  destruct (negb _ && negb _) eqn:E; intros [= <- <-].
  - exists s, cdb1, s. apply andb_true_iff in E as [_ E%negb_true_iff]. split; [done|].
    apply (ensure_state (Base (λ d, d))) in Es as (Hs & _ & _).
    split; [symmetry; by apply insert_id|]. left. done.
  - exists s, cdb1. eexists. split; [done|]. split; [reflexivity|]. right. done.
Qed.

Lemma delete_spec chat id now cdb n cdb' :
  delete_messages_from chat id now cdb = Commit n cdb' →
  ∃ target b cdb2,
    List.find (λ m, bool_decide (M.message_id m = id))
      (chat_rows (_ensure_message_sequences now (base cdb) chat) chat) = Some target ∧
    _invalidate_compaction_lineage_for_rewrite now
      (cdb <| base := _ensure_message_sequences now (base cdb) chat |>) chat (M.chat_seq target) = Ok (b, cdb2) ∧
    n = (ChatSequencer.delete_tail (base cdb2) chat (M.chat_seq target)).1 ∧
    compaction_states cdb' = compaction_states
      (with_base cdb2 (ChatSequencer.delete_tail (base cdb2) chat (M.chat_seq target)).2) ∧
    chat_messages (base cdb') = chat_messages (ChatSequencer.delete_tail (base cdb2) chat (M.chat_seq target)).2.
Proof.
  unfold delete_messages_from. cbv zeta.
  destruct (List.find _ _) as [target|] eqn:Ef; [|done].
  destruct (_invalidate_compaction_lineage_for_rewrite _ _ _ _) as [[b cdb2]|e] eqn:Ei; [|done].
  destruct (ChatSequencer.delete_tail (base cdb2) chat (M.chat_seq target)) as [k db3] eqn:Ed.
  cbn [fst snd]. intros [= <- <-]. exists target, b, cdb2. rewrite Ed. split_and!; try done.
  cbn. by destruct (MessageStore.live_session _ _).
Qed.

(** ** Every step keeps the lineage going *)

Lemma put_step o cdb chat s s' :
  compaction_states cdb !! chat = Some s → row_step o s s' →
  states_step o (compaction_states cdb) (compaction_states (put_state cdb chat s')).
Proof. intros. by eapply states_step_put. Qed.

Lemma delete_step o chat id now cdb n cdb' :
  delete_messages_from chat id now cdb = Commit n cdb' →
  states_step o (compaction_states cdb) (compaction_states cdb').
Proof.
  intros (target & b & cdb2 & _ & Hi & _ & -> & _)%delete_spec.
  apply invalidate_spec in Hi as (s & cdb1 & s' & He & Hst & Hs').
  apply (ensure_state o) in He as (Hs & _ & Hstep).
  eapply states_step_trans; [exact Hstep|]. eapply states_step_trans; [|apply states_step_drop].
  cbn. rewrite Hst. eapply states_step_put; [exact Hs|].
  destruct Hs' as [(-> & _ & _)|(Hv & Hl & _)]; (split; [lia|]); [by left|right; by left].
Qed.

Lemma run_commit {S E A} (P : S → Prop) (body : S → tx S E A) s :
  P s → (∀ a s', body s = Commit a s' → P s') → P (run_tx body s).2.
Proof. intros Hs Hc. unfold run_tx. destruct (body s) as [a s'|a|e] eqn:Eb; cbn; eauto. Qed.

Lemma apply_step o cdb : states_step o.2 (compaction_states cdb) (compaction_states (apply o cdb)).
Proof.
  destruct o as [now o]. unfold apply. cbn [fst snd].
  destruct o as [digest chat owner lease|chat owner|id snap owner summary repl manifest|chat id|f];
    try (apply run_commit; [apply states_step_refl|intros a cdb' E]).
  - pose proof (acquire_other _ _ _ _ _ _ _ _ E) as [snap ->].
    apply acquire_spec in E as (s & cdb2 & c & He & _ & _ & _ & _ & _ & _ & _ & _ & _ & _ & _ & ->).
    apply (ensure_state (Acquire digest chat owner lease)) in He as (Hs & _ & Hstep). eapply states_step_trans; [exact Hstep|].
    eapply put_step; [exact Hs|]. split; [cbn; lia|]. right; right. by exists owner.
  - revert E. unfold release_compaction_lease. destruct (compaction_states cdb !! chat) as [s|] eqn:Es.
    + destruct (sql_eq _ _); intros [= <- <-]; [|apply states_step_refl].
      eapply put_step; [exact Es|]. split; [cbn; lia|]. right; by left.
    + intros [= <- <-]. apply states_step_refl.
  - apply commit_spec in E as (db1 & s & _ & _ & _ & Hs & Hp & ->).
    apply (states_step_put _ _ _ s); [exact Hs|]. apply may_publish_true in Hp as (Hv & _ & _).
    split; [cbn; lia|]. right; by left.
  - by eapply delete_step.
  - exact (states_step_drop (Base f) (mkCDb (f (base cdb)) (compaction_states cdb))).
Qed.

Lemma version_grows os cdb chat s :
  compaction_states cdb !! chat = Some s →
  ∃ s', compaction_states (apply_all os cdb) !! chat = Some s' ∧
    St.checkpoint_version s <= St.checkpoint_version s'.
Proof.
  revert cdb s. induction os as [|o os IH]; intros cdb s Hs; [exists s; split; [done|lia]|].
  pose proof (apply_step o cdb chat) as Hstep. rewrite Hs in Hstep. cbn [apply_all foldl].
  destruct (compaction_states (apply o cdb) !! chat) as [s1|] eqn:E; [|done]. destruct Hstep as [Hv _].
  destruct (IH _ _ E) as (s' & Hs' & Hv'). exists s'. split; [exact Hs'|lia].
Qed.

(** ** Losing the lease *)

Definition without_lease (owner chat : string) (cdb : CDb) : Prop :=
  ∀ s, compaction_states cdb !! chat = Some s → St.lease_owner s ≠ Some owner.
Definition foreign (owner : string) (os : list (Z * op)) : Prop :=
  Forall (λ o, taken_by o.2 ≠ Some owner) os.

Lemma step_without_lease owner chat o m m' :
  taken_by o ≠ Some owner → states_step o m m' →
  (∀ s, m !! chat = Some s → St.lease_owner s ≠ Some owner) →
  ∀ s, m' !! chat = Some s → St.lease_owner s ≠ Some owner.
Proof.
  intros Ho Hstep Hw s Hs E. specialize (Hstep chat). rewrite Hs in Hstep.
  assert (Hl : lease_step o (m !! chat ≫= St.lease_owner) (Some owner)).
  { rewrite <- E. destruct (m !! chat); [apply Hstep|done]. }
  destruct Hl as [Hl|[Hl|(w & Hw' & [= ->])]]; [|done|done].
  destruct (m !! chat) as [s0|] eqn:E0; [|done]. by apply (Hw s0 eq_refl).
Qed.

Lemma lease_stays_lost owner chat os cdb :
  foreign owner os → without_lease owner chat cdb → without_lease owner chat (apply_all os cdb).
Proof.
  intros Hf. revert cdb. induction Hf as [|o os Ho _ IH]; intros cdb Hw; [done|].
  cbn [apply_all foldl]. apply IH.
  exact (step_without_lease owner chat o.2 _ _ Ho (apply_step o cdb) Hw).
Qed.

Lemma run_error {S X A} (body : S → tx S X A) s :
  (∀ a s', body s ≠ Commit a s') → (∀ a, body s ≠ Rollback a) → ∃ e, run_tx body s = (Err e, s).
Proof.
  intros Hc Hr. unfold run_tx. destruct (body s) as [a s'|a|e] eqn:E; [by destruct (Hc a s')|by destruct (Hr a)|eauto].
Qed.

Lemma run_ok {S X A} (body : S → tx S X A) s a s' :
  run_tx body s = (Ok a, s') → body s ≠ Rollback a → body s = Commit a s'.
Proof.
  unfold run_tx. destruct (body s) as [x y|x|x]; intros Hr Hn; [by injection Hr as -> ->| |done].
  by injection Hr as -> _.
Qed.

Lemma acquire_no_rollback digest chat owner lease now cdb snap :
  acquire_compaction_snapshot digest chat owner lease now cdb ≠ Rollback (Some snap).
Proof.
  unfold acquire_compaction_snapshot. cbv zeta. intros E. repeat case_match; discriminate E.
Qed.

Lemma commit_no_rollback id snap owner summary repl manifest now cdb a :
  commit_compaction_checkpoint id snap owner summary repl manifest now cdb ≠ Rollback a.
Proof. unfold commit_compaction_checkpoint. repeat case_match; done. Qed.

Lemma delete_drops_lease owner chat id now cdb n cdb' :
  owner ≠ "" → delete_messages_from chat id now cdb = Commit n cdb' → without_lease owner chat cdb'.
Proof.
  intros Hne (target & b & cdb2 & _ & Hi & _ & Hst & _)%delete_spec.
  apply invalidate_spec in Hi as (s & cdb1 & s' & He & Hst2 & Hs').
  intros st Hst' Hl. rewrite Hst in Hst'.
  assert (H2 : ∃ st2, compaction_states cdb2 !! chat = Some st2 ∧ St.lease_owner st2 = Some owner).
  { set (cdb3 := mkCDb (ChatSequencer.delete_tail (base cdb2) chat (M.chat_seq target)).2 (compaction_states cdb2)) in *.
    pose proof (states_step_drop (Base (λ d, d)) cdb3 chat) as Hd.
    assert (Hst3 : compaction_states (drop_references cdb3) !! chat = Some st) by exact Hst'.
    rewrite Hst3 in Hd. change (compaction_states cdb3) with (compaction_states cdb2) in Hd.
    destruct (compaction_states cdb2 !! chat) as [st2|].
    - exists st2. split; [done|]. destruct Hd as [_ [E|[E|(? & ? & _)]]]; [congruence|congruence|done].
    - destruct Hd as [E|[E|(? & ? & _)]]; [congruence|congruence|done]. }
  destruct H2 as (st2 & H2 & Hl2). rewrite Hst2, lookup_insert_eq in H2. injection H2 as <-.
  destruct Hs' as [(-> & _ & Hn)|(_ & Hn & _)]; [|congruence].
  rewrite Hl2 in Hn. cbn in Hn. by rewrite bool_decide_false in Hn.
Qed.

(** ** Messages keep their numbers *)

Definition next_of (db : Db) (chat : string) : option Z :=
  (λ s, default 1 (ChatSession.next_message_seq s)) <$> chat_sessions db !! chat.

(** The rows of the chat are rows it had, by identifier and number, or carry
    numbers that had not been handed out. *)
Definition numbered (chat : string) (db db' : Db) : Prop :=
  ∀ n, next_of db chat = Some n →
  ∃ n', next_of db' chat = Some n' ∧ n <= n' ∧
    ∀ m, m ∈ chat_rows db' chat →
      (∃ m0, m0 ∈ chat_rows db chat ∧ M.message_id m0 = M.message_id m ∧ M.chat_seq m0 = M.chat_seq m) ∨
      n <= M.chat_seq m.

Lemma numbered_refl chat db : numbered chat db db.
Proof. intros n Hn. exists n. split_and!; [done|lia|]. intros m Hm. left. by exists m. Qed.

Lemma numbered_trans chat a b c : numbered chat a b → numbered chat b c → numbered chat a c.
Proof.
  intros H1 H2 n Hn. destruct (H1 n Hn) as (n1 & Hn1 & Hle1 & Hm1).
  destruct (H2 n1 Hn1) as (n2 & Hn2 & Hle2 & Hm2). exists n2. split_and!; [done|lia|].
  intros m [(m1 & Hin & Ei & Es)|Hge]%Hm2; [|right; lia].
  destruct (Hm1 m1 Hin) as [(m0 & H0 & Ei0 & Es0)|Hge]; [|right; lia].
  left. exists m0. split_and!; [done|congruence|congruence].
Qed.

Lemma elem_of_chat_rows db chat m :
  m ∈ chat_rows db chat ↔ m ∈ chat_messages db ∧ M.chat_id m = chat.
Proof.
  unfold chat_rows, ChatSequencer.in_chat. rewrite list_elem_of_In, List.filter_In, <- list_elem_of_In.
  by rewrite bool_decide_eq_true.
Qed.

(** Rows that are only changed in their other columns, or deleted. *)
Lemma numbered_rows chat db db' :
  chat_sessions db' = chat_sessions db →
  (∀ m, m ∈ chat_messages db' → ∃ m0, m0 ∈ chat_messages db ∧ M.message_id m0 = M.message_id m ∧
     M.chat_seq m0 = M.chat_seq m ∧ M.chat_id m0 = M.chat_id m) → numbered chat db db'.
Proof.
  intros Es Hm n Hn. exists n. unfold next_of in *. rewrite Es. split_and!; [done|lia|].
  intros m [Hin Hc]%elem_of_chat_rows. left. destruct (Hm m Hin) as (m0 & H0 & Ei & Eq & Ec).
  exists m0. split_and!; [|done|done]. apply elem_of_chat_rows. split; [done|congruence].
Qed.

Lemma numbered_update chat p f db :
  (∀ m, M.message_id (f m) = M.message_id m ∧ M.chat_seq (f m) = M.chat_seq m ∧ M.chat_id (f m) = M.chat_id m) →
  numbered chat db (db <| chat_messages := update_where p f (chat_messages db) |>).
Proof.
  intros Hf. apply numbered_rows; [done|]. intros m (m0 & H0 & ->)%elem_of_update_where.
  exists m0. split; [done|]. destruct (p m0); [|done]. by destruct (Hf m0) as (-> & -> & ->).
Qed.

(** Sessions whose allocator does not go back. *)
Lemma numbered_session chat db c s s' :
  chat_sessions db !! c = Some s →
  default 1 (ChatSession.next_message_seq s) <= default 1 (ChatSession.next_message_seq s') →
  numbered chat db (db <| chat_sessions := <[c := s']> (chat_sessions db) |>).
Proof.
  intros Hs Hle n Hn. unfold next_of in *. cbn. destruct (decide (chat = c)) as [->|Hne].
  - rewrite Hs in Hn. injection Hn as <-. rewrite lookup_insert_eq. eexists. split; [reflexivity|].
    split; [done|]. intros m Hm. left. by exists m.
  - rewrite lookup_insert_ne by done. exists n. split_and!; [done|lia|]. intros m Hm. left. by exists m.
Qed.

Lemma numbered_repair chat now db c : numbered chat db (_ensure_message_sequences now db c).
Proof.
  unfold _ensure_message_sequences. destruct (chat_sessions db !! c) as [s|] eqn:Es; [|apply numbered_refl].
  cbv zeta. case_bool_decide; [apply numbered_refl|]. eapply numbered_session; [exact Es|]. cbn. lia.
Qed.

(** After the repair the allocator is past every row. *)
Lemma repaired now db c s :
  chat_sessions db !! c = Some s →
  ∃ n, next_of (_ensure_message_sequences now db c) c = Some n ∧
    ∀ m, m ∈ chat_rows (_ensure_message_sequences now db c) c → M.chat_seq m < n.
Proof.
  intros Es. set (db' := _ensure_message_sequences now db c).
  assert (Hm : chat_messages db' = chat_messages db).
  { subst db'. unfold _ensure_message_sequences. rewrite Es. cbv zeta. by case_bool_decide. }
  exists (Z.max (default 1 (ChatSession.next_message_seq s)) (max_next_seq db c)). split.
  - subst db'. unfold _ensure_message_sequences, next_of. rewrite Es. cbv zeta. case_bool_decide as E.
    + rewrite Es. cbn. f_equal. destruct (ChatSession.next_message_seq s) as [k|]; [|discriminate E].
      injection E as E. exact E.
    + cbn. by rewrite lookup_insert_eq.
  - intros m [Hin Hc]%elem_of_chat_rows. rewrite Hm in Hin.
    pose proof (max_next_seq_above db c m Hin Hc). lia.
Qed.

Lemma reserve_first now db c n u first db' :
  reserve_chat_sequences now db c n u = Ok (first, db') →
  chat_messages db' = chat_messages db ∧ (∀ chat, numbered chat db db') ∧
  ∀ k, next_of db c = Some k → k <= first ∧ next_of db' c = Some (first + n) ∧ 1 <= n.
Proof.
  unfold reserve_chat_sequences. destruct (Z.ltb_spec n 1); [done|].
  destruct (chat_sessions db !! c) as [s|] eqn:Es; [|by destruct u].
  destruct (match u with Some u => _ | None => true end); [|done]. intros [= <- <-].
  set (first := if _ <=? _ then _ else _).
  assert (Hf : default 1 (ChatSession.next_message_seq s) <= first) by (subst first; case_match eqn:E; [lia|apply Z.leb_gt in E; lia]).
  split_and!; [done| |].
  - intros chat. eapply numbered_session; [exact Es|]. cbn. lia.
  - intros k. unfold next_of. rewrite Es. cbn. rewrite lookup_insert_eq. intros [= <-]. done.
Qed.

(** A row stored under a reserved number. *)
Lemma create_spec now db id c role content model extra db' :
  MessageStore.create now db id c None role content model extra = Ok db' →
  ∃ seq, chat_messages db' = chat_messages db
           ++ [M.mk id c seq role (MessageStore.strip_nul_text content) model (MessageStore.strip_nul_dict extra) now] ∧
    (∀ m, m ∈ chat_messages db → M.message_id m ≠ id) ∧ ∀ chat, numbered chat db db'.
Proof.
  unfold MessageStore.create. cbv zeta.
  destruct (reserve_chat_sequences now db c 1 None) as [[seq db1]|e] eqn:Er; [|done].
  apply reserve_first in Er as (Hm & Hnum & Hfirst).
  intros (-> & _ & Hfree)%insert_message_spec. exists seq. cbn. rewrite Hm in *. split_and!; [done| |].
  - intros m Hin E. specialize (Hfree m Hin). unfold message_conflict in Hfree.
    cbn in Hfree. by rewrite bool_decide_true in Hfree.
  - intros chat n Hn. destruct (Hnum chat n Hn) as (n' & Hn' & Hle & Hold).
    exists n'. split_and!; [exact Hn'|done|]. intros m [Hin Hc]%elem_of_chat_rows. cbn in Hin.
    apply elem_of_app in Hin as [Hin| ->%list_elem_of_singleton].
    + apply Hold, elem_of_chat_rows. by rewrite Hm.
    + right. cbn in Hc |- *. subst c. by destruct (Hfirst n Hn).
Qed.

(** ** Steps that number what they add *)

Definition numbers (chat : string) (o : op) : Prop :=
  match o with Base f => ∀ db, numbered chat db (f db) | _ => True end.

Lemma ensure_base now cdb chat s cdb' :
  _ensure_compaction_state now cdb chat = Ok (s, cdb') → base cdb' = base cdb.
Proof. by intros (_ & -> & _)%(ensure_state (Base (λ d, d))). Qed.

Lemma numbered_retire chat id db : numbered chat db (set_extra retire id db).
Proof. by apply numbered_update. Qed.

Lemma numbered_delete chat c from db : numbered chat db (ChatSequencer.delete_tail db c from).2.
Proof.
  apply numbered_rows; [done|]. intros m [Hin _]%list_elem_of_In%List.filter_In.
  exists m. split; [by apply list_elem_of_In|done].
Qed.

Lemma publish_numbered chat id snap owner summary repl manifest now cdb a cdb' :
  commit_compaction_checkpoint id snap owner summary repl manifest now cdb = Commit a cdb' →
  numbered chat (base cdb) (base cdb').
Proof.
  intros (db1 & s & _ & _ & Hc & _ & _ & ->)%commit_spec.
  apply create_spec in Hc as (_ & _ & _ & Hn). eapply numbered_trans; [apply Hn|].
  change (base (put_state ?d _ _)) with (base d).
  change (base (over base (λ _, ?x) _)) with x.
  destruct (base_checkpoint_id snap) as [i|]; [|apply numbered_refl].
  case_bool_decide; [apply numbered_refl|apply numbered_retire].
Qed.

Lemma delete_numbered chat c id now cdb n cdb' :
  delete_messages_from c id now cdb = Commit n cdb' → numbered chat (base cdb) (base cdb').
Proof.
  unfold delete_messages_from. cbv zeta. destruct (List.find _ _) as [target|]; [|done].
  destruct (_invalidate_compaction_lineage_for_rewrite _ _ _ _) as [[b cdb2]|e] eqn:Ei; [|done].
  apply invalidate_spec in Ei as (s & cdb1 & s' & He & _ & Hs').
  apply ensure_base in He.
  pose proof (numbered_delete chat c (M.chat_seq target) (base cdb2)) as Hdel.
  destruct (ChatSequencer.delete_tail (base cdb2) c (M.chat_seq target)) as [k db3]. cbn [snd] in Hdel.
  intros [= <- <-].
  assert (H2 : numbered chat (base cdb) (base cdb2)).
  { eapply numbered_trans; [apply (numbered_repair chat now _ c)|]. cbn in He. rewrite <- He.
    destruct Hs' as [(_ & -> & _)|(_ & _ & ->)]; [apply numbered_refl|by apply numbered_update]. }
  eapply numbered_trans; [exact H2|]. eapply numbered_trans; [exact Hdel|].
  change (base (over base (λ _, ?x) _)) with x. change (base (with_base cdb2 db3)) with db3.
  unfold MessageStore.live_session. destruct (chat_sessions db3 !! c) as [ses|] eqn:Es; [|apply numbered_refl].
  destruct (is_null _); [|apply numbered_refl]. eapply numbered_session; [exact Es|]. cbn. lia.
Qed.

Lemma apply_numbered chat o cdb : numbers chat o.2 → numbered chat (base cdb) (base (apply o cdb)).
Proof.
  destruct o as [now o]. cbn [snd]. intros Ho. unfold apply. cbn [fst snd].
  destruct o as [digest c owner lease|c owner|id snap owner summary repl manifest|c id|f];
    try (apply (run_commit (λ d, numbered chat (base cdb) (base d))); [apply numbered_refl|intros a cdb' E]).
  - pose proof (acquire_other _ _ _ _ _ _ _ _ E) as [snap ->].
    apply acquire_spec in E as (s & cdb2 & k & He & _ & _ & _ & _ & _ & _ & _ & _ & _ & _ & _ & ->).
    apply ensure_base in He. change (base (put_state ?d _ _)) with (base d). rewrite He. apply numbered_repair.
  - revert E. unfold release_compaction_lease. destruct (compaction_states cdb !! c); [destruct (sql_eq _ _)|];
      intros [= <- <-]; apply numbered_refl.
  - by eapply publish_numbered.
  - by eapply delete_numbered.
  - apply Ho.
Qed.

Lemma apply_all_numbered chat os cdb :
  Forall (λ o, numbers chat o.2) os → numbered chat (base cdb) (base (apply_all os cdb)).
Proof.
  intros Hf. revert cdb. induction Hf as [|o os Ho _ IH]; intros cdb; [apply numbered_refl|].
  cbn [apply_all foldl]. eapply numbered_trans; [by apply apply_numbered|apply IH].
Qed.

(** ** Reading a stored checkpoint back *)

Lemma dict_set_fresh (d : dict) k v : k ∉ d.*1 → dict_set d k v = d ++ [(k, v)].
Proof.
  induction d as [|[k0 v0] d IH]; intros Hn; [done|]. cbn in Hn |- *.
  apply not_elem_of_cons in Hn as [Hne Hn]. rewrite bool_decide_false by done. by rewrite IH.
Qed.

Lemma fold_dict_set (l acc : dict) :
  NoDup (acc ++ l).*1 → foldl (λ a kv, dict_set a kv.1 kv.2) acc l = acc ++ l.
Proof.
  revert acc. induction l as [|[k v] l IH]; intros acc Hn; cbn [foldl]; [by rewrite app_nil_r|].
  assert (Hk : k ∉ acc.*1).
  { rewrite fmap_app in Hn. apply NoDup_app in Hn as (_ & Hd & _). intros Hin. apply (Hd k Hin). left. }
  cbn [fst snd]. rewrite dict_set_fresh by done. rewrite IH; [by rewrite <- app_assoc|by rewrite <- app_assoc].
Qed.

(** A dictionary with its own keys keeps them when it is stored. *)
Lemma strip_nul_plain (d : dict) :
  map (λ kv, MessageStore.strip_nul_str kv.1) d = d.*1 → NoDup d.*1 →
  MessageStore.strip_nul_dict d = map (λ kv, (kv.1, MessageStore.strip_nul kv.2)) d.
Proof.
  intros Hk Hnd. unfold MessageStore.strip_nul_dict. cbn [MessageStore.strip_nul].
  assert (Hm : map (λ kv, (MessageStore.strip_nul_str kv.1, MessageStore.strip_nul kv.2)) d =
               map (λ kv, (kv.1, MessageStore.strip_nul kv.2)) d).
  { clear Hnd. induction d as [|[k v] d IH]; [done|]. injection Hk as E Hk. cbn [map fst snd].
    f_equal; [by f_equal|by apply IH]. }
  rewrite Hm. apply (fold_dict_set _ []). cbn [app]. rewrite <- list_fmap_compose. exact Hnd.
Qed.

Lemma stored_dicts (l : list dict) :
  map MessageStore.strip_nul (map JDict l) = map (λ d, JDict (MessageStore.strip_nul_dict d)) l.
Proof. by rewrite map_map. Qed.

Lemma stored_extra snap repl manifest :
  let d := MessageStore.strip_nul_dict (checkpoint_extra snap repl manifest) in
  dict_get d "replacement_history" = Some (JList (map MessageStore.strip_nul (map JDict repl))) ∧
  dict_get d "covered_seq" = Some (JInt (sn_covered_seq snap)) ∧
  dict_get d "kind" = Some (JStr COMPACTION_CHECKPOINT_KIND).
Proof.
  cbv zeta. rewrite strip_nul_plain; [done|vm_compute; reflexivity|].
  apply (bool_decide_unpack _). vm_compute. exact I.
Qed.

Lemma find_update_other (p q : M.t → bool) f l :
  (∀ m, p m = p (if q m then f m else m)) → (∀ m, p m = true → q m = false) →
  List.find p (update_where q f l) = List.find p l.
Proof.
  intros Hp Hq. induction l as [|m l IH]; [done|]. cbn [update_where map List.find] in *.
  rewrite <- Hp. destruct (p m) eqn:E; [by rewrite (Hq m E)|exact IH].
Qed.

(** The message a commit stores is found under its identifier. *)
Lemma committed_message id snap owner summary repl manifest now cdb a cdb' :
  base_checkpoint_id snap ≠ Some id →
  commit_compaction_checkpoint id snap owner summary repl manifest now cdb = Commit a cdb' →
  ∃ seq, ChatSequencer.get_message (base cdb') id =
    Some (M.mk id (sn_chat_id snap) seq "system" (MessageStore.strip_nul_text summary) None
            (MessageStore.strip_nul_dict (checkpoint_extra snap repl manifest)) now).
Proof.
  intros Hne (db1 & s & _ & _ & Hc & _ & _ & ->)%commit_spec.
  apply create_spec in Hc as (seq & Hm & Hfree & _). exists seq.
  set (row := M.mk _ _ _ _ _ _ _ _) in *.
  assert (Hfind : ChatSequencer.get_message db1 id = Some row).
  { unfold ChatSequencer.get_message. rewrite Hm. clear Hm. induction (chat_messages (base cdb)) as [|m l IH].
    - cbn. by rewrite bool_decide_true.
    - cbn [app List.find]. rewrite bool_decide_false by (apply Hfree; left). apply IH.
      intros x Hx. apply Hfree. by right. }
  change (base (put_state ?d _ _)) with (base d). change (base (over base (λ _, ?x) _)) with x.
  destruct (base_checkpoint_id snap) as [i|]; [|done]. case_bool_decide; [done|].
  unfold ChatSequencer.get_message, set_extra. cbn [chat_messages over].
  change (List.find (λ m, bool_decide (M.message_id m = id))
    (update_where (λ m, bool_decide (M.message_id m = i)) (λ m, m <| M.extra_data := retire (M.extra_data m) |>)
       (chat_messages db1)) = Some row).
  rewrite find_update_other; [exact Hfind| |].
  - intros m. by case_match.
  - intros m Hp%bool_decide_eq_true. apply bool_decide_eq_false. congruence.
Qed.
