(* ===== verification/LineageThms.v ===== *)
(** * Compaction checkpoints of a chat: what the protocol gives

    A lineage has one successor per version; a rewrite of the history fences a
    summary that is being written; a checkpoint that is published is the one that
    is served, and hides no message its writer had not read.  The admission of an
    edited turn does not take part in the protocol, and neither does an answer
    that is still being written: three executions show what is lost. *)

From S2P Require Import Prelude Db RunJournal PyString Program ChatSequencer QueuedHandoff Lineage.
From S2P Require Import ChatSequencerProps LineageProps.

#[local] Open Scope Z_scope.

Import Lineage.


(** of two snapshots of a chat with the same version at most one is ever
    published: once one has been, every attempt to publish the other fails and
    changes nothing, whatever was done in between, by whomever. *)
Theorem checkpoint_has_one_successor snap1 snap2 id1 id2 owner1 owner2 text1 text2 repl1 repl2 man1 man2
    now1 now2 os cdb a cdb1 :
  sn_chat_id snap1 = sn_chat_id snap2 → base_checkpoint_version snap1 = base_checkpoint_version snap2 →
  run_tx (commit_compaction_checkpoint id1 snap1 owner1 text1 repl1 man1 now1) cdb = (Ok a, cdb1) →
  ∃ e, run_tx (commit_compaction_checkpoint id2 snap2 owner2 text2 repl2 man2 now2) (apply_all os cdb1)
       = (Err e, apply_all os cdb1).
Proof.
  intros Hchat Hver Hrun. apply run_error; [|intros b; apply commit_no_rollback].
  intros b s' (db1 & s2 & _ & _ & _ & Hs2 & Hp & _)%commit_spec.
  apply may_publish_true in Hp as (Hv & _ & _).
  apply run_ok in Hrun; [|apply commit_no_rollback].
  assert (H1 : ∃ st, compaction_states cdb1 !! sn_chat_id snap1 = Some st ∧
                     St.checkpoint_version st = base_checkpoint_version snap1 + 1).
  { apply commit_spec in Hrun as (db & s & _ & _ & _ & _ & _ & ->).
    eexists. split; [apply lookup_insert_eq|reflexivity]. }
  destruct H1 as (st & Hst & Hv1). destruct (version_grows os cdb1 _ st Hst) as (s3 & Hs3 & Hle).
  rewrite Hchat, Hs2 in Hs3. injection Hs3 as <-. lia.
Qed.

(** C11: deleting from the history fences a summary that is being written: when
    [delete_messages_from] has deleted a message after a snapshot was taken, the
    snapshot is never published, whatever others do before and after.  (The
    sequencer deletes the messages of a replaced turn without this: see
    [edited_turn_does_not_fence].) *)
Theorem rewrite_fences_summary digest chat owner lease now snap cdb0 cdb1 os1 mid now1 n cdb2 os2
    id summary repl manifest now2 :
  owner ≠ "" → foreign owner os2 →
  run_tx (acquire_compaction_snapshot digest chat owner lease now) cdb0 = (Ok (Some snap), cdb1) →
  run_tx (delete_messages_from chat mid now1) (apply_all os1 cdb1) = (Ok (S n), cdb2) →
  ∃ e, run_tx (commit_compaction_checkpoint id snap owner summary repl manifest now2) (apply_all os2 cdb2)
       = (Err e, apply_all os2 cdb2).
Proof.
  intros Hne Hf Hacq Hdel. apply run_error; [|intros b; apply commit_no_rollback].
  intros b s' (db1 & s & _ & _ & _ & Hs & Hp & _)%commit_spec.
  apply may_publish_true in Hp as (_ & _ & Hl).
  apply run_ok in Hacq; [|apply acquire_no_rollback].
  apply acquire_spec in Hacq as (? & ? & ? & _ & _ & _ & _ & _ & Hchat & _).
  rewrite Hchat in Hs.
  apply run_ok in Hdel; [|unfold delete_messages_from; cbv zeta; repeat case_match; discriminate].
  apply (delete_drops_lease owner) in Hdel; [|done].
  by apply (lease_stays_lost owner chat os2 cdb2 Hf Hdel s Hs).
Qed.

(** C13: a checkpoint hides no message its writer could have read and had not:
    whatever is done after a snapshot was taken, as long as it takes the numbers of
    new messages from the allocator ([numbers]), of every message the chat then has
    the number is past the watermark of the snapshot, or at or before the watermark
    the previous checkpoint left, or the message is in the snapshot, or was itself
    a checkpoint.  (The watermark of the previous checkpoint may outlive its
    summary: see [edited_turn_orphans_messages].) *)
Theorem checkpoint_hides_nothing_unread digest chat owner lease now snap cdb0 cdb1 os session m :
  chat_sessions (base cdb0) !! chat = Some session →
  run_tx (acquire_compaction_snapshot digest chat owner lease now) cdb0 = (Ok (Some snap), cdb1) →
  Forall (λ o, numbers chat o.2) os →
  m ∈ chat_rows (base (apply_all os cdb1)) chat →
  sn_covered_seq snap < M.chat_seq m ∨ M.chat_seq m <= base_covered_seq snap ∨
  (∃ r, r ∈ source_rows snap ∧ sr_message_id r = M.message_id m ∧ sr_chat_seq r = M.chat_seq m) ∨
  ∃ c, c ∈ chat_rows (base cdb0) chat ∧ is_checkpoint c = true ∧ M.message_id c = M.message_id m.
Proof.
  intros Hses Hacq Hos Hm.
  apply run_ok in Hacq; [|apply acquire_no_rollback].
  apply acquire_spec in Hacq as (s & cdb2 & k & He & _ & _ & _ & _ & _ & _ & _ & _ & Hbase & Hrows & Hmax & Hcdb).
  assert (Hb1 : base cdb1 = base cdb2) by (by rewrite Hcdb). clear Hcdb.
  apply ensure_base in He. cbn in He.
  destruct (repaired now (base cdb0) chat session Hses) as (n & Hn & Hbelow). rewrite <- He in Hn, Hbelow.
  rewrite <- Hb1 in Hn. destruct (apply_all_numbered chat os cdb1 Hos n Hn) as (n' & _ & _ & Hold).
  destruct (Hold m Hm) as [(m0 & H0 & Ei & Es)|Hge].
  - rewrite Hb1 in H0.
    destruct (Z.le_gt_cases (M.chat_seq m0) (St.covered_seq s)) as [Hle|Hgt]; [right; left; lia|].
    right; right. destruct (is_checkpoint m0) eqn:Ec.
    + right. exists m0. split; [|done]. apply elem_of_chat_rows in H0 as [H0 Hc]. apply elem_of_chat_rows.
      split; [|done]. rewrite He in H0. revert H0. unfold _ensure_message_sequences. rewrite Hses. cbv zeta.
      by case_match.
    + left. exists (source_row m0). split; [|done]. rewrite Hrows. apply list_elem_of_fmap_2.
      apply list_elem_of_In, List.filter_In. rewrite Ec. split; [|done]. apply list_elem_of_In.
      unfold rows_after. apply elem_of_order_by, list_elem_of_In, List.filter_In.
      split; [by apply list_elem_of_In|by apply Z.ltb_lt].
  - left. apply max_opt_elem in Hmax. rewrite Hrows in Hmax.
    apply list_elem_of_fmap in Hmax as (r & -> & Hr). apply list_elem_of_fmap in Hr as (m1 & -> & Hr).
    apply list_elem_of_In, List.filter_In in Hr as [Hr _]. apply list_elem_of_In in Hr.
    unfold rows_after in Hr. apply elem_of_order_by, list_elem_of_In, List.filter_In in Hr as [Hr _].
    apply list_elem_of_In, Hbelow in Hr. cbn. lia.
Qed.

(** C29: the checkpoint that has been published is the one that is served: the
    lineage names it, with its watermark, its version and no lease, and the
    history loaded for the chat is the stored replacement followed by the rows
    after the watermark. *)
Theorem checkpoint_is_served id snap owner summary repl manifest now cdb a cdb' :
  id ≠ "" → 0 <= sn_covered_seq snap → base_checkpoint_id snap ≠ Some id →
  run_tx (commit_compaction_checkpoint id snap owner summary repl manifest now) cdb = (Ok a, cdb') →
  let chat := sn_chat_id snap in
  _load_history_rows true cdb' chat =
    Ok (map (λ d, JDict (MessageStore.strip_nul_dict d)) repl,
        replayed_rows (base cdb') (rows_after (base cdb') chat (sn_covered_seq snap))) ∧
  (∃ c, get_latest_compaction_checkpoint cdb' chat = Some c ∧ M.message_id c = id ∧
        M.content c = MessageStore.strip_nul_text summary) ∧
  ∃ s, compaction_states cdb' !! chat = Some s ∧ St.active_checkpoint_id s = Some id ∧
       St.checkpoint_version s = base_checkpoint_version snap + 1 ∧
       St.covered_seq s = sn_covered_seq snap ∧ St.lease_owner s = None.
Proof.
  intros Hid Hpos Hbase Hrun. cbv zeta. apply run_ok in Hrun; [|apply commit_no_rollback].
  pose proof (committed_message _ _ _ _ _ _ _ _ _ _ Hbase Hrun) as (seq & Hget).
  apply commit_spec in Hrun as (db1 & s & _ & _ & _ & _ & _ & ->).
  destruct (stored_extra snap repl manifest) as (Hr & Hc & _).
  set (extra := MessageStore.strip_nul_dict _) in *. set (row := M.mk _ _ _ _ _ _ _ _) in *.
  set (st := s <| St.active_checkpoint_id := _ |> <| St.checkpoint_version := _ |> <| St.covered_seq := _ |>
               <| St.lease_owner := _ |> <| St.lease_expires_at := _ |> <| St.updated_at := _ |>) in *.
  set (cdb' := put_state _ _ _) in *.
  assert (Hst : compaction_states cdb' !! sn_chat_id snap = Some st) by apply lookup_insert_eq.
  assert (Hlatest : get_latest_compaction_checkpoint cdb' (sn_chat_id snap) = Some row).
  { unfold get_latest_compaction_checkpoint. rewrite Hst.
    change (St.active_checkpoint_id st) with (Some id). cbn [set_str]. rewrite bool_decide_false by done.
    cbn [negb]. rewrite Hget. unfold has_covered_seq, entry. change (M.extra_data row) with extra. by rewrite Hc. }
  split; [|split; [by exists row|by exists st]].
  unfold _load_history_rows. rewrite Hlatest. change (M.extra_data row) with extra.
  assert (Hrepl : stored_history extra = Ok (map (λ d, JDict (MessageStore.strip_nul_dict d)) repl)).
  { unfold stored_history. rewrite Hr, stored_dicts. by destruct repl. }
  rewrite Hrepl. unfold _checkpoint_covered_seq, watermark, entry. change (M.extra_data row) with extra.
  rewrite Hc. cbn [int_of]. by rewrite Z.max_r.
Qed.

(** ** An example chat *)

Definition no_digest (_ _ _ : Z) (_ : list CompactionSourceRow) : string := "digest".
Definition empty_chat : CDb :=
  mkCDb (empty_db <| chat_sessions := <["c" := ChatSession.mk "c" "u" "title" 0 (Some 1) 0 None None]> ∅ |>) ∅.

(** A transaction of another component, and the final text of an answer. *)
Definition on_base {A} (f : Db → tx Db exn A) (cdb : CDb) : CDb := with_base cdb (run_tx f (base cdb)).2.
Definition store_answer (message_id : string) : Db → tx Db exn unit := λ db,
  match MessageStore.upsert_message 20 db "c" "assistant" (text_of "the answer") message_id None None (Some []) None with
  | Ok db' => Commit tt db'
  | Err e => Raise e
  end.
Definition admit_turn (run user answer : string) : CDb → CDb :=
  on_base (ChatSequencer.accept_main_body run user answer "c" "u" (text_of "a question") [] None [] 10).
Definition turn (run user answer : string) (cdb : CDb) : CDb :=
  on_base (ChatSequencer.release_writer run Completed 30)
    (on_base (store_answer answer) (admit_turn run user answer cdb)).
(** The edit of a question: the sequencer replaces the turn and what follows. *)
Definition edit_turn (run user answer target : string) (from : Z) : CDb → CDb :=
  on_base (ChatSequencer.accept_replacement_body run user answer "c" "u" target from
             (text_of "another question") [] None [] 40).

Definition acquire_as (owner : string) (now : Z) (cdb : CDb) : result exn (option CompactionSnapshot) * CDb :=
  run_tx (acquire_compaction_snapshot no_digest "c" owner 60 now) cdb.
Definition summary_row : dict := [("role", JStr "user"); ("content", JStr "the summary")].
Definition publish_as (owner id : string) (now : Z) (s : result exn (option CompactionSnapshot)) (cdb : CDb)
    : result exn string * CDb :=
  match s with
  | Ok (Some snap) =>
      run_tx (commit_compaction_checkpoint id snap owner (text_of "the summary") [summary_row] [] now) cdb
  | _ => (Err OperationalError, cdb)
  end.

(** What the model is shown: how many rows of a summary, and which messages. *)
Definition shown (cdb : CDb) : option (nat * list string) :=
  match _load_history_rows true cdb "c" with
  | Ok (replacement, rows) => Some (length replacement, map M.message_id rows)
  | Err _ => None
  end.
Definition stored (cdb : CDb) : list string := map M.message_id (chat_rows (base cdb) "c").
Definition read_by (s : result exn (option CompactionSnapshot)) : option (list string) :=
  match s with Ok (Some snap) => Some (map sr_message_id (source_rows snap)) | _ => None end.

(** An edited turn does not fence the summary that is being written: the
    snapshot of a turn that has been replaced since is published, and the model
    is shown the summary of the deleted turn. *)
Theorem edited_turn_does_not_fence :
  let one_turn := turn "r1" "m1" "m2" empty_chat in
  let '(snapshot, held) := acquire_as "w" 50 one_turn in
  let edited := edit_turn "r2" "m3" "m4" "m1" 1 held in
  let '(published, final) := publish_as "w" "k" 60 snapshot edited in
  read_by snapshot = Some ["m1"; "m2"] ∧ stored edited = ["m3"; "m4"] ∧
  published = Ok "k" ∧ shown final = Some (1%nat, ["m3"]).
Proof. vm_compute. done. Qed.

(** An edited turn leaves the watermark of the checkpoint it deletes: the next
    snapshot begins after it without a history, and once it is published the
    messages before the edit are shown neither themselves nor in a summary. *)
Theorem edited_turn_orphans_messages :
  let two_turns := turn "r2" "m3" "m4" (turn "r1" "m1" "m2" empty_chat) in
  let '(snapshot, held) := acquire_as "w" 50 two_turns in
  let '(_, compacted) := publish_as "w" "k" 60 snapshot held in
  let edited := edit_turn "r3" "m5" "m6" "m3" 3 compacted in
  let '(snapshot', held') := acquire_as "w" 70 edited in
  let '(published, final) := publish_as "w" "k2" 80 snapshot' held' in
  stored edited = ["m1"; "m2"; "m5"; "m6"] ∧ read_by snapshot' = Some ["m5"; "m6"] ∧
  published = Ok "k2" ∧ shown final = Some (1%nat, []).
Proof. vm_compute. done. Qed.

(** A checkpoint taken during a turn covers the row its answer is written to:
    the answer that is stored afterwards is not shown in the next turn. *)
Theorem midturn_checkpoint_hides_answer :
  let running := admit_turn "r1" "m1" "m2" empty_chat in
  let '(snapshot, held) := acquire_as "w" 50 running in
  let '(published, compacted) := publish_as "w" "k" 60 snapshot held in
  let answered := on_base (ChatSequencer.release_writer "r1" Completed 80) (on_base (store_answer "m2") compacted) in
  read_by snapshot = Some ["m1"; "m2"] ∧ published = Ok "k" ∧
  M.content <$> ChatSequencer.get_message (base answered) "m2" = Some (text_of "the answer") ∧
  shown answered = Some (1%nat, []).
Proof. vm_compute. done. Qed.

(** ** Witnesses *)

Definition sample_snapshot (owner : string) (covered : Z) : CompactionSnapshot :=
  mkSnapshot "c" owner None 0 0 covered "digest" [] [].

Definition sample_chat : CDb := turn "r1" "m1" "m2" empty_chat.
Definition sample_held : CDb := (acquire_as "w" 50 sample_chat).2.
Definition sample_taken : CompactionSnapshot :=
  match (acquire_as "w" 50 sample_chat).1 with Ok (Some s) => s | _ => sample_snapshot "w" 0 end.

Lemma sample_acquired : acquire_as "w" 50 sample_chat = (Ok (Some sample_taken), sample_held).
Proof. vm_compute. reflexivity. Qed.

Lemma checkpoint_has_one_successor_witness :
  let published := (publish_as "w" "k" 60 (Ok (Some sample_taken)) sample_held).2 in
  ∃ e, run_tx (commit_compaction_checkpoint "k2" (sample_snapshot "w2" 9) "w2" [] [] [] 70)
         (apply_all [(65, Acquire no_digest "c" "w2" 60)] published)
       = (Err e, apply_all [(65, Acquire no_digest "c" "w2" 60)] published).
Proof.
  cbv zeta.
  apply (checkpoint_has_one_successor sample_taken (sample_snapshot "w2" 9) "k" "k2" "w" "w2"
           (text_of "the summary") [] [summary_row] [] [] [] 60 70
           [(65, Acquire no_digest "c" "w2" 60)] sample_held "k").
  - vm_compute. reflexivity.
  - vm_compute. reflexivity.
  - vm_compute. reflexivity.
Defined.

Lemma rewrite_fences_summary_witness :
  let deleted := (run_tx (delete_messages_from "c" "m2" 55) sample_held).2 in
  ∃ e, run_tx (commit_compaction_checkpoint "k" sample_taken "w" [] [] [] 60) deleted = (Err e, deleted).
Proof.
  cbv zeta.
  apply (rewrite_fences_summary no_digest "c" "w" 60 50 sample_taken sample_chat sample_held [] "m2" 55 0
           (run_tx (delete_messages_from "c" "m2" 55) sample_held).2 []).
  - discriminate.
  - constructor.
  - exact sample_acquired.
  - vm_compute. reflexivity.
Defined.

Lemma checkpoint_hides_nothing_unread_witness :
  ∃ m, m ∈ chat_rows (base (apply_all [(60, Publish "k" sample_taken "w" [] [] [])] sample_held)) "c" ∧
    M.message_id m = "m2" ∧
    (sn_covered_seq sample_taken < M.chat_seq m ∨ M.chat_seq m <= base_covered_seq sample_taken ∨
     (∃ r, r ∈ source_rows sample_taken ∧ sr_message_id r = M.message_id m ∧ sr_chat_seq r = M.chat_seq m) ∨
     ∃ c, c ∈ chat_rows (base sample_chat) "c" ∧ is_checkpoint c = true ∧ M.message_id c = M.message_id m).
Proof.
  set (os := [(60, Publish "k" sample_taken "w" [] [] [])]).
  destruct (List.find (λ m, bool_decide (M.message_id m = "m2")) (chat_rows (base (apply_all os sample_held)) "c"))
    as [m|] eqn:E; [|vm_compute in E; discriminate E].
  apply List.find_some in E as [Hm Hid%bool_decide_eq_true]. apply list_elem_of_In in Hm.
  exists m. split; [exact Hm|]. split; [exact Hid|].
  apply (checkpoint_hides_nothing_unread no_digest "c" "w" 60 50 sample_taken sample_chat sample_held os
           (default (ChatSession.mk "c" "u" "title" 0 (Some 1) 0 None None) (chat_sessions (base sample_chat) !! "c")) m).
  - vm_compute. reflexivity.
  - exact sample_acquired.
  - repeat constructor.
  - exact Hm.
Defined.

Lemma checkpoint_is_served_witness :
  let final := (run_tx (commit_compaction_checkpoint "k" sample_taken "w" (text_of "the summary") [summary_row] [] 60)
                  sample_held).2 in
  _load_history_rows true final "c" =
    Ok ([JDict (MessageStore.strip_nul_dict summary_row)], replayed_rows (base final) (rows_after (base final) "c" 2)).
Proof.
  cbv zeta.
  refine (proj1 (checkpoint_is_served "k" sample_taken "w" (text_of "the summary") [summary_row] [] 60
                   sample_held "k" _ _ _ _ _)).
  - discriminate.
  - vm_compute. discriminate.
  - vm_compute. discriminate.
  - vm_compute. reflexivity.
Defined.
